(* ===== verification/_CoqProject ===== *)
-Q . S2P
Prelude.v
Allocator.v
Tensor.v
ForwardBatch.v
LowConfidence.v
JointThreshold.v
FastDiffuser.v
FastDiffuserProofs.v
LinearSpec.v
TidarInput.v
Tidar.v
DllmReq.v
StopStrings.v
DllmServerArgs.v
Streaming.v
Detokenizer.v
DetokenizerProofs.v
DetokenizerExamples.v
Responses.v
ResponsesProofs.v
ResponsesExamples.v
SamplingParams.v
PrefillAdder.v
MemCommon.v
KvAccounting.v
DllmScheduler.v
DllmSchedulerProofs.v
DllmService.v
DllmLiveness.v
ForwardInit.v
DllmInstances.v
DllmChannels.v
DllmExamples.v
DllmStops.v
RadixKey.v
RadixCache.v
RadixCacheProofs.v
RadixCacheTheorems.v
RadixCacheRequests.v
RadixPrefixCache.v
RadixLocks.v
RadixCacheExamples.v
DllmRadix.v
StableSort.v
IgnoreEos.v
SchedulePolicy.v
SchedulePolicyWalk.v
SchedulePolicyProofs.v
SchedulePolicyExamples.v
DecodeBatch.v
DecodeMemory.v
DecodeRetract.v
DecodeTurn.v
Preempt.v
DecodeExamples.v
ArServer.v
ArQueue.v
Intake.v
Sessions.v
SessionsProofs.v
SessionsExamples.v
Reasoning.v
ReasoningProofs.v
ArAdmission.v
ArPrefill.v
ArServerProofs.v
ArPolicy.v
ArService.v
ArFaults.v
ArExamples.v
