(* ===== verification/Prelude.v ===== *)
(** * A verification library for SGLang's diffusion-LLM serving

    The program is the serving engine SGLang (src/python/sglang/srt) with its
    support for diffusion language models: a request is decoded block by block,
    a block being denoised by an algorithm that runs several forwards, while a
    scheduler admits requests, gives them KV-cache slots and takes the slots of
    rejected tokens back.

    ** The parts and how they interact

    One turn of the event loop (managers/scheduler.py, dllm/mixin/scheduler.py)
    moves requests from the waiting queue to the diffusion manager, asks the
    PrefillAdder (managers/schedule_policy.py) what fits, allocates rows and
    slots for the batch (mem_cache/common.py, memory_pool.py, allocator.py),
    evicting from the prefix cache (radix_cache.py, chunk_cache.py) when short,
    builds the forward batch (model_executor/forward_batch_info.py), runs the
    configured algorithm (dllm/algorithm/), appends the committed tokens to the
    requests, and releases the memory of the finished ones.  What is new is
    reported to the detokenizer (managers/detokenizer_manager.py), a process
    that sends text to the tokenizer manager (managers/tokenizer_manager.py),
    which answers the clients.

    ** Files, in dependency order

    - Prelude: Python exceptions and the error monad [res], slices, ranges,
      masked kernel copies, tables as flat memory (a store past the end of a row
      lands in the next one), lists up to permutation.
    - Allocator: mem_cache/allocator.py.  [Token] is TokenToKVPoolAllocator,
      [Paged] is PagedTokenToKVPoolAllocator with its two Triton kernels and
      the reference loop; the state is the record [allocator].
    - Tensor: the torch operations the algorithms use (argmax, softmax through
      the class [Softmax], topk through [TopK], where, block updates).
    - ForwardBatch, ForwardInit: the batch the model sees and how
      ForwardBatch.init_new derives it from a scheduled batch.
    - LowConfidence, JointThreshold, FastDiffuser (theorems in
      FastDiffuserProofs), LinearSpec, TidarInput and Tidar: the five decoding
      algorithms of dllm/algorithm/, one [run] each, whole loops included.
    - DllmReq: DllmConfig.from_server_args and the request (ReqDllmMixin, the
      methods of Req the diffusion path runs): the records [req_info],
      [req_out], [req_kv], [req_in].
    - DllmServerArgs: _handle_dllm_inference of server_args.py.
    - StopStrings: the search for stop strings and stop regexes in the tail of
      the output (Req of managers/schedule_batch.py); SamplingParams:
      sampling/sampling_params.py; DllmStops: stop strings in diffusion blocks.
    - Streaming: stream_output_generation of
      managers/scheduler_output_processor_mixin.py with the incremental state of
      Req; Detokenizer: managers/detokenizer_manager.py, DetokenizerProofs with
      the interface [Decoder] that a tokenizer satisfies, DetokenizerExamples.
    - Responses: the ReqStates of managers/tokenizer_manager.py, its handle loop
      and the generators of the requests, as a step relation over the points
      where they wait; ResponsesProofs, ResponsesExamples.
    - PrefillAdder: the admission budgets of managers/schedule_policy.py;
      IgnoreEos: its add_one_req_ignore_eos.
    - MemCommon: the request table, slot allocation for a batch, release of a
      request; the interface [PrefixCache] and ChunkCache as an instance.
    - KvAccounting: [holds], who owns which slot and which row.
    - DllmScheduler: DllmManager and SchedulerDllmMixin over a store of shared
      request objects; DllmSchedulerProofs: the interface [DllmAlgorithm] and
      the scheduler's invariant; DllmService: the event loop as a step relation
      and as a function; DllmLiveness; DllmChannels: the logprob channels.
    - DllmInstances: LowConfidence and TiDAR as instances of [DllmAlgorithm];
      DllmExamples: a server that runs.
    - RadixKey, RadixCache: mem_cache/radix_cache.py and evict_policy.py, a
      store of nodes linked both ways; RadixCacheProofs: the tree invariant and
      what the tree means; RadixCacheTheorems, RadixCacheRequests: the
      operations against that meaning; RadixPrefixCache: the radix cache as an
      instance of [PrefixCache]; RadixLocks: locks taken and given back during
      admission; RadixCacheExamples; DllmRadix: the diffusion server on the
      radix cache.
    - StableSort: list.sort and the orders of its keys; SchedulePolicy: the
      class of that name in managers/schedule_policy.py, on the radix cache;
      SchedulePolicyWalk: the recursive walks of dfs-weight;
      SchedulePolicyProofs, SchedulePolicyExamples.
    - DecodeBatch: ScheduleBatch while it decodes for an autoregressive model
      (managers/schedule_batch.py), its memory (mem_cache/common.py), and the
      turn around a decode forward (update_running_batch of
      managers/scheduler.py, process_batch_result_decode); DecodeMemory: who
      holds which slot of a batch on the radix cache; DecodeRetract: running
      out of memory; DecodeTurn: the whole turn; Preempt: preempt_to_schedule
      of managers/schedule_policy.py; DecodeExamples.
    - ArServer: the autoregressive server, one turn of event_loop_normal:
      get_next_batch_to_run (merging the last prefill batch, admission with the
      locks on the radix tree, prepare_for_extend), a forward, and
      process_batch_result_prefill or the decode turn; also the memory checks
      of scheduler_runtime_checker_mixin.py; ArQueue: receiving a request
      (handle_generate_request), the limit of the queue, timeouts and aborts;
      Intake: the validation by the tokenizer manager before it; Sessions:
      session/session_controller.py, with SessionsProofs and SessionsExamples;
      Reasoning: parser/reasoning_parser.py, which separates reasoning and
      answer of the text for the OpenAI endpoints, with ReasoningProofs.
      ArAdmission, ArPrefill, ArServerProofs:
      the parts of a turn against the accounting of DecodeMemory, with
      what the server asks of its policy as the class [QueuePolicy]; ArPolicy:
      the policies as instances of it; ArService: runs of the server as a step
      relation, and the theorems; ArFaults: what admission does wrong;
      ArExamples.

    ** What the theorems show

    - Memory: no slot and no row is lost, duplicated or shared in any reachable
      state of the server, for every cache and algorithm that satisfies its
      interface; a drained server has everything back (DllmService, DllmRadix).
      The same for TiDAR, which allocates and frees by itself (Tidar), for the
      allocators alone, and for the radix cache alone.  The diffusion server has
      pages of one slot and no strip_thinking there, its requests have room in
      their row for what the algorithm writes past the output limit (else
      [narrow_row_overwrites_next]), and its algorithm raises on a block that was
      cut for lack of memory, as LowConfidence and TiDAR do (else
      [truncated_block_overfrees]).
    - Algorithms: each [run] returns within a stated number of forwards with no
      prompt token changed, and the forward that fills the KV cache saw the
      returned tokens, under stated conditions; FastDiffuser leaves no mask, and
      LowConfidence and JointThreshold, which do not exclude the mask token from
      their predictions, leave none unless the model predicts it; LinearSpec
      refines one-token greedy decoding; TiDAR accepts the longest correct
      draft and always makes progress.
    - Equivalences: Triton kernels and pooled builders against their reference
      implementations, in the allocator, the request table, the positions and
      the TiDAR inputs; radix keys against the list of their units.
    - Radix cache: matching finds the longest cached prefix, inserting adds the
      missing suffix, the eviction heap implements the strategy, the counters
      are exact, and caching a request moves its slots without losing one.
    - Scheduling policies: ordering the queue cannot fail and loses nobody
      (what the server's theorems ask of it), and each policy's order is the
      declared one; in particular the depth-first walk over the radix tree
      visits siblings by the number of requests waiting below them.
    - Decode loop: a turn never fails for lack of memory and loses no request,
      since retraction always makes room for those it keeps; preemption is
      justified by priority, sufficient and no larger than needed.
    - Autoregressive server, with pages of one slot, preemption and chunked
      prefill off and requests within the limits: from its start no turn ever
      fails, its own leak checks never report anything, no request is lost and,
      if all fit the pool, every one is answered within a number of turns given
      by the tokens still wanted ([ar_server_drains]).  With preemption one can
      be lost ([preempted_request_lost]).  What the server receives is within
      the limits ([received_request_fits]), except that a prompt over the input
      limit raises the budget of the pass that admits it
      ([overlong_prompt_raises_budget]), which can bring the server down
      ([long_prompt_crashes]).  A bounded queue stays bounded and turns away
      the least preferred request.
    - Output: the reports of the scheduler carry every token once
      ([stream_sends_everything]), the detokenizer's increments add up to the
      text ([streamed_text_complete]), except with some CJK text
      ([streamed_text_repeats]) and states that were evicted, and the client gets them over every
      interleaving of the handle loop and the generators
      ([client_gets_output]), which are woken exactly when there is output
      ([wakeups_exact]) and raise only on aborts; an aborted id stays taken
      ([aborted_rid_stays]), and a generator that starts after its output came
      raises ([late_generator_raises]).
      The streaming reasoning parser agrees with the one-time parser when
      reasoning is streamed and no chunk boundary cuts the end tag
      ([streaming_matches_one_shot]).
    - Parameters of a request and of the server: a stop string whose tokens are
      generated is noticed ([stop_string_honoured]), but not inside a diffusion
      block ([block_stop_string_missed]); the look-back for regexes is a bound;
      the length checks of tokenizer manager and scheduler compared, and what
      automatic truncation leads to ([truncated_request_unanswered]); the
      arguments of a diffusion server turn off what its scheduler leaves
      out ([dllm_args_ready]).
    - Sessions: the tree of requests stays well formed, replacing a request
      removes exactly what is below it, replacing everything raises
      ([session_create_safe]), and a session in use is not released.
    - Admission of requests that ignore stop tokens: the forecast of the memory
      is sound, and exact for the first request of a pass (IgnoreEos).
    - Requests: finishing by stop token or length, per-token channels, budgets
      respected by admission, the work bound on the number of productive turns
      ([turns_bounded]), and the one way the server stops making progress ([oversized_prompt_stalls]).

    ** Fuel and bounds

    Loops that Python runs with [while] recurse on a bound that is proved
    enough: the number of steps an algorithm is configured with, the length of
    a key for a walk down the radix tree, the number of nodes for a walk up and
    for evictions.  Integers that the code keeps in int64 tensors (slots,
    lengths, token ids) are [Z]; the code computes no values near the width.

    ** Parameters

    Code outside the repository is a parameter with its documented behaviour as
    hypotheses: the model (a forward is a function of the batch and of how many
    forwards ran), softmax and topk of torch, heapq's [heappop], the clock,
    random.shuffle, the iteration order of a set, the tokenizer's encode and
    decode, re.search and sre_parse, grammar answers, and memory a masked
    kernel may read.

    ** Not modelled

    Device computation (layers, attention, CUDA graphs); tokenization, HTTP and
    the sockets between the processes; speculative decoding with a draft model,
    disaggregation and overlap scheduling, which diffusion serving turns off;
    of the autoregressive scheduler, chunked prefill, mixed batches and LoRA
    adapters; hierarchical cache storage, page hashes and KV events; multimodal
    inputs and grammars; the HarmonyParser of gpt-oss, a parameter of
    Reasoning; command-line flags other than those of diffusion
    serving.  The scheduler is
    modelled for the standard allocators with page size one where its theorems
    say so; the diffusion scheduler with an empty running batch, as diffusion
    serving has it.  Token
    ratios, floats in the code, are rationals. *)

From Stdlib Require Export ZArith Lia Bool.
From stdpp Require Export sorting numbers strings gmap prelude list.
Export stdpp.list_relations.list.

#[global] Open Scope Z_scope.
#[global] Set Default Goal Selector "!".

(** ** Exceptions

    The Python exceptions the modelled code raises.  A fallible operation
    returns a [res]: a value, or the class of the exception that escapes. *)

Inductive pyexn :=
  | AssertionError
  | RuntimeError
  | ValueError
  | IndexError
  | KeyError
  | AttributeError
  | TypeError
  | UnboundLocalError
  | ZeroDivisionError.

#[global] Instance pyexn_eq_dec : EqDecision pyexn.
Proof. solve_decision. Defined.

Inductive res (A : Type) :=
  | Ok (a : A)
  | Raise (e : pyexn).
Arguments Ok {A} a.
Arguments Raise {A} e.

#[global] Instance res_ret : MRet res := fun A a => Ok a.
#[global] Instance res_bind : MBind res := fun A B f m =>
  match m with Ok a => f a | Raise e => Raise e end.
#[global] Instance res_fmap : FMap res := fun A B f m =>
  match m with Ok a => Ok (f a) | Raise e => Raise e end.

(** [assert c] in Python. *)
Definition py_assert (c : bool) : res unit :=
  if c then Ok tt else Raise AssertionError.

Definition of_option {A} (e : pyexn) (o : option A) : res A :=
  match o with Some a => Ok a | None => Raise e end.

Lemma res_bind_Ok {A B} (f : A -> res B) (m : res A) (b : B) :
  (m ≫= f) = Ok b <-> exists a, m = Ok a /\ f a = Ok b.
Proof.
  destruct m as [a|e]; cbn; split; [eauto| |done|].
  - by intros (a' & [= ->] & ?).
  - by intros (a' & ? & _).
Qed.

Lemma py_assert_Ok c u : py_assert c = Ok u <-> c = true.
Proof. destruct c, u; cbn; naive_solver. Qed.

(** Running the next statement of a computation that did not raise. *)
Ltac step_ok := change (Ok ?x ≫= ?f) with (f x); cbn beta iota zeta.

(** A [for] loop whose body may raise. *)
Fixpoint foldM {S A} (f : S -> A -> res S) (s : S) (l : list A) : res S :=
  match l with
  | [] => Ok s
  | a :: l => s ← f s a; foldM f s l
  end.

Lemma foldM_app {S A} (f : S -> A -> res S) s l k :
  foldM f s (l ++ k) = (s' ← foldM f s l; foldM f s' k).
Proof. revert s. induction l as [|a l IH]; intros s; cbn; [done|]. destruct (f s a); cbn; auto. Qed.

(** Loop invariant of a [for i in range(n)] that does not raise. *)
Lemma foldM_seq {S} (f : S -> nat -> res S) (P : nat -> S -> Prop) n s :
  P 0%nat s ->
  (forall k s, (k < n)%nat -> P k s -> exists s', f s k = Ok s' /\ P (Datatypes.S k) s') ->
  exists s', foldM f s (seq 0 n) = Ok s' /\ P n s'.
Proof.
  intros H0 Hstep. enough (Hk : forall k, (k <= n)%nat ->
    exists s', foldM f s (seq 0 k) = Ok s' /\ P k s') by (by apply Hk).
  induction k as [|k IH]; intros Hk; [by exists s|].
  destruct IH as (s' & Hf & HP); [lia|].
  destruct (Hstep k s') as (s'' & Hs & HP'); [lia|done|].
  exists s''. split; [|done]. rewrite seq_S, foldM_app, Hf. cbn. by rewrite Hs.
Qed.

(** ** Python lengths and slices

    [len l] is Python's [len]; [slice l a b] is [l[a:b]] with Python's
    treatment of negative and out-of-range bounds (which torch shares). *)

Definition len {A} (l : list A) : Z := Z.of_nat (length l).

(** The index a slice bound denotes: a negative bound counts from the end,
    and the result is clamped to [0 .. len l]. *)
Definition clamp {A} (l : list A) (i : Z) : nat :=
  Z.to_nat (Z.min (len l) (Z.max 0 (if i <? 0 then i + len l else i))).

Definition slice_to {A} (l : list A) (b : Z) : list A := take (clamp l b) l.
Definition slice_from {A} (l : list A) (a : Z) : list A := drop (clamp l a) l.
Definition slice {A} (l : list A) (a b : Z) : list A :=
  drop (clamp l a) (take (clamp l b) l).

(** [l[i]] for an [i] that is not negative. *)
Definition nthZ {A} (l : list A) (i : Z) : option A :=
  if i <? 0 then None else l !! Z.to_nat i.

(** [range(a, b)]. *)
Definition range (a b : Z) : list Z := seqZ a (b - a).

(** [-(-a // b)]: the ceiling division idiom of the code. *)
Definition ceil_div (a b : Z) : Z := (a + b - 1) / b.

Section lists.
Context {A : Type}.
Implicit Types l k : list A.

Lemma len_nonneg l : 0 <= len l.
Proof. unfold len; lia. Qed.

Lemma len_app l k : len (l ++ k) = len l + len k.
Proof. unfold len; rewrite length_app; lia. Qed.

Lemma len_cons a l : len (a :: l) = 1 + len l.
Proof. unfold len; cbn; lia. Qed.

Lemma len_nil : len (@nil A) = 0.
Proof. done. Qed.

Lemma len_0 l : len l = 0 <-> l = [].
Proof. unfold len; destruct l; cbn; split; try done; lia. Qed.

Lemma clamp_nonneg l i : 0 <= i -> clamp l i = Z.to_nat (Z.min (len l) i).
Proof.
  intros; unfold clamp.
  destruct (Z.ltb_spec i 0); [lia|]. f_equal; lia.
Qed.

Lemma slice_to_take l b : 0 <= b -> slice_to l b = take (Z.to_nat b) l.
Proof.
  intros; unfold slice_to. rewrite clamp_nonneg by done. unfold len.
  destruct (decide (b <= Z.of_nat (length l))).
  - do 2 f_equal; lia.
  - rewrite !take_ge by lia; done.
Qed.

Lemma slice_from_drop l a : 0 <= a -> slice_from l a = drop (Z.to_nat a) l.
Proof.
  intros; unfold slice_from. rewrite clamp_nonneg by done. unfold len.
  destruct (decide (a <= Z.of_nat (length l))).
  - do 2 f_equal; lia.
  - rewrite !drop_ge by lia; done.
Qed.

Lemma slice_drop_take l a b :
  0 <= a -> 0 <= b -> slice l a b = drop (Z.to_nat a) (take (Z.to_nat b) l).
Proof.
  intros; unfold slice. fold (slice_to l b).
  rewrite slice_to_take by done. rewrite clamp_nonneg by done. unfold len.
  destruct (decide (a <= Z.of_nat (length l))).
  - do 2 f_equal; lia.
  - rewrite !drop_ge; [done| |]; rewrite length_take; lia.
Qed.

Lemma slice_to_from l i : slice_to l i ++ slice_from l i = l.
Proof. apply take_drop. Qed.

Lemma len_slice_to l b : 0 <= b <= len l -> len (slice_to l b) = b.
Proof.
  intros. rewrite slice_to_take by lia. unfold len in *.
  rewrite length_take; lia.
Qed.

Lemma len_slice_from l a : 0 <= a <= len l -> len (slice_from l a) = len l - a.
Proof.
  intros. rewrite slice_from_drop by lia. unfold len in *.
  rewrite length_drop; lia.
Qed.

Lemma len_slice l a b :
  0 <= a -> a <= b -> b <= len l -> len (slice l a b) = b - a.
Proof.
  intros. rewrite slice_drop_take by lia. unfold len in *.
  rewrite length_drop, length_take; lia.
Qed.

(** A list is a slice, what comes before it and what comes after it. *)
Lemma slice_split l a b :
  0 <= a -> a <= b ->
  l = slice_to l a ++ slice l a b ++ slice_from l b.
Proof.
  intros. rewrite slice_to_take, slice_drop_take, slice_from_drop by lia.
  rewrite app_assoc.
  replace (take (Z.to_nat a) l)
    with (take (Z.to_nat a) (take (Z.to_nat b) l))
    by (rewrite take_take; f_equal; lia).
  by rewrite !take_drop.
Qed.
End lists.

(** ** Ranges *)

Lemma len_range a b : a <= b -> length (range a b) = Z.to_nat (b - a).
Proof. intros. unfold range. by rewrite length_seqZ. Qed.

Lemma lookup_range a b i :
  range a b !! i = if decide (Z.of_nat i < b - a) then Some (a + Z.of_nat i) else None.
Proof.
  unfold range. case_decide.
  - apply lookup_seqZ_lt; lia.
  - apply lookup_seqZ_ge; lia.
Qed.

Lemma range_app a b c : a <= b -> b <= c -> range a c = range a b ++ range b c.
Proof.
  intros. unfold range. replace (c - a) with ((b - a) + (c - b)) by lia.
  rewrite seqZ_app by lia. do 2 f_equal; lia.
Qed.

Lemma range_cons a b : a < b -> range a b = a :: range (a + 1) b.
Proof.
  intros. unfold range. rewrite seqZ_cons by lia. do 2 f_equal; lia.
Qed.

Lemma range_empty a b : b <= a -> range a b = [].
Proof. intros. unfold range. apply seqZ_nil. lia. Qed.

Lemma NoDup_range a b : NoDup (range a b).
Proof. apply NoDup_seqZ. Qed.

Lemma range_seq n : range 0 (Z.of_nat n) = Z.of_nat <$> seq 0 n.
Proof.
  unfold range, seqZ. rewrite Z.sub_0_r, Nat2Z.id.
  apply list_fmap_ext. intros; lia.
Qed.

(** ** Masked copies

    A kernel copies in chunks of a fixed number of lanes and masks the lanes
    beyond the end. *)

Lemma foldl_flatten {X} (f : X -> nat -> X) w n s :
  foldl (fun s i => foldl (fun s lane => f s (i * w + lane)%nat) s (seq 0 w)) s (seq 0 n)
  = foldl f s (seq 0 (n * w)).
Proof.
  induction n as [|n IH]; [done|].
  rewrite seq_S, foldl_app, IH. cbn [foldl plus].
  replace (S n * w)%nat with (n * w + w)%nat by lia. rewrite seq_app, foldl_app. cbn [plus].
  generalize (foldl f s (seq 0 (n * w))). intros s'.
  assert (Hs : seq (n * w) w = Nat.add (n * w) <$> seq 0 w) by (rewrite fmap_add_seq; f_equal; lia).
  rewrite Hs. symmetry. apply foldl_fmap.
Qed.

Lemma masked_lanes {A} `{Inhabited A} kv_start kv_end o (loc row : list A) m :
  (kv_end <= length row)%nat ->
  let row' := foldl (fun row off =>
      if (kv_start + off <? kv_end)%nat
      then <[(kv_start + off)%nat := loc !!! (o + off)%nat]> row else row) row (seq 0 m) in
  length row' = length row /\
  forall i, row' !! i = if decide (kv_start <= i < Nat.min kv_end (kv_start + m))%nat
                        then Some (loc !!! (o + (i - kv_start))%nat) else row !! i.
Proof.
  intros Hw. cbn zeta. induction m as [|m [IHl IH]].
  - split; [done|]. intros i. cbn [seq foldl]. rewrite decide_False by lia. done.
  - rewrite seq_S, foldl_app. cbn [foldl plus]. set (r := foldl _ _ _) in *. clearbody r.
    destruct (Nat.ltb_spec (kv_start + m) kv_end).
    + split; [by rewrite length_insert|]. intros i. rewrite list_lookup_insert, IH, IHl.
      destruct (decide (kv_start + m = i /\ _)%nat) as [[<- _]|Hn].
      * rewrite decide_True by lia. do 2 f_equal. lia.
      * destruct (decide (kv_start <= i < Nat.min kv_end (kv_start + m))%nat).
        -- by rewrite decide_True by lia.
        -- rewrite decide_False by lia. done.
    + split; [done|]. intros i. rewrite IH. apply decide_ext. lia.
Qed.

(** The chunked, masked copy of [loc[o ..]] to [row[kv_start .. kv_end)]. *)
Definition masked_chunk {A} `{Inhabited A} (W kv_start kv_end o : nat) (loc row : list A) (i : nat)
    : list A :=
  foldl (fun row lane =>
      let off := (i * W + lane)%nat in
      if (kv_start + off <? kv_end)%nat
      then <[(kv_start + off)%nat := loc !!! (o + off)%nat]> row else row)
    row (seq 0 W).

Definition masked_copy {A} `{Inhabited A} (W kv_start kv_end o : nat) (loc row : list A) : list A :=
  foldl (masked_chunk W kv_start kv_end o loc) row (seq 0 ((kv_end - kv_start + W - 1) / W)).

Lemma masked_copy_spec {A} `{Inhabited A} W kv_start kv_end o (loc row : list A) :
  (0 < W)%nat -> (kv_start <= kv_end <= length row)%nat ->
  (o + (kv_end - kv_start) <= length loc)%nat ->
  masked_copy W kv_start kv_end o loc row
  = list_inserts kv_start (take (kv_end - kv_start) (drop o loc)) row.
Proof.
  intros HW Hle Ho. unfold masked_copy, masked_chunk.
  rewrite (foldl_flatten (fun row off =>
      if (kv_start + off <? kv_end)%nat
      then <[(kv_start + off)%nat := loc !!! (o + off)%nat]> row else row)).
  set (m := (_ / _ * W)%nat).
  assert (Hm : (kv_end - kv_start <= m)%nat).
  { subst m. pose proof (Nat.div_mod (kv_end - kv_start + W - 1) W ltac:(lia)).
    pose proof (Nat.mod_upper_bound (kv_end - kv_start + W - 1) W ltac:(lia)). lia. }
  clearbody m. destruct (masked_lanes kv_start kv_end o loc row m ltac:(lia)) as [_ Hlk].
  apply list_eq. intros i. rewrite Hlk.
  assert (Hlen : length (take (kv_end - kv_start) (drop o loc)) = (kv_end - kv_start)%nat)
    by (rewrite length_take, length_drop; lia).
  case_decide.
  - rewrite list_lookup_inserts by lia. rewrite lookup_take_lt, lookup_drop by lia.
    symmetry. apply list_lookup_lookup_total_lt. lia.
  - destruct (decide (i < kv_start)%nat).
    + by rewrite list_lookup_inserts_lt by lia.
    + by rewrite list_lookup_inserts_ge by lia.
Qed.

(** ** Stores through pointers into a tensor

    A tensor of rows is contiguous: a kernel that stores through a pointer to
    one of its rows, and goes past the end of the row, writes to the next
    rows.  [stride] is the tensor's second dimension.  (A store past the
    end of the whole tensor, into memory that is not modelled, is dropped.) *)
Definition stride {A} (t : list (list A)) : nat := length (t !!! 0%nat).

Definition to_rows {A} (w n : nat) (l : list A) : list (list A) :=
  (fun i => take w (drop (i * w) l)) <$> seq 0 n.

Definition flat_copy {A} `{Inhabited A} (W idx kv_start kv_end o : nat) (loc : list A) (t : list (list A)) : list (list A) :=
  to_rows (stride t) (length t)
    (masked_copy W (idx * stride t + kv_start) (idx * stride t + kv_end) o loc (concat t)).

Definition rectangular {A} (t : list (list A)) : Prop := Forall (fun row => length row = stride t) t.

Lemma rectangular_of {A} n (t : list (list A)) : (forall i row, t !! i = Some row -> length row = n) -> rectangular t.
Proof.
  intros Ht. apply Forall_lookup. intros i row Hi. rewrite (Ht i row Hi). unfold stride.
  destruct (lookup_lt_is_Some_2 t 0) as [row0 H0]; [apply lookup_lt_Some in Hi; lia|].
  by rewrite (list_lookup_total_correct _ _ _ H0), (Ht _ _ H0).
Qed.

Lemma length_concat_rows {A} w (t : list (list A)) :
  Forall (fun row => length row = w) t -> length (concat t) = (length t * w)%nat.
Proof. induction 1 as [|row t Hr _ IH]; [done|]. cbn. rewrite length_app, IH, Hr. lia. Qed.

Lemma to_rows_concat {A} w (t : list (list A)) :
  Forall (fun row => length row = w) t -> to_rows w (length t) (concat t) = t.
Proof.
  unfold to_rows. induction 1 as [|row t Hr _ IH]; [done|]. cbn [length seq fmap list_fmap concat]. f_equal.
  - cbn. rewrite drop_0. by rewrite take_app_length' by done.
  - rewrite <- fmap_S_seq, <- list_fmap_compose. etransitivity; [|exact IH]. apply list_fmap_ext. intros _ i _. unfold compose.
    f_equal. cbn. rewrite <- Hr, drop_app_add. by rewrite Hr.
Qed.

Lemma inserts_concat {A} w (t : list (list A)) i p (vals : list A) :
  Forall (fun row => length row = w) t -> (i < length t)%nat -> (p + length vals <= w)%nat ->
  list_inserts (i * w + p) vals (concat t) = concat (alter (list_inserts p vals) i t).
Proof.
  intros Ht. revert i. induction Ht as [|row t Hr _ IH]; intros i Hi Hp; [cbn in Hi; lia|]. destruct i as [|i].
  - cbn. apply list_eq. intros j. destruct (decide (j < length row)%nat).
    + rewrite (lookup_app_l (list_inserts p vals row)) by (by rewrite length_inserts).
      destruct (decide (j < p)%nat); [by rewrite !list_lookup_inserts_lt, lookup_app_l by lia|].
      destruct (decide (j < p + length vals)%nat).
      * rewrite !list_lookup_inserts; rewrite ?length_app; lia || done.
      * by rewrite !list_lookup_inserts_ge, lookup_app_l by lia.
    + rewrite list_lookup_inserts_ge by lia. rewrite !lookup_app_r by (rewrite ?length_inserts; lia). by rewrite length_inserts.
  - cbn. rewrite <- IH by (cbn in Hi; lia). rewrite <- Hr, <- Nat.add_assoc. by rewrite list_inserts_app_r, Hr.
Qed.

(** A store that stays within its row changes that row. *)
Lemma flat_copy_row {A} `{Inhabited A} W idx kv_start kv_end o (loc : list A) t :
  rectangular t -> (0 < W)%nat -> (idx < length t)%nat -> (kv_start <= kv_end <= stride t)%nat ->
  (o + (kv_end - kv_start) <= length loc)%nat ->
  flat_copy W idx kv_start kv_end o loc t = alter (masked_copy W kv_start kv_end o loc) idx t.
Proof.
  intros Hrect HW Hi Hle Ho. unfold flat_copy. pose proof (length_concat_rows _ _ Hrect) as Hlen.
  rewrite masked_copy_spec by nia.
  replace (idx * stride t + kv_end - (idx * stride t + kv_start))%nat with (kv_end - kv_start)%nat by lia.
  set (vals := take (kv_end - kv_start) (drop o loc)).
  assert (Hv : length vals = (kv_end - kv_start)%nat) by (subst vals; rewrite length_take, length_drop; lia).
  rewrite inserts_concat by (done || lia).
  assert (Hal : forall f : list A -> list A, (forall row, length (f row) = length row) -> Forall (fun row => length row = stride t) (alter f idx t)).
  { intros f Hf. apply Forall_alter; [done|]. intros row _ Hr. by rewrite Hf. }
  assert (He : alter (list_inserts kv_start vals) idx t = alter (masked_copy W kv_start kv_end o loc) idx t).
  { apply list_alter_ext; [|done]. intros row Hr. rewrite masked_copy_spec; [done|done| |done].
    rewrite (proj1 (Forall_lookup _ _) Hrect idx row Hr). lia. }
  rewrite <- He. rewrite <- (length_alter (list_inserts kv_start vals) t idx). apply to_rows_concat. apply Hal. intros row. apply length_inserts.
Qed.

(** One that does not writes the rest to the beginning of the next row. *)
Lemma flat_copy_spill {A} `{Inhabited A} W idx kv_start kv_end o (loc : list A) t :
  rectangular t -> (0 < W)%nat -> (S idx < length t)%nat -> (kv_start <= stride t <= kv_end)%nat -> (kv_end <= 2 * stride t)%nat ->
  (o + (kv_end - kv_start) <= length loc)%nat ->
  flat_copy W idx kv_start kv_end o loc t =
  alter (list_inserts 0 (take (kv_end - stride t) (drop (o + (stride t - kv_start)) loc))) (S idx)
    (alter (list_inserts kv_start (take (stride t - kv_start) (drop o loc))) idx t).
Proof.
  intros Hrect HW Hi Hle Hle2 Ho. unfold flat_copy. pose proof (length_concat_rows _ _ Hrect) as Hlen. set (w := stride t) in *.
  rewrite masked_copy_spec by nia.
  replace (idx * w + kv_end - (idx * w + kv_start))%nat with ((w - kv_start) + (kv_end - w))%nat by lia.
  set (v1 := take (w - kv_start) (drop o loc)). set (v2 := take (kv_end - w) (drop (o + (w - kv_start)) loc)).
  assert (Hv : take (w - kv_start + (kv_end - w)) (drop o loc) = v1 ++ v2).
  { subst v1 v2. by rewrite <- drop_drop, take_take_drop. }
  assert (H1 : length v1 = (w - kv_start)%nat) by (subst v1; rewrite length_take, length_drop; lia).
  assert (H2 : length v2 = (kv_end - w)%nat) by (subst v2; rewrite length_take, length_drop; lia).
  rewrite Hv, list_inserts_app_l, (inserts_concat w) by (done || lia). rewrite H1.
  replace (w - kv_start + (idx * w + kv_start))%nat with (S idx * w + 0)%nat by (cbn; lia).
  assert (Ha : Forall (fun row => length row = w) (alter (list_inserts kv_start v1) idx t))
    by (apply Forall_alter; [done|]; intros row _ Hr; by rewrite length_inserts).
  rewrite inserts_concat by (done || rewrite ?length_alter; lia).
  replace (length t) with (length (alter (list_inserts 0 v2) (S idx) (alter (list_inserts kv_start v1) idx t))) by (by rewrite !length_alter).
  apply to_rows_concat. apply Forall_alter; [done|]. intros row _ Hr. by rewrite length_inserts.
Qed.

Lemma rectangular_alter {A} (f : list A -> list A) i t :
  (forall row, length (f row) = length row) -> rectangular t -> rectangular (alter f i t) /\ stride (alter f i t) = stride t.
Proof.
  intros Hf Ht. assert (Hs : stride (alter f i t) = stride t).
  { unfold stride. destruct t as [|row t]; [done|]. destruct i as [|i]; [apply Hf|done]. }
  split; [|done]. unfold rectangular. rewrite Hs. apply Forall_alter; [done|]. intros row _ Hr. by rewrite Hf.
Qed.

Lemma length_masked_copy {A} `{Inhabited A} W kv_start kv_end o (loc row : list A) : length (masked_copy W kv_start kv_end o loc row) = length row.
Proof.
  unfold masked_copy. generalize (seq 0 ((kv_end - kv_start + W - 1) / W)). intros l. revert row. induction l as [|i l IH]; intros row; [done|].
  cbn. rewrite IH. unfold masked_chunk. generalize (seq 0 W). intros k. clear. revert row. induction k as [|j k IH]; intros row; [done|].
  cbn. rewrite IH. by case_match; rewrite ?length_insert.
Qed.

Lemma foldl_ext {A B} (f g : A -> B -> A) s l :
  (forall s x, f s x = g s x) -> foldl f s l = foldl g s l.
Proof. intros Hfg. revert s. induction l as [|x l IH]; intros s; cbn; [done|]. by rewrite Hfg, IH. Qed.

(** The chunked, masked store of [v 0 .. v (n - 1)] from [start] on. *)
Definition masked_fill {A} (W start n : nat) (v : nat -> A) (row : list A) : list A :=
  foldl (fun row i =>
      foldl (fun row lane =>
          let off := (i * W + lane)%nat in
          if (off <? n)%nat then <[(start + off)%nat := v off]> row else row)
        row (seq 0 W))
    row (seq 0 ((n + W - 1) / W)).

Lemma masked_fill_spec {A} `{Inhabited A} W start n (v : nat -> A) row :
  (0 < W)%nat -> (start + n <= length row)%nat ->
  masked_fill W start n v row = list_inserts start (v <$> seq 0 n) row.
Proof.
  intros HW Hn.
  assert (Hc : masked_fill W start n v row = masked_copy W start (start + n) 0 (v <$> seq 0 n) row).
  { unfold masked_fill, masked_copy, masked_chunk. replace (start + n - start)%nat with n by lia.
    apply foldl_ext. intros r i. apply foldl_ext. intros r' lane. cbn zeta.
    set (off := (i * W + lane)%nat). destruct (Nat.ltb_spec off n).
    - rewrite (proj2 (Nat.ltb_lt _ _)) by lia. f_equal. symmetry. apply list_lookup_total_correct.
      rewrite list_lookup_fmap, lookup_seq_lt by lia. done.
    - rewrite (proj2 (Nat.ltb_ge _ _)) by lia. done. }
  rewrite Hc, masked_copy_spec; [|done|lia|rewrite length_fmap, length_seq; lia].
  rewrite drop_0, take_ge; [done|]. rewrite length_fmap, length_seq. lia.
Qed.

(** Writing right after a prefix of known length. *)
Lemma inserts_after {A} (l r k : list A) :
  (length r <= length k)%nat -> list_inserts (length l) r (l ++ k) = l ++ r ++ drop (length r) k.
Proof.
  intros Hr. rewrite <- (take_drop (length r) k) at 1. apply list_eq. intros i.
  destruct (decide (i < length l)%nat); [rewrite list_lookup_inserts_lt, !lookup_app_l by lia; done|].
  rewrite (lookup_app_r l) by lia. destruct (decide (i < length l + length r)%nat).
  - rewrite list_lookup_inserts; [|lia|].
    + by rewrite lookup_app_l by lia.
    + rewrite !length_app, length_take, length_drop. lia.
  - rewrite list_lookup_inserts_ge by lia. rewrite !lookup_app_r by (rewrite ?length_take; lia).
    f_equal. rewrite length_take. lia.
Qed.

(** Independent updates of distinct rows. *)
Lemma alter_rows {A} (f : nat -> A -> A) (ix : nat -> nat) (n : nat) (t : list A) :
  (forall b c, (b < n)%nat -> (c < n)%nat -> ix b = ix c -> b = c) ->
  let t' := foldl (fun t b => alter (f b) (ix b) t) t (seq 0 n) in
  length t' = length t /\
  (forall b, (b < n)%nat -> t' !! ix b = f b <$> t !! ix b) /\
  (forall j, (forall b, (b < n)%nat -> ix b <> j) -> t' !! j = t !! j).
Proof.
  intros Hinj. cbn zeta. induction n as [|n IH]; [split; [done|]; split; [lia|done]|].
  destruct IH as (Hl & Hin & Hout); [intros; apply Hinj; lia|].
  rewrite seq_S, foldl_app. cbn [foldl plus]. set (u := foldl _ _ _) in *. clearbody u.
  split; [by rewrite length_alter|]. split.
  - intros b Hb. destruct (decide (b = n)) as [->|Hne].
    + rewrite list_lookup_alter_eq. f_equal. apply Hout. intros c Hc Heq.
      apply Hinj in Heq; lia.
    + rewrite list_lookup_alter_ne; [apply Hin; lia|]. intros Heq. apply Hinj in Heq; lia.
  - intros j Hj. rewrite list_lookup_alter_ne by (apply Hj; lia). apply Hout. intros b Hb. apply Hj. lia.
Qed.

Lemma foldl_add_sum (l : list nat) k : foldl Nat.add k l = (k + foldr Nat.add 0 l)%nat.
Proof. revert k. induction l as [|x l IH]; intros k; cbn; [lia|]. rewrite IH. lia. Qed.

Lemma sum_app (l k : list nat) : foldr Nat.add 0%nat (l ++ k) = (foldr Nat.add 0 l + foldr Nat.add 0 k)%nat.
Proof. induction l as [|x l IH]; cbn; [done|]. rewrite IH. lia. Qed.

(** ** Concatenations, up to order *)

Lemma bind_app_perm {A X} (F G : A -> list X) (l : list A) :
  l ≫= (fun x => F x ++ G x) ≡ₚ (l ≫= F) ++ (l ≫= G).
Proof.
  induction l as [|x l IH]; [done|]. rewrite !bind_cons, IH. solve_Permutation.
Qed.

Lemma bind_perm_ext {A X} (F G : A -> list X) (l : list A) :
  (forall x, x ∈ l -> F x ≡ₚ G x) -> l ≫= F ≡ₚ l ≫= G.
Proof.
  induction l as [|x l IH]; intros Hx; [done|].
  rewrite !bind_cons. apply Permutation_app; [apply Hx; by left|].
  apply IH. intros y Hy. apply Hx. by right.
Qed.

Lemma concat_imap_seq {A X} `{Inhabited A} (f : nat -> A -> list X) (l : list A) :
  concat (imap f l) = seq 0 (length l) ≫= (fun b => f b (l !!! b)).
Proof.
  assert (Hi : imap f l = (fun b => f b (l !!! b)) <$> seq 0 (length l)).
  { apply list_eq. intros i. rewrite list_lookup_imap, list_lookup_fmap.
    destruct (decide (i < length l)%nat).
    - rewrite lookup_seq_lt, (list_lookup_lookup_total_lt l i) by done. done.
    - rewrite lookup_seq_ge by lia. by rewrite lookup_ge_None_2 by lia. }
  rewrite Hi. clear Hi. induction (seq 0 _) as [|x k IH]; [done|].
  rewrite bind_cons, <- IH. done.
Qed.

Lemma length_bind_const {A X} (f : A -> list X) (l : list A) w :
  (forall x, x ∈ l -> length (f x) = w) -> length (l ≫= f) = (length l * w)%nat.
Proof.
  induction l as [|x l IH]; intros Hf; [done|]. rewrite bind_cons, length_app, IH, (Hf x).
  - done.
  - by left.
  - intros y Hy. apply Hf. by right.
Qed.

(** Writing [blk] after the kept part of a row extends the kept part and leaves
    what precedes it. *)
Lemma kept_extend {A} (row blk : list A) p c a :
  (p + c + length blk <= length row)%nat -> (a <= length blk)%nat ->
  take (c + a) (drop p (list_inserts (p + c) blk row)) = take c (drop p row) ++ take a blk.
Proof.
  intros Hw Ha. assert (Hlc : length (take c (drop p row)) = c)
    by (rewrite length_take, length_drop; lia).
  apply list_eq. intros i. destruct (decide (i < c)%nat).
  - rewrite lookup_take_lt, lookup_drop, list_lookup_inserts_lt, lookup_app_l by lia.
    by rewrite lookup_take_lt, lookup_drop by lia.
  - rewrite lookup_app_r, Hlc by lia. destruct (decide (i < c + a)%nat).
    + rewrite !lookup_take_lt, lookup_drop by lia.
      rewrite list_lookup_inserts by lia. f_equal. lia.
    + by rewrite !lookup_take_ge by lia.
Qed.

Lemma inserts_below {A} (row blk : list A) p q :
  (p <= q)%nat -> take p (list_inserts q blk row) = take p row.
Proof.
  intros Hp. apply list_eq. intros i. destruct (decide (i < p)%nat).
  - rewrite !lookup_take_lt by done. apply list_lookup_inserts_lt. lia.
  - by rewrite !lookup_take_ge by lia.
Qed.

Lemma bind_ext_in {A B} (f g : A -> list B) (l : list A) :
  (forall x, x ∈ l -> f x = g x) -> l ≫= f = l ≫= g.
Proof.
  induction l as [|a l IH]; intros He; [done|]. rewrite !bind_cons, He by (by left).
  f_equal. apply IH. intros; apply He; by right.
Qed.

Lemma bind_bind {A B C} (f : A -> list B) (g : B -> list C) (l : list A) :
  (l ≫= f) ≫= g = l ≫= (fun x => f x ≫= g).
Proof. induction l as [|a l IH]; [done|]. by rewrite !bind_cons, bind_app, IH. Qed.

Lemma filter_length_mono {A} (P Q : A -> Prop) `{!forall x, Decision (P x), !forall x, Decision (Q x)} (l : list A) :
  (forall x, x ∈ l -> P x -> Q x) -> (length (filter P l) <= length (filter Q l))%nat.
Proof.
  induction l as [|a l IH]; intros He; [done|]. rewrite !filter_cons.
  assert (Hl : (length (filter P l) <= length (filter Q l))%nat) by (apply IH; intros; apply He; [by right|done]).
  pose proof (He a ltac:(by left)). destruct (decide (P a)), (decide (Q a)); cbn; try tauto; lia.
Qed.
