(* ===== verification/Allocator.v ===== *)
(** * KV slot allocators (srt/mem_cache/allocator.py)

    The token-granular allocator ([Token], the class
    TokenToKVPoolAllocator), the page-granular one ([Paged], the class
    PagedTokenToKVPoolAllocator), the two Triton kernels the latter runs
    ([alloc_extend_kernel], [alloc_decode_kernel]) and the reference loop
    [alloc_extend_naive].  Slot and page numbers are [Z]; an int64 tensor is
    the list of its elements. *)

From S2P Require Import Prelude.

(** The fields of BaseTokenToKVPoolAllocator. *)
Record allocator := Allocator {
  size : Z;
  page_size : Z;
  need_sort : bool;
  free_pages : list Z;
  release_pages : list Z;
  is_not_in_free_group : bool;
  free_group : list (list Z);
}.

Definition set_pages (st : allocator) (fp rp : list Z) : allocator :=
  Allocator (size st) (page_size st) (need_sort st) fp rp
    (is_not_in_free_group st) (free_group st).

Definition set_group (st : allocator) (b : bool) (g : list (list Z)) : allocator :=
  Allocator (size st) (page_size st) (need_sort st) (free_pages st)
    (release_pages st) b g.

(** torch.sort and torch.unique on a one-dimensional integer tensor. *)
Definition torch_sort (l : list Z) : list Z := merge_sort Z.le l.
Definition torch_unique (l : list Z) : list Z := torch_sort (remove_dups l).

Definition backup_state (st : allocator) : list Z * list Z :=
  (free_pages st, release_pages st).

Definition restore_state (st : allocator) (s : list Z * list Z) : allocator :=
  set_pages st s.1 s.2.

Definition free_group_begin (st : allocator) : allocator := set_group st false [].

Definition merge_and_sort_free (st : allocator) : allocator :=
  if 0 <? len (release_pages st)
  then set_pages st (torch_sort (free_pages st ++ release_pages st)) []
  else st.

(** ** The token-granular allocator *)
Module Token.

Definition clear (st : allocator) : allocator :=
  Allocator (size st) (page_size st) (need_sort st)
    (range 1 (size st + 1)) [] true [].

Definition init (sz : Z) (sort : bool) : allocator :=
  clear (Allocator sz 1 sort [] [] true []).

Definition available_size (st : allocator) : Z :=
  len (free_pages st) + len (release_pages st).

Definition alloc (need_size : Z) (st : allocator) : option (list Z) * allocator :=
  let st :=
    if need_sort st && (len (free_pages st) <? need_size)
    then merge_and_sort_free st else st in
  if len (free_pages st) <? need_size then (None, st)
  else (Some (slice_to (free_pages st) need_size),
        set_pages st (slice_from (free_pages st) need_size) (release_pages st)).

Definition free (free_index : list Z) (st : allocator) : allocator :=
  if bool_decide (free_index = []) then st
  else if is_not_in_free_group st then
    if need_sort st
    then set_pages st (free_pages st) (release_pages st ++ free_index)
    else set_pages st (free_pages st ++ free_index) (release_pages st)
  else set_group st false (free_group st ++ [free_index]).

Definition free_group_end (st : allocator) : allocator :=
  let st := set_group st true (free_group st) in
  if bool_decide (free_group st = []) then st
  else free (concat (free_group st)) st.

(** *** Conservation

    [pool st] lists the slots the allocator holds: ready, released, or
    waiting in an open free group. *)
Definition pool (st : allocator) : list Z :=
  free_pages st ++ release_pages st ++
  (if is_not_in_free_group st then [] else concat (free_group st)).

(** Without sorting, released slots never accumulate apart. *)
Definition wf (st : allocator) : Prop :=
  need_sort st = false -> release_pages st = [].

Section lemmas.
Implicit Types st : allocator.

Lemma merge_pool st : pool (merge_and_sort_free st) ≡ₚ pool st.
Proof.
  unfold merge_and_sort_free, pool, torch_sort. destruct (0 <? _); [|done].
  cbn. rewrite merge_sort_Permutation. by rewrite <- app_assoc.
Qed.

Lemma merge_available st : available_size (merge_and_sort_free st) = available_size st.
Proof.
  unfold merge_and_sort_free, available_size, torch_sort. destruct (0 <? _); [|done].
  cbn. unfold len. rewrite merge_sort_Permutation, length_app; cbn; lia.
Qed.

Lemma merge_release st : release_pages (merge_and_sort_free st) = [].
Proof.
  unfold merge_and_sort_free. destruct (Z.ltb_spec 0 (len (release_pages st))); [done|].
  apply len_0. pose proof (len_nonneg (release_pages st)). lia.
Qed.

Lemma merge_wf st : wf st -> wf (merge_and_sort_free st).
Proof. intros ? ?. apply merge_release. Qed.

(** What a successful or failed [alloc] leaves, in one statement. *)
Lemma alloc_spec n st o st' :
  alloc n st = (o, st') ->
  match o with
  | Some out => pool st ≡ₚ out ++ pool st' /\ (0 <= n -> len out = n)
  | None => pool st ≡ₚ pool st' /\ len (free_pages st') < n
  end /\ need_sort st' = need_sort st
  /\ is_not_in_free_group st' = is_not_in_free_group st.
Proof.
  unfold alloc.
  set (st1 := if _ && _ then merge_and_sort_free st else st).
  assert (Hp : pool st ≡ₚ pool st1)
    by (subst st1; destruct (_ && _); by rewrite ?merge_pool).
  assert (Hs : need_sort st1 = need_sort st /\ is_not_in_free_group st1 = is_not_in_free_group st).
  { subst st1. unfold merge_and_sort_free. by repeat case_match. }
  destruct (Z.ltb_spec (len (free_pages st1)) n); intros [= <- <-]; [done|].
  split; [|done]. split.
  - rewrite Hp. unfold pool; cbn.
    rewrite <- (slice_to_from (free_pages st1) n) at 1. by rewrite <- !app_assoc.
  - intros. apply len_slice_to. lia.
Qed.

Lemma alloc_wf n st o st' : wf st -> alloc n st = (o, st') -> wf st'.
Proof.
  intros Hwf. unfold alloc.
  set (st1 := if _ && _ then merge_and_sort_free st else st).
  assert (Hwf1 : wf st1) by (subst st1; destruct (_ && _); auto using merge_wf).
  clearbody st1. destruct (_ <? _); intros [= <- <-]; done.
Qed.

Lemma free_pool idx st : pool (free idx st) ≡ₚ idx ++ pool st.
Proof.
  unfold free, pool. case_bool_decide as He; [by subst|].
  destruct (is_not_in_free_group st) eqn:Hg; [destruct (need_sort st)|]; cbn;
    rewrite ?Hg, ?concat_app; cbn; rewrite ?app_nil_r; solve_Permutation.
Qed.

Lemma free_wf idx st : wf st -> wf (free idx st).
Proof.
  unfold wf, free. intros Hwf.
  destruct (bool_decide _), (is_not_in_free_group st), (need_sort st) eqn:E; cbn;
    rewrite ?E; naive_solver.
Qed.

Lemma free_group_flag idx st : is_not_in_free_group (free idx st) = is_not_in_free_group st.
Proof.
  unfold free. destruct (bool_decide _); [done|].
  destruct (is_not_in_free_group st) eqn:E; [by destruct (need_sort st)|done].
Qed.

Lemma group_end_pool st :
  is_not_in_free_group st = false -> pool (free_group_end st) ≡ₚ pool st.
Proof.
  intros Hg. unfold free_group_end. case_bool_decide as He; cbn in He.
  - unfold pool; cbn. rewrite Hg, He. done.
  - rewrite free_pool. unfold pool; cbn. rewrite Hg, app_nil_r. solve_Permutation.
Qed.

Lemma group_end_wf st : wf st -> wf (free_group_end st).
Proof.
  intros Hwf. unfold free_group_end. case_bool_decide; [done|].
  by apply free_wf.
Qed.

(** Frees issued inside a group accumulate in order. *)
Lemma free_in_group ls st :
  is_not_in_free_group st = false ->
  let st' := foldl (fun st idx => free idx st) st ls in
  free_pages st' = free_pages st /\ release_pages st' = release_pages st
  /\ need_sort st' = need_sort st
  /\ is_not_in_free_group st' = false
  /\ concat (free_group st') = concat (free_group st) ++ concat ls.
Proof.
  revert st. induction ls as [|l ls IH]; intros st Hg; cbn.
  { by rewrite app_nil_r. }
  assert (is_not_in_free_group (free l st) = false) as Hg'
    by (unfold free; case_bool_decide; [done|]; rewrite Hg; done).
  destruct (IH (free l st) Hg') as (-> & -> & -> & -> & ->).
  unfold free. case_bool_decide; [by subst|].
  rewrite Hg; cbn. by rewrite concat_app, <- app_assoc; cbn; rewrite app_nil_r.
Qed.

End lemmas.

(** *** Clients of the allocator

    A client holds slots ([owned]) and gives back only slots it holds. *)
Inductive step : allocator * list Z -> allocator * list Z -> Prop :=
  | step_alloc n st owned out st' :
      0 <= n -> alloc n st = (Some out, st') ->
      step (st, owned) (st', out ++ owned)
  | step_alloc_fail n st owned st' :
      alloc n st = (None, st') -> step (st, owned) (st', owned)
  | step_free st owned idx rest :
      owned ≡ₚ idx ++ rest -> step (st, owned) (free idx st, rest)
  | step_begin st owned :
      is_not_in_free_group st = true -> step (st, owned) (free_group_begin st, owned)
  | step_end st owned :
      is_not_in_free_group st = false -> step (st, owned) (free_group_end st, owned).

Lemma step_conserves s s' :
  step s s' -> pool s.1 ++ s.2 ≡ₚ pool s'.1 ++ s'.2.
Proof.
  destruct 1 as [n st owned out st' ? Ha|n st owned st' Ha|st owned idx rest Ho
    |st owned Hg|st owned Hg]; cbn.
  - apply alloc_spec in Ha as [[-> _] _]. solve_Permutation.
  - apply alloc_spec in Ha as [[-> _] _]. done.
  - rewrite free_pool, Ho. solve_Permutation.
  - unfold pool; cbn. by rewrite Hg.
  - by rewrite group_end_pool.
Qed.

Lemma init_pool sz sort : pool (init sz sort) = range 1 (sz + 1).
Proof. unfold pool; cbn. by rewrite app_nil_r. Qed.

Lemma reachable_conserves sz sort st owned :
  rtc step (init sz sort, []) (st, owned) -> pool st ++ owned ≡ₚ range 1 (sz + 1).
Proof.
  intros Hr. rewrite <- (init_pool sz sort), <- (app_nil_r (pool (init sz sort))).
  change (pool (st, owned).1 ++ (st, owned).2
          ≡ₚ pool (init sz sort, @nil Z).1 ++ (init sz sort, @nil Z).2).
  induction Hr as [|x y z Hxy _ IH]; [done|].
  rewrite IH. symmetry. by apply step_conserves.
Qed.

(** Whatever a client does with the token-granular allocator (allocate,
    fail to allocate, free slots it holds, open and close free groups), the
    slots the allocator holds and the slots the client holds are together
    exactly the pool's slots 1..size, each once: no slot is leaked, handed
    out twice or lost. *)
Theorem token_slots_conserved sz sort st owned :
  rtc step (init sz sort, []) (st, owned) ->
  pool st ++ owned ≡ₚ range 1 (sz + 1) /\ NoDup (pool st ++ owned).
Proof.
  intros Hr%reachable_conserves. split; [done|]. rewrite Hr. apply NoDup_range.
Qed.

Lemma token_slots_conserved_witness :
  pool (free_group_end (free [1] (free_group_begin (snd (alloc 3 (init 3 true)))))) ++ [2; 3]
  ≡ₚ range 1 4 /\ NoDup (A:=Z) (pool (free_group_end (free [1]
       (free_group_begin (snd (alloc 3 (init 3 true)))))) ++ [2; 3]).
Proof.
  apply (token_slots_conserved 3 true).
  eapply rtc_l; [apply (step_alloc 3); [lia|reflexivity]|].
  eapply rtc_l; [apply step_begin; reflexivity|].
  eapply rtc_l; [apply (step_free _ _ [1] [2; 3]); reflexivity|].
  eapply rtc_l; [apply step_end; reflexivity|].
  apply rtc_refl.
Defined.

Lemma alloc_none_iff n st :
  wf st -> (fst (alloc n st) = None <-> available_size st < n).
Proof.
  intros Hwf. unfold alloc, available_size.
  destruct (need_sort st) eqn:Hs; cbn.
  - destruct (Z.ltb_spec (len (free_pages st)) n) as [H1|H1].
    + pose proof (merge_available st) as Hm. unfold available_size in Hm.
      rewrite merge_release, len_nil in Hm.
      destruct (Z.ltb_spec (len (free_pages (merge_and_sort_free st))) n);
        cbn; split; try done; lia.
    + destruct (Z.ltb_spec (len (free_pages st)) n); [lia|].
      pose proof (len_nonneg (release_pages st)). cbn; split; [done|lia].
  - rewrite (Hwf Hs), len_nil.
    destruct (Z.ltb_spec (len (free_pages st)) n); cbn; split; try done; lia.
Qed.

(** Outside a free group the available size counts the held slots. *)
Lemma available_pool st :
  is_not_in_free_group st = true -> available_size st = len (pool st).
Proof.
  intros Hg. unfold available_size, pool. rewrite Hg, app_nil_r, len_app. done.
Qed.

(** [alloc n] fails exactly when the request exceeds [available_size],
    and a failure leaves the held slots as they were. *)
Theorem token_alloc_fails_iff n st :
  wf st ->
  (fst (alloc n st) = None <-> available_size st < n)
  /\ (fst (alloc n st) = None -> pool (snd (alloc n st)) ≡ₚ pool st).
Proof.
  intros Hwf. split; [by apply alloc_none_iff|].
  destruct (alloc n st) as [o st'] eqn:Ha; cbn. intros ->.
  apply alloc_spec in Ha as [[-> _] _]. done.
Qed.

Lemma token_alloc_fails_iff_witness :
  wf (init 2 false)
  /\ (fst (alloc 3 (init 2 false)) = None <-> available_size (init 2 false) < 3).
Proof.
  split; [by intros _|]. apply (token_alloc_fails_iff 3 (init 2 false)). by intros _.
Defined.

(** Closing a free group gives the same ready and released slots as
    freeing the concatenation of the group's tensors at once, whatever the
    order and number of the deferred frees. *)
Theorem token_group_equiv ls st :
  is_not_in_free_group st = true ->
  let st' := free_group_end (foldl (fun st idx => free idx st) (free_group_begin st) ls) in
  free_pages st' = free_pages (free (concat ls) st)
  /\ release_pages st' = release_pages (free (concat ls) st)
  /\ is_not_in_free_group st' = true.
Proof.
  intros Hg. destruct (free_in_group ls (free_group_begin st) eq_refl)
    as (Hf & Hr & Hs & _ & Hc). cbn zeta.
  set (st1 := foldl _ _ _) in *. cbn in Hf, Hr, Hs, Hc.
  unfold free_group_end, free.
  assert (Hz : free_group st1 = [] -> concat ls = [])
    by (intros He; rewrite He in Hc; cbn in Hc; by rewrite <- Hc).
  repeat case_bool_decide; cbn in *; rewrite ?Hg, ?Hs; try done;
    try (exfalso; naive_solver congruence).
  - destruct (need_sort st); cbn; rewrite ?Hf, ?Hr, ?Hc; try done.
Qed.

Lemma token_group_equiv_witness :
  free_pages (free_group_end (free [7] (free [5; 6] (free_group_begin (init 2 false)))))
  = [1; 2; 5; 6; 7].
Proof.
  destruct (token_group_equiv [[5; 6]; [7]] (init 2 false) eq_refl) as [H _].
  exact H.
Defined.

End Token.

(** What the masked-out lanes of a load without [other] hold, by program and
    lane: Triton leaves them undefined, also from one load to the next. *)
Record lanes := Lanes { seq_lane : Z -> Z -> Z; pre_lane : Z -> Z -> Z }.

(** Both loads of the extend kernel leave the same words there, such as zeros. *)
Definition lanes_agree (m : lanes) : Prop := forall pid j, seq_lane m pid j = pre_lane m pid j.

Definition zero_lanes : lanes := Lanes (fun _ _ => 0) (fun _ _ => 0).

Lemma zero_lanes_agree : lanes_agree zero_lanes.
Proof. done. Qed.

(** ** The page-granular allocator *)
Module Paged.

Definition num_pages (st : allocator) : Z := size st / page_size st.

Definition clear (st : allocator) : allocator :=
  Allocator (size st) (page_size st) (need_sort st)
    (range 1 (num_pages st + 1)) [] true [].

Definition available_size (st : allocator) : Z :=
  (len (free_pages st) + len (release_pages st)) * page_size st.

(** [pages[:, None] * page_size + arange(page_size)], flattened. *)
Definition page_slots (ps : Z) (pages : list Z) : list Z :=
  pages ≫= (fun p => (fun o => p * ps + o) <$> range 0 ps).

Definition alloc (need_size : Z) (st : allocator) : option (list Z) * allocator :=
  let num_pages := need_size / page_size st in
  let st :=
    if need_sort st && (len (free_pages st) <? num_pages)
    then merge_and_sort_free st else st in
  if len (free_pages st) <? num_pages then (None, st)
  else (Some (page_slots (page_size st) (slice_to (free_pages st) num_pages)),
        set_pages st (slice_from (free_pages st) num_pages) (release_pages st)).

Definition free (free_index : list Z) (st : allocator) : allocator :=
  if bool_decide (free_index = []) then st
  else if is_not_in_free_group st then
    let free_page_indices := torch_unique ((fun i => i / page_size st) <$> free_index) in
    if need_sort st
    then set_pages st (free_pages st) (free_page_indices ++ release_pages st)
    else set_pages st (free_page_indices ++ free_pages st) (release_pages st)
  else set_group st false (free_group st ++ [free_index]).

Definition free_group_end (st : allocator) : allocator :=
  let st := set_group st true (free_group st) in
  if bool_decide (free_group st = []) then st
  else free (concat (free_group st)) st.

(** *** Number of pages an extension consumes (utils/common.py) *)

Definition get_num_new_pages_extend (ps : Z) (seq_lens prefix_lens : list Z) : Z :=
  foldr Z.add 0
    (zip_with (fun s p => (s + ps - 1) / ps - (p + ps - 1) / ps) seq_lens prefix_lens).

Definition get_num_new_pages_decode (ps : Z) (seq_lens : list Z) : Z :=
  foldr Z.add 0 ((fun s => if s mod ps =? 1 then 1 else 0) <$> seq_lens).

(** *** The reference loop [alloc_extend_naive] *)

(** [out[start : start + len vals] = vals] *)
Definition put (out : list Z) (start : Z) (vals : list Z) : list Z :=
  list_inserts (Z.to_nat start) vals out.

(** A read at an index; the pointer arithmetic of the kernels reads whatever
    lies beyond the tensor, [oob], when the index is out of range. *)
Definition peek (oob : Z -> Z) (l : list Z) (i : Z) : Z :=
  default (oob i) (nthZ l i).

(** torch.cumsum *)
Definition cumsum (l : list Z) : list Z :=
  (fun n => foldr Z.add 0 (take (S n) l)) <$> seq 0 (length l).

Section naive.
Variable ps : Z.
Variable oob : Z -> Z.

Definition num_new_pages_of (pre_len seq_len : Z) : Z :=
  (seq_len + ps - 1) / ps - (pre_len + ps - 1) / ps.

Definition num_full_new_pages_of (pre_len seq_len : Z) : Z :=
  seq_len / ps - (pre_len + ps - 1) / ps.

(** The body of the loop for one request; [start_pos .. end_pos] is its
    range of [out_indices] and [start_new .. end_new] its range of
    [free_pages]. *)
Definition naive_body (free_pages : list Z)
    (pre_len seq_len last_loc start_pos end_pos start_new end_new : Z)
    (out : list Z) : list Z :=
  let need_page :=
    num_new_pages_of pre_len seq_len - num_full_new_pages_of pre_len seq_len in
  let num1 := Z.min seq_len ((pre_len + ps - 1) / ps * ps) - pre_len in
  let out :=
    if num1 =? 0 then out
    else put out start_pos
           ((fun o => last_loc + 1 + o) <$> slice_to (range 0 ps) num1) in
  if pre_len + num1 =? seq_len then out else
  let num2 := (seq_len / ps - (pre_len + ps - 1) / ps) * ps in
  let out :=
    if num2 =? 0 then out
    else put out (start_pos + num1)
           (page_slots ps (slice free_pages start_new (end_new - need_page))) in
  if pre_len + num1 + num2 =? seq_len then out else
  let num3 := seq_len - seq_len / ps * ps in
  if num3 =? 0 then out
  else put out (end_pos - num3)
         ((fun o => peek oob free_pages (end_new - 1) * ps + o)
            <$> slice_to (range 0 ps) num3).

Definition alloc_extend_naive (prefix_lens seq_lens last_loc free_pages out_indices : list Z)
    : list Z :=
  let extend_lens := zip_with Z.sub seq_lens prefix_lens in
  let end_pos := cumsum extend_lens in
  let num_new_pages := zip_with num_new_pages_of prefix_lens seq_lens in
  let end_new_pages := cumsum num_new_pages in
  foldl (fun out i =>
      let at_ (l : list Z) := l !!! i in
      naive_body free_pages (at_ prefix_lens) (at_ seq_lens) (at_ last_loc)
        (at_ end_pos - at_ extend_lens) (at_ end_pos)
        (at_ end_new_pages - at_ num_new_pages) (at_ end_new_pages) out)
    out_indices (seq 0 (length prefix_lens)).
End naive.

(** *** The Triton kernels *)

Definition next_power_of_2 (n : Z) : Z :=
  if 0 <? n then Z.shiftl 1 (Z.log2_up n) else 1.

Section kernels.
Variable ps : Z.
(** What an out-of-bounds read returns. *)
Variable masked : lanes.
Variable oob : Z -> Z.

(** [tl.load(ptr + arange(0, bs_upper), mask=arange <= pid)] *)
Definition load_upto (lane : Z -> Z) (l : list Z) (bs_upper pid : Z) : list Z :=
  (fun j => if j <=? pid then peek oob l j else lane j) <$> range 0 bs_upper.

(** [tl.store(out + base + offsets, f(offsets), mask=offsets < bound)] *)
Definition masked_store (out : list Z) (base : Z) (offsets : list Z) (bound : Z)
    (f : Z -> Z) : list Z :=
  foldl (fun out o => if o <? bound then <[Z.to_nat (base + o) := f o]> out else out)
    out offsets.

Definition BLOCK_EXTEND : Z := 4096.

(** One program of [alloc_extend_kernel], [pid] being its program id. *)
Definition alloc_extend_program (pre_lens seq_lens last_locs free_pages : list Z)
    (bs_upper pid : Z) (out : list Z) : list Z :=
  let seqs := load_upto (seq_lane masked pid) seq_lens bs_upper pid in
  let pres := load_upto (pre_lane masked pid) pre_lens bs_upper pid in
  let seq_len := peek oob seq_lens pid in
  let pre_len := peek oob pre_lens pid in
  let extend_len := seq_len - pre_len in
  let output_start_loc := foldr Z.add 0 (zip_with Z.sub seqs pres) - extend_len in
  let num_page_start_loc_self := (seq_len + ps - 1) / ps - (pre_len + ps - 1) / ps in
  let sum_num_new_pages :=
    foldr Z.add 0
      (zip_with (fun s p => (s + ps - 1) / ps - (p + ps - 1) / ps) seqs pres) in
  let new_page_start_loc := sum_num_new_pages - num_page_start_loc_self in
  let last_loc := peek oob last_locs pid in
  let num_part1 := Z.min seq_len ((pre_len + ps - 1) / ps * ps) - pre_len in
  let out := masked_store out output_start_loc (range 0 ps) num_part1
               (fun o => last_loc + 1 + o) in
  if pre_len + num_part1 =? seq_len then out else
  let num_part2 := seq_len / ps * ps - (pre_len + ps - 1) / ps * ps in
  let num_blocks := (num_part2 + BLOCK_EXTEND - 1) / BLOCK_EXTEND in
  let out := foldl (fun out block_id =>
      masked_store out (output_start_loc + num_part1)
        ((fun o => block_id * BLOCK_EXTEND + o) <$> range 0 BLOCK_EXTEND) num_part2
        (fun offset =>
           peek oob free_pages (new_page_start_loc + offset / ps) * ps + offset mod ps))
    out (range 0 num_blocks) in
  if pre_len + num_part1 + num_part2 =? seq_len then out else
  let num_part3 := seq_len - seq_len / ps * ps in
  let start_loc := peek oob free_pages (new_page_start_loc + num_page_start_loc_self - 1) in
  masked_store out (output_start_loc + num_part1 + num_part2) (range 0 ps) num_part3
    (fun o => start_loc * ps + o).

Definition alloc_extend_kernel (pre_lens seq_lens last_locs free_pages out : list Z)
    (bs_upper : Z) : list Z :=
  foldl (fun out pid =>
      alloc_extend_program pre_lens seq_lens last_locs free_pages bs_upper pid out)
    out (range 0 (len pre_lens)).

Definition alloc_decode_program (seq_lens last_locs free_pages : list Z)
    (bs_upper pid : Z) (out : list Z) : list Z :=
  let seqs := load_upto (seq_lane masked pid) seq_lens bs_upper pid in
  let pres := zip_with (fun j s => if j <=? pid then s - 1 else s)
                (range 0 bs_upper) seqs in
  let seq_len := peek oob seq_lens pid in
  let pre_len := seq_len - 1 in
  let num_page_start_loc_self := (seq_len + ps - 1) / ps - (pre_len + ps - 1) / ps in
  let sum_num_new_pages :=
    foldr Z.add 0
      (zip_with (fun s p => (s + ps - 1) / ps - (p + ps - 1) / ps) seqs pres) in
  let new_page_start_loc := sum_num_new_pages - num_page_start_loc_self in
  if num_page_start_loc_self =? 0
  then <[Z.to_nat pid := peek oob last_locs pid + 1]> out
  else <[Z.to_nat pid := peek oob free_pages new_page_start_loc * ps]> out.

Definition alloc_decode_kernel (seq_lens last_locs free_pages out : list Z)
    (bs_upper : Z) : list Z :=
  foldl (fun out pid =>
      alloc_decode_program seq_lens last_locs free_pages bs_upper pid out)
    out (range 0 (len seq_lens)).

End kernels.

(** *** The methods that launch them

    The assertions guarded by SGLANG_DEBUG_MEMORY_POOL are off. *)

Section methods.
Variable masked : lanes.
Variable oob : Z -> Z.
(** [empty n] is torch.empty: a tensor of [n] elements nobody initialised. *)
Variable empty : Z -> list Z.

Definition alloc_extend (prefix_lens seq_lens last_loc : list Z) (extend_num_tokens : Z)
    (st : allocator) : option (list Z) * allocator :=
  let bs := len prefix_lens in
  let st :=
    if need_sort st &&
       (len (free_pages st) <? extend_num_tokens / page_size st + bs + 1)
    then merge_and_sort_free st else st in
  let out_indices :=
    alloc_extend_kernel (page_size st) masked oob prefix_lens seq_lens last_loc (free_pages st)
      (empty extend_num_tokens) (next_power_of_2 bs) in
  let num_new_pages := get_num_new_pages_extend (page_size st) seq_lens prefix_lens in
  if len (free_pages st) <? num_new_pages then (None, st)
  else (Some out_indices,
        set_pages st (slice_from (free_pages st) num_new_pages) (release_pages st)).

Definition alloc_decode (seq_lens last_loc : list Z) (st : allocator)
    : option (list Z) * allocator :=
  let bs := len seq_lens in
  let st :=
    if need_sort st && (len (free_pages st) <? bs)
    then merge_and_sort_free st else st in
  let out_indices :=
    alloc_decode_kernel (page_size st) masked oob seq_lens last_loc (free_pages st)
      (empty bs) (next_power_of_2 bs) in
  let num_new_pages := get_num_new_pages_decode (page_size st) seq_lens in
  if len (free_pages st) <? num_new_pages then (None, st)
  else (Some out_indices,
        set_pages st (slice_from (free_pages st) num_new_pages) (release_pages st)).
End methods.

(** *** What one request receives

    Position [p] of a request keeps filling the page of [last_loc] up to the
    next page boundary and then takes the request's new pages in order. *)
Definition extend_slot (oob : Z -> Z) (ps pre_len last_loc start_new : Z)
    (free_pages : list Z) (p : Z) : Z :=
  let before := (pre_len + ps - 1) / ps in
  if p <? before * ps then last_loc + 1 + (p - pre_len)
  else peek oob free_pages (start_new + (p / ps - before)) * ps + p mod ps.

Definition extend_slots (oob : Z -> Z) (ps pre_len seq_len last_loc start_new : Z)
    (free_pages : list Z) : list Z :=
  extend_slot oob ps pre_len last_loc start_new free_pages <$> range pre_len seq_len.

(** The pages consumed before request [i], and the whole batch: request after
    request, each with the pages the earlier ones left. *)
Definition pages_before (ps : Z) (prefix_lens seq_lens : list Z) (i : nat) : Z :=
  foldr Z.add 0 (take i (zip_with (num_new_pages_of ps) prefix_lens seq_lens)).

Definition request_slots (oob : Z -> Z) (ps : Z)
    (prefix_lens seq_lens last_loc free_pages : list Z) (i : nat) : list Z :=
  extend_slots oob ps (prefix_lens !!! i) (seq_lens !!! i) (last_loc !!! i)
    (pages_before ps prefix_lens seq_lens i) free_pages.

Definition extend_layout (oob : Z -> Z) (ps : Z)
    (prefix_lens seq_lens last_loc free_pages : list Z) : list Z :=
  concat (request_slots oob ps prefix_lens seq_lens last_loc free_pages
          <$> seq 0 (length prefix_lens)).

(** The lengths a caller passes: one entry per request, prefixes within
    sequences. *)
Definition lens_ok (prefix_lens seq_lens last_loc : list Z) : Prop :=
  length last_loc = length prefix_lens /\
  Forall2 (fun p s => 0 <= p <= s) prefix_lens seq_lens.

Section lemmas.
Context (ps : Z) (oob : Z -> Z).
Hypothesis ps_pos : 0 < ps.

Lemma masked_store_app out base o1 o2 bound f :
  masked_store out base (o1 ++ o2) bound f
  = masked_store (masked_store out base o1 bound f) base o2 bound f.
Proof. unfold masked_store. by rewrite foldl_app. Qed.

Lemma length_masked_store out base offs bound f :
  length (masked_store out base offs bound f) = length out.
Proof.
  revert out. induction offs as [|o offs IH]; intros out; cbn; [done|].
  unfold masked_store in IH. rewrite IH. case_match; [apply length_insert|done].
Qed.

(** A masked store over a contiguous range of offsets, read back. *)
Lemma masked_store_range out base a b bound f j :
  0 <= base + a ->
  masked_store out base (range a b) bound f !! j =
  if decide (a <= Z.of_nat j - base < Z.min b bound /\ (j < length out)%nat)
  then Some (f (Z.of_nat j - base)) else out !! j.
Proof.
  intros Hb. remember (Z.to_nat (b - a)) as n eqn:Hn.
  revert a b out Hb Hn. induction n as [|n IH]; intros a b out Hb Hn.
  { rewrite range_empty by lia. cbn. rewrite decide_False; [done|lia]. }
  rewrite range_cons by lia. cbn. fold (masked_store).
  change (foldl _ ?o (range (a+1) b)) with (masked_store o base (range (a+1) b) bound f).
  rewrite IH by lia.
  destruct (Z.ltb_spec a bound); rewrite ?length_insert.
  - destruct (decide (Z.of_nat j = base + a)) as [Hj|Hj].
    + replace (Z.to_nat (base + a)) with j by lia.
      rewrite decide_False by lia.
      destruct (decide (j < length out)%nat).
      * rewrite list_lookup_insert_eq by done.
        rewrite decide_True by lia. do 2 f_equal; lia.
      * rewrite list_insert_ge by lia. rewrite decide_False by lia. done.
    + rewrite list_lookup_insert_ne by lia.
      repeat case_decide; try done; exfalso; lia.
  - repeat case_decide; try done; exfalso; lia.
Qed.

Lemma masked_store_blocks BE nb out base bound f :
  0 < BE ->
  foldl (fun out b => masked_store out base ((fun o => b * BE + o) <$> range 0 BE) bound f)
    out (range 0 (Z.of_nat nb))
  = masked_store out base (range 0 (Z.of_nat nb * BE)) bound f.
Proof.
  intros HBE. revert out. induction nb as [|nb IH]; intros out; [done|].
  rewrite (range_app 0 (Z.of_nat nb) (Z.of_nat (S nb))) by lia.
  rewrite foldl_app, IH.
  replace (Z.of_nat (S nb) * BE) with (Z.of_nat nb * BE + BE) by lia.
  rewrite (range_app 0 (Z.of_nat nb * BE) (Z.of_nat nb * BE + BE)) by nia.
  rewrite (range_cons (Z.of_nat nb) (Z.of_nat (S nb))), (range_empty (Z.of_nat nb + 1)) by lia.
  cbn [foldl].
  rewrite masked_store_app. f_equal.
  unfold range. rewrite fmap_add_seqZ. f_equal; lia.
Qed.

(** [filled start vals out out']: [out'] is [out] with [vals] written at
    [start]. *)
Definition filled (start : Z) (vals out out' : list Z) : Prop :=
  length out' = length out /\
  forall j, (j < length out)%nat ->
    out' !! j = if decide (start <= Z.of_nat j < start + len vals)
                then vals !! Z.to_nat (Z.of_nat j - start) else out !! j.

Lemma filled_app pfx old sfx vals out' :
  length old = length vals ->
  filled (len pfx) vals (pfx ++ old ++ sfx) out' -> out' = pfx ++ vals ++ sfx.
Proof.
  intros Hl [Hlen Hf]. apply list_eq. intros j.
  destruct (decide (j < length (pfx ++ old ++ sfx))%nat) as [Hj|Hj].
  2:{ rewrite !lookup_ge_None_2; [done|..];
      rewrite ?length_app in *; lia. }
  rewrite (Hf j Hj). unfold len. rewrite !length_app in Hj.
  case_decide.
  - rewrite lookup_app_r by lia. rewrite lookup_app_l by lia. f_equal; lia.
  - destruct (decide (j < length pfx)%nat).
    + by rewrite !lookup_app_l by lia.
    + rewrite !lookup_app_r by lia. f_equal; lia.
Qed.

Lemma zsum_app l k : foldr Z.add 0 (l ++ k) = foldr Z.add 0 l + foldr Z.add 0 k.
Proof. induction l as [|x l IH]; cbn; lia. Qed.

Lemma load_upto_split lane l (n i : nat) :
  (i < length l)%nat -> (i < n)%nat ->
  load_upto oob lane l (Z.of_nat n) (Z.of_nat i)
  = take (S i) l ++ ((fun j => lane (Z.of_nat j)) <$> seq (S i) (n - S i)).
Proof.
  intros Hi Hn. unfold load_upto. apply list_eq. intros j.
  rewrite list_lookup_fmap, lookup_range, Z.add_0_l.
  case_decide as Hj; cbn [fmap option_fmap option_map].
  - unfold peek, nthZ. destruct (Z.leb_spec (Z.of_nat j) (Z.of_nat i)).
    + destruct (Z.ltb_spec (Z.of_nat j) 0); [lia|]. rewrite Nat2Z.id.
      rewrite lookup_app_l by (rewrite length_take; lia).
      rewrite lookup_take_lt by lia.
      destruct (lookup_lt_is_Some_2 l j) as [x ->]; [lia|]. done.
    + rewrite lookup_app_r by (rewrite length_take; lia).
      rewrite length_take, Nat.min_l, list_lookup_fmap, lookup_seq_lt by lia.
      by replace (S i + (j - S i))%nat with j by lia.
  - symmetry. apply lookup_ge_None. rewrite length_app, length_take, length_fmap, length_seq. lia.
Qed.

(** The lanes beyond the program's own request cancel. *)
Lemma load_sums la lb (g : Z -> Z -> Z) a b (n i : nat) :
  (forall m, g m m = 0) -> (forall j, la j = lb j) -> length a = length b ->
  (i < length a)%nat -> (i < n)%nat ->
  foldr Z.add 0 (zip_with g (load_upto oob la a (Z.of_nat n) (Z.of_nat i))
                            (load_upto oob lb b (Z.of_nat n) (Z.of_nat i)))
  = foldr Z.add 0 (take (S i) (zip_with g a b)).
Proof.
  intros Hg Hll Hl Hi Hn. rewrite !load_upto_split by lia.
  rewrite zip_with_app by (rewrite !length_take; lia).
  rewrite zsum_app, zip_with_take.
  enough (forall l, foldr Z.add 0 (zip_with g ((fun j => la (Z.of_nat j)) <$> l) ((fun j => lb (Z.of_nat j)) <$> l)) = 0) as -> by lia.
  intros l. induction l as [|j l IH]; [done|]. cbn. cbn in IH. rewrite IH, Hll, Hg. done.
Qed.

Lemma zsum_take_S l i x :
  l !! i = Some x -> foldr Z.add 0 (take (S i) l) = foldr Z.add 0 (take i l) + x.
Proof. intros Hx. rewrite (take_S_r _ _ _ Hx), zsum_app. cbn. lia. Qed.

Lemma peek_lookup l i x : l !! i = Some x -> peek oob l (Z.of_nat i) = x.
Proof.
  intros Hx. unfold peek, nthZ. destruct (Z.ltb_spec (Z.of_nat i) 0); [lia|].
  by rewrite Nat2Z.id, Hx.
Qed.

Lemma next_power_of_2_ge n : 0 < n -> n <= next_power_of_2 n.
Proof.
  intros Hn. unfold next_power_of_2. destruct (Z.ltb_spec 0 n); [|lia].
  rewrite Z.shiftl_1_l. destruct (decide (n = 1)) as [->|]; [done|].
  apply Z.log2_up_spec. lia.
Qed.

Lemma ceil_bounds x : 0 <= x -> x <= (x + ps - 1) / ps * ps < x + ps.
Proof.
  intros. pose proof (Z.div_mod (x + ps - 1) ps). pose proof (Z.mod_pos_bound (x + ps - 1) ps).
  nia.
Qed.

Lemma floor_bounds x : x / ps * ps <= x < x / ps * ps + ps.
Proof. pose proof (Z.div_mod x ps). pose proof (Z.mod_pos_bound x ps). nia. Qed.

Lemma div_sub_mul p c : (p - c * ps) / ps = p / ps - c.
Proof. replace (p - c * ps) with (p + (- c) * ps) by lia. rewrite Z.div_add by lia. lia. Qed.

Lemma mod_sub_mul p c : (p - c * ps) mod ps = p mod ps.
Proof. replace (p - c * ps) with (p + (- c) * ps) by lia. apply Z.mod_add. lia. Qed.

Lemma div_unique p q : q * ps <= p < q * ps + ps -> p / ps = q /\ p mod ps = p - q * ps.
Proof.
  intros. assert (p / ps = q) as Hd by (symmetry; apply (Z.div_unique p ps q (p - q * ps)); lia).
  split; [done|]. rewrite Z.mod_eq by lia. rewrite Hd. lia.
Qed.

Lemma lookup_extend_slots pre sq last new pages k :
  extend_slots oob ps pre sq last new pages !! k =
  if decide (Z.of_nat k < sq - pre)
  then Some (extend_slot oob ps pre last new pages (pre + Z.of_nat k)) else None.
Proof.
  unfold extend_slots. rewrite list_lookup_fmap, lookup_range. by case_decide.
Qed.

Lemma len_extend_slots pre sq last new pages :
  pre <= sq -> len (extend_slots oob ps pre sq last new pages) = sq - pre.
Proof. intros. unfold extend_slots, len. rewrite length_fmap, len_range; lia. Qed.

(** The three parts of a request's range, as the code computes them. *)
Lemma extend_slot_part1 pre last new pages p :
  p < (pre + ps - 1) / ps * ps ->
  extend_slot oob ps pre last new pages p = last + 1 + (p - pre).
Proof. intros. unfold extend_slot. by destruct (Z.ltb_spec p ((pre + ps - 1) / ps * ps)); [|lia]. Qed.

Lemma extend_slot_part2 pre last new pages p :
  (pre + ps - 1) / ps * ps <= p ->
  extend_slot oob ps pre last new pages p =
  peek oob pages (new + (p - (pre + ps - 1) / ps * ps) / ps) * ps
  + (p - (pre + ps - 1) / ps * ps) mod ps.
Proof.
  intros. unfold extend_slot. destruct (Z.ltb_spec p ((pre + ps - 1) / ps * ps)); [lia|].
  by rewrite div_sub_mul, mod_sub_mul.
Qed.

Lemma extend_slot_part3 pre sq last new pages p :
  (pre + ps - 1) / ps * ps <= p -> sq / ps * ps <= p < sq ->
  extend_slot oob ps pre last new pages p =
  peek oob pages (new + num_new_pages_of ps pre sq - 1) * ps + (p - sq / ps * ps).
Proof.
  intros. unfold extend_slot, num_new_pages_of.
  destruct (Z.ltb_spec p ((pre + ps - 1) / ps * ps)); [lia|].
  pose proof (floor_bounds sq).
  destruct (div_unique p (sq / ps)) as [-> ->]; [lia|].
  assert ((sq + ps - 1) / ps = sq / ps + 1) as -> by (apply div_unique; lia).
  do 3 f_equal. lia.
Qed.

Lemma filled_intro start pre sq last new pages out out' :
  0 <= pre <= sq -> length out' = length out ->
  (forall j, (j < length out)%nat ->
    out' !! j =
    if decide (start <= Z.of_nat j < start + (sq - pre))
    then Some (extend_slot oob ps pre last new pages (pre + (Z.of_nat j - start)))
    else out !! j) ->
  filled start (extend_slots oob ps pre sq last new pages) out out'.
Proof.
  intros Hps Hl Hf. split; [done|]. intros j Hj.
  rewrite len_extend_slots, (Hf j Hj) by lia.
  case_decide; [|done]. rewrite lookup_extend_slots.
  rewrite decide_True by lia. do 2 f_equal. lia.
Qed.

Ltac settle_decides :=
  repeat case_decide; try done; try (exfalso; lia).

Lemma extend_program_filled masked pres seqs lasts pages (i n : nat) out pre sq last :
  lanes_agree masked -> length seqs = length pres -> pres !! i = Some pre -> seqs !! i = Some sq ->
  lasts !! i = Some last -> 0 <= pre <= sq -> (i < n)%nat ->
  let start := foldr Z.add 0 (take i (zip_with Z.sub seqs pres)) in
  let new := foldr Z.add 0
    (take i (zip_with (fun s p => (s + ps - 1) / ps - (p + ps - 1) / ps) seqs pres)) in
  0 <= start ->
  filled start (extend_slots oob ps pre sq last new pages) out
    (alloc_extend_program ps masked oob pres seqs lasts pages (Z.of_nat n) (Z.of_nat i) out).
Proof.
  intros Hag Hlen Hp Hs Hla Hle Hn start new Hst.
  pose proof (lookup_lt_Some _ _ _ Hp) as Hip.
  pose proof (ceil_bounds pre ltac:(lia)) as HA. pose proof (floor_bounds sq) as HD.
  unfold alloc_extend_program.
  rewrite !load_sums by (first [lia | intros; first [lia | apply Hag]]).
  rewrite (peek_lookup seqs i sq), (peek_lookup pres i pre), (peek_lookup lasts i last) by done.
  rewrite (zsum_take_S _ i (sq - pre)) by (rewrite lookup_zip_with, Hs, Hp; done).
  rewrite (zsum_take_S _ i ((sq + ps - 1) / ps - (pre + ps - 1) / ps))
    by (rewrite lookup_zip_with, Hs, Hp; done).
  fold start new.
  replace (start + (sq - pre) - (sq - pre)) with start by lia.
  replace (new + ((sq + ps - 1) / ps - (pre + ps - 1) / ps)
           - ((sq + ps - 1) / ps - (pre + ps - 1) / ps)) with new by lia.
  assert (Hpg : new + ((sq + ps - 1) / ps - (pre + ps - 1) / ps) - 1
                = new + num_new_pages_of ps pre sq - 1) by (unfold num_new_pages_of; lia).
  rewrite Hpg. clear Hpg.
  set (A := (pre + ps - 1) / ps * ps) in *. set (D := sq / ps * ps) in *.
  assert (HAD : A < sq -> A <= D).
  { intros. subst A D. apply Z.mul_le_mono_nonneg_r; [lia|].
    apply Z.div_le_lower_bound; lia. }
  pose proof (fun p => extend_slot_part1 pre last new pages p) as P1.
  pose proof (fun p => extend_slot_part2 pre last new pages p) as P2.
  pose proof (fun p => extend_slot_part3 pre sq last new pages p) as P3.
  fold A in P1, P2, P3. fold D in P3. clearbody start new A D.
  set (nb := (D - A + BLOCK_EXTEND - 1) / BLOCK_EXTEND).
  assert (Hnb : D - A <= nb * BLOCK_EXTEND).
  { subst nb. pose proof (Z.div_mod (D - A + BLOCK_EXTEND - 1) BLOCK_EXTEND).
    pose proof (Z.mod_pos_bound (D - A + BLOCK_EXTEND - 1) BLOCK_EXTEND).
    unfold BLOCK_EXTEND in *. lia. }
  destruct (Z.eqb_spec (pre + (Z.min sq A - pre)) sq) as [He|He].
  { apply filled_intro; [done|by rewrite length_masked_store|].
    intros j Hj. rewrite masked_store_range by lia. settle_decides.
    rewrite P1 by lia. f_equal. lia. }
  assert (Hnb0 : 0 <= nb) by (subst nb; apply Z.div_pos; unfold BLOCK_EXTEND; lia).
  assert (Hoff : forall bound f o, masked_store o (start + (Z.min sq A - pre))
            (range 0 (nb * BLOCK_EXTEND)) bound f
          = foldl (fun out b => masked_store out (start + (Z.min sq A - pre))
             ((fun o => b * BLOCK_EXTEND + o) <$> range 0 BLOCK_EXTEND) bound f)
            o (range 0 nb)).
  { intros bound f o. rewrite <- (Z2Nat.id nb) by done. symmetry.
    apply masked_store_blocks. done. }
  rewrite <- Hoff. clear Hoff.
  destruct (Z.eqb_spec (pre + (Z.min sq A - pre) + (D - A)) sq) as [He2|He2];
    (apply filled_intro; [done|by rewrite !length_masked_store|]; intros j Hj;
     repeat (rewrite masked_store_range, ?length_masked_store by lia)); settle_decides.
  - rewrite P2 by lia.
    by replace (pre + (Z.of_nat j - start) - A)
      with (Z.of_nat j - (start + (Z.min sq A - pre))) by lia.
  - rewrite P1 by lia. f_equal. lia.
  - rewrite P3 by lia. do 2 f_equal. lia.
  - rewrite P2 by lia.
    by replace (pre + (Z.of_nat j - start) - A)
      with (Z.of_nat j - (start + (Z.min sq A - pre))) by lia.
  - rewrite P1 by lia. f_equal. lia.
Qed.

Lemma length_put out start vals : length (put out start vals) = length out.
Proof. apply length_inserts. Qed.

Lemma lookup_put out start vals j :
  0 <= start ->
  put out start vals !! j =
  if decide (start <= Z.of_nat j < start + len vals /\ (j < length out)%nat)
  then vals !! Z.to_nat (Z.of_nat j - start) else out !! j.
Proof.
  intros Hs. unfold put, len. case_decide as Hd.
  - rewrite list_lookup_inserts by lia. f_equal. lia.
  - destruct (decide (j < length out)%nat).
    + destruct (decide (Z.of_nat j < start)).
      * apply list_lookup_inserts_lt. lia.
      * apply list_lookup_inserts_ge. lia.
    + rewrite !lookup_ge_None_2; [done|lia|rewrite length_inserts; lia].
Qed.

Lemma len_page_slots pages : len (page_slots ps pages) = len pages * ps.
Proof.
  induction pages as [|p pages IH]; [done|]. unfold page_slots in *; cbn.
  rewrite len_app, IH, len_cons. unfold len at 1. rewrite length_fmap, len_range; lia.
Qed.

Lemma lookup_page_slots pages k :
  0 <= k < len pages * ps ->
  page_slots ps pages !! Z.to_nat k
  = (fun p => p * ps + k mod ps) <$> (pages !! Z.to_nat (k / ps)).
Proof.
  revert k. induction pages as [|p pages IH]; intros k Hk.
  { unfold len in Hk; cbn in Hk; lia. }
  rewrite len_cons in Hk. unfold page_slots. cbn [mbind list_bind]. fold (page_slots ps pages).
  destruct (decide (k < ps)).
  - rewrite lookup_app_l by (rewrite length_fmap, len_range; lia).
    rewrite list_lookup_fmap, lookup_range, Z2Nat.id by lia.
    rewrite decide_True by lia. rewrite Z.div_small, Z.mod_small by lia. done.
  - rewrite lookup_app_r by (rewrite length_fmap, len_range; lia).
    rewrite length_fmap, len_range by lia.
    replace (Z.to_nat k - Z.to_nat (ps - 0))%nat with (Z.to_nat (k - 1 * ps)) by lia.
    rewrite IH by lia. rewrite mod_sub_mul, div_sub_mul.
    replace (Z.to_nat (k / ps)) with (S (Z.to_nat (k / ps - 1))); [done|].
    assert (1 <= k / ps) by (apply Z.div_le_lower_bound; lia). lia.
Qed.

Lemma lookup_slice {A} (l : list A) a b k :
  0 <= a -> b <= len l -> (Z.of_nat k < b - a) ->
  slice l a b !! k = l !! (Z.to_nat a + k)%nat.
Proof.
  intros. rewrite slice_drop_take by lia. rewrite lookup_drop, lookup_take_lt by lia. done.
Qed.

Lemma lookup_affine (f : Z -> Z) n m :
  0 <= m < n -> ((f <$> slice_to (range 0 ps) n) !! Z.to_nat m) =
  if decide (m < ps) then Some (f m) else None.
Proof.
  intros. rewrite list_lookup_fmap, slice_to_take, lookup_take_lt by lia.
  rewrite lookup_range, Z2Nat.id by lia.
  repeat case_decide; try done; lia.
Qed.

Lemma len_affine (f : Z -> Z) n : 0 <= n <= ps -> len (f <$> slice_to (range 0 ps) n) = n.
Proof.
  intros. unfold len. rewrite length_fmap. fold (len (slice_to (range 0 ps) n)).
  apply len_slice_to. unfold len. rewrite len_range; lia.
Qed.

Lemma lookup_slice_slots pages new n k :
  0 <= new -> new + n <= len pages -> 0 <= k < n * ps ->
  page_slots ps (slice pages new (new + n)) !! Z.to_nat k
  = Some (peek oob pages (new + k / ps) * ps + k mod ps).
Proof.
  intros Hnew Hpg Hk. assert (0 <= k / ps < n)
    by (split; [apply Z.div_pos; lia|apply Z.div_lt_upper_bound; lia]).
  rewrite lookup_page_slots by (rewrite len_slice by lia; lia).
  rewrite lookup_slice by lia.
  destruct (lookup_lt_is_Some_2 pages (Z.to_nat new + Z.to_nat (k / ps)))
    as [x Hx]; [unfold len in *; lia|].
  rewrite Hx. cbn. do 3 f_equal. symmetry.
  replace (new + k / ps) with (Z.of_nat (Z.to_nat new + Z.to_nat (k / ps))) by lia.
  by apply peek_lookup.
Qed.

Lemma put_nil out start : put out start [] = out.
Proof. done. Qed.

Lemma put_if (b : bool) out start vals :
  (b = true -> vals = []) -> (if b then out else put out start vals) = put out start vals.
Proof. destruct b; [|done]. intros ->; done. Qed.

Lemma naive_body_filled pages pre sq last start new out :
  0 <= pre <= sq -> 0 <= start -> 0 <= new ->
  new + num_new_pages_of ps pre sq <= len pages ->
  filled start (extend_slots oob ps pre sq last new pages) out
    (naive_body ps oob pages pre sq last start (start + (sq - pre)) new
       (new + num_new_pages_of ps pre sq) out).
Proof.
  intros Hle Hst Hnew Hpg.
  pose proof (ceil_bounds pre ltac:(lia)) as HA. pose proof (floor_bounds sq) as HD.
  pose proof (ceil_bounds sq ltac:(lia)) as HE.
  unfold naive_body, num_full_new_pages_of.
  pose proof (fun p => extend_slot_part1 pre last new pages p) as P1.
  pose proof (fun p => extend_slot_part2 pre last new pages p) as P2.
  pose proof (fun p => extend_slot_part3 pre sq last new pages p) as P3.
  unfold num_new_pages_of in *.
  set (C := (pre + ps - 1) / ps) in *. set (D := sq / ps) in *.
  set (E := (sq + ps - 1) / ps) in *.
  replace (new + (E - C) - (E - C - (D - C))) with (new + (D - C)) by lia.
  rewrite (put_if (_ =? 0) _ start)
    by (intros ->%Z.eqb_eq; by rewrite slice_to_take).
  destruct (Z.eqb_spec (pre + (Z.min sq (C * ps) - pre)) sq) as [He|He].
  { apply filled_intro; [done|by rewrite length_put|]. intros j Hj.
    rewrite lookup_put, len_affine by lia. settle_decides.
    rewrite lookup_affine, decide_True by lia. rewrite P1 by lia. f_equal; lia. }
  assert (HCD : C <= D) by (apply Z.div_le_lower_bound; lia).
  assert (HCD2 : C * ps <= D * ps) by (apply Z.mul_le_mono_nonneg_r; lia).
  assert (HDE : D <= E) by (apply Z.div_le_mono; lia).
  rewrite (put_if (_ =? 0) _ (start + _))
    by (intros H0%Z.eqb_eq; rewrite slice_drop_take by lia; rewrite drop_ge; [done|];
        rewrite length_take; nia).
  assert (Hmid : len (page_slots ps (slice pages new (new + (D - C)))) = (D - C) * ps)
    by (rewrite len_page_slots, len_slice by lia; lia).
  destruct (Z.eqb_spec (pre + (Z.min sq (C * ps) - pre) + (D - C) * ps) sq) as [He2|He2].
  - apply filled_intro; [done|by rewrite !length_put|]. intros j Hj.
    rewrite !lookup_put, length_put, Hmid, len_affine by lia. settle_decides.
    + rewrite lookup_slice_slots by lia. rewrite P2 by lia.
      by replace (pre + (Z.of_nat j - start) - C * ps)
        with (Z.of_nat j - (start + (Z.min sq (C * ps) - pre))) by lia.
    + rewrite lookup_affine, decide_True by lia. rewrite P1 by lia. f_equal; lia.
  - rewrite (put_if (_ =? 0) _ (start + (sq - pre) - _))
      by (intros ->%Z.eqb_eq; by rewrite slice_to_take).
    apply filled_intro; [done|by rewrite !length_put|]. intros j Hj.
    rewrite !lookup_put, !length_put, Hmid, !len_affine by lia. settle_decides.
    + rewrite lookup_affine, decide_True by lia. rewrite P3 by lia. do 2 f_equal; lia.
    + rewrite lookup_slice_slots by lia. rewrite P2 by lia.
      by replace (pre + (Z.of_nat j - start) - C * ps)
        with (Z.of_nat j - (start + (Z.min sq (C * ps) - pre))) by lia.
    + rewrite lookup_affine, decide_True by lia. rewrite P1 by lia. f_equal; lia.
Qed.

(** A loop whose [i]-th round fills the next segment fills the concatenation. *)
Lemma fold_filled (spec : nat -> list Z) (body : nat -> list Z -> list Z) n out :
  (forall i out, (i < n)%nat ->
     filled (len (concat (spec <$> seq 0 i))) (spec i) out (body i out)) ->
  length out = length (concat (spec <$> seq 0 n)) ->
  foldl (fun o i => body i o) out (seq 0 n) = concat (spec <$> seq 0 n).
Proof.
  intros Hb Hl.
  assert (Hm : forall m, (m <= n)%nat ->
    foldl (fun o i => body i o) out (seq 0 m)
    = concat (spec <$> seq 0 m) ++ drop (length (concat (spec <$> seq 0 m))) out).
  { intros m. induction m as [|m IH]; intros Hm; [done|].
    assert (Hle : (length (concat (spec <$> seq 0 (S m))) <= length out)%nat).
    { rewrite Hl. replace n with (S m + (n - S m))%nat by lia.
      rewrite (seq_app (S m)), fmap_app, concat_app, length_app. lia. }
    revert Hle. rewrite !seq_S, !fmap_app, !concat_app, foldl_app, IH by lia. cbn.
    rewrite app_nil_r, length_app. intros Hle.
    set (P := concat (spec <$> seq 0 m)) in *.
    rewrite <- (take_drop (length (spec m)) (drop (length P) out)).
    rewrite drop_drop, <- app_assoc.
    eapply filled_app; [|apply Hb; lia].
    rewrite length_take, length_drop. lia. }
  rewrite Hm by lia. rewrite drop_ge by lia. apply app_nil_r.
Qed.

Section batch.
Context (prefix_lens seq_lens last_loc pages : list Z).
Hypothesis Hok : lens_ok prefix_lens seq_lens last_loc.

Lemma lens_ok_lookup i :
  (i < length prefix_lens)%nat ->
  prefix_lens !! i = Some (prefix_lens !!! i) /\ seq_lens !! i = Some (seq_lens !!! i)
  /\ last_loc !! i = Some (last_loc !!! i) /\ 0 <= prefix_lens !!! i <= seq_lens !!! i
  /\ length seq_lens = length prefix_lens.
Proof.
  destruct Hok as [Hl HF]. intros Hi. pose proof (Forall2_length _ _ _ HF) as Hl2.
  rewrite !list_lookup_lookup_total_lt by lia.
  assert (0 <= prefix_lens !!! i <= seq_lens !!! i)
    by (eapply (Forall2_lookup_lr _ _ _ i _ _ HF); apply list_lookup_lookup_total_lt; lia).
  done.
Qed.

Lemma len_request_slots i :
  (i < length prefix_lens)%nat ->
  len (request_slots oob ps prefix_lens seq_lens last_loc pages i)
  = seq_lens !!! i - prefix_lens !!! i.
Proof. intros (_ & _ & _ & ? & _)%lens_ok_lookup. apply len_extend_slots. lia. Qed.

Lemma len_layout_before i :
  (i <= length prefix_lens)%nat ->
  len (concat (request_slots oob ps prefix_lens seq_lens last_loc pages <$> seq 0 i))
  = foldr Z.add 0 (take i (zip_with Z.sub seq_lens prefix_lens)).
Proof.
  induction i as [|i IH]; intros Hi; [done|].
  destruct (lens_ok_lookup i) as (Hp & Hs & _ & _); [lia|].
  rewrite seq_S, fmap_app, concat_app, len_app, IH by lia. cbn. rewrite app_nil_r.
  rewrite len_request_slots by lia.
  erewrite zsum_take_S; [|rewrite lookup_zip_with, Hs; cbn; rewrite Hp; done]. lia.
Qed.
Lemma total_tokens :
  foldr Z.add 0 (zip_with Z.sub seq_lens prefix_lens)
  = foldr Z.add 0 (take (length prefix_lens) (zip_with Z.sub seq_lens prefix_lens)).
Proof.
  rewrite take_ge; [done|]. rewrite length_zip_with. lia.
Qed.

Lemma sum_nonneg_take i :
  0 <= foldr Z.add 0 (take i (zip_with Z.sub seq_lens prefix_lens)).
Proof.
  destruct Hok as [_ HF]. clear Hok. revert i.
  induction HF as [|p s ps' ss Hps _ IH]; intros [|i]; cbn; try lia.
  specialize (IH i). lia.
Qed.

Lemma pages_before_S i :
  (i < length prefix_lens)%nat ->
  pages_before ps prefix_lens seq_lens (S i)
  = pages_before ps prefix_lens seq_lens i
    + num_new_pages_of ps (prefix_lens !!! i) (seq_lens !!! i).
Proof.
  intros (Hp & Hs & _)%lens_ok_lookup. unfold pages_before.
  erewrite zsum_take_S; [done|]. rewrite lookup_zip_with, Hp; cbn. by rewrite Hs.
Qed.

Lemma num_new_pages_nonneg p s : p <= s -> 0 <= num_new_pages_of ps p s.
Proof.
  intros. unfold num_new_pages_of.
  assert ((p + ps - 1) / ps <= (s + ps - 1) / ps) by (apply Z.div_le_mono; lia). lia.
Qed.

Lemma pages_before_mono i j :
  (i <= j <= length prefix_lens)%nat ->
  pages_before ps prefix_lens seq_lens i <= pages_before ps prefix_lens seq_lens j.
Proof.
  induction j as [|j IH]; intros Hij; [by replace i with 0%nat by lia|].
  destruct (decide (i = S j)) as [->|]; [done|].
  rewrite pages_before_S by lia.
  destruct (lens_ok_lookup j) as (_ & _ & _ & ? & _); [lia|].
  pose proof (num_new_pages_nonneg (prefix_lens !!! j) (seq_lens !!! j)). lia.
Qed.

Lemma pages_total :
  get_num_new_pages_extend ps seq_lens prefix_lens
  = pages_before ps prefix_lens seq_lens (length prefix_lens).
Proof.
  unfold get_num_new_pages_extend, pages_before, num_new_pages_of.
  rewrite take_ge by (rewrite length_zip_with; lia).
  rewrite <- (zip_with_flip _ prefix_lens seq_lens). done.
Qed.

(** The kernel and the reference loop both produce the layout. *)
Lemma kernel_layout masked bs_upper out :
  lanes_agree masked -> len prefix_lens <= bs_upper ->
  len out = foldr Z.add 0 (zip_with Z.sub seq_lens prefix_lens) ->
  alloc_extend_kernel ps masked oob prefix_lens seq_lens last_loc pages out bs_upper
  = extend_layout oob ps prefix_lens seq_lens last_loc pages.
Proof.
  intros Hag Hbs Hlen. unfold alloc_extend_kernel, extend_layout.
  unfold len at 1. rewrite range_seq, foldl_fmap.
  apply (fold_filled _ (fun i o => alloc_extend_program ps masked oob prefix_lens
    seq_lens last_loc pages bs_upper (Z.of_nat i) o)).
  - intros i o Hi. rewrite len_layout_before by lia.
    destruct (lens_ok_lookup i Hi) as (Hp & Hs & Hl & Hle & Hls).
    unfold request_slots, pages_before.
    rewrite <- (Z2Nat.id bs_upper) by (unfold len in Hbs; lia).
    rewrite <- (zip_with_flip _ prefix_lens seq_lens).
    apply extend_program_filled; try done; [unfold len in Hbs; lia|].
    apply sum_nonneg_take.
  - rewrite total_tokens, <- len_layout_before in Hlen by lia. unfold len in Hlen. lia.
Qed.

Lemma cumsum_lookup l i :
  (i < length l)%nat -> cumsum l !!! i = foldr Z.add 0 (take (S i) l).
Proof.
  intros Hi. unfold cumsum. apply list_lookup_total_correct.
  rewrite list_lookup_fmap, lookup_seq_lt by done. done.
Qed.

Lemma naive_layout out :
  get_num_new_pages_extend ps seq_lens prefix_lens <= len pages ->
  len out = foldr Z.add 0 (zip_with Z.sub seq_lens prefix_lens) ->
  alloc_extend_naive ps oob prefix_lens seq_lens last_loc pages out
  = extend_layout oob ps prefix_lens seq_lens last_loc pages.
Proof.
  intros Hpg Hlen. rewrite pages_total in Hpg. unfold alloc_extend_naive, extend_layout.
  match goal with |- foldl (fun o i => @?b o i) _ _ = _ =>
    apply (fold_filled _ (fun i o => b o i)) end.
  - intros i o Hi. rewrite len_layout_before by lia.
    destruct (lens_ok_lookup i Hi) as (Hp & Hs & Hl & Hle & Hls). cbn beta.
    assert (Hz : zip_with Z.sub seq_lens prefix_lens !! i
                 = Some (seq_lens !!! i - prefix_lens !!! i))
      by (rewrite lookup_zip_with, Hs; cbn; by rewrite Hp).
    assert (Hz2 : zip_with (num_new_pages_of ps) prefix_lens seq_lens !! i
                  = Some (num_new_pages_of ps (prefix_lens !!! i) (seq_lens !!! i)))
      by (rewrite lookup_zip_with, Hp; cbn; by rewrite Hs).
    rewrite !cumsum_lookup by (rewrite length_zip_with; lia).
    rewrite (zsum_take_S _ _ _ Hz), (zsum_take_S _ _ _ Hz2).
    rewrite (list_lookup_total_correct _ _ _ Hz), (list_lookup_total_correct _ _ _ Hz2).
    fold (pages_before ps prefix_lens seq_lens i).
    set (st := foldr Z.add 0 (take i _)).
    replace (st + _ - _) with st by lia.
    replace (pages_before ps prefix_lens seq_lens i + _ - _)
      with (pages_before ps prefix_lens seq_lens i) by lia.
    pose proof (pages_before_mono 0 i ltac:(lia)) as H0. cbn in H0.
    pose proof (pages_before_mono (S i) (length prefix_lens) ltac:(lia)) as H1.
    rewrite pages_before_S in H1 by lia.
    apply naive_body_filled; try done; [apply sum_nonneg_take|lia].
  - rewrite total_tokens, <- len_layout_before in Hlen by lia. unfold len in Hlen. lia.
Qed.

End batch.

(** *** Consequences of the layout *)

Lemma extend_slot_bounds pre sq p :
  0 <= pre <= p -> p < sq -> (pre + ps - 1) / ps * ps <= p ->
  0 <= p / ps - (pre + ps - 1) / ps < num_new_pages_of ps pre sq.
Proof.
  intros. unfold num_new_pages_of.
  assert ((pre + ps - 1) / ps <= p / ps) by (apply Z.div_le_lower_bound; lia).
  assert (p / ps + 1 <= (sq + ps - 1) / ps); [|lia].
  apply Z.div_le_lower_bound; [lia|]. pose proof (floor_bounds p). lia.
Qed.

Lemma peek_in_range oob1 oob2 l i :
  0 <= i < len l -> peek oob1 l i = peek oob2 l i.
Proof.
  intros. unfold peek, nthZ. destruct (Z.ltb_spec i 0); [lia|].
  destruct (lookup_lt_is_Some_2 l (Z.to_nat i)) as [x ->]; [unfold len in *; lia|]. done.
Qed.

(** The page of the slot given to position [p], and the slot as page and
    offset. *)
Definition slot_page pre last new pages (p : Z) : Z :=
  if p <? (pre + ps - 1) / ps * ps then last / ps
  else peek oob pages (new + (p / ps - (pre + ps - 1) / ps)).

Lemma extend_slot_decompose pre last new pages p :
  0 <= pre <= p -> (last + 1) mod ps = pre mod ps ->
  extend_slot oob ps pre last new pages p
  = slot_page pre last new pages p * ps + p mod ps.
Proof.
  intros Hp Hal. unfold extend_slot, slot_page.
  destruct (Z.ltb_spec p ((pre + ps - 1) / ps * ps)) as [Hlt|]; [|done].
  pose proof (ceil_bounds pre ltac:(lia)). pose proof (floor_bounds pre) as Hf.
  set (C := (pre + ps - 1) / ps) in *.
  assert (HC : pre / ps = C - 1) by (apply div_unique; lia).
  destruct (div_unique p (C - 1)) as [_ Hpm]; [lia|].
  destruct (div_unique pre (C - 1)) as [_ Hprem]; [lia|].
  pose proof (floor_bounds (last + 1)) as Hl1.
  pose proof (Z.mod_eq (last + 1) ps ltac:(lia)) as Hme.
  rewrite Hal, Hprem in Hme. rewrite Hpm.
  destruct (div_unique last ((last + 1) / ps)) as [-> _]; lia.
Qed.

Lemma extend_slot_mod pre last new pages p :
  0 <= pre <= p -> (last + 1) mod ps = pre mod ps ->
  extend_slot oob ps pre last new pages p mod ps = p mod ps
  /\ extend_slot oob ps pre last new pages p / ps = slot_page pre last new pages p.
Proof.
  intros. rewrite extend_slot_decompose by done.
  pose proof (Z.mod_pos_bound p ps ps_pos).
  split.
  - rewrite Z.add_comm, Z.mod_add by lia. apply Z.mod_small; lia.
  - apply div_unique. lia.
Qed.

Section batch_facts.
Context (prefix_lens seq_lens last_loc pages : list Z).
Hypothesis Hok : lens_ok prefix_lens seq_lens last_loc.
Hypothesis Hpg : get_num_new_pages_extend ps seq_lens prefix_lens <= len pages.

(** The indices of [free_pages] a position reads, all in range and grouped by
    request. *)
Lemma page_index_bounds i p :
  (i < length prefix_lens)%nat ->
  prefix_lens !!! i <= p < seq_lens !!! i ->
  (prefix_lens !!! i + ps - 1) / ps * ps <= p ->
  let k := pages_before ps prefix_lens seq_lens i
           + (p / ps - (prefix_lens !!! i + ps - 1) / ps) in
  pages_before ps prefix_lens seq_lens i <= k < pages_before ps prefix_lens seq_lens (S i)
  /\ 0 <= k < len pages.
Proof.
  intros Hi Hp HA k.
  destruct (lens_ok_lookup _ _ _ Hok i Hi) as (_ & _ & _ & Hle & _).
  pose proof (extend_slot_bounds (prefix_lens !!! i) (seq_lens !!! i) p) as Hb.
  pose proof (pages_before_S _ _ _ Hok i Hi) as HS.
  pose proof (pages_before_mono _ _ _ Hok 0 i ltac:(lia)) as H0.
  change (pages_before ps prefix_lens seq_lens 0) with 0 in H0.
  pose proof (pages_before_mono _ _ _ Hok (S i) (length prefix_lens) ltac:(lia)) as H1.
  rewrite pages_total in Hpg by done. subst k. lia.
Qed.

Lemma layout_oob oob' :
  extend_layout oob ps prefix_lens seq_lens last_loc pages
  = extend_layout oob' ps prefix_lens seq_lens last_loc pages.
Proof.
  unfold extend_layout. f_equal. apply list_fmap_ext. intros i i' Hi.
  apply lookup_seq in Hi as [-> Hi]. cbn in *.
  unfold request_slots, extend_slots. apply list_fmap_ext. intros k p Hk.
  unfold extend_slot.
  destruct (Z.ltb_spec p ((prefix_lens !!! i + ps - 1) / ps * ps)); [done|].
  rewrite lookup_range in Hk. case_decide; simplify_eq.
  do 2 f_equal. apply peek_in_range.
  apply (page_index_bounds i); [lia|lia|done].
Qed.

(** A batch whose open pages are pairwise distinct and not free.  A request
    that ends on a page boundary has no open page. *)
Definition open_pages_ok : Prop :=
  (forall i, (i < length prefix_lens)%nat ->
     (last_loc !!! i + 1) mod ps = prefix_lens !!! i mod ps) /\
  (forall i, (i < length prefix_lens)%nat -> prefix_lens !!! i mod ps <> 0 ->
     last_loc !!! i / ps ∉ pages) /\
  (forall i j, (i < length prefix_lens)%nat -> (j < length prefix_lens)%nat ->
     prefix_lens !!! i mod ps <> 0 -> prefix_lens !!! j mod ps <> 0 ->
     last_loc !!! i / ps = last_loc !!! j / ps -> i = j).

Hypothesis Hopen : open_pages_ok.
Hypothesis Hnodup : NoDup pages.

Definition page_at (i : nat) (p : Z) : Z :=
  slot_page (prefix_lens !!! i) (last_loc !!! i)
    (pages_before ps prefix_lens seq_lens i) pages p.

(** A position in the open page of its request. *)
Lemma in_open_page i p :
  (i < length prefix_lens)%nat -> prefix_lens !!! i <= p ->
  p < (prefix_lens !!! i + ps - 1) / ps * ps ->
  page_at i p = last_loc !!! i / ps /\ prefix_lens !!! i mod ps <> 0
  /\ p / ps = (prefix_lens !!! i + ps - 1) / ps - 1.
Proof.
  intros Hi Hp HA. unfold page_at, slot_page.
  destruct (lens_ok_lookup _ _ _ Hok i Hi) as (_ & _ & _ & Hle & _).
  pose proof (ceil_bounds (prefix_lens !!! i) (proj1 Hle)).
  destruct (Z.ltb_spec p ((prefix_lens !!! i + ps - 1) / ps * ps)); [|lia].
  set (C := (prefix_lens !!! i + ps - 1) / ps) in *.
  split; [done|]. split.
  - intros Hz. pose proof (floor_bounds (prefix_lens !!! i)).
    pose proof (Z.div_mod (prefix_lens !!! i) ps ltac:(lia)) as Hdm.
    rewrite Hz in Hdm.
    assert (prefix_lens !!! i / ps = C - 1) as Hd by (apply div_unique; lia).
    rewrite Hd in Hdm. lia.
  - apply div_unique. lia.
Qed.

(** A position in a new page: the page is the [k]-th free one. *)
Lemma in_new_page i p :
  (i < length prefix_lens)%nat -> prefix_lens !!! i <= p < seq_lens !!! i ->
  (prefix_lens !!! i + ps - 1) / ps * ps <= p ->
  exists k : nat, pages !! k = Some (page_at i p) /\
    Z.of_nat k = pages_before ps prefix_lens seq_lens i
                 + (p / ps - (prefix_lens !!! i + ps - 1) / ps) /\
    pages_before ps prefix_lens seq_lens i <= Z.of_nat k
      < pages_before ps prefix_lens seq_lens (S i).
Proof.
  intros Hi Hp HA. destruct (page_index_bounds i p Hi Hp HA) as [Hb Hr].
  set (k := pages_before _ _ _ _ + _) in *.
  exists (Z.to_nat k). rewrite Z2Nat.id by lia. split; [|lia].
  unfold page_at, slot_page.
  destruct (Z.ltb_spec p ((prefix_lens !!! i + ps - 1) / ps * ps)); [lia|].
  fold k. unfold peek, nthZ. destruct (Z.ltb_spec k 0); [lia|].
  destruct (lookup_lt_is_Some_2 pages (Z.to_nat k)) as [x ->]; [unfold len in *; lia|]. done.
Qed.

(** Two positions in the same page of the same batch are in the same request
    and in the same page of its sequence. *)
Lemma page_at_inj i j p q :
  (i < length prefix_lens)%nat -> (j < length prefix_lens)%nat ->
  prefix_lens !!! i <= p < seq_lens !!! i -> prefix_lens !!! j <= q < seq_lens !!! j ->
  page_at i p = page_at j q -> i = j /\ p / ps = q / ps.
Proof.
  destruct Hopen as (_ & Hfree & Hdist). intros Hi Hj Hp Hq Heq.
  destruct (Z.lt_ge_cases p ((prefix_lens !!! i + ps - 1) / ps * ps)) as [Hpa|Hpa];
  destruct (Z.lt_ge_cases q ((prefix_lens !!! j + ps - 1) / ps * ps)) as [Hqa|Hqa].
  - destruct (in_open_page i p Hi) as (E1 & N1 & D1); [lia..|].
    destruct (in_open_page j q Hj) as (E2 & N2 & D2); [lia..|].
    assert (i = j) as -> by (apply Hdist; congruence). split; [done|lia].
  - destruct (in_open_page i p Hi) as (E1 & N1 & D1); [lia..|].
    destruct (in_new_page j q Hj Hq Hqa) as (k & Hk & _).
    exfalso. apply (Hfree i Hi N1). rewrite <- E1, Heq. by eapply list_elem_of_lookup_2.
  - destruct (in_open_page j q Hj) as (E2 & N2 & D2); [lia..|].
    destruct (in_new_page i p Hi Hp Hpa) as (k & Hk & _).
    exfalso. apply (Hfree j Hj N2). rewrite <- E2, <- Heq. by eapply list_elem_of_lookup_2.
  - destruct (in_new_page i p Hi Hp Hpa) as (k & Hk & Hki & Hkb).
    destruct (in_new_page j q Hj Hq Hqa) as (k' & Hk' & Hki' & Hkb').
    assert (k = k') as <- by (eapply NoDup_lookup; [done|done|by rewrite Heq]).
    assert (i = j) as <-; [|split; [done|lia]].
    destruct (Nat.lt_trichotomy i j) as [Hlt|[|Hlt]]; [|done|]; exfalso.
    + pose proof (pages_before_mono _ _ _ Hok (S i) j ltac:(lia)). lia.
    + pose proof (pages_before_mono _ _ _ Hok (S j) i ltac:(lia)). lia.
Qed.

Lemma slot_inj i j p q :
  (i < length prefix_lens)%nat -> (j < length prefix_lens)%nat ->
  prefix_lens !!! i <= p < seq_lens !!! i -> prefix_lens !!! j <= q < seq_lens !!! j ->
  extend_slot oob ps (prefix_lens !!! i) (last_loc !!! i)
    (pages_before ps prefix_lens seq_lens i) pages p
  = extend_slot oob ps (prefix_lens !!! j) (last_loc !!! j)
    (pages_before ps prefix_lens seq_lens j) pages q -> i = j /\ p = q.
Proof.
  intros Hi Hj Hp Hq Heq.
  destruct (lens_ok_lookup _ _ _ Hok i Hi) as (_ & _ & _ & Hle & _).
  destruct (lens_ok_lookup _ _ _ Hok j Hj) as (_ & _ & _ & Hle' & _).
  destruct (extend_slot_mod (prefix_lens !!! i) (last_loc !!! i)
    (pages_before ps prefix_lens seq_lens i) pages p) as [M1 D1]; [lia|by apply Hopen|].
  destruct (extend_slot_mod (prefix_lens !!! j) (last_loc !!! j)
    (pages_before ps prefix_lens seq_lens j) pages q) as [M2 D2]; [lia|by apply Hopen|].
  rewrite Heq in M1, D1.
  destruct (page_at_inj i j p q) as [-> Hd]; [done..| |].
  { unfold page_at. congruence. }
  split; [done|].
  rewrite (Z.div_mod p ps), (Z.div_mod q ps), Hd by lia. congruence.
Qed.

Lemma layout_NoDup : NoDup (extend_layout oob ps prefix_lens seq_lens last_loc pages).
Proof.
  unfold extend_layout.
  assert (Hbind : concat (request_slots oob ps prefix_lens seq_lens last_loc pages
            <$> seq 0 (length prefix_lens))
          = seq 0 (length prefix_lens) ≫=
            request_slots oob ps prefix_lens seq_lens last_loc pages)
    by (generalize (seq 0 (length prefix_lens)); induction l; cbn; congruence).
  rewrite Hbind. apply NoDup_bind; [| |apply NoDup_seq].
  - intros i j y Hi Hj Hyi Hyj. apply elem_of_seq in Hi, Hj.
    apply list_elem_of_fmap in Hyi as (p & -> & Hp), Hyj as (q & Heq & Hq).
    unfold range in *. apply elem_of_seqZ in Hp, Hq.
    eapply slot_inj; [..|exact Heq]; lia.
  - intros i Hi. apply elem_of_seq in Hi. apply NoDup_fmap_2_strong; [|apply NoDup_range].
    intros p q Hp Hq Heq. unfold range in *. apply elem_of_seqZ in Hp, Hq.
    eapply (slot_inj i i); [..|exact Heq]; lia.
Qed.

(** The slot of each position: in the layout, at the position's offset of its
    page, in a free page or in the request's open page. *)
(** The new tokens of the requests before request [i]. *)
Definition tokens_before (i : nat) : Z := foldr Z.add 0 (take i (zip_with Z.sub seq_lens prefix_lens)).

(** The slots of request [i] follow those of the requests before it, in the order
    of their positions. *)
Lemma layout_lookup i p :
  (i < length prefix_lens)%nat -> prefix_lens !!! i <= p < seq_lens !!! i ->
  extend_layout oob ps prefix_lens seq_lens last_loc pages !! Z.to_nat (tokens_before i + (p - prefix_lens !!! i)) =
  Some (extend_slot oob ps (prefix_lens !!! i) (last_loc !!! i) (pages_before ps prefix_lens seq_lens i) pages p).
Proof.
  intros Hi Hp. unfold extend_layout.
  pose proof (len_layout_before prefix_lens seq_lens last_loc pages Hok i ltac:(lia)) as Hl. fold (tokens_before i) in Hl.
  pose proof (len_request_slots prefix_lens seq_lens last_loc pages Hok i Hi) as Hr.
  assert (Hseq : seq 0 (length prefix_lens) = seq 0 i ++ i :: seq (S i) (length prefix_lens - S i)).
  { replace (length prefix_lens) with (i + S (length prefix_lens - S i))%nat at 1 by lia. by rewrite seq_app. }
  rewrite Hseq, fmap_app, concat_app, fmap_cons. cbn [concat]. rewrite lookup_app_r by (unfold len in *; lia).
  rewrite lookup_app_l by (unfold len in *; lia).
  replace (_ - _)%nat with (Z.to_nat (p - prefix_lens !!! i)) by (unfold len in *; lia). unfold request_slots, extend_slots.
  rewrite list_lookup_fmap, lookup_range, decide_True by lia. cbn. do 2 f_equal. lia.
Qed.

(** The entry of position [p]: in the open page up to its end, then in the
    request's new pages, in order. *)
Lemma layout_entry i p :
  (i < length prefix_lens)%nat -> prefix_lens !!! i <= p < seq_lens !!! i ->
  let before := (prefix_lens !!! i + ps - 1) / ps in
  let s := extend_slot oob ps (prefix_lens !!! i) (last_loc !!! i)
             (pages_before ps prefix_lens seq_lens i) pages p in
  s mod ps = p mod ps /\
  if decide (p < before * ps) then s = last_loc !!! i + 1 + (p - prefix_lens !!! i) /\ s / ps = last_loc !!! i / ps
  else exists page, pages !! Z.to_nat (pages_before ps prefix_lens seq_lens i + (p / ps - before)) = Some page /\ s = page * ps + p mod ps.
Proof.
  intros Hi Hp before s.
  destruct (lens_ok_lookup _ _ _ Hok _ Hi) as (_ & _ & _ & Hle & _).
  destruct (extend_slot_mod (prefix_lens !!! i) (last_loc !!! i)
    (pages_before ps prefix_lens seq_lens i) pages p) as [Hm Hd]; [lia|by apply Hopen|].
  fold s in Hm, Hd. split; [done|]. case_decide as Hlt.
  - split; [by apply extend_slot_part1|]. rewrite Hd. apply (in_open_page i p); [done|lia|done].
  - destruct (in_new_page i p Hi Hp) as (j & Hj & He & _); [unfold before in Hlt; lia|].
    exists (page_at i p). split; [unfold before; by rewrite <- He, Nat2Z.id|].
    rewrite (Z.div_mod s ps) by lia. rewrite Hm, Hd. unfold page_at. lia.
Qed.

End batch_facts.

End lemmas.

(** Every page the allocator holds outside an open free group. *)
Definition all_pages (st : allocator) : list Z := free_pages st ++ release_pages st.

Section method_lemmas.
Context (masked : lanes) (oob : Z -> Z) (empty : Z -> list Z).
Implicit Types st : allocator.

Lemma merge_all_pages st : all_pages (merge_and_sort_free st) ≡ₚ all_pages st.
Proof.
  unfold merge_and_sort_free, all_pages, torch_sort. destruct (0 <? _); [|done].
  cbn. by rewrite merge_sort_Permutation, app_nil_r.
Qed.

Lemma merge_page_size st : page_size (merge_and_sort_free st) = page_size st.
Proof. unfold merge_and_sort_free. by case_match. Qed.

(** The state the kernel runs in: merged when the code decides to. *)
Definition before_extend (bs extend_num_tokens : Z) st : allocator :=
  if need_sort st && (len (free_pages st) <? extend_num_tokens / page_size st + bs + 1)
  then merge_and_sort_free st else st.

Lemma before_extend_spec bs n st :
  all_pages (before_extend bs n st) ≡ₚ all_pages st
  /\ page_size (before_extend bs n st) = page_size st.
Proof.
  unfold before_extend. destruct (_ && _); [|done].
  split; [apply merge_all_pages|apply merge_page_size].
Qed.

Lemma alloc_extend_unfold prefix_lens seq_lens last_loc n st :
  alloc_extend masked oob empty prefix_lens seq_lens last_loc n st =
  let st1 := before_extend (len prefix_lens) n st in
  let k := get_num_new_pages_extend (page_size st1) seq_lens prefix_lens in
  if len (free_pages st1) <? k then (None, st1)
  else (Some (alloc_extend_kernel (page_size st1) masked oob prefix_lens seq_lens last_loc
                (free_pages st1) (empty n) (next_power_of_2 (len prefix_lens))),
        set_pages st1 (slice_from (free_pages st1) k) (release_pages st1)).
Proof. done. Qed.

Lemma open_pages_ok_sub ps prefix_lens last_loc pages pages' :
  (forall x, x ∈ pages' -> x ∈ pages) ->
  open_pages_ok ps prefix_lens last_loc pages -> open_pages_ok ps prefix_lens last_loc pages'.
Proof. intros Hsub (Ha & Hb & Hc). split; [done|]. split; [|done]. naive_solver. Qed.

(** Each request consumes at most one page more than its share. *)
Lemma num_new_pages_bound ps prefix_lens seq_lens last_loc :
  0 < ps -> lens_ok prefix_lens seq_lens last_loc ->
  get_num_new_pages_extend ps seq_lens prefix_lens
  <= foldr Z.add 0 (zip_with Z.sub seq_lens prefix_lens) / ps + len prefix_lens.
Proof.
  intros Hps [_ HF].
  assert (ps * get_num_new_pages_extend ps seq_lens prefix_lens
    <= foldr Z.add 0 (zip_with Z.sub seq_lens prefix_lens) + len prefix_lens * (ps - 1)) as Hb.
  { unfold get_num_new_pages_extend. induction HF as [|p s l k Hp _ IH]; [unfold len; cbn; lia|].
    rewrite len_cons. cbn.
    pose proof (ceil_bounds ps Hps p ltac:(lia)). pose proof (ceil_bounds ps Hps s ltac:(lia)).
    lia. }
  set (K := get_num_new_pages_extend _ _ _) in *.
  set (T := foldr _ _ _) in *. pose proof (len_nonneg prefix_lens).
  assert (K - len prefix_lens <= T / ps); [|lia].
  apply Z.div_le_lower_bound; [lia|]. lia.
Qed.

End method_lemmas.

(** C32: the Triton kernel [alloc_extend_kernel] computes what the reference
    loop [alloc_extend_naive] computes, for every batch with enough free
    pages, whatever uninitialised output buffers and out-of-bounds words the
    two start from, and for any launch width that covers the batch, when the
    two masked loads of a program leave the same words in their masked-out
    lanes; the words themselves do not matter. *)
Theorem extend_kernel_matches_naive ps masked oob oob' bs_upper
    prefix_lens seq_lens last_loc free_pages out out' :
  lanes_agree masked -> 0 < ps -> lens_ok prefix_lens seq_lens last_loc ->
  get_num_new_pages_extend ps seq_lens prefix_lens <= len free_pages ->
  len prefix_lens <= bs_upper ->
  len out = foldr Z.add 0 (zip_with Z.sub seq_lens prefix_lens) ->
  len out' = foldr Z.add 0 (zip_with Z.sub seq_lens prefix_lens) ->
  alloc_extend_kernel ps masked oob prefix_lens seq_lens last_loc free_pages out bs_upper
  = alloc_extend_naive ps oob' prefix_lens seq_lens last_loc free_pages out'.
Proof.
  intros. rewrite kernel_layout, naive_layout by done. by apply layout_oob.
Qed.

Lemma extend_kernel_matches_naive_witness :
  alloc_extend_kernel 4 (Lanes (fun _ _ => 9) (fun _ _ => 9)) (fun _ => 77) [3; 0] [9; 2] [14; -1] [5; 6; 7] (replicate 8 0) 2
  = alloc_extend_naive 4 (fun _ => 78) [3; 0] [9; 2] [14; -1] [5; 6; 7] (replicate 8 1)
  /\ alloc_extend_kernel 4 (Lanes (fun _ _ => 9) (fun _ _ => 9)) (fun _ => 77) [3; 0] [9; 2] [14; -1] [5; 6; 7] (replicate 8 0) 2
     = [15; 20; 21; 22; 23; 24; 28; 29].
Proof.
  split; [|vm_compute; reflexivity].
  apply (extend_kernel_matches_naive 4); try done; try (vm_compute; done).
  split; [done|]. repeat constructor; lia.
Defined.

(** The condition is needed: the kernel subtracts the lanes of one load from
    those of the other and sums all of them. *)
Lemma disagreeing_lanes :
  alloc_extend_kernel 4 (Lanes (fun _ _ => 9) (fun _ _ => 5)) (fun _ => 77) [3; 0] [9; 2] [14; -1] [5; 6; 7] (replicate 8 0) 2
  <> alloc_extend_naive 4 (fun _ => 77) [3; 0] [9; 2] [14; -1] [5; 6; 7] (replicate 8 0).
Proof. vm_compute. discriminate. Qed.

(** C33: [alloc_extend] succeeds with a tensor that has one slot per new token,
    no slot twice.  The tokens of the requests follow one another, and the entry
    for the token at position [p] of request [i] is the next slot of the
    request's open page, up to the end of that page, and then the slot at
    offset [p mod page_size] of the request's next new page; the new pages of
    the requests are consecutive free pages, request after request, exactly
    [get_num_new_pages] of them, and leave the allocator.  The masked loads are
    assumed to agree, and the caller's open pages to be its own. *)
Theorem alloc_extend_layout masked oob empty prefix_lens seq_lens last_loc n st out st' :
  let ps := page_size st in
  let pages := free_pages (before_extend (len prefix_lens) n st) in
  lanes_agree masked -> 0 < ps -> lens_ok prefix_lens seq_lens last_loc ->
  n = foldr Z.add 0 (zip_with Z.sub seq_lens prefix_lens) ->
  (forall k, 0 <= k -> len (empty k) = k) ->
  NoDup (all_pages st) -> open_pages_ok ps prefix_lens last_loc (all_pages st) ->
  alloc_extend masked oob empty prefix_lens seq_lens last_loc n st = (Some out, st') ->
  len out = n /\ NoDup out /\
  (forall i p, (i < length prefix_lens)%nat -> prefix_lens !!! i <= p < seq_lens !!! i ->
     let before := (prefix_lens !!! i + ps - 1) / ps in
     exists s, out !! Z.to_nat (tokens_before prefix_lens seq_lens i + (p - prefix_lens !!! i)) = Some s /\ s mod ps = p mod ps /\
     if decide (p < before * ps) then s = last_loc !!! i + 1 + (p - prefix_lens !!! i) /\ s / ps = last_loc !!! i / ps
     else exists page, pages !! Z.to_nat (pages_before ps prefix_lens seq_lens i + (p / ps - before)) = Some page /\ s = page * ps + p mod ps) /\
  slice_to pages (get_num_new_pages_extend ps seq_lens prefix_lens) ++ all_pages st' ≡ₚ all_pages st /\
  get_num_new_pages_extend ps seq_lens prefix_lens <= len pages.
Proof.
  cbn zeta. intros Hag Hps Hok Hn Hempty Hnd Hopen.
  rewrite alloc_extend_unfold. cbn zeta.
  destruct (before_extend_spec (len prefix_lens) n st) as [Hperm ->].
  set (st1 := before_extend _ _ _) in *.
  set (k := get_num_new_pages_extend _ _ _) in *.
  destruct (Z.ltb_spec (len (free_pages st1)) k) as [|Hk]; [done|].
  intros [= <- <-].
  assert (Hsub : forall x, x ∈ free_pages st1 -> x ∈ all_pages st)
    by (intros x Hx; rewrite <- Hperm; unfold all_pages; apply elem_of_app; by left).
  assert (Hnd1 : NoDup (free_pages st1))
    by (rewrite <- Hperm in Hnd; by apply NoDup_app in Hnd as [? _]).
  assert (Hopen1 : open_pages_ok (page_size st) prefix_lens last_loc (free_pages st1))
    by eauto using open_pages_ok_sub.
  assert (Hn0 : 0 <= n) by (rewrite Hn, total_tokens; by eapply sum_nonneg_take).
  assert (Hk0 : 0 <= k).
  { subst k. rewrite pages_total.
    apply (pages_before_mono _ Hps _ _ _ Hok 0). lia. }
  rewrite kernel_layout; [|done|done|done| |rewrite Hempty; done].
  2:{ pose proof (len_nonneg prefix_lens).
      destruct (decide (len prefix_lens = 0)) as [->|]; [done|].
      apply next_power_of_2_ge; lia. }
  split_and!.
  - unfold extend_layout. rewrite len_layout_before by done. by rewrite <- total_tokens.
  - by apply layout_NoDup.
  - intros i p Hi Hp. eexists. split; [by apply layout_lookup|]. by apply layout_entry.
  - rewrite <- Hperm. unfold all_pages; cbn. by rewrite app_assoc, slice_to_from.
  - done.
Qed.

Definition demo : allocator := Allocator 40 4 false [5; 6; 7] [] true [].

Lemma alloc_extend_layout_witness :
  alloc_extend zero_lanes (fun _ => 0) (fun k => replicate (Z.to_nat k) 0) [3; 0] [9; 2] [14; -1] 8 demo
  = (Some [15; 20; 21; 22; 23; 24; 28; 29], Allocator 40 4 false [] [] true [])
  /\ NoDup (A:=Z) [15; 20; 21; 22; 23; 24; 28; 29].
Proof.
  assert (H : alloc_extend zero_lanes (fun _ => 0) (fun k => replicate (Z.to_nat k) 0)
    [3; 0] [9; 2] [14; -1] 8 demo
    = (Some [15; 20; 21; 22; 23; 24; 28; 29], Allocator 40 4 false [] [] true []))
    by (vm_compute; reflexivity).
  split; [exact H|].
  eapply (alloc_extend_layout zero_lanes (fun _ => 0) (fun k => replicate (Z.to_nat k) 0)
    [3; 0] [9; 2] [14; -1] 8 demo); [| | | | | | |exact H].
  - apply zero_lanes_agree.
  - done.
  - split; [done|]. repeat constructor; lia.
  - done.
  - intros k Hk. unfold len. rewrite length_replicate. lia.
  - apply (bool_decide_unpack _). vm_compute. done.
  - split; [|split].
    + intros [|[|i]] Hi; [reflexivity..|]. change (length [3; 0]) with 2%nat in Hi. lia.
    + intros [|[|i]] Hi Hm.
      * apply (bool_decide_unpack _). vm_compute. done.
      * exfalso. apply Hm. reflexivity.
      * change (length [3; 0]) with 2%nat in Hi. lia.
    + intros i j Hi Hj Hmi Hmj _. change (length [3; 0]) with 2%nat in Hi, Hj.
      destruct i as [|[|i]]; [|exfalso; apply Hmi; reflexivity|lia].
      destruct j as [|[|j]]; [reflexivity|exfalso; apply Hmj; reflexivity|lia].
Defined.

(** [alloc_extend] reports failure exactly when the batch needs more pages
    than the allocator holds ready or released together, although it merges
    the released pages only under a cheaper, approximate test. *)
Theorem alloc_extend_fails_iff masked oob empty prefix_lens seq_lens last_loc n st :
  0 < page_size st -> lens_ok prefix_lens seq_lens last_loc ->
  n = foldr Z.add 0 (zip_with Z.sub seq_lens prefix_lens) -> Token.wf st ->
  fst (alloc_extend masked oob empty prefix_lens seq_lens last_loc n st) = None <->
  len (all_pages st) < get_num_new_pages_extend (page_size st) seq_lens prefix_lens.
Proof.
  intros Hps Hok -> Hwf. rewrite alloc_extend_unfold. cbn zeta.
  destruct (before_extend_spec (len prefix_lens)
    (foldr Z.add 0 (zip_with Z.sub seq_lens prefix_lens)) st) as [Hperm ->].
  pose proof (num_new_pages_bound _ _ _ _ Hps Hok) as Hb.
  assert (Hl := Permutation_length Hperm). unfold all_pages in Hl |- *.
  rewrite len_app. rewrite !length_app in Hl. unfold before_extend in *.
  pose proof (len_nonneg (release_pages st)).
  destruct (need_sort st) eqn:Hs; cbn [andb] in *.
  - destruct (Z.ltb_spec (len (free_pages st))
      (foldr Z.add 0 (zip_with Z.sub seq_lens prefix_lens) / page_size st
       + len prefix_lens + 1)).
    + rewrite Token.merge_release in Hl. cbn in Hl.
      set (k := get_num_new_pages_extend _ _ _) in *.
      destruct (Z.ltb_spec (len (free_pages (merge_and_sort_free st))) k);
        cbn; unfold len in *; (split; [|intros]); try done; lia.
    + set (k := get_num_new_pages_extend _ _ _) in *.
      destruct (Z.ltb_spec (len (free_pages st)) k); cbn; (split; [|intros]); try done; lia.
  - assert (len (release_pages st) = 0) as -> by (by rewrite (Hwf Hs)).
    set (k := get_num_new_pages_extend _ _ _) in *.
    destruct (Z.ltb_spec (len (free_pages st)) k); cbn; (split; [|intros]); try done; lia.
Qed.

Lemma alloc_extend_fails_iff_witness :
  fst (alloc_extend zero_lanes (fun _ => 0) (fun k => replicate (Z.to_nat k) 0)
         [3; 0] [9; 9] [14; -1] 15 demo) = None.
Proof.
  apply (alloc_extend_fails_iff zero_lanes (fun _ => 0) (fun k => replicate (Z.to_nat k) 0)
    [3; 0] [9; 9] [14; -1] 15 demo); try done.
  split; [done|]. repeat constructor; lia.
Defined.

(** *** Decoding is extending by one token *)
Section decode.
Context (ps : Z) (oob : Z -> Z).
Hypothesis ps_pos : 0 < ps.

Lemma decode_pres lane seqs (n i : nat) :
  (i < length seqs)%nat -> (i < n)%nat ->
  zip_with (fun j s => if j <=? Z.of_nat i then s - 1 else s) (range 0 (Z.of_nat n))
    (load_upto oob lane seqs (Z.of_nat n) (Z.of_nat i))
  = load_upto oob lane (Z.pred <$> seqs) (Z.of_nat n) (Z.of_nat i).
Proof.
  intros Hi Hn. apply list_eq. intros j.
  unfold load_upto. rewrite lookup_zip_with, !list_lookup_fmap, lookup_range.
  case_decide; cbn; [|done]. rewrite !Z.add_0_l.
  destruct (Z.leb_spec (Z.of_nat j) (Z.of_nat i)); [|done].
  destruct (lookup_lt_is_Some_2 seqs j) as [x Hx]; [lia|].
  rewrite (peek_lookup oob seqs j x), (peek_lookup oob (Z.pred <$> seqs) j (Z.pred x)); try done.
  by rewrite list_lookup_fmap, Hx.
Qed.

Lemma new_page_step s :
  1 <= s ->
  let d := (s + ps - 1) / ps - (s - 1 + ps - 1) / ps in
  (d = 0 /\ s - 1 < (s - 1 + ps - 1) / ps * ps /\ (ps = 1 \/ s mod ps <> 1)) \/
  (d = 1 /\ (s - 1 + ps - 1) / ps * ps = s - 1 /\ (ps = 1 \/ s mod ps = 1)).
Proof.
  intros Hs d. pose proof (floor_bounds ps ps_pos (s - 1)) as Hf.
  pose proof (ceil_bounds ps ps_pos (s - 1) ltac:(lia)) as Hc.
  set (q := (s - 1) / ps) in *.
  assert (Hsq : (s + ps - 1) / ps = q + 1) by (apply div_unique; lia).
  subst d. rewrite Hsq.
  destruct (decide (s - 1 = q * ps)) as [He|Hne].
  - right. assert ((s - 1 + ps - 1) / ps = q) as -> by (apply div_unique; lia).
    split_and!; [lia..|].
    destruct (decide (ps = 1)); [by left|right].
    destruct (div_unique ps ps_pos s q) as [_ ->]; lia.
  - left. assert ((s - 1 + ps - 1) / ps = q + 1) as -> by (apply div_unique; lia).
    split_and!; [lia..|right]. intros Hm.
    destruct (decide (s = q * ps + ps)).
    + destruct (div_unique ps ps_pos s (q + 1)) as [_ Hr]; lia.
    + destruct (div_unique ps ps_pos s q) as [_ Hr]; lia.
Qed.

Lemma decode_program_filled masked seqs lasts pages (i n : nat) out sq last :
  seqs !! i = Some sq -> lasts !! i = Some last -> 1 <= sq -> (i < n)%nat ->
  filled (Z.of_nat i)
    (extend_slots oob ps (Z.pred sq) sq last
       (pages_before ps (Z.pred <$> seqs) seqs i) pages) out
    (alloc_decode_program ps masked oob seqs lasts pages (Z.of_nat n) (Z.of_nat i) out).
Proof.
  intros Hs Hl Hsq Hn. pose proof (lookup_lt_Some _ _ _ Hs) as Hi.
  assert (Hp : (Z.pred <$> seqs) !! i = Some (Z.pred sq)) by (by rewrite list_lookup_fmap, Hs).
  unfold alloc_decode_program.
  rewrite decode_pres, load_sums by (first [done | rewrite ?length_fmap; lia]).
  rewrite (peek_lookup oob seqs i sq), (peek_lookup oob lasts i last) by done.
  erewrite zsum_take_S by (rewrite lookup_zip_with, Hs; cbn; rewrite Hp; done).
  unfold pages_before, num_new_pages_of. rewrite <- (zip_with_flip _ (Z.pred <$> seqs) seqs).
  set (new := foldr Z.add 0 (take i _)).
  replace (Z.pred sq) with (sq - 1) by lia.
  replace (new + _ - _) with new by lia.
  assert (Hone : forall v, extend_slot oob ps (sq - 1) last new pages (sq - 1) = v ->
    filled (Z.of_nat i) (extend_slots oob ps (sq - 1) sq last new pages) out
      (<[Z.to_nat (Z.of_nat i) := v]> out)).
  { intros v Hv. apply filled_intro; [lia|by rewrite length_insert|].
    intros j Hj. rewrite Nat2Z.id. case_decide as Hd.
    - assert (j = i) as -> by lia. rewrite list_lookup_insert_eq by done.
      by rewrite Z.sub_diag, Z.add_0_r, Hv.
    - by rewrite list_lookup_insert_ne by lia. }
  destruct (new_page_step sq Hsq) as [(Hd & HA & _)|(Hd & HA & _)]; rewrite Hd; cbn [Z.eqb].
  - apply Hone. rewrite extend_slot_part1 by done. lia.
  - apply Hone. rewrite extend_slot_part2 by (done || lia).
    rewrite HA, Z.sub_diag, Z.div_0_l, Z.mod_0_l, !Z.add_0_r by lia. done.
Qed.

Lemma sum_ones i seqs :
  (i <= length seqs)%nat ->
  foldr Z.add 0 (take i (zip_with Z.sub seqs (Z.pred <$> seqs))) = Z.of_nat i.
Proof.
  revert i. induction seqs as [|s seqs IH]; intros [|i] Hi; cbn in *; try lia.
  rewrite IH by lia. lia.
Qed.

Lemma lens_ok_decode seqs lasts :
  Forall (fun s => 1 <= s) seqs -> length lasts = length seqs ->
  lens_ok (Z.pred <$> seqs) seqs lasts.
Proof.
  intros HF Hl. split; [by rewrite length_fmap|].
  apply Forall2_fmap_l. rewrite Forall2_same_length_lookup.
  split; [done|]. intros i x y Hx Hy. simplify_eq.
  pose proof (Forall_lookup_1 _ _ _ _ HF Hx) as Hx1. cbn in *. lia.
Qed.

Lemma decode_layout masked seqs lasts pages bs_upper out :
  Forall (fun s => 1 <= s) seqs -> length lasts = length seqs ->
  len seqs <= bs_upper -> len out = len seqs ->
  alloc_decode_kernel ps masked oob seqs lasts pages out bs_upper
  = extend_layout oob ps (Z.pred <$> seqs) seqs lasts pages.
Proof.
  intros HF Hl Hbs Hout. pose proof (lens_ok_decode _ _ HF Hl) as Hok.
  unfold alloc_decode_kernel, extend_layout. rewrite length_fmap.
  unfold len at 1. rewrite range_seq, foldl_fmap.
  apply (fold_filled _ (fun i o => alloc_decode_program ps masked oob seqs lasts pages
    bs_upper (Z.of_nat i) o)).
  - intros i o Hi. rewrite (len_layout_before ps oob _ _ _ _ Hok) by (rewrite length_fmap; lia).
    rewrite sum_ones by lia.
    destruct (lens_ok_lookup _ _ _ Hok i) as (Hp & Hs & Hla & _); [by rewrite length_fmap|].
    unfold request_slots. rewrite list_lookup_fmap, Hs in Hp. cbn in Hp.
    injection Hp as <-. rewrite <- (Z2Nat.id bs_upper) by (unfold len in Hbs; lia).
    apply decode_program_filled; try done; [|unfold len in Hbs; lia].
    by apply (Forall_lookup_1 _ _ _ _ HF) in Hs.
  - apply Nat2Z.inj. fold (len out). rewrite Hout.
    fold (len (concat (request_slots oob ps (Z.pred <$> seqs) seqs lasts pages
      <$> seq 0 (length seqs)))).
    rewrite (len_layout_before ps oob _ _ _ _ Hok) by (rewrite length_fmap; lia).
    by rewrite sum_ones.
Qed.
End decode.

(** Decoding is the one-token case of extending: for pages of at least two
    slots [alloc_decode_kernel] computes the slots [alloc_extend_kernel] would
    for prefixes one shorter than the sequences, and the page count of the
    decode shortcut ([seq_len % page_size == 1]) is the general count. *)
Theorem decode_is_extend ps masked oob seq_lens last_loc free_pages out out' bs_upper :
  lanes_agree masked -> 1 < ps -> Forall (fun s => 1 <= s) seq_lens -> length last_loc = length seq_lens ->
  len seq_lens <= bs_upper -> len out = len seq_lens -> len out' = len seq_lens ->
  alloc_decode_kernel ps masked oob seq_lens last_loc free_pages out bs_upper
  = alloc_extend_kernel ps masked oob (Z.pred <$> seq_lens) seq_lens last_loc
      free_pages out' bs_upper
  /\ get_num_new_pages_decode ps seq_lens
     = get_num_new_pages_extend ps seq_lens (Z.pred <$> seq_lens).
Proof.
  intros Hag Hps HF Hl Hbs Ho Ho'. split.
  - rewrite decode_layout by (done || lia). symmetry. apply kernel_layout; [lia|..].
    + by apply lens_ok_decode.
    + done.
    + unfold len in *. by rewrite length_fmap.
    + rewrite total_tokens, length_fmap, sum_ones; done.
  - clear - Hps HF. unfold get_num_new_pages_decode, get_num_new_pages_extend.
    induction HF as [|s l Hs _ IH]; [done|]. cbn.
    rewrite IH. f_equal. replace (Z.pred s) with (s - 1) by lia.
    destruct (new_page_step ps ltac:(lia) s Hs) as [(-> & _ & [|Hm])|(-> & _ & [|Hm])];
      try lia; destruct (Z.eqb_spec (s mod ps) 1); done.
Qed.

Lemma decode_is_extend_witness :
  alloc_decode_kernel 4 zero_lanes (fun _ => 0) [5; 7] [19; 29] [8; 9] [0; 0] 2
  = alloc_extend_kernel 4 zero_lanes (fun _ => 0) [4; 6] [5; 7] [19; 29] [8; 9] [1; 1] 2
  /\ get_num_new_pages_decode 4 [5; 7] = get_num_new_pages_extend 4 [5; 7] [4; 6].
Proof.
  apply (decode_is_extend 4 zero_lanes (fun _ => 0) [5; 7] [19; 29] [8; 9] [0; 0] [1; 1] 2);
    try done; try lia. repeat constructor; lia.
Defined.

(** *** Freeing is page-granular *)

Lemma elem_of_page_slots ps pages s :
  0 < ps -> s ∈ page_slots ps pages <-> s / ps ∈ pages.
Proof.
  intros Hps. unfold page_slots. rewrite list_elem_of_bind. setoid_rewrite list_elem_of_fmap.
  split.
  - intros (p & (o & -> & Ho) & Hp). unfold range in Ho. apply elem_of_seqZ in Ho.
    by rewrite (proj1 (div_unique ps Hps (p * ps + o) p ltac:(lia))).
  - intros Hs. exists (s / ps). split; [|done]. exists (s mod ps).
    pose proof (Z.div_mod s ps). pose proof (Z.mod_pos_bound s ps). split; [lia|].
    unfold range. apply elem_of_seqZ. lia.
Qed.

Lemma unique_pages ps pages idx :
  0 < ps -> NoDup pages -> idx ⊆ page_slots ps pages ->
  (forall s, s ∈ page_slots ps pages -> exists t, t ∈ idx /\ t / ps = s / ps) ->
  torch_unique ((fun i => i / ps) <$> idx) ≡ₚ pages.
Proof.
  intros Hps Hnd Hsub Hhit. unfold torch_unique, torch_sort. rewrite merge_sort_Permutation.
  apply NoDup_Permutation; [apply NoDup_remove_dups|done|].
  intros p. rewrite elem_of_remove_dups, list_elem_of_fmap. split.
  - intros (s & -> & Hs). by apply elem_of_page_slots, Hsub.
  - intros Hp. assert (Hd : p * ps / ps = p) by (apply Z.div_mul; lia).
    destruct (Hhit (p * ps)) as (t & Ht & Hq).
    { apply elem_of_page_slots; [done|]. by rewrite Hd. }
    exists t. split; [congruence|done].
Qed.

Lemma alloc_pages n st l st' :
  0 <= n -> 0 < page_size st -> alloc n st = (Some l, st') ->
  exists pages, l = page_slots (page_size st) pages /\
    all_pages st ≡ₚ pages ++ all_pages st' /\
    page_size st' = page_size st /\ is_not_in_free_group st' = is_not_in_free_group st.
Proof.
  intros Hn Hps Ha. unfold alloc in Ha.
  set (st1 := if _ && _ then _ else _) in Ha.
  assert (H1 : all_pages st1 ≡ₚ all_pages st /\ page_size st1 = page_size st /\
    is_not_in_free_group st1 = is_not_in_free_group st).
  { subst st1. destruct (_ && _); [|done]. rewrite merge_all_pages, merge_page_size.
    split_and!; [done..|]. unfold merge_and_sort_free. by destruct (0 <? _). }
  clearbody st1. destruct H1 as (Hp1 & Hs1 & Hg1). rewrite Hs1 in Ha.
  destruct (_ <? _); [done|]. injection Ha as <- <-.
  exists (slice_to (free_pages st1) (n / page_size st)). split_and!; try done.
  rewrite <- Hp1. unfold all_pages. cbn. by rewrite app_assoc, slice_to_from.
Qed.

(** The page-granular allocator takes pages back whole.  After a successful
    [alloc], freeing any set of the returned slots that touches each page
    restores exactly the pages the allocator had, whatever the number of slots
    named per page. *)
Theorem paged_alloc_free_roundtrip n st l st' idx :
  0 <= n -> 0 < page_size st -> is_not_in_free_group st = true -> NoDup (all_pages st) ->
  alloc n st = (Some l, st') -> idx ⊆ l ->
  (forall s, s ∈ l -> exists t, t ∈ idx /\ t / page_size st = s / page_size st) ->
  all_pages (free idx st') ≡ₚ all_pages st
  /\ available_size (free idx st') = available_size st.
Proof.
  intros Hn Hps Hg Hnd Ha Hsub Hhit.
  destruct (alloc_pages _ _ _ _ Hn Hps Ha) as (pages & -> & Hp & Hs' & Hg').
  assert (H : all_pages (free idx st') ≡ₚ all_pages st).
  { rewrite Hp. rewrite Hp in Hnd. apply NoDup_app in Hnd as (Hnd & _ & _).
    unfold free. rewrite Hg', Hg, Hs'.
    pose proof (unique_pages (page_size st) pages idx Hps Hnd Hsub Hhit) as Hu.
    case_bool_decide as Hi.
    - subst idx. cbn in Hu. apply Permutation_nil in Hu. by subst pages.
    - rewrite <- Hu. unfold all_pages.
      destruct (need_sort st'); cbn; [|by rewrite app_assoc].
      rewrite !app_assoc. by rewrite (Permutation_app_comm (free_pages st')). }
  split; [done|]. unfold available_size. apply Permutation_length in H.
  assert (page_size (free idx st') = page_size st) as ->.
  { unfold free. destruct (bool_decide _), (is_not_in_free_group st'), (need_sort st'); done. }
  f_equal. unfold all_pages in H. rewrite !length_app in H. unfold len. lia.
Qed.

Lemma paged_alloc_free_roundtrip_witness :
  all_pages (free [21; 24] (alloc 8 demo).2) ≡ₚ [5; 6; 7]
  /\ available_size (free [21; 24] (alloc 8 demo).2) = 12.
Proof.
  apply (paged_alloc_free_roundtrip 8 demo [20; 21; 22; 23; 24; 25; 26; 27]
    (alloc 8 demo).2 [21; 24]); try done; try lia.
  - apply (bool_decide_unpack _). vm_compute. exact I.
  - intros x. rewrite !elem_of_cons. intuition.
  - apply Forall_forall.
    repeat constructor; cbn;
      first [by exists 21; split; [left|] | by exists 24; split; [right; left|]].
Defined.

End Paged.
