(* ===== verification/Tensor.v ===== *)
(** * Tensors as the decoding algorithms use them

    The torch operations the files of srt/dllm/algorithm rely on, over lists:
    scores, [argmax], [where], boolean and index assignment, and the
    [input_ids[b * block_size : (b + 1) * block_size]] views of a flat batch.
    What torch computes with floating-point numbers ([softmax], [topk], random
    numbers) is an argument of the algorithms; the classes below state the
    documented behaviour they rely on. *)

From S2P Require Import Prelude.

(** ** Scores

    A logit or a probability: minus infinity or a finite float.  The code only
    compares finite floats, and they are a finite total order, so an integer
    stands for each. *)
Inductive score := NegInf | Fin (z : Z).

#[global] Instance score_eq_dec : EqDecision score.
Proof. solve_decision. Defined.
#[global] Instance score_inhabited : Inhabited score := populate NegInf.

Definition score_leb (a b : score) : bool :=
  match a, b with
  | NegInf, _ => true
  | Fin _, NegInf => false
  | Fin x, Fin y => x <=? y
  end.
Definition score_ltb (a b : score) : bool := negb (score_leb b a).
Definition finite (a : score) : bool := bool_decide (a <> NegInf).

Lemma score_leb_refl a : score_leb a a = true.
Proof. destruct a; cbn; [done|apply Z.leb_refl]. Qed.

Lemma score_leb_trans a b c :
  score_leb a b = true -> score_leb b c = true -> score_leb a c = true.
Proof. destruct a, b, c; cbn; try done. rewrite !Z.leb_le. lia. Qed.

Lemma score_leb_total a b : score_leb a b = true \/ score_leb b a = true.
Proof. destruct a, b; cbn; auto. rewrite !Z.leb_le. lia. Qed.

Lemma score_ltb_finite a b : score_ltb a b = true -> finite b = true.
Proof. destruct a, b; cbn; done. Qed.

Lemma finite_leb a b : finite a = true -> score_leb a b = true -> finite b = true.
Proof. destruct a, b; cbn; done. Qed.

(** ** argmax: the index of the first maximal element *)

Fixpoint argmax_from (best : score) (bi i : nat) (l : list score) : nat :=
  match l with
  | [] => bi
  | x :: l => if score_ltb best x then argmax_from x i (S i) l
              else argmax_from best bi (S i) l
  end.

Definition argmax (l : list score) : nat :=
  match l with
  | [] => 0%nat
  | x :: l => argmax_from x 0 1 l
  end.

Lemma argmax_from_spec best bi i l (full : list score) :
  full !! bi = Some best -> (bi < i)%nat ->
  (forall j, (i <= j)%nat -> full !! j = l !! (j - i)%nat) ->
  (forall j x, (j < i)%nat -> full !! j = Some x -> score_leb x best = true) ->
  exists m, full !! argmax_from best bi i l = Some m /\
    forall j x, full !! j = Some x -> score_leb x m = true.
Proof.
  revert best bi i. induction l as [|y l IH]; intros best bi i Hb Hi Hfull Hmax; cbn.
  - exists best. split; [done|]. intros j x Hx. destruct (decide (j < i)%nat); [by eauto|].
    rewrite Hfull in Hx by lia. done.
  - assert (Hy : full !! i = Some y) by (rewrite Hfull by lia; by rewrite Nat.sub_diag).
    assert (Htail : forall j, (S i <= j)%nat -> full !! j = l !! (j - S i)%nat).
    { intros j Hj. rewrite Hfull by lia. by replace (j - i)%nat with (S (j - S i)) by lia. }
    unfold score_ltb. destruct (score_leb y best) eqn:Hle; cbn.
    + apply IH; [done|lia|done|]. intros j x Hj Hx.
      destruct (decide (j = i)) as [->|]; [congruence|]. apply (Hmax j); [lia|done].
    + apply IH; [done|lia|done|]. intros j x Hj Hx.
      assert (Hby : score_leb best y = true) by (destruct (score_leb_total best y); congruence).
      destruct (decide (j = i)) as [->|].
      * assert (x = y) as -> by congruence. apply score_leb_refl.
      * eapply score_leb_trans; [|exact Hby]. apply (Hmax j); [lia|done].
Qed.

Lemma argmax_spec l :
  l <> [] ->
  exists m, l !! argmax l = Some m /\ forall j x, l !! j = Some x -> score_leb x m = true.
Proof.
  destruct l as [|x l]; [done|intros _]. cbn. apply argmax_from_spec; [done|lia|..].
  - intros [|j] Hj; [lia|]. cbn. by rewrite Nat.sub_0_r.
  - intros [|j] y Hj; [|lia]. cbn. intros [= ->]. apply score_leb_refl.
Qed.

(** [row[i] = -inf] *)
Definition ban (i : nat) (row : list score) : list score := <[i := NegInf]> row.

(** The argmax of a row with a finite entry is finite. *)
Lemma argmax_finite row i x :
  row !! i = Some x -> finite x = true ->
  exists m, row !! argmax row = Some m /\ finite m = true.
Proof.
  intros Hi Hf. destruct (argmax_spec row) as (m & Hm & Hmax); [by destruct row|].
  exists m. split; [done|]. eapply finite_leb; [exact Hf|]. by eapply Hmax.
Qed.

Lemma argmax_ban i row j x :
  row !! j = Some x -> finite x = true -> j <> i -> argmax (ban i row) <> i.
Proof.
  intros Hj Hx Hne Heq. destruct (argmax_finite (ban i row) j x) as (m & Hm & Hf); [|done|].
  - unfold ban. by rewrite list_lookup_insert_ne.
  - rewrite Heq in Hm. unfold ban in Hm. apply list_lookup_insert_Some in Hm as [(_ & <- & _)|[? _]];
      done.
Qed.

(** ** Element-wise operations *)

Definition where_ {A} (c : list bool) (x y : list A) : list A :=
  zip_with (fun (b : bool) (p : A * A) => if b then p.1 else p.2) c (zip x y).

(** [mask_index = ids == mask_id] *)
Definition eq_mask (id : Z) (ids : list Z) : list bool := (fun x => x =? id) <$> ids.

Definition any (l : list bool) : bool := existsb id l.
Definition count (l : list bool) : nat := length (filter (fun b => b = true) l).

(** [nonzero(as_tuple=True)[0]]: the indices of the true entries. *)
Definition nonzero (l : list bool) : list nat :=
  filter (fun i => l !! i = Some true) (seq 0 (length l)).

(** [l[idx] = x[idx]] *)
Definition assign_at {A} `{Inhabited A} (l : list A) (idx : list nat) (x : list A) : list A :=
  foldl (fun l i => <[i := x !!! i]> l) l idx.

(** [l[idx] = vals] *)
Definition scatter {A} (l : list A) (idx : list nat) (vals : list A) : list A :=
  foldl (fun l '(i, v) => <[i := v]> l) l (zip idx vals).

Section elementwise.
Context {A : Type} `{Inhabited A}.
Implicit Types l x y : list A.

Lemma lookup_where c x y i :
  where_ c x y !! i =
    match c !! i, x !! i, y !! i with
    | Some b, Some a, Some b' => Some (if b : bool then a else b')
    | _, _, _ => None
    end.
Proof.
  unfold where_. rewrite lookup_zip_with, lookup_zip_with.
  destruct (c !! i), (x !! i), (y !! i); done.
Qed.

Lemma length_where c x y :
  length x = length c -> length y = length c -> length (where_ c x y) = length c.
Proof. intros. unfold where_. rewrite !length_zip_with. lia. Qed.

Lemma length_assign_at l idx x : length (assign_at l idx x) = length l.
Proof.
  revert l. induction idx as [|i idx IH]; intros l; [done|]. cbn. 
  unfold assign_at in IH. by rewrite IH, length_insert.
Qed.

Lemma lookup_assign_at l idx x j :
  assign_at l idx x !! j =
    if decide (j ∈ idx /\ (j < length l)%nat) then Some (x !!! j) else l !! j.
Proof.
  revert l. induction idx as [|i idx IH]; intros l; cbn.
  - rewrite decide_False; [done|]. by intros [?%elem_of_nil _].
  - unfold assign_at in IH. rewrite IH, length_insert.
    destruct (decide (j < length l)%nat) as [Hj|Hj].
    + destruct (decide (j ∈ idx)).
      * rewrite !decide_True; [done|set_solver..].
      * rewrite decide_False by naive_solver. destruct (decide (i = j)) as [->|].
        -- rewrite list_lookup_insert_eq by done. rewrite decide_True; [done|set_solver].
        -- rewrite list_lookup_insert_ne by done. rewrite decide_False; [done|set_solver].
    + rewrite !decide_False by naive_solver.
      rewrite !lookup_ge_None_2; rewrite ?length_insert; [done|lia..].
Qed.
End elementwise.

Lemma any_true l : any l = true <-> exists i, l !! i = Some true.
Proof.
  unfold any. rewrite existsb_exists. split.
  - intros (b & Hb & Hid). cbn in Hid. subst b. apply list_elem_of_In, list_elem_of_lookup in Hb.
    done.
  - intros (i & Hi). exists true. split; [|done]. apply list_elem_of_In.
    by eapply list_elem_of_lookup_2.
Qed.

Lemma any_false l : any l = false <-> forall i, l !! i <> Some true.
Proof.
  rewrite <- not_true_iff_false, any_true. naive_solver.
Qed.

Lemma lookup_eq_mask m ids i : eq_mask m ids !! i = (fun x => x =? m) <$> ids !! i.
Proof. apply list_lookup_fmap. Qed.

Lemma length_eq_mask m ids : length (eq_mask m ids) = length ids.
Proof. apply length_fmap. Qed.

Lemma eq_mask_true m ids i : eq_mask m ids !! i = Some true <-> ids !! i = Some m.
Proof.
  rewrite lookup_eq_mask. destruct (ids !! i) as [x|]; cbn; [|done].
  destruct (Z.eqb_spec x m); naive_solver.
Qed.

Lemma any_eq_mask m ids : any (eq_mask m ids) = true <-> m ∈ ids.
Proof.
  rewrite any_true, list_elem_of_lookup. by setoid_rewrite eq_mask_true.
Qed.

Lemma any_eq_mask_false m ids : any (eq_mask m ids) = false <-> m ∉ ids.
Proof. rewrite <- any_eq_mask. by destruct (any _). Qed.

Lemma count_0 l : count l = 0%nat <-> any l = false.
Proof.
  unfold count, any. induction l as [|[] l IH]; cbn; [done| |];
    rewrite ?filter_cons; cbn; [done|]. done.
Qed.

Lemma count_negb l : count (negb <$> l) = (length l - count l)%nat.
Proof.
  unfold count. induction l as [|b l IH]; [done|]. rewrite fmap_cons, !filter_cons.
  pose proof (length_filter (fun b => b = true) l) as Hl.
  destruct b; cbn [negb]; repeat case_decide; try done; cbn [length]; rewrite IH; lia.
Qed.

Lemma count_le l : (count l <= length l)%nat.
Proof. apply length_filter. Qed.

Lemma elem_of_nonzero l i : i ∈ nonzero l <-> l !! i = Some true.
Proof.
  unfold nonzero. rewrite list_elem_of_filter, elem_of_seq. split; [naive_solver|].
  intros Hi. split; [done|]. apply lookup_lt_Some in Hi. lia.
Qed.

Lemma NoDup_nonzero l : NoDup (nonzero l).
Proof. unfold nonzero. apply NoDup_filter, NoDup_seq. Qed.

Lemma filter_ext_in {A} (P Q : A -> Prop) `{!forall x, Decision (P x), !forall x, Decision (Q x)} (l : list A) :
  (forall x, x ∈ l -> P x <-> Q x) -> filter P l = filter Q l.
Proof.
  induction l as [|x l IH]; intros HPQ; [done|]. rewrite !filter_cons.
  rewrite IH by (intros; apply HPQ; by right).
  pose proof (HPQ x (list_elem_of_here _ _)). repeat case_decide; tauto.
Qed.

Lemma count_nonzero l : count l = length (nonzero l).
Proof.
  unfold nonzero, count. induction l as [|b l IH] using rev_ind; [done|].
  rewrite filter_app, length_app, length_app, seq_app, filter_app, length_app.
  change (seq (0 + length l) (length [b])) with [length l]. f_equal.
  - rewrite IH. f_equal. apply filter_ext_in.
    intros i Hi%elem_of_seq. by rewrite lookup_app_l by lia.
  - rewrite !filter_cons, !filter_nil, lookup_app_r, Nat.sub_diag by lia.
    destruct b; [by rewrite !decide_True|by rewrite !decide_False].
Qed.

(** Two masks over the same positions: turning at least one true entry off and
    none on lowers the count. *)
Lemma count_mono l k :
  length l = length k -> (forall i, k !! i = Some true -> l !! i = Some true) ->
  (count k <= count l)%nat.
Proof.
  intros Hlen Hsub. rewrite !count_nonzero. apply submseteq_length, NoDup_submseteq.
  - apply NoDup_nonzero.
  - intros i. rewrite !elem_of_nonzero. auto.
Qed.

Lemma count_strict l k i :
  length l = length k -> (forall j, k !! j = Some true -> l !! j = Some true) ->
  l !! i = Some true -> k !! i <> Some true -> (count k < count l)%nat.
Proof.
  intros Hlen Hsub Hl Hk. rewrite !count_nonzero.
  assert (i :: nonzero k ⊆+ nonzero l) as Hs%submseteq_length; [|cbn in Hs; lia].
  apply NoDup_submseteq.
  - constructor; [by rewrite elem_of_nonzero|apply NoDup_nonzero].
  - intros j. rewrite elem_of_cons, !elem_of_nonzero. naive_solver.
Qed.

(** ** What the code relies on of torch's floating point *)

(** [softmax(row)]: as many entries as the row, all of them finite. *)
Class Softmax := {
  softmax : list score -> list score;
  softmax_length row : length (softmax row) = length row;
  softmax_finite row i x : softmax row !! i = Some x -> finite x = true;
}.

(** [topk(x, k)[1]]: [k] distinct positions holding the [k] largest entries. *)
Class TopK := {
  topk : list score -> nat -> list nat;
  topk_length x k : (k <= length x)%nat -> length (topk x k) = k;
  topk_NoDup x k : NoDup (topk x k);
  topk_lookup x k i : i ∈ topk x k -> (i < length x)%nat;
  topk_max x k i j a b :
    (k <= length x)%nat ->
    i ∈ topk x k -> j ∉ topk x k -> x !! i = Some a -> x !! j = Some b ->
    score_leb b a = true;
}.

(** The classes are inhabited: a constant distribution, and the positions
    sorted by decreasing score. *)
#[global, program] Instance flat_softmax : Softmax | 100 :=
  {| softmax row := replicate (length row) (Fin 1) |}.
Next Obligation. intros. apply length_replicate. Qed.
Next Obligation. intros row i x Hx. apply lookup_replicate_1 in Hx as [-> _]. done. Qed.

Definition by_score (x : list score) (i j : nat) : Prop :=
  score_leb (x !!! j) (x !!! i) = true.
#[global] Instance by_score_dec x : RelDecision (by_score x).
Proof. intros i j. unfold by_score. apply _. Defined.
#[global] Instance by_score_total x : Total (by_score x).
Proof. intros i j. apply score_leb_total. Qed.
#[global] Instance by_score_trans x : Transitive (by_score x).
Proof. intros i j k Hij Hjk. eapply score_leb_trans; [exact Hjk|exact Hij]. Qed.

Definition sorted_positions (x : list score) : list nat :=
  merge_sort (by_score x) (seq 0 (length x)).

Lemma sorted_positions_perm x : sorted_positions x ≡ₚ seq 0 (length x).
Proof. apply merge_sort_Permutation. Qed.

#[global, program] Instance sorted_topk : TopK | 100 :=
  {| topk x k := take k (sorted_positions x) |}.
Next Obligation.
  intros x k Hk. cbn beta. rewrite length_take, (Permutation_length (sorted_positions_perm x)), length_seq.
  lia.
Qed.
Next Obligation.
  intros x k. cbn beta. eapply sublist_NoDup; [|apply sublist_take].
  rewrite sorted_positions_perm. apply NoDup_seq.
Qed.
Next Obligation.
  intros x k i Hi. eapply elem_of_take in Hi as (j & Hj & _).
  apply list_elem_of_lookup_2 in Hj. rewrite sorted_positions_perm, elem_of_seq in Hj. lia.
Qed.
Next Obligation.
  intros x k i j a b Hk Hi Hj Ha Hb.
  assert (Hsrt : StronglySorted (by_score x) (sorted_positions x))
    by (apply StronglySorted_merge_sort; apply _).
  assert (Hjin : j ∈ sorted_positions x).
  { rewrite sorted_positions_perm, elem_of_seq. apply lookup_lt_Some in Hb. lia. }
  rewrite <- (take_drop k (sorted_positions x)) in Hjin, Hsrt.
  apply elem_of_app in Hjin as [?|Hjin]; [done|].
  pose proof (StronglySorted_app_1_elem_of _ _ _ _ _ Hsrt Hi Hjin) as Hr.
  unfold by_score in Hr.
  by rewrite (list_lookup_total_correct _ _ _ Ha), (list_lookup_total_correct _ _ _ Hb) in Hr.
Qed.

(** ** Blocks of a flat batch *)

Definition get_block {A} (bs b : nat) (l : list A) : list A := take bs (drop (b * bs) l).
Definition set_block {A} (bs b : nat) (v l : list A) : list A :=
  take (b * bs) l ++ v ++ drop (b * bs + bs) l.

Section blocks.
Context {A : Type} (bs : nat).
Implicit Types l v : list A.

Lemma block_bound b n : (b < n)%nat -> (b * bs + bs <= n * bs)%nat.
Proof. intros. nia. Qed.

Lemma length_get_block b n l :
  length l = (n * bs)%nat -> (b < n)%nat -> length (get_block bs b l) = bs.
Proof.
  intros Hl Hb. unfold get_block. rewrite length_take, length_drop.
  pose proof (block_bound b n Hb). lia.
Qed.

Lemma length_set_block b n v l :
  length l = (n * bs)%nat -> (b < n)%nat -> length v = bs ->
  length (set_block bs b v l) = length l.
Proof.
  intros Hl Hb Hv. unfold set_block. rewrite !length_app, length_take, length_drop.
  pose proof (block_bound b n Hb). lia.
Qed.

Lemma get_set_block_eq b n v l :
  length l = (n * bs)%nat -> (b < n)%nat -> length v = bs ->
  get_block bs b (set_block bs b v l) = v.
Proof.
  intros Hl Hb Hv. unfold get_block, set_block. pose proof (block_bound b n Hb).
  rewrite drop_app_length' by (rewrite length_take; lia).
  by rewrite take_app_length'.
Qed.

Lemma lookup_get_block b l i :
  get_block bs b l !! i = if decide (i < bs)%nat then l !! (b * bs + i)%nat else None.
Proof.
  unfold get_block. case_decide.
  - by rewrite lookup_take_lt, lookup_drop by done.
  - by apply lookup_take_ge; lia.
Qed.

Lemma get_set_block_ne b b' n v l :
  length l = (n * bs)%nat -> (b < n)%nat -> length v = bs -> b <> b' ->
  get_block bs b' (set_block bs b v l) = get_block bs b' l.
Proof.
  intros Hl Hb Hv Hne. pose proof (block_bound b n Hb).
  apply list_eq. intros i. rewrite !lookup_get_block. case_decide as Hi; [|done].
  unfold set_block. destruct (decide (b' < b)%nat).
  - rewrite lookup_app_l by (rewrite length_take; nia).
    by rewrite lookup_take_lt by nia.
  - assert (b < b')%nat by lia.
    assert (b * bs + bs <= b' * bs)%nat by nia.
    rewrite lookup_app_r by (rewrite length_take; nia).
    rewrite length_take, lookup_app_r by (rewrite ?Hv; lia).
    rewrite lookup_drop. f_equal. lia.
Qed.

(** [reshape(batch_size, -1)] *)
Definition blocks (n : nat) (l : list A) : list (list A) :=
  (fun b => get_block bs b l) <$> seq 0 n.

Lemma lookup_blocks n l b : (b < n)%nat -> blocks n l !! b = Some (get_block bs b l).
Proof.
  intros. unfold blocks. rewrite list_lookup_fmap, lookup_seq_lt by done. done.
Qed.

Lemma elem_of_block n l x :
  length l = (n * bs)%nat -> x ∈ l <-> exists b, (b < n)%nat /\ x ∈ get_block bs b l.
Proof.
  intros Hl. rewrite list_elem_of_lookup. setoid_rewrite list_elem_of_lookup. split.
  - intros (i & Hi). pose proof (lookup_lt_Some _ _ _ Hi) as Hlt. rewrite Hl in Hlt.
    assert (bs <> 0)%nat by lia. exists (i / bs)%nat. split.
    + apply Nat.Div0.div_lt_upper_bound. lia.
    + exists (i mod bs)%nat. rewrite lookup_get_block, decide_True
        by (apply Nat.mod_upper_bound; done).
      rewrite <- Hi. f_equal. rewrite (Nat.div_mod i bs) at 3 by done. lia.
  - intros (b & Hb & i & Hi). rewrite lookup_get_block in Hi. case_decide; [|done]. eauto.
Qed.
End blocks.
