(* ===== verification/ForwardBatch.v ===== *)
(** * Forward batches and the model runner

    The fields of ForwardBatch (srt/model_executor/forward_batch_info.py) the
    diffusion algorithms read or replace, and the model runner as they see it:
    a function that may depend on how many forwards ran before (the KV cache
    and everything else it keeps) and on the batch. *)

From S2P Require Import Prelude Tensor.

Record forward_batch := ForwardBatch {
  batch_size : nat;
  input_ids : list Z;
  req_pool_indices : list Z;
  seq_lens : list Z;
  out_cache_loc : list Z;
  seq_lens_sum : Z;
  positions : list Z;
  extend_num_tokens : Z;
  extend_seq_lens : list Z;
  extend_prefix_lens : list Z;
  extend_start_loc : list Z;
  extend_prefix_lens_cpu : option (list Z);
  extend_seq_lens_cpu : option (list Z);
  seq_lens_cpu : option (list Z);
  return_logprob : bool;
  dllm_causal_kv_update : bool;
}.

(** The same batch with other tokens in [input_ids]: the algorithms write
    tokens through views of that tensor and leave the rest of the batch. *)
Definition with_input_ids (fb : forward_batch) (ids : list Z) : forward_batch :=
  ForwardBatch (batch_size fb) ids (req_pool_indices fb) (seq_lens fb) (out_cache_loc fb)
    (seq_lens_sum fb) (positions fb) (extend_num_tokens fb) (extend_seq_lens fb)
    (extend_prefix_lens fb) (extend_start_loc fb) (extend_prefix_lens_cpu fb)
    (extend_seq_lens_cpu fb) (seq_lens_cpu fb) (return_logprob fb) (dllm_causal_kv_update fb).

Lemma with_input_ids_self fb : with_input_ids fb (input_ids fb) = fb.
Proof. by destruct fb. Qed.

Definition with_causal (fb : forward_batch) (c : bool) : forward_batch :=
  ForwardBatch (batch_size fb) (input_ids fb) (req_pool_indices fb) (seq_lens fb)
    (out_cache_loc fb) (seq_lens_sum fb) (positions fb) (extend_num_tokens fb)
    (extend_seq_lens fb) (extend_prefix_lens fb) (extend_start_loc fb)
    (extend_prefix_lens_cpu fb) (extend_seq_lens_cpu fb) (seq_lens_cpu fb)
    (return_logprob fb) c.

(** The positions of a DLLM_EXTEND batch: [block_size] consecutive ones from
    each request's block offset. *)
Definition dllm_positions (block_size : Z) (block_offsets : list Z) : list Z :=
  block_offsets ≫= (fun off => range off (off + block_size)).

(** The part of LogitsProcessorOutput and of the runner's result the
    algorithms use. *)
Record forward_out := ForwardOut {
  full_logits : list (list score);
  can_run_graph : bool;
  next_token_logits : option (list (list score));
}.

Definition model_runner := nat -> forward_batch -> forward_out.

(** A log of the batches forwarded so far, newest last. *)
Definition fwd_log := list forward_batch.

Definition forward (model : model_runner) (fb : forward_batch) (log : fwd_log)
    : forward_out * fwd_log :=
  (model (length log) fb, log ++ [fb]).

(** [torch.reshape(t, (n, -1))]: fails when the elements do not fill [n] rows. *)
Definition reshape_rows (n : nat) (l : list Z) : res (list (list Z)) :=
  if decide (n = 0 \/ length l mod n <> 0)%nat then Raise RuntimeError
  else Ok (blocks (length l / n) n l).

Lemma reshape_blocks n bs l :
  (0 < n)%nat -> length l = (n * bs)%nat -> reshape_rows n l = Ok (blocks bs n l).
Proof.
  intros Hn Hl. unfold reshape_rows. rewrite Hl.
  assert (n * bs / n = bs)%nat as -> by (rewrite Nat.mul_comm; apply Nat.div_mul; lia).
  rewrite decide_False; [done|].
  rewrite Nat.mul_comm, Nat.Div0.mod_mul. lia.
Qed.

(** What a forward of a well-shaped model returns: one row of logits per input
    token. *)
Definition model_shaped (model : model_runner) : Prop :=
  forall n fb, length (full_logits (model n fb)) = length (input_ids fb).

(** [torch.sum(ids == mask_id).item()] *)
Definition num_masks (m : Z) (ids : list Z) : nat := count (eq_mask m ids).

Lemma num_masks_0 m ids : num_masks m ids = 0%nat <-> m ∉ ids.
Proof. unfold num_masks. by rewrite count_0, any_eq_mask_false. Qed.

Lemma num_masks_le m ids : (num_masks m ids <= length ids)%nat.
Proof. unfold num_masks. rewrite <- (length_eq_mask m ids). apply count_le. Qed.

(** ** What denoising leaves alone

    [keeps m old new]: [new] holds the tokens of [old] wherever [old] is not
    the mask token. *)
Definition keeps (m : Z) (old new : list Z) : Prop :=
  length new = length old /\
  forall i x, old !! i = Some x -> x <> m -> new !! i = Some x.

#[global] Instance keeps_preorder m : PreOrder (keeps m).
Proof.
  split.
  - intros l. by split.
  - intros l1 l2 l3 [Hl1 H1] [Hl2 H2]. split; [congruence|]. intros i x Hi Hx. eauto.
Qed.

Section blockwise.
Context (m : Z) (bs n : nat).
Implicit Types l v : list Z.

(** Whole-batch facts from block facts. *)
Lemma keeps_blocks l l' :
  length l = (n * bs)%nat -> length l' = (n * bs)%nat ->
  (forall b, (b < n)%nat -> keeps m (get_block bs b l) (get_block bs b l')) -> keeps m l l'.
Proof.
  intros Hl Hl' Hk. split; [congruence|]. intros i x Hi Hx.
  pose proof (lookup_lt_Some _ _ _ Hi) as Hlt. rewrite Hl in Hlt.
  assert (bs <> 0)%nat by lia. pose proof (Nat.mod_upper_bound i bs ltac:(done)) as Hm.
  assert (Hb : (i / bs < n)%nat) by (apply Nat.Div0.div_lt_upper_bound; lia).
  assert (Hd : (i / bs * bs + i mod bs)%nat = i) by (rewrite (Nat.div_mod i bs) at 3 by done; lia).
  destruct (Hk _ Hb) as [_ Hkb]. specialize (Hkb (i mod bs)%nat x).
  rewrite !lookup_get_block in Hkb. rewrite !decide_True in Hkb by done.
  rewrite Hd in Hkb. by apply Hkb.
Qed.

Lemma mask_blocks l :
  length l = (n * bs)%nat -> (forall b, (b < n)%nat -> m ∉ get_block bs b l) -> m ∉ l.
Proof. intros Hl Hb Hin. apply (elem_of_block bs n) in Hin as (b & ? & ?); [|done]. by eapply Hb. Qed.

(** A loop over the blocks of a batch whose body changes only its own block. *)
Lemma fold_blocks {A} (body : list A -> nat -> list A) (R : nat -> list A -> list A -> Prop)
    (ids : list A) :
  (forall b (l : list A), (b < n)%nat -> length l = (n * bs)%nat ->
     length (body l b) = (n * bs)%nat /\
     (forall b', b' <> b -> get_block bs b' (body l b) = get_block bs b' l) /\
     R b (get_block bs b l) (get_block bs b (body l b))) ->
  length ids = (n * bs)%nat ->
  let ids' := foldl body ids (seq 0 n) in
  length ids' = (n * bs)%nat /\
  forall b, (b < n)%nat -> R b (get_block bs b ids) (get_block bs b ids').
Proof.
  intros Hbody Hlen.
  enough (Hk : forall k, (k <= n)%nat ->
    let ids' := foldl body ids (seq 0 k) in
    length ids' = (n * bs)%nat /\
    (forall b, (k <= b)%nat -> get_block bs b ids' = get_block bs b ids) /\
    (forall b, (b < k)%nat -> R b (get_block bs b ids) (get_block bs b ids'))).
  { destruct (Hk n) as (? & _ & ?); [done|]. by split. }
  induction k as [|k IH]; intros Hkn; cbn zeta.
  { split_and!; [done|done|lia]. }
  destruct IH as (Hl & Hrest & Hdone); [lia|].
  rewrite seq_S, foldl_app. cbn. set (ids' := foldl body ids (seq 0 k)) in *.
  destruct (Hbody k ids') as (Hl' & Hne & HR); [lia|done|]. split_and!; [done|..].
  - intros b Hb. rewrite Hne by lia. apply Hrest. lia.
  - intros b Hb. destruct (decide (b = k)) as [->|].
    + by rewrite <- (Hrest k) by lia.
    + rewrite Hne by done. apply Hdone. lia.
Qed.
End blockwise.
