(* ===== verification/LowConfidence.v ===== *)
(** * The LowConfidence algorithm (srt/dllm/algorithm/low_confidence.py)

    One block per request; every iteration forwards the batch and commits, in
    each block that still has masks, the predictions whose probability exceeds
    the threshold, or the single most probable one. *)

From S2P Require Import Prelude Tensor ForwardBatch.

Section low_confidence.
Context `{Softmax} `{TopK}.
Variable block_size : nat.
Variable mask_id : Z.
Variable threshold : score.
Variable model : model_runner.

(** [x = argmax(logits)] and the probability of that prediction. *)
Definition predict (logits : list (list score)) : list Z * list score :=
  ((fun row => Z.of_nat (argmax row)) <$> logits,
   (fun row => softmax row !!! argmax row) <$> logits).

(** The positions of a block committed in one iteration. *)
Definition transfer_index (confidence : list score) : list bool :=
  let transfer := (fun c => score_ltb threshold c) <$> confidence in
  if (count transfer =? 0)%nat then
    foldl (fun t i => <[i := true]> t) transfer (topk confidence 1)
  else transfer.

(** The body of the loop over requests, for one block with masks. *)
Definition commit_block (block_input_ids : list Z) (curr_logits : list (list score)) : list Z :=
  let block_mask_index := eq_mask mask_id block_input_ids in
  let '(x, p) := predict curr_logits in
  let x := where_ block_mask_index x block_input_ids in
  let confidence := where_ block_mask_index p (replicate (length p) NegInf) in
  where_ (transfer_index confidence) x block_input_ids.

Definition commit_one (logits : list (list score)) (ids : list Z) (batch_id : nat) : list Z :=
  let block_input_ids := get_block block_size batch_id ids in
  if (num_masks mask_id block_input_ids =? 0)%nat then ids
  else set_block block_size batch_id
         (commit_block block_input_ids (get_block block_size batch_id logits)) ids.

(** [for _ in range(self.block_size)], [fuel] being the iterations left. *)
Fixpoint denoise (fuel : nat) (fb : forward_batch) (log : fwd_log)
    : res (forward_batch * fwd_log) :=
  match fuel with
  | O => Ok (fb, log)
  | S fuel =>
      if (num_masks mask_id (input_ids fb) =? 0)%nat then Ok (fb, log)
      else
        let '(out, log) := forward model fb log in
        _ ← py_assert (batch_size fb =? length (input_ids fb) / block_size)%nat;
        let ids := foldl (commit_one (full_logits out)) (input_ids fb) (seq 0 (batch_size fb)) in
        denoise fuel (with_input_ids fb ids) log
  end.

Definition start_of (ids : list Z) (b : nat) : nat :=
  block_size - num_masks mask_id (get_block block_size b ids).

(** The result: the last output, the tokens per request, the final batch and
    the forwards that ran. *)
Definition run (fb : forward_batch) (log : fwd_log)
    : res (forward_out * list (list Z) * forward_batch * fwd_log) :=
  if (num_masks mask_id (input_ids fb) =? 0)%nat then
    let '(out, log) := forward model fb log in Ok (out, [], fb, log)
  else
    let start_list := start_of (input_ids fb) <$> seq 0 (batch_size fb) in
    '(fb, log) ← denoise block_size fb log;
    let '(out, log) := forward model fb log in
    next_token_ids ← reshape_rows (batch_size fb) (input_ids fb);
    Ok (out, zip_with drop start_list next_token_ids, fb, log).

(** ** One block *)

Section block.
Variables (ids : list Z) (logits : list (list score)).
Hypothesis Hlen : length logits = length ids.
Hypothesis Hrows : Forall (fun row => row <> []) logits.

Let mask := eq_mask mask_id ids.
Let conf := where_ mask (predict logits).2 (replicate (length logits) NegInf).

Lemma predicted_finite i row :
  logits !! i = Some row -> finite (softmax row !!! argmax row) = true.
Proof.
  intros Hi. assert (Hne : row <> []) by (by eapply Forall_lookup_1 in Hrows).
  destruct (argmax_spec row Hne) as (a & Ha & _). apply lookup_lt_Some in Ha.
  rewrite <- softmax_length in Ha.
  destruct (lookup_lt_is_Some_2 _ _ Ha) as [x Hx].
  rewrite (list_lookup_total_correct _ _ _ Hx). by eapply softmax_finite.
Qed.

Lemma lookup_conf i :
  conf !! i =
    (fun '(b, row) => if b : bool then softmax row !!! argmax row else NegInf)
      <$> (m ← mask !! i; row ← logits !! i; Some (m, row)).
Proof.
  unfold conf. rewrite lookup_where. cbn. rewrite list_lookup_fmap.
  destruct (mask !! i) as [b|]; cbn; [|done].
  destruct (logits !! i) as [row|] eqn:Hr; cbn; [|done].
  rewrite lookup_replicate_2 by (by apply lookup_lt_Some in Hr). by destruct b.
Qed.

Lemma length_conf : length conf = length ids.
Proof.
  unfold conf. rewrite length_where; unfold mask; rewrite ?length_eq_mask; [done|..];
    cbn; rewrite ?length_fmap, ?length_replicate; done.
Qed.

Lemma conf_finite i x :
  conf !! i = Some x -> finite x = true <-> mask !! i = Some true.
Proof.
  rewrite lookup_conf. destruct (mask !! i) as [b|] eqn:Hm; cbn; [|done].
  destruct (logits !! i) as [row|] eqn:Hr; cbn; [|done]. intros [= <-].
  destruct b; [|done]. split; [done|intros _]. by eapply predicted_finite.
Qed.

Lemma length_set_true t l : length (foldl (fun t i => <[i := true]> t) t l) = length t.
Proof.
  revert t. induction l as [|i l IH]; intros t; [done|]. cbn. rewrite IH.
  apply length_insert.
Qed.

Hypothesis Hany : mask_id ∈ ids.

Lemma mask_position : exists q y, mask !! q = Some true /\ conf !! q = Some y /\ finite y = true.
Proof.
  apply any_eq_mask, any_true in Hany as (q & Hq).
  destruct (lookup_lt_is_Some_2 conf q) as [y Hy].
  { rewrite length_conf. apply lookup_lt_Some in Hq. by rewrite length_eq_mask in Hq. }
  exists q, y. split_and!; [done..|]. by apply (conf_finite q y).
Qed.

(** The fallback selects the masked position of highest confidence. *)
Lemma topk_one : exists j, topk conf 1 = [j] /\ mask !! j = Some true.
Proof.
  destruct mask_position as (q & y & Hq & Hy & Hfin).
  assert (Hl : (1 <= length conf)%nat) by (apply lookup_lt_Some in Hy; lia).
  pose proof (topk_length conf 1 Hl) as Hk.
  destruct (topk conf 1) as [|j [|]] eqn:Ht; try done. exists j. split; [done|].
  assert (Hj : (j < length conf)%nat) by (apply (topk_lookup _ 1); rewrite Ht; left).
  destruct (lookup_lt_is_Some_2 _ _ Hj) as [x Hx]. apply (conf_finite j x); [done|].
  destruct (decide (q = j)) as [->|]; [congruence|].
  eapply finite_leb; [exact Hfin|].
  eapply (topk_max conf 1 j q); [done| | |done..]; rewrite Ht; set_solver.
Qed.

(** Only masked positions are transferred, and some masked position is. *)
Lemma transfer_spec :
  length (transfer_index conf) = length ids /\
  (forall i, transfer_index conf !! i = Some true -> mask !! i = Some true) /\
  (exists i, transfer_index conf !! i = Some true).
Proof.
  unfold transfer_index. set (t := (fun c => score_ltb threshold c) <$> conf).
  assert (Hlt : length t = length ids) by (unfold t; by rewrite length_fmap, length_conf).
  assert (Ht : forall i, t !! i = Some true -> mask !! i = Some true).
  { intros i. unfold t. rewrite list_lookup_fmap, fmap_Some. intros (x & Hx & Hs).
    symmetry in Hs. apply score_ltb_finite in Hs. by apply (conf_finite i x). }
  destruct (Nat.eqb_spec (count t) 0) as [Hz|Hnz].
  - destruct topk_one as (j & -> & Hj). cbn. rewrite length_insert. split_and!; [done|..].
    + intros i. destruct (decide (i = j)) as [->|]; [done|].
      rewrite list_lookup_insert_ne by done. apply Ht.
    + exists j. apply list_lookup_insert_eq. apply lookup_lt_Some in Hj.
      unfold mask in Hj. rewrite length_eq_mask in Hj. lia.
  - split_and!; [done..|]. apply any_true. destruct (any t) eqn:Ha; [done|].
    by apply count_0 in Ha.
Qed.

Lemma lookup_commit_block i :
  commit_block ids logits !! i =
    match transfer_index conf !! i, ids !! i with
    | Some true, Some _ => (fun row => Z.of_nat (argmax row)) <$> logits !! i
    | _, o => o
    end.
Proof.
  destruct transfer_spec as (Hl & Hm & _).
  unfold commit_block. cbn. rewrite !lookup_where, list_lookup_fmap, length_fmap.
  fold mask. change (where_ mask _ (replicate _ _)) with conf.
  destruct (transfer_index conf !! i) as [b|] eqn:Ht.
  - assert (Hi : (i < length ids)%nat) by (apply lookup_lt_Some in Ht; lia).
    destruct (lookup_lt_is_Some_2 ids i Hi) as [x Hx].
    destruct (lookup_lt_is_Some_2 logits i ltac:(lia)) as [row Hrow].
    rewrite Hx, Hrow. unfold mask. rewrite lookup_eq_mask, Hx. cbn.
    destruct b; [|done]. apply Hm in Ht. unfold mask in Ht. rewrite lookup_eq_mask, Hx in Ht.
    cbn in Ht. by injection Ht as ->.
  - destruct (ids !! i) eqn:Hx; [|done].
    apply lookup_ge_None in Ht. apply lookup_lt_Some in Hx. lia.
Qed.

(** Committing a block keeps its decided tokens and decides at least one more
    position, when the model never predicts the mask token. *)
Lemma commit_block_keeps : keeps mask_id ids (commit_block ids logits).
Proof.
  destruct transfer_spec as (Hl & Hm & _). split.
  - unfold commit_block. cbn. rewrite !length_fmap. fold mask.
    change (where_ mask _ (replicate _ _)) with conf.
    rewrite length_where; rewrite Hl; [done| |done].
    rewrite length_where; unfold mask; rewrite ?length_eq_mask, ?length_fmap; done.
  - intros i x Hi Hx. rewrite lookup_commit_block, Hi.
    destruct (transfer_index conf !! i) as [[]|] eqn:Ht; [|done..].
    apply Hm in Ht. unfold mask in Ht. apply eq_mask_true in Ht. congruence.
Qed.

Lemma commit_block_progress :
  Forall (fun row => Z.of_nat (argmax row) <> mask_id) logits ->
  (num_masks mask_id (commit_block ids logits) < num_masks mask_id ids)%nat.
Proof.
  intros Hpred. destruct transfer_spec as (Hl & Hm & i & Hi). pose proof (Hm i Hi) as Hmi.
  destruct commit_block_keeps as [Hlc _].
  assert (Hnew : forall j, transfer_index conf !! j = Some true ->
    commit_block ids logits !! j <> Some mask_id).
  { intros j Hj. rewrite lookup_commit_block, Hj.
    destruct (ids !! j) eqn:Hx; [|done].
    destruct (logits !! j) as [row|] eqn:Hr; [|done]. cbn. intros [= Heq].
    by eapply Forall_lookup_1 in Hpred. }
  apply (count_strict _ _ i); [by rewrite !length_eq_mask| |done|].
  - intros j. rewrite !eq_mask_true. intros Hj. pose proof (lookup_commit_block j) as Hlk.
    rewrite Hj in Hlk. destruct (transfer_index conf !! j) as [[]|] eqn:Ht; [|done..].
    by destruct (Hnew j Ht).
  - rewrite eq_mask_true. by apply Hnew.
Qed.
End block.

(** ** The batch *)

(** A model that gives a nonempty row of logits per input token.  Nothing is
    asked of the rows: the token of the largest entry may be the mask token,
    which the code does not exclude. *)
Definition shaped_logits : Prop :=
  model_shaped model /\
  forall n fb, Forall (fun row => row <> []) (full_logits (model n fb)).

(** The [k]-th forward, on batch [fb], predicts the mask token somewhere. *)
Definition predicts_mask (k : nat) (fb : forward_batch) : Prop :=
  Exists (fun row => Z.of_nat (argmax row) = mask_id) (full_logits (model k fb)).

Section batch.
Variable n : nat.
Hypothesis Hmodel : shaped_logits.

(** One iteration: each block keeps its tokens, and a block with masks loses at
    least one unless this forward predicted the mask token. *)
Lemma iteration_blocks k fb :
  length (input_ids fb) = (n * block_size)%nat ->
  let ids' := foldl (commit_one (full_logits (model k fb))) (input_ids fb) (seq 0 n) in
  length ids' = (n * block_size)%nat /\
  forall b, (b < n)%nat ->
    keeps mask_id (get_block block_size b (input_ids fb)) (get_block block_size b ids') /\
    (~ predicts_mask k fb ->
     (num_masks mask_id (get_block block_size b ids') <= num_masks mask_id (get_block block_size b (input_ids fb)) - 1)%nat).
Proof.
  intros Hlen. apply (fold_blocks block_size n _ (fun _ old new =>
    keeps mask_id old new /\
    (~ predicts_mask k fb -> (num_masks mask_id new <= num_masks mask_id old - 1)%nat))); [|done].
  intros b l Hb Hl. unfold commit_one. set (old := get_block block_size b l).
  destruct (Nat.eqb_spec (num_masks mask_id old) 0) as [Hz|Hnz].
  { fold old. split_and!; [done..|lia]. }
  destruct Hmodel as [Hshape Hrows]. specialize (Hshape k fb). specialize (Hrows k fb).
  set (lg := get_block block_size b (full_logits (model k fb))).
  assert (Hlold : length old = block_size) by (by eapply length_get_block).
  assert (Hllg : length lg = length old)
    by (rewrite Hlold; eapply length_get_block; [by rewrite Hshape|done]).
  assert (HF : Forall (fun row : list score => row <> []) lg)
    by (by apply Forall_take, Forall_drop).
  assert (Hin : mask_id ∈ old).
  { destruct (decide (mask_id ∈ old)) as [|Hno]; [done|]. by apply num_masks_0 in Hno. }
  pose proof (commit_block_keeps old lg Hllg HF Hin) as Hk.
  pose proof (commit_block_progress old lg Hllg HF Hin) as Hp.
  destruct Hk as [Hkl Hkk].
  assert (Hc : length (commit_block old lg) = block_size) by congruence.
  split_and!.
  - rewrite (length_set_block _ b n); done.
  - intros b' Hne. by apply (get_set_block_ne _ b b' n).
  - rewrite (get_set_block_eq _ b n) by done. by split.
  - intros Hno. rewrite (get_set_block_eq _ b n) by done. fold old.
    apply not_Exists_Forall in Hno; [|apply _].
    specialize (Hp ltac:(by apply Forall_take, Forall_drop)). lia.
Qed.

Lemma low_denoise_spec fuel fb log :
  batch_size fb = n -> (0 < block_size)%nat -> length (input_ids fb) = (n * block_size)%nat ->
  exists ids' log', denoise fuel fb log = Ok (with_input_ids fb ids', log') /\
    keeps mask_id (input_ids fb) ids' /\ log `prefix_of` log' /\
    (length log' <= length log + fuel)%nat /\
    ((forall b, (b < n)%nat ->
        (num_masks mask_id (get_block block_size b (input_ids fb)) <= fuel)%nat) ->
     mask_id ∈ ids' ->
     exists k fb', (length log <= k)%nat /\ log' !! k = Some fb' /\ predicts_mask k fb').
Proof.
  intros Hn Hbs. revert fb log Hn. induction fuel as [|fuel IH]; intros fb log Hn Hl.
  - exists (input_ids fb), log. cbn. split_and!; [by destruct fb|done|done|lia|].
    intros Hm Hin. exfalso. revert Hin.
    apply (mask_blocks mask_id block_size n); [done|]. intros b Hb.
    apply num_masks_0. specialize (Hm b Hb). lia.
  - cbn [denoise]. destruct (Nat.eqb_spec (num_masks mask_id (input_ids fb)) 0) as [Hz|Hnz].
    { exists (input_ids fb), log. split_and!; [by destruct fb|done|done|lia|].
      intros _ Hin. by apply num_masks_0 in Hz. }
    unfold forward. rewrite Hl, Hn.
    rewrite Nat.div_mul, Nat.eqb_refl by lia. cbn [py_assert].
    destruct (iteration_blocks (length log) fb Hl) as [Hl' Hb'].
    set (ids' := foldl _ _ _) in *.
    destruct (IH (with_input_ids fb ids') (log ++ [fb]) Hn Hl')
      as (ids'' & log'' & Hd & Hk & Hp & Hlog & Hno).
    rewrite length_app in Hlog, Hno. cbn in Hlog, Hno.
    exists ids'', log''. split_and!; [exact Hd| |by eapply prefix_app_l|lia|].
    { transitivity ids'; [|done]. apply (keeps_blocks mask_id block_size n); [done..|].
      intros b Hb. by apply Hb'. }
    intros Hm Hin. destruct (decide (predicts_mask (length log) fb)) as [Hpm|Hpm].
    + exists (length log), fb. split_and!; [done| |done].
      eapply prefix_lookup_Some; [|done]. by rewrite lookup_app_r, Nat.sub_diag.
    + destruct Hno as (k & fb' & Hge & Hlk & Hpk); [|done|].
      * intros b Hb. destruct (Hb' b Hb) as [_ Hc]. specialize (Hm b Hb). specialize (Hc Hpm). lia.
      * exists k, fb'. split_and!; [lia|done..].
Qed.
End batch.

(** C9: LowConfidence always terminates, after at most [block_size + 1]
    forwards.  For every model that gives a nonempty row of logits per token,
    [run] on a batch of whole blocks returns a batch that kept every token
    given; the tokens returned for a request are its block from the first
    generated position, as many as it had masks; and the last forward, which
    writes the KV cache, saw exactly that batch.  A mask token is left in the
    result only if one of these forwards predicted the mask token itself: a
    model that does not gets a block fully decided. *)
Theorem low_confidence_run fb log :
  shaped_logits -> (0 < block_size)%nat -> (0 < batch_size fb)%nat ->
  length (input_ids fb) = (batch_size fb * block_size)%nat -> mask_id ∈ input_ids fb ->
  exists out ids' outs log',
    run fb log = Ok (out, outs, with_input_ids fb ids', log' ++ [with_input_ids fb ids']) /\
    keeps mask_id (input_ids fb) ids' /\
    log `prefix_of` log' /\ (length log' <= length log + block_size)%nat /\
    (mask_id ∈ ids' ->
     exists k fb', (length log <= k)%nat /\ log' !! k = Some fb' /\ predicts_mask k fb') /\
    length outs = batch_size fb /\
    forall b, (b < batch_size fb)%nat ->
      outs !! b = Some (drop (start_of (input_ids fb) b) (get_block block_size b ids')) /\
      length (outs !!! b) = num_masks mask_id (get_block block_size b (input_ids fb)).
Proof.
  intros Hmodel Hbs Hn Hl Hin. unfold run.
  destruct (Nat.eqb_spec (num_masks mask_id (input_ids fb)) 0) as [Hz|_].
  { by apply num_masks_0 in Hz. }
  destruct (low_denoise_spec (batch_size fb) Hmodel block_size fb log)
    as (ids' & log' & -> & Hk & Hp & Hlog & Hno); [done..|].
  cbn. assert (Hl' : length ids' = (batch_size fb * block_size)%nat) by (destruct Hk; congruence).
  rewrite (reshape_blocks _ block_size) by done. cbn.
  eexists _, ids', _, log'. split_and!; [done..| | |].
  { apply Hno. intros b Hb. etrans; [apply num_masks_le|]. by erewrite length_get_block. }
  { unfold blocks. rewrite length_zip_with, !length_fmap, length_seq. lia. }
  intros b Hb.
  assert (Hout : zip_with drop (start_of (input_ids fb) <$> seq 0 (batch_size fb))
      (blocks block_size (batch_size fb) ids') !! b
    = Some (drop (start_of (input_ids fb) b) (get_block block_size b ids'))).
  { rewrite lookup_zip_with, list_lookup_fmap, lookup_seq_lt, lookup_blocks by done. done. }
  split; [exact Hout|]. rewrite (list_lookup_total_correct _ _ _ Hout), length_drop.
  rewrite (length_get_block _ b (batch_size fb)) by done. unfold start_of.
  pose proof (num_masks_le mask_id (get_block block_size b (input_ids fb))) as Hc.
  rewrite (length_get_block _ b (batch_size fb)) in Hc by done. lia.
Qed.

(** The converse is real: a model whose every prediction is the mask token
    never decides anything, and [run] returns the masks as generated tokens. *)
Lemma mask_predicted_never_decides logits :
  Forall (fun row => row <> [] /\ Z.of_nat (argmax row) = mask_id) logits ->
  forall ids, length logits = length ids -> mask_id ∈ ids -> commit_block ids logits = ids.
Proof.
  intros HF ids Hl Hin.
  assert (HF1 : Forall (fun row : list score => row <> []) logits)
    by (eapply Forall_impl; [exact HF|naive_solver]).
  apply list_eq. intros i. rewrite (lookup_commit_block ids logits Hl HF1 Hin).
  destruct (transfer_spec ids logits Hl HF1 Hin) as (_ & Hm & _).
  destruct (transfer_index _ !! i) as [[]|] eqn:Ht; [|done..]. apply Hm, eq_mask_true in Ht.
  rewrite Ht. destruct (lookup_lt_is_Some_2 logits i) as [row Hrow].
  { apply lookup_lt_Some in Ht. lia. }
  rewrite Hrow. cbn. f_equal. by apply (Forall_lookup_1 _ _ _ _ HF) in Hrow as [_ ?].
Qed.
End low_confidence.

(** A batch of one request whose block holds a prompt token and two masks. *)
Definition demo_batch : forward_batch :=
  ForwardBatch 1 [5; 9; 9] [0] [3] [1; 2; 3] 3 [0; 1; 2] 3 [3] [0] [0] None None None false false.

Definition demo_model : model_runner := fun n fb =>
  ForwardOut ((fun _ => [Fin 0; Fin 2; Fin 7; Fin 1]) <$> input_ids fb) false None.

Lemma demo_model_ok : shaped_logits demo_model.
Proof.
  split.
  - intros n fb. apply length_fmap.
  - intros n fb. cbn. by apply Forall_fmap, Forall_true.
Qed.

Lemma demo_model_decides m k fb : m <> 2 -> ~ predicts_mask m demo_model k fb.
Proof.
  intros Hm. unfold predicts_mask. cbn. rewrite Exists_exists.
  intros (row & (t & -> & _)%list_elem_of_fmap & Heq). cbn in Heq. lia.
Qed.

Lemma low_confidence_run_witness :
  exists out ids' outs log',
    run 3 9 (Fin 5) demo_model demo_batch [] =
      Ok (out, outs, with_input_ids demo_batch ids', log' ++ [with_input_ids demo_batch ids']) /\
    9 ∉ ids' /\ length outs = 1%nat.
Proof.
  destruct (low_confidence_run 3 9 (Fin 5) demo_model demo_batch [])
    as (out & ids' & outs & log' & Hrun & _ & _ & _ & Hno & Hl & _);
    [exact demo_model_ok|lia|cbn; lia|done|cbn; set_solver|].
  exists out, ids', outs, log'. split_and!; [done| |done].
  intros Hin. destruct (Hno Hin) as (k & fb' & _ & _ & Hp). revert Hp. by apply demo_model_decides.
Defined.
