(* ===== verification/JointThreshold.v ===== *)
(** * The JointThreshold algorithm (srt/dllm/algorithm/joint_threshold.py)

    Mask-to-token and token-to-token edits in the same iteration: masked
    positions are decided as in LowConfidence, and positions already generated
    are rewritten when the model is confident in another token.  A block that
    has no masks left may be edited for [max_post_edit_steps] more iterations. *)

From S2P Require Import Prelude Tensor ForwardBatch LowConfidence.

Section joint_threshold.
Context `{Softmax} `{TopK}.
Variable block_size : nat.
Variable mask_id : Z.
Variables threshold edit_threshold : score.
Variable max_post_edit_steps : nat.
(** [penalty_lambda > 0], and the addition of [-penalty_lambda] to a logit. *)
Variable penalty_on : bool.
Variable penalize : score -> score.
Variable model : model_runner.

(** [curr_logits[1:, :].scatter_(1, prev_ids, -penalty_lambda, reduce="add")];
    an index outside the vocabulary is an error. *)
Definition penalize_row (row : list score) (prev : Z) : res (list score) :=
  if (prev <? 0) || (len row <=? prev) then Raise RuntimeError
  else Ok (alter penalize (Z.to_nat prev) row).

Fixpoint penalize_rows (rows : list (list score)) (prev_ids : list Z)
    : res (list (list score)) :=
  match rows, prev_ids with
  | row :: rows, prev :: prev_ids =>
      row ← penalize_row row prev;
      rows ← penalize_rows rows prev_ids;
      Ok (row :: rows)
  | _, _ => Ok []
  end.

Definition apply_penalty (curr_input_ids : list Z) (curr_logits : list (list score))
    : res (list (list score)) :=
  match curr_logits with
  | [] => Ok []
  | row0 :: rows =>
      rows ← penalize_rows rows (removelast curr_input_ids); Ok (row0 :: rows)
  end.

Record jstate := JState {
  j_ids : list Z;
  j_logits : list (list score);
  j_post : list nat;
  j_finished : list bool;
  j_changed : bool;
}.

(** The M2T choice: the positions above the threshold, or the best one. *)
Definition mask_transfer (confidence : list score) : list bool :=
  let t := (fun c => score_ltb threshold c) <$> confidence in
  if any t then t else foldl (fun t i => <[i := true]> t) t (topk confidence 1).

(** The T2T choice: confident predictions that differ from a generated token. *)
Definition edit_transfer (ids x : list Z) (p : list score) (mask prompt : list bool)
    : list bool :=
  zip_with (fun '(q, (t, t')) '(m, pr) =>
      score_ltb edit_threshold q && negb (t =? t') && (negb m && negb pr))
    (zip p (zip ids x)) (zip mask prompt).

(** The rest of the body once the mask-to-token choice is made. *)
Definition joint_edit (prompt_mask : list bool) (i : nat) (curr_input_ids x : list Z)
    (p : list score) (mask_index mask_transfer_index : list bool) (st : jstate) : jstate :=
  let transfer :=
    zip_with orb mask_transfer_index (edit_transfer curr_input_ids x p mask_index prompt_mask) in
  if any transfer then
    JState (set_block block_size i (where_ transfer x curr_input_ids) (j_ids st))
      (j_logits st) (j_post st) (j_finished st) true
  else JState (j_ids st) (j_logits st) (j_post st) (<[i := true]> (j_finished st)) (j_changed st).

(** The body of [for i in range(batch_size)]. *)
Definition joint_block (prompt_masks : list (list bool)) (st : jstate) (i : nat) : res jstate :=
  if (j_finished st !!! i : bool) then Ok st else
  let curr_input_ids := get_block block_size i (j_ids st) in
  let curr_logits := get_block block_size i (j_logits st) in
  curr_logits ← (if penalty_on then apply_penalty curr_input_ids curr_logits else Ok curr_logits);
  let st := JState (j_ids st) (set_block block_size i curr_logits (j_logits st))
              (j_post st) (j_finished st) (j_changed st) in
  let '(x, p) := predict curr_logits in
  let mask_index := eq_mask mask_id curr_input_ids in
  if any mask_index then
    let confidence := where_ mask_index p (replicate (length p) NegInf) in
    Ok (joint_edit (prompt_masks !!! i) i curr_input_ids x p mask_index
          (mask_transfer confidence) st)
  else
    let steps := S (j_post st !!! i) in
    let st := JState (j_ids st) (j_logits st) (<[i := steps]> (j_post st))
                (j_finished st) (j_changed st) in
    if (max_post_edit_steps <? steps)%nat then
      Ok (JState (j_ids st) (j_logits st) (j_post st) (<[i := true]> (j_finished st))
            (j_changed st))
    else
      Ok (joint_edit (prompt_masks !!! i) i curr_input_ids x p mask_index
            (replicate (length mask_index) false) st).

(** The loop over iterations; it hands on the last output. *)
Fixpoint joint_loop (prompt_masks : list (list bool)) (fuel : nat) (fb : forward_batch)
    (post : list nat) (finished : list bool) (changed : bool) (last : option forward_out)
    (log : fwd_log) : res (forward_batch * bool * option forward_out * fwd_log) :=
  match fuel with
  | O => Ok (fb, changed, last, log)
  | S fuel =>
      if forallb id finished then Ok (fb, changed, last, log) else
      let '(out, log) := forward model fb log in
      st ← foldM (joint_block prompt_masks)
             (JState (input_ids fb) (full_logits out) post finished false)
             (seq 0 (batch_size fb));
      joint_loop prompt_masks fuel (with_input_ids fb (j_ids st)) (j_post st) (j_finished st)
        (j_changed st) (Some (ForwardOut (j_logits st) (can_run_graph out) (next_token_logits out))) log
  end.

Definition joint_run (fb : forward_batch) (log : fwd_log)
    : res (forward_out * list (list Z) * forward_batch * fwd_log) :=
  if any (eq_mask mask_id (input_ids fb)) then
    let bs := seq 0 (batch_size fb) in
    let prompt_masks :=
      (fun i => negb <$> eq_mask mask_id (get_block block_size i (input_ids fb))) <$> bs in
    let start_list := count <$> prompt_masks in
    '(fb, changed, last, log) ←
      joint_loop prompt_masks (block_size + max_post_edit_steps) fb
        (replicate (batch_size fb) 0%nat) (replicate (batch_size fb) false) false None log;
    let '(last, log) :=
      if changed : bool then
        let '(out, log) := forward model fb log in (Some out, log)
      else (last, log) in
    next_token_ids ← reshape_rows (batch_size fb) (input_ids fb);
    out ← of_option UnboundLocalError last;
    Ok (out, zip_with drop start_list next_token_ids, fb, log)
  else
    let '(out, log) := forward model fb log in Ok (out, [], fb, log).

(** ** What the algorithm relies on

    The float addition of the penalty keeps finite logits finite; the model
    answers with one row per token, over a vocabulary that contains every token
    of the batch, and some logit of a row is finite.  A [strict] row moreover
    excludes the mask token, which the algorithm does not do itself. *)
Variable vocab : nat.

Definition row_ok (strict : bool) (row : list score) : Prop :=
  length row = vocab /\ (strict = true -> forall x, row !! Z.to_nat mask_id = Some x -> x = NegInf) /\
  exists j x, row !! j = Some x /\ finite x = true.

Definition penalty_keeps_finite : Prop := forall x, finite (penalize x) = finite x.

Definition gives_logits (strict : bool) : Prop :=
  model_shaped model /\ forall n fb, Forall (row_ok strict) (full_logits (model n fb)).

Definition in_vocab (t : Z) : Prop := 0 <= t < Z.of_nat vocab.

Section block.
Hypothesis Hpen : penalty_keeps_finite.
Variable strict : bool.
#[local] Notation row_ok := (row_ok strict).

Lemma row_predicts row :
  row_ok row -> (strict = true -> Z.of_nat (argmax row) <> mask_id) /\ in_vocab (Z.of_nat (argmax row)).
Proof.
  intros (Hl & Hm & j & x & Hj & Hx). destruct (argmax_finite row j x Hj Hx) as (y & Hy & Hf).
  split.
  - intros Hs Heq. specialize (Hm Hs). rewrite <- Heq, Nat2Z.id in Hm. by rewrite (Hm y Hy) in Hf.
  - apply lookup_lt_Some in Hy. unfold in_vocab. lia.
Qed.

Lemma penalize_row_ok row prev :
  row_ok row -> in_vocab prev -> exists row', penalize_row row prev = Ok row' /\ row_ok row'.
Proof.
  intros (Hl & Hm & j & x & Hj & Hx) [Hp1 Hp2]. unfold penalize_row.
  assert ((prev <? 0) || (len row <=? prev) = false) as ->.
  { unfold len. rewrite Hl. destruct (Z.ltb_spec prev 0), (Z.leb_spec (Z.of_nat vocab) prev);
      done || lia. }
  eexists. split; [done|]. split_and!; [by rewrite length_alter|..].
  - intros Hs y Hy. specialize (Hm Hs). destruct (decide (Z.to_nat prev = Z.to_nat mask_id)) as [He|He].
    + rewrite He, list_lookup_alter_eq in Hy. apply fmap_Some in Hy as (z & Hz & ->).
      apply Hm in Hz as ->. pose proof (Hpen NegInf) as Hf.
      by destruct (penalize NegInf).
    + rewrite list_lookup_alter_ne in Hy by done. by apply Hm.
  - destruct (decide (Z.to_nat prev = j)) as [<-|].
    + exists (Z.to_nat prev), (penalize x). rewrite list_lookup_alter_eq, Hj. split; [done|].
      by rewrite Hpen.
    + exists j, x. by rewrite list_lookup_alter_ne.
Qed.

Lemma penalize_rows_ok rows prev_ids :
  Forall row_ok rows -> Forall in_vocab prev_ids -> length prev_ids = length rows ->
  exists rows', penalize_rows rows prev_ids = Ok rows' /\ Forall row_ok rows' /\
    length rows' = length rows.
Proof.
  intros Hr. revert prev_ids. induction Hr as [|row rows Hrow Hrows IH]; intros [|prev prev_ids] Hp Hl;
    try done; [by exists []|].
  inversion Hp as [|? ? Hp1 Hp2]; subst.
  destruct (penalize_row_ok row prev Hrow Hp1) as (row' & Hq & Hok).
  destruct (IH prev_ids Hp2) as (rows' & Hqs & Hoks & Hls); [by injection Hl|].
  exists (row' :: rows'). cbn. rewrite Hq. cbn. rewrite Hqs. cbn. split_and!; [done| |by f_equal].
  by constructor.
Qed.

Lemma apply_penalty_ok ids rows :
  Forall row_ok rows -> Forall in_vocab ids -> length rows = length ids ->
  exists rows', (if penalty_on then apply_penalty ids rows else Ok rows) = Ok rows' /\
    Forall row_ok rows' /\ length rows' = length rows.
Proof.
  intros Hr Hi Hl. destruct penalty_on; [|by exists rows].
  destruct rows as [|row0 rows]; [by exists []|]. cbn.
  inversion Hr; subst.
  destruct (penalize_rows_ok rows (removelast ids)) as (rows' & -> & Hok & Hlr).
  - done.
  - apply Forall_forall. intros x Hx. rewrite Forall_forall in Hi. apply Hi.
    apply list_elem_of_In. apply list_elem_of_In in Hx. destruct ids as [|z ids]; [done|].
    rewrite (app_removelast_last (l := z :: ids) z) by done. apply in_or_app. by left.
  - destruct ids as [|z ids] using rev_ind; [done|]. rewrite removelast_last.
    rewrite length_app in Hl. cbn in Hl. lia.
  - cbn. exists (row0 :: rows'). split_and!; [done|by constructor|cbn; lia].
Qed.

Lemma mask_transfer_eq confidence : mask_transfer confidence = transfer_index threshold confidence.
Proof.
  unfold mask_transfer, transfer_index. set (t := _ <$> confidence).
  destruct (Nat.eqb_spec (count t) 0) as [Hz|Hnz].
  - by apply count_0 in Hz as ->.
  - destruct (any t) eqn:Ha; [done|]. by apply count_0 in Ha.
Qed.

Section edits.
Variables (orig ids : list Z) (rows : list (list score)) (mt : list bool).
Hypothesis Hrows : Forall row_ok rows.
Hypothesis Hids : Forall in_vocab ids.
Hypothesis Hl : length rows = length ids.
Hypothesis Hk : keeps mask_id orig ids.
Hypothesis Hmt : length mt = length ids.
Hypothesis Hmtm : forall i, mt !! i = Some true -> ids !! i = Some mask_id.

Let x := (predict rows).1.
Let p := (predict rows).2.
Let transfer := zip_with orb mt
  (edit_transfer ids x p (eq_mask mask_id ids) (negb <$> eq_mask mask_id orig)).

Lemma lookup_x i row : rows !! i = Some row -> x !! i = Some (Z.of_nat (argmax row)).
Proof. intros Hr. unfold x. cbn. by rewrite list_lookup_fmap, Hr. Qed.

Lemma length_transfer : length transfer = length ids.
Proof.
  destruct Hk as [Hlo _]. unfold transfer, edit_transfer, x, p, eq_mask. cbn.
  rewrite !length_zip_with, !length_fmap. lia.
Qed.

(** A transferred position is one the original block had masked. *)
Lemma transfer_orig i : transfer !! i = Some true -> orig !! i = Some mask_id.
Proof.
  unfold transfer, edit_transfer. generalize x p. clear x p transfer. intros x p.
  rewrite lookup_zip_with. destruct Hk as [Hlo Hkk].
  destruct (mt !! i) as [m|] eqn:Hm; cbn; [|done].
  rewrite !lookup_zip_with.
  destruct (p !! i) as [q|]; cbn; [|done].
  destruct (ids !! i) as [t|] eqn:Ht; cbn; [|done].
  destruct (x !! i) as [t'|]; cbn; [|done].
  rewrite list_lookup_fmap, !lookup_eq_mask, Ht. cbn.
  destruct (orig !! i) as [o|] eqn:Ho; cbn; [|done].
  destruct (Z.eqb_spec o mask_id) as [->|Hne]; [done|cbn].
  rewrite !andb_false_r, orb_false_r. intros [= ->].
  apply Hmtm in Hm. apply (Hkk i o) in Ho; [|done]. congruence.
Qed.

(** What the mask-to-token choice transfers is transferred. *)
Lemma transfer_mask i : mt !! i = Some true -> transfer !! i = Some true.
Proof.
  intros Hi. unfold transfer. rewrite lookup_zip_with, Hi.
  destruct (lookup_lt_is_Some_2 (edit_transfer ids x p (eq_mask mask_id ids)
    (negb <$> eq_mask mask_id orig)) i) as [e He]; [|by rewrite He].
  apply lookup_lt_Some in Hi. destruct Hk as [Hlo _].
  unfold edit_transfer, x, p, eq_mask. cbn. rewrite !length_zip_with, !length_fmap. lia.
Qed.

Lemma lookup_edit i :
  where_ transfer x ids !! i =
    match transfer !! i with
    | Some true => (fun row => Z.of_nat (argmax row)) <$> rows !! i
    | _ => ids !! i
    end.
Proof.
  rewrite lookup_where. destruct (transfer !! i) as [b|] eqn:Ht.
  - assert (Hi : (i < length ids)%nat)
      by (apply lookup_lt_Some in Ht; by rewrite length_transfer in Ht).
    destruct (lookup_lt_is_Some_2 ids i Hi) as [t Hit].
    destruct (lookup_lt_is_Some_2 rows i ltac:(lia)) as [row Hrow].
    rewrite (lookup_x i row Hrow), Hit, Hrow. by destruct b.
  - apply lookup_ge_None in Ht. rewrite length_transfer in Ht. symmetry.
    by apply lookup_ge_None.
Qed.

Lemma edit_spec :
  let new := where_ transfer x ids in
  keeps mask_id orig new /\ Forall in_vocab new /\
  (strict = true -> (num_masks mask_id new <= num_masks mask_id ids)%nat /\
    ((exists i, mt !! i = Some true) -> (num_masks mask_id new < num_masks mask_id ids)%nat)).
Proof.
  assert (Hln : length (where_ transfer x ids) = length ids).
  { rewrite length_where; rewrite length_transfer; try done. unfold x. cbn.
    by rewrite length_fmap. }
  cbn zeta. split_and!.
  - destruct Hk as [Hlo Hkk]. split; [congruence|]. intros i o Ho Hne. rewrite lookup_edit.
    destruct (transfer !! i) as [[]|] eqn:Ht; [|by apply Hkk..].
    apply transfer_orig in Ht. congruence.
  - apply Forall_lookup. intros i t. rewrite lookup_edit.
    destruct (transfer !! i) as [[]|]; [|by apply Forall_lookup_1..].
    rewrite fmap_Some. intros (row & Hr & ->).
    apply (Forall_lookup_1 _ _ _ _ Hrows) in Hr. by apply row_predicts.
  - intros Hst.
    assert (Hmono : forall i, where_ transfer x ids !! i = Some mask_id ->
      ids !! i = Some mask_id /\ transfer !! i <> Some true).
    { intros i. rewrite lookup_edit. destruct (transfer !! i) as [[]|]; [|done..].
      rewrite fmap_Some. intros (row & Hr & Heq). symmetry in Heq.
      apply (Forall_lookup_1 _ _ _ _ Hrows) in Hr. apply row_predicts in Hr as [Hr _]. by destruct (Hr Hst). }
    split; [apply count_mono; [by rewrite !length_eq_mask|]; intros i; rewrite !eq_mask_true; apply Hmono|].
    intros (i & Hi). apply (count_strict _ _ i); [by rewrite !length_eq_mask|..].
    + intros j. rewrite !eq_mask_true. apply Hmono.
    + apply eq_mask_true. by apply Hmtm.
    + rewrite eq_mask_true. intros Hn. apply Hmono in Hn as [_ Ht]. by apply Ht, transfer_mask.
Qed.
End edits.

(** ** The loop over requests *)

Record block_inv (orig : list Z) (bound : nat) (finished : bool) (ids : list Z) : Prop := {
  bi_keeps : keeps mask_id orig ids;
  bi_finished : finished = true -> mask_id ∉ ids;
  bi_masks : strict = true -> (num_masks mask_id ids <= bound)%nat;
}.

Lemma block_inv_weaken orig bound bound' f ids :
  (bound <= bound')%nat -> block_inv orig bound f ids -> block_inv orig bound' f ids.
Proof. intros Hle [? ? Hm]. split; [done..|]. intros Hs. specialize (Hm Hs). lia. Qed.

Section loop.
Variables (n : nat) (orig : list Z).
Hypothesis Hbs : (0 < block_size)%nat.
Hypothesis Horig : length orig = (n * block_size)%nat.

Let prompt_masks :=
  (fun i => negb <$> eq_mask mask_id (get_block block_size i orig)) <$> seq 0 n.

(** The state after the first [k] requests of an iteration that started with
    [ids0], [bound] masks per block at most. *)
Record jinv (ids0 : list Z) (bound k : nat) (st : jstate) : Prop := {
  ji_ids : length (j_ids st) = (n * block_size)%nat;
  ji_logits : length (j_logits st) = (n * block_size)%nat;
  ji_rows : Forall row_ok (j_logits st);
  ji_vocab : Forall in_vocab (j_ids st);
  ji_fin : length (j_finished st) = n;
  ji_blocks b : (b < n)%nat ->
    block_inv (get_block block_size b orig) (if decide (b < k)%nat then bound - 1 else bound)
      (j_finished st !!! b) (get_block block_size b (j_ids st));
  ji_same : j_changed st = false -> j_ids st = ids0;
}.

(** What one request's step does, from its own block's point of view: the step
    writes [new] in its block (if it changes anything) and [f] in its flag. *)
Lemma jinv_step ids0 bound k st lg post f (new : option (list Z)) :
  (k < n)%nat -> jinv ids0 bound k st ->
  length lg = block_size -> Forall row_ok lg ->
  (forall v, new = Some v -> Forall in_vocab v) ->
  block_inv (get_block block_size k orig) (bound - 1) f
    (default (get_block block_size k (j_ids st)) new) ->
  jinv ids0 bound (S k)
    (JState (match new with Some v => set_block block_size k v (j_ids st) | None => j_ids st end)
       (set_block block_size k lg (j_logits st)) post (<[k := f]> (j_finished st))
       (match new with Some _ => true | None => j_changed st end)).
Proof.
  intros Hk Hinv Hlg Hrl Hvoc Hnew. destruct Hinv as [Hi Hg Hr Hv Hf Hb Hs].
  assert (Hnl : length (default (get_block block_size k (j_ids st)) new) = block_size).
  { destruct Hnew as [[-> _] _ _]. by apply (length_get_block _ _ n). }
  assert (Hset : forall A P v (l : list A), Forall P l -> Forall P v -> Forall P (set_block block_size k v l)).
  { intros A P v l Hl Hv'. unfold set_block. rewrite !Forall_app.
    split_and!; [by apply Forall_take|done|by apply Forall_drop]. }
  split; cbn.
  - destruct new as [v|]; [|done]. cbn in Hnl. by rewrite (length_set_block _ k n).
  - by rewrite (length_set_block _ k n).
  - by apply Hset.
  - destruct new as [v|]; [|done]. by apply Hset, Hvoc.
  - by rewrite length_insert.
  - intros b Hbn. destruct (decide (b = k)) as [->|Hne].
    + rewrite decide_True by lia. rewrite list_lookup_total_insert_eq by lia.
      destruct new as [v|]; [|done]. cbn in Hnl, Hnew. by rewrite (get_set_block_eq _ k n).
    + rewrite list_lookup_total_insert_ne by done.
      assert (get_block block_size b match new with
        | Some v => set_block block_size k v (j_ids st) | None => j_ids st end
        = get_block block_size b (j_ids st)) as ->.
      { destruct new as [v|]; [|done]. cbn in Hnl. by apply (get_set_block_ne _ k b n). }
      specialize (Hb b Hbn). destruct (decide (b < S k)%nat), (decide (b < k)%nat);
        try lia; done.
  - by destruct new.
Qed.

Lemma joint_edit_inv ids0 bound k st lg post mt :
  let ids := get_block block_size k (j_ids st) in
  (k < n)%nat -> jinv ids0 bound k st -> j_finished st !!! k = false ->
  length lg = block_size -> Forall row_ok lg ->
  length mt = block_size -> (forall i, mt !! i = Some true -> ids !! i = Some mask_id) ->
  (mask_id ∈ ids -> exists i, mt !! i = Some true) ->
  jinv ids0 bound (S k)
    (joint_edit (negb <$> eq_mask mask_id (get_block block_size k orig)) k ids
       (predict lg).1 (predict lg).2 (eq_mask mask_id ids) mt
       (JState (j_ids st) (set_block block_size k lg (j_logits st)) post (j_finished st)
          (j_changed st))).
Proof.
  intros ids Hk Hinv Hfk Hll Hrl Hlm Hmt Hex.
  assert (Hidl : length ids = block_size) by (apply (length_get_block _ _ n); [apply Hinv|done]).
  assert (Hvoc : Forall in_vocab ids) by (apply Forall_take, Forall_drop, Hinv).
  pose proof (ji_blocks _ _ _ _ Hinv k Hk) as [Hkeep _ Hmasks].
  rewrite decide_False in Hmasks by lia. fold ids in Hkeep, Hmasks.
  destruct (edit_spec (get_block block_size k orig) ids lg mt) as (Hk' & Hv' & Hcnt);
    [done..|congruence|done|congruence|done|].
  unfold joint_edit. set (tr := zip_with orb mt _) in *. destruct (any tr) eqn:Ha.
  - assert (Hfs : j_finished st = <[k := false]> (j_finished st)).
    { symmetry. apply list_insert_id. rewrite <- Hfk. apply list_lookup_lookup_total_lt.
      rewrite (ji_fin _ _ _ _ Hinv). done. }
    cbn [j_ids j_logits j_post j_finished j_changed]. rewrite Hfs.
    apply (jinv_step ids0 bound k st lg post false (Some (where_ tr (predict lg).1 ids)));
      [done..|by intros v [= <-]|]. cbn [from_option id]. split; [done..|]. intros Hst. specialize (Hmasks Hst). destruct (Hcnt Hst) as [Hle Hlt].
    destruct (decide (mask_id ∈ ids)) as [Hin|Hno%num_masks_0].
    + specialize (Hlt (Hex Hin)). lia.
    + lia.
  - apply (jinv_step ids0 bound k st lg post true None); [done..|].
    cbn. fold ids. assert (Hno : mask_id ∉ ids).
    { intros (i & Hi)%Hex. apply any_false with (i := i) in Ha. apply Ha.
      apply transfer_mask; [congruence|done|congruence|done]. }
    split; [done..|]. intros _. apply num_masks_0 in Hno. lia.
Qed.

Lemma joint_block_spec ids0 bound st k :
  (k < n)%nat -> jinv ids0 bound k st ->
  exists st', joint_block prompt_masks st k = Ok st' /\ jinv ids0 bound (S k) st'.
Proof.
  intros Hk Hinv. pose proof (ji_blocks _ _ _ _ Hinv k Hk) as Hblk.
  rewrite decide_False in Hblk by lia.
  unfold joint_block. destruct (j_finished st !!! k) eqn:Hfk.
  { exists st. split; [done|]. destruct Hinv as [Hi Hg Hr Hv Hf Hb Hs]. split; try done.
    intros b Hbn. specialize (Hb b Hbn). destruct (decide (b = k)) as [->|].
    - rewrite Hfk. destruct Hblk as [Hkk Hfin _]. split; [done..|]. intros _.
      specialize (Hfin eq_refl). apply num_masks_0 in Hfin. lia.
    - destruct (decide (b < S k)%nat), (decide (b < k)%nat); done || lia. }
  set (ids := get_block block_size k (j_ids st)).
  assert (Hidl : length ids = block_size) by (apply (length_get_block _ _ n); [apply Hinv|done]).
  assert (Hvoc : Forall in_vocab ids) by (apply Forall_take, Forall_drop, Hinv).
  destruct (apply_penalty_ok ids (get_block block_size k (j_logits st))) as (lg & -> & Hrl & Hll).
  { apply Forall_take, Forall_drop, Hinv. }
  { done. }
  { rewrite Hidl. apply (length_get_block _ _ n); [apply Hinv|done]. }
  rewrite (length_get_block _ _ n) in Hll by (apply Hinv || done).
  assert (Hpm : prompt_masks !!! k = negb <$> eq_mask mask_id (get_block block_size k orig)).
  { apply list_lookup_total_correct. unfold prompt_masks.
    by rewrite list_lookup_fmap, lookup_seq_lt. }
  assert (Hne : Forall (fun row : list score => row <> []) lg).
  { eapply Forall_impl; [exact Hrl|]. intros row (_ & _ & j & x & Hj & _) ->. done. }
  cbn [mbind res_bind]. rewrite Hpm, (surjective_pairing (predict lg)).
  cbn zeta iota. fold ids. destruct (any (eq_mask mask_id ids)) eqn:Hany.
  - apply any_eq_mask in Hany. eexists. split; [done|].
    destruct (transfer_spec mask_id threshold ids lg) as (Htl & Htm & Hte);
      [congruence|done|done|].
    cbn [predict snd] in Htl, Htm, Hte |- *. rewrite mask_transfer_eq, length_fmap.
    apply joint_edit_inv; try done; [congruence|].
    intros i Hi. apply eq_mask_true. by apply Htm.
  - apply any_eq_mask_false in Hany. destruct (_ <? _)%nat; eexists; (split; [done|]).
    + apply (jinv_step ids0 bound k st lg _ true None); [done..|]. cbn. fold ids.
      destruct Hblk as [Hkk _ _]. split; [done..|]. intros _. apply num_masks_0 in Hany. lia.
    + cbn [j_ids j_logits j_post j_finished j_changed]. apply joint_edit_inv; try done.
      * by rewrite length_replicate, length_eq_mask.
      * by intros i [? _]%lookup_replicate_1.
Qed.


(** ** The loop over iterations *)

Lemma joint_loop_spec fuel fb bound post fin changed last log :
  gives_logits strict ->
  batch_size fb = n -> length (input_ids fb) = (n * block_size)%nat ->
  Forall in_vocab (input_ids fb) -> length fin = n -> (bound <= fuel)%nat ->
  (forall b, (b < n)%nat -> block_inv (get_block block_size b orig) bound (fin !!! b)
    (get_block block_size b (input_ids fb))) ->
  (changed = true \/ (exists pre, log = pre ++ [fb]) /\ is_Some last \/
   ((0 < fuel)%nat /\ exists b, (b < n)%nat /\ fin !! b = Some false)) ->
  exists ids' changed' last' log',
    joint_loop prompt_masks fuel fb post fin changed last log =
      Ok (with_input_ids fb ids', changed', last', log') /\
    keeps mask_id orig ids' /\ (strict = true -> mask_id ∉ ids') /\ (length log' <= length log + fuel)%nat /\
    (changed' = true \/ (exists pre, log' = pre ++ [with_input_ids fb ids']) /\ is_Some last').
Proof.
  intros [Hshape Hrows]. revert fb bound post fin changed last log.
  induction fuel as [|fuel IH]; intros fb bound post fin changed last log Hn Hl Hv Hf Hb Hblk Hlast;
    cbn [joint_loop].
  - exists (input_ids fb), changed, last, log. split_and!; [by destruct fb| | |lia|].
    + apply (keeps_blocks mask_id block_size n); [done..|]. intros b Hbn. by apply Hblk.
    + intros Hst. apply (mask_blocks mask_id block_size n); [done|]. intros b Hbn. apply num_masks_0.
      destruct (Hblk b Hbn) as [_ _ Hm]. specialize (Hm Hst). lia.
    + rewrite with_input_ids_self.
      destruct Hlast as [?|[?|[? _]]]; [auto..|lia].
  - destruct (forallb id fin) eqn:Hall.
    { rewrite forallb_forall in Hall.
      assert (Hfin : forall b, (b < n)%nat -> fin !! b = Some true).
      { intros b Hbn. destruct (lookup_lt_is_Some_2 fin b ltac:(lia)) as [f Hfb].
        rewrite Hfb. f_equal. apply (Hall f), list_elem_of_In. by eapply list_elem_of_lookup_2. }
      exists (input_ids fb), changed, last, log. split_and!; [by destruct fb| | |lia|].
      - apply (keeps_blocks mask_id block_size n); [done..|]. intros b Hbn. by apply Hblk.
      - intros _. apply (mask_blocks mask_id block_size n); [done|]. intros b Hbn.
        apply (Hblk b Hbn). apply list_lookup_total_correct. by apply Hfin.
      - rewrite with_input_ids_self.
        destruct Hlast as [?|[?|(_ & b & Hbn & Hfb)]]; [auto..|].
        rewrite Hfin in Hfb by done. done. }
    unfold forward. rewrite Hn.
    destruct (foldM_seq (joint_block prompt_masks) (jinv (input_ids fb) bound) n
      (JState (input_ids fb) (full_logits (model (length log) fb)) post fin false))
      as (st & -> & Hinv).
    { split; cbn; try done. by rewrite Hshape. }
    { intros k st Hk Hinv. by apply joint_block_spec. }
    cbn [mbind res_bind]. destruct Hinv as [Hi Hg Hr Hvo Hfi Hb' Hs].
    destruct (IH (with_input_ids fb (j_ids st)) (bound - 1)%nat (j_post st) (j_finished st)
      (j_changed st) (Some (ForwardOut (j_logits st)
        (can_run_graph (model (length log) fb)) (next_token_logits (model (length log) fb)))) (log ++ [fb]))
      as (ids' & ch' & last' & log' & Heq & Hk & Hno & Hlog & Hch); try done.
    + lia.
    + intros b Hbn. specialize (Hb' b Hbn). by rewrite decide_True in Hb' by done.
    + destruct (j_changed st) eqn:Hc; [by left|right; left].
      split; [|done]. exists log. rewrite (Hs eq_refl). by destruct fb.
    + exists ids', ch', last', log'. split_and!; [exact Heq|done|done| |done].
      rewrite length_app in Hlog. cbn in Hlog. lia.
Qed.
End loop.
End block.

(** The outputs of the run, from the batch it leaves: [strict] as above. *)
Lemma joint_run_spec strict fb log :
  penalty_keeps_finite -> gives_logits strict ->
  (0 < block_size)%nat -> (0 < batch_size fb)%nat ->
  length (input_ids fb) = (batch_size fb * block_size)%nat ->
  Forall in_vocab (input_ids fb) -> mask_id ∈ input_ids fb ->
  exists out ids' outs pre,
    joint_run fb log = Ok (out, outs, with_input_ids fb ids', pre ++ [with_input_ids fb ids']) /\
    keeps mask_id (input_ids fb) ids' /\ (strict = true -> mask_id ∉ ids') /\
    (length pre <= length log + block_size + max_post_edit_steps)%nat /\ length outs = batch_size fb /\
    forall b, (b < batch_size fb)%nat ->
      outs !! b = Some (drop (block_size
        - num_masks mask_id (get_block block_size b (input_ids fb)))
        (get_block block_size b ids')).
Proof.
  intros Hpen Hmodel Hbs Hn Hl Hv Hin. unfold joint_run.
  apply any_eq_mask in Hin. rewrite Hin. set (prompts := _ <$> seq 0 (batch_size fb)).
  destruct (joint_loop_spec Hpen strict (batch_size fb) (input_ids fb) Hbs Hl
    (block_size + max_post_edit_steps) fb block_size (replicate (batch_size fb) 0%nat)
    (replicate (batch_size fb) false) false None log)
    as (ids' & ch & last & log' & Heq & Hk & Hno & Hlog & Hlast); try done.
  { by rewrite length_replicate. }
  { lia. }
  { intros b Hb. split; [done| |].
    - rewrite lookup_total_replicate_2 by done. done.
    - intros _. etrans; [apply num_masks_le|]. by erewrite length_get_block. }
  { right; right. split; [lia|]. exists 0%nat. split; [done|]. by rewrite lookup_replicate_2. }
  fold prompts in Heq. rewrite Heq. cbn [mbind res_bind].
  assert (Hl' : length ids' = (batch_size fb * block_size)%nat) by (destruct Hk; congruence).
  set (outs := zip_with drop (count <$> prompts) (blocks block_size (batch_size fb) ids')).
  assert (Houts : forall b, (b < batch_size fb)%nat ->
    outs !! b = Some (drop (block_size - num_masks mask_id (get_block block_size b (input_ids fb)))
        (get_block block_size b ids'))).
  { intros b Hb. unfold outs, prompts.
    rewrite lookup_zip_with, !list_lookup_fmap, lookup_seq_lt, lookup_blocks by done.
    transitivity (Some (drop (count (negb <$> eq_mask mask_id
      (get_block block_size b (input_ids fb)))) (get_block block_size b ids'))); [done|].
    do 2 f_equal. rewrite count_negb, length_eq_mask.
    by rewrite (length_get_block _ b (batch_size fb)). }
  assert (Hlo : length outs = batch_size fb).
  { unfold outs, prompts, blocks. rewrite length_zip_with, !length_fmap, !length_seq. lia. }
  assert (Hrs : reshape_rows (batch_size fb) ids' = Ok (blocks block_size (batch_size fb) ids'))
    by (by apply reshape_blocks).
  destruct ch.
  - cbn. rewrite Hrs. cbn. eexists _, ids', outs, log'. split_and!; [done..|lia|done|done].
  - destruct Hlast as [?|[(pre & ->) (out & ->)]]; [done|]. cbn. rewrite Hrs. cbn.
    exists out, ids', outs, pre.
    rewrite length_app in Hlog. cbn in Hlog. split_and!; [done..|lia|done|done].
Qed.

(** C10: JointThreshold always terminates with the KV cache in step.  For every
    model that returns a row of logits with a finite entry per token, over a
    vocabulary with the batch's tokens, [run] on a batch of whole blocks returns
    after at most [block_size + max_post_edit_steps + 1] forwards; it changes no
    prompt token, returns for each request its block from the first generated
    position, and the last forward of the log (the one that wrote the KV cache)
    was run on exactly the returned tokens, whether or not the extra forward was
    skipped.  The algorithm does not keep a model from predicting the mask
    token; with a model that excludes it no mask token is left. *)
Theorem joint_threshold_run fb log :
  penalty_keeps_finite -> gives_logits false ->
  (0 < block_size)%nat -> (0 < batch_size fb)%nat ->
  length (input_ids fb) = (batch_size fb * block_size)%nat ->
  Forall in_vocab (input_ids fb) -> mask_id ∈ input_ids fb ->
  exists out ids' outs pre,
    joint_run fb log = Ok (out, outs, with_input_ids fb ids', pre ++ [with_input_ids fb ids']) /\
    keeps mask_id (input_ids fb) ids' /\
    (length pre <= length log + block_size + max_post_edit_steps)%nat /\
    (forall b, (b < batch_size fb)%nat ->
      outs !! b = Some (drop (block_size
        - num_masks mask_id (get_block block_size b (input_ids fb)))
        (get_block block_size b ids'))) /\
    (gives_logits true -> mask_id ∉ ids').
Proof.
  intros Hpen Hmodel Hbs Hn Hl Hv Hin.
  destruct (joint_run_spec false fb log Hpen Hmodel Hbs Hn Hl Hv Hin) as (out & ids' & outs & pre & Hrun & Hk & _ & Hlog & _ & Ho).
  exists out, ids', outs, pre. split_and!; try done. intros Hstrict.
  destruct (joint_run_spec true fb log Hpen Hstrict Hbs Hn Hl Hv Hin) as (out' & ids'' & outs' & pre' & Hrun' & _ & Hno & _).
  rewrite Hrun in Hrun'. assert (He : input_ids (with_input_ids fb ids') = input_ids (with_input_ids fb ids'')) by congruence.
  cbn in He. rewrite He. by apply Hno.
Qed.
End joint_threshold.

Definition demo_joint_model : model_runner := fun n fb =>
  ForwardOut ((fun _ => [Fin 0; Fin 2; Fin 7; NegInf]) <$> input_ids fb) false None.

Lemma joint_threshold_run_witness :
  exists out ids' outs pre,
    joint_run 3 3 (Fin 5) (Fin 0) 2 true (fun s => s) demo_joint_model
      (with_input_ids demo_batch [1; 3; 3]) [] =
      Ok (out, outs, with_input_ids demo_batch ids', pre ++ [with_input_ids demo_batch ids']) /\
    3 ∉ ids' /\ (length pre <= 5)%nat.
Proof.
  destruct (joint_threshold_run 3 3 (Fin 5) (Fin 0) 2 true (fun s => s) demo_joint_model 4
    (with_input_ids demo_batch [1; 3; 3]) []) as (out & ids' & outs & pre & Hrun & _ & Hl & _ & Hno).
  - by intros x.
  - split; [intros n fb; apply length_fmap|]. intros n fb. cbn. apply Forall_fmap, Forall_true.
    intros t. split_and!; [done|done|]. by exists 0%nat, (Fin 0).
  - lia.
  - cbn. lia.
  - done.
  - repeat constructor; unfold in_vocab; lia.
  - cbn. set_solver.
  - exists out, ids', outs, pre. split; [exact Hrun|]. split; [|exact Hl]. apply Hno.
    split; [intros n fb; apply length_fmap|]. intros n fb. cbn. apply Forall_fmap, Forall_true.
    intros t. split_and!; [done|by intros _ x [= <-]|]. by exists 0%nat, (Fin 0).
Defined.
