(* ===== verification/FastDiffuser.v ===== *)
(** * The FastDiffuser algorithm (srt/dllm/algorithm/fastdiffuser.py)

    One block per request is denoised over at most [max_steps] forwards;
    requests whose block is complete are compacted out of the batch.  A final
    forward over the full batch writes the KV cache, positions still masked are
    committed from its logits, and the per-token logprobs, commit steps and
    entropies are assembled from the grids filled along the way.

    The operations are in this file, the theorems in FastDiffuserProofs. *)

From S2P Require Import Prelude Tensor ForwardBatch.

(** ** Configuration *)

(** The keys of [dllm_algorithm_config] the constructor reads; [None] is an
    absent key ([threshold] and [tokens_per_step] may also be null). *)
Record fd_options := FDOptions {
  o_temperature : option Z;
  o_threshold : option (option score);
  o_selection_policy : option string;
  o_tokens_per_step : option (option Z);
  o_logprob_mode : option string;
  o_return_reveal_steps : option bool;
  o_return_entropy : option bool;
  o_eos_block_end_only : option bool;
  o_stats_file : option bool;
}.

Record fast_diffuser := FastDiffuser {
  block_size : nat;
  mask_id : Z;
  temperature : Z;
  threshold : option score;
  max_steps : nat;
  causal_context : bool;
  selection_policy : string;
  tokens_per_step : option Z;
  logprob_mode : string;
  return_reveal_steps : bool;
  return_entropy : bool;
  eos_block_end_only : bool;
  stats_file : bool;
}.

Definition str_in (s : string) (l : list string) : bool := existsb (String.eqb s) l.

(** FastDiffuser.__init__: the defaults and the two validations. *)
Definition init (block_size : nat) (mask_id : Z) (max_steps : nat) (causal_context : bool)
    (cfg : fd_options) : res fast_diffuser :=
  let threshold := default None (o_threshold cfg) in
  let selection_policy := default "confidence" (o_selection_policy cfg) in
  if negb (str_in selection_policy ["confidence"; "leftmost"; "random"]) then Raise ValueError
  else if str_in selection_policy ["leftmost"; "random"] && bool_decide (is_Some threshold)
  then Raise ValueError
  else
    let logprob_mode := default "fully_masked" (o_logprob_mode cfg) in
    if negb (str_in logprob_mode ["fully_masked"; "final_step"; "trajectory"])
    then Raise ValueError
    else Ok (FastDiffuser block_size mask_id (default 0 (o_temperature cfg)) threshold
      max_steps causal_context selection_policy (default None (o_tokens_per_step cfg))
      logprob_mode (default false (o_return_reveal_steps cfg))
      (default false (o_return_entropy cfg)) (default false (o_eos_block_end_only cfg))
      (default false (o_stats_file cfg))).

(** ** _get_num_transfer_tokens *)
Definition get_num_transfer_tokens (mask_count steps : Z) : list Z :=
  let base := mask_count / steps in
  let remainder := mask_count mod steps in
  (fun i => base + (if i <? remainder then 1 else 0)) <$> range 0 steps.

(** ** _compact_forward_batch *)

Definition gather {A} `{Inhabited A} (l : list A) (idx : list nat) : list A :=
  (fun i => l !!! i) <$> idx.

(** [start[0] = 0; start[1:] = lens[:-1].cumsum(0)] *)
Fixpoint starts_from (acc : Z) (lens : list Z) : list Z :=
  match lens with
  | [] => []
  | n :: lens => acc :: starts_from (acc + n) lens
  end.

Definition compact_forward_batch (bs : nat) (fb : forward_batch) (active : list nat)
    : forward_batch :=
  let token_idx := active ≫= (fun a => seq (a * bs) bs) in
  let new_seq_lens := gather (seq_lens fb) active in
  let new_ext_seq := gather (extend_seq_lens fb) active in
  ForwardBatch (length active)
    (gather (input_ids fb) token_idx)
    (gather (req_pool_indices fb) active)
    new_seq_lens
    (gather (out_cache_loc fb) token_idx)
    (foldr Z.add 0 new_seq_lens)
    (gather (positions fb) token_idx)
    (Z.of_nat (length active * bs))
    new_ext_seq
    (gather (extend_prefix_lens fb) active)
    (starts_from 0 new_ext_seq)
    ((fun l => gather l active) <$> extend_prefix_lens_cpu fb)
    ((fun l => gather l active) <$> extend_seq_lens_cpu fb)
    ((fun l => gather l active) <$> seq_lens_cpu fb)
    (return_logprob fb) (dllm_causal_kv_update fb).

(** ** The mutable state of [run] *)

(** A grid of [batch_size] rows of [block_size] floats; [None] is NaN. *)
Definition grid := list (list (option score)).

Record fd_state := FDState {
  ids : list Z;
  finished : list bool;
  lp_grid : option grid;
  ent_grid : option grid;
  cs_grid : option (list (list Z));
  req_steps_active : list Z;
  fully_masked_logits : option (list (list score));
  rng : nat;
  log : fwd_log;
  n_graph : Z;
  n_eager : Z;
}.

Definition set_ids s v := FDState v (finished s) (lp_grid s) (ent_grid s) (cs_grid s)
  (req_steps_active s) (fully_masked_logits s) (rng s) (log s) (n_graph s) (n_eager s).
Definition set_finished s v := FDState (ids s) v (lp_grid s) (ent_grid s) (cs_grid s)
  (req_steps_active s) (fully_masked_logits s) (rng s) (log s) (n_graph s) (n_eager s).
Definition set_grids s lp ent := FDState (ids s) (finished s) lp ent (cs_grid s)
  (req_steps_active s) (fully_masked_logits s) (rng s) (log s) (n_graph s) (n_eager s).
Definition set_cs s v := FDState (ids s) (finished s) (lp_grid s) (ent_grid s) v
  (req_steps_active s) (fully_masked_logits s) (rng s) (log s) (n_graph s) (n_eager s).
Definition set_active s v := FDState (ids s) (finished s) (lp_grid s) (ent_grid s) (cs_grid s)
  v (fully_masked_logits s) (rng s) (log s) (n_graph s) (n_eager s).
Definition set_fml s v := FDState (ids s) (finished s) (lp_grid s) (ent_grid s) (cs_grid s)
  (req_steps_active s) v (rng s) (log s) (n_graph s) (n_eager s).
Definition tick_rng s := FDState (ids s) (finished s) (lp_grid s) (ent_grid s) (cs_grid s)
  (req_steps_active s) (fully_masked_logits s) (S (rng s)) (log s) (n_graph s) (n_eager s).

Definition put_cells {A} (g : list (list A)) (b : nat) (positions : list nat) (vals : list A)
    : list (list A) := <[b := scatter (g !!! b) positions vals]> g.

(** What is not part of the repository: the float operations of torch (noise,
    tempering, log_softmax, entropy, the float 1.0), its random permutations,
    the model and its EOS token.  Random draws are numbered: [gumbel k i] is the
    noise added to row [i] by draw [k], [randperm k] the permutation of draw
    [k]. *)
Class fd_env := FDEnv {
  gumbel : nat -> nat -> Z -> list score -> list score;
  temper : Z -> list score -> list score;
  log_softmax : list score -> list score;
  entropy_of : list score -> score;
  one : score;
  randperm : nat -> nat -> list nat;
  model : model_runner;
  eos_id : option Z;
}.

Section algorithm.
Context `{Softmax} `{TopK} `{fd_env}.
Variable self : fast_diffuser.

Definition mask_col : nat := Z.to_nat (mask_id self).

(** ** _add_gumbel_noise *)
Definition add_gumbel_noise (k i : nat) (row : list score) : list score :=
  if temperature self =? 0 then row else gumbel k i (temperature self) row.

(** ** _compute_confidence *)
Definition compute_confidence (k : nat) (logits : list (list score)) (mask_index : list bool)
    (current_ids : list Z) (eos_freeze : list bool) : list Z * list score :=
  let x0 := imap (fun i row => argmax (add_gumbel_noise k i (ban mask_col row))) logits in
  let x0_p := zip_with (fun row x => softmax row !!! x) logits x0 in
  let x0 := where_ mask_index (Z.of_nat <$> x0) current_ids in
  let active := zip_with (fun m f => m && negb f) mask_index eos_freeze in
  (x0, where_ active x0_p (replicate (length x0_p) NegInf)).

(** ** _select_transfer_indices *)
Definition select_transfer_indices (r : nat) (confidence : list score)
    (block_mask eos_freeze : list bool) (k : Z) : list nat :=
  if k <=? 0 then []
  else if String.eqb (selection_policy self) "confidence" then topk confidence (Z.to_nat k)
  else
    let active_idx := nonzero (zip_with (fun m f => m && negb f) block_mask eos_freeze) in
    if String.eqb (selection_policy self) "random" then
      gather active_idx (take (Z.to_nat k) (randperm r (length active_idx)))
    else take (Z.to_nat k) active_idx.

(** ** _record_token_logprobs *)
Definition token_logprobs (logits : list (list score)) (positions : list nat) : list (list score) :=
  (fun p =>
     let row := logits !!! p in
     let row := if 0 <? temperature self then temper (temperature self) row else row in
     log_softmax (ban mask_col row)) <$> positions.

Definition record_token_logprobs (b : nat) (positions : list nat) (logits : list (list score))
    (token_ids : list Z) (s : fd_state) : fd_state :=
  match lp_grid s with
  | None => s
  | Some g =>
      if bool_decide (positions = []) then s else
      let logprobs := token_logprobs logits positions in
      let g := put_cells g b positions
                 (zip_with (fun row t => Some (row !!! Z.to_nat t)) logprobs token_ids) in
      let ent := (fun e => put_cells e b positions ((fun row => Some (entropy_of row)) <$> logprobs))
                   <$> ent_grid s in
      set_grids s (Some g) ent
  end.

Definition record_step (b : nat) (positions : list nat) (step : Z) (s : fd_state) : fd_state :=
  set_cs s ((fun g => put_cells g b positions (replicate (length positions) step)) <$> cs_grid s).

(** ** _record_logprobs_from_fully_masked_logits *)
Definition record_fully_masked (start_list : list nat) (s : fd_state) : fd_state :=
  match lp_grid s, fully_masked_logits s with
  | Some g, Some fml =>
      let s := set_grids s (Some ((fun row : list (option score) => replicate (length row) None) <$> g))
                 (ent_grid s) in
      foldl (fun s '(b, start) =>
          let positions := seq start (block_size self - start) in
          if bool_decide (positions = []) then s else
          record_token_logprobs b positions (get_block (block_size self) b fml)
            (gather (get_block (block_size self) b (ids s)) positions) s)
        s (zip (seq 0 (length start_list)) start_list)
  | _, _ => s
  end.

(** ** The denoising step of one request *)

Definition first_true (l : list bool) : option nat := head (nonzero l).

(** The positions at or after the first generated EOS. *)
Definition eos_freeze_of (block_ids : list Z) (gen_start : nat) : list bool :=
  match eos_id with
  | None => replicate (length block_ids) false
  | Some e =>
      let eos_placed :=
        imap (fun i t => bool_decide (gen_start <= i)%nat && negb (t =? mask_id self) && (t =? e))
          block_ids in
      match first_true eos_placed with
      | None => replicate (length block_ids) false
      | Some first => imap (fun i _ => bool_decide (first <= i)%nat) block_ids
      end
  end.

(** EOS may be sampled at the last slot only. *)
Definition sampling_logits_of (block_logits : list (list score)) : list (list score) :=
  match eos_id with
  | Some e =>
      if eos_block_end_only self then
        imap (fun i row =>
            if bool_decide (i < length block_logits - 1)%nat then ban (Z.to_nat e) row else row)
          block_logits
      else block_logits
  | None => block_logits
  end.

(** How many positions to commit, before the cap at [remaining]. *)
Definition tokens_this_step (step : nat) (confidence : list score) (remaining : nat) : Z :=
  if String.eqb (selection_policy self) "leftmost" then default 1 (tokens_per_step self)
  else match threshold self with
  | Some t => Z.max 1 (Z.of_nat (count ((fun c => score_leb t c) <$> confidence)))
  | None =>
      default 0 (head (get_num_transfer_tokens (Z.of_nat remaining)
        (Z.of_nat (max_steps self) - Z.of_nat step)))
  end.

(** EOS propagation: when this step placed an EOS in the generated region, the
    masks after the first generated EOS become EOS. *)
Definition propagate_eos (step b gen_start : nat) (top_idx : list nat)
    (block_logits : list (list score)) (block_ids : list Z) (s : fd_state)
    : list Z * fd_state :=
  match eos_id with
  | None => (block_ids, s)
  | Some e =>
      let gen_top_idx := filter (fun i => gen_start <= i)%nat top_idx in
      if existsb (fun i => bool_decide (block_ids !! i = Some e)) gen_top_idx then
        match first_true (eq_mask e (drop gen_start block_ids)) with
        | None => (block_ids, s)
        | Some k =>
            let first_eos := (gen_start + k)%nat in
            let still_mask := eq_mask (mask_id self) (drop first_eos block_ids) in
            let s :=
              if any still_mask then
                let propagated_idx := (fun i => i + first_eos)%nat <$> nonzero still_mask in
                let s := record_token_logprobs b propagated_idx block_logits
                           (replicate (length propagated_idx) e) s in
                record_step b propagated_idx (Z.of_nat step) s
              else s in
            (take first_eos block_ids ++
               ((fun t => if t =? mask_id self then e else t) <$> drop first_eos block_ids), s)
        end
      else (block_ids, s)
  end.

(** The body of [for compact_i, orig_b in enumerate(active_indices)]. *)
Definition place_request (step : nat) (start_list : list nat) (logits : list (list score))
    (s : fd_state) (ci_b : nat * nat) : fd_state :=
  let '(compact_i, orig_b) := ci_b in
  let bs := block_size self in
  let block_ids := get_block bs orig_b (ids s) in
  let block_mask := eq_mask (mask_id self) block_ids in
  if negb (any block_mask) then set_finished s (<[orig_b := true]> (finished s)) else
  let block_logits := get_block bs compact_i logits in
  let gen_start := start_list !!! orig_b in
  let eos_freeze := eos_freeze_of block_ids gen_start in
  let '(x0, confidence) :=
    compute_confidence (rng s) (sampling_logits_of block_logits) block_mask block_ids eos_freeze in
  let s := tick_rng s in
  let remaining := count (zip_with (fun m f => m && negb f) block_mask eos_freeze) in
  if (remaining =? 0)%nat then set_finished s (<[orig_b := true]> (finished s)) else
  let k := Z.min (tokens_this_step step confidence remaining) (Z.of_nat remaining) in
  let top_idx := select_transfer_indices (rng s) confidence block_mask eos_freeze k in
  let s := tick_rng s in
  let s := record_token_logprobs orig_b top_idx block_logits (gather x0 top_idx) s in
  let s := record_step orig_b top_idx (Z.of_nat step) s in
  let block_ids := assign_at block_ids top_idx x0 in
  let '(block_ids, s) := propagate_eos step orig_b gen_start top_idx block_logits block_ids s in
  let s := set_ids s (set_block bs orig_b block_ids (ids s)) in
  if any (eq_mask (mask_id self) block_ids) then s
  else set_finished s (<[orig_b := true]> (finished s)).

(** A forward of the batch [fb], counted as a CUDA-graph or an eager one. *)
Definition counted_forward (fb : forward_batch) (s : fd_state) : forward_out * fd_state :=
  let '(out, log) := forward model fb (log s) in
  (out, FDState (ids s) (finished s) (lp_grid s) (ent_grid s) (cs_grid s) (req_steps_active s)
     (fully_masked_logits s) (rng s) log
     (if can_run_graph out then n_graph s + 1 else n_graph s)
     (if can_run_graph out then n_eager s else n_eager s + 1)).

Definition active_indices (s : fd_state) (n : nat) : list nat :=
  filter (fun b => (finished s !!! b : bool) = false) (seq 0 n).

(** [for step in range(self.max_steps)], [fuel] steps being left. *)
Fixpoint denoise (fuel step : nat) (start_list : list nat) (fb : forward_batch) (s : fd_state)
    : fd_state :=
  match fuel with
  | O => s
  | S fuel =>
      let active := active_indices s (batch_size fb) in
      if bool_decide (active = []) then s else
      let s := set_active s (foldl (fun l b => alter (Z.add 1) b l) (req_steps_active s) active) in
      let cur := with_input_ids fb (ids s) in
      let '(out, s) :=
        counted_forward
          (if (length active =? batch_size fb)%nat then cur
           else compact_forward_batch (block_size self) cur active) s in
      let s :=
        if (step =? 0)%nat && bool_decide (is_Some (lp_grid s))
           && String.eqb (selection_policy self) "confidence"
        then set_fml s (Some (full_logits out)) else s in
      let s := foldl (place_request step start_list (full_logits out)) s
                 (zip (seq 0 (length active)) active) in
      denoise fuel (S step) start_list fb s
  end.

(** ** Force-commit of the positions still masked after the final forward *)
Definition force_commit (start_list : list nat) (logits : list (list score)) (s : fd_state) (b : nat)
    : fd_state :=
  let bs := block_size self in
  let block_ids := get_block bs b (ids s) in
  let remaining_mask := eq_mask (mask_id self) block_ids in
  if negb (any remaining_mask) then s else
  let block_logits := ban mask_col <$> get_block bs b logits in
  let x0_final := (fun row => Z.of_nat (argmax row)) <$> sampling_logits_of block_logits in
  let remaining_mask :=
    zip_with (fun m f => m && negb f) remaining_mask
      (eos_freeze_of block_ids (start_list !!! b)) in
  let commit_idx := nonzero remaining_mask in
  let s := record_token_logprobs b commit_idx block_logits (gather x0_final commit_idx) s in
  let s := record_step b commit_idx (Z.of_nat (max_steps self)) s in
  set_ids s (set_block bs b (where_ remaining_mask x0_final block_ids) (ids s)).

(** ** Assembling the outputs *)

(** Positions the earlier passes left without a logprob get one from the final
    forward. *)
Definition fill_missing (start_list : list nat) (logits : list (list score)) (s : fd_state) (b : nat)
    : fd_state :=
  match lp_grid s with
  | None => s
  | Some g =>
      let start := start_list !!! b in
      let nans := (fun c => bool_decide (c = None)) <$> drop start (g !!! b) in
      let missing_idx := (fun i => i + start)%nat <$> nonzero nans in
      if bool_decide (missing_idx = []) then s else
      record_token_logprobs b missing_idx (get_block (block_size self) b logits)
        (gather (get_block (block_size self) b (ids s)) missing_idx) s
  end.

(** final_step mode: the logprobs of tokens committed before their block's last
    step are replaced by the positive sentinel. *)
Definition mark_final_step (s : fd_state) (b : nat) : fd_state :=
  match cs_grid s, lp_grid s with
  | Some cs, Some g =>
      let row := cs !!! b in
      let committed := (fun c => 0 <=? c) <$> row in
      if any committed then
        let last := foldr Z.max (-1) (filter (fun c => 0 <= c) row) in
        let non_final := zip_with (fun c m => m && negb (c =? last)) row committed in
        set_grids s
          (Some (<[b := where_ non_final (replicate (length row) (Some one)) (g !!! b)]> g))
          (ent_grid s)
      else s
  | _, _ => s
  end.

Record fd_result := FDResult {
  r_out : option forward_out;
  next_token_ids : list (list Z);
  next_token_logprobs : option (list (list (option score)));
  next_token_reveal_steps : option (list (list Z));
  next_token_entropy : option (list (list (option score)));
  r_can_run_graph : bool;
  stats_rows : list (Z * Z);
}.

Definition full_grid {A} (n bs : nat) (v : A) : list (list A) := replicate n (replicate bs v).

Definition init_state (fb : forward_batch) (lg : fwd_log) (r : nat) (ng ne : Z) : fd_state :=
  let n := batch_size fb in
  let lp := if return_logprob fb then Some (full_grid n (block_size self) None) else None in
  FDState (input_ids fb) (replicate n false) lp
    (if return_logprob fb && return_entropy self
     then Some (full_grid n (block_size self) None) else None)
    (if return_logprob fb &&
        (str_in (logprob_mode self) ["final_step"; "trajectory"] || return_reveal_steps self)
     then Some (full_grid n (block_size self) (-1)) else None)
    (replicate n 0) None r lg ng ne.

Definition start_of (b : nat) (l : list Z) : nat :=
  (block_size self - num_masks (mask_id self) (get_block (block_size self) b l))%nat.

(** The denoising loop, the final forward and the force-commit. *)
Definition decode (fb : forward_batch) (s : fd_state) : forward_out * fd_state :=
  let n := batch_size fb in
  let start_list := (fun b => start_of b (input_ids fb)) <$> seq 0 n in
  let s := denoise (max_steps self) 0 start_list fb s in
  let cur := with_input_ids fb (ids s) in
  let '(out, s) := counted_forward (if causal_context self then with_causal cur true else cur) s in
  (out, foldl (force_commit start_list (full_logits out)) s (seq 0 n)).

(** The logprob channel of the result. *)
Definition assemble_logprobs (start_list : list nat) (n : nat) (logits : list (list score))
    (s : fd_state) : fd_state :=
  let s :=
    if String.eqb (selection_policy self) "confidence"
       && negb (str_in (logprob_mode self) ["final_step"; "trajectory"])
    then record_fully_masked start_list s else s in
  let s := foldl (fill_missing start_list logits) s (seq 0 n) in
  if bool_decide (is_Some (cs_grid s)) && String.eqb (logprob_mode self) "final_step"
  then foldl mark_final_step s (seq 0 n) else s.

Definition run (fb : forward_batch) (lg : fwd_log) (r : nat) (ng ne : Z)
    : res (fd_result * fd_state) :=
  let s := init_state fb lg r ng ne in
  let n := batch_size fb in
  if negb (any (eq_mask (mask_id self) (input_ids fb))) then
    if bool_decide (input_ids fb = []) then Ok (FDResult None [] None None None false [], s)
    else
      let '(out, lg) := forward model fb lg in
      Ok (FDResult (Some out) [] None None None (can_run_graph out) [],
          FDState (ids s) (finished s) (lp_grid s) (ent_grid s) (cs_grid s) (req_steps_active s)
            (fully_masked_logits s) (rng s) lg (n_graph s) (n_eager s))
  else
    let start_list := (fun b => start_of b (input_ids fb)) <$> seq 0 n in
    let '(out, s) := decode fb s in
    (* [reshape(batch_size, block_size)] *)
    if negb (length (ids s) =? n * block_size self)%nat then Raise RuntimeError else
    let tokens := zip_with drop start_list (blocks (block_size self) n (ids s)) in
    let s := if bool_decide (is_Some (lp_grid s))
             then assemble_logprobs start_list n (full_logits out) s else s in
    let rows {A} (g : list (list A)) := zip_with drop start_list g in
    Ok (FDResult (Some out) tokens (rows <$> lp_grid s)
       (if bool_decide (is_Some (lp_grid s)) && return_reveal_steps self
        then rows <$> cs_grid s else None)
       (if bool_decide (is_Some (lp_grid s)) then rows <$> ent_grid s else None)
       (can_run_graph out)
       (if stats_file self
        then zip_with (fun fp t => (fp, len t)) (req_steps_active s) tokens else []),
     s).
End algorithm.
