(* ===== verification/FastDiffuserProofs.v ===== *)
(** * FastDiffuser: the theorems

    What [FastDiffuser.run] guarantees for every model, every random draw and
    every configuration: the block is decided, prompt tokens are kept, the
    number of forwards is bounded, nothing stays masked behind a generated EOS,
    and the output channels agree in length and content. *)

From S2P Require Import Prelude Tensor ForwardBatch FastDiffuser.

(** ** _get_num_transfer_tokens *)

Lemma sum_map_if (a : Z) (f : Z -> Z) l :
  foldr Z.add 0 ((fun i => a + f i) <$> l) = a * len l + foldr Z.add 0 (f <$> l).
Proof. unfold len. induction l as [|x l IH]; cbn -[Z.of_nat]; lia. Qed.

Lemma sum_indicator n r :
  0 <= r <= Z.of_nat n ->
  foldr Z.add 0 ((fun i => if i <? r then 1 else 0) <$> range 0 (Z.of_nat n)) = r.
Proof.
  revert r. induction n as [|n IH]; intros r Hr.
  - change (0 = r). lia.
  - rewrite (range_app 0 (Z.of_nat n)) by lia. rewrite (range_cons (Z.of_nat n)) by lia.
    rewrite (range_empty (Z.of_nat n + 1)), fmap_app, foldr_app by lia. cbn.
    destruct (Z.ltb_spec (Z.of_nat n) r).
    + assert (r = Z.of_nat (S n)) as -> by lia.
      enough (Hg : forall l z, Forall (fun i => i < Z.of_nat (S n)) l ->
        foldr Z.add z ((fun i => if i <? Z.of_nat (S n) then 1 else 0) <$> l) = z + len l).
      { rewrite Hg; [unfold len; rewrite len_range; lia|].
        apply Forall_forall. intros i Hi. unfold range in Hi. apply elem_of_seqZ in Hi. lia. }
      intros l z Hl. induction Hl as [|i l Hi Hl IHl]; [unfold len; cbn; lia|].
      rewrite fmap_cons. cbn [foldr]. rewrite IHl, len_cons.
      destruct (Z.ltb_spec i (Z.of_nat (S n))); lia.
    + apply IH. lia.
Qed.

Lemma transfer_head mask_count steps :
  0 <= mask_count -> 0 < steps ->
  head (get_num_transfer_tokens mask_count steps) = Some (ceil_div mask_count steps).
Proof.
  intros Hm Hs. pose proof (Z.div_mod mask_count steps ltac:(lia)) as Hdm.
  pose proof (Z.mod_pos_bound mask_count steps ltac:(lia)) as Hmb.
  unfold get_num_transfer_tokens, ceil_div. rewrite range_cons by lia. cbn. f_equal.
  destruct (Z.ltb_spec 0 (mask_count mod steps)).
  - apply (Z.div_unique _ _ _ (mask_count mod steps - 1)); lia.
  - apply (Z.div_unique _ _ _ (steps - 1)); lia.
Qed.

(** The transfer schedule hands out every mask exactly once: over [steps]
    steps the quotas of [_get_num_transfer_tokens] add up to [mask_count], the
    early ones being one larger, so that the first quota is the rounded-up
    average. *)
Theorem num_transfer_tokens_total mask_count steps :
  0 <= mask_count -> 0 < steps ->
  let q := get_num_transfer_tokens mask_count steps in
  len q = steps /\ foldr Z.add 0 q = mask_count /\
  head q = Some (ceil_div mask_count steps) /\
  (forall i, 0 <= i < steps ->
     nthZ q i = Some (mask_count / steps + (if i <? mask_count mod steps then 1 else 0))).
Proof.
  intros Hm Hs q. pose proof (Z.div_mod mask_count steps ltac:(lia)) as Hdm.
  pose proof (Z.mod_pos_bound mask_count steps ltac:(lia)) as Hmb.
  assert (Hn : steps = Z.of_nat (Z.to_nat steps)) by lia.
  unfold q, get_num_transfer_tokens. split_and!.
  - unfold len. rewrite length_fmap, len_range; lia.
  - pose proof (sum_indicator (Z.to_nat steps) (mask_count mod steps)) as HI.
    rewrite <- Hn in HI. rewrite sum_map_if, HI by lia.
    unfold len. rewrite len_range by lia. lia.
  - by apply transfer_head.
  - intros i Hi. unfold nthZ. destruct (Z.ltb_spec i 0); [lia|].
    rewrite list_lookup_fmap, lookup_range, decide_True by lia. cbn.
    by rewrite Z2Nat.id by lia.
Qed.

Lemma num_transfer_tokens_total_witness :
  foldr Z.add 0 (get_num_transfer_tokens 7 3) = 7
  /\ head (get_num_transfer_tokens 7 3) = Some (ceil_div 7 3).
Proof.
  destruct (num_transfer_tokens_total 7 3) as (_ & Hs & Hh & _); [lia..|]. by split.
Defined.

(** ** _compact_forward_batch *)

Lemma gather_block (bs : nat) {A} `{Inhabited A} (l : list A) (n a : nat) :
  length l = (n * bs)%nat -> (a < n)%nat ->
  gather l (seq (a * bs) bs) = get_block bs a l.
Proof.
  intros Hl Ha. unfold gather. apply list_eq. intros i.
  rewrite list_lookup_fmap, lookup_get_block.
  pose proof (block_bound bs a n Ha) as Hb.
  case_decide.
  - rewrite lookup_seq_lt by done. cbn.
    symmetry. apply list_lookup_lookup_total_lt. lia.
  - by rewrite lookup_seq_ge by lia.
Qed.

Lemma lookup_compact (bs : nat) {A} `{Inhabited A} (l : list A) (n : nat) active :
  length l = (n * bs)%nat -> Forall (fun a => (a < n)%nat) active ->
  let l' := gather l (active ≫= (fun a => seq (a * bs) bs)) in
  length l' = (length active * bs)%nat /\
  forall i a, active !! i = Some a -> get_block bs i l' = get_block bs a l.
Proof.
  intros Hl HF. cbn zeta. induction HF as [|a active Ha HF IH]; [done|].
  destruct IH as [IHl IHb].
  change ((a :: active) ≫= (fun a => seq (a * bs) bs))
    with (seq (a * bs) bs ++ (active ≫= (fun a => seq (a * bs) bs))).
  unfold gather in *. rewrite fmap_app.
  pose proof (gather_block bs l n a Hl Ha) as Hga. unfold gather in Hga. rewrite Hga.
  pose proof (length_get_block bs a n l Hl Ha) as Hlb.
  split.
  - rewrite length_app, Hlb, IHl. cbn. lia.
  - intros [|i] a' Hi; cbn in Hi.
    + injection Hi as <-. unfold get_block at 1. rewrite Nat.mul_0_l, drop_0.
      by rewrite take_app_length'.
    + rewrite <- (IHb i a' Hi). unfold get_block at 1 3.
      replace (S i * bs)%nat with (bs + i * bs)%nat by lia.
      rewrite <- drop_drop. rewrite drop_app_length' by done. done.
Qed.

Lemma lookup_starts acc lens i x :
  lens !! i = Some x -> starts_from acc lens !! i = Some (acc + foldr Z.add 0 (take i lens)).
Proof.
  revert acc i. induction lens as [|n lens IH]; intros acc [|i] Hi; cbn in *; try done.
  - f_equal. lia.
  - rewrite (IH _ _ Hi). f_equal. lia.
Qed.

(** Compaction selects the active requests and nothing else: block [i] of
    every per-token tensor of the compacted batch is the block of the [i]-th
    active request, the per-request tensors follow the same order, the token
    count matches and [extend_start_loc] holds the prefix sums of the compacted
    lengths. *)
Theorem compact_forward_batch_spec bs fb active :
  let n := batch_size fb in
  let c := compact_forward_batch bs fb active in
  length (input_ids fb) = (n * bs)%nat -> length (positions fb) = (n * bs)%nat ->
  length (out_cache_loc fb) = (n * bs)%nat -> length (extend_seq_lens fb) = n ->
  Forall (fun a => (a < n)%nat) active ->
  batch_size c = length active /\ length (input_ids c) = (batch_size c * bs)%nat /\
  extend_num_tokens c = len (input_ids c) /\
  forall i a, active !! i = Some a ->
    get_block bs i (input_ids c) = get_block bs a (input_ids fb) /\
    get_block bs i (positions c) = get_block bs a (positions fb) /\
    get_block bs i (out_cache_loc c) = get_block bs a (out_cache_loc fb) /\
    extend_seq_lens c !! i = extend_seq_lens fb !! a /\
    extend_start_loc c !! i = Some (foldr Z.add 0 (take i (extend_seq_lens c))).
Proof.
  intros n c Hi Hp Ho Hs HF. cbn.
  destruct (lookup_compact bs (input_ids fb) n active Hi HF) as [Hli Hbi].
  destruct (lookup_compact bs (positions fb) n active Hp HF) as [_ Hbp].
  destruct (lookup_compact bs (out_cache_loc fb) n active Ho HF) as [_ Hbo].
  split_and!; [done|done|unfold len; by rewrite Hli|].
  intros i a Ha. pose proof (Forall_lookup_1 _ _ _ _ HF Ha) as Hlt. cbn in Hlt.
  destruct (lookup_lt_is_Some_2 (extend_seq_lens fb) a ltac:(lia)) as [x Hx].
  assert (Hg : gather (extend_seq_lens fb) active !! i = Some x).
  { unfold gather. rewrite list_lookup_fmap, Ha. cbn.
    by rewrite (list_lookup_total_correct _ _ _ Hx). }
  split_and!; [by apply Hbi|by apply Hbp|by apply Hbo|by rewrite Hg, Hx|].
  by rewrite (lookup_starts 0 _ i x Hg), Z.add_0_l.
Qed.

Definition demo_fd_batch : forward_batch :=
  ForwardBatch 2 [5; 9; 6; 9] [3; 4] [2; 2] [1; 2; 3; 4] 4 [0; 1; 0; 1] 4 [2; 2] [0; 0] [0; 2]
    None None None true false.

Lemma compact_forward_batch_spec_witness :
  get_block 2 0 (input_ids (compact_forward_batch 2 demo_fd_batch [1%nat]))
  = get_block 2 1 (input_ids demo_fd_batch).
Proof.
  destruct (compact_forward_batch_spec 2 demo_fd_batch [1%nat]) as (_ & _ & _ & Hb);
    [done..|repeat constructor; cbn; lia|].
  by destruct (Hb 0%nat 1%nat eq_refl) as (Hi & _).
Defined.

(** ** What the algorithm relies on *)

Section proofs.
Context `{HS : Softmax} `{HT : TopK} `{HE : fd_env}.
Variable self : fast_diffuser.

Notation msk := (mask_id self).
Notation bs := (block_size self).

(** A row over the vocabulary in which some token other than the mask token
    (and other than EOS, when EOS is restricted to the last slot) is possible. *)
Definition row_ok (row : list score) : Prop :=
  exists j x, row !! j = Some x /\ finite x = true /\ Z.of_nat j <> msk /\
    (forall e, eos_id = Some e -> Z.of_nat j <> e).

Definition model_ok : Prop :=
  model_shaped model /\ forall n fb, Forall row_ok (full_logits (model n fb)).

(** Gumbel-max sampling draws only tokens of non-zero probability. *)
Definition gumbel_ok : Prop := forall k i t row j x,
  row !! j = Some x -> finite x = true ->
  exists y, row !! argmax (gumbel k i t row) = Some y /\ finite y = true.

Definition randperm_ok : Prop := forall k n, randperm k n ≡ₚ seq 0 n.

(** The mask and EOS tokens are vocabulary indices, and distinct. *)
Definition ids_ok : Prop :=
  0 <= msk /\ eos_id <> Some msk /\ forall e, eos_id = Some e -> 0 <= e.

Hypothesis Hids : ids_ok.
Hypothesis Hgumbel : gumbel_ok.
Hypothesis Hperm : randperm_ok.

(** A row in which a token other than the mask can be drawn. *)
Definition drawable (row : list score) : Prop :=
  exists j x, row !! j = Some x /\ finite x = true /\ j <> Z.to_nat msk.

Lemma row_ok_drawable row : row_ok row -> drawable row.
Proof.
  intros (j & x & Hj & Hx & Hm & _). exists j, x. split_and!; [done..|].
  intros ->. destruct Hids. lia.
Qed.

Lemma sampling_drawable rows : Forall row_ok rows -> Forall drawable (sampling_logits_of self rows).
Proof.
  intros HF. unfold sampling_logits_of.
  assert (Hd : Forall drawable rows) by (eapply Forall_impl; [exact HF|apply row_ok_drawable]).
  destruct eos_id as [e|] eqn:He; [|done]. destruct (eos_block_end_only self); [|done].
  apply Forall_lookup. intros i row. rewrite list_lookup_imap, fmap_Some.
  intros (r & Hr & ->). pose proof (Forall_lookup_1 _ _ _ _ HF Hr) as (j & x & Hj & Hx & Hm & Hne).
  case_bool_decide; [|by eapply Forall_lookup_1 in Hd].
  exists j, x. specialize (Hne e He). destruct Hids as (Hp & _ & Hpe). specialize (Hpe e He).
  unfold ban. rewrite list_lookup_insert_ne by lia. split_and!; [done..|lia].
Qed.

Lemma drawn_token k i row :
  drawable row ->
  exists y, ban (Z.to_nat msk) row !! argmax (add_gumbel_noise self k i (ban (Z.to_nat msk) row))
              = Some y /\ finite y = true.
Proof.
  intros (j & x & Hj & Hx & Hm). unfold add_gumbel_noise.
  assert (Hb : ban (Z.to_nat msk) row !! j = Some x)
    by (unfold ban; by rewrite list_lookup_insert_ne).
  destruct (_ =? 0); [by eapply argmax_finite|by eapply Hgumbel].
Qed.

Lemma drawn_not_mask k i row :
  drawable row ->
  Z.of_nat (argmax (add_gumbel_noise self k i (ban (Z.to_nat msk) row))) <> msk /\
  (argmax (add_gumbel_noise self k i (ban (Z.to_nat msk) row)) < length row)%nat.
Proof.
  intros Hd. destruct (drawn_token k i row Hd) as (y & Hy & Hf). split.
  - intros Heq. assert (argmax (add_gumbel_noise self k i (ban (Z.to_nat msk) row)) = Z.to_nat msk)
      as Hm by lia.
    rewrite Hm in Hy. unfold ban in Hy.
    apply list_lookup_insert_Some in Hy as [(_ & <- & _)|[? _]]; done.
  - apply lookup_lt_Some in Hy. unfold ban in Hy. by rewrite length_insert in Hy.
Qed.

(** ** Choosing positions *)

(** The [k] best of at least [k] finite entries are finite. *)
Lemma topk_all_finite c k i x :
  (k <= count (finite <$> c))%nat -> i ∈ topk c k -> c !! i = Some x -> finite x = true.
Proof.
  intros Hk Hi Hx. destruct (finite x) eqn:Hf; [done|].
  pose proof (count_le (finite <$> c)) as Hcl. rewrite length_fmap in Hcl.
  assert (Hsub : i :: nonzero (finite <$> c) ⊆+ topk c k).
  { apply NoDup_submseteq.
    - constructor; [|apply NoDup_nonzero].
      rewrite elem_of_nonzero, list_lookup_fmap, Hx. cbn. congruence.
    - intros j. rewrite elem_of_cons, elem_of_nonzero, list_lookup_fmap, fmap_Some.
      intros [->|(y & Hy & Hfy)]; [done|].
      destruct (decide (j ∈ topk c k)) as [|Hnj]; [done|].
      pose proof (topk_max c k i j x y ltac:(lia) Hi Hnj Hx Hy) as Hle.
      rewrite (finite_leb y x) in Hf; done. }
  apply submseteq_length in Hsub. rewrite topk_length in Hsub by lia.
  cbn in Hsub. rewrite <- count_nonzero in Hsub. lia.
Qed.

Definition active_mask (mask freeze : list bool) : list bool :=
  zip_with (fun m f => m && negb f) mask freeze.

(** Every selection policy returns [k] distinct active positions. *)
Lemma select_spec r conf mask freeze k :
  length conf = length mask -> length freeze = length mask ->
  (forall i x, conf !! i = Some x -> finite x = true <-> active_mask mask freeze !! i = Some true) ->
  k <= Z.of_nat (count (active_mask mask freeze)) ->
  let idx := select_transfer_indices self r conf mask freeze k in
  NoDup idx /\ length idx = Z.to_nat k /\
  forall i, i ∈ idx -> active_mask mask freeze !! i = Some true.
Proof.
  intros Hlc Hlf Hfin Hk. cbn zeta. unfold select_transfer_indices.
  fold (active_mask mask freeze). set (act := active_mask mask freeze) in *.
  assert (Hla : length act = length mask) by (unfold act, active_mask; rewrite length_zip_with; lia).
  destruct (Z.leb_spec k 0).
  { split_and!; [constructor|cbn; lia|set_solver]. }
  rewrite count_nonzero in Hk.
  destruct (String.eqb _ "confidence") eqn:Hp1.
  - assert (Hcf : finite <$> conf = act).
    { apply list_eq. intros i. rewrite list_lookup_fmap.
      destruct (conf !! i) as [x|] eqn:Hx; cbn.
      - specialize (Hfin i x Hx). destruct (lookup_lt_is_Some_2 act i) as [b Hb].
        { apply lookup_lt_Some in Hx. lia. }
        rewrite Hb in *. f_equal. destruct (finite x), b; naive_solver.
      - symmetry. apply lookup_ge_None. apply lookup_ge_None in Hx. lia. }
    assert (Hkc : (Z.to_nat k <= count (finite <$> conf))%nat)
      by (rewrite Hcf, count_nonzero; lia).
    assert (Hkl : (Z.to_nat k <= length conf)%nat).
    { pose proof (count_le (finite <$> conf)). rewrite length_fmap in *. lia. }
    split_and!; [apply topk_NoDup|by apply topk_length|].
    intros i Hi. destruct (lookup_lt_is_Some_2 conf i) as [x Hx]; [by eapply topk_lookup|].
    apply (Hfin i x Hx). by eapply topk_all_finite.
  - destruct (String.eqb _ "random").
    + set (n := length (nonzero act)) in *. pose proof (Hperm r n) as Hpm.
      assert (Hnd : NoDup (take (Z.to_nat k) (randperm r n))).
      { eapply sublist_NoDup; [|apply sublist_take]. rewrite Hpm. apply NoDup_seq. }
      assert (Hin : forall q, q ∈ take (Z.to_nat k) (randperm r n) -> (q < n)%nat).
      { intros q Hq. apply elem_of_take in Hq as (z & Hz & _).
        apply list_elem_of_lookup_2 in Hz. rewrite Hpm, elem_of_seq in Hz. lia. }
      unfold gather. split_and!.
      * apply NoDup_fmap_2_strong; [|done]. intros q q' Hq Hq' Heq.
        apply (NoDup_lookup (nonzero act) q q' (nonzero act !!! q)); [apply NoDup_nonzero|..].
        -- apply list_lookup_lookup_total_lt. by apply Hin.
        -- rewrite Heq. apply list_lookup_lookup_total_lt. by apply Hin.
      * rewrite length_fmap, length_take, (Permutation_length Hpm), length_seq. lia.
      * intros i (q & -> & Hq)%list_elem_of_fmap. apply elem_of_nonzero.
        eapply list_elem_of_lookup_2, list_lookup_lookup_total_lt. by apply Hin.
    + split_and!.
      * eapply sublist_NoDup; [apply NoDup_nonzero|apply sublist_take].
      * rewrite length_take. lia.
      * intros i Hi. apply elem_of_nonzero. apply elem_of_take in Hi as (q & Hq & _).
        by eapply list_elem_of_lookup_2.
Qed.

(** ** Predictions and confidence *)

Lemma confidence_spec k rows cur freeze :
  length rows = length cur -> length freeze = length cur -> Forall drawable rows ->
  let mask := eq_mask msk cur in
  let c := compute_confidence self k rows mask cur freeze in
  length c.1 = length cur /\ length c.2 = length cur /\
  (forall i x, c.2 !! i = Some x -> finite x = true <-> active_mask mask freeze !! i = Some true) /\
  (forall i, cur !! i = Some msk -> exists t, c.1 !! i = Some t /\ t <> msk).
Proof.
  intros Hlr Hlf Hd mask. cbn zeta. unfold compute_confidence. fold (active_mask mask freeze).
  set (xs := imap _ rows). set (ps := zip_with _ rows xs).
  assert (Hlx : length xs = length cur) by (unfold xs; by rewrite length_imap).
  assert (Hlp : length ps = length cur) by (unfold ps; rewrite length_zip_with; lia).
  assert (Hlm : length mask = length cur) by apply length_eq_mask.
  assert (Hla : length (active_mask mask freeze) = length cur)
    by (unfold active_mask; rewrite length_zip_with; lia).
  assert (Hx : forall i row, rows !! i = Some row ->
    exists x, xs !! i = Some x /\ Z.of_nat x <> msk /\ (x < length row)%nat).
  { intros i row Hi. unfold xs. rewrite list_lookup_imap, Hi. cbn. eexists. split; [done|].
    apply drawn_not_mask. by eapply Forall_lookup_1 in Hd. }
  cbn [fst snd]. split_and!.
  - rewrite length_where; rewrite ?length_fmap; congruence.
  - rewrite length_where; rewrite ?length_replicate; congruence.
  - intros i x. rewrite lookup_where.
    destruct (active_mask mask freeze !! i) as [a|] eqn:Ha; [|done].
    destruct (ps !! i) as [q|] eqn:Hq; [|done].
    rewrite lookup_replicate_2 by (by apply lookup_lt_Some in Hq). intros [= <-].
    destruct a; [|done]. split; [done|intros _].
    unfold ps in Hq. rewrite lookup_zip_with in Hq.
    destruct (rows !! i) as [row|] eqn:Hr; [|done]. destruct (Hx i row Hr) as (x & Hxi & _ & Hlt).
    rewrite Hxi in Hq. cbn in Hq. injection Hq as <-.
    rewrite <- softmax_length in Hlt. destruct (lookup_lt_is_Some_2 _ _ Hlt) as [y Hy].
    rewrite (list_lookup_total_correct _ _ _ Hy). by eapply softmax_finite.
  - intros i Hi. pose proof (lookup_lt_Some _ _ _ Hi) as Hlt.
    destruct (lookup_lt_is_Some_2 rows i ltac:(lia)) as [row Hr].
    destruct (Hx i row Hr) as (x & Hxi & Hne & _).
    exists (Z.of_nat x). split; [|done]. rewrite lookup_where.
    assert (mask !! i = Some true) as -> by (by apply eq_mask_true).
    by rewrite list_lookup_fmap, Hxi, Hi.
Qed.

(** ** EOS bookkeeping inside a block *)

(** Nothing stays masked at or after a generated EOS. *)
Definition eos_clean (gs : nat) (l : list Z) : Prop :=
  forall e i j, eos_id = Some e -> (gs <= i)%nat -> l !! i = Some e -> (i <= j)%nat ->
    l !! j <> Some msk.

(** Masks are in the generated region. *)
Definition gen_masks (gs : nat) (l : list Z) : Prop :=
  forall i, l !! i = Some msk -> (gs <= i)%nat.

Lemma length_freeze l gs : length (eos_freeze_of self l gs) = length l.
Proof.
  unfold eos_freeze_of. destruct eos_id; [|apply length_replicate].
  destruct (first_true _); [apply length_imap|apply length_replicate].
Qed.

Lemma first_true_Some l i :
  first_true l = Some i -> l !! i = Some true /\ forall j, l !! j = Some true -> (i <= j)%nat.
Proof.
  unfold first_true. intros Hh. destruct (nonzero l) as [|i' r] eqn:Hn; [done|].
  injection Hh as ->. split.
  - apply elem_of_nonzero. rewrite Hn. left.
  - intros j Hj. apply elem_of_nonzero in Hj.
    assert (Hs : StronglySorted lt (nonzero l)).
    { unfold nonzero. assert (Hseq : forall a n, StronglySorted lt (seq a n)).
      { intros a n. revert a. induction n as [|n IH]; intros a; cbn; constructor; [done|].
        apply Forall_forall. intros x Hx%elem_of_seq. lia. }
      generalize (Hseq 0%nat (length l)). generalize (seq 0 (length l)).
      intros sq. induction 1 as [|x sq Hsq IH HF]; [constructor|].
      rewrite filter_cons. case_decide; [|done]. constructor; [done|].
      apply Forall_forall. intros y [_ Hy]%list_elem_of_filter. rewrite Forall_forall in HF. auto. }
    rewrite Hn in Hs, Hj. apply elem_of_cons in Hj as [->|Hj]; [done|].
    apply StronglySorted_inv in Hs as [_ HF]. rewrite Forall_forall in HF.
    apply HF in Hj. lia.
Qed.

Lemma first_true_None l : first_true l = None -> any l = false.
Proof.
  unfold first_true. intros Hh. apply any_false. intros i Hi%elem_of_nonzero.
  by destruct (nonzero l); [apply elem_of_nil in Hi|].
Qed.

Lemma freeze_no_mask gs l i :
  eos_clean gs l -> l !! i = Some msk -> eos_freeze_of self l gs !! i = Some false.
Proof.
  intros Hc Hi. pose proof (lookup_lt_Some _ _ _ Hi) as Hlt. unfold eos_freeze_of.
  destruct eos_id as [e|] eqn:He; [|by apply lookup_replicate_2].
  destruct (first_true _) as [f|] eqn:Hf; [|by apply lookup_replicate_2].
  rewrite list_lookup_imap, Hi. cbn. f_equal. apply bool_decide_eq_false. intros Hle.
  apply first_true_Some in Hf as [Hf _]. rewrite list_lookup_imap, fmap_Some in Hf.
  destruct Hf as (t & Ht & Hb). symmetry in Hb. rewrite !andb_true_iff, bool_decide_eq_true in Hb.
  destruct Hb as [[Hgs _] Hte]. apply Z.eqb_eq in Hte as ->.
  by eapply (Hc e f i).
Qed.

Lemma active_is_mask gs l :
  eos_clean gs l -> active_mask (eq_mask msk l) (eos_freeze_of self l gs) = eq_mask msk l.
Proof.
  intros Hc. apply list_eq. intros i. unfold active_mask. rewrite lookup_zip_with, lookup_eq_mask.
  destruct (l !! i) as [t|] eqn:Ht; cbn; [|done].
  destruct (lookup_lt_is_Some_2 (eos_freeze_of self l gs) i) as [f Hf].
  { rewrite length_freeze. by apply lookup_lt_Some in Ht. }
  rewrite Hf. cbn. destruct (Z.eqb_spec t msk) as [->|]; [|done].
  rewrite (freeze_no_mask gs l i Hc Ht) in Hf. by injection Hf as <-.
Qed.

(** ** Frames: what recording leaves alone *)

(** A grid of [n] rows of [block_size] cells. *)
Definition gshape (n : nat) (o : option grid) : Prop :=
  forall g, o = Some g -> length g = n /\ Forall (fun row => length row = bs) g.

Record frame (s s' : fd_state) : Prop := {
  fr_ids : ids s' = ids s;
  fr_fin : finished s' = finished s;
  fr_log : log s' = log s;
  fr_active : req_steps_active s' = req_steps_active s;
  fr_fml : fully_masked_logits s' = fully_masked_logits s;
  fr_lp : is_Some (lp_grid s') <-> is_Some (lp_grid s);
  fr_shape n : gshape n (lp_grid s) -> gshape n (lp_grid s');
  fr_ent n : gshape n (ent_grid s) -> gshape n (ent_grid s');
}.

#[local] Instance frame_preorder : PreOrder frame.
Proof.
  split; [by intros s; split|].
  intros s1 s2 s3 [? ? ? ? ? ? ? ?] [? ? ? ? ? ? ? ?].
  split; [congruence..|by etransitivity|auto|auto].
Qed.

Lemma length_scatter {A} (l : list A) idx vals : length (scatter l idx vals) = length l.
Proof.
  unfold scatter. generalize (zip idx vals). intros z. revert l.
  induction z as [|[i v] z IH]; intros l; [done|]. cbn. by rewrite IH, length_insert.
Qed.

Lemma gshape_put n g b idx vals : gshape n (Some g) -> gshape n (Some (put_cells g b idx vals)).
Proof.
  intros Hg g' [= <-]. destruct (Hg g eq_refl) as [Hl HF]. unfold put_cells.
  split; [by rewrite length_insert|].
  destruct (decide (b < length g)%nat) as [Hb|Hb].
  - apply Forall_insert; [done|]. rewrite length_scatter.
    apply (Forall_lookup_1 (fun row : list (option score) => length row = bs) g b); [done|].
    by apply list_lookup_lookup_total_lt.
  - by rewrite list_insert_ge by lia.
Qed.

Definition record_cs (b : nat) (idx : list nat) (step : Z) (cs : option (list (list Z))) :=
  (fun g => put_cells g b idx (replicate (length idx) step)) <$> cs.

Lemma put_cells_nil {A} (g : list (list A)) b vals : put_cells g b [] vals = g.
Proof.
  unfold put_cells, scatter. cbn. destruct (decide (b < length g)%nat).
  - apply list_insert_id, list_lookup_lookup_total_lt. done.
  - by apply list_insert_ge; lia.
Qed.

Lemma record_logprobs_frame b idx lg toks s :
  frame s (record_token_logprobs self b idx lg toks s) /\
  cs_grid (record_token_logprobs self b idx lg toks s) = cs_grid s.
Proof.
  unfold record_token_logprobs. destruct (lp_grid s) as [g|] eqn:Hlp; [|by split].
  case_bool_decide; [by split|]. split; [|done].
  split; cbn [set_grids ids finished log req_steps_active fully_masked_logits lp_grid ent_grid];
    rewrite ?Hlp; try done.
  - intros n Hg. by apply gshape_put.
  - intros n Hg. destruct (ent_grid s) as [e|]; [|done]. by apply gshape_put.
Qed.

Lemma record_step_frame b idx step s :
  frame s (record_step b idx step s) /\
  cs_grid (record_step b idx step s) = record_cs b idx step (cs_grid s).
Proof. done. Qed.

(** ** Committing and propagating inside a block *)

Section place.
Variables (gs : nat) (l x0 : list Z) (top : list nat).
Hypothesis Hclean : eos_clean gs l.
Hypothesis Hgen : gen_masks gs l.
Hypothesis Htop : forall i, i ∈ top -> l !! i = Some msk.
Hypothesis Hnd : NoDup top.
Hypothesis Hx0 : forall i, l !! i = Some msk -> exists t, x0 !! i = Some t /\ t <> msk.

Let l1 := assign_at l top x0.

Lemma placed_mask i : l1 !! i = Some msk <-> l !! i = Some msk /\ i ∉ top.
Proof.
  unfold l1. rewrite lookup_assign_at. case_decide as Hd.
  - destruct Hd as [Hin Hlt]. destruct (Hx0 i (Htop i Hin)) as (t & Ht & Hne).
    rewrite (list_lookup_total_correct _ _ _ Ht). naive_solver.
  - split; [|by intros [? _]]. intros Hi. split; [done|]. intros Hin. apply Hd. split; [done|].
    by apply lookup_lt_Some in Hi.
Qed.

Lemma placed_keeps : keeps msk l l1.
Proof.
  split; [apply length_assign_at|]. intros i t Hi Hne. unfold l1. rewrite lookup_assign_at.
  case_decide as Hd; [|done]. destruct Hd as [Hin _]. apply Htop in Hin. congruence.
Qed.

Lemma propagate_spec step b lg s :
  let r := propagate_eos self step b gs top lg l1 s in
  exists prop, 
    keeps msk l r.1 /\ eos_clean gs r.1 /\
    (forall i, r.1 !! i = Some msk <-> l !! i = Some msk /\ i ∉ top ++ prop) /\
    (forall i, i ∈ prop -> l1 !! i = Some msk) /\
    frame s r.2 /\ cs_grid r.2 = record_cs b prop (Z.of_nat step) (cs_grid s).
Proof.
  destruct Hids as (_ & Hem & _).
  assert (Hrefl : forall s, cs_grid s = record_cs b [] (Z.of_nat step) (cs_grid s)).
  { intros s'. unfold record_cs. destruct (cs_grid s'); cbn; [|done]. by rewrite put_cells_nil. }
  assert (Hl1c : forall e, eos_id = Some e ->
    (forall i, i ∈ top -> l1 !! i <> Some e) -> eos_clean gs l1).
  { intros e He Hno e' i j He' Hgi Hi Hij Hj. assert (e' = e) as -> by congruence.
    apply placed_mask in Hj as [Hj _]. eapply (Hclean e i j); [done..| |done|done].
    unfold l1 in Hi. rewrite lookup_assign_at in Hi. case_decide as Hd; [|done].
    destruct Hd as [Hin Hlt]. destruct (Hno i Hin). unfold l1.
    by rewrite lookup_assign_at, decide_True. }
  unfold propagate_eos. destruct eos_id as [e|] eqn:He.
  2:{ exists []. cbn. rewrite app_nil_r. split_and!; [apply placed_keeps| |apply placed_mask|set_solver|done|apply Hrefl].
      intros e' i j He'. congruence. }
  destruct (existsb _ _) eqn:Hex.
  2:{ exists []. cbn. rewrite app_nil_r. split_and!; [apply placed_keeps| |apply placed_mask|set_solver|done|apply Hrefl].
      apply (Hl1c e eq_refl). intros i Hi Hie. apply not_true_iff_false in Hex. apply Hex.
      apply existsb_exists. exists i. split; [|by apply bool_decide_eq_true].
      apply list_elem_of_In, list_elem_of_filter. split; [by apply Hgen, Htop|done]. }
  apply existsb_exists in Hex as (i0 & Hi0 & Hie0). apply list_elem_of_In, list_elem_of_filter in Hi0.
  destruct Hi0 as [Hgi0 _]. apply bool_decide_eq_true in Hie0.
  destruct (first_true (eq_mask e (drop gs l1))) as [k|] eqn:Hft.
  2:{ apply first_true_None, any_eq_mask_false in Hft. destruct Hft.
      eapply (list_elem_of_lookup_2 _ (i0 - gs)). rewrite lookup_drop, <- Hie0. f_equal. lia. }
  apply first_true_Some in Hft as [Hk Hmin]. rewrite eq_mask_true, lookup_drop in Hk.
  set (f := (gs + k)%nat) in *.
  assert (Hfirst : forall i, (gs <= i < f)%nat -> l1 !! i <> Some e).
  { intros i Hi Hie. specialize (Hmin (i - gs)%nat). rewrite eq_mask_true, lookup_drop in Hmin.
    replace (gs + (i - gs))%nat with i in Hmin by lia. specialize (Hmin Hie). lia. }
  set (l2 := take f l1 ++ _).
  assert (Hl2 : forall i, l2 !! i =
    if decide (f <= i)%nat then (fun t => if t =? msk then e else t) <$> l1 !! i else l1 !! i).
  { intros i. unfold l2. assert (Hflt : (f < length l1)%nat) by (by apply lookup_lt_Some in Hk).
    case_decide.
    - rewrite lookup_app_r by (rewrite length_take; lia).
      rewrite list_lookup_fmap, lookup_drop, length_take. do 2 f_equal. lia.
    - rewrite lookup_app_l by (rewrite length_take; lia). by apply lookup_take_lt; lia. }
  set (prop := (fun i => i + f)%nat <$> nonzero (eq_mask msk (drop f l1))).
  assert (Hprop : forall i, i ∈ prop <-> (f <= i)%nat /\ l1 !! i = Some msk).
  { intros i. unfold prop. rewrite list_elem_of_fmap. split.
    - intros (j & -> & Hj%elem_of_nonzero). rewrite eq_mask_true, lookup_drop in Hj.
      split; [lia|]. rewrite <- Hj. f_equal. lia.
    - intros [Hfi Hi]. exists (i - f)%nat. split; [lia|].
      rewrite elem_of_nonzero, eq_mask_true, lookup_drop, <- Hi. f_equal. lia. }
  assert (Hmask2 : forall i, l2 !! i = Some msk <-> l1 !! i = Some msk /\ i ∉ prop).
  { intros i. rewrite Hl2, Hprop. case_decide; [|naive_solver lia].
    destruct (l1 !! i) as [t|]; cbn; [|naive_solver].
    destruct (Z.eqb_spec t msk) as [->|]; naive_solver. }
  exists prop. split_and!; cbn [fst snd].
  - transitivity l1; [apply placed_keeps|]. split.
    + unfold l2. rewrite length_app, length_fmap, length_take, length_drop.
      apply lookup_lt_Some in Hk. lia.
    + intros i t Hi Hne. rewrite Hl2, Hi. cbn. case_decide; [|done].
      destruct (Z.eqb_spec t msk); done.
  - intros e' i j He' Hgi Hi Hij Hj. assert (e' = e) as -> by congruence.
    apply Hmask2 in Hj as [Hj Hnp]. destruct (decide (f <= j)%nat) as [|Hfj].
    { apply Hnp, Hprop. done. }
    rewrite Hl2, decide_False in Hi by lia. apply (Hfirst i); [lia|done].
  - intros i. rewrite Hmask2, placed_mask, elem_of_app. naive_solver.
  - intros i. by intros [_ ?]%Hprop.
  - destruct (any _) eqn:Ha; [|done]. fold prop.
    etransitivity; [apply record_logprobs_frame|apply record_step_frame].
  - destruct (any _) eqn:Ha.
    + fold prop. destruct (record_logprobs_frame b prop lg (replicate (length prop) e) s) as [_ Hcs].
      cbn. by rewrite Hcs.
    + assert (prop = []) as ->; [|apply Hrefl].
      apply elem_of_nil_inv. intros i [Hfi Hi]%Hprop.
      apply any_eq_mask_false in Ha. destruct Ha. eapply (list_elem_of_lookup_2 _ (i - f)).
      rewrite lookup_drop, <- Hi. f_equal. lia.
Qed.

End place.

Lemma masks_minus l l2 idx :
  NoDup idx -> length l2 = length l ->
  (forall i, i ∈ idx -> l !! i = Some msk /\ l2 !! i <> Some msk) ->
  (forall i, l2 !! i = Some msk -> l !! i = Some msk) ->
  (num_masks msk l2 + length idx <= num_masks msk l)%nat.
Proof.
  intros Hnd Hlen Hidx Hsub. unfold num_masks. rewrite !count_nonzero, <- length_app.
  apply submseteq_length, NoDup_submseteq.
  - apply NoDup_app. split_and!; [apply NoDup_nonzero| |done].
    intros i Hi%elem_of_nonzero Hin. apply eq_mask_true in Hi. by apply Hidx in Hin as [_ ?].
  - intros i. rewrite elem_of_app, !elem_of_nonzero, !eq_mask_true.
    intros [Hi|Hi]; [auto|by apply Hidx].
Qed.

(** ** One request's step *)

Lemma lookup_scatter_const {A} (l : list A) idx v i :
  scatter l idx (replicate (length idx) v) !! i =
    if decide (i ∈ idx /\ (i < length l)%nat) then Some v else l !! i.
Proof.
  unfold scatter. revert l. induction idx as [|j idx IH]; intros l; cbn.
  - rewrite decide_False; [done|]. by intros [?%elem_of_nil _].
  - rewrite IH, length_insert. destruct (decide (i < length l)%nat) as [Hlt|Hge].
    + destruct (decide (i ∈ idx)).
      * rewrite !decide_True; [done|set_solver..].
      * rewrite decide_False by naive_solver. destruct (decide (j = i)) as [->|].
        -- rewrite list_lookup_insert_eq by done. rewrite decide_True; [done|set_solver].
        -- rewrite list_lookup_insert_ne by done. rewrite decide_False; [done|set_solver].
    + rewrite !decide_False by naive_solver.
      rewrite !lookup_ge_None_2; rewrite ?length_insert; [done|lia..].
Qed.

(** The commit steps of a block: undefined exactly where it is masked. *)
Definition cs_ok (gs : nat) (ub : Z) (l : list Z) (cs : option (list Z)) : Prop :=
  forall row, cs = Some row -> length row = bs /\
    forall i c, (gs <= i)%nat -> row !! i = Some c ->
      (c = -1 <-> l !! i = Some msk) /\ -1 <= c < ub.

Record blk (orig : list Z) (gs : nat) (ub : Z) (bound : nat) (fin : bool)
    (cs : option (list Z)) (l : list Z) : Prop := {
  bk_len : length l = bs;
  bk_keeps : keeps msk orig l;
  bk_clean : eos_clean gs l;
  bk_gen : gen_masks gs l;
  bk_fin : fin = true -> msk ∉ l;
  bk_masks : (num_masks msk l <= bound)%nat;
  bk_cs : cs_ok gs ub l cs;
}.

Lemma cs_ok_record gs ub l l2 row idx (step : Z) :
  cs_ok gs ub l (Some row) -> ub <= step + 1 -> 0 <= step -> length l = bs -> length l2 = bs ->
  (forall i, l2 !! i = Some msk <-> l !! i = Some msk /\ i ∉ idx) ->
  cs_ok gs (step + 1) l2 (Some (scatter row idx (replicate (length idx) step))).
Proof.
  intros Hcs Hub Hst Hl Hl2 Hm r [= <-]. destruct (Hcs row eq_refl) as [Hlr Hrow].
  split; [by rewrite length_scatter|]. intros i c Hgi. rewrite lookup_scatter_const, Hm.
  case_decide as Hd.
  - intros [= <-]. destruct Hd as [Hin _]. split; [|lia]. naive_solver lia.
  - intros Hc. destruct (Hrow i c Hgi Hc) as [Hiff Hb]. split; [|lia]. rewrite Hiff.
    split; [|by intros [? _]]. intros Hi. split; [done|]. intros Hin. apply Hd.
    split; [done|]. apply lookup_lt_Some in Hc. lia.
Qed.

(** Configurations that commit at least one position per step, and those that
    spread the masks over the steps. *)
Definition always_progress : Prop :=
  selection_policy self = "leftmost"%string -> 1 <= default 1 (tokens_per_step self).
#[local] Instance always_progress_dec : Decision always_progress.
Proof. unfold always_progress. apply _. Defined.

Definition schedule_only : Prop :=
  selection_policy self <> "leftmost"%string /\ threshold self = None.
#[local] Instance schedule_only_dec : Decision schedule_only.
Proof. unfold schedule_only. apply _. Defined.

Lemma quota_spec step conf rem :
  (step < max_steps self)%nat -> (0 < rem)%nat ->
  let k := Z.min (tokens_this_step self step conf rem) (Z.of_nat rem) in
  (always_progress -> 1 <= k) /\
  (schedule_only -> S step = max_steps self -> k = Z.of_nat rem).
Proof.
  intros Hst Hrem. cbn zeta. unfold tokens_this_step.
  destruct (String.eqb_spec (selection_policy self) "leftmost") as [Hp|Hp].
  - split; [|by intros [? _]]. intros Hprog. specialize (Hprog Hp). lia.
  - destruct (threshold self) as [t|] eqn:Ht.
    + split; [lia|]. intros [_ ?]. congruence.
    + rewrite transfer_head by lia. cbn. unfold ceil_div. split.
      * intros _. pose proof (Z.div_le_lower_bound (Z.of_nat rem
          + (Z.of_nat (max_steps self) - Z.of_nat step) - 1)
          (Z.of_nat (max_steps self) - Z.of_nat step) 1). lia.
      * intros _ Hlast.
        replace (Z.of_nat (max_steps self) - Z.of_nat step) with 1 by lia.
        rewrite Z.div_1_r. lia.
Qed.

Definition next_bound (step bound : nat) : nat :=
  if decide (schedule_only /\ S step = max_steps self) then 0
  else if decide always_progress then bound - 1 else bound.

Lemma next_bound_le step bound : (next_bound step bound <= bound)%nat.
Proof. unfold next_bound. repeat case_decide; lia. Qed.

(** The block of one request before and after its step. *)
Lemma place_block orig gs (step : nat) bound fin cs l rows ks kr s b :
  blk orig gs (Z.of_nat step + 1) bound fin cs l -> msk ∈ l ->
  length rows = bs -> Forall row_ok rows -> (step < max_steps self)%nat ->
  let mask := eq_mask msk l in
  let freeze := eos_freeze_of self l gs in
  let c := compute_confidence self ks (sampling_logits_of self rows) mask l freeze in
  let rem := count (active_mask mask freeze) in
  let k := Z.min (tokens_this_step self step c.2 rem) (Z.of_nat rem) in
  let top := select_transfer_indices self kr c.2 mask freeze k in
  let r := propagate_eos self step b gs top rows (assign_at l top c.1) s in
  rem <> 0%nat /\ frame s r.2 /\
  exists prop, cs_grid r.2 = record_cs b prop (Z.of_nat step) (cs_grid s) /\
  forall fin', (fin' = true -> msk ∉ r.1) ->
  blk orig gs (Z.of_nat step + 1) (next_bound step bound) fin'
    ((fun row => scatter (scatter row top (replicate (length top) (Z.of_nat step)))
                   prop (replicate (length prop) (Z.of_nat step))) <$> cs) r.1.
Proof.
  intros [Hl Hk Hc Hg Hf Hm Hcs] Hin Hlr Hrows Hst mask freeze c rem k top r.
  assert (Hact : active_mask mask freeze = mask) by (by apply active_is_mask).
  assert (Hlf : length freeze = length l) by apply length_freeze.
  destruct (confidence_spec ks (sampling_logits_of self rows) l freeze)
    as (Hc1 & Hc2 & Hcf & Hcx); [|done|by apply sampling_drawable|].
  { unfold sampling_logits_of. destruct eos_id; [|congruence].
    destruct (eos_block_end_only self); rewrite ?length_imap; congruence. }
  fold mask in Hc1, Hc2, Hcf, Hcx. fold c in Hc1, Hc2, Hcf, Hcx.
  assert (Hrem : rem = num_masks msk l) by (unfold rem; by rewrite Hact).
  assert (Hrem0 : rem <> 0%nat) by (rewrite Hrem; intros Hz; by apply num_masks_0 in Hz).
  destruct (select_spec kr c.2 mask freeze k) as (Hnd & Hlen & Htop).
  { unfold mask. by rewrite length_eq_mask. }
  { unfold mask. by rewrite length_eq_mask. }
  { exact Hcf. }
  { unfold k. fold rem. lia. }
  fold top in Hnd, Hlen, Htop.
  assert (Htopm : forall i, i ∈ top -> l !! i = Some msk).
  { intros i Hi. apply Htop in Hi. rewrite Hact in Hi. by apply eq_mask_true. }
  destruct (propagate_spec gs l c.1 top Hc Hg Htopm Hnd Hcx step b rows s)
    as (prop & Hk2 & Hcl2 & Hm2 & Hprop & Hfr & Hcs2). fold r in Hk2, Hcl2, Hm2, Hfr, Hcs2.
  split_and!; [done..|]. exists prop. split; [done|]. intros fin' Hfin'.
  destruct Hk2 as [Hl2 Hkk2].
  assert (Hsub : forall i, r.1 !! i = Some msk -> l !! i = Some msk) by (intros i; by intros [? _]%Hm2).
  assert (Hle : (num_masks msk r.1 + length top <= num_masks msk l)%nat).
  { apply masks_minus; [done..| |done]. intros i Hi. split; [by apply Htopm|].
    rewrite Hm2, elem_of_app. naive_solver. }
  destruct (quota_spec step c.2 rem Hst ltac:(lia)) as [Hq1 Hq2]. fold k in Hq1, Hq2.
  split; [congruence| |done| |done| |].
  - transitivity l; [done|by split].
  - intros i Hi. by apply Hg, Hsub.
  - unfold next_bound. rewrite Hlen in Hle. case_decide as Hd.
    + destruct Hd as [Hd1 Hd2]. rewrite (Hq2 Hd1 Hd2) in Hle. lia.
    + case_decide as Hp; [|lia]. specialize (Hq1 Hp). lia.
  - destruct cs as [row|]; [|by intros ? ?]. cbn.
    assert (H1 : cs_ok gs (Z.of_nat step + 1) (assign_at l top c.1)
      (Some (scatter row top (replicate (length top) (Z.of_nat step))))).
    { eapply cs_ok_record; [exact Hcs|lia|lia|done|by rewrite length_assign_at|].
      apply placed_mask; done. }
    eapply cs_ok_record; [exact H1|lia|lia|by rewrite length_assign_at|congruence|].
    intros i. rewrite Hm2, (placed_mask l c.1 top Htopm Hcx), elem_of_app. naive_solver.
Qed.

(** What a request's step leaves alone outside its block. *)
Record quiet (s s' : fd_state) : Prop := {
  qt_log : log s' = log s;
  qt_active : req_steps_active s' = req_steps_active s;
  qt_fml : fully_masked_logits s' = fully_masked_logits s;
  qt_lp : is_Some (lp_grid s') <-> is_Some (lp_grid s);
}.

#[local] Instance quiet_preorder : PreOrder quiet.
Proof.
  split; [by intros s; split|]. intros s1 s2 s3 [? ? ? ?] [? ? ? ?].
  split; [congruence..|by etransitivity].
Qed.

(** ** The batch *)

Section batch.
Variables (n : nat) (orig : list Z).
Hypothesis Horig : length orig = (n * bs)%nat.

Let starts := (fun b => start_of self b orig) <$> seq 0 n.

Record sinv (ub : Z) (bound : nat -> nat) (s : fd_state) : Prop := {
  si_ids : length (ids s) = (n * bs)%nat;
  si_fin : length (finished s) = n;
  si_cs g : cs_grid s = Some g -> length g = n;
  si_lp : gshape n (lp_grid s);
  si_ent : gshape n (ent_grid s);
  si_blk b : (b < n)%nat ->
    blk (get_block bs b orig) (start_of self b orig) ub (bound b) (finished s !!! b)
      ((fun g => g !!! b) <$> cs_grid s) (get_block bs b (ids s));
}.

Lemma sinv_frame ub bound s s' :
  frame s s' -> cs_grid s' = cs_grid s -> sinv ub bound s -> sinv ub bound s'.
Proof.
  intros [Hi Hf _ _ _ _ Hs He] Hc [? ? ? ? ? Hb].
  split; rewrite ?Hi, ?Hf, ?Hc; auto.
Qed.

Lemma sinv_finish ub bound s b :
  (b < n)%nat -> msk ∉ get_block bs b (ids s) -> sinv ub bound s ->
  sinv ub bound (set_finished s (<[b := true]> (finished s))).
Proof.
  intros Hb Hno [? ? ? ? ? Hblk]. split; cbn; try done; [by rewrite length_insert|].
  intros b' Hb'. destruct (Hblk b' Hb') as [? ? ? ? ? ? ?]. split; try done.
  destruct (decide (b = b')) as [->|]; [done|]. by rewrite list_lookup_total_insert_ne.
Qed.

Lemma sinv_weaken ub ub' bound bound' s :
  ub <= ub' -> (forall b, (b < n)%nat -> (bound b <= bound' b)%nat) -> sinv ub bound s -> sinv ub' bound' s.
Proof.
  intros Hub Hbd [? ? ? ? ? Hblk]. split; try done. intros b Hb.
  destruct (Hblk b Hb) as [? ? ? ? ? ? Hcs]. specialize (Hbd b Hb). split; try done; [lia|].
  intros row Hrow. destruct (Hcs row Hrow) as [? Hr]. split; [done|].
  intros i c Hi Hc. destruct (Hr i c Hi Hc). split; [done|lia].
Qed.

Lemma starts_lookup b : (b < n)%nat -> starts !!! b = start_of self b orig.
Proof.
  intros Hb. apply list_lookup_total_correct. unfold starts.
  by rewrite list_lookup_fmap, lookup_seq_lt.
Qed.

(** Writing one block and its commit steps. *)
Lemma sinv_write_block ub bound bd' s s' b l2 (cs' : list Z -> list Z) :
  (b < n)%nat -> sinv ub bound s ->
  frame s s' -> cs_grid s' = (fun g => <[b := cs' (g !!! b)]> g) <$> cs_grid s ->
  length l2 = bs ->
  blk (get_block bs b orig) (start_of self b orig) ub bd' (finished s !!! b)
    (cs' <$> ((fun g => g !!! b) <$> cs_grid s)) l2 ->
  let s2 := set_ids s' (set_block bs b l2 (ids s')) in
  sinv ub (fun b' => if decide (b' = b) then bd' else bound b') s2 /\ quiet s s2.
Proof.
  intros Hb [Hi Hf Hc Hlp Hent Hblk] Hfr Hcs Hl2 Hnew s2.
  pose proof (fr_ids _ _ Hfr) as Hids'. pose proof (fr_fin _ _ Hfr) as Hfin'.
  split; [|by destruct Hfr; split].
  split; cbn; rewrite ?Hids', ?Hfin'.
  - by rewrite (length_set_block _ b n).
  - done.
  - intros g. rewrite Hcs, fmap_Some. intros (g0 & Hg0 & ->). rewrite length_insert. auto.
  - by apply (fr_shape _ _ Hfr).
  - by apply (fr_ent _ _ Hfr).
  - intros b' Hb'. rewrite Hcs. case_decide as Hd.
    + subst b'. rewrite (get_set_block_eq _ b n) by done.
      destruct (cs_grid s) as [g|] eqn:Hg; [|done]. cbn in Hnew |- *.
      rewrite list_lookup_total_insert_eq; [done|]. by rewrite (Hc g).
    + rewrite (get_set_block_ne _ b b' n) by done. specialize (Hblk b' Hb').
      destruct (cs_grid s) as [g|]; [|done]. cbn in Hblk |- *.
      by rewrite list_lookup_total_insert_ne.
Qed.

(** ... and possibly its flag. *)
Lemma sinv_write ub bound bd' s s' b l2 (cs' : list Z -> list Z) :
  (b < n)%nat -> sinv ub bound s ->
  frame s s' -> cs_grid s' = (fun g => <[b := cs' (g !!! b)]> g) <$> cs_grid s ->
  length l2 = bs ->
  (forall fin', (fin' = true -> msk ∉ l2) ->
    blk (get_block bs b orig) (start_of self b orig) ub bd' fin'
      (cs' <$> ((fun g => g !!! b) <$> cs_grid s)) l2) ->
  let s2 := set_ids s' (set_block bs b l2 (ids s')) in
  let s3 := if any (eq_mask msk l2) then s2 else set_finished s2 (<[b := true]> (finished s2)) in
  msk ∈ get_block bs b (ids s) ->
  sinv ub (fun b' => if decide (b' = b) then bd' else bound b') s3 /\ quiet s s3.
Proof.
  intros Hb Hinv Hfr Hcs Hl2 Hnew s2 s3 Hin.
  destruct (sinv_write_block ub bound bd' s s' b l2 cs') as [Hs2 Hq2]; try done.
  { apply Hnew. intros Ht. exfalso. by apply (bk_fin _ _ _ _ _ _ _ (si_blk _ _ _ Hinv b Hb)). }
  subst s3. destruct (any (eq_mask msk l2)) eqn:Hany; [done|].
  split; [|by destruct Hq2; split]. apply sinv_finish; [done| |done].
  cbn. rewrite (fr_ids _ _ Hfr), (get_set_block_eq _ b n); [by apply any_eq_mask_false|..|done|done].
  apply (si_ids _ _ _ Hinv).
Qed.

Lemma place_request_spec step bound s ci b logits :
  sinv (Z.of_nat step + 1) bound s -> (b < n)%nat -> (step < max_steps self)%nat ->
  length (get_block bs ci logits) = bs -> Forall row_ok (get_block bs ci logits) ->
  let s' := place_request self step starts logits s (ci, b) in
  sinv (Z.of_nat step + 1)
    (fun b' => if decide (b' = b) then next_bound step (bound b) else bound b') s' /\
  quiet s s'.
Proof.
  intros Hinv Hb Hst Hlr Hrows. cbn zeta. unfold place_request.
  pose proof (si_blk _ _ _ Hinv b Hb) as Hblk.
  set (l := get_block bs b (ids s)) in *.
  destruct (any (eq_mask msk l)) eqn:Hany.
  2:{ cbn. apply any_eq_mask_false in Hany. split; [|by split].
      assert (Hz : num_masks msk l = 0%nat) by (by apply num_masks_0).
      apply sinv_finish; [done..|]. destruct Hinv as [? ? ? ? ? Hbk]. split; try done.
      intros b' Hb'. case_decide as Hd; [|by apply Hbk].
      subst b'. fold l. destruct Hblk as [? ? ? ? ? ? ?]. split; try done. lia. }
  apply any_eq_mask in Hany. cbn [negb].
  rewrite (starts_lookup b Hb).
  set (gs := start_of self b orig) in *.
  set (rows := get_block bs ci logits) in *.
  pose proof (fun s1 => place_block _ gs step (bound b) _ _ l rows (rng s) (rng (tick_rng s))
    s1 b Hblk Hany Hlr Hrows Hst) as HP. cbn zeta in HP.
  rewrite (surjective_pairing (compute_confidence _ _ _ _ _ _)).
  fold (active_mask (eq_mask msk l) (eos_freeze_of self l gs)).
  set (c := compute_confidence _ _ _ _ _ _) in *.
  set (rem := count _) in *. set (k := Z.min _ _) in *.
  set (top := select_transfer_indices _ _ _ _ _ _) in *.
  destruct (Nat.eqb_spec rem 0) as [Hz|Hrem0]; [by destruct (HP s)|].
  set (s1 := record_step _ _ _ _).
  assert (Hfr1 : frame s s1).
  { unfold s1. etransitivity; [|apply record_step_frame].
    etransitivity; [|apply record_logprobs_frame]. by split. }
  assert (Hcs1 : cs_grid s1 = record_cs b top (Z.of_nat step) (cs_grid s)).
  { unfold s1. cbn. by rewrite (proj2 (record_logprobs_frame _ _ _ _ _)). }
  destruct (HP s1) as (_ & Hfr2 & prop & Hcs2 & Hnew).
  rewrite (surjective_pairing (propagate_eos _ _ _ _ _ _ _ _)).
  set (r := propagate_eos _ _ _ _ _ _ _ _) in *.
  assert (Hfr : frame s r.2) by (by transitivity s1).
  eapply (sinv_write _ bound _ s r.2 b r.1 (fun row =>
    scatter (scatter row top (replicate (length top) (Z.of_nat step)))
      prop (replicate (length prop) (Z.of_nat step)))); try done.
  - rewrite Hcs2, Hcs1. unfold record_cs, put_cells.
    destruct (cs_grid s) as [g|] eqn:Hg; [|done]. cbn. f_equal.
    pose proof (si_cs _ _ _ Hinv g Hg) as Hlg.
    assert (Hbg : (b < length g)%nat) by (rewrite Hlg; exact Hb).
    rewrite (list_lookup_total_insert_eq g b) by exact Hbg. by rewrite list_insert_insert_eq.
  - destruct (Hnew false) as [? _ _ _ _ _ _]; done.
Qed.

Definition mix (done : list nat) (b1 b2 : nat -> nat) (b : nat) : nat :=
  if decide (b ∈ done) then b1 b else b2 b.

Lemma place_all_spec step bound logits s k active :
  sinv (Z.of_nat step + 1) bound s -> (step < max_steps self)%nat ->
  Forall (fun b => (b < n)%nat) active ->
  (forall ci, (k <= ci < k + length active)%nat ->
     length (get_block bs ci logits) = bs /\ Forall row_ok (get_block bs ci logits)) ->
  NoDup active ->
  let s' := foldl (place_request self step starts logits) s (zip (seq k (length active)) active) in
  sinv (Z.of_nat step + 1) (mix active (fun b => next_bound step (bound b)) bound) s' /\
  quiet s s'.
Proof.
  intros Hinv Hst HF. revert k s bound Hinv.
  induction HF as [|b active Hb HF IH]; intros k s bound Hinv Hrows Hnd; cbn zeta.
  - cbn. split; [|done]. by apply (sinv_weaken (Z.of_nat step + 1) _ bound).
  - cbn [length seq zip zip_with foldl].
    destruct (Hrows k ltac:(cbn; lia)) as [Hlr Hrk].
    destruct (place_request_spec step bound s k b logits Hinv Hb Hst Hlr Hrk) as (H1 & Hq1).
    set (s1 := place_request _ _ _ _ _ _) in *. apply NoDup_cons in Hnd as [Hni Hnd].
    destruct (IH (S k) s1 _ H1) as (H2 & Hq2).
    { intros ci Hci. apply Hrows. cbn. lia. }
    { done. }
    split; [|by transitivity s1].
    eapply sinv_weaken; [done| |exact H2]. intros b' _. unfold mix.
    destruct (decide (b' = b)) as [->|Hne].
    + rewrite decide_False by done. rewrite decide_True by (left; done). done.
    + destruct (decide (b' ∈ active)).
      * rewrite decide_True by (by right). done.
      * rewrite decide_False by (by rewrite elem_of_cons; intros [?|?]). done.
Qed.

(** ** The denoising loop *)

Fixpoint bound_after (fuel step bound : nat) : nat :=
  match fuel with
  | O => bound
  | S fuel => bound_after fuel (S step) (next_bound step bound)
  end.

Lemma bound_after_progress fuel step bound :
  always_progress -> (bound_after fuel step bound <= bound - fuel)%nat.
Proof.
  intros Hp. revert step bound. induction fuel as [|fuel IH]; intros step bound; cbn; [lia|].
  specialize (IH (S step) (next_bound step bound)). unfold next_bound in *.
  repeat case_decide; done || lia.
Qed.

Lemma bound_after_schedule fuel step bound :
  schedule_only -> (0 < fuel)%nat -> (step + fuel)%nat = max_steps self ->
  bound_after fuel step bound = 0%nat.
Proof.
  intros Hs. revert step bound. induction fuel as [|fuel IH]; intros step bound Hf Hm; [lia|].
  cbn. destruct fuel as [|fuel].
  - cbn. unfold next_bound. rewrite decide_True; [done|]. split; [done|lia].
  - apply IH; lia.
Qed.

Lemma sinv_finished_zero ub bound s :
  sinv ub bound s -> sinv ub (fun b => if (finished s !!! b : bool) then 0%nat else bound b) s.
Proof.
  intros [? ? ? ? ? Hblk]. split; try done. intros b Hb.
  destruct (Hblk b Hb) as [? ? ? ? Hf ? ?]. split; try done.
  destruct (finished s !!! b); [|done]. specialize (Hf eq_refl). apply num_masks_0 in Hf. lia.
Qed.

Lemma elem_of_active s b :
  b ∈ active_indices s n <-> (b < n)%nat /\ finished s !!! b = false.
Proof. unfold active_indices. rewrite list_elem_of_filter, elem_of_seq. intuition lia. Qed.

Hypothesis Hmodel : model_ok.

(** The logits of the active requests' blocks, compacted or not. *)
Lemma forward_rows fb active k :
  batch_size fb = n -> length (input_ids fb) = (n * bs)%nat ->
  NoDup active -> Forall (fun a => (a < n)%nat) active ->
  let fb' := if (length active =? n)%nat then fb else compact_forward_batch bs fb active in
  forall ci, (ci < length active)%nat ->
    length (get_block bs ci (full_logits (model k fb'))) = bs /\
    Forall row_ok (get_block bs ci (full_logits (model k fb'))).
Proof.
  intros Hn Hl Hnd HF fb' ci Hci. destruct Hmodel as [Hsh Hrows].
  assert (Hlen : length (input_ids fb') = (length active * bs)%nat).
  { subst fb'. destruct (Nat.eqb_spec (length active) n) as [He|_]; [congruence|].
    cbn. by apply (lookup_compact bs (input_ids fb) n). }
  split.
  - apply (length_get_block _ _ (length active)); [|done]. by rewrite Hsh.
  - by apply Forall_take, Forall_drop.
Qed.

Lemma fd_denoise_spec fuel step fb bound s :
  batch_size fb = n -> (step + fuel)%nat = max_steps self ->
  sinv (Z.of_nat step) bound s ->
  let s' := denoise self fuel step starts fb s in
  sinv (Z.of_nat (max_steps self)) (fun b => bound_after fuel step (bound b)) s' /\
  (length (log s') <= length (log s) + fuel)%nat /\
  (is_Some (lp_grid s') <-> is_Some (lp_grid s)) /\
  exists tl, log s' = log s ++ tl.
Proof.
  intros Hn. revert step bound s. induction fuel as [|fuel IH]; intros step bound s Hst Hinv;
    cbn zeta.
  { cbn. split_and!; [|lia|done|by exists []; rewrite app_nil_r].
    by replace (max_steps self) with step by lia. }
  cbn [denoise]. rewrite Hn. set (active := active_indices s n) in *.
  apply sinv_finished_zero in Hinv.
  assert (HF : Forall (fun a => (a < n)%nat) active).
  { apply Forall_forall. intros b. by intros [? _]%elem_of_active. }
  assert (Hnd : NoDup active) by (apply NoDup_filter, NoDup_seq).
  case_bool_decide as Hact.
  { split_and!; [|lia|done|by exists []; rewrite app_nil_r].
    eapply sinv_weaken; [|  |exact Hinv]; [lia|]. intros b Hb. cbn beta.
    destruct (finished s !!! b) eqn:Hf; [lia|].
    assert (Hin : b ∈ active) by (by apply elem_of_active). rewrite Hact in Hin. set_solver. }
  set (s1 := set_active s _). set (cur := with_input_ids fb (ids s1)).
  set (fb' := if (length active =? n)%nat then cur else compact_forward_batch bs cur active).
  unfold counted_forward, forward.
  set (out := model (length (log s1)) fb').
  set (s2 := FDState _ _ _ _ _ _ _ _ _ _ _).
  set (s3 := if _ && _ && _ then set_fml s2 _ else s2).
  assert (Hq3 : log s3 = log s ++ [fb'] /\ (is_Some (lp_grid s3) <-> is_Some (lp_grid s)) /\
    sinv (Z.of_nat step) (fun b => if (finished s !!! b : bool) then 0%nat else bound b) s3).
  { subst s3. destruct (_ && _ && _); (split_and!; [done..|]);
      destruct Hinv as [? ? ? ? ? ?]; by split. }
  destruct Hq3 as (Hlog3 & Hlp3 & Hinv3).
  assert (Hrows : forall ci, (0 <= ci < 0 + length active)%nat ->
    length (get_block bs ci (full_logits out)) = bs /\
    Forall row_ok (get_block bs ci (full_logits out))).
  { intros ci Hci. apply (forward_rows cur active); try done; [|lia].
    cbn. apply (si_ids _ _ _ Hinv). }
  destruct (place_all_spec step _ (full_logits out) s3 0 active
    (sinv_weaken (Z.of_nat step) (Z.of_nat step + 1) _ _ s3 ltac:(lia) (fun _ _ => Nat.le_refl _) Hinv3)
    ltac:(lia) HF Hrows Hnd) as (Hinv4 & Hq4).
  set (s4 := foldl _ s3 _) in *.
  destruct (IH (S step) (fun b => next_bound step (bound b)) s4) as (H5 & Hl5 & Hlp5 & tl & Htl);
    [lia| |].
  { eapply sinv_weaken; [| |exact Hinv4]; [lia|]. intros b Hb. unfold mix. cbn beta.
    destruct (finished s !!! b) eqn:Hf.
    - rewrite decide_False by (unfold active; rewrite elem_of_active; naive_solver congruence). lia.
    - rewrite decide_True by (by apply elem_of_active). done. }
  split_and!.
  - exact H5.
  - rewrite (qt_log _ _ Hq4), Hlog3, length_app in Hl5. cbn in Hl5. lia.
  - rewrite Hlp5, (qt_lp _ _ Hq4). done.
  - exists ([fb'] ++ tl). by rewrite Htl, (qt_log _ _ Hq4), Hlog3, app_assoc.
Qed.

(** ** Force-commit *)

Lemma force_commit_idle logits s b :
  msk ∉ get_block bs b (ids s) -> force_commit self starts logits s b = s.
Proof. intros Hno. unfold force_commit. by apply any_eq_mask_false in Hno as ->. Qed.

(** The tokens committed are predictions with the mask column excluded. *)
Lemma forced_not_mask rows i row :
  Forall row_ok rows -> sampling_logits_of self (ban (mask_col self) <$> rows) !! i = Some row ->
  Z.of_nat (argmax row) <> msk.
Proof.
  intros HF Hi. destruct Hids as (Hp & Hem & Hpe).
  assert (Hrow : exists r j x, rows !! i = Some r /\ row !! j = Some x /\ finite x = true /\
    (forall y, row !! Z.to_nat msk = Some y -> y = NegInf)).
  { unfold sampling_logits_of in Hi.
    assert (Hban : forall r, rows !! i = Some r -> exists j x, ban (mask_col self) r !! j = Some x /\
      finite x = true /\ (forall e, eos_id = Some e -> Z.of_nat j <> e) /\
      (forall y, ban (mask_col self) r !! Z.to_nat msk = Some y -> y = NegInf)).
    { intros r Hr. destruct (Forall_lookup_1 _ _ _ _ HF Hr) as (j & x & Hj & Hx & Hm & He).
      exists j, x. unfold ban, mask_col. rewrite list_lookup_insert_ne by lia.
      split_and!; [done..|]. intros y Hy.
      by apply list_lookup_insert_Some in Hy as [(_ & <- & _)|[? _]]. }
    destruct eos_id as [e|] eqn:He; [destruct (eos_block_end_only self)|].
    - rewrite list_lookup_imap, list_lookup_fmap in Hi. destruct (rows !! i) as [r|] eqn:Hr; [|done].
      cbn in Hi. injection Hi as <-. destruct (Hban r eq_refl) as (j & x & Hj & Hx & Hje & Hm).
      specialize (Hje e eq_refl). specialize (Hpe e eq_refl).
      exists r, j, x. case_bool_decide; [|done]. unfold ban at 1 3.
      rewrite list_lookup_insert_ne by lia. split_and!; [done..|]. intros y Hy.
      apply list_lookup_insert_Some in Hy as [(_ & <- & _)|[_ Hy]]; [done|]. by apply Hm.
    - rewrite list_lookup_fmap in Hi. destruct (rows !! i) as [r|] eqn:Hr; [|done].
      cbn in Hi. injection Hi as <-. destruct (Hban r eq_refl) as (j & x & Hj & Hx & _ & Hm).
      by exists r, j, x.
    - rewrite list_lookup_fmap in Hi. destruct (rows !! i) as [r|] eqn:Hr; [|done].
      cbn in Hi. injection Hi as <-. destruct (Hban r eq_refl) as (j & x & Hj & Hx & _ & Hm).
      by exists r, j, x. }
  destruct Hrow as (r & j & x & _ & Hj & Hx & Hm). intros Heq.
  destruct (argmax_finite row j x Hj Hx) as (y & Hy & Hf).
  replace (argmax row) with (Z.to_nat msk) in Hy by lia. apply Hm in Hy as ->. done.
Qed.

Lemma force_commit_spec bound s logits b :
  sinv (Z.of_nat (max_steps self) + 1) bound s -> (b < n)%nat ->
  length logits = (n * bs)%nat -> Forall row_ok logits ->
  let s' := force_commit self starts logits s b in
  sinv (Z.of_nat (max_steps self) + 1) (fun b' => if decide (b' = b) then 0%nat else bound b') s' /\
  quiet s s'.
Proof.
  intros Hinv Hb Hll Hrows. cbn zeta. pose proof (si_blk _ _ _ Hinv b Hb) as Hblk.
  unfold force_commit. set (l := get_block bs b (ids s)) in *.
  destruct (any (eq_mask msk l)) eqn:Hany; cbn [negb].
  2:{ split; [|done]. apply any_eq_mask_false, num_masks_0 in Hany.
      destruct Hinv as [? ? ? ? ? Hbk]. split; try done. intros b' Hb'. case_decide; [|by apply Hbk].
      subst b'. fold l. destruct Hblk as [? ? ? ? ? ? ?]. split; try done. lia. }
  rewrite (starts_lookup b Hb). set (gs := start_of self b orig) in *.
  destruct Hblk as [Hl Hk Hc Hg Hf Hm Hcs].
  fold (active_mask (eq_mask msk l) (eos_freeze_of self l gs)). rewrite active_is_mask by done.
  set (rows := get_block bs b logits).
  assert (Hlr : length rows = bs) by (by apply (length_get_block _ _ n)).
  assert (Hrr : Forall row_ok rows) by (by apply Forall_take, Forall_drop).
  set (x0 := _ <$> sampling_logits_of self _).
  assert (Hlx : length x0 = bs).
  { unfold x0. rewrite length_fmap. unfold sampling_logits_of. destruct eos_id; [|by rewrite length_fmap].
    destruct (eos_block_end_only self); rewrite ?length_imap; by rewrite length_fmap. }
  set (idx := nonzero (eq_mask msk l)).
  set (l2 := where_ (eq_mask msk l) x0 l).
  assert (Hl2 : length l2 = bs) by (unfold l2; rewrite length_where; rewrite length_eq_mask; congruence).
  assert (Hno : msk ∉ l2).
  { intros (i & Hi)%list_elem_of_lookup. unfold l2 in Hi. rewrite lookup_where, lookup_eq_mask in Hi.
    destruct (l !! i) as [t|]; [|done]. cbn in Hi. destruct (x0 !! i) as [x|] eqn:Hx; [|done].
    injection Hi as Heq. destruct (Z.eqb_spec t msk) as [|]; [|done]. subst x.
    unfold x0 in Hx. rewrite list_lookup_fmap, fmap_Some in Hx. destruct Hx as (row & Hr & Hx).
    by eapply forced_not_mask. }
  set (s1 := record_step _ _ _ _).
  assert (Hfr : frame s s1).
  { unfold s1. etransitivity; [|apply record_step_frame]. apply record_logprobs_frame. }
  assert (Hcs1 : cs_grid s1 = record_cs b idx (Z.of_nat (max_steps self)) (cs_grid s)).
  { unfold s1. cbn. by rewrite (proj2 (record_logprobs_frame _ _ _ _ _)). }
  assert (Hnew : blk (get_block bs b orig) gs (Z.of_nat (max_steps self) + 1) 0 (finished s !!! b)
      ((fun row => scatter row idx (replicate (length idx) (Z.of_nat (max_steps self)))) <$>
        ((fun g => g !!! b) <$> cs_grid s)) l2).
  { split; try done.
    - transitivity l; [done|]. split; [congruence|]. intros i t Hi Hne. unfold l2.
      rewrite lookup_where, lookup_eq_mask, Hi. cbn.
      destruct (lookup_lt_is_Some_2 x0 i) as [x ->]; [apply lookup_lt_Some in Hi; lia|].
      destruct (Z.eqb_spec t msk); done.
    - intros e i j _ _ _ _ Hj. by apply Hno; eapply list_elem_of_lookup_2.
    - intros i Hi. destruct Hno. by eapply list_elem_of_lookup_2.
    - apply num_masks_0 in Hno. lia.
    - destruct (cs_grid s) as [g|]; [|by intros ? ?]. cbn.
      eapply cs_ok_record; [exact Hcs|lia|lia|done|done|].
      intros i. unfold idx. rewrite elem_of_nonzero, eq_mask_true. split.
      + intros Hi. destruct Hno. by eapply list_elem_of_lookup_2.
      + by intros [? ?]. }
  eapply (sinv_write_block _ bound 0 s s1 b l2 (fun row =>
    scatter row idx (replicate (length idx) (Z.of_nat (max_steps self))))); try done.
Qed.

Lemma force_all_spec bound s logits :
  sinv (Z.of_nat (max_steps self) + 1) bound s ->
  length logits = (n * bs)%nat -> Forall row_ok logits ->
  let s' := foldl (force_commit self starts logits) s (seq 0 n) in
  sinv (Z.of_nat (max_steps self) + 1) (fun _ => 0%nat) s' /\ quiet s s' /\
  ((forall b, (b < n)%nat -> bound b = 0%nat) -> s' = s).
Proof.
  intros Hinv Hll Hrows. cbn zeta.
  enough (Hk : forall k, (k <= n)%nat ->
    let s' := foldl (force_commit self starts logits) s (seq 0 k) in
    sinv (Z.of_nat (max_steps self) + 1) (mix (seq 0 k) (fun _ => 0%nat) bound) s' /\ quiet s s' /\
    ((forall b, (b < n)%nat -> bound b = 0%nat) -> s' = s)).
  { destruct (Hk n) as (Hi & Hq & Hid); [done|]. split_and!; [|done..].
    eapply sinv_weaken; [| |exact Hi]; [lia|]. intros b Hb. unfold mix.
    by rewrite decide_True by (rewrite elem_of_seq; lia). }
  induction k as [|k IH]; intros Hkn; cbn zeta.
  { cbn. split_and!; [|done..]. eapply sinv_weaken; [| |exact Hinv]; [lia|]. intros b Hb. unfold mix.
    by rewrite decide_False by (by intros ?%elem_of_nil). }
  destruct IH as (Hi & Hq & Hid); [lia|]. rewrite seq_S, foldl_app. cbn [foldl plus].
  set (s1 := foldl _ s (seq 0 k)) in *.
  destruct (force_commit_spec _ s1 logits k Hi ltac:(lia) Hll Hrows) as [Hi' Hq'].
  split_and!.
  - eapply sinv_weaken; [| |exact Hi']; [lia|]. intros b Hb. unfold mix. cbn beta.
    destruct (decide (b = k)) as [->|]; [rewrite decide_True by (rewrite elem_of_app; set_solver); done|].
    destruct (decide (b ∈ seq 0 k)) as [Hin|Hin].
    + by rewrite decide_True by (rewrite elem_of_app; by left).
    + by rewrite decide_False by (rewrite elem_of_app; set_solver).
  - by transitivity s1.
  - intros Hz. rewrite (Hid Hz). apply force_commit_idle, num_masks_0.
    pose proof (bk_masks _ _ _ _ _ _ _ (si_blk _ _ _ Hinv k ltac:(lia))) as Hm.
    rewrite Hz in Hm by lia. lia.
Qed.

(** When the masks of a block lie at or after its start, they fill it from
    there on. *)
Lemma suffix_masks b i :
  (b < n)%nat -> gen_masks (start_of self b orig) (get_block bs b orig) ->
  (start_of self b orig <= i < bs)%nat -> get_block bs b orig !! i = Some msk.
Proof.
  intros Hb Hm Hi. set (l := get_block bs b orig) in *.
  assert (Hl : length l = bs) by (by apply (length_get_block _ _ n)).
  unfold start_of in *. fold l in Hm, Hi. set (gs := (bs - num_masks msk l)%nat) in *.
  assert (Hsub : nonzero (eq_mask msk l) ⊆+ seq gs (bs - gs)).
  { apply NoDup_submseteq; [apply NoDup_nonzero|]. intros j Hj%elem_of_nonzero.
    apply eq_mask_true in Hj. apply elem_of_seq. pose proof (Hm j Hj).
    apply lookup_lt_Some in Hj. lia. }
  pose proof (num_masks_le msk l) as Hle.
  assert (Hperm' : nonzero (eq_mask msk l) ≡ₚ seq gs (bs - gs)).
  { apply submseteq_length_Permutation; [done|]. rewrite length_seq.
    rewrite <- count_nonzero. fold (num_masks msk l). unfold gs. lia. }
  apply eq_mask_true, elem_of_nonzero. rewrite Hperm'. apply elem_of_seq. lia.
Qed.

(** A well-formed batch: whole blocks, each one prompt tokens then masks. *)
Record batch_ok (fb : forward_batch) : Prop := {
  bo_size : batch_size fb = n;
  bo_ids : input_ids fb = orig;
  bo_masks b : (b < n)%nat -> gen_masks (start_of self b orig) (get_block bs b orig);
}.

Lemma init_sinv fb lg r ng ne :
  batch_ok fb -> ids_ok -> sinv 0 (fun _ => bs) (init_state self fb lg r ng ne).
Proof.
  intros [Hn Hi Hm] (_ & Hem & _).
  assert (Hrep : forall (A : Type) (v : A) g, Some (full_grid n bs v) = Some g ->
    length g = n /\ Forall (fun row => length row = bs) g).
  { intros A v g [= <-]. unfold full_grid. rewrite length_replicate. split; [done|].
    apply Forall_replicate, length_replicate. }
  unfold init_state. rewrite Hn. split; cbn.
  - by rewrite Hi.
  - apply length_replicate.
  - intros g. destruct (_ && _); [|done]. intros Hg. by destruct (Hrep _ _ _ Hg).
  - intros g. destruct (return_logprob fb); [|done]. apply Hrep.
  - intros g. destruct (_ && _); [|done]. apply Hrep.
  - intros b Hb. rewrite Hi. specialize (Hm b Hb).
    assert (Hl : length (get_block bs b orig) = bs) by (by apply (length_get_block _ _ n)).
    split; try done.
    + (* a position from the start on holds the mask *)
      intros e i j He Hgi Hie Hij Hj.
      assert (Hmi : get_block bs b orig !! i = Some msk).
      { apply suffix_masks; [done..|]. apply lookup_lt_Some in Hie. lia. }
      apply Hem. congruence.
    + rewrite lookup_total_replicate_2 by done. done.
    + etrans; [apply num_masks_le|lia].
    + intros row Hrow. apply fmap_Some in Hrow as (g & Hg & ->).
      destruct (_ && _); [|done]. injection Hg as <-. unfold full_grid.
      rewrite lookup_total_replicate_2 by done. split; [apply length_replicate|].
      intros i c Hgi [-> Hlt]%lookup_replicate_1. split; [|lia]. split; [|done].
      intros _. by apply suffix_masks.
Qed.

Lemma decode_spec fb s :
  batch_ok fb -> sinv 0 (fun _ => bs) s ->
  let r := decode self fb s in
  sinv (Z.of_nat (max_steps self) + 1) (fun _ => 0%nat) r.2 /\
  (length (log r.2) <= length (log s) + max_steps self + 1)%nat /\
  (is_Some (lp_grid r.2) <-> is_Some (lp_grid s)) /\
  length (full_logits r.1) = (n * bs)%nat /\
  (schedule_only /\ (0 < max_steps self)%nat \/ always_progress /\ (bs <= max_steps self)%nat ->
   exists pre, log r.2 = pre ++ [if causal_context self
     then with_causal (with_input_ids fb (ids r.2)) true else with_input_ids fb (ids r.2)]).
Proof.
  intros [Hn Hi Hm] Hinv. cbn zeta. unfold decode. rewrite Hn, Hi. fold starts.
  destruct (fd_denoise_spec (max_steps self) 0 fb (fun _ => bs) s Hn eq_refl Hinv)
    as (H1 & Hl1 & Hlp1 & _).
  set (s1 := denoise _ _ _ _ _ _) in *.
  set (cur := if causal_context self then _ else _).
  assert (Hcl : length (input_ids cur) = (n * bs)%nat).
  { subst cur. destruct (causal_context self); cbn; apply (si_ids _ _ _ H1). }
  unfold counted_forward, forward. set (out := model (length (log s1)) cur).
  destruct Hmodel as [Hsh Hrows].
  assert (Hol : length (full_logits out) = (n * bs)%nat) by (unfold out; by rewrite Hsh).
  set (s2 := FDState _ _ _ _ _ _ _ _ _ _ _).
  assert (H2 : sinv (Z.of_nat (max_steps self) + 1)
    (fun b => bound_after (max_steps self) 0 bs) s2).
  { apply (sinv_weaken (Z.of_nat (max_steps self)) _ (fun b => bound_after (max_steps self) 0 bs));
      [lia|done|]. destruct H1 as [? ? ? ? ? ?]. by split. }
  destruct (force_all_spec _ s2 (full_logits out) H2 Hol (Hrows _ _)) as (H3 & Hq & Hid).
  cbn [fst snd]. set (s3 := foldl _ s2 (seq 0 n)) in *.
  pose proof (qt_log _ _ Hq) as Hlog. cbn in Hlog.
  split_and!; [done| | |done|].
  - rewrite Hlog, length_app. cbn. lia.
  - rewrite (qt_lp _ _ Hq). cbn. done.
  - intros Hcase. exists (log s1). rewrite Hid; [done|]. intros b Hb.
    destruct Hcase as [[Hs Hpos]|[Hp Hle]].
    + by apply bound_after_schedule.
    + pose proof (bound_after_progress (max_steps self) 0 bs Hp). lia.
Qed.

(** ** Assembling the output channels *)

Record passive (s s' : fd_state) : Prop := {
  pa_frame : frame s s';
  pa_cs : cs_grid s' = cs_grid s;
}.
#[local] Instance passive_preorder : PreOrder passive.
Proof.
  split; [by intros s; split|]. intros s1 s2 s3 [? ?] [? ?]. split; [by transitivity s2|congruence].
Qed.

Lemma passive_foldl {A} (f : fd_state -> A -> fd_state) l s :
  (forall s a, passive s (f s a)) -> passive s (foldl f s l).
Proof.
  intros Hf. revert s. induction l as [|a l IH]; intros s; [done|]. cbn.
  transitivity (f s a); auto.
Qed.

Lemma record_passive b idx lg toks s : passive s (record_token_logprobs self b idx lg toks s).
Proof. destruct (record_logprobs_frame b idx lg toks s). by split. Qed.

Lemma fully_masked_passive s : passive s (record_fully_masked self starts s).
Proof.
  unfold record_fully_masked. destruct (lp_grid s) as [g|] eqn:Hg; [|done].
  destruct (fully_masked_logits s); [|done].
  transitivity (set_grids s (Some ((fun row : list (option score) => replicate (length row) None) <$> g))
    (ent_grid s)).
  - split; [|done]. split; cbn; rewrite ?Hg; try done.
    intros m Hs g' [= <-]. destruct (Hs g eq_refl) as [Hl HF].
    rewrite length_fmap. split; [done|]. apply Forall_fmap. eapply Forall_impl; [exact HF|].
    intros row Hrow. cbn. by rewrite length_replicate.
  - apply passive_foldl. intros s' [b start]. case_bool_decide; [done|]. apply record_passive.
Qed.

Lemma fill_passive lg s b : passive s (fill_missing self starts lg s b).
Proof.
  unfold fill_missing. destruct (lp_grid s); [|done]. case_bool_decide; [done|].
  apply record_passive.
Qed.

Definition sent_ok (s : fd_state) : Prop :=
  forall b row, (b < n)%nat -> ((fun g => g !!! b) <$> cs_grid s) = Some row -> length row = bs.

Lemma mark_passive s b :
  gshape n (lp_grid s) -> sent_ok s -> (b < n)%nat -> passive s (mark_final_step s b).
Proof.
  intros Hg Hs Hb. unfold mark_final_step.
  destruct (cs_grid s) as [cs|] eqn:Hcs; [|done]. destruct (lp_grid s) as [g|] eqn:Hlp; [|done].
  destruct (any _); [|done]. split; [|done].
  split; cbn [set_grids ids finished log req_steps_active fully_masked_logits lp_grid ent_grid];
    rewrite ?Hlp; try done.
  intros m Hm g' [= <-]. destruct (Hm g eq_refl) as [Hl HF].
  destruct (Hg g eq_refl) as [Hl' _]. unfold grid in *.
  rewrite length_insert. split; [done|]. apply Forall_insert; [done|].
  assert (Hrow : length (cs !!! b) = bs) by (apply (Hs b); [done|by rewrite Hcs]).
  assert (Hgb : length (g !!! b) = bs).
  { apply (Forall_lookup_1 (fun row : list (option score) => length row = bs) g b); [done|].
    apply list_lookup_lookup_total_lt. lia. }
  rewrite length_where; rewrite ?length_replicate, ?length_zip_with, ?length_fmap; lia.
Qed.

(** Every generated position of request [b] has a logprob. *)
Definition scored (s : fd_state) (b : nat) : Prop :=
  forall g i, lp_grid s = Some g -> (start_of self b orig <= i < bs)%nat ->
    exists v, (g !!! b) !! i = Some (Some v).

Lemma scatter_some {A} (l : list (option A)) idx vals i :
  Forall is_Some vals ->
  ((exists v, l !! i = Some (Some v)) \/
   (i ∈ idx /\ length vals = length idx /\ (i < length l)%nat)) ->
  exists v, scatter l idx vals !! i = Some (Some v).
Proof.
  unfold scatter. revert l vals. induction idx as [|j idx IH]; intros l vals Hv Hc; cbn.
  { destruct Hc as [?|[Hn _]]; [done|set_solver]. }
  destruct vals as [|v vals]; cbn.
  { destruct Hc as [?|(_ & ? & _)]; done. }
  inversion Hv as [|? ? [w ->] Hvs]; subst. apply IH; [done|].
  destruct (decide (i = j)) as [->|Hne].
  - destruct (decide (j < length l)%nat).
    + left. exists w. by apply list_lookup_insert_eq.
    + exfalso. destruct Hc as [(x & Hx)|(_ & _ & ?)]; [apply lookup_lt_Some in Hx|]; lia.
  - rewrite list_lookup_insert_ne by done. destruct Hc as [?|(Hin & Hl & Hlt)]; [by left|right].
    rewrite length_insert. apply elem_of_cons in Hin as [?|?]; [done|].
    split_and!; [done|by injection Hl|done].
Qed.

Lemma record_scored b b' idx lg toks s :
  gshape n (lp_grid s) -> (b' < n)%nat -> scored s b -> scored (record_token_logprobs self b' idx lg toks s) b.
Proof.
  intros Hsh Hb' Hs g i. unfold record_token_logprobs. destruct (lp_grid s) as [g0|] eqn:Hg; [|congruence].
  case_bool_decide; [by apply Hs|]. cbn. intros [= <-] Hi. unfold put_cells, grid in *.
  destruct (Hsh g0 eq_refl) as [Hl _]. destruct (decide (b' = b)) as [->|].
  - rewrite list_lookup_total_insert_eq by lia. apply scatter_some; [|left; by apply Hs].
    apply Forall_lookup. intros k v Hk. rewrite lookup_zip_with in Hk.
    apply bind_Some in Hk as (x & _ & Hk). apply bind_Some in Hk as (t & _ & [= <-]). done.
  - rewrite list_lookup_total_insert_ne by done. by apply Hs.
Qed.

Lemma length_logprobs lg idx : length (token_logprobs self lg idx) = length idx.
Proof. unfold token_logprobs. apply length_fmap. Qed.

Lemma fill_scored lg s b :
  gshape n (lp_grid s) -> (b < n)%nat -> scored (fill_missing self starts lg s b) b.
Proof.
  intros Hsh Hb g i. unfold fill_missing. destruct (lp_grid s) as [g0|] eqn:Hg; [|congruence].
  destruct (Hsh g0 eq_refl) as [Hl HF]. rewrite (starts_lookup b Hb).
  set (gs := start_of self b orig). set (idx := _ <$> nonzero _).
  assert (Hrow : length (g0 !!! b) = bs).
  { apply (Forall_lookup_1 (fun row : list (option score) => length row = bs) g0 b); [done|].
    apply list_lookup_lookup_total_lt. unfold grid in *. lia. }
  assert (Hmiss : forall i, (gs <= i < bs)%nat -> i ∉ idx -> exists v, (g0 !!! b) !! i = Some (Some v)).
  { intros k Hk Hni. destruct (lookup_lt_is_Some_2 (g0 !!! b) k) as [[v|] Hv]; [lia|by exists v|].
    destruct Hni. unfold idx. apply list_elem_of_fmap. exists (k - gs)%nat. split; [lia|].
    rewrite elem_of_nonzero, list_lookup_fmap, lookup_drop.
    replace (gs + (k - gs))%nat with k by lia. by rewrite Hv. }
  case_bool_decide as Hi.
  { rewrite Hg. intros [= <-] Hk. apply Hmiss; [done|]. rewrite Hi. set_solver. }
  unfold record_token_logprobs. rewrite Hg. rewrite bool_decide_false by done. cbn.
  intros [= <-] Hk. unfold put_cells, grid in *. rewrite list_lookup_total_insert_eq by lia.
  apply scatter_some.
  - apply Forall_lookup. intros k v Hv. rewrite lookup_zip_with in Hv.
    apply bind_Some in Hv as (x & _ & Hv). apply bind_Some in Hv as (t & _ & [= <-]). done.
  - destruct (decide (i ∈ idx)) as [Hin|]; [right|left; by apply Hmiss].
    split_and!; [done| |lia]. rewrite length_zip_with, length_logprobs. unfold gather.
    rewrite length_fmap. lia.
Qed.

Lemma fill_all lg s :
  gshape n (lp_grid s) ->
  let s' := foldl (fill_missing self starts lg) s (seq 0 n) in
  forall b, (b < n)%nat -> scored s' b.
Proof.
  intros Hsh.
  enough (Hk : forall k, (k <= n)%nat -> forall b, (b < k)%nat ->
    scored (foldl (fill_missing self starts lg) s (seq 0 k)) b) by (intros s' b Hb; by apply Hk).
  induction k as [|k IH]; intros Hkn b Hb; [lia|]. rewrite seq_S, foldl_app. cbn [foldl plus].
  set (s1 := foldl _ s (seq 0 k)) in *.
  assert (Hsh1 : gshape n (lp_grid s1)).
  { assert (Hp : passive s s1) by (apply passive_foldl; intros; apply fill_passive).
    by apply (fr_shape _ _ (pa_frame _ _ Hp)). }
  destruct (decide (b = k)) as [->|]; [by apply fill_scored; [|lia]|].
  unfold fill_missing. destruct (lp_grid s1) eqn:Hg1; [|intros g0 i Hg0; congruence].
  case_bool_decide; [apply IH; lia|]. apply record_scored; [by rewrite Hg1|lia|apply IH; lia].
Qed.

Lemma mark_scored s b b' :
  gshape n (lp_grid s) -> sent_ok s -> (b' < n)%nat -> scored s b -> scored (mark_final_step s b') b.
Proof.
  intros Hsh Hs Hb' Hsc. unfold mark_final_step.
  destruct (cs_grid s) as [cs|] eqn:Hcs; [|done]. destruct (lp_grid s) as [g0|] eqn:Hg; [|done].
  destruct (any _); [|done]. intros g i. cbn. intros [= <-] Hi. unfold grid in *.
  destruct (Hsh g0 eq_refl) as [Hl HF].
  destruct (decide (b' = b)) as [->|]; [|rewrite list_lookup_total_insert_ne by done; by apply Hsc].
  rewrite list_lookup_total_insert_eq by lia.
  assert (Hrow : length (cs !!! b) = bs) by (apply (Hs b); [done|by rewrite Hcs]).
  destruct (Hsc g0 i Hg Hi) as [v Hv]. unfold grid in Hv. rewrite lookup_where, lookup_zip_with, list_lookup_fmap.
  destruct (lookup_lt_is_Some_2 (cs !!! b) i) as [c Hc]; [lia|].
  rewrite Hc, Hv, lookup_replicate_2 by lia. cbn -[Z.leb]. by destruct (_ && _); eexists.
Qed.

Lemma assemble_spec lg s :
  gshape n (lp_grid s) -> sent_ok s ->
  let s' := assemble_logprobs self starts n lg s in
  passive s s' /\ forall b, (b < n)%nat -> scored s' b.
Proof.
  intros Hsh Hsent. cbn zeta. unfold assemble_logprobs.
  set (s1 := if _ && _ then record_fully_masked _ _ s else s).
  assert (Hp1 : passive s s1) by (subst s1; destruct (_ && _); [apply fully_masked_passive|done]).
  set (s2 := foldl _ s1 _).
  assert (Hp2 : passive s s2).
  { transitivity s1; [done|]. apply passive_foldl. intros. apply fill_passive. }
  assert (Hsh1 : gshape n (lp_grid s1)) by (by apply (fr_shape _ _ (pa_frame _ _ Hp1))).
  assert (Hsh2 : gshape n (lp_grid s2)) by (by apply (fr_shape _ _ (pa_frame _ _ Hp2))).
  assert (Hsc2 : forall b, (b < n)%nat -> scored s2 b) by (by apply fill_all).
  assert (Hse2 : sent_ok s2) by (unfold sent_ok; by rewrite (pa_cs _ _ Hp2)).
  clearbody s2. destruct (_ && String.eqb _ "final_step"); [|by split].
  enough (Hk : forall k, (k <= n)%nat ->
    let s' := foldl mark_final_step s2 (seq 0 k) in
    passive s s' /\ gshape n (lp_grid s') /\ sent_ok s' /\ forall b, (b < n)%nat -> scored s' b).
  { destruct (Hk n) as (? & _ & _ & ?); [done|by split]. }
  induction k as [|k IH]; intros Hkn; cbn zeta; [by split_and!|].
  destruct IH as (Hp & Hg & Hs & Hsc); [lia|]. rewrite seq_S, foldl_app. cbn [foldl plus].
  set (s3 := foldl _ s2 (seq 0 k)) in *.
  pose proof (mark_passive s3 k Hg Hs ltac:(lia)) as Hpm. split_and!.
  - by transitivity s3.
  - by apply (fr_shape _ _ (pa_frame _ _ Hpm)).
  - unfold sent_ok. by rewrite (pa_cs _ _ Hpm).
  - intros b Hb. apply mark_scored; [done..|lia|by apply Hsc].
Qed.
End batch.

(** ** The whole run *)

(** Whole blocks, each one prompt tokens followed by masks. *)
Definition well_formed (fb : forward_batch) : Prop :=
  length (input_ids fb) = (batch_size fb * bs)%nat /\
  forall b, (b < batch_size fb)%nat ->
    gen_masks (start_of self b (input_ids fb)) (get_block bs b (input_ids fb)).

Lemma run_spec fb lg r ng ne :
  model_ok -> well_formed fb -> msk ∈ input_ids fb ->
  exists out s0 s1 res,
    run self fb lg r ng ne = Ok (res, s1) /\
    decode self fb (init_state self fb lg r ng ne) = (out, s0) /\
    s1 = (if bool_decide (is_Some (lp_grid s0))
          then assemble_logprobs self ((fun b => start_of self b (input_ids fb))
                 <$> seq 0 (batch_size fb)) (batch_size fb) (full_logits out) s0 else s0) /\
    next_token_ids res = zip_with drop ((fun b => start_of self b (input_ids fb))
                 <$> seq 0 (batch_size fb)) (blocks bs (batch_size fb) (ids s0)) /\
    next_token_logprobs res = zip_with drop ((fun b => start_of self b (input_ids fb))
                 <$> seq 0 (batch_size fb)) <$> lp_grid s1 /\
    next_token_reveal_steps res =
      (if bool_decide (is_Some (lp_grid s1)) && return_reveal_steps self
       then zip_with drop ((fun b => start_of self b (input_ids fb))
              <$> seq 0 (batch_size fb)) <$> cs_grid s1 else None) /\
    sinv (batch_size fb) (input_ids fb) (Z.of_nat (max_steps self) + 1) (fun _ => 0%nat) s0 /\
    ids s1 = ids s0 /\ log s1 = log s0.
Proof.
  intros Hmodel [Hlen Hwf] Hin. unfold run. apply any_eq_mask in Hin. rewrite Hin. cbn [negb].
  set (n := batch_size fb) in *. set (orig := input_ids fb) in *.
  set (s := init_state self fb lg r ng ne).
  assert (Hinit : sinv n orig 0 (fun _ => bs) s) by (by apply init_sinv).
  destruct (decode_spec n orig Hlen Hmodel fb s ltac:(by split) Hinit) as (Hdec & _ & _ & _ & _).
  destruct (decode self fb s) as [out s0] eqn:Hd. cbn [fst snd] in Hdec.
  rewrite (si_ids _ _ _ _ _ Hdec), Nat.eqb_refl. cbn [negb].
  set (s1 := if bool_decide (is_Some (lp_grid s0)) then _ else s0).
  assert (Hp : passive s0 s1).
  { subst s1. case_bool_decide; [|done]. apply (assemble_spec n orig Hlen Hmodel); [apply Hdec|].
    intros b row Hb Hrow. by apply (bk_cs _ _ _ _ _ _ _ (si_blk _ _ _ _ _ Hdec b Hb)). }
  exists out, s0, s1. eexists. split_and!; try done.
  - apply (fr_ids _ _ (pa_frame _ _ Hp)).
  - apply (fr_log _ _ (pa_frame _ _ Hp)).
Qed.

Lemma tokens_lookup fb (l : list Z) b :
  (b < batch_size fb)%nat ->
  zip_with drop ((fun b => start_of self b (input_ids fb)) <$> seq 0 (batch_size fb))
    (blocks bs (batch_size fb) l) !! b
  = Some (drop (start_of self b (input_ids fb)) (get_block bs b l)).
Proof.
  intros Hb. by rewrite lookup_zip_with, list_lookup_fmap, lookup_seq_lt, lookup_blocks by done.
Qed.

(** C7: FastDiffuser always terminates with the block decided, for every model,
    noise, selection policy, threshold and budget.  On a batch of blocks that
    each hold prompt tokens followed by masks, [run] succeeds with at most
    [max_steps + 1] more forwards; the final tokens keep every prompt token and
    contain no mask; and request [b] receives exactly the tokens of its
    generated region, one per mask it came with. *)
Theorem fast_diffuser_run fb lg r ng ne :
  model_ok -> well_formed fb -> msk ∈ input_ids fb ->
  exists res s,
    run self fb lg r ng ne = Ok (res, s) /\
    keeps msk (input_ids fb) (ids s) /\ msk ∉ ids s /\
    (length (log s) <= length lg + max_steps self + 1)%nat /\
    forall b, (b < batch_size fb)%nat ->
      next_token_ids res !! b
        = Some (drop (start_of self b (input_ids fb)) (get_block bs b (ids s))) /\
      length (next_token_ids res !!! b) = num_masks msk (get_block bs b (input_ids fb)).
Proof.
  intros Hmodel Hwf Hin.
  destruct (run_spec fb lg r ng ne Hmodel Hwf Hin)
    as (out & s0 & s1 & res & Hrun & Hd & _ & Htok & _ & _ & Hinv & Hi1 & Hl1).
  destruct Hwf as [Hlen Hwf].
  assert (Hinit : sinv (batch_size fb) (input_ids fb) 0 (fun _ => bs)
    (init_state self fb lg r ng ne)) by (by apply init_sinv).
  destruct (decode_spec (batch_size fb) (input_ids fb) Hlen Hmodel fb _ ltac:(by split) Hinit)
    as (_ & Hlog & _). rewrite Hd in Hlog. cbn [snd] in Hlog.
  exists res, s1. rewrite Hi1, Hl1. pose proof (si_ids _ _ _ _ _ Hinv) as Hl0. split_and!; [done| | |exact Hlog|].
  - apply (keeps_blocks msk bs (batch_size fb)); [done..|]. intros b Hb.
    by apply (bk_keeps _ _ _ _ _ _ _ (si_blk _ _ _ _ _ Hinv b Hb)).
  - apply (mask_blocks msk bs (batch_size fb)); [done|]. intros b Hb. apply num_masks_0.
    pose proof (bk_masks _ _ _ _ _ _ _ (si_blk _ _ _ _ _ Hinv b Hb)). lia.
  - intros b Hb. rewrite Htok. pose proof (tokens_lookup fb (ids s0) b Hb) as Hlk.
    split; [done|]. rewrite (list_lookup_total_correct _ _ _ Hlk), length_drop.
    rewrite (length_get_block _ _ (batch_size fb)) by done. unfold start_of.
    pose proof (num_masks_le msk (get_block bs b (input_ids fb))) as Hle.
    rewrite (length_get_block _ _ (batch_size fb)) in Hle by done. lia.
Qed.

(** C8: the KV cache matches the returned tokens, in two settings: a policy other
    than leftmost without a threshold and at least one step (the masks are then
    spread over the steps), or, for every policy, as many steps as the block has
    positions, where the leftmost policy has to reveal at least one token per
    step.  Then the last forward is run on exactly the final tokens, causally
    when [causal_context] asks for it. *)
Theorem fast_diffuser_kv fb lg r ng ne :
  model_ok -> well_formed fb -> msk ∈ input_ids fb ->
  schedule_only /\ (0 < max_steps self)%nat \/ always_progress /\ (bs <= max_steps self)%nat ->
  exists res s pre,
    run self fb lg r ng ne = Ok (res, s) /\
    log s = pre ++ [if causal_context self
      then with_causal (with_input_ids fb (ids s)) true else with_input_ids fb (ids s)].
Proof.
  intros Hmodel Hwf Hin Hcase.
  destruct (run_spec fb lg r ng ne Hmodel Hwf Hin)
    as (out & s0 & s1 & res & Hrun & Hd & _ & Htok & _ & _ & Hinv & Hi1 & Hl1).
  destruct Hwf as [Hlen Hwf].
  assert (Hinit : sinv (batch_size fb) (input_ids fb) 0 (fun _ => bs)
    (init_state self fb lg r ng ne)) by (by apply init_sinv).
  destruct (decode_spec (batch_size fb) (input_ids fb) Hlen Hmodel fb _ ltac:(by split) Hinit)
    as (_ & _ & _ & _ & Hkv). rewrite Hd in Hkv. destruct (Hkv Hcase) as (pre & Hpre).
  exists res, s1, pre. rewrite Hi1, Hl1. done.
Qed.

(** A block without masks has a commit step at every generated position. *)
Lemma cs_decided gs ub l row :
  cs_ok gs ub l (Some row) -> msk ∉ l ->
  length (drop gs row) = (bs - gs)%nat /\ Forall (fun c => 0 <= c < ub) (drop gs row).
Proof.
  intros Hcs Hno. destruct (Hcs row eq_refl) as [Hl Hc]. rewrite length_drop, Hl. split; [done|].
  apply Forall_lookup. intros i c Hi. rewrite lookup_drop in Hi. destruct (Hc (gs + i)%nat c) as [Hiff Hb]; [lia|done|].
  assert (c <> -1); [|lia]. intros ->. destruct Hno. eapply list_elem_of_lookup_2. by apply Hiff.
Qed.

(** The logprob row of a scored block. *)
Lemma scored_row n orig s b :
  gshape n (lp_grid s) -> is_Some (lp_grid s) -> (b < n)%nat -> scored orig s b ->
  exists g row, lp_grid s = Some g /\ g !! b = Some row /\ length row = bs /\ None ∉ drop (start_of self b orig) row.
Proof.
  intros Hsh [g Hg] Hb Hsc. destruct (Hsh g Hg) as [Hgl HgF]. unfold grid in *.
  destruct (lookup_lt_is_Some_2 g b ltac:(lia)) as [row Hrow].
  assert (Hrl : length row = bs) by (by eapply Forall_lookup_1 in HgF). exists g, row. split_and!; try done.
  intros (i & Hi)%list_elem_of_lookup. rewrite lookup_drop in Hi.
  destruct (Hsc g (start_of self b orig + i)%nat Hg) as [v Hv]; [apply lookup_lt_Some in Hi; lia|].
  unfold grid in Hv. rewrite (list_lookup_total_correct _ _ _ Hrow) in Hv. congruence.
Qed.

(** The output channels stay aligned.  When logprobs are asked for, every
    request receives one logprob per returned token, none of them missing; and
    when the commit steps are surfaced, one step per token, each between 0 and
    [max_steps] (the force-commit sentinel). *)
Theorem fast_diffuser_channels fb lg r ng ne res s b :
  model_ok -> well_formed fb -> msk ∈ input_ids fb -> return_logprob fb = true ->
  run self fb lg r ng ne = Ok (res, s) -> (b < batch_size fb)%nat ->
  exists toks lps,
    next_token_ids res !! b = Some toks /\
    (next_token_logprobs res ≫= (fun l => l !! b)) = Some lps /\
    length lps = length toks /\ None ∉ lps /\
    forall steps, (next_token_reveal_steps res ≫= (fun l => l !! b)) = Some steps ->
      length steps = length toks /\ Forall (fun c => 0 <= c <= Z.of_nat (max_steps self)) steps.
Proof.
  intros Hmodel Hwf Hin Hret Hrun' Hb.
  destruct (run_spec fb lg r ng ne Hmodel Hwf Hin)
    as (out & s0 & s1 & res' & Hrun & Hd & Hs1 & Htok & Hlp & Hrv & Hinv & Hi1 & Hl1).
  rewrite Hrun in Hrun'. injection Hrun' as -> ->.
  destruct Hwf as [Hlen Hwf]. set (gs := start_of self b (input_ids fb)).
  assert (Hinit : sinv (batch_size fb) (input_ids fb) 0 (fun _ => bs)
    (init_state self fb lg r ng ne)) by (by apply init_sinv).
  destruct (decode_spec (batch_size fb) (input_ids fb) Hlen Hmodel fb _ ltac:(by split) Hinit)
    as (_ & _ & Hlps & _). rewrite Hd in Hlps. cbn [snd] in Hlps.
  assert (Hsome : is_Some (lp_grid s0)) by (apply Hlps; cbn; by rewrite Hret).
  rewrite bool_decide_true in Hs1 by done.
  assert (Hsent : sent_ok (batch_size fb) s0).
  { intros b' row Hb' Hrow. by apply (bk_cs _ _ _ _ _ _ _ (si_blk _ _ _ _ _ Hinv b' Hb')). }
  destruct (assemble_spec (batch_size fb) (input_ids fb) Hlen Hmodel (full_logits out) s0
    (si_lp _ _ _ _ _ Hinv) Hsent) as [[Hfr Hcs] Hscored]. rewrite <- Hs1 in Hfr, Hcs, Hscored.
  destruct (scored_row (batch_size fb) (input_ids fb) s b (fr_shape _ _ Hfr _ (si_lp _ _ _ _ _ Hinv))
    ltac:(by apply (fr_lp _ _ Hfr)) Hb (Hscored b Hb)) as (g & row & Hg & Hrow & Hrl & Hnone). fold gs in Hnone. unfold grid in *.
  assert (Htl : length (drop gs (get_block bs b (ids s0))) = (bs - gs)%nat).
  { rewrite length_drop. erewrite length_get_block; [done|apply Hinv|done]. }
  exists (drop gs (get_block bs b (ids s0))), (drop gs row).
  rewrite Htok, Hlp, Hrv, Hg. rewrite bool_decide_true by done. cbn [fmap option_fmap option_map mbind option_bind andb].
  split_and!; [by apply tokens_lookup|by rewrite lookup_zip_with, list_lookup_fmap, lookup_seq_lt, Hrow by done
    |rewrite length_drop, Htl; lia|done|].
  destruct (return_reveal_steps self); [|done]. intros steps Hst.
  destruct (cs_grid s) as [cs|] eqn:Hc; [|done]. cbn in Hst.
  rewrite lookup_zip_with, list_lookup_fmap, lookup_seq_lt in Hst by done. cbn in Hst.
  pose proof (si_blk _ _ _ _ _ Hinv b Hb) as Hblk. rewrite <- Hcs in Hblk. cbn in Hblk.
  destruct (cs !! b) as [crow|] eqn:Hcrow; [|done]. cbn in Hst. injection Hst as <-.
  rewrite (list_lookup_total_correct _ _ _ Hcrow) in Hblk.
  destruct (cs_decided _ _ _ _ (bk_cs _ _ _ _ _ _ _ Hblk)) as [Hcl Hcf].
  { apply num_masks_0. pose proof (bk_masks _ _ _ _ _ _ _ Hblk). lia. }
  split; [by rewrite Hcl, Htl|]. eapply Forall_impl; [exact Hcf|]. cbn. lia.
Qed.
End proofs.

(** ** A concrete run *)

#[local] Instance demo_env : fd_env :=
  FDEnv (fun _ _ _ row => row) (fun _ row => row) (fun row => row) (fun _ => Fin 0) (Fin 1)
    (fun _ n => seq 0 n)
    (fun k fb => ForwardOut ((fun _ => [Fin 0; Fin 2; Fin 7; Fin 1]) <$> input_ids fb) true None)
    (Some 1).

Definition demo_self : fast_diffuser :=
  FastDiffuser 2 9 0 None 2 true "confidence" None "trajectory" true false false false.

Lemma demo_ok :
  ids_ok demo_self /\ gumbel_ok /\ randperm_ok /\ model_ok demo_self /\
  well_formed demo_self demo_fd_batch /\ 9 ∈ input_ids demo_fd_batch.
Proof.
  split_and!.
  - split_and!; cbn; [lia|done|]. by intros e [= <-].
  - intros k i t row j x Hj Hx. cbn. by eapply argmax_finite.
  - by intros k n.
  - split; [intros n fb; cbn; apply length_fmap|]. intros n fb. cbn.
    apply Forall_fmap, Forall_true. intros t. exists 2%nat, (Fin 7).
    split_and!; [done|done|done|]. by intros e [= <-].
  - split; [done|]. intros [|[|b]] Hb; [| |cbn in Hb; lia];
      intros [|[|i]] Hi; vm_compute in Hi; try done; vm_compute; lia.
  - cbn. set_solver.
Qed.

Lemma fast_diffuser_run_witness :
  exists res s, run demo_self demo_fd_batch [] 0 0 0 = Ok (res, s) /\ 9 ∉ ids s /\
    (length (log s) <= 3)%nat.
Proof.
  destruct demo_ok as (H1 & H2 & H3 & H4 & H5 & H6).
  destruct (fast_diffuser_run demo_self H1 H2 H3 demo_fd_batch [] 0 0 0 H4 H5 H6)
    as (res & s & Hrun & _ & Hno & Hl & _).
  exists res, s. split; [exact Hrun|]. split; [exact Hno|exact Hl].
Defined.

Lemma fast_diffuser_kv_witness :
  exists res s pre, run demo_self demo_fd_batch [] 0 0 0 = Ok (res, s) /\
    log s = pre ++ [with_causal (with_input_ids demo_fd_batch (ids s)) true].
Proof.
  destruct demo_ok as (H1 & H2 & H3 & H4 & H5 & H6).
  assert (Hs : schedule_only demo_self /\ (0 < max_steps demo_self)%nat)
    by (split; [by split|cbn; lia]).
  destruct (fast_diffuser_kv demo_self H1 H2 H3 demo_fd_batch [] 0 0 0 H4 H5 H6 (or_introl Hs))
    as (res & s & pre & Hrun & Hlog).
  exists res, s, pre. split; [exact Hrun|exact Hlog].
Defined.

Lemma fast_diffuser_channels_witness :
  exists res s toks lps, run demo_self demo_fd_batch [] 0 0 0 = Ok (res, s) /\
    next_token_ids res !! 0%nat = Some toks /\
    (next_token_logprobs res ≫= (fun l => l !! 0%nat)) = Some lps /\ length lps = length toks.
Proof.
  destruct demo_ok as (H1 & H2 & H3 & H4 & H5 & H6).
  destruct (run_spec demo_self H1 H2 H3 demo_fd_batch [] 0 0 0 H4 H5 H6)
    as (out & s0 & s & res & Hrun & _).
  destruct (fast_diffuser_channels demo_self H1 H2 H3 demo_fd_batch [] 0 0 0 res s 0%nat
    H4 H5 H6 eq_refl Hrun ltac:(cbn; lia)) as (toks & lps & Ht & Hp & Hl & _).
  exists res, s, toks, lps. split; [exact Hrun|]. split; [exact Ht|]. split; [exact Hp|exact Hl].
Defined.

Definition demo_threshold : fast_diffuser :=
  FastDiffuser 2 9 0 (Some (Fin 5)) 1 true "confidence" None "trajectory" true false false false.

Definition demo_masks : forward_batch :=
  ForwardBatch 1 [9; 9] [3] [2] [1; 2] 2 [0; 1] 2 [2] [0] [0] None None None true false.

(** The hypotheses of the previous guarantee are needed.  With a confidence
    threshold and fewer steps than masks, the positions left over are
    force-committed after the last forward: that forward, which writes the KV
    cache, still saw the mask token at a position whose returned token is
    another. *)
Theorem fast_diffuser_force_commit_kv :
  exists res s pre last,
    run demo_threshold demo_masks [] 0 0 0 = Ok (res, s) /\ log s = pre ++ [last] /\
    input_ids last = [2; 9] /\ ids s = [2; 2] /\ next_token_ids res = [[2; 2]].
Proof.
  destruct (run demo_threshold demo_masks [] 0 0 0) as [[res s]|e] eqn:Hrun; [|vm_compute in Hrun; done].
  vm_compute in Hrun. injection Hrun as <- <-.
  do 2 eexists. eexists [_], _. split_and!; reflexivity.
Qed.

(** So does the leftmost policy, which reveals [tokens_per_step] tokens per step
    whether or not there is a threshold. *)
Definition demo_leftmost : fast_diffuser :=
  FastDiffuser 2 9 0 None 1 true "leftmost" None "trajectory" true false false false.

Example leftmost_force_commit_kv :
  exists res s pre last,
    run demo_leftmost demo_masks [] 0 0 0 = Ok (res, s) /\ log s = pre ++ [last] /\
    input_ids last = [2; 9] /\ ids s = [2; 2].
Proof.
  destruct (run demo_leftmost demo_masks [] 0 0 0) as [[res s]|e] eqn:Hrun; [|vm_compute in Hrun; done].
  vm_compute in Hrun. injection Hrun as <- <-.
  do 2 eexists. eexists [_], _. split_and!; reflexivity.
Qed.
