(* ===== verification/LinearSpec.v ===== *)
(** * The LinearSpec algorithm (srt/dllm/algorithm/linear_spec.py)

    Two forwards per block: a bidirectional draft of the masked positions and a
    causal verification.  The longest prefix of drafts that agree with the
    causal predictions is accepted, the next causal prediction becomes the seed
    of the request's next block.  The main theorem is that the tokens handed
    out are exactly those of one-token-at-a-time greedy decoding. *)

From S2P Require Import Prelude Tensor ForwardBatch.

(** The model runner also depends on how many times the LoRA deltas are added
    to the weights. *)
Definition lora_model := Z -> model_runner.

(** The LoRA part of the state.  [deltas] is the number of tensors of
    [_lora_deltas] when loaded. *)
Record lora_state := LoraState {
  lora_path : bool;
  lora_mode : string;
  deltas : option nat;
  graphs_baked : bool;
  (** how often the deltas are currently added to the weights *)
  applied : Z;
}.

Definition set_deltas (st : lora_state) (d : option nat) : lora_state :=
  LoraState (lora_path st) (lora_mode st) d (graphs_baked st) (applied st).
Definition set_applied (st : lora_state) (a : Z) : lora_state :=
  LoraState (lora_path st) (lora_mode st) (deltas st) (graphs_baked st) a.

(** [_load_lora_deltas]: the checkpoint holds [n_file] delta tensors. *)
Definition load_lora_deltas (n_file : nat) (st : lora_state) : lora_state :=
  if bool_decide (is_Some (deltas st)) || negb (lora_path st) then st
  else set_deltas st (Some n_file).

(** [_bake_dual_weights_into_graphs], its effect on the state: with deferred
    capture the graphs are captured with the fused weights and the deltas
    dropped. *)
Definition bake_dual_weights_into_graphs (defer : bool) (st : lora_state) : lora_state :=
  if defer then LoraState (lora_path st) (lora_mode st) None true (applied st) else st.

Definition setup (n_file : nat) (has_graph_runner defer : bool) (st : lora_state) : lora_state :=
  if negb (lora_path st) then st
  else
    let st := load_lora_deltas n_file st in
    if bool_decide (default 0%nat (deltas st) <> 0%nat) && has_graph_runner
    then bake_dual_weights_into_graphs defer st else st.

(** ** State and helpers of [run] *)

Record ls_state := LSState {
  seed_tokens : gmap string Z;
  lora : lora_state;
  ls_log : fwd_log;
}.

Definition set_seeds (s : ls_state) (m : gmap string Z) : ls_state :=
  LSState m (lora s) (ls_log s).

(** [l[a : a + n]] *)
Definition sub {A} (a n : nat) (l : list A) : list A := take n (drop a l).

(** [matches.cumprod(0).sum()]: the number of leading matches. *)
Fixpoint leading (l : list bool) : nat :=
  match l with
  | true :: l => S (leading l)
  | _ => 0
  end.

(** The index of the first element equal to [e], if any. *)
Fixpoint find_token (e : Z) (l : list Z) : option nat :=
  match l with
  | [] => None
  | t :: l => if t =? e then Some 0%nat else S <$> find_token e l
  end.

Section linear_spec.
Variable block_size : nat.
Variable mask_id : Z.
Variable eos_id : option Z.
(** The float -1e9 written over the mask column. *)
Variable low : score.
Variable model : lora_model.
Variable n_file : nat.

Definition start_of (ids : list Z) (b : nat) : nat :=
  (block_size - num_masks mask_id (get_block block_size b ids))%nat.

(** Greedy tokens with the mask column pushed down; the write is in place, so
    the returned logits carry it. *)
Definition suppress (logits : list (list score)) : list (list score) :=
  (fun row => <[Z.to_nat mask_id := low]> row) <$> logits.
Definition greedy (logits : list (list score)) : list Z :=
  (fun row => Z.of_nat (argmax row)) <$> logits.

(** The seeds a prefill leaves: the argmax of the last-position logits. *)
Definition prefill_seeds (rids : list string) (out : forward_out) (seeds : gmap string Z)
    : gmap string Z :=
  match next_token_logits out with
  | None => seeds
  | Some rows =>
      foldl (fun m '(rid, row) => <[rid := Z.of_nat (argmax (ban (Z.to_nat mask_id) row))]> m)
        seeds (zip rids rows)
  end.

(** Seed injection at the first mask position. *)
Definition inject_seed (seeds : gmap string Z) (rids : list string) (start_list : list nat)
    (ids : list Z) (b : nat) : list Z :=
  match rids !! b ≫= (fun rid => seeds !! rid) with
  | Some seed =>
      let block_start := (b * block_size + start_list !!! b)%nat in
      if (block_start <? length ids)%nat then <[block_start := seed]> ids else ids
  | None => ids
  end.

(** ACCEPT for one request: the output before EOS truncation and the number
    [c] of matches. *)
Definition accept_block (ids ar_all : list Z) (b gen_start : nat) : list Z * nat :=
  let gen_len := (block_size - gen_start)%nat in
  let offset := (b * block_size + gen_start)%nat in
  let c :=
    if (1 <? gen_len)%nat then
      leading (zip_with Z.eqb (sub (offset + 1) (gen_len - 1) ids) (sub offset (gen_len - 1) ar_all))
    else 0%nat in
  (sub offset 1 ids ++ sub offset c ar_all, c).

Definition truncate_eos (out : list Z) : list Z :=
  match eos_id with
  | None => out
  | Some e => match find_token e out with Some i => take (S i) out | None => out end
  end.

(** The seed of the request's next block. *)
Definition next_seed (ar_all : list Z) (b gen_start c : nat) : Z :=
  let pos := (b * block_size + gen_start + c)%nat in
  if (pos <? b * block_size + block_size)%nat then ar_all !!! pos
  else ar_all !!! (b * block_size + block_size - 1)%nat.

Definition accept_one (ids ar_all : list Z) (rids : list string) (start_list : list nat)
    (acc : list (list Z) * gmap string Z) (b : nat) : list (list Z) * gmap string Z :=
  let gen_start := start_list !!! b in
  let '(out, c) := accept_block ids ar_all b gen_start in
  (acc.1 ++ [truncate_eos out],
   <[rids !!! b := next_seed ar_all b gen_start c]> acc.2).

(** Seeds of requests whose output ends in EOS are dropped. *)
Definition drop_finished (rids : list string) (outs : list (list Z)) (seeds : gmap string Z)
    (b : nat) : gmap string Z :=
  match eos_id, last (outs !!! b) with
  | Some e, Some t => if t =? e then delete (rids !!! b) seeds else seeds
  | _, _ => seeds
  end.

(** A forward under the current weights. *)
Definition lforward (fb : forward_batch) (s : ls_state) : forward_out * ls_state :=
  let '(out, log) := forward (model (applied (lora s))) fb (ls_log s) in
  (out, LSState (seed_tokens s) (lora s) log).

Definition add_deltas (d : Z) (s : ls_state) : ls_state :=
  LSState (seed_tokens s) (set_applied (lora s) (applied (lora s) + d)) (ls_log s).

Definition need_swap (st : lora_state) : bool :=
  bool_decide (is_Some (deltas st)) && negb (graphs_baked st).

Record ls_result := LSResult {
  ls_out : option forward_out;
  ls_tokens : list (list Z);
  ls_can_run_graph : bool;
}.

Definition run (rids : list string) (fb : forward_batch) (s : ls_state)
    : ls_result * forward_batch * ls_state :=
  let n := batch_size fb in
  if negb (any (eq_mask mask_id (input_ids fb))) then
    if bool_decide (input_ids fb = []) then (LSResult None [] false, fb, s)
    else
      let '(out, s) := lforward fb s in
      (LSResult (Some out) [] (can_run_graph out), fb,
       set_seeds s (prefill_seeds rids out (seed_tokens s)))
  else
    let start_list := start_of (input_ids fb) <$> seq 0 n in
    let ids := foldl (inject_seed (seed_tokens s) rids start_list) (input_ids fb) (seq 0 n) in
    let s := LSState (seed_tokens s) (load_lora_deltas n_file (lora s)) (ls_log s) in
    let swap := need_swap (lora s) in
    let s := if swap then add_deltas 1 s else s in
    let '(draft, s) := lforward (with_input_ids fb ids) s in
    let s := if swap && String.eqb (lora_mode (lora s)) "draft_only" then add_deltas (-1) s else s in
    let draft_all := greedy (suppress (full_logits draft)) in
    let ids := where_ (eq_mask mask_id ids) draft_all ids in
    let fb := with_input_ids fb ids in
    let '(out, s) := lforward (with_causal fb true) s in
    let fb := with_causal fb false in
    let s := if swap && String.eqb (lora_mode (lora s)) "both" then add_deltas (-1) s else s in
    let verify := suppress (full_logits out) in
    let ar_all := greedy verify in
    let '(outs, seeds) :=
      foldl (accept_one ids ar_all rids start_list) ([], seed_tokens s) (seq 0 n) in
    let seeds := foldl (drop_finished rids outs) seeds (seq 0 n) in
    (LSResult (Some (ForwardOut verify (can_run_graph out) (next_token_logits out))) outs
       (can_run_graph out),
     fb, set_seeds s seeds).
End linear_spec.

(** ** One-token-at-a-time greedy decoding, the reference *)

Fixpoint ar_decode (next : list Z -> Z) (ctx : list Z) (n : nat) : list Z :=
  match n with
  | O => []
  | S n => let t := next ctx in t :: ar_decode next (ctx ++ [t]) n
  end.

Lemma ar_decode_S next ctx n :
  ar_decode next ctx (S n) = ar_decode next ctx n ++ [next (ctx ++ ar_decode next ctx n)].
Proof.
  revert ctx. induction n as [|n IH]; intros ctx.
  - cbn. by rewrite app_nil_r.
  - change (ar_decode next ctx (S (S n)))
      with (next ctx :: ar_decode next (ctx ++ [next ctx]) (S n)).
    rewrite IH. cbn. by rewrite <- app_assoc.
Qed.

Lemma length_ar_decode next ctx n : length (ar_decode next ctx n) = n.
Proof. revert ctx. induction n as [|n IH]; intros ctx; cbn; auto. Qed.

(** ** Leading matches *)

Lemma leading_true l i : (i < leading l)%nat -> l !! i = Some true.
Proof. revert i. induction l as [|[] l IH]; intros [|i] Hi; cbn in *; try lia; auto with lia. Qed.

Lemma leading_le l : (leading l <= length l)%nat.
Proof. induction l as [|[] l IH]; cbn; lia. Qed.

Lemma leading_stop l : (leading l < length l)%nat -> l !! leading l = Some false.
Proof. induction l as [|[] l IH]; cbn; intros; try lia; auto with lia. Qed.

Lemma lookup_sub {A} (l : list A) a n i :
  sub a n l !! i = if decide (i < n)%nat then l !! (a + i)%nat else None.
Proof.
  unfold sub. case_decide.
  - by rewrite lookup_take_lt, lookup_drop by done.
  - by apply lookup_take_ge; lia.
Qed.

Lemma length_sub {A} (l : list A) a n : (a + n <= length l)%nat -> length (sub a n l) = n.
Proof. intros. unfold sub. rewrite length_take, length_drop. lia. Qed.

(** ** Acceptance of one block *)

Section accept.
Variables (bs gs : nat) (l ar : list Z) (next : list Z -> Z).
Hypothesis Hl : length l = bs.
Hypothesis Har : length ar = bs.
Hypothesis Hgs : (gs < bs)%nat.
(** The causal predictions: entry [i] continues the first [i + 1] tokens. *)
Hypothesis Hcausal : forall i, (i < bs)%nat -> ar !! i = Some (next (take (S i) l)).

Let gen_len := (bs - gs)%nat.
Let matches := zip_with Z.eqb (sub (gs + 1) (gen_len - 1) l) (sub gs (gen_len - 1) ar).
Let c := leading matches.
Let ctx := take (S gs) l.

Lemma matches_length : length matches = (gen_len - 1)%nat.
Proof. unfold matches, gen_len. rewrite length_zip_with, !length_sub by lia. lia. Qed.

Lemma c_bound : (gs + c < bs)%nat.
Proof. pose proof (leading_le matches) as Hle. rewrite matches_length in Hle. unfold c, gen_len in *. lia. Qed.

Lemma match_lookup j :
  (j < gen_len - 1)%nat -> exists d, l !! (gs + 1 + j)%nat = Some d /\
    matches !! j = Some (d =? next (take (S (gs + j)) l)).
Proof.
  intros Hj. unfold gen_len in Hj.
  destruct (lookup_lt_is_Some_2 l (gs + 1 + j)) as [d Hd]; [lia|].
  exists d. split; [done|]. unfold matches, gen_len.
  rewrite lookup_zip_with, !lookup_sub, !decide_True by lia.
  rewrite Hd, Hcausal by lia. done.
Qed.

(** The accepted tokens are the reference continuation of the seed. *)
Lemma accepted_prefix j :
  (j <= c)%nat -> take (S (gs + j)) l = ctx ++ ar_decode next ctx j.
Proof.
  induction j as [|j IH]; intros Hj.
  - cbn. by rewrite app_nil_r, Nat.add_0_r.
  - pose proof c_bound as Hcb. rewrite ar_decode_S, app_assoc, <- IH by lia.
    replace (S (gs + S j))%nat with (S (S (gs + j))) by lia.
    destruct (match_lookup j) as (d & Hd & Hm).
    { pose proof (leading_le matches) as Hle. rewrite matches_length in Hle. unfold c in Hj. lia. }
    rewrite (leading_true matches j) in Hm by (unfold c in Hj; lia). injection Hm as Hm.
    symmetry in Hm. apply Z.eqb_eq in Hm.
    replace (gs + 1 + j)%nat with (S (gs + j)) in Hd by lia.
    erewrite take_S_r by exact Hd. by rewrite Hm.
Qed.

Lemma accepted_tokens : sub gs c ar = ar_decode next ctx c.
Proof.
  pose proof c_bound as Hcb. apply list_eq. intros i. rewrite lookup_sub. case_decide as Hi.
  - rewrite Hcausal, accepted_prefix by lia.
    assert (Hpre : ar_decode next ctx (S i) `prefix_of` ar_decode next ctx c).
    { clear - Hi. revert Hi. generalize c. intros m Hi. induction m as [|m IH]; [lia|].
      destruct (decide (i = m)) as [->|]; [done|]. transitivity (ar_decode next ctx m); [apply IH; lia|].
      rewrite ar_decode_S. by apply prefix_app_r. }
    symmetry. eapply prefix_lookup_Some; [|exact Hpre]. rewrite ar_decode_S, lookup_app_r;
      rewrite length_ar_decode; [|done]. by rewrite Nat.sub_diag.
  - symmetry. apply lookup_ge_None. rewrite length_ar_decode. lia.
Qed.

Lemma accepted_next : ar !! (gs + c)%nat = Some (next (ctx ++ ar_decode next ctx c)).
Proof. pose proof c_bound. rewrite Hcausal by lia. by rewrite accepted_prefix. Qed.

(** [c] is maximal: the first draft not accepted differs from the prediction. *)
Lemma accepted_maximal d :
  (S c < gen_len)%nat -> l !! (gs + 1 + c)%nat = Some d ->
  d <> next (ctx ++ ar_decode next ctx c).
Proof.
  intros Hc Hd. destruct (match_lookup c) as (d' & Hd' & Hm); [lia|].
  assert (d' = d) as -> by congruence. unfold c in Hm at 1.
  rewrite leading_stop in Hm by (rewrite matches_length; fold c; lia). injection Hm as Hm.
  symmetry in Hm. apply Z.eqb_neq in Hm. by rewrite <- accepted_prefix.
Qed.
End accept.

(** ** The batch *)

Section batch.
Variable block_size : nat.
Variable mask_id : Z.
Variable eos_id : option Z.
Variable low : score.
Variable model : lora_model.
Variable n_file : nat.

Notation bs := block_size.
Notation start b ids := (start_of block_size mask_id ids b).

(** Some token other than the mask token scores above the suppressed column. *)
Definition row_ok (row : list score) : Prop :=
  exists j x, row !! j = Some x /\ Z.of_nat j <> mask_id /\ score_ltb low x = true.

Definition model_ok : Prop :=
  forall a, model_shaped (model a) /\
    forall n fb, Forall row_ok (full_logits (model a n fb)).

Lemma suppressed_not_mask row :
  0 <= mask_id -> row_ok row -> Z.of_nat (argmax (<[Z.to_nat mask_id := low]> row)) <> mask_id.
Proof.
  intros Hm (j & x & Hj & Hne & Hlt) Heq.
  set (row' := <[Z.to_nat mask_id := low]> row) in *.
  assert (Hj' : row' !! j = Some x) by (unfold row'; rewrite list_lookup_insert_ne; [done|lia]).
  destruct (argmax_spec row') as (y & Hy & Hmax); [by destruct row'|].
  replace (argmax row') with (Z.to_nat mask_id) in Hy by lia.
  assert (y = low) as ->.
  { unfold row' in Hy. rewrite list_lookup_insert_eq in Hy; [congruence|].
    apply lookup_lt_Some in Hy. by rewrite length_insert in Hy. }
  specialize (Hmax j x Hj'). unfold score_ltb in Hlt. by rewrite Hmax in Hlt.
Qed.

Lemma greedy_not_mask logits i t :
  0 <= mask_id -> Forall row_ok logits ->
  greedy (suppress mask_id low logits) !! i = Some t -> t <> mask_id.
Proof.
  intros Hm HF. unfold greedy, suppress. rewrite !list_lookup_fmap.
  destruct (logits !! i) as [row|] eqn:Hr; [|done]. cbn. intros [= <-].
  apply suppressed_not_mask; [done|]. by eapply Forall_lookup_1 in HF.
Qed.

Lemma length_greedy logits : length (greedy (suppress mask_id low logits)) = length logits.
Proof. unfold greedy, suppress. by rewrite !length_fmap. Qed.

(** Whole blocks, each one prompt tokens followed by at least one mask. *)
Record batch_ok (rids : list string) (fb : forward_batch) : Prop := {
  bo_len : length (input_ids fb) = (batch_size fb * bs)%nat;
  bo_rids : length rids = batch_size fb;
  bo_nodup : NoDup rids;
  bo_start b : (b < batch_size fb)%nat -> (start b (input_ids fb) < bs)%nat;
  bo_prompt b i : (b < batch_size fb)%nat ->
    get_block bs b (input_ids fb) !! i = Some mask_id <->
    (start b (input_ids fb) <= i < bs)%nat;
}.

(** The seeds are tokens. *)
Definition seeds_ok (m : gmap string Z) : Prop := forall rid t, m !! rid = Some t -> t <> mask_id.

Lemma insert_block (ids : list Z) n b i v :
  length ids = (n * bs)%nat -> (b < n)%nat -> (i < bs)%nat ->
  <[(b * bs + i)%nat := v]> ids = set_block bs b (<[i := v]> (get_block bs b ids)) ids.
Proof.
  intros Hl Hb Hi. pose proof (block_bound bs b n Hb) as Hbd.
  pose proof (length_get_block bs b n ids Hl Hb) as Hlb.
  apply list_eq. intros j. unfold set_block. destruct (decide (j < b * bs)%nat).
  - rewrite list_lookup_insert_ne by lia. rewrite lookup_app_l by (rewrite length_take; lia).
    by rewrite lookup_take_lt.
  - rewrite lookup_app_r by (rewrite length_take; lia). rewrite length_take.
    replace (j - min (b * bs) (length ids))%nat with (j - b * bs)%nat by lia.
    destruct (decide (j < b * bs + bs)%nat).
    + rewrite lookup_app_l by (rewrite length_insert; lia).
      destruct (decide (j = b * bs + i)%nat) as [->|].
      * replace (b * bs + i - b * bs)%nat with i by lia.
        rewrite !list_lookup_insert_eq by lia. done.
      * rewrite !list_lookup_insert_ne by lia. rewrite lookup_get_block, decide_True by lia.
        f_equal. lia.
    + rewrite list_lookup_insert_ne by lia. rewrite lookup_app_r by (rewrite length_insert; lia).
      rewrite length_insert, Hlb, lookup_drop. f_equal. lia.
Qed.

Definition seed_of (m : gmap string Z) (rids : list string) (b : nat) : option Z :=
  rids !! b ≫= (fun rid => m !! rid).

(** After injection the first masked position of a block holds its seed. *)
Lemma inject_spec rids fb m :
  batch_ok rids fb ->
  let ids' := foldl (inject_seed bs m rids (start_of bs mask_id (input_ids fb) <$> seq 0 (batch_size fb)))
                (input_ids fb) (seq 0 (batch_size fb)) in
  length ids' = (batch_size fb * bs)%nat /\
  forall b, (b < batch_size fb)%nat ->
    get_block bs b ids' =
      match seed_of m rids b with
      | Some t => <[start b (input_ids fb) := t]> (get_block bs b (input_ids fb))
      | None => get_block bs b (input_ids fb)
      end.
Proof.
  intros Hok. set (n := batch_size fb). set (starts := _ <$> seq 0 n).
  apply (fold_blocks bs n _ (fun b old new => new =
    match seed_of m rids b with
    | Some t => <[start b (input_ids fb) := t]> old | None => old end)); [|apply (bo_len _ _ Hok)].
  intros b l Hb Hl. unfold inject_seed. fold (seed_of m rids b).
  destruct (seed_of m rids b) as [t|]; [|done].
  assert (Hst : starts !!! b = start b (input_ids fb)).
  { apply list_lookup_total_correct. unfold starts. by rewrite list_lookup_fmap, lookup_seq_lt. }
  pose proof (bo_start _ _ Hok b Hb) as Hgs. pose proof (block_bound bs b n Hb) as Hbd.
  rewrite Hst. destruct (Nat.ltb_spec (b * bs + start b (input_ids fb))%nat (length l)); [|lia].
  rewrite (insert_block l n) by done.
  assert (Hlb : length (<[start b (input_ids fb) := t]> (get_block bs b l)) = bs)
    by (rewrite length_insert; by apply (length_get_block _ _ n)).
  split_and!.
  - by rewrite (length_set_block _ b n).
  - intros b' Hne. by apply (get_set_block_ne _ b b' n).
  - by apply (get_set_block_eq _ b n).
Qed.

(** After the draft nothing is masked. *)
Lemma draft_spec rids fb m logits :
  0 <= mask_id -> batch_ok rids fb -> seeds_ok m -> Forall row_ok logits ->
  length logits = (batch_size fb * bs)%nat ->
  let ids1 := foldl (inject_seed bs m rids (start_of bs mask_id (input_ids fb) <$> seq 0 (batch_size fb)))
                (input_ids fb) (seq 0 (batch_size fb)) in
  let ids2 := where_ (eq_mask mask_id ids1) (greedy (suppress mask_id low logits)) ids1 in
  length ids2 = (batch_size fb * bs)%nat /\ keeps mask_id (input_ids fb) ids2 /\ mask_id ∉ ids2 /\
  forall b t, (b < batch_size fb)%nat -> seed_of m rids b = Some t ->
    get_block bs b ids2 !! start b (input_ids fb) = Some t.
Proof.
  intros Hm Hok Hseeds Hrows Hll ids1 ids2. set (n := batch_size fb) in *.
  destruct (inject_spec rids fb m Hok) as [Hl1 Hb1]. fold n ids1 in Hl1, Hb1.
  set (drafts := greedy (suppress mask_id low logits)) in *.
  assert (Hld : length drafts = (n * bs)%nat) by (unfold drafts; by rewrite length_greedy).
  assert (Hl2 : length ids2 = (n * bs)%nat)
    by (unfold ids2; rewrite length_where; rewrite length_eq_mask; congruence).
  assert (Hlk : forall p, ids2 !! p = match ids1 !! p with
    | Some t => if t =? mask_id then drafts !! p else Some t | None => None end).
  { intros p. unfold ids2. rewrite lookup_where, lookup_eq_mask.
    destruct (ids1 !! p) as [t|] eqn:Hp; [|done]. cbn.
    destruct (lookup_lt_is_Some_2 drafts p) as [d ->]; [apply lookup_lt_Some in Hp; lia|].
    by destruct (t =? mask_id). }
  assert (Hkeep : keeps mask_id ids1 ids2).
  { split; [congruence|]. intros p t Hp Hne. rewrite Hlk, Hp.
    by destruct (Z.eqb_spec t mask_id). }
  split_and!; [done| | |].
  - transitivity ids1; [|done]. apply (keeps_blocks mask_id bs n); [apply (bo_len _ _ Hok)|done|].
    intros b Hb. rewrite Hb1 by done. destruct (seed_of m rids b) as [t|]; [|done].
    split; [by rewrite length_insert|]. intros i x Hi Hx.
    rewrite list_lookup_insert_ne; [done|]. intros <-. apply Hx.
    pose proof (bo_start _ _ Hok b Hb). destruct (bo_prompt _ _ Hok b (start b (input_ids fb)) Hb) as [_ Hp].
    rewrite Hp in Hi by lia. congruence.
  - intros (p & Hp)%list_elem_of_lookup. rewrite Hlk in Hp.
    destruct (ids1 !! p) as [t|]; [|done]. destruct (Z.eqb_spec t mask_id).
    + by eapply greedy_not_mask.
    + congruence.
  - intros b t Hb Hs. pose proof (bo_start _ _ Hok b Hb) as Hgs.
    assert (Hpos : ids1 !! (b * bs + start b (input_ids fb))%nat = Some t).
    { pose proof (Hb1 b Hb) as Hblk. rewrite Hs in Hblk.
      assert (Hg : get_block bs b ids1 !! start b (input_ids fb) = Some t).
      { rewrite Hblk. apply list_lookup_insert_eq.
        rewrite (length_get_block bs b n); [done|apply (bo_len _ _ Hok)|done]. }
      by rewrite lookup_get_block, decide_True in Hg by done. }
    rewrite lookup_get_block, decide_True by done. apply Hkeep; [done|].
    unfold seed_of in Hs. apply bind_Some in Hs as (rid & _ & Hrid). by eapply Hseeds.
Qed.

(** ** Acceptance over the batch *)

Lemma sub_block {A} (l : list A) b i k :
  (i + k <= bs)%nat -> sub (b * bs + i) k l = sub i k (get_block bs b l).
Proof.
  intros Hik. apply list_eq. intros j. rewrite !lookup_sub. case_decide; [|done].
  rewrite lookup_get_block, decide_True by lia. f_equal. lia.
Qed.

Lemma accept_block_local ids ar b gs :
  (gs < bs)%nat ->
  accept_block bs ids ar b gs =
    (let l := get_block bs b ids in
     let a := get_block bs b ar in
     let c := leading (zip_with Z.eqb (sub (gs + 1) (bs - gs - 1) l) (sub gs (bs - gs - 1) a)) in
     (sub gs 1 l ++ sub gs c a, c)).
Proof.
  intros Hgs. unfold accept_block. rewrite <- Nat.add_assoc. rewrite !sub_block by lia.
  cbn zeta. set (m := zip_with _ _ _).
  assert (Hc : (if (1 <? bs - gs)%nat then leading m else 0%nat) = leading m).
  { destruct (Nat.ltb_spec 1 (bs - gs)); [done|].
    assert (m = []) as -> by (unfold m; by replace (bs - gs - 1)%nat with 0%nat by lia). done. }
  rewrite Hc.
  assert (Hle : (leading m <= bs - gs - 1)%nat).
  { etrans; [apply leading_le|]. unfold m, sub. rewrite length_zip_with, !length_take. lia. }
  rewrite (sub_block ar b gs (leading m)) by lia. subst m.
  rewrite (sub_block ids b (gs + 1)), (sub_block ar b gs (bs - gs - 1)) by lia. done.
Qed.

Lemma accept_fold ids ar rids start_list outs0 seeds0 k :
  (k <= length rids)%nat -> NoDup rids ->
  let r := foldl (accept_one bs eos_id ids ar rids start_list) (outs0, seeds0) (seq 0 k) in
  r.1 = outs0 ++ ((fun b => truncate_eos eos_id (accept_block bs ids ar b (start_list !!! b)).1) <$> seq 0 k) /\
  (forall b, (b < k)%nat -> r.2 !! (rids !!! b) =
    Some (next_seed bs ar b (start_list !!! b) (accept_block bs ids ar b (start_list !!! b)).2)) /\
  (forall rid t, r.2 !! rid = Some t -> seeds0 !! rid = Some t \/
    exists b, (b < k)%nat /\ t = next_seed bs ar b (start_list !!! b)
      (accept_block bs ids ar b (start_list !!! b)).2).
Proof.
  intros Hk Hnd. induction k as [|k IH]; cbn zeta.
  { cbn. rewrite app_nil_r. split_and!; [done|lia|by left]. }
  destruct IH as (H1 & H2 & H3); [lia|]. rewrite seq_S, foldl_app. cbn [foldl plus].
  set (r := foldl _ _ (seq 0 k)) in *. unfold accept_one.
  destruct (accept_block bs ids ar k (start_list !!! k)) as [out c] eqn:Ha. cbn [fst snd].
  split_and!.
  - by rewrite H1, fmap_app, app_assoc, fmap_cons, fmap_nil, Ha.
  - intros b Hb. destruct (decide (b = k)) as [->|Hne].
    + by rewrite lookup_insert_eq, Ha.
    + rewrite lookup_insert_ne; [apply H2; lia|]. intros Heq.
      apply Hne. symmetry. eapply (NoDup_lookup rids k b (rids !!! k)); [done|..].
      * apply list_lookup_lookup_total_lt. lia.
      * rewrite Heq. apply list_lookup_lookup_total_lt. lia.
  - intros rid t Ht. apply lookup_insert_Some in Ht as [[<- <-]|[_ Ht]].
    + right. exists k. rewrite Ha. split; [lia|done].
    + destruct (H3 rid t Ht) as [?|(b & ? & ?)]; [by left|right; exists b; split; [lia|done]].
Qed.

Definition ends_eos (out : list Z) : bool :=
  match eos_id, last out with Some e, Some t => t =? e | _, _ => false end.

Lemma drop_fold rids outs seeds k :
  (k <= length rids)%nat -> NoDup rids ->
  let r := foldl (drop_finished eos_id rids outs) seeds (seq 0 k) in
  (forall b, (b < length rids)%nat -> r !! (rids !!! b) =
    if decide (b < k)%nat then (if ends_eos (outs !!! b) then None else seeds !! (rids !!! b))
    else seeds !! (rids !!! b)) /\
  (forall rid t, r !! rid = Some t -> seeds !! rid = Some t).
Proof.
  intros Hk Hnd. induction k as [|k IH]; cbn zeta.
  { cbn. split; [|done]. intros b Hb. done. }
  destruct IH as (H1 & H2); [lia|]. rewrite seq_S, foldl_app. cbn [foldl plus].
  set (r := foldl _ _ (seq 0 k)) in *.
  assert (Hd : drop_finished eos_id rids outs r k
    = if ends_eos (outs !!! k) then delete (rids !!! k) r else r).
  { unfold drop_finished, ends_eos. destruct eos_id, (last (outs !!! k)); try done. }
  rewrite Hd. split.
  - intros b Hb. destruct (decide (b = k)) as [->|Hne].
    + rewrite decide_True by lia. destruct (ends_eos (outs !!! k)); [apply lookup_delete_eq|].
      rewrite H1, decide_False by lia. done.
    + assert (Hrid : rids !!! k <> rids !!! b).
      { intros Heq. apply Hne. symmetry. eapply (NoDup_lookup rids k b (rids !!! k)); [done|..].
        - apply list_lookup_lookup_total_lt. lia.
        - rewrite Heq. apply list_lookup_lookup_total_lt. lia. }
      transitivity (r !! (rids !!! b)).
      { destruct (ends_eos (outs !!! k)); [by rewrite lookup_delete_ne|done]. }
      rewrite H1 by done. destruct (decide (b < k)%nat), (decide (b < S k)%nat); done || lia.
  - intros rid t Ht. apply H2. destruct (ends_eos (outs !!! k)); [|done].
    by apply lookup_delete_Some in Ht as [_ ?].
Qed.

(** ** The run *)

(** Verification is causal: under weights [a], the prediction at position [i]
    of request [b] is a function [next a b] of the block's first [i + 1] tokens
    (and of the request's cached prefix). *)
Definition causal (next : Z -> nat -> list Z -> Z) : Prop :=
  forall a k fb b i, dllm_causal_kv_update fb = true ->
    length (input_ids fb) = (batch_size fb * bs)%nat -> (b < batch_size fb)%nat -> (i < bs)%nat ->
    greedy (suppress mask_id low (full_logits (model a k fb))) !! (b * bs + i)%nat
    = Some (next a b (take (S i) (get_block bs b (input_ids fb)))).

(** The weights the verification runs under. *)
Definition verify_weights (st : lora_state) : Z :=
  let st := load_lora_deltas n_file st in
  if need_swap st && negb (String.eqb (lora_mode st) "draft_only") then applied st + 1 else applied st.

Definition known_mode (st : lora_state) : bool :=
  String.eqb (lora_mode st) "draft_only" || String.eqb (lora_mode st) "both".

(** What [run] computes on a batch with masks, the two forwards made explicit. *)
Lemma run_masks rids fb s :
  mask_id ∈ input_ids fb ->
  let n := batch_size fb in
  let starts := start_of bs mask_id (input_ids fb) <$> seq 0 n in
  let ids1 := foldl (inject_seed bs (seed_tokens s) rids starts) (input_ids fb) (seq 0 n) in
  let st := load_lora_deltas n_file (lora s) in
  let a1 := if need_swap st then applied st + 1 else applied st in
  let draft := model a1 (length (ls_log s)) (with_input_ids fb ids1) in
  let ids2 := where_ (eq_mask mask_id ids1) (greedy (suppress mask_id low (full_logits draft))) ids1 in
  let vfb := with_causal (with_input_ids fb ids2) true in
  let out := model (verify_weights (lora s)) (S (length (ls_log s))) vfb in
  let ar := greedy (suppress mask_id low (full_logits out)) in
  let acc := foldl (accept_one bs eos_id ids2 ar rids starts) ([], seed_tokens s) (seq 0 n) in
  let r := run bs mask_id eos_id low model n_file rids fb s in
  ls_tokens r.1.1 = acc.1 /\ input_ids r.1.2 = ids2 /\
  seed_tokens r.2 = foldl (drop_finished eos_id rids acc.1) acc.2 (seq 0 n) /\
  ls_log r.2 = ls_log s ++ [with_input_ids fb ids1; vfb] /\
  applied (lora r.2) = applied (lora s) +
    (if need_swap st && negb (known_mode st) then 1 else 0).
Proof.
  intros Hin n starts ids1 st. cbn zeta. apply any_eq_mask in Hin.
  unfold run. rewrite Hin. cbn [negb]. fold n starts ids1.
  unfold verify_weights. fold st.
  assert (Hap : applied st = applied (lora s)).
  { unfold st, load_lora_deltas. by destruct (_ || _). }
  assert (Hk : known_mode st = String.eqb (lora_mode st) "draft_only" || String.eqb (lora_mode st) "both")
    by done.
  assert (Hlen : forall (x : forward_batch), length (ls_log s ++ [x]) = S (length (ls_log s)))
    by (intros; rewrite length_app; cbn; lia).
  unfold lforward, forward, add_deltas, known_mode. fold st.
  cbn [lora seed_tokens ls_log].
  destruct (need_swap st) eqn:Hsw; cbn [andb lora applied set_applied lora_mode seed_tokens ls_log];
    [destruct (String.eqb_spec (lora_mode st) "draft_only") as [Hd|Hd]|];
    cbn [negb andb orb lora applied set_applied lora_mode seed_tokens ls_log];
    [rewrite ?Hd; cbn [String.eqb Ascii.eqb Bool.eqb] | destruct (String.eqb _ "both")|];
    cbn [negb andb orb lora applied set_applied lora_mode seed_tokens ls_log];
    replace (applied st + 1 + -1) with (applied st) by lia; rewrite ?Hlen;
    (destruct (foldl (accept_one _ _ _ _ _ _) _ _) as [outs seeds]); cbn;
    (split_and!; [done|done|done|by rewrite <- app_assoc|rewrite Hap; lia]).
Qed.

Lemma ar_block (ar : list Z) b n : length ar = (n * bs)%nat -> (b < n)%nat ->
  forall i, (i < bs)%nat -> get_block bs b ar !! i = ar !! (b * bs + i)%nat.
Proof. intros _ _ i Hi. by rewrite lookup_get_block, decide_True. Qed.

Lemma next_seed_lookup (ar : list Z) n b gs c t :
  length ar = (n * bs)%nat -> (b < n)%nat -> (gs + c < bs)%nat ->
  get_block bs b ar !! (gs + c)%nat = Some t -> next_seed bs ar b gs c = t.
Proof.
  intros Hl Hb Hgc Hlk. unfold next_seed.
  destruct (Nat.ltb_spec (b * bs + gs + c)%nat (b * bs + bs)%nat); [|lia].
  apply list_lookup_total_correct. rewrite <- Nat.add_assoc.
  by rewrite lookup_get_block, decide_True in Hlk by done.
Qed.

(** The accepted block of a request. *)
Lemma accepted_block next a k vfb n b gs :
  causal next -> dllm_causal_kv_update vfb = true -> batch_size vfb = n ->
  length (input_ids vfb) = (n * bs)%nat ->
  let arl := greedy (suppress mask_id low (full_logits (model a k vfb))) in
  length arl = (n * bs)%nat -> (b < n)%nat -> (gs < bs)%nat ->
  let l := get_block bs b (input_ids vfb) in
  let c := (accept_block bs (input_ids vfb) arl b gs).2 in
  let ar := ar_decode (next a b) in
  (gs + c < bs)%nat /\
  (accept_block bs (input_ids vfb) arl b gs).1 = sub gs 1 l ++ ar (take (S gs) l) c /\
  next_seed bs arl b gs c = next a b (take (S gs) l ++ ar (take (S gs) l) c) /\
  arl !! (b * bs + (gs + c))%nat = Some (next_seed bs arl b gs c) /\
  (forall d, (S c < bs - gs)%nat -> l !! (gs + 1 + c)%nat = Some d ->
    d <> next a b (take (S gs) l ++ ar (take (S gs) l) c)).
Proof.
  intros Hcausal Hcv Hn Hl2 arl Hla Hb Hgs l.
  rewrite (accept_block_local (input_ids vfb) arl b gs Hgs). cbn zeta. cbn [fst snd].
  fold l. set (al := get_block bs b arl).
  assert (Hll : length l = bs) by (by apply (length_get_block _ _ n)).
  assert (Hal : length al = bs) by (by apply (length_get_block _ _ n)).
  assert (Hc : forall i, (i < bs)%nat -> al !! i = Some (next a b (take (S i) l))).
  { intros i Hi. unfold al. rewrite (ar_block arl b n Hla Hb i Hi).
    apply (Hcausal a k vfb b i); congruence. }
  pose proof (c_bound bs gs l al Hll Hal Hgs) as Hcb.
  pose proof (accepted_tokens bs gs l al _ Hll Hal Hgs Hc) as Htoks.
  pose proof (accepted_next bs gs l al _ Hll Hal Hgs Hc) as Hnx.
  pose proof (accepted_maximal bs gs l al _ Hll Hal Hgs Hc) as Hmx.
  set (c := leading _) in *. cbn zeta in Htoks.
  split_and!; [done|by rewrite Htoks|by apply (next_seed_lookup arl n)| |exact Hmx].
  rewrite (next_seed_lookup arl n b gs c _ Hla Hb Hcb Hnx), <- Hnx.
  unfold al. by rewrite (ar_block arl b n Hla Hb).
Qed.

(** What the two per-request loops of [run] leave. *)
Lemma outputs_of ids2 arl rids starts seeds n :
  length rids = n -> NoDup rids ->
  let acc := foldl (accept_one bs eos_id ids2 arl rids starts) ([], seeds) (seq 0 n) in
  let seeds' := foldl (drop_finished eos_id rids acc.1) acc.2 (seq 0 n) in
  let out b := truncate_eos eos_id (accept_block bs ids2 arl b (starts !!! b)).1 in
  let seed b := next_seed bs arl b (starts !!! b) (accept_block bs ids2 arl b (starts !!! b)).2 in
  (forall b, (b < n)%nat -> acc.1 !! b = Some (out b) /\
     seeds' !! (rids !!! b) = if ends_eos (out b) then None else Some (seed b)) /\
  (forall rid t, seeds' !! rid = Some t -> seeds !! rid = Some t \/ exists b, (b < n)%nat /\ t = seed b).
Proof.
  intros Hrl Hnd acc seeds' out seed.
  destruct (accept_fold ids2 arl rids starts [] seeds n ltac:(lia) Hnd) as (Ha1 & Ha2 & Ha3). fold acc in Ha1, Ha2, Ha3.
  destruct (drop_fold rids acc.1 acc.2 n ltac:(lia) Hnd) as (Hd1 & Hd2). fold seeds' in Hd1, Hd2.
  split; [|intros rid t Ht; by apply Hd2, Ha3 in Ht]. intros b Hb.
  assert (Hlk : acc.1 !! b = Some (out b)).
  { rewrite Ha1. cbn [app]. rewrite list_lookup_fmap, lookup_seq_lt by done. done. }
  split; [done|]. rewrite Hd1, decide_True, (list_lookup_total_correct _ _ _ Hlk) by lia.
  destruct (ends_eos (out b)); [done|]. by apply Ha2.
Qed.

(** How [run] goes: [ids2] are the tokens the verifying forward saw, [arl] its
    predictions; each block's share of both is as [accepted_block] says. *)
Lemma run_verified next rids fb s :
  0 <= mask_id -> model_ok -> causal next -> batch_ok rids fb -> (0 < batch_size fb)%nat ->
  seeds_ok (seed_tokens s) ->
  let r := run bs mask_id eos_id low model n_file rids fb s in
  let gs b := start b (input_ids fb) in
  exists arl, let ids2 := input_ids r.1.2 in
  let c b := (accept_block bs ids2 arl b (gs b)).2 in
  let out b := truncate_eos eos_id (accept_block bs ids2 arl b (gs b)).1 in
  length (ls_log r.2) = (length (ls_log s) + 2)%nat /\ keeps mask_id (input_ids fb) ids2 /\ mask_id ∉ ids2 /\
  (forall rid t, seed_tokens r.2 !! rid = Some t -> t <> mask_id) /\
  forall b, (b < batch_size fb)%nat ->
    let l := get_block bs b ids2 in
    let ar := ar_decode (next (verify_weights (lora s)) b) (take (S (gs b)) l) in
    (forall t, seed_of (seed_tokens s) rids b = Some t -> l !! gs b = Some t) /\
    ls_tokens r.1.1 !! b = Some (out b) /\
    seed_tokens r.2 !! (rids !!! b) = (if ends_eos (out b) then None else Some (next_seed bs arl b (gs b) (c b))) /\
    (gs b + c b < bs)%nat /\
    (accept_block bs ids2 arl b (gs b)).1 = sub (gs b) 1 l ++ ar (c b) /\
    next_seed bs arl b (gs b) (c b) = next (verify_weights (lora s)) b (take (S (gs b)) l ++ ar (c b)) /\
    (forall d, (S (c b) < bs - gs b)%nat -> l !! (gs b + 1 + c b)%nat = Some d ->
      d <> next (verify_weights (lora s)) b (take (S (gs b)) l ++ ar (c b))).
Proof.
  intros Hm Hmodel Hcausal Hok Hn Hseeds r gs.
  assert (Hin : mask_id ∈ input_ids fb).
  { pose proof (bo_start _ _ Hok 0 Hn) as Hs. destruct (bo_prompt _ _ Hok 0 (start 0 (input_ids fb)) Hn) as [_ Hp].
    specialize (Hp ltac:(lia)). rewrite lookup_get_block, decide_True in Hp by done. by eapply list_elem_of_lookup_2. }
  destruct (run_masks rids fb s Hin) as (Htok & Hids & Hsd & Hlog & _). fold r in Htok, Hids, Hsd, Hlog.
  set (n := batch_size fb) in *. set (starts := start_of bs mask_id (input_ids fb) <$> seq 0 n) in *.
  set (ids1 := foldl _ (input_ids fb) (seq 0 n)) in *. set (draft := model _ (length (ls_log s)) _) in *.
  set (ids2 := where_ _ _ ids1) in *. set (vfb := with_causal _ true) in *. set (out := model _ (S _) vfb) in *.
  set (arl := greedy (suppress mask_id low (full_logits out))) in *.
  destruct (inject_spec rids fb (seed_tokens s) Hok) as [Hl1 _]. fold n starts ids1 in Hl1.
  assert (Hdr : Forall row_ok (full_logits draft) /\ length (full_logits draft) = (n * bs)%nat).
  { unfold draft. match goal with |- context [model ?a] => destruct (Hmodel a) as [Hsh Hr] end.
    split; [apply Hr|]. by rewrite Hsh. }
  destruct (draft_spec rids fb (seed_tokens s) (full_logits draft) Hm Hok Hseeds (proj1 Hdr) (proj2 Hdr))
    as (Hl2 & Hk2 & Hno2 & Hs2). fold n starts ids1 ids2 in Hl2, Hk2, Hno2, Hs2.
  destruct (Hmodel (verify_weights (lora s))) as [Hsh Hrows].
  assert (Hla : length arl = (n * bs)%nat) by (unfold arl; rewrite length_greedy; unfold out; by rewrite Hsh).
  assert (Hst : forall b, (b < n)%nat -> starts !!! b = gs b).
  { intros b Hb. apply list_lookup_total_correct. unfold starts. by rewrite list_lookup_fmap, lookup_seq_lt. }
  pose proof (fun b => accepted_block next (verify_weights (lora s)) (S (length (ls_log s))) vfb n
    b (gs b) Hcausal eq_refl eq_refl Hl2 Hla) as Hblk. cbn zeta in Hblk. fold out arl in Hblk.
  destruct (outputs_of ids2 arl rids starts (seed_tokens s) n (bo_rids _ _ Hok) (bo_nodup _ _ Hok)) as [Hout Hback].
  cbn zeta in Hout, Hback. rewrite <- Hsd, <- Htok in Hout. rewrite <- Hsd in Hback.
  exists arl. rewrite Hids. split_and!; [by rewrite Hlog, length_app|done|done| |].
  - intros rid t [Ht|(b & Hb & ->)]%Hback; [by eapply Hseeds|]. rewrite (Hst b Hb).
    destruct (Hblk b Hb (bo_start _ _ Hok b Hb)) as (_ & _ & _ & Hlk & _).
    by apply (greedy_not_mask _ _ _ Hm (Hrows _ _) Hlk).
  - intros b Hb. destruct (Hblk b Hb (bo_start _ _ Hok b Hb)) as (Hcb & Hacc & Hnx & _ & Hmx).
    destruct (Hout b Hb) as [Ho1 Ho2]. rewrite (Hst b Hb) in Ho1, Ho2. split_and!; try done. by intros t; apply Hs2.
Qed.

(** C6: LinearSpec is lossless.  With a causal verification, one [run] (exactly
    two forwards) gives request [b] its seed followed by the tokens greedy
    one-at-a-time decoding produces from there, cut after the first EOS; the
    number of extra tokens is below the number of masks, and the seed kept for
    the next block is the reference's next token (none once EOS is output).
    Prompt tokens are kept and no mask remains in the batch. *)
Theorem linear_spec_lossless next rids fb s :
  0 <= mask_id -> model_ok -> causal next -> batch_ok rids fb -> (0 < batch_size fb)%nat ->
  seeds_ok (seed_tokens s) ->
  let r := run bs mask_id eos_id low model n_file rids fb s in
  let ar b := ar_decode (next (verify_weights (lora s)) b) in
  length (ls_log r.2) = (length (ls_log s) + 2)%nat /\
  keeps mask_id (input_ids fb) (input_ids r.1.2) /\ mask_id ∉ input_ids r.1.2 /\
  seeds_ok (seed_tokens r.2) /\
  forall b, (b < batch_size fb)%nat ->
    let gs := start b (input_ids fb) in
    let blk := get_block bs b (input_ids r.1.2) in
    let ctx := take (S gs) blk in
    (forall t, seed_of (seed_tokens s) rids b = Some t -> blk !! gs = Some t) /\
    exists c, (c < num_masks mask_id (get_block bs b (input_ids fb)))%nat /\
      ls_tokens r.1.1 !! b = Some (truncate_eos eos_id (drop gs ctx ++ ar b ctx c)) /\
      (forall d, (S c < bs - gs)%nat -> blk !! (gs + 1 + c)%nat = Some d ->
         ar b ctx (S c) <> ar b ctx c ++ [d]) /\
      seed_tokens r.2 !! (rids !!! b) =
        if ends_eos (truncate_eos eos_id (drop gs ctx ++ ar b ctx c)) then None
        else last (ar b ctx (S c)).
Proof.
  intros Hm Hmodel Hcausal Hok Hn Hseeds r ar.
  destruct (run_verified next rids fb s Hm Hmodel Hcausal Hok Hn Hseeds) as (arl & Hlog & Hk & Hno & Hsd & Hblk).
  fold r in Hlog, Hk, Hno, Hsd, Hblk. split_and!; [done|done|done|exact Hsd|]. intros b Hb gs blk ctx.
  destruct (Hblk b Hb) as (Hseed & Htok & Hnew & Hcb & Hacc & Hnx & Hmx).
  fold gs blk ctx in Hseed, Htok, Hnew, Hcb, Hacc, Hnx, Hmx. fold (ar b) in Hacc, Hnx, Hmx.
  split; [done|]. set (c := (accept_block bs (input_ids r.1.2) arl b gs).2) in *. exists c.
  assert (Hctx : sub gs 1 blk = drop gs ctx) by (unfold ctx, sub; by rewrite take_drop_commute, Nat.add_1_r).
  rewrite Hctx in Hacc. rewrite Hacc in Htok, Hnew. split_and!.
  - unfold gs, start_of in *. lia.
  - done.
  - intros d Hd1 Hd2 Heq. unfold ar in Heq. rewrite ar_decode_S in Heq.
    apply app_inj_tail in Heq as [_ Heq]. symmetry in Heq. by eapply Hmx.
  - rewrite Hnew, Hnx. destruct (ends_eos _); [done|]. unfold ar. by rewrite ar_decode_S, last_snoc.
Qed.

(** The weights come back.  A [run] that swaps LoRA deltas in at run time
    leaves the weights as it found them when [lora_mode] is one of the two
    documented modes; any other mode string, which nothing rejects, leaves the
    deltas added once more after every block. *)
Theorem linear_spec_weights rids fb s :
  mask_id ∈ input_ids fb ->
  let st := load_lora_deltas n_file (lora s) in
  applied (lora (run bs mask_id eos_id low model n_file rids fb s).2)
  = applied (lora s) + (if need_swap st && negb (known_mode st) then 1 else 0).
Proof. intros Hin. by destruct (run_masks rids fb s Hin) as (_ & _ & _ & _ & ?). Qed.
End batch.

(** ** A concrete run: the next token depends on the last one *)

Definition demo_next (t : Z) : Z := if t =? 1 then 2 else 1.
Definition demo_row (t : Z) : list score :=
  if t =? 1 then [Fin 0; Fin 1; Fin 5; Fin 0] else [Fin 0; Fin 5; Fin 1; Fin 0].
Definition demo_lora_model : lora_model := fun _ _ fb =>
  ForwardOut (demo_row <$> input_ids fb) false None.
Definition demo_ls_batch : forward_batch :=
  ForwardBatch 1 [1; 3; 3] [0] [3] [1; 2; 3] 3 [0; 1; 2] 3 [3] [0] [0] None None None false false.
Definition demo_ls_state : ls_state :=
  LSState {[ "r"%string := 2 ]} (LoraState false "draft_only" None false 0) [].

Lemma demo_ls_ok :
  model_ok 3 (Fin (-9)) demo_lora_model /\
  causal 3 3 (Fin (-9)) demo_lora_model (fun _ _ l => demo_next (default 0 (last l))) /\
  batch_ok 3 3 ["r"%string] demo_ls_batch.
Proof.
  split_and!.
  - intros a. split; [intros n fb; apply length_fmap|]. intros n fb. cbn.
    apply Forall_fmap, Forall_true. intros t. cbn. unfold demo_row.
    exists 1%nat. destruct (t =? 1); eexists; (split_and!; [done|lia|done]).
  - intros a k fb b i _ Hl Hb Hi. unfold greedy, suppress. cbn.
    rewrite !list_lookup_fmap. pose proof (block_bound 3 b _ Hb) as Hbd.
    destruct (lookup_lt_is_Some_2 (input_ids fb) (b * 3 + i)) as [t Ht]; [lia|].
    rewrite Ht. cbn. f_equal.
    assert (Hlast : last (take (S i) (get_block 3 b (input_ids fb))) = Some t).
    { rewrite last_lookup, length_take, (length_get_block 3 b (batch_size fb)) by done.
      replace (Init.Nat.pred (min (S i) 3)) with i by lia.
      rewrite lookup_take_lt by lia. by rewrite lookup_get_block, decide_True. }
    rewrite Hlast. cbn. unfold demo_row, demo_next. by destruct (t =? 1).
  - split; [done|done|repeat constructor; set_solver|..].
    + intros [|b] Hb; [vm_compute; lia|cbn in Hb; lia].
    + intros [|b] i Hb; [|cbn in Hb; lia].
      destruct i as [|[|[|i]]]; vm_compute; split; intros; try done; lia.
Qed.

Lemma linear_spec_lossless_witness :
  length (ls_log (run 3 3 (Some 0) (Fin (-9)) demo_lora_model 0 ["r"%string] demo_ls_batch
    demo_ls_state).2) = 2%nat /\
  3 ∉ input_ids (run 3 3 (Some 0) (Fin (-9)) demo_lora_model 0 ["r"%string] demo_ls_batch
    demo_ls_state).1.2.
Proof.
  destruct demo_ls_ok as (H1 & H2 & H3).
  assert (Hs : seeds_ok 3 (seed_tokens demo_ls_state)).
  { intros rid t Ht. cbn in Ht. apply lookup_singleton_Some in Ht as [_ <-]. done. }
  destruct (linear_spec_lossless 3 3 (Some 0) (Fin (-9)) demo_lora_model 0 _ ["r"%string]
    demo_ls_batch demo_ls_state ltac:(lia) H1 H2 H3 ltac:(cbn; lia) Hs) as (Hl & _ & Hno & _).
  split; [exact Hl|exact Hno].
Defined.

Lemma linear_spec_weights_witness :
  applied (lora (run 3 3 None (Fin (-9)) demo_lora_model 1 ["r"%string] demo_ls_batch
    (LSState ∅ (LoraState true "draft-only" None false 0) [])).2) = 1.
Proof.
  rewrite (linear_spec_weights 3 3 None (Fin (-9)) demo_lora_model 1 ["r"%string] demo_ls_batch
    (LSState ∅ (LoraState true "draft-only" None false 0) []) ltac:(cbn; set_solver)).
  reflexivity.
Defined.
