(* ===== verification/TidarInput.v ===== *)
(** * Inputs of the TiDAR quadratic step

    The static draft mask and position offsets, the reference builder of the
    decode inputs (srt/dllm/algorithm/tidar_utils.py), the builder that writes
    into pre-allocated buffers (tidar_kernels.py), the attention arguments of
    TiDARInput (tidar_input.py) and the stochastic verification kernel.

    A request contributes [B = block_size * (block_size + 1)] queries: one block
    of drafts verified causally, then [block_size] blocks of masks, block [j]
    predicting what follows the first [j] drafts. *)

From S2P Require Import Prelude Tensor.

(** ** The draft mask *)

(** [m[r0:r1, c0:c1] = v] *)
Definition set_rect (r0 r1 c0 c1 : nat) (v : nat -> nat -> bool) (m : list (list bool))
    : list (list bool) :=
  imap (fun r row =>
      if (r0 <=? r)%nat && (r <? r1)%nat
      then imap (fun c x => if (c0 <=? c)%nat && (c <? c1)%nat then v r c else x) row
      else row) m.

Definition quad (bs : nat) : nat := (bs * (bs + 1))%nat.

Definition build_tidar_draft_mask (bs : nat) : list (list bool) :=
  let B := quad bs in
  let m := replicate B (replicate B false) in
  let m := set_rect 0 bs 0 bs (fun r c => (c <=? r)%nat) m in
  foldl (fun m j =>
      let row_start := (j * bs)%nat in
      let row_end := ((j + 1) * bs)%nat in
      let m := set_rect row_start row_end row_start row_end (fun _ _ => true) m in
      set_rect row_start row_end 0 j (fun _ _ => true) m)
    m (seq 1 bs).

Definition build_tidar_position_offsets (bs : nat) : list Z :=
  (seq 0 (bs + 1)) ≫= (fun j => (fun k => Z.of_nat j + Z.of_nat k) <$> seq 0 bs).

(** ** The reference builders *)

Definition repeat_interleave (l : list Z) (n : nat) : list Z := l ≫= replicate n.
Definition repeat_list {A} (l : list A) (n : nat) : list A := concat (replicate n l).

(** build_tidar_positions_and_mask_prefill *)
Definition build_prefill (seq_lens : list nat) (bs : nat) (mask_token_id : Z)
    : list Z * list Z * list bool :=
  let n := length seq_lens in
  (replicate (n * bs) mask_token_id,
   zip_with Z.add (repeat_interleave (Z.of_nat <$> seq_lens) bs) (repeat_list (Z.of_nat <$> seq 0 bs) n),
   replicate (bs * foldr Nat.add 0%nat seq_lens + n * bs * bs) true).

(** One request's rows: all of the prefix, then the draft mask, flattened. *)
Definition request_mask (B prefix_len : nat) (draft_mask : list (list bool)) : list bool :=
  concat (zip_with app (replicate B (replicate prefix_len true)) draft_mask).

(** build_tidar_positions_and_mask_decode *)
Definition build_decode (seq_lens : list nat) (bs : nat) (prev_draft_tokens : list Z)
    (mask_token_id : Z) : list Z * list Z * list bool :=
  let n := length seq_lens in
  let B := quad bs in
  (blocks bs n prev_draft_tokens ≫= (fun d => d ++ replicate (bs * bs) mask_token_id),
   zip_with Z.add (repeat_interleave (Z.of_nat <$> seq_lens) B)
     (repeat_list (build_tidar_position_offsets bs) n),
   seq_lens ≫= (fun p => request_mask B p (build_tidar_draft_mask bs))).

(** ** The pooled builder *)

(** [buf[: n * w].view(n, w)]: the slice must have that many elements. *)
Definition can_view {A} (n w : nat) (buf : list A) : bool := (n * w <=? length buf)%nat.

(** Row [b] of that view is overwritten. *)
Definition set_row {A} (w b : nat) (row : list A) (buf : list A) : list A :=
  list_inserts (b * w) row buf.

(** The mask of one request, written row by row at [offset]. *)
Definition write_mask (B prefix_len : nat) (draft_mask : list (list bool)) (offset : nat)
    (buf : list bool) : list bool :=
  foldl (fun buf r =>
      let row_start := (offset + r * (prefix_len + B))%nat in
      list_inserts (row_start + prefix_len) (draft_mask !!! r)
        (list_inserts row_start (replicate prefix_len true) buf))
    buf (seq 0 B).

Definition build_tidar_decode_inputs_pooled (seq_lens_cpu cur_prefix_gpu : list nat)
    (bs : nat) (mask_id : Z) (prev_draft_tokens : list Z) (cached_offsets : list Z)
    (cached_draft_mask : list (list bool)) (positions_out draft_tokens_out : list Z)
    (custom_mask_out : list bool)
    : res ((list Z * list Z * list bool) * (list Z * list Z * list bool)) :=
  let n := length seq_lens_cpu in
  let B := quad bs in
  if negb (can_view n B positions_out) then Raise RuntimeError else
  let positions_out :=
    foldl (fun buf b =>
        set_row B b ((fun o => o + Z.of_nat (cur_prefix_gpu !!! b)) <$> cached_offsets) buf)
      positions_out (seq 0 n) in
  if negb (can_view n B draft_tokens_out) || negb (length prev_draft_tokens =? n * bs)%nat
  then Raise RuntimeError else
  let draft_tokens_out :=
    foldl (fun buf b =>
        set_row B b (get_block bs b prev_draft_tokens ++ replicate (B - bs) mask_id) buf)
      draft_tokens_out (seq 0 n) in
  '(offset, custom_mask_out) ←
    foldM (fun '(offset, buf) prefix_len =>
        let total_kv := (prefix_len + B)%nat in
        if (length buf <? offset + B * total_kv)%nat then Raise RuntimeError
        else Ok ((offset + B * total_kv)%nat, write_mask B prefix_len cached_draft_mask offset buf))
      (0%nat, custom_mask_out) seq_lens_cpu;
  Ok ((take (n * B) draft_tokens_out, take (n * B) positions_out, take offset custom_mask_out),
      (draft_tokens_out, positions_out, custom_mask_out)).

(** ** TiDARInput.generate_attn_arg_prefill *)

(** The KV indices of the batch: the first [len] entries of each request's row
    (create_flashinfer_kv_indices_triton). *)
Definition kv_indices_of (req_to_token : list (list Z)) (req_pool_indices : list nat)
    (lens : list nat) : list Z :=
  concat (zip_with (fun idx len => take len (req_to_token !!! idx)) req_pool_indices lens).

Fixpoint indptr_from (acc : nat) (lens : list nat) : list nat :=
  acc :: match lens with [] => [] | l :: lens => indptr_from (acc + l) lens end.

Definition generate_attn_arg_prefill (num_queries : nat) (custom_mask : list bool)
    (req_to_token : list (list Z)) (req_pool_indices : list nat) (paged_kernel_lens : list nat)
    : list Z * list nat * list nat * list bool :=
  let n := length req_pool_indices in
  let qo_indptr := (fun i => i * num_queries)%nat <$> seq 0 (n + 1) in
  let lens := (fun l => l + num_queries)%nat <$> paged_kernel_lens in
  let mask_numel := foldr Nat.add 0%nat ((fun l => num_queries * l)%nat <$> lens) in
  let custom_mask :=
    if (length custom_mask <? mask_numel)%nat
    then custom_mask ++ replicate (mask_numel - length custom_mask) false else custom_mask in
  (kv_indices_of req_to_token req_pool_indices lens, indptr_from 0 lens, qo_indptr, custom_mask).

(** ** The stochastic verification kernel

    [rejects pos] is the outcome of the float comparison [ratio < rand_val] at
    position [pos]. *)
Definition stochastic_verify_program (bs : nat) (is_last_iter : bool) (rejects : nat -> bool)
    (remaining : Z) : Z :=
  if remaining <=? 0 then 0 else
  let n_verify := Z.min (Z.of_nat bs) remaining in
  if is_last_iter then n_verify else
  let '(accept_cnt, _) :=
    foldl (fun '(accept_cnt, found) pos =>
        if (Z.of_nat pos <? n_verify) && negb found && rejects pos
        then (Z.of_nat pos, true) else (accept_cnt, found))
      (n_verify, false) (seq 1 (bs - 1)) in
  Z.min accept_cnt remaining.

(** * Theorems *)

(** Indexing a concatenation of pieces of one length. *)
Lemma lookup_bind_const {A B} (f : A -> list B) (l : list A) w i q a :
  (forall x, length (f x) = w) -> (q < w)%nat -> l !! i = Some a ->
  (l ≫= f) !! (i * w + q)%nat = f a !! q.
Proof.
  intros Hf Hq. revert i. induction l as [|x l IH]; intros [|i] Hi; try done.
  - cbn in Hi. injection Hi as ->. cbn [mbind list_bind].
    rewrite lookup_app_l by (rewrite Hf; lia). done.
  - change ((x :: l) ≫= f) with (f x ++ (l ≫= f)).
    rewrite lookup_app_r by (rewrite Hf; lia). rewrite Hf.
    replace (S i * w + q - w)%nat with (i * w + q)%nat by lia. by apply IH.
Qed.

Lemma lookup_set_rect r0 r1 c0 c1 v m r c :
  set_rect r0 r1 c0 c1 v m !! r ≫= (fun row => row !! c) =
    (fun x => if decide ((r0 <= r < r1)%nat /\ (c0 <= c < c1)%nat) then v r c else x)
      <$> (m !! r ≫= (fun row => row !! c)).
Proof.
  assert (Hb : forall a b x, ((a <=? x)%nat && (x <? b)%nat) = bool_decide (a <= x < b)%nat).
  { intros a b x. destruct (Nat.leb_spec a x), (Nat.ltb_spec x b); symmetry;
      first [apply bool_decide_eq_true; lia|apply bool_decide_eq_false; lia]. }
  unfold set_rect. rewrite list_lookup_imap. destruct (m !! r) as [row|]; [|done].
  cbn [fmap option_fmap option_map mbind option_bind]. rewrite Hb. case_bool_decide as Hr.
  - rewrite list_lookup_imap. destruct (row !! c) as [x|]; [|done].
    cbn [fmap option_fmap option_map]. rewrite Hb. f_equal. case_bool_decide as Hc.
    + by rewrite decide_True.
    + by rewrite decide_False by tauto.
  - destruct (row !! c) as [x|]; [|done]. cbn [fmap option_fmap option_map].
    by rewrite decide_False by tauto.
Qed.

Definition shape (n : nat) (m : list (list bool)) : Prop :=
  length m = n /\ Forall (fun row => length row = n) m.

Lemma set_rect_shape n r0 r1 c0 c1 v m : shape n m -> shape n (set_rect r0 r1 c0 c1 v m).
Proof.
  intros [Hl HF]. unfold set_rect. split; [by rewrite length_imap|].
  apply Forall_lookup. intros i row. rewrite list_lookup_imap, fmap_Some. intros (r & Hr & ->).
  apply (Forall_lookup_1 _ _ _ _ HF) in Hr. destruct (_ && _); by rewrite ?length_imap.
Qed.

Lemma mask_loop bs k :
  (k <= bs)%nat ->
  let m := foldl (fun m j =>
      let row_start := (j * bs)%nat in
      let row_end := ((j + 1) * bs)%nat in
      let m := set_rect row_start row_end row_start row_end (fun _ _ => true) m in
      set_rect row_start row_end 0 j (fun _ _ => true) m)
    (set_rect 0 bs 0 bs (fun r c => (c <=? r)%nat) (replicate (quad bs) (replicate (quad bs) false)))
    (seq 1 k) in
  shape (quad bs) m /\
  forall j q c, (j <= bs)%nat -> (q < bs)%nat -> (c < quad bs)%nat ->
    (m !! (j * bs + q)%nat ≫= (fun row => row !! c)) = Some
      (if decide (j = 0%nat) then (c <=? q)%nat
       else bool_decide ((j <= k)%nat /\ ((c < j)%nat \/ (j * bs <= c < (j + 1) * bs)%nat))).
Proof.
  intros Hk. induction k as [|k IH]; cbn zeta.
  - cbn [seq foldl]. split.
    + apply set_rect_shape. split; [apply length_replicate|].
      apply Forall_replicate, length_replicate.
    + intros j q c Hj Hq Hc. rewrite lookup_set_rect.
      assert (j * bs + q < quad bs)%nat by (unfold quad; nia).
      rewrite lookup_replicate_2 by done. cbn. rewrite lookup_replicate_2 by done. cbn. f_equal.
      destruct (decide (j = 0%nat)) as [->|].
      * cbn. destruct (Nat.leb_spec c q); case_decide; try done; try lia.
      * rewrite decide_False by nia. symmetry. apply bool_decide_eq_false. lia.
  - destruct IH as [Hsh Hm]; [lia|]. rewrite seq_S, foldl_app. cbn [foldl plus].
    set (m := foldl _ _ (seq 1 k)) in *. split; [by do 2 apply set_rect_shape|].
    intros j q c Hj Hq Hc. rewrite !lookup_set_rect, Hm by done. cbn. f_equal.
    destruct (decide (j = S k)) as [->|Hne].
    + rewrite (decide_False (P := S k = 0%nat)) by lia.
      destruct (decide (c < S k)%nat).
      * rewrite decide_True by (split; lia). symmetry. apply bool_decide_eq_true. lia.
      * rewrite decide_False by lia. case_decide as Hd.
        -- symmetry. apply bool_decide_eq_true. lia.
        -- rewrite !bool_decide_eq_false_2; [done|lia|lia].
    + assert (Hno : ~ (S k * bs <= j * bs + q < (S k + 1) * bs)%nat) by nia.
      rewrite decide_False by tauto. rewrite decide_False by tauto.
      case_decide; [done|]. apply bool_decide_ext. lia.
Qed.

(** Who attends to whom in the quadratic step.  Query [q] of the draft block
    sees exactly the drafts up to itself; query [q] of mask block [j] sees
    exactly the first [j] drafts and its own block.  The positions follow: entry
    [j * block_size + q] is offset by [j + q]. *)
Theorem tidar_mask_positions bs j q c :
  (j <= bs)%nat -> (q < bs)%nat -> (c < quad bs)%nat ->
  (build_tidar_draft_mask bs !! (j * bs + q)%nat ≫= (fun row => row !! c)) = Some
    (if decide (j = 0%nat) then (c <=? q)%nat
     else bool_decide ((c < j)%nat \/ (j * bs <= c < (j + 1) * bs)%nat)) /\
  build_tidar_position_offsets bs !! (j * bs + q)%nat = Some (Z.of_nat j + Z.of_nat q).
Proof.
  intros Hj Hq Hc. split.
  - unfold build_tidar_draft_mask. destruct (mask_loop bs bs ltac:(done)) as [_ Hm].
    rewrite Hm by done. case_decide; [done|]. f_equal. apply bool_decide_ext. lia.
  - unfold build_tidar_position_offsets.
    rewrite (lookup_bind_const (fun j => (fun k => Z.of_nat j + Z.of_nat k) <$> seq 0 bs) _ bs j q j);
      [| |done|].
    + by rewrite list_lookup_fmap, lookup_seq_lt.
    + intros. by rewrite length_fmap, length_seq.
    + rewrite lookup_seq_lt by lia. done.
Qed.

Lemma tidar_mask_positions_witness :
  (build_tidar_draft_mask 2 !! 5%nat ≫= (fun row => row !! 1%nat)) = Some true
  /\ build_tidar_position_offsets 2 !! 5%nat = Some 3.
Proof. destruct (tidar_mask_positions 2 2 1 1) as [Hm Hp]; [lia|lia|vm_compute; lia|]. by split. Defined.

(** ** Consecutive writes into a buffer *)

Lemma write_rows {A} (f : nat -> list A) w off n (buf : list A) :
  (forall r, (r < n)%nat -> length (f r) = w) ->
  foldl (fun buf r => list_inserts (off + r * w) (f r) buf) buf (seq 0 n)
  = list_inserts off (concat (f <$> seq 0 n)) buf
  /\ length (concat (f <$> seq 0 n)) = (n * w)%nat.
Proof.
  intros Hf. induction n as [|n IH]; [done|].
  destruct IH as [IH Hl]; [intros; apply Hf; lia|].
  rewrite seq_S, foldl_app, fmap_app, concat_app. cbn [foldl plus fmap list_fmap concat].
  rewrite app_nil_r, IH, list_inserts_app_l, length_app, Hl, (Hf n) by lia.
  split; [f_equal; lia|lia].
Qed.

Lemma take_inserts {A} (v buf : list A) :
  (length v <= length buf)%nat -> take (length v) (list_inserts 0 v buf) = v.
Proof.
  intros Hle. apply list_eq. intros i. destruct (decide (i < length v)%nat).
  - rewrite lookup_take_lt, list_lookup_inserts by lia. f_equal. lia.
  - rewrite lookup_take_ge by lia. symmetry. apply lookup_ge_None. lia.
Qed.

Lemma draft_mask_shape bs : shape (quad bs) (build_tidar_draft_mask bs).
Proof. unfold build_tidar_draft_mask. by destruct (mask_loop bs bs ltac:(done)). Qed.

Lemma length_offsets bs : length (build_tidar_position_offsets bs) = quad bs.
Proof.
  unfold build_tidar_position_offsets, quad.
  assert (Hg : forall l : list nat, length (l ≫= (fun j => (fun k => Z.of_nat j + Z.of_nat k) <$> seq 0 bs))
    = (length l * bs)%nat).
  { induction l as [|j l IH]; [done|].
    change ((j :: l) ≫= ?f) with (f j ++ (l ≫= f)).
    rewrite length_app, IH, length_fmap, length_seq. cbn [length]. lia. }
  rewrite Hg, length_seq. lia.
Qed.

(** One request's mask, written in place. *)
Lemma write_mask_eq B p dm off buf :
  shape B dm ->
  write_mask B p dm off buf = list_inserts off (request_mask B p dm) buf /\
  length (request_mask B p dm) = (B * (p + B))%nat.
Proof.
  intros [Hl HF]. unfold write_mask, request_mask.
  assert (Hrow : forall r, (r < B)%nat -> length (dm !!! r) = B).
  { intros r Hr. apply (Forall_lookup_1 (fun row : list bool => length row = B) dm r); [done|].
    apply list_lookup_lookup_total_lt. lia. }
  destruct (write_rows (fun r => replicate p true ++ dm !!! r) (p + B) off B buf) as [Hw Hlen].
  { intros r Hr. by rewrite length_app, length_replicate, Hrow. }
  assert (Heq : (fun r => replicate p true ++ dm !!! r) <$> seq 0 B
    = zip_with app (replicate B (replicate p true)) dm).
  { apply list_eq. intros r. rewrite list_lookup_fmap, lookup_zip_with.
    destruct (decide (r < B)%nat).
    - rewrite lookup_seq_lt, lookup_replicate_2 by done. cbn.
      rewrite (list_lookup_lookup_total_lt dm r) by lia. done.
    - rewrite lookup_seq_ge by lia. rewrite (lookup_ge_None_2 (replicate _ _)) by (rewrite length_replicate; lia). done. }
  rewrite <- Heq. split; [|done]. rewrite <- Hw. clear. generalize buf. induction (seq 0 B) as [|r l IH]; intros b; [done|]. cbn [foldl].
  rewrite list_inserts_app_l, length_replicate. rewrite (Nat.add_comm p (off + _)). apply IH.
Qed.

Lemma write_mask_loop B dm (l : list nat) off buf :
  shape B dm ->
  let total := foldr Nat.add 0%nat ((fun p => B * (p + B))%nat <$> l) in
  foldM (fun '(offset, buf) prefix_len =>
      let total_kv := (prefix_len + B)%nat in
      if (length buf <? offset + B * total_kv)%nat then Raise RuntimeError
      else Ok ((offset + B * total_kv)%nat, write_mask B prefix_len dm offset buf))
    (off, buf) l
  = if decide (l = [] \/ off + total <= length buf)%nat
    then Ok ((off + total)%nat, list_inserts off (l ≫= (fun p => request_mask B p dm)) buf)
    else Raise RuntimeError.
Proof.
  intros Hsh. revert off buf. induction l as [|p l IH]; intros off buf; cbn zeta.
  - rewrite decide_True by tauto. cbn. do 2 f_equal. lia.
  - cbn [foldM fmap list_fmap foldr]. cbn zeta.
    destruct (write_mask_eq B p dm off buf Hsh) as [-> Hlen].
    destruct (Nat.ltb_spec (length buf) (off + B * (p + B))%nat) as [Hlt|Hge].
    + rewrite decide_False; [done|]. intros [?|?]; [done|lia].
    + step_ok. rewrite IH, length_inserts. cbn zeta.
      change ((p :: l) ≫= ?f) with (f p ++ (l ≫= f)). rewrite list_inserts_app_l, Hlen.
      destruct (decide (l = [] \/ _)) as [Hd|Hd].
      * rewrite decide_True.
        -- f_equal; f_equal; [lia|f_equal; lia].
        -- right. destruct Hd as [->|]; cbn; lia.
      * rewrite decide_False; [done|]. intros [?|?]; [done|]. apply Hd. right. lia.
Qed.

Lemma reference_positions (l : list nat) w offs :
  length offs = w ->
  zip_with Z.add (repeat_interleave (Z.of_nat <$> l) w) (repeat_list offs (length l))
  = concat ((fun p => (fun o => o + Z.of_nat p) <$> offs) <$> l).
Proof.
  intros Hw. unfold repeat_interleave, repeat_list. induction l as [|p l IH]; [done|].
  cbn [fmap list_fmap length replicate concat].
  change ((?x :: ?k) ≫= ?f) with (f x ++ (k ≫= f)).
  rewrite zip_with_app, IH by (by rewrite length_replicate). f_equal.
  rewrite <- Hw, zip_with_replicate_l by done. apply list_fmap_ext. intros. lia.
Qed.

Lemma fmap_seq_total {A B} `{Inhabited A} (f : A -> B) (l : list A) :
  (fun b => f (l !!! b)) <$> seq 0 (length l) = f <$> l.
Proof.
  apply list_eq. intros i. rewrite !list_lookup_fmap. destruct (decide (i < length l)%nat).
  - rewrite lookup_seq_lt, (list_lookup_lookup_total_lt l i) by done. done.
  - rewrite lookup_seq_ge by lia. by rewrite lookup_ge_None_2 by lia.
Qed.

Lemma write_all_rows {A} (f : nat -> list A) w n (buf : list A) :
  (forall r, (r < n)%nat -> length (f r) = w) -> (n * w <= length buf)%nat ->
  take (n * w) (foldl (fun buf b => set_row w b (f b) buf) buf (seq 0 n)) = concat (f <$> seq 0 n).
Proof.
  intros Hf Hb. destruct (write_rows f w 0 n buf Hf) as [Hw Hl]. cbn [plus] in Hw.
  unfold set_row. rewrite Hw, <- Hl. apply take_inserts. lia.
Qed.

Definition mask_numel (B : nat) (seq_lens : list nat) : nat :=
  foldr Nat.add 0%nat ((fun p => B * (p + B))%nat <$> seq_lens).

Lemma length_masks B dm (l : list nat) :
  shape B dm -> length (l ≫= (fun p => request_mask B p dm)) = mask_numel B l.
Proof.
  intros Hsh. induction l as [|p l IH]; [done|].
  change ((?x :: ?k) ≫= ?f) with (f x ++ (k ≫= f)).
  rewrite length_app, IH. destruct (write_mask_eq B p dm 0 [] Hsh) as [_ ->]. done.
Qed.

Lemma length_write_rows {A} (f : nat -> list A) w (l : list nat) (buf : list A) :
  length (foldl (fun buf b => set_row w b (f b) buf) buf l) = length buf.
Proof.
  revert buf. induction l as [|b l IH]; intros buf; [done|]. cbn [foldl].
  rewrite IH. unfold set_row. apply length_inserts.
Qed.

(** The pooled builder in full: its result and the buffers it leaves. *)
Lemma pooled_spec bs mask_id seq_lens drafts positions_out tokens_out mask_out :
  let n := length seq_lens in
  let B := quad bs in
  seq_lens <> [] -> length drafts = (n * bs)%nat ->
  (n * B <= length positions_out)%nat -> (n * B <= length tokens_out)%nat ->
  exists tokens' positions' mask',
  build_tidar_decode_inputs_pooled seq_lens seq_lens bs mask_id drafts
    (build_tidar_position_offsets bs) (build_tidar_draft_mask bs)
    positions_out tokens_out mask_out
  = (if (mask_numel B seq_lens <=? length mask_out)%nat
     then Ok (build_decode seq_lens bs drafts mask_id, (tokens', positions', mask'))
     else Raise RuntimeError) /\
  length tokens' = length tokens_out /\ length positions' = length positions_out /\
  length mask' = length mask_out.
Proof.
  cbn zeta. intros Hne Hd Hp Ht. unfold build_tidar_decode_inputs_pooled, can_view. cbn zeta.
  rewrite (proj2 (Nat.leb_le _ _) Hp), (proj2 (Nat.leb_le _ _) Ht), (proj2 (Nat.eqb_eq _ _) Hd).
  cbn [negb orb]. rewrite write_mask_loop by apply draft_mask_shape. cbn [plus].
  change (foldr _ _ _) with (mask_numel (quad bs) seq_lens).
  do 3 eexists. split; [|split; [|split]].
  2: apply (length_write_rows (fun b => get_block bs b drafts ++ replicate (quad bs - bs) mask_id)
              (quad bs) (seq 0 (length seq_lens)) tokens_out).
  2: apply (length_write_rows (fun b => (fun o => o + Z.of_nat (seq_lens !!! b))
              <$> build_tidar_position_offsets bs) (quad bs) (seq 0 (length seq_lens)) positions_out).
  2: apply (length_inserts mask_out 0
              (seq_lens ≫= (fun p => request_mask (quad bs) p (build_tidar_draft_mask bs)))).
  destruct (Nat.leb_spec (mask_numel (quad bs) seq_lens) (length mask_out)) as [Hm|Hm].
  2: { rewrite decide_False; [done|]. intros [?|?]; [done|lia]. }
  rewrite decide_True by tauto. step_ok.
  f_equal. f_equal. unfold build_decode. cbn zeta. f_equal; [f_equal|].
  - rewrite write_all_rows; [|..|done].
    + unfold blocks. induction (seq 0 _) as [|b l IH]; [done|].
      cbn [fmap list_fmap concat]. rewrite bind_cons.
      rewrite IH. do 2 f_equal. unfold quad. f_equal. lia.
    + intros r Hr. rewrite length_app, length_replicate, (length_get_block bs r (length seq_lens)) by done.
      unfold quad. lia.
  - rewrite write_all_rows; [|..|done].
    + rewrite reference_positions by apply length_offsets. f_equal.
      apply (fmap_seq_total (fun p => (fun o => o + Z.of_nat p) <$> build_tidar_position_offsets bs)).
    + intros r Hr. by rewrite length_fmap, length_offsets.
  - rewrite <- (length_masks _ _ _ (draft_mask_shape bs)). apply take_inserts.
    rewrite length_masks by apply draft_mask_shape. done.
Qed.

(** The builder that writes into the pre-allocated buffers returns exactly
    what the reference builder returns, whatever the buffers held before, as
    soon as the mask buffer is large enough; otherwise it raises. *)
Theorem pooled_matches_reference bs mask_id seq_lens drafts positions_out tokens_out mask_out :
  let n := length seq_lens in
  let B := quad bs in
  seq_lens <> [] -> length drafts = (n * bs)%nat ->
  (n * B <= length positions_out)%nat -> (n * B <= length tokens_out)%nat ->
  fst <$> build_tidar_decode_inputs_pooled seq_lens seq_lens bs mask_id drafts
    (build_tidar_position_offsets bs) (build_tidar_draft_mask bs)
    positions_out tokens_out mask_out
  = if (mask_numel B seq_lens <=? length mask_out)%nat
    then Ok (build_decode seq_lens bs drafts mask_id) else Raise RuntimeError.
Proof.
  cbn zeta. intros Hne Hd Hp Ht.
  destruct (pooled_spec bs mask_id seq_lens drafts positions_out tokens_out mask_out Hne Hd Hp Ht)
    as (? & ? & ? & -> & _). by destruct (_ <=? _)%nat.
Qed.

Lemma pooled_matches_reference_witness :
  fst <$> build_tidar_decode_inputs_pooled [3%nat] [3%nat] 1 99 [7]
    (build_tidar_position_offsets 1) (build_tidar_draft_mask 1)
    (replicate 4 0) (replicate 4 0) (replicate 20 false)
  = Ok ([7; 99], [3; 4], [true; true; true; true; false; true; true; true; true; true]).
Proof. rewrite pooled_matches_reference; [reflexivity|done|done|vm_compute; lia|vm_compute; lia]. Defined.

(** The loop of the kernel: the first rejection below [nv] is kept. *)
Lemma verify_fold rejects nv k :
  1 <= nv ->
  let st := foldl (fun '(accept_cnt, found) pos =>
        if (Z.of_nat pos <? nv) && negb found && rejects pos
        then (Z.of_nat pos, true) else (accept_cnt, found))
      (nv, false) (seq 1 k) in
  (1 <= st.1 <= nv) /\
  let '(a, found) := st in
  (found = false -> a = nv) /\
  (forall pos, (pos <= k)%nat -> 1 <= Z.of_nat pos < a -> rejects pos = false) /\
  (found = true -> 1 <= a < nv /\ a <= Z.of_nat k /\ rejects (Z.to_nat a) = true).
Proof.
  intros Hnv. cbn zeta. induction k as [|k IH].
  - cbn. split; [lia|]. split; [done|]. split; [lia|done].
  - rewrite seq_S, foldl_app. cbn [foldl plus]. destruct (foldl _ _ (seq 1 k)) as [a f].
    cbn [fst] in IH. destruct IH as (Hb & Hf & Hno & Hy).
    destruct ((Z.of_nat (S k) <? nv) && negb f && rejects (S k)) eqn:Hc.
    + apply andb_true_iff in Hc as [Hc Hr]. apply andb_true_iff in Hc as [Hlt Hnf].
      apply Z.ltb_lt in Hlt. apply negb_true_iff in Hnf. subst f. specialize (Hf eq_refl). subst a.
      cbn [fst]. split; [lia|]. split; [done|]. split.
      * intros pos ? ?. apply Hno; lia.
      * intros _. rewrite Nat2Z.id. repeat split; try done; lia.
    + cbn [fst]. split; [done|]. split; [done|]. split.
      * intros pos Hp Hr. destruct (decide (pos = S k)) as [->|]; [|apply Hno; lia].
        destruct f.
        -- destruct Hy as (? & ? & ?); [done|]. lia.
        -- rewrite (Hf eq_refl) in Hr. rewrite (proj2 (Z.ltb_lt _ _)) in Hc by lia. done.
      * intros Ht. destruct (Hy Ht) as (? & ? & ?). repeat split; try done; lia.
Qed.

(** The verification kernel accepts the prefix up to the first rejected
    position: at least the first token, at most what the request still needs. *)
Theorem stochastic_verify_spec bs is_last rejects remaining :
  (0 < bs)%nat ->
  let acc := stochastic_verify_program bs is_last rejects remaining in
  let n_verify := Z.min (Z.of_nat bs) remaining in
  if remaining <=? 0 then acc = 0
  else 1 <= acc <= n_verify /\
    (is_last = true -> acc = n_verify) /\
    (is_last = false -> (forall pos, 1 <= Z.of_nat pos < acc -> rejects pos = false) /\
      (acc < n_verify -> rejects (Z.to_nat acc) = true)).
Proof.
  intros Hbs. cbn zeta. unfold stochastic_verify_program.
  destruct (Z.leb_spec remaining 0) as [|Hrem]; [done|]. destruct is_last.
  { split; [lia|]. by split. }
  set (nv := Z.min (Z.of_nat bs) remaining) in *.
  destruct (foldl _ _ _) as [a f] eqn:Hf.
  destruct (verify_fold rejects nv (bs - 1)) as [Hb Hv]; [lia|].
  rewrite Hf in Hb, Hv. cbn [fst] in Hb. destruct Hv as (Ha & Hno & Hstop). destruct f.
  - destruct (Hstop eq_refl) as (? & ? & Hr). rewrite Z.min_l by lia. split; [lia|]. split; [done|].
    intros _. split; [|done]. intros pos Hpos. apply Hno; lia.
  - rewrite (Ha eq_refl) in *. rewrite Z.min_l by lia. split; [lia|]. split; [done|]. intros _. split; [|lia].
    intros pos Hpos. apply Hno; lia.
Qed.

Lemma stochastic_verify_witness :
  let acc := stochastic_verify_program 4 false (fun pos => (pos =? 2)%nat) 3 in
  acc = 2 /\ 1 <= acc <= 3.
Proof.
  cbn zeta. split; [reflexivity|].
  exact (proj1 (stochastic_verify_spec 4 false (fun pos => (pos =? 2)%nat) 3 ltac:(lia))).
Defined.
