(* ===== verification/Tidar.v ===== *)
(** * TiDAR: self-speculative block decoding

    The run loop of srt/dllm/algorithm/tidar.py with the KV slots it takes from
    and gives back to the token allocator, and the kernel that records those
    slots in the request-to-token table (srt/speculative/spec_utils.py).

    The probabilities of the draft tokens are computed by the code and never
    read: they are left out.  The GPU and CPU copies of the prefix lengths are
    clones updated together: one list here. *)

From S2P Require Import Prelude Allocator Tensor ForwardBatch TidarInput.

(** ** Recording slots: assign_req_to_token_pool *)

Definition ASSIGN_BLOCK : nat := 32.

Definition assign_program (req_pool_indices : list Z) (start_offset end_offset : list nat)
    (loc : list Z) (table : list (list Z)) (pid : nat) : list (list Z) :=
  let kv_start := start_offset !!! pid in
  let kv_end := end_offset !!! pid in
  let out_offset := foldr Nat.add 0%nat (take pid (zip_with Nat.sub end_offset start_offset)) in
  flat_copy ASSIGN_BLOCK (Z.to_nat (req_pool_indices !!! pid)) kv_start kv_end out_offset loc table.

Definition assign_req_to_token_pool (req_pool_indices : list Z) (start_offset end_offset : list nat)
    (loc : list Z) (table : list (list Z)) : list (list Z) :=
  foldl (assign_program req_pool_indices start_offset end_offset loc) table
    (seq 0 (length req_pool_indices)).

(** ** The algorithm *)

Record tidar := TiDAR {
  block_size : nat;
  mask_id : nat;
  ar_mix : option (score -> score -> score);  (* the weighted sum, when ar_mix_weight is set *)
  max_quad_iters : nat;
  eos_id : option Z;
}.

(** The pre-allocated buffers. *)
Record tpool := TPool {
  pool_positions : list Z;
  pool_draft_tokens : list Z;
  pool_custom_mask : list bool;
  pool_max_bs : nat;
}.

(** A forward: the prompt or draft pass, or a quadratic verification pass with
    its attention inputs. *)
Inductive tcall :=
  | DllmExtend (fb : forward_batch)
  | TargetVerify (fb : forward_batch) (custom_mask : list bool) (num_queries : nat)
      (table : list (list Z)).

Definition tmodel := nat -> tcall -> forward_out.
Definition tforward (model : tmodel) (c : tcall) (log : list tcall) : forward_out * list tcall :=
  (model (length log) c, log ++ [c]).

(** What the loop keeps per request. *)
Record treq := TReq {
  cur_prefix : nat;
  draft : list Z;
  committed : list Z;
  found_eos : bool;
}.

(** What outlives a run: the allocator, the table, the buffers. *)
Record tworld := TWorld {
  kv : allocator;
  req_to_token : list (list Z);
  bufs : tpool;
}.

Record tstate := TState {
  world : tworld;
  reqs : list treq;
  tlog : list tcall;
  last_out : forward_out;
}.

#[global] Instance treq_inhabited : Inhabited treq := populate (TReq 0 [] [] false).

Section tidar.
Context `{Softmax} (self : tidar) (model : tmodel) (uninit : nat -> Z).
Local Notation bs := (block_size self).
Local Notation B := (quad (block_size self)).

(** _init_pool; [uninit] is what torch.empty leaves in memory. *)
Definition max_prefix : nat := Z.to_nat 8192.
Definition init_pool (max_bs : nat) : tpool :=
  TPool (uninit <$> seq 0 (max_bs * B)) (uninit <$> seq 0 (max_bs * B))
    ((fun i => negb (uninit i =? 0)) <$> seq 0 (max_bs * (B * (max_prefix + B)))) max_bs.

(** The initial draft, the mask token excluded. *)
Definition initial_draft (rows : list (list score)) : list Z :=
  (fun row => Z.of_nat (argmax (ban (mask_id self) row))) <$> rows.

(** [logits.view(bs, block_size + 1, block_size, -1)[b, j]] *)
Definition logits_block (logits : list (list score)) (b j : nat) : list (list score) :=
  get_block bs j (get_block B b logits).

(** [argmax(mixed_all[b])] *)
Definition target_argmax (logits : list (list score)) (b : nat) : list Z :=
  let ar := logits_block logits b 0 in
  let diff := (fun j => logits_block logits b (S j) !!! 0%nat) <$> seq 0 bs in
  let mixed := match ar_mix self with None => ar | Some f => zip_with (zip_with f) ar diff end in
  (fun row => Z.of_nat (argmax row)) <$> mixed.

Fixpoint first_false (l : list bool) : option nat :=
  match l with
  | [] => None
  | false :: _ => Some 0%nat
  | true :: l => S <$> first_false l
  end.

(** How many draft tokens the verification accepts. *)
Definition accept_count (target prev : list Z) (remaining : nat) : nat :=
  if (remaining =? 0)%nat then 0%nat else
  let n_verify := Nat.min bs remaining in
  let matches := zip_with Z.eqb (take (n_verify - 1) target) (drop 1 (take n_verify prev)) in
  match first_false matches with
  | Some first_mm => (1 + first_mm)%nat
  | None => n_verify
  end.

(** [accepted[: accepted.index(eos_id) + 1]] when it contains the EOS token. *)
Definition cut_at_eos (accepted : list Z) : list Z * bool :=
  match eos_id self with
  | None => (accepted, false)
  | Some e =>
      match list_find (fun x => x = e) accepted with
      | Some (pos, _) => (take (pos + 1) accepted, true)
      | None => (accepted, false)
      end
  end.

(** The post-processing of request [b], whose slots are [loc]: the slots it
    frees and its new state. *)
Definition process_request (logits : list (list score)) (loc : list Z) (b : nat) (r : treq)
    : list Z * treq :=
  let remaining := if found_eos r then 0%nat else (bs - length (committed r))%nat in
  let accept_cnt := accept_count (target_argmax logits b) (draft r) remaining in
  if (accept_cnt =? 0)%nat then (loc, r) else
  let select_draft_idx := Nat.min accept_cnt bs in
  let '(accepted, eos) := cut_at_eos (take accept_cnt (draft r)) in
  let accept_cnt := length accepted in
  (drop accept_cnt loc,
   TReq (cur_prefix r + accept_cnt)
     ((fun row => Z.of_nat (argmax (softmax row))) <$> logits_block logits b select_draft_idx)
     (committed r ++ accepted) (found_eos r || eos)).

Definition process_all (logits : list (list score)) (loc : list Z) (st : allocator * list treq)
    : allocator * list treq :=
  foldl (fun '(a, rs) b =>
      let '(freed, r) := process_request logits (get_block B b loc) b (rs !!! b) in
      (Token.free freed a, <[b := r]> rs))
    st (seq 0 (length (snd st))).

(** The batch of a verification pass. *)
Definition verify_batch (fb : forward_batch) (ids positions loc : list Z) (prefixes : list nat)
    : forward_batch :=
  let lens := Z.of_nat <$> prefixes in
  ForwardBatch (batch_size fb) ids (req_pool_indices fb) lens loc
    (foldr Z.add 0 lens) positions (extend_num_tokens fb) (extend_seq_lens fb)
    (extend_prefix_lens fb) (extend_start_loc fb) (extend_prefix_lens_cpu fb)
    (extend_seq_lens_cpu fb) (Some lens) (return_logprob fb) (dllm_causal_kv_update fb).

(** One quadratic step; [None] in the second component when the allocator is
    out of slots and the loop breaks. *)
Definition quad_step (fb : forward_batch) (st : tstate) : res (tstate * bool) :=
  let w := world st in
  let n := length (reqs st) in
  let prefixes := cur_prefix <$> reqs st in
  '((ids, pos, mask), (dt', po', cm')) ←
    build_tidar_decode_inputs_pooled prefixes prefixes bs (Z.of_nat (mask_id self))
      (concat (draft <$> reqs st)) (build_tidar_position_offsets bs) (build_tidar_draft_mask bs)
      (pool_positions (bufs w)) (pool_draft_tokens (bufs w)) (pool_custom_mask (bufs w));
  let bufs' := TPool po' dt' cm' (pool_max_bs (bufs w)) in
  match Token.alloc (Z.of_nat (B * n)) (kv w) with
  | (None, a) => Ok (TState (TWorld a (req_to_token w) bufs') (reqs st) (tlog st) (last_out st), false)
  | (Some loc, a) =>
      let table := assign_req_to_token_pool (req_pool_indices fb) prefixes
        ((fun p => p + B)%nat <$> prefixes) loc (req_to_token w) in
      let '(out, log) := tforward model
        (TargetVerify (verify_batch fb ids pos loc prefixes) mask B table) (tlog st) in
      let logits := take (n * B) (full_logits out) in
      if negb (length logits =? n * B)%nat then Raise RuntimeError else
      let '(a, rs) := process_all logits loc (a, reqs st) in
      Ok (TState (TWorld a table bufs') rs log out, true)
  end.

Fixpoint quad_loop (iters : nat) (fb : forward_batch) (st : tstate) : res tstate :=
  match iters with
  | O => Ok st
  | S iters =>
      if forallb (fun r => bs <=? length (committed r))%nat (reqs st) then Ok st
      else '(st, continue) ← quad_step fb st;
           if (continue : bool) then quad_loop iters fb st else Ok st
  end.

(** run: the output logits (None when nothing ran), the committed tokens of
    each request, can_run_graph, and the world and log it leaves. *)
Definition run (fb : forward_batch) (w : tworld)
    : res (option forward_out * list (list Z) * bool * tworld * list tcall) :=
  let n := batch_size fb in
  let w := if (pool_max_bs (bufs w) <? n)%nat
           then TWorld (kv w) (req_to_token w) (init_pool n) else w in
  if negb (any (eq_mask (Z.of_nat (mask_id self)) (input_ids fb))) then
    if (length (input_ids fb) =? 0)%nat then Ok (None, [], false, w, [])
    else let '(out, log) := tforward model (DllmExtend fb) [] in
         Ok (Some out, [], can_run_graph out, w, log)
  else
    let '(out, log) := tforward model (DllmExtend fb) [] in
    let drafts := initial_draft (full_logits out) in
    let a := Token.free (out_cache_loc fb) (kv w) in
    let rs := (fun b => TReq (Z.to_nat (extend_prefix_lens fb !!! b)) (get_block bs b drafts) [] false)
                <$> seq 0 n in
    st ← quad_loop (max_quad_iters self) fb
           (TState (TWorld a (req_to_token w) (bufs w)) rs log out);
    Ok (Some (last_out st), committed <$> reqs st, false, world st, tlog st).
End tidar.

(** * Theorems *)

(** ** The copy kernel *)
Lemma assign_offset W k (prefixes : list nat) :
  (k <= length prefixes)%nat ->
  foldr Nat.add 0%nat (take k (zip_with Nat.sub ((fun p => p + W)%nat <$> prefixes) prefixes))
  = (k * W)%nat.
Proof.
  revert k. induction prefixes as [|p l IH]; intros [|k] Hk; cbn in Hk; try done; [lia|].
  cbn [fmap list_fmap zip_with take foldr]. rewrite IH by lia. lia.
Qed.

(** Every request of the batch gets its own [W] slots, after its prefix. *)
Lemma assign_table W (ids : list Z) (prefixes : list nat) (loc : list Z) (table : list (list Z)) :
  let n := length ids in
  let ix b := Z.to_nat (ids !!! b) in
  rectangular table -> length prefixes = n -> length loc = (n * W)%nat ->
  (forall b c, (b < n)%nat -> (c < n)%nat -> ix b = ix c -> b = c) ->
  (forall b, (b < n)%nat -> exists row,
     table !! ix b = Some row /\ (prefixes !!! b + W <= length row)%nat) ->
  let table' := assign_req_to_token_pool ids prefixes ((fun p => p + W)%nat <$> prefixes) loc table in
  length table' = length table /\
  (forall b, (b < n)%nat ->
     table' !! ix b = list_inserts (prefixes !!! b) (get_block W b loc) <$> table !! ix b) /\
  (forall j, (forall b, (b < n)%nat -> ix b <> j) -> table' !! j = table !! j).
Proof.
  cbn zeta. intros Hrect Hp Hloc Hinj Hrows. unfold assign_req_to_token_pool.
  assert (Hk : forall k, (k <= length ids)%nat ->
    let t := foldl (assign_program ids prefixes ((fun p => p + W)%nat <$> prefixes) loc) table (seq 0 k) in
    (rectangular t /\ stride t = stride table) /\ length t = length table /\
    (forall b, (b < length ids)%nat -> t !! Z.to_nat (ids !!! b) =
       (if decide (b < k)%nat then list_inserts (prefixes !!! b) (get_block W b loc) else id)
         <$> table !! Z.to_nat (ids !!! b)) /\
    (forall j, (forall b, (b < length ids)%nat -> Z.to_nat (ids !!! b) <> j) -> t !! j = table !! j)).
  { induction k as [|k IH]; intros Hkn; cbn zeta.
    - split; [done|]. split; [done|]. split; [|done]. intros b Hb. rewrite decide_False by lia.
      cbn [seq foldl]. by rewrite option_fmap_id.
    - destruct IH as ((Hrt & Hst) & Hl & Hin & Hout); [lia|]. rewrite seq_S, foldl_app. cbn [foldl plus].
      set (t := foldl _ _ _) in *. clearbody t.
      assert (Ho : foldr Nat.add 0%nat (take k (zip_with Nat.sub ((fun p => p + W)%nat <$> prefixes) prefixes))
        = (k * W)%nat) by (apply assign_offset; lia).
      assert (He : assign_program ids prefixes ((fun p => p + W)%nat <$> prefixes) loc t k =
        alter (masked_copy ASSIGN_BLOCK (prefixes !!! k) (prefixes !!! k + W)%nat (k * W)%nat loc) (Z.to_nat (ids !!! k)) t).
      { unfold assign_program. cbn zeta. rewrite (list_lookup_total_fmap (fun p => p + W)%nat prefixes k), Ho by lia.
        destruct (Hrows k Hkn) as (row & Hr & Hw). apply flat_copy_row; [done|apply Nat.lt_0_succ| | |nia].
        - rewrite Hl. by eapply lookup_lt_Some.
        - rewrite Hst, <- (proj1 (Forall_lookup _ _) Hrect _ _ Hr). lia. }
      rewrite He. split.
      { destruct (rectangular_alter (masked_copy ASSIGN_BLOCK (prefixes !!! k) (prefixes !!! k + W)%nat (k * W)%nat loc) (Z.to_nat (ids !!! k)) t)
          as [? ->]; [intros; apply length_masked_copy|done|done]. }
      split; [by rewrite length_alter|]. split.
      2: { intros j Hj. rewrite list_lookup_alter_ne by (apply Hj; lia). by apply Hout. }
      intros b Hb. destruct (decide (b = k)) as [->|Hne].
      2: { rewrite list_lookup_alter_ne by (intros Heq; apply Hne; symmetry; apply Hinj; [lia|done|done]).
           rewrite Hin by done. destruct (decide (b < k)%nat).
           - by rewrite decide_True by lia.
           - by rewrite decide_False by lia. }
      rewrite list_lookup_alter_eq, Hin, (decide_False (P := (k < k)%nat)), option_fmap_id by lia.
      rewrite decide_True by lia. destruct (Hrows k Hb) as (row & -> & Hw). cbn [fmap option_fmap option_map].
      f_equal. rewrite masked_copy_spec by (try apply Nat.lt_0_succ; nia). f_equal. unfold get_block. f_equal. lia. }
  destruct (Hk (length ids)) as (_ & Hl & Hin & Hout); [done|]. split; [done|]. split; [|done].
  intros b Hb. rewrite Hin by done. by rewrite decide_True.
Qed.

(** Recording the working area of a quadratic step past the end of a row
    overwrites the next row.  The kernel stores through a pointer to the row and
    checks no bound: for a request with row [i] and a prefix that leaves less
    than [block_size * (block_size + 1)] entries of it, the slots that do not fit
    are written to the first entries of row [i + 1], whichever request has
    it. *)
Theorem narrow_row_overwrites_next bs i p loc table row :
  let B := quad bs in
  let spilled := (p + B - stride table)%nat in
  rectangular table -> table !! S i = Some row -> length loc = B -> (p <= stride table <= p + B)%nat -> (p + B <= 2 * stride table)%nat ->
  let table' := assign_req_to_token_pool [Z.of_nat i] [p] [(p + B)%nat] loc table in
  table' !! S i = Some (drop (stride table - p) loc ++ drop spilled row) /\
  (forall j, j <> i -> j <> S i -> table' !! j = table !! j).
Proof.
  cbn zeta. intros Hrect Hrow Hloc Hp Hp2. unfold assign_req_to_token_pool. cbn [length seq foldl]. unfold assign_program. cbn [take zip_with foldr lookup_total list_lookup_total].
  rewrite Nat2Z.id, flat_copy_spill; [|done|apply Nat.lt_0_succ|by eapply lookup_lt_Some|done|done|lia].
  pose proof (proj1 (Forall_lookup _ _) Hrect _ _ Hrow : length row = stride table) as Hl. split.
  - rewrite list_lookup_alter_eq, list_lookup_alter_ne, Hrow by lia. cbn [fmap option_fmap option_map]. f_equal.
    rewrite Nat.add_0_l, take_ge by (rewrite length_drop; lia). pose proof (inserts_after [] (drop (stride table - p) loc) row) as Hins. cbn [app length] in Hins.
    rewrite Hins by (rewrite length_drop; lia). f_equal. f_equal. rewrite length_drop. lia.
  - intros j H1 H2. by rewrite !list_lookup_alter_ne by done.
Qed.

(** Rows of eight entries; a block of two needs six, and five are taken. *)
Lemma narrow_row_overwrites_next_witness :
  assign_req_to_token_pool [0] [5%nat] [11%nat] [21; 22; 23; 24; 25; 26] [replicate 8 1; replicate 8 2] !! 1%nat = Some [24; 25; 26; 2; 2; 2; 2; 2].
Proof.
  apply (narrow_row_overwrites_next 2 0 5 [21; 22; 23; 24; 25; 26] [replicate 8 1; replicate 8 2] (replicate 8 2));
    [repeat constructor|reflexivity|reflexivity|vm_compute; lia|vm_compute; lia].
Defined.

(** ** Verification *)

Lemma first_false_spec l :
  match first_false l with
  | Some i => l !! i = Some false /\ forall j, (j < i)%nat -> l !! j = Some true
  | None => forall j b, l !! j = Some b -> b = true
  end.
Proof.
  induction l as [|[] l IH]; cbn [first_false]; [done|..].
  - destruct (first_false l) as [i|]; cbn.
    + destruct IH as [? IH]. split; [done|]. intros [|j] Hj; [done|]. apply IH. lia.
    + intros [|j] b Hj; [by injection Hj|]. by apply (IH j).
  - split; [done|]. intros j Hj. lia.
Qed.

Section verification.
Context `{Softmax} (self : tidar).
Local Notation bs := (block_size self).
Local Notation B := (quad (block_size self)).

Lemma accept_count_bounds target prev remaining :
  let acc := accept_count self target prev remaining in
  length prev = bs -> (0 < bs)%nat ->
  (acc <= Nat.min bs remaining)%nat /\ ((0 < remaining)%nat -> (0 < acc)%nat).
Proof.
  cbn zeta. intros Hp Hbs. unfold accept_count. destruct (Nat.eqb_spec remaining 0); [lia|].
  pose proof (first_false_spec (zip_with Z.eqb (take (Nat.min bs remaining - 1) target)
    (drop 1 (take (Nat.min bs remaining) prev)))) as Hf.
  destruct (first_false _) as [i|]; [|lia]. destruct Hf as [Hi _].
  apply lookup_lt_Some in Hi. rewrite length_zip_with, length_drop, !length_take in Hi. lia.
Qed.

(** Greedy verification accepts the longest prefix of the draft, up to what
    the request still needs, in which every token after the first is the
    model's own choice given the tokens before it. *)
Theorem tidar_accepts_longest target prev remaining :
  let acc := accept_count self target prev remaining in
  let n_verify := Nat.min bs remaining in
  length target = bs -> length prev = bs -> (0 < bs)%nat -> (0 < remaining)%nat ->
  (1 <= acc <= n_verify)%nat /\
  (forall i, (1 <= i < acc)%nat -> prev !! i = target !! (i - 1)%nat) /\
  ((acc < n_verify)%nat -> prev !! acc <> target !! (acc - 1)%nat).
Proof.
  cbn zeta. intros Ht Hp Hbs Hr.
  destruct (accept_count_bounds target prev remaining Hp Hbs) as [Hle Hpos].
  split; [specialize (Hpos Hr); lia|]. unfold accept_count.
  destruct (Nat.eqb_spec remaining 0); [lia|].
  set (nv := Nat.min bs remaining) in *.
  assert (Hlk : forall j, (j < nv - 1)%nat -> exists x y, target !! j = Some x /\ prev !! S j = Some y /\
    zip_with Z.eqb (take (nv - 1) target) (drop 1 (take nv prev)) !! j = Some (x =? y)).
  { intros j Hj. destruct (lookup_lt_is_Some_2 target j) as [x Hx]; [lia|].
    destruct (lookup_lt_is_Some_2 prev (S j)) as [y Hy]; [lia|]. exists x, y. split; [done|]. split; [done|].
    rewrite lookup_zip_with, lookup_take_lt, Hx, lookup_drop, lookup_take_lt by lia. cbn.
    rewrite Hy. done. }
  pose proof (first_false_spec (zip_with Z.eqb (take (nv - 1) target) (drop 1 (take nv prev)))) as Hf.
  destruct (first_false _) as [i|].
  - destruct Hf as [Hi Hbefore].
    assert (Hin : (i < nv - 1)%nat).
    { apply lookup_lt_Some in Hi. rewrite length_zip_with, length_drop, !length_take in Hi. lia. }
    split.
    + intros j Hj. destruct (Hlk (j - 1)%nat) as (x & y & Hx & Hy & Hz); [lia|].
      rewrite Hbefore in Hz by lia. injection Hz as Hz. symmetry in Hz. apply Z.eqb_eq in Hz. subst y.
      replace (S (j - 1)) with j in Hy by lia. by rewrite Hx, Hy.
    + intros _. destruct (Hlk i Hin) as (x & y & Hx & Hy & Hz).
      rewrite Hi in Hz. injection Hz as Hz. symmetry in Hz. apply Z.eqb_neq in Hz.
      change (1 + i)%nat with (S i). replace (S i - 1)%nat with i by lia. rewrite Hx, Hy. congruence.
  - split; [|lia]. intros j Hj. destruct (Hlk (j - 1)%nat) as (x & y & Hx & Hy & Hz); [lia|].
    apply Hf in Hz. apply Z.eqb_eq in Hz. subst y.
    replace (S (j - 1)) with j in Hy by lia. by rewrite Hx, Hy.
Qed.

(** The EOS token, if committed, is the last token committed. *)
Definition eos_ok (r : treq) : Prop :=
  if found_eos r then exists e pre, eos_id self = Some e /\ committed r = pre ++ [e] /\ e ∉ pre
  else forall e, eos_id self = Some e -> e ∉ committed r.

Lemma cut_at_eos_spec accepted :
  let '(acc, eos) := cut_at_eos self accepted in
  acc `prefix_of` accepted /\ (accepted <> [] -> acc <> []) /\
  if eos then exists e pre, eos_id self = Some e /\ acc = pre ++ [e] /\ e ∉ pre
  else acc = accepted /\ forall e, eos_id self = Some e -> e ∉ acc.
Proof.
  unfold cut_at_eos. destruct (eos_id self) as [e|] eqn:He; [|done].
  destruct (list_find _ accepted) as [[pos x]|] eqn:Hf.
  - apply list_find_Some in Hf as (Hx & -> & Hb). rewrite Nat.add_1_r, (take_S_r _ _ e) by done.
    split; [rewrite <- (take_S_r _ _ e) by done; apply prefix_take|].
    split; [by destruct (take pos accepted)|]. exists e, (take pos accepted).
    split; [done|]. split; [done|]. intros (i & Hi & Hlt)%elem_of_take. by apply (Hb i e).
  - apply list_find_None in Hf. split; [done|]. split; [done|]. split; [done|].
    intros e' [= <-] Hin. rewrite Forall_forall in Hf. by apply (Hf e).
Qed.
End verification.

Lemma tidar_accepts_longest_witness :
  accept_count (TiDAR 3 9 None 3 None) [5; 6; 7] [4; 5; 8] 3 = 2%nat /\ [4; 5; 8] !! 2%nat <> Some 6.
Proof.
  split; [reflexivity|].
  apply (tidar_accepts_longest (TiDAR 3 9 None 3 None) [5; 6; 7] [4; 5; 8] 3);
    [reflexivity|reflexivity|vm_compute; lia|lia|vm_compute; lia].
Defined.

(** ** One quadratic step *)

Section step.
Context `{Softmax} (self : tidar).
Local Notation bs := (block_size self).
Local Notation B := (quad (block_size self)).

Definition req_ok (r : treq) : Prop :=
  length (draft r) = bs /\ (length (committed r) <= bs)%nat /\ eos_ok self r.

Definition finished (r : treq) : Prop := found_eos r = true \/ length (committed r) = bs.

(** What post-processing does to a request: it commits [accepted], keeps as
    many of the slots, and frees the rest. *)
Definition advances (loc : list Z) (r : treq) (freed : list Z) (r' : treq) : Prop :=
  exists accepted,
    committed r' = committed r ++ accepted /\
    cur_prefix r' = (cur_prefix r + length accepted)%nat /\
    (length accepted <= bs)%nat /\
    freed = drop (length accepted) loc /\
    (finished r' \/ accepted <> []).

Lemma quad_ge : (bs <= B)%nat.
Proof. unfold quad. nia. Qed.

Lemma length_logits_block n logits b j :
  length logits = (n * B)%nat -> (b < n)%nat -> (j <= bs)%nat ->
  length (logits_block self logits b j) = bs.
Proof.
  intros Hl Hb Hj. unfold logits_block. apply (length_get_block bs j (bs + 1)); [|lia].
  rewrite (length_get_block B b n) by done. unfold quad. lia.
Qed.

Lemma process_request_spec n logits loc b r :
  (0 < bs)%nat -> length logits = (n * B)%nat -> (b < n)%nat -> req_ok r ->
  let '(freed, r') := process_request self logits loc b r in
  req_ok r' /\ advances loc r freed r' /\ (found_eos r = true -> r' = r).
Proof.
  intros Hbs Hl Hb (Hd & Hc & He). unfold process_request. cbn zeta.
  set (rem := if found_eos r then 0%nat else _).
  destruct (accept_count_bounds self (target_argmax self logits b) (draft r) rem Hd Hbs) as [Hle Hpos].
  set (acc := accept_count _ _ _ _) in *. clearbody acc.
  destruct (Nat.eqb_spec acc 0) as [->|Hne].
  - split; [done|]. split; [|done]. exists []. rewrite app_nil_r, Nat.add_0_r.
    split; [done|]. split; [done|]. split; [cbn; lia|]. split; [done|]. left. unfold finished.
    subst rem. destruct (found_eos r); [by left|right].
    destruct (decide (bs - length (committed r) = 0)%nat); [lia|]. specialize (Hpos ltac:(lia)). lia.
  - pose proof (cut_at_eos_spec self (take acc (draft r))) as Hcut.
    destruct (cut_at_eos self (take acc (draft r))) as [accepted eos].
    destruct Hcut as (Hpre & Hnil & Heos). apply prefix_length in Hpre.
    rewrite length_take in Hpre.
    assert (Hfe : found_eos r = false) by (subst rem; destruct (found_eos r); [lia|done]).
    assert (Hrem : rem = (bs - length (committed r))%nat) by (subst rem; by rewrite Hfe).
    assert (Hacc : accepted <> []).
    { apply Hnil. destruct (draft r); [cbn in Hd; lia|]. destruct acc; [done|]. done. }
    split; [|split; [|by rewrite Hfe]].
    + unfold req_ok, eos_ok in *. cbn. rewrite length_fmap, length_app, Hfe in *. cbn [orb].
      split; [apply (length_logits_block n); [done|done|lia]|]. split; [lia|].
      destruct eos.
      * destruct Heos as (e & pre & Hid & -> & Hni). exists e, (committed r ++ pre).
        split; [done|]. split; [by rewrite app_assoc|]. rewrite not_elem_of_app. split; [by apply He|done].
      * destruct Heos as [_ Heos]. intros e Hid. rewrite not_elem_of_app. split; [by apply He|by apply Heos].
    + exists accepted. cbn. repeat (split; [done || lia|]). by right.
Qed.

(** The loop over the requests: each is processed on its own, and the freed
    slots go back to the pool. *)
Lemma process_all_spec logits loc a rs :
  let f b r := process_request self logits (get_block B b loc) b r in
  let '(a', rs') := process_all self logits loc (a, rs) in
  rs' = imap (fun b r => snd (f b r)) rs /\
  Token.pool a' ≡ₚ concat (imap (fun b r => fst (f b r)) rs) ++ Token.pool a /\
  (Token.wf a -> Token.wf a') /\ is_not_in_free_group a' = is_not_in_free_group a.
Proof.
  cbn zeta. unfold process_all. cbn [snd].
  set (f b r := process_request self logits (get_block B b loc) b r).
  assert (Hk : forall k, (k <= length rs)%nat ->
    let '(a', rs') := foldl (fun '(a, rs) b => let '(freed, r) := f b (rs !!! b) in
        (Token.free freed a, <[b := r]> rs)) (a, rs) (seq 0 k) in
    rs' = imap (fun b r => snd (f b r)) (take k rs) ++ drop k rs /\
    Token.pool a' ≡ₚ concat (imap (fun b r => fst (f b r)) (take k rs)) ++ Token.pool a /\
    (Token.wf a -> Token.wf a') /\ is_not_in_free_group a' = is_not_in_free_group a).
  { induction k as [|k IH]; intros Hk; [done|]. specialize (IH ltac:(lia)).
    rewrite seq_S, foldl_app. cbn [foldl plus]. destruct (foldl _ _ (seq 0 k)) as [a' rs'].
    destruct IH as (Hrs & Hp & Hwf & Hg).
    destruct (lookup_lt_is_Some_2 rs k) as [r Hr]; [lia|].
    assert (Hlen : length (imap (fun b r => snd (f b r)) (take k rs)) = k)
      by (rewrite length_imap, length_take; lia).
    assert (Hlk : rs' !!! k = r).
    { rewrite Hrs. apply list_lookup_total_correct. rewrite lookup_app_r by lia.
      rewrite Hlen, lookup_drop. by rewrite Nat.sub_diag, Nat.add_0_r. }
    rewrite Hlk. destruct (f k r) as [freed r'] eqn:Hf.
    rewrite (take_S_r _ _ r), !imap_app by done. cbn [imap].
    rewrite length_take, Nat.min_l by lia. cbn [imap compose]. rewrite Nat.add_0_r, Hf. cbn [fst snd].
    split; [|split; [|split]].
    - rewrite Hrs, (drop_S _ r) by done. rewrite insert_app_r_alt by lia.
      rewrite Hlen, Nat.sub_diag. cbn. by rewrite <- app_assoc.
    - rewrite Token.free_pool, Hp, concat_app. cbn. rewrite app_nil_r. solve_Permutation.
    - intros Hw. apply Token.free_wf. by apply Hwf.
    - rewrite <- Hg. unfold Token.free. destruct (bool_decide _); [done|].
      destruct (is_not_in_free_group a') eqn:E; [destruct (need_sort a')|]; done. }
  specialize (Hk (length rs) ltac:(done)). rewrite firstn_all, drop_all in Hk.
  destruct (foldl _ _ _) as [a' rs']. by rewrite app_nil_r in Hk.
Qed.
End step.

(** ** Rows of the table and slots of the pool *)

Lemma concat_blocks {A} W n (l : list A) :
  length l = (n * W)%nat -> l = seq 0 n ≫= (fun b => get_block W b l).
Proof.
  intros Hl. rewrite <- (firstn_all l) at 1. rewrite Hl.
  assert (Hk : forall k, (k <= n)%nat -> take (k * W) l = seq 0 k ≫= (fun b => get_block W b l)).
  { induction k as [|k IH]; intros Hk; [done|]. rewrite seq_S, bind_app, <- IH by lia.
    change ([?x] ≫= ?f) with (f x ++ []). rewrite app_nil_r. cbn [plus]. unfold get_block.
    replace (S k * W)%nat with (k * W + W)%nat by lia. by rewrite take_take_drop. }
  by apply Hk.
Qed.

(** ** The invariant of the loop *)

Section loop.
Context `{Softmax} (self : tidar) (model : tmodel) (fb : forward_batch).
Context (p0 : list nat) (t0 : list (list Z)) (slots : list Z).
Local Notation bs := (block_size self).
Local Notation B := (quad (block_size self)).
Local Notation ids := (req_pool_indices fb).
Local Notation n := (length (req_pool_indices fb)).

(** The row of request [b] in the table. *)
Definition row_of (b : nat) : nat := Z.to_nat (ids !!! b).

(** Distinct requests have distinct rows, wide enough for the prefix, a block
    and the working area of a quadratic step. *)
Definition rows_ok : Prop :=
  rectangular t0 /\ length p0 = n /\
  (forall b c, (b < n)%nat -> (c < n)%nat -> row_of b = row_of c -> b = c) /\
  (forall b, (b < n)%nat -> exists row,
     t0 !! row_of b = Some row /\ (p0 !!! b + bs + B <= length row)%nat).

(** The slots a state keeps for request [b]: those recorded for its committed
    tokens. *)
Definition kept_of (table : list (list Z)) (b len : nat) : list Z :=
  take len (drop (p0 !!! b) (table !!! row_of b)).

Definition kept (table : list (list Z)) (outs : list (list Z)) : list Z :=
  seq 0 n ≫= (fun b => kept_of table b (length (outs !!! b))).

(** The rest of the table is as it was. *)
Definition table_kept (table : list (list Z)) : Prop :=
  length table = length t0 /\
  (forall b, (b < n)%nat ->
     length (table !!! row_of b) = length (t0 !!! row_of b) /\
     take (p0 !!! b) (table !!! row_of b) = take (p0 !!! b) (t0 !!! row_of b)) /\
  (forall j, (forall b, (b < n)%nat -> row_of b <> j) -> table !! j = t0 !! j).

Lemma table_kept_rectangular table : table_kept table -> rectangular t0 -> rectangular table.
Proof.
  intros (Hl & Hin & Hout) Hr.
  assert (Hlen : forall j row, table !! j = Some row -> length row = stride t0).
  { intros j row Hj. destruct (lookup_lt_is_Some_2 t0 j) as [row0 H0]; [rewrite <- Hl; by eapply lookup_lt_Some|].
    rewrite <- (proj1 (Forall_lookup _ _) Hr j row0 H0).
    destruct (decide (j ∈ row_of <$> seq 0 n)) as [(b & -> & Hb%elem_of_seq)%list_elem_of_fmap|Hno].
    - destruct (Hin b) as [He _]; [lia|]. by rewrite (list_lookup_total_correct _ _ _ Hj), (list_lookup_total_correct _ _ _ H0) in He.
    - rewrite Hout in Hj; [congruence|]. intros b Hb <-. apply Hno. apply list_elem_of_fmap. exists b. split; [done|]. apply elem_of_seq. lia. }
  by apply (rectangular_of (stride t0)).
Qed.

Record inv (st : tstate) : Prop := Inv {
  inv_len : length (reqs st) = n%nat;
  inv_req b r : reqs st !! b = Some r ->
    req_ok self r /\ cur_prefix r = (p0 !!! b + length (committed r))%nat;
  inv_table : table_kept (req_to_token (world st));
  inv_pool : Token.pool (kv (world st))
    ++ kept (req_to_token (world st)) (committed <$> reqs st) ≡ₚ slots;
  inv_wf : Token.wf (kv (world st));
  inv_group : is_not_in_free_group (kv (world st)) = true;
}.

Lemma committed_lookup st b r :
  reqs st !! b = Some r -> (committed <$> reqs st) !!! b = committed r.
Proof. intros Hr. apply list_lookup_total_correct. by rewrite list_lookup_fmap, Hr. Qed.

Lemma lookup_total_of {A} `{Inhabited A} (l : list A) i : (i < length l)%nat -> l !! i = Some (l !!! i).
Proof. apply list_lookup_lookup_total_lt. Qed.

Lemma kept_of_ext table b len len' : len = len' -> kept_of table b len = kept_of table b len'.
Proof. by intros ->. Qed.

(** The table after a step's slots are recorded. *)
Definition step_table (st : tstate) (loc : list Z) : list (list Z) :=
  assign_req_to_token_pool ids (cur_prefix <$> reqs st)
    ((fun p => p + B)%nat <$> (cur_prefix <$> reqs st)) loc (req_to_token (world st)).

Lemma step_table_spec st loc :
  rows_ok -> inv st -> length loc = (n * B)%nat ->
  table_kept (step_table st loc) /\
  (forall b r, reqs st !! b = Some r ->
     step_table st loc !!! row_of b =
       list_inserts (p0 !!! b + length (committed r)) (get_block B b loc)
         (req_to_token (world st) !!! row_of b) /\
     (p0 !!! b + length (committed r) + B <= length (req_to_token (world st) !!! row_of b))%nat).
Proof.
  intros (Hrect & Hp0 & Hinj & Hrows) [Hlen Hreq Htk0 Hpool _ _] Hloc.
  pose proof (table_kept_rectangular _ Htk0 Hrect) as Hrt. destruct Htk0 as (Htl & Htr & Hto).
  assert (Hwide : forall b, (b < n)%nat ->
    req_to_token (world st) !! row_of b = Some (req_to_token (world st) !!! row_of b) /\
    (p0 !!! b + bs + B <= length (req_to_token (world st) !!! row_of b))%nat).
  { intros b Hb. destruct (Hrows b Hb) as (row & Hr & Hw). destruct (Htr b Hb) as [Hl _].
    rewrite Hl, (list_lookup_total_correct _ _ _ Hr). split; [|done].
    apply lookup_total_of. rewrite Htl. by eapply lookup_lt_Some. }
  assert (Hpre : forall b, (b < n)%nat -> exists r, reqs st !! b = Some r /\
    (cur_prefix <$> reqs st) !!! b = (p0 !!! b + length (committed r))%nat /\
    (length (committed r) <= bs)%nat).
  { intros b Hb. destruct (lookup_lt_is_Some_2 (reqs st) b) as [r Hr]; [lia|].
    destruct (Hreq b r Hr) as [(_ & ? & _) Hcp]. exists r. split; [done|]. split; [|done].
    rewrite <- Hcp. apply list_lookup_total_correct. by rewrite list_lookup_fmap, Hr. }
  destruct (assign_table B ids (cur_prefix <$> reqs st) loc (req_to_token (world st))) as (Hl' & Hin & Hout).
  { exact Hrt. }
  { by rewrite length_fmap. }
  { done. }
  { exact Hinj. }
  { intros b Hb. destruct (Hwide b Hb) as [? Hw]. destruct (Hpre b Hb) as (r & _ & -> & ?).
    eexists. split; [done|]. lia. }
  fold (step_table st loc) in Hl', Hin, Hout.
  assert (Hrow : forall b r, reqs st !! b = Some r ->
     step_table st loc !!! row_of b =
       list_inserts (p0 !!! b + length (committed r)) (get_block B b loc)
         (req_to_token (world st) !!! row_of b)).
  { intros b r Hr. assert (Hb : (b < n)%nat) by (rewrite <- Hlen; by eapply lookup_lt_Some).
    apply list_lookup_total_correct. change (row_of b) with (Z.to_nat (ids !!! b)) at 1.
    rewrite (Hin b Hb). destruct (Hwide b Hb) as [Hw _]. unfold row_of in Hw at 1. rewrite Hw. cbn.
    destruct (Hpre b Hb) as (r' & Hr' & -> & _). rewrite Hr in Hr'. injection Hr' as <-. done. }
  split.
  - split; [congruence|]. split.
    + intros b Hb. destruct (Hpre b Hb) as (r & Hr & _). rewrite (Hrow b r Hr).
      destruct (Htr b Hb) as [? Htk]. rewrite length_inserts, inserts_below by lia. by split.
    + intros j Hj. rewrite Hout by done. by apply Hto.
  - intros b r Hr. split; [by apply Hrow|].
    assert (Hb : (b < n)%nat) by (rewrite <- Hlen; by eapply lookup_lt_Some).
    destruct (Hwide b Hb) as [_ Hw]. destruct (Hreq b r Hr) as [(_ & ? & _) _]. lia.
Qed.

(** What a step that is not out of slots leaves. *)
Lemma step_accounts st loc a logits :
  rows_ok -> (0 < bs)%nat -> inv st ->
  Token.pool (kv (world st)) ≡ₚ loc ++ Token.pool a -> Token.wf a -> is_not_in_free_group a = true ->
  length loc = (n * B)%nat -> length logits = (n * B)%nat ->
  let '(a', rs') := process_all self logits loc (a, reqs st) in
  (forall bufs' log out, inv (TState (TWorld a' (step_table st loc) bufs') rs' log out)) /\
  length rs' = n%nat /\
  (forall b r r', reqs st !! b = Some r -> rs' !! b = Some r' ->
     (exists k, length (committed r') = (length (committed r) + k)%nat /\ (finished self r' \/ (0 < k)%nat)) /\
     (finished self r -> finished self r')).
Proof.
  intros Hrows Hbs Hinv Hpl Hwf Hg Hloc Hlog.
  destruct (step_table_spec st loc Hrows Hinv Hloc) as [Htk Hrow].
  destruct Hinv as [Hlen Hreq _ Hpool _ _].
  pose proof (process_all_spec self logits loc a (reqs st)) as Hall. cbn zeta in Hall.
  destruct (process_all _ _ _ _) as [a' rs']. destruct Hall as (Hrs & Hp' & Hwf' & Hg').
  assert (Hone : forall b r, reqs st !! b = Some r ->
    exists freed r', process_request self logits (get_block B b loc) b r = (freed, r') /\
      rs' !! b = Some r' /\ req_ok self r' /\ advances self (get_block B b loc) r freed r' /\
      (found_eos r = true -> r' = r)).
  { intros b r Hr. destruct (Hreq b r Hr) as [Hok _].
    assert (b < n)%nat by (rewrite <- Hlen; by eapply lookup_lt_Some).
    pose proof (process_request_spec self n logits (get_block B b loc) b r Hbs Hlog ltac:(done) Hok) as Hs.
    destruct (process_request _ _ _ _ _) as [freed r'] eqn:Hpr. exists freed, r'.
    split; [done|]. split; [|done]. by rewrite Hrs, list_lookup_imap, Hr; cbn; rewrite Hpr. }
  assert (Hlen' : length rs' = n%nat) by (by rewrite Hrs, length_imap).
  split; [|split; [done|]].
  - intros bufs' log out. split; cbn [world reqs kv req_to_token].
    + done.
    + intros b r' Hr'. destruct (lookup_lt_is_Some_2 (reqs st) b) as [r Hr].
      { rewrite Hlen, <- Hlen'. by eapply lookup_lt_Some. }
      destruct (Hone b r Hr) as (freed & r'' & _ & Hb & Hok & (acc & Hc & Hcp & _) & _).
      rewrite Hr' in Hb. injection Hb as <-. split; [done|]. destruct (Hreq b r Hr) as [_ Hcp0].
      rewrite Hcp, Hcp0, Hc, length_app. lia.
    + done.
    + assert (Hmove : forall L Q K F K' : list Z, K' ++ F ≡ₚ K ++ L -> (F ++ Q) ++ K' ≡ₚ (L ++ Q) ++ K).
      { intros L Q K F K' HKF. trans ((K' ++ F) ++ Q); [solve_Permutation|].
        rewrite HKF. solve_Permutation. }
      rewrite <- Hpool, Hpl, Hp'. apply Hmove. clear Hmove.
      rewrite concat_imap_seq, Hlen.
      trans (kept (req_to_token (world st)) (committed <$> reqs st)
               ++ (seq 0 (length ids) ≫= (fun b => get_block B b loc)));
        [|by rewrite <- (concat_blocks B n loc Hloc)].
      unfold kept. rewrite <- !bind_app_perm. apply bind_perm_ext.
      intros b Hb%elem_of_seq. destruct (lookup_lt_is_Some_2 (reqs st) b) as [r Hr]; [lia|].
      destruct (Hone b r Hr) as (freed & r' & Hpr & Hb' & _ & (acc & Hc & _ & Hle & -> & _) & _).
      rewrite (list_lookup_total_correct _ _ _ Hr), Hpr. cbn [fst].
      rewrite (list_lookup_total_correct (committed <$> rs') b (committed r'))
        by (by rewrite list_lookup_fmap, Hb').
      rewrite (list_lookup_total_correct (committed <$> reqs st) b (committed r))
        by (by rewrite list_lookup_fmap, Hr).
      destruct (Hrow b r Hr) as [Hrw Hwide]. unfold kept_of. rewrite Hrw, Hc, length_app.
      assert (Hblk : length (get_block B b loc) = B) by (apply (length_get_block B b n); [done|lia]).
      pose proof (quad_ge self). rewrite kept_extend by lia.
      rewrite <- app_assoc, take_drop. done.
    + by apply Hwf'.
    + by rewrite Hg'.
  - intros b r r' Hr Hr'. destruct (Hone b r Hr) as (freed & r'' & _ & Hb & (_ & Hle & _) & Hadv & Heos).
    rewrite Hr' in Hb. injection Hb as <-. destruct Hadv as (acc & Hc & _ & _ & _ & Hprog). split.
    + exists (length acc). rewrite Hc, length_app. split; [done|].
      destruct Hprog as [?|Hne]; [by left|right]. destruct acc; [done|cbn; lia].
    + intros [He|Hf]; [by rewrite (Heos He); left|]. right. rewrite Hc, length_app in *. lia.
Qed.

Lemma quad_step_inv st st' c :
  rows_ok -> (0 < bs)%nat -> inv st -> quad_step self model fb st = Ok (st', c) -> inv st'.
Proof.
  intros Hrows Hbs Hinv. unfold quad_step. cbn zeta.
  destruct (build_tidar_decode_inputs_pooled _ _ _ _ _ _ _ _ _ _)
    as [[[[tok pos] mask] [[dt po] cm]]|e]; [|done].
  step_ok.
  pose proof (inv_len _ Hinv) as Hlen.
  destruct (Token.alloc _ _) as [[loc|] a] eqn:Ha.
  - pose proof (Token.alloc_wf _ _ _ _ (inv_wf _ Hinv) Ha) as Hwf.
    apply Token.alloc_spec in Ha as ([Hp Hl] & _ & Hg).
    rewrite (inv_group _ Hinv) in Hg. unfold tforward. cbn beta iota.
    destruct (Nat.eqb_spec (length (take (length (reqs st) * B) (full_logits
       (model (length (tlog st)) (TargetVerify (verify_batch fb tok pos loc (cur_prefix <$> reqs st))
          mask B (step_table st loc)))))) (length (reqs st) * B)) as [Hlg|Hlg]; cbn [negb].
    2: { unfold step_table in Hlg. rewrite (proj2 (Nat.eqb_neq _ _) Hlg). done. }
    assert (Hloc : length loc = (n * B)%nat).
    { specialize (Hl ltac:(lia)). unfold len in Hl. rewrite Hlen in Hl. lia. }
    pose proof (step_accounts st loc a _ Hrows Hbs Hinv Hp Hwf Hg Hloc
      ltac:(rewrite <- Hlen; exact Hlg)) as Hacc.
    unfold step_table in Hlg, Hacc. rewrite (proj2 (Nat.eqb_eq _ _) Hlg). cbn [negb].
    destruct (process_all _ _ _ _) as [a' rs']. intros [= <- <-]. apply Hacc.
  - intros [= <- <-]. pose proof (Token.alloc_wf _ _ _ _ (inv_wf _ Hinv) Ha) as Hwf.
    apply Token.alloc_spec in Ha as ([Hp _] & _ & Hg). destruct Hinv as [? ? ? Hpool ? Hgi].
    split; cbn; try done; [by rewrite <- Hp|congruence].
Qed.

Lemma quad_loop_inv k st st' :
  rows_ok -> (0 < bs)%nat -> inv st -> quad_loop self model k fb st = Ok st' -> inv st'.
Proof.
  intros Hrows Hbs. revert st. induction k as [|k IH]; intros st Hinv; cbn [quad_loop].
  { by intros [= <-]. }
  destruct (forallb _ _); [by intros [= <-]|].
  destruct (quad_step self model fb st) as [[st1 c]|e] eqn:Hs; [|done].
  step_ok.
  apply quad_step_inv in Hs; [|done..]. destruct c; [by apply IH|by intros [= <-]].
Qed.

(** *** Progress *)

(** Buffers made by _init_pool for at least this batch. *)
Definition bufs_ok (p : tpool) : Prop :=
  (n * B <= length (pool_positions p))%nat /\ (n * B <= length (pool_draft_tokens p))%nat /\
  (n * (B * (max_prefix + B)) <= length (pool_custom_mask p))%nat.

(** One row of logits per query of a verification pass. *)
Definition tmodel_shaped : Prop :=
  forall k fb mask q t, length (full_logits (model k (TargetVerify fb mask q t))) = length (input_ids fb).

Lemma mask_numel_le l W M :
  (forall p, p ∈ l -> (p <= M)%nat) -> (mask_numel W l <= length l * (W * (M + W)))%nat.
Proof.
  unfold mask_numel. induction l as [|p l IH]; intros Hp; [done|]. cbn [fmap list_fmap foldr length].
  assert (p <= M)%nat by (apply Hp; by left).
  specialize (IH ltac:(intros q Hq; apply Hp; by right)). nia.
Qed.

Lemma length_kept table outs k :
  (forall b, (b < n)%nat -> (length (outs !!! b) <= k)%nat) -> (length (kept table outs) <= n * k)%nat.
Proof.
  intros Hb. unfold kept. enough (He : forall m, (m <= n)%nat ->
    (length (seq 0 m ≫= (fun b => kept_of table b (length (outs !!! b)))) <= m * k)%nat) by (by apply He).
  induction m as [|m IH]; intros Hm; [done|]. rewrite seq_S, bind_app, length_app.
  change ([?x] ≫= ?f) with (f x ++ []). rewrite app_nil_r. unfold kept_of at 2. rewrite length_take.
  specialize (Hb m ltac:(lia)). specialize (IH ltac:(lia)). cbn [plus]. lia.
Qed.

Lemma drafts_length st : inv st -> length (concat (draft <$> reqs st)) = (n * bs)%nat.
Proof.
  intros Hinv. rewrite <- (inv_len _ Hinv).
  assert (Hd : forall r, r ∈ reqs st -> length (draft r) = bs).
  { intros r (b & Hr)%list_elem_of_lookup. by destruct (inv_req _ Hinv b r Hr) as [(? & _) _]. }
  clear Hinv. induction (reqs st) as [|r l IH]; [done|]. cbn [fmap list_fmap concat length].
  rewrite length_app, IH, (Hd r).
  - lia.
  - by left.
  - intros ? ?. apply Hd. by right.
Qed.

Lemma quad_step_live st :
  rows_ok -> (0 < bs)%nat -> (0 < n)%nat -> tmodel_shaped ->
  (forall b, (b < n)%nat -> (p0 !!! b + bs <= max_prefix)%nat) ->
  (n * (B + bs) <= length slots)%nat ->
  inv st -> bufs_ok (bufs (world st)) ->
  exists st', quad_step self model fb st = Ok (st', true) /\ bufs_ok (bufs (world st')) /\
    (forall b r r', reqs st !! b = Some r -> reqs st' !! b = Some r' ->
     (exists k, length (committed r') = (length (committed r) + k)%nat /\ (finished self r' \/ (0 < k)%nat)) /\
     (finished self r -> finished self r')).
Proof.
  intros Hrows Hbs Hn Hshape Hfit Hslots Hinv (Hbp & Hbt & Hbm). unfold quad_step. cbn zeta.
  pose proof (inv_len _ Hinv) as Hlen. pose proof (drafts_length st Hinv) as Hdl.
  assert (Hpl : length (cur_prefix <$> reqs st) = n%nat) by (by rewrite length_fmap).
  destruct (pooled_spec bs (Z.of_nat (mask_id self)) (cur_prefix <$> reqs st)
    (concat (draft <$> reqs st)) (pool_positions (bufs (world st)))
    (pool_draft_tokens (bufs (world st))) (pool_custom_mask (bufs (world st))))
    as (dt & po & cm & -> & Hdt & Hpo & Hcm).
  { intros Hnil. rewrite Hnil in Hpl. cbn in Hpl. lia. }
  { by rewrite Hpl. }
  { by rewrite Hpl. }
  { by rewrite Hpl. }
  rewrite (proj2 (Nat.leb_le _ _)).
  2: { etransitivity; [apply (mask_numel_le _ _ max_prefix)|by rewrite Hpl].
       intros p (b & Hb)%list_elem_of_lookup. rewrite list_lookup_fmap in Hb.
       destruct (reqs st !! b) as [r|] eqn:Hr; [|done]. injection Hb as <-.
       destruct (inv_req _ Hinv b r Hr) as [(_ & Hc & _) ->].
       specialize (Hfit b ltac:(rewrite <- Hlen; by eapply lookup_lt_Some)). lia. }
  change (Ok ?x ≫= ?f) with (f x). unfold build_decode. cbn beta iota zeta.
  destruct (Token.alloc _ _) as [o a] eqn:Ha.
  pose proof (Token.alloc_wf _ _ _ _ (inv_wf _ Hinv) Ha) as Hwf.
  assert (Hsome : o <> None).
  { intros ->. pose proof (Token.alloc_none_iff (Z.of_nat (B * length (reqs st))) _ (inv_wf _ Hinv)) as Hnone.
    rewrite Ha in Hnone. apply proj1 in Hnone. specialize (Hnone eq_refl).
    rewrite Token.available_pool in Hnone by apply Hinv. unfold len in Hnone.
    pose proof (Permutation_length (inv_pool _ Hinv)) as Hpp. rewrite length_app in Hpp.
    pose proof (length_kept (req_to_token (world st)) (committed <$> reqs st) bs) as Hk.
    rewrite Hlen in Hnone. cut (length (kept (req_to_token (world st)) (committed <$> reqs st)) <= n * bs)%nat; [nia|].
    apply Hk. intros b Hb. destruct (lookup_lt_is_Some_2 (reqs st) b) as [r Hr]; [lia|].
    rewrite (committed_lookup _ _ _ Hr). by destruct (inv_req _ Hinv b r Hr) as [(_ & ? & _) _]. }
  destruct o as [loc|]; [|done]. clear Hsome.
  apply Token.alloc_spec in Ha as ([Hp Hl] & _ & Hg). rewrite (inv_group _ Hinv) in Hg.
  assert (Hloc : length loc = (n * B)%nat).
  { specialize (Hl ltac:(lia)). unfold len in Hl. rewrite Hlen in Hl. lia. }
  unfold tforward. cbn beta iota.
  assert (Htok : length (blocks bs (length (cur_prefix <$> reqs st)) (concat (draft <$> reqs st))
     ≫= (fun d => d ++ replicate (bs * bs) (Z.of_nat (mask_id self)))) = (n * B)%nat).
  { rewrite (length_bind_const _ _ B).
    - unfold blocks. by rewrite length_fmap, length_seq, Hpl.
    - unfold blocks. intros d (b & -> & Hb%elem_of_seq)%list_elem_of_fmap.
      rewrite length_app, length_replicate, (length_get_block bs b n) by (done || lia). unfold quad. lia. }
  match goal with |- context [take _ (full_logits ?o)] => set (out := o) end.
  assert (Hlg : length (take (length (reqs st) * B) (full_logits out)) = (length (reqs st) * B)%nat).
  { rewrite length_take. subst out. rewrite Hshape. cbn [verify_batch input_ids]. rewrite Htok, Hlen. lia. }
  clearbody out. rewrite (proj2 (Nat.eqb_eq _ _) Hlg). cbn [negb].
  pose proof (step_accounts st loc a _ Hrows Hbs Hinv Hp Hwf Hg Hloc
      ltac:(rewrite <- Hlen; exact Hlg)) as Hacc.
  destruct (process_all _ _ _ _) as [a' rs']. destruct Hacc as (_ & _ & Hprog).
  eexists. split; [reflexivity|]. cbn [world bufs reqs]. split; [|exact Hprog].
  unfold bufs_ok. cbn. rewrite Hdt, Hpo, Hcm. done.
Qed.

Lemma quad_loop_live k st :
  rows_ok -> (0 < bs)%nat -> (0 < n)%nat -> tmodel_shaped ->
  (forall b, (b < n)%nat -> (p0 !!! b + bs <= max_prefix)%nat) ->
  (n * (B + bs) <= length slots)%nat ->
  inv st -> bufs_ok (bufs (world st)) ->
  exists st', quad_loop self model k fb st = Ok st' /\
    forall b r r', reqs st !! b = Some r -> reqs st' !! b = Some r' ->
      (finished self r -> finished self r') /\
      (finished self r' \/ (length (committed r) + k <= length (committed r'))%nat).
Proof.
  intros Hrows Hbs Hn Hshape Hfit Hslots. revert st. induction k as [|k IH]; intros st Hinv Hb; cbn [quad_loop].
  { exists st. split; [done|]. intros b r r' Hr Hr'. rewrite Hr in Hr'. injection Hr' as <-.
    split; [done|]. right. lia. }
  destruct (forallb _ _) eqn:Hall.
  { exists st. split; [done|]. intros b r r' Hr Hr'. rewrite Hr in Hr'. injection Hr' as <-.
    split; [done|]. left. right. rewrite forallb_forall in Hall.
    specialize (Hall r (proj1 (list_elem_of_In _ _) (list_elem_of_lookup_2 _ b _ Hr))).
    apply Nat.leb_le in Hall.
    destruct (inv_req _ Hinv b r Hr) as [(_ & ? & _) _]. lia. }
  destruct (quad_step_live st Hrows Hbs Hn Hshape Hfit Hslots Hinv Hb) as (st1 & Hs & Hb1 & Hp1).
  rewrite Hs. step_ok.
  apply quad_step_inv in Hs as Hinv1; [|done..].
  destruct (IH st1 Hinv1 Hb1) as (st' & -> & Hp). exists st'. split; [done|].
  intros b r r' Hr Hr'. destruct (lookup_lt_is_Some_2 (reqs st1) b) as [r1 Hr1].
  { rewrite (inv_len _ Hinv1), <- (inv_len _ Hinv). by eapply lookup_lt_Some. }
  destruct (Hp1 b r r1 Hr Hr1) as [(j & Hj & Hj') Hf1]. destruct (Hp b r1 r' Hr1 Hr') as [Hf Hc].
  split; [by intros ?; apply Hf, Hf1|]. destruct Hj' as [?|?]; [left; by apply Hf|].
  destruct Hc as [?|?]; [by left|right; lia].
Qed.
End loop.

(** ** Whole runs *)

Section runs.
Context `{Softmax} (self : tidar) (model : tmodel) (uninit : nat -> Z).
Local Notation bs := (block_size self).
Local Notation B := (quad (block_size self)).

Definition prefixes_of (fb : forward_batch) : list nat :=
  (fun b => Z.to_nat (extend_prefix_lens fb !!! b)) <$> seq 0 (batch_size fb).

(** A batch with something to denoise, in a world whose table has room. *)
Definition run_pre (fb : forward_batch) (w : tworld) : Prop :=
  (0 < bs)%nat /\ (0 < batch_size fb)%nat /\ length (req_pool_indices fb) = batch_size fb /\
  any (eq_mask (Z.of_nat (mask_id self)) (input_ids fb)) = true /\
  length (full_logits (model 0%nat (DllmExtend fb))) = (batch_size fb * bs)%nat /\
  rows_ok self fb (prefixes_of fb) (req_to_token w) /\
  Token.wf (kv w) /\ is_not_in_free_group (kv w) = true.

Definition start (fb : forward_batch) (w : tworld) : tstate :=
  TState (TWorld (Token.free (out_cache_loc fb) (kv w)) (req_to_token w)
      (if (pool_max_bs (bufs w) <? batch_size fb)%nat then init_pool self uninit (batch_size fb) else bufs w))
    ((fun b => TReq (Z.to_nat (extend_prefix_lens fb !!! b))
        (get_block bs b (initial_draft self (full_logits (model 0%nat (DllmExtend fb))))) [] false)
      <$> seq 0 (batch_size fb))
    [DllmExtend fb] (model 0%nat (DllmExtend fb)).

Lemma run_unfold fb w :
  run_pre fb w ->
  run self model uninit fb w =
    (st ← quad_loop self model (max_quad_iters self) fb (start fb w);
     Ok (Some (last_out st), committed <$> reqs st, false, world st, tlog st)).
Proof.
  intros (_ & _ & _ & Hany & _). unfold run. cbn zeta. rewrite Hany. cbn [negb].
  unfold start, tforward. destruct (_ <? _)%nat; done.
Qed.

Lemma start_inv fb w :
  run_pre fb w ->
  inv self fb (prefixes_of fb) (req_to_token w) (Token.pool (kv w) ++ out_cache_loc fb) (start fb w).
Proof.
  intros (Hbs & Hn & Hids & _ & Hlg & Hrows & Hwf & Hg). split; cbn [start world reqs kv req_to_token].
  - by rewrite length_fmap, length_seq.
  - intros b r. rewrite list_lookup_fmap, fmap_Some. intros (b' & Hb & ->).
    apply lookup_seq in Hb as [-> Hb]. cbn [plus] in *. split.
    + split; [|split; [cbn; lia|]].
      * cbn [draft]. apply (length_get_block bs b (batch_size fb)); [|done].
        unfold initial_draft. by rewrite length_fmap.
      * unfold eos_ok. cbn. intros e _. apply not_elem_of_nil.
    + cbn [cur_prefix committed length]. rewrite Nat.add_0_r. symmetry. apply list_lookup_total_correct.
      unfold prefixes_of. rewrite list_lookup_fmap, lookup_seq_lt by done. done.
  - done.
  - rewrite Token.free_pool. assert (Hk : kept fb (prefixes_of fb) (req_to_token w)
      (committed <$> ((fun b => TReq (Z.to_nat (extend_prefix_lens fb !!! b))
        (get_block bs b (initial_draft self (full_logits (model 0%nat (DllmExtend fb))))) [] false)
      <$> seq 0 (batch_size fb))) = []).
    { unfold kept. rewrite Hids. apply length_zero_iff_nil.
      rewrite (length_bind_const _ _ 0%nat); [lia|]. intros b Hb%elem_of_seq.
      rewrite (list_lookup_total_correct _ _ []); [done|].
      rewrite !list_lookup_fmap, lookup_seq_lt by lia. done. }
    rewrite Hk, app_nil_r. apply Permutation_app_comm.
  - by apply Token.free_wf.
  - unfold Token.free. destruct (bool_decide _); [done|]. rewrite Hg. by destruct (need_sort _).
Qed.

(** C4: KV accounting of a TiDAR block, for requests whose row of the table has
    room for the prefix, the block and the [block_size * (block_size + 1)]
    entries of the working area ([rows_ok]; the code does not check it, and
    [narrow_row_overwrites_next] is what happens otherwise).  Every slot the run
    took or was given is, when it returns, either free or recorded in the table
    for exactly one committed token: free slots plus the slots of the committed
    tokens are the slots that were free plus the ones the scheduler had allocated
    for the block.  The prefixes of the batch's rows and all other rows are as
    before. *)
Theorem tidar_kv_conserved fb w out outs g w' log :
  run_pre fb w -> run self model uninit fb w = Ok (out, outs, g, w', log) ->
  Token.pool (kv w') ++ kept fb (prefixes_of fb) (req_to_token w') outs
    ≡ₚ Token.pool (kv w) ++ out_cache_loc fb /\
  table_kept fb (prefixes_of fb) (req_to_token w) (req_to_token w').
Proof.
  intros Hpre Hrun. rewrite (run_unfold fb w Hpre) in Hrun.
  destruct (quad_loop _ _ _ _ _) as [st|] eqn:Hl; [|done].
  change (Ok ?x ≫= ?f) with (f x) in Hrun. cbn beta in Hrun. injection Hrun as <- <- <- <- <-.
  destruct Hpre as (Hbs & Hn & Hids & Hany & Hlg & Hrows & Hwf & Hg).
  pose proof (quad_loop_inv self model fb _ _ _ _ _ _ Hrows Hbs (start_inv fb w ltac:(done)) Hl) as Hinv.
  split; [apply Hinv|apply Hinv].
Qed.

(** C5: a TiDAR block completes.  With buffers, slots and table rows for the
    batch and at least [block_size] quadratic iterations the run returns, and
    each request has committed a whole block, or an EOS token as its last
    token. *)
Theorem tidar_completes fb w :
  run_pre fb w -> tmodel_shaped model -> (bs <= max_quad_iters self)%nat ->
  (forall b, (b < batch_size fb)%nat -> (prefixes_of fb !!! b + bs <= max_prefix)%nat) ->
  (batch_size fb * (B + bs) <= length (Token.pool (kv w) ++ out_cache_loc fb))%nat ->
  bufs_ok self fb (bufs w) \/ (pool_max_bs (bufs w) < batch_size fb)%nat ->
  exists out outs w' log,
    run self model uninit fb w = Ok (out, outs, false, w', log) /\ length outs = batch_size fb /\
    forall b toks, outs !! b = Some toks ->
      (length toks = bs /\ (forall e, eos_id self = Some e -> e ∉ take (bs - 1) toks)) \/
      (exists e pre, eos_id self = Some e /\ toks = pre ++ [e] /\ e ∉ pre /\ (length toks <= bs)%nat).
Proof.
  intros Hpre Hshape Hit Hfit Hslots Hbufs. rewrite (run_unfold fb w Hpre).
  pose proof (start_inv fb w Hpre) as Hinv0.
  destruct Hpre as (Hbs & Hn & Hids & Hany & Hlg & Hrows & Hwf & Hg).
  destruct (quad_loop_live self model fb (prefixes_of fb) (req_to_token w)
    (Token.pool (kv w) ++ out_cache_loc fb) (max_quad_iters self) (start fb w)) as (st & Hl & Hp);
    rewrite ?Hids; try done.
  { cbn [start world bufs]. destruct (Nat.ltb_spec (pool_max_bs (bufs w)) (batch_size fb)).
    - unfold bufs_ok, init_pool. cbn [pool_positions pool_draft_tokens pool_custom_mask].
      rewrite Hids, !length_fmap, !length_seq. done.
    - destruct Hbufs as [?|?]; [done|lia]. }
  pose proof (quad_loop_inv self model fb _ _ _ _ _ _ Hrows Hbs Hinv0 Hl) as Hinv.
  rewrite Hl. exists (Some (last_out st)), (committed <$> reqs st), (world st), (tlog st).
  split; [done|]. split; [rewrite length_fmap, (inv_len _ _ _ _ _ _ Hinv); done|].
  intros b toks. rewrite list_lookup_fmap, fmap_Some. intros (r & Hr & ->).
  destruct (inv_req _ _ _ _ _ _ Hinv b r Hr) as [(_ & Hc & He) _].
  assert (Hb : (b < batch_size fb)%nat)
    by (rewrite <- Hids, <- (inv_len _ _ _ _ _ _ Hinv); by eapply lookup_lt_Some).
  destruct (lookup_lt_is_Some_2 (reqs (start fb w)) b) as [r0 Hr0];
    [by rewrite (inv_len _ _ _ _ _ _ Hinv0), Hids|].
  destruct (Hp b r0 r Hr0 Hr) as [_ Hfin]. unfold eos_ok in He. unfold finished in Hfin.
  destruct (found_eos r) eqn:Hfe.
  - right. destruct He as (e & pre & ? & ? & ?). by exists e, pre.
  - left. destruct Hfin as [[?|?]|?]; [done|..]; (split; [lia|]); intros e Hid Hin;
      apply (He e Hid); by eapply elem_of_take in Hin as (? & ?%list_elem_of_lookup_2 & _).
Qed.
End runs.

(** A request with one cached token and a block of two masks, a model that
    always prefers token 1, and a pool of twenty slots. *)
Definition demo_tidar : tidar := TiDAR 2 2 None 2 (Some 5).
Definition demo_call_ids (c : tcall) : list Z :=
  match c with DllmExtend fb | TargetVerify fb _ _ _ => input_ids fb end.
Definition demo_tmodel : tmodel := fun _ c =>
  ForwardOut ((fun _ => [Fin 0; Fin 3; Fin 9]) <$> demo_call_ids c) false None.
Definition demo_tbatch : forward_batch :=
  ForwardBatch 1 [2; 2] [1] [3] [2; 3] 3 [1; 2] 2 [2] [1] [0] None None None false false.
Definition demo_world (max_bs : nat) : tworld :=
  TWorld (snd (Token.alloc 3 (Token.init 20 false)))
    [replicate 12 0; 1 :: 2 :: 3 :: replicate 9 0]
    (TPool (replicate 6 0) (replicate 6 0) (replicate 100 true) max_bs).

Lemma demo_pre max_bs : run_pre demo_tidar demo_tmodel demo_tbatch (demo_world max_bs).
Proof.
  unfold run_pre. split; [vm_compute; lia|]. split; [vm_compute; lia|]. split; [reflexivity|].
  split; [reflexivity|]. split; [reflexivity|]. split; [|split; [by intros _|reflexivity]].
  split; [repeat constructor|]. split; [reflexivity|]. split.
  - intros b c Hb Hc _. cbn in Hb, Hc. lia.
  - intros b Hb. cbn in Hb. assert (b = 0%nat) as -> by lia.
    eexists. split; [reflexivity|]. vm_compute. lia.
Qed.

Lemma tidar_kv_conserved_witness :
  exists out outs g w' log,
  run demo_tidar demo_tmodel (fun _ => 0) demo_tbatch (demo_world 1) = Ok (out, outs, g, w', log) /\
  outs = [[1; 0]] /\
  Token.pool (kv w') ++ kept demo_tbatch (prefixes_of demo_tbatch) (req_to_token w') outs
    ≡ₚ Token.pool (kv (demo_world 1)) ++ [2; 3].
Proof.
  destruct (run demo_tidar demo_tmodel (fun _ => 0) demo_tbatch (demo_world 1))
    as [[[[[out outs] g] w'] log]|] eqn:Hrun.
  - exists out, outs, g, w', log. split; [reflexivity|]. split.
    + assert (Ho : (fun '(_, outs, _, _, _) => outs)
        <$> run demo_tidar demo_tmodel (fun _ => 0) demo_tbatch (demo_world 1) = Ok [[1; 0]])
        by (vm_compute; reflexivity).
      rewrite Hrun in Ho. by injection Ho.
    + exact (proj1 (tidar_kv_conserved demo_tidar demo_tmodel (fun _ => 0) demo_tbatch (demo_world 1)
        out outs g w' log (demo_pre 1) Hrun)).
  - exfalso. vm_compute in Hrun. discriminate Hrun.
Defined.

Lemma tidar_completes_witness :
  exists out outs w' log,
    run demo_tidar demo_tmodel (fun _ => 0) demo_tbatch (demo_world 0) = Ok (out, outs, false, w', log) /\
    length outs = 1%nat.
Proof.
  destruct (tidar_completes demo_tidar demo_tmodel (fun _ => 0) demo_tbatch (demo_world 0))
    as (out & outs & w' & log & Hrun & Hlen & _).
  - apply demo_pre.
  - intros k fb mask q t. cbn. by rewrite length_fmap.
  - vm_compute. lia.
  - intros b Hb. cbn in Hb. assert (b = 0%nat) as -> by lia. vm_compute. lia.
  - vm_compute. lia.
  - right. vm_compute. lia.
  - exists out, outs, w', log. by split.
Defined.
