(* ===== verification/DllmReq.v ===== *)
(** * Requests of the diffusion scheduler

    DllmConfig (srt/dllm/config.py), the request state the diffusion path
    reads and writes with the methods of ReqDllmMixin (srt/dllm/mixin/req.py)
    and of Req (srt/managers/schedule_batch.py): building the next round's
    input, finishing, and giving the KV cache back. *)

From S2P Require Import Prelude.

(** ** DllmConfig *)

Record dllm_config := DllmConfig {
  algorithm : string;
  block_size : Z;
  mask_id : Z;
  max_running_requests : Z;
  max_steps : Z;
  causal_context : bool;
  emit_full_blocks : bool;   (* algorithm_config.get("emit_full_blocks", False) *)
}.

(** The YAML file's keys that are read here; a missing key is [None]. *)
Record algo_yaml := AlgoYaml {
  yaml_block_size : option Z;
  yaml_max_steps : option Z;
  yaml_causal_context : option bool;
  yaml_emit_full_blocks : option bool;
}.

Record server_args := ServerArgs {
  sa_dllm_algorithm : option string;
  sa_dllm_algorithm_config : option algo_yaml;
  sa_max_running_requests : option Z;
  sa_cuda_graph_bs : option (list Z);
}.

Definition DLLM_PARAMS : list (string * (Z * Z)) :=
  [("LLaDA2MoeModelLM", (32, 156895)); ("SDARForCausalLM", (4, 151669));
   ("SDARMoeForCausalLM", (4, 151669)); ("DiffEncoderModel", (32, 151662));
   ("MinistralDiffEncoderModel", (32, 100))]%string.

Definition dllm_params (arch : string) : option (Z * Z) :=
  snd <$> (list_find (fun '(a, _) => a = arch) DLLM_PARAMS ≫= (fun '(_, p) => Some p)).

(** [max(server_args.cuda_graph_bs) if server_args.cuda_graph_bs else 128] *)
Definition cg_max_bs (sa : server_args) : Z :=
  match sa_cuda_graph_bs sa with
  | Some (b :: l) => foldl Z.max b l
  | _ => 128
  end.

(** DllmConfig.from_server_args; [arch] is the model's architecture name. *)
Definition from_server_args (arch : string) (sa : server_args) : res (option dllm_config) :=
  match sa_dllm_algorithm sa with
  | None => Ok None
  | Some algo =>
      match dllm_params arch with
      | None => Raise RuntimeError
      | Some (bs, mask) =>
          let max_steps := bs in
          let '(bs, max_steps, causal, emit) :=
            match sa_dllm_algorithm_config sa with
            | None => (bs, max_steps, false, false)
            | Some y => (default bs (yaml_block_size y), default max_steps (yaml_max_steps y),
                         default false (yaml_causal_context y), default false (yaml_emit_full_blocks y))
            end in
          let max_running :=
            match sa_max_running_requests sa with
            | Some m => m
            | None =>
                if bool_decide (algo = "TiDAR"%string)
                then Z.max 1 (cg_max_bs sa * bs / (bs * (bs + 1)))
                else 1
            end in
          Ok (Some (DllmConfig algo bs mask max_running max_steps causal emit))
      end
  end.

(** ** Requests *)

Inductive dllm_phase := STAGING_PREFILL | STAGING_DECODE | INCOMING_PREFILL | INCOMING_DECODE.
#[global] Instance dllm_phase_eq_dec : EqDecision dllm_phase.
Proof. solve_decision. Defined.

(** Texts are lists of code points. *)
Definition text : Type := list Z.
Definition text_of (s : string) : text := (fun c => Z.of_nat (Ascii.nat_of_ascii c)) <$> String.list_ascii_of_string s.

Inductive finish_reason :=
  | FINISH_LENGTH (length : Z)
  | FINISH_MATCHED_TOKEN (matched : Z)
  | FINISH_MATCHED_STR (matched : text)
  | FINISH_MATCHED_REGEX (matched : text)
  | FINISH_ABORT.

Record sampling_params := SamplingParams {
  max_new_tokens : Z;
  ignore_eos : bool;
  stop_token_ids : list Z;
}.

(** What the tokenizer contributes: its EOS id and additional stop ids. *)
Record tokenizer := Tokenizer { tok_eos : Z; tok_additional : list Z }.

(** Fixed at creation. *)
Record req_info := ReqInfo {
  rid : Z;
  origin_input_ids : list Z;
  sampling : sampling_params;
  eos_token_ids : list Z;
  tok : option tokenizer;
  vocab_size : Z;
  return_logprob : bool;
  logprob_start_len : Z;
  wants_top_logprobs : bool;         (* top_logprobs_num > 0 *)
  wants_token_ids_logprob : bool;    (* token_ids_logprob is not None *)
}.

(** The per-token channels returned beside the output, floats opaque. *)
Record lp_channels := LpChannels {
  output_token_logprobs_val : list Z;
  output_token_logprobs_idx : list Z;
  output_token_reveal_steps : option (list Z);
  output_token_entropy_val : option (list Z);
  output_top_logprobs_val : list (list Z);
  output_top_logprobs_idx : list (list Z);
  output_token_ids_logprobs_val : list (list Z);
  output_token_ids_logprobs_idx : list (list Z);
}.
Definition no_channels : lp_channels := LpChannels [] [] None None [] [] [] [].

(** Generation state. *)
Record req_out := ReqOut {
  output_ids : list Z;
  channels : lp_channels;
  finished_reason : option finish_reason;
  finished_len : option Z;
  to_finish : option finish_reason;
}.

(** Req-level memory management. *)
Record req_kv := ReqKV {
  req_pool_idx : option nat;
  kv_committed_len : Z;
  kv_allocated_len : Z;
  kv_committed_freed : bool;
  kv_overallocated_freed : bool;
  cache_protected_len : Z;
}.

(** The input of the next round. *)
Record req_in := ReqIn {
  fill_ids : list Z;
  prefix_indices : list Z;
  extend_input_len : Z;
  extend_logprob_start_len : Z;
  is_chunked : Z;
  phase : option dllm_phase;
  dllm_block_offset : Z;
}.

Record req := Req { info : req_info; out : req_out; kvs : req_kv; inp : req_in }.

Definition set_out (r : req) (o : req_out) : req := Req (info r) o (kvs r) (inp r).
Definition set_kvs (r : req) (k : req_kv) : req := Req (info r) (out r) k (inp r).
Definition set_inp (r : req) (i : req_in) : req := Req (info r) (out r) (kvs r) i.

Definition set_fill_ids (r : req) (l : list Z) : req :=
  let i := inp r in
  set_inp r (ReqIn l (prefix_indices i) (extend_input_len i) (extend_logprob_start_len i)
    (is_chunked i) (phase i) (dllm_block_offset i)).
Definition set_prefix_indices (r : req) (l : list Z) : req :=
  let i := inp r in
  set_inp r (ReqIn (fill_ids i) l (extend_input_len i) (extend_logprob_start_len i)
    (is_chunked i) (phase i) (dllm_block_offset i)).
Definition set_extend_len_field (r : req) (n : Z) : req :=
  let i := inp r in
  set_inp r (ReqIn (fill_ids i) (prefix_indices i) n (extend_logprob_start_len i)
    (is_chunked i) (phase i) (dllm_block_offset i)).
Definition set_is_chunked (r : req) (n : Z) : req :=
  let i := inp r in
  set_inp r (ReqIn (fill_ids i) (prefix_indices i) (extend_input_len i) (extend_logprob_start_len i)
    n (phase i) (dllm_block_offset i)).
Definition set_phase (r : req) (p : option dllm_phase) : req :=
  let i := inp r in
  set_inp r (ReqIn (fill_ids i) (prefix_indices i) (extend_input_len i) (extend_logprob_start_len i)
    (is_chunked i) p (dllm_block_offset i)).
Definition set_block_offset (r : req) (n : Z) : req :=
  let i := inp r in
  set_inp r (ReqIn (fill_ids i) (prefix_indices i) (extend_input_len i) (extend_logprob_start_len i)
    (is_chunked i) (phase i) n).
Definition set_kv_lens (r : req) (committed allocated : Z) : req :=
  let k := kvs r in
  set_kvs r (ReqKV (req_pool_idx k) committed allocated (kv_committed_freed k)
    (kv_overallocated_freed k) (cache_protected_len k)).
Definition set_pool_idx (r : req) (i : option nat) : req :=
  let k := kvs r in
  set_kvs r (ReqKV i (kv_committed_len k) (kv_allocated_len k) (kv_committed_freed k)
    (kv_overallocated_freed k) (cache_protected_len k)).

Definition seqlen (r : req) : Z := len (origin_input_ids (info r)) + len (output_ids (out r)).
Definition finished (r : req) : bool := bool_decide (finished_reason (out r) <> None).
Definition output_ids_through_stop (r : req) : list Z :=
  match finished_len (out r) with
  | Some n => slice_to (output_ids (out r)) n
  | None => output_ids (out r)
  end.

#[global] Instance finish_reason_eq_dec : EqDecision finish_reason.
Proof. solve_decision. Defined.

(** ** ReqDllmMixin *)

Section mixin.
Context (cfg : dllm_config).

Definition init_diffusion_llm (r : req) : req :=
  set_block_offset (set_phase r (Some INCOMING_PREFILL)) 0.

Definition is_dllm_prefill (r : req) : bool :=
  bool_decide (phase (inp r) ∈ [Some STAGING_PREFILL; Some INCOMING_PREFILL]).

Definition determine_dllm_phase (r : req) : req :=
  let fill := fill_ids (inp r) in
  let min_required_length := len (prefix_indices (inp r)) + block_size cfg in
  if len fill <? min_required_length then r
  else
    let input_block := slice_from fill (len fill - block_size cfg) in
    set_phase r (Some (if bool_decide (mask_id cfg ∉ input_block)
                       then STAGING_PREFILL else STAGING_DECODE)).

Definition init_fill_ids_for_dllm (r : req) : req :=
  let origin := origin_input_ids (info r) in
  let output := output_ids (out r) in
  let offset := if bool_decide (fill_ids (inp r) = []) then len origin
                else len origin + len output in
  set_fill_ids (set_block_offset r offset)
    (origin ++ output ++ replicate (Z.to_nat (block_size cfg)) (mask_id cfg)).

Definition set_extend_input_len (r : req) (n : Z) : req :=
  let plen := len (prefix_indices (inp r)) in
  let lp := if logprob_start_len (info r) =? -1 then len (fill_ids (inp r))
            else Z.max (logprob_start_len (info r)) plen in
  let i := inp r in
  set_inp r (ReqIn (fill_ids i) (prefix_indices i) n (Z.min (lp - plen) n)
    (is_chunked i) (phase i) (dllm_block_offset i)).

Definition init_prompt_cache_input (r : req) : req :=
  let r := set_fill_ids r (origin_input_ids (info r)) in
  let r := set_prefix_indices r [] in
  set_extend_input_len r (len (fill_ids (inp r))).

Definition update_block_offset_for_dllm (r : req) : res req :=
  let prefix_len := len (prefix_indices (inp r)) in
  _ ← py_assert (negb (bool_decide (output_ids (out r) = []))
                 || (prefix_len mod block_size cfg =? 0));
  Ok (if dllm_block_offset (inp r) <? prefix_len then set_block_offset r prefix_len else r).

(** Req.init_next_round_input of a diffusion request without a session or
    embedding overrides.  [tree] is the prefix cache's match_prefix: the cached
    slots for a key, and the protected length when the cache reports one. *)
Definition init_next_round_input (tree : option (list Z -> list Z * option Z)) (r : req)
    : res req :=
  let r := determine_dllm_phase (init_fill_ids_for_dllm r) in
  let input_len := len (fill_ids (inp r)) in
  let max_prefix_len := input_len - 1 in
  let max_prefix_len :=
    if return_logprob (info r) && (0 <=? logprob_start_len (info r))
    then Z.min max_prefix_len (logprob_start_len (info r)) else max_prefix_len in
  let max_prefix_len := Z.max max_prefix_len 0 in
  let token_ids := slice_to (fill_ids (inp r)) max_prefix_len in
  r ← match tree with
      | None => Ok r
      | Some match_prefix =>
          let '(indices, protected) := match_prefix token_ids in
          let r := set_prefix_indices r indices in
          let k := kvs r in
          let r := set_kvs r (ReqKV (req_pool_idx k) (kv_committed_len k) (kv_allocated_len k)
            (kv_committed_freed k) (kv_overallocated_freed k) (default (len indices) protected)) in
          update_block_offset_for_dllm r
      end;
  Ok (set_extend_input_len r (len (fill_ids (inp r)) - len (prefix_indices (inp r)))).
End mixin.

(** ** Finishing *)

Section finish.
(** The text-based conditions (stop strings and regexes over the decoded tail)
    and whether a grammar has terminated are the tokenizer's and the grammar
    backend's answers. *)
Context (str_finish : req -> option finish_reason) (grammar_terminated : req -> bool).

Definition set_finished (r : req) (reason : finish_reason) (l : option Z) : req :=
  let o := out r in set_out r (ReqOut (output_ids o) (channels o) (Some reason) l (to_finish o)).

(** The conditions of the loop of _check_token_based_finish. *)
Definition is_stop_token (r : req) (t : Z) : bool :=
  bool_decide (t ∈ stop_token_ids (sampling (info r)))
  || bool_decide (t ∈ eos_token_ids (info r))
  || match tok (info r) with
     | Some k => (t =? tok_eos k) || bool_decide (t ∈ tok_additional k)
     | None => false
     end.

Definition check_token_based_finish (r : req) (new_tokens : list Z) : option req :=
  if ignore_eos (sampling (info r)) then None else
  match list_find (fun t => is_stop_token r t = true) new_tokens with
  | None => None
  | Some (i, t) =>
      let matched_pos := len (output_ids (out r)) - len new_tokens + Z.of_nat i in
      Some (set_finished r (FINISH_MATCHED_TOKEN t) (Some (matched_pos + 1)))
  end.

Definition out_of_vocab (r : req) (t : Z) : bool := (vocab_size (info r) <? t) || (t <? 0).

Definition check_vocab_boundary_finish (r : req) (new_tokens : list Z) : option req :=
  match list_find (fun t => out_of_vocab r t = true) new_tokens with
  | None => None
  | Some (i, _) =>
      let offset := len (output_ids (out r)) - len new_tokens + Z.of_nat i in
      let o := out r in
      let ids := output_ids o in
      let ids := match stop_token_ids (sampling (info r)) with
                 | t :: _ => <[Z.to_nat offset := t]> ids | [] => ids end in
      let ids := match eos_token_ids (info r) with
                 | t :: _ => <[Z.to_nat offset := t]> ids | [] => ids end in
      Some (set_out r (ReqOut ids (channels o)
              (Some (FINISH_MATCHED_STR (text_of "NaN happened"))) (Some (offset + 1)) (to_finish o)))
  end.

Definition check_finished (new_accepted_len : Z) (r : req) : req :=
  let o := out r in
  if finished r then r
  else match to_finish o with
  | Some reason => set_out r (ReqOut (output_ids o) (channels o) (Some reason) (finished_len o) None)
  | None =>
  if max_new_tokens (sampling (info r)) <=? len (output_ids o)
  then set_finished r (FINISH_LENGTH (max_new_tokens (sampling (info r))))
         (Some (max_new_tokens (sampling (info r))))
  else if grammar_terminated r
  then set_finished r (FINISH_MATCHED_TOKEN (List.last (output_ids o) 0)) (finished_len o)
  else
  let new_tokens := slice_from (output_ids o) (- new_accepted_len) in
  match check_token_based_finish r new_tokens with
  | Some r => r
  | None =>
  match check_vocab_boundary_finish r new_tokens with
  | Some r => r
  | None =>
  match str_finish r with
  | Some reason => set_finished r reason (finished_len o)
  | None => r
  end end end end.
End finish.

(** ** Giving the KV cache back *)

(** [strip]: strip_thinking_cache is on and the request produced reasoning. *)
Definition cache_commit_len (strip : bool) (r : req) : Z :=
  if strip then Z.min (kv_committed_len (kvs r)) (len (origin_input_ids (info r)))
  else kv_committed_len (kvs r).

Definition pop_committed_kv_cache (strip : bool) (r : req) : res (Z * req) :=
  let k := kvs r in
  _ ← py_assert (negb (kv_committed_freed k));
  Ok (cache_commit_len strip r,
      set_kvs r (ReqKV (req_pool_idx k) (kv_committed_len k) (kv_allocated_len k) true
        (kv_overallocated_freed k) (cache_protected_len k))).

Definition pop_overallocated_kv_cache (strip : bool) (r : req) : res (Z * Z * req) :=
  let k := kvs r in
  _ ← py_assert (negb (kv_overallocated_freed k));
  Ok (cache_commit_len strip r, kv_allocated_len k,
      set_kvs r (ReqKV (req_pool_idx k) (kv_committed_len k) (kv_allocated_len k)
        (kv_committed_freed k) true (cache_protected_len k))).

(** The fields reset_for_retract sets. *)
Definition reset_for_retract (r : req) : req :=
  let i := inp r in
  let r := set_inp r (ReqIn (fill_ids i) [] 0 0 0 (phase i) (dllm_block_offset i)) in
  set_kvs r (ReqKV (req_pool_idx (kvs r)) 0 0 false false (cache_protected_len (kvs r))).

(** * Theorems *)

Lemma cg_capacity b m : 0 < b -> 0 <= m -> m * b / (b * (b + 1)) * (b * (b + 1)) <= m * b.
Proof.
  intros Hb Hm. rewrite Z.mul_comm. apply Z.mul_div_le. nia.
Qed.

(** What a configuration read from the server arguments guarantees.  An
    unknown architecture is refused; the batch limit of TiDAR, when it is not
    given, is at least one and otherwise small enough that the
    [block_size * (block_size + 1)] queries of every request fit the CUDA-graph
    token buffer. *)
Theorem from_server_args_spec arch sa algo :
  sa_dllm_algorithm sa = Some algo ->
  match from_server_args arch sa with
  | Raise e => e = RuntimeError /\ dllm_params arch = None
  | Ok None => False
  | Ok (Some c) =>
      algorithm c = algo /\ (exists bs, dllm_params arch = Some (bs, mask_id c)) /\
      (forall m, sa_max_running_requests sa = Some m -> max_running_requests c = m) /\
      (sa_max_running_requests sa = None -> 1 <= max_running_requests c /\
        (0 < block_size c -> 0 <= cg_max_bs sa ->
         max_running_requests c = 1 \/
         max_running_requests c * (block_size c * (block_size c + 1)) <= cg_max_bs sa * block_size c))
  end.
Proof.
  intros Ha. unfold from_server_args. rewrite Ha. destruct (dllm_params arch) as [[bs mask]|]; [|done].
  destruct (match sa_dllm_algorithm_config sa with None => _ | Some _ => _ end)
    as [[[bs' steps] causal] emit]. cbn.
  split; [done|]. split; [by exists bs|].
  destruct (sa_max_running_requests sa) as [m|]; [by split; [intros ? [= <-]|]|].
  split; [done|]. intros _. case_bool_decide; [|lia]. split; [lia|]. intros Hb Hm.
  pose proof (cg_capacity bs' (cg_max_bs sa) Hb Hm).
  destruct (Z.max_spec 1 (cg_max_bs sa * bs' / (bs' * (bs' + 1)))) as [[? ->]|[? ->]]; [by right|by left].
Qed.

Lemma from_server_args_witness :
  let sa := ServerArgs (Some "TiDAR"%string) None None None in
  from_server_args "MinistralDiffEncoderModel" sa
    = Ok (Some (DllmConfig "TiDAR" 32 100 3 32 false false)) /\
  3 * (32 * 33) <= 128 * 32.
Proof.
  cbn zeta. split; [vm_compute; reflexivity|].
  pose proof (from_server_args_spec "MinistralDiffEncoderModel"
    (ServerArgs (Some "TiDAR"%string) None None None) "TiDAR"%string eq_refl) as Hs.
  vm_compute in Hs. destruct Hs as (_ & _ & _ & Hs). destruct (Hs eq_refl) as [_ Hcap].
  destruct Hcap as [Hc|Hc]; [done|done|done|exact Hc].
Defined.

Section stop.
Context (str_finish : req -> option finish_reason) (grammar_terminated : req -> bool).

Lemma new_tokens_suffix (pre new : list Z) :
  new <> [] -> slice_from (pre ++ new) (- len new) = new.
Proof.
  intros Hne. unfold slice_from, clamp, len. destruct new as [|x new']; [done|].
  rewrite length_app. cbn [length].
  destruct (Z.ltb_spec (- Z.of_nat (S (length new'))) 0); [|lia].
  replace (Z.to_nat _) with (length pre) by lia. by rewrite drop_app_length.
Qed.

(** Stopping on a token.  When a request that is below its token limit has
    just received a block containing a stop token, it finishes, and the output
    reported for it ends with the first stop token of that block. *)
Theorem check_finished_stop_token r pre new i t :
  let r' := check_finished str_finish grammar_terminated (len new) r in
  finished r = false -> to_finish (out r) = None ->
  output_ids (out r) = pre ++ new -> len (pre ++ new) < max_new_tokens (sampling (info r)) ->
  grammar_terminated r = false -> ignore_eos (sampling (info r)) = false ->
  new !! i = Some t -> is_stop_token r t = true ->
  (forall j u, (j < i)%nat -> new !! j = Some u -> is_stop_token r u = false) ->
  finished_reason (out r') = Some (FINISH_MATCHED_TOKEN t) /\
  output_ids_through_stop r' = pre ++ take (i + 1) new /\
  last (output_ids_through_stop r') = Some t.
Proof.
  cbn zeta. intros Hf Htf Ho Hlen Hg Hi Hl Hst Hfirst.
  assert (Hne : new <> []) by (intros ->; done).
  unfold check_finished. rewrite Hf, Htf, Ho, Hg.
  rewrite (proj2 (Z.leb_gt _ _) Hlen), new_tokens_suffix by done.
  unfold check_token_based_finish. rewrite Hi.
  assert (Hfind : list_find (fun t => is_stop_token r t = true) new = Some (i, t)).
  { apply list_find_Some. split; [done|]. split; [done|]. intros j u Hu Hj. rewrite (Hfirst j u Hj Hu). done. }
  rewrite Hfind. unfold output_ids_through_stop, set_finished. cbn [out finished_reason finished_len set_out output_ids].
  split; [done|]. rewrite Ho.
  replace (len (pre ++ new) - len new + Z.of_nat i + 1) with (Z.of_nat (length pre + (i + 1)))
    by (rewrite len_app; unfold len; lia).
  rewrite slice_to_take, Nat2Z.id, take_app_add by lia. split; [done|].
  rewrite Nat.add_1_r, (take_S_r _ _ t), app_assoc, last_snoc by done. done.
Qed.

(** The length limit is tested before the stop tokens: a block that reaches
    [max_new_tokens] finishes the request with reason length and reports
    exactly [max_new_tokens] tokens, also when the same block held a stop token
    before that point. *)
Theorem check_finished_length_first r n :
  let r' := check_finished str_finish grammar_terminated n r in
  let limit := max_new_tokens (sampling (info r)) in
  finished r = false -> to_finish (out r) = None -> 0 <= limit <= len (output_ids (out r)) ->
  finished_reason (out r') = Some (FINISH_LENGTH limit) /\
  output_ids (out r') = output_ids (out r) /\
  output_ids_through_stop r' = take (Z.to_nat limit) (output_ids (out r)).
Proof.
  cbn zeta. intros Hf Htf [H0 Hlen]. unfold check_finished. rewrite Hf, Htf.
  rewrite (proj2 (Z.leb_le _ _) Hlen). unfold output_ids_through_stop, set_finished. cbn.
  split; [done|]. split; [done|]. by rewrite slice_to_take.
Qed.

(** Checking for the end changes neither the memory nor the number of tokens of
    a request, and one that goes on is below its limit. *)
Lemma check_finished_frame n r :
  let r' := check_finished str_finish grammar_terminated n r in
  kvs r' = kvs r /\ info r' = info r /\ inp r' = inp r /\
  len (output_ids (out r')) = len (output_ids (out r)) /\
  (finished r' = false -> r' = r /\ len (output_ids (out r)) < max_new_tokens (sampling (info r))).
Proof.
  cbn zeta. unfold check_finished. destruct (finished r) eqn:Hf; [by rewrite Hf|].
  destruct (to_finish (out r)) as [reason|]; [done|].
  destruct (Z.leb_spec (max_new_tokens (sampling (info r))) (len (output_ids (out r)))) as [|Hlt]; [done|].
  destruct (grammar_terminated r); [done|]. unfold check_token_based_finish, check_vocab_boundary_finish.
  set (new := slice_from _ _). destruct (ignore_eos (sampling (info r))).
  - destruct (list_find (fun t => out_of_vocab r t = true) new) as [[i t]|].
    + cbn. split; [done|]. split; [done|]. split; [done|]. split; [|done].
      unfold len. destruct (stop_token_ids _), (eos_token_ids _); by rewrite ?length_insert.
    + destruct (str_finish r); done.
  - destruct (list_find (fun t => is_stop_token r t = true) new) as [[i t]|]; [done|].
    destruct (list_find (fun t => out_of_vocab r t = true) new) as [[i t]|].
    + cbn. split; [done|]. split; [done|]. split; [done|]. split; [|done].
      unfold len. destruct (stop_token_ids _), (eos_token_ids _); by rewrite ?length_insert.
    + destruct (str_finish r); done.
Qed.

(** The vocabulary check lets the first id beyond the vocabulary through: ids
    run from [0] to [vocab_size - 1]. *)
Lemma vocab_boundary_off_by_one r :
  0 <= vocab_size (info r) -> check_vocab_boundary_finish r [vocab_size (info r)] = None.
Proof.
  intros Hv. unfold check_vocab_boundary_finish, out_of_vocab. cbn.
  rewrite Z.ltb_irrefl, (proj2 (Z.ltb_ge _ _) Hv). done.
Qed.
End stop.

(** A request with limit 4, EOS token 7, and three tokens already out. *)
Definition demo_req (limit : Z) (outs : list Z) : req :=
  Req (ReqInfo 1 [5; 6] (SamplingParams limit false []) [7] None 100 false (-1) false false)
      (ReqOut outs no_channels None None None) (ReqKV (Some 0%nat) 2 2 false false 0)
      (ReqIn [] [] 0 0 0 (Some INCOMING_PREFILL) 0).

#[global] Instance req_inhabited : Inhabited req := populate (demo_req 0 []).

Lemma check_finished_stop_token_witness :
  output_ids_through_stop (check_finished (fun _ => None) (fun _ => false) 3 (demo_req 9 [1; 2; 7; 3]))
    = [1; 2; 7].
Proof.
  refine (proj1 (proj2 (check_finished_stop_token (fun _ => None) (fun _ => false)
    (demo_req 9 [1; 2; 7; 3]) [1] [2; 7; 3] 1 7
    eq_refl eq_refl eq_refl eq_refl eq_refl eq_refl eq_refl eq_refl _))).
  intros [|j] u Hj Hu; [by injection Hu as <-|lia].
Defined.

Lemma check_finished_length_witness :
  output_ids_through_stop (check_finished (fun _ => None) (fun _ => false) 3 (demo_req 4 [1; 2; 7; 3]))
    = [1; 2; 7; 3].
Proof.
  destruct (check_finished_length_first (fun _ => None) (fun _ => false) (demo_req 4 [1; 2; 7; 3]) 3)
    as (_ & _ & H); [reflexivity|reflexivity|vm_compute; split; discriminate|exact H].
Defined.
