(* ===== verification/StopStrings.v ===== *)
(** * Stop strings

    tail_str, check_match_stop_str_prefix and _check_str_based_finish of Req in
    managers/schedule_batch.py: the text of the last tokens of a request, and
    the stop strings and stop regexes that are looked for in it.  The
    tokenizer's [decode] and [re.search] are parameters. *)

From S2P Require Import Prelude DllmReq.
#[local] Open Scope Z_scope.

Module Stops.

(** What SamplingParams.normalize leaves behind. *)
Record stops := StopConf {
  stop_strs : list text;
  stop_str_max_len : Z;
  stop_regex_strs : list text;
  stop_regex_max_len : Z;
}.

Definition no_stops : stops := StopConf [] 0 [] 0.

(** U+FFFD, for bytes that are not a character (yet). *)
Definition replacement : Z := 65533.

Definition is_prefix (p t : text) : bool := bool_decide (p `prefix_of` t).

(** [m in t] *)
Fixpoint contains (m t : text) : bool :=
  is_prefix m t || match t with [] => false | _ :: t => contains m t end.

(** Some suffix of [tail] of length 1 to [min(len(tail), len(stop))] is a prefix
    of [stop]. *)
Definition overlaps (tail stop : text) : bool :=
  existsb (fun i => bool_decide (drop (length tail - i) tail = take i stop)) (seq 1 (length tail `min` length stop)).

Section stops.
Context (tokenizer_decode : list Z -> text).

Definition max_len_tail_str (st : stops) : Z := Z.max (stop_str_max_len st + 1) (stop_regex_max_len st + 1).

Definition tail_str (st : stops) (r : req) : text :=
  if bool_decide (stop_strs st = []) && bool_decide (stop_regex_strs st = []) then [] else
  let tail_len := Z.min (max_len_tail_str st) (len (output_ids (out r))) in
  tokenizer_decode (slice_from (output_ids (out r)) (- tail_len)).

Definition check_match_stop_str_prefix (st : stops) (r : req) : bool :=
  if bool_decide (stop_strs st = []) then false else
  let tail := tail_str st r in
  if bool_decide (tail = []) then false else
  existsb (fun stop => if bool_decide (stop = []) then false else contains stop tail || overlaps tail stop) (stop_strs st).

(** [search] is re.search; [decoded_text] that of the request. *)
Context (search : text -> text -> bool) (decoded_text : text).

(** _check_str_based_finish: the reason, when there is one. *)
Definition check_str_based_finish (st : stops) (r : req) : option finish_reason :=
  if bool_decide (stop_strs st = []) && bool_decide (stop_regex_strs st = []) then None else
  let tail := tail_str st r in
  match List.find (fun m => contains m tail || contains m decoded_text) (stop_strs st) with
  | Some m => Some (FINISH_MATCHED_STR m)
  | None =>
      match List.find (fun m => search m tail) (stop_regex_strs st) with
      | Some m => Some (FINISH_MATCHED_REGEX m)
      | None => None
      end
  end.

(** ** Containment *)

Lemma contains_spec m t : contains m t = true <-> exists a b, t = a ++ m ++ b.
Proof.
  induction t as [|x t IH]; cbn [contains]; rewrite orb_true_iff; unfold is_prefix; rewrite bool_decide_eq_true.
  - split; [intros [[b ->]|]; [by exists [], b|done]|]. intros (a & b & Hab). destruct a; [left; by exists b|done].
  - rewrite IH. split.
    + intros [[b ->]|(a & b & ->)]; [by exists [], b|by exists (x :: a), b].
    + intros ([|y a] & b & Hab); [left; by exists b|]. right. injection Hab as -> ->. by exists a, b.
Qed.

Lemma contains_more m a t b : contains m t = true -> contains m (a ++ t ++ b) = true.
Proof. rewrite !contains_spec. intros (c & d & ->). exists (a ++ c), (d ++ b). by rewrite !app_assoc. Qed.

(** ** The window *)

Definition window (st : stops) (l : list Z) : list Z := drop (length l - Z.to_nat (max_len_tail_str st)) l.

Lemma tail_str_window st r :
  0 < max_len_tail_str st -> ~ (stop_strs st = [] /\ stop_regex_strs st = []) -> tail_str st r = tokenizer_decode (window st (output_ids (out r))).
Proof.
  intros Hst Hne. unfold tail_str, window. assert (Hb : bool_decide (stop_strs st = []) && bool_decide (stop_regex_strs st = []) = false).
  { apply not_true_iff_false. rewrite andb_true_iff, !bool_decide_eq_true. done. }
  rewrite Hb. f_equal. set (l := output_ids (out r)). unfold slice_from, clamp. pose proof (len_nonneg l). f_equal. unfold len in *.
  destruct (Z.ltb_spec (- Z.min (max_len_tail_str st) (Z.of_nat (length l))) 0); lia.
Qed.

(** Only the tokens of the window matter. *)
Lemma finish_in_window st r w pre :
  output_ids (out r) = pre ++ w -> len w = max_len_tail_str st -> 0 < max_len_tail_str st -> stop_strs st <> [] \/ stop_regex_strs st <> [] ->
  tail_str st r = tokenizer_decode w.
Proof.
  intros Ho Hw Hpos Hne. rewrite tail_str_window by (first [lia|naive_solver]). rewrite Ho. unfold window. f_equal. rewrite length_app. unfold len in Hw.
  replace (length pre + length w - Z.to_nat (max_len_tail_str st))%nat with (length pre) by lia. apply drop_app_length.
Qed.

(** A stop string at the end of the output is seen when its tokens fit the
    window. *)
Lemma seen_in_window st r m pre seg :
  (forall a b m, replacement ∉ m -> contains m (tokenizer_decode b) = true -> contains m (tokenizer_decode (a ++ b)) = true) ->
  0 < max_len_tail_str st -> m ∈ stop_strs st -> replacement ∉ m -> output_ids (out r) = pre ++ seg -> len seg <= max_len_tail_str st -> contains m (tokenizer_decode seg) = true ->
  is_Some (check_str_based_finish st r).
Proof.
  intros Hdec Hpos Hm Hrep Ho Hl Hc. pose proof (len_nonneg seg).
  assert (Hne : stop_strs st <> []) by (intros He; rewrite He in Hm; by apply not_elem_of_nil in Hm).
  assert (Htail : contains m (tail_str st r) = true).
  { rewrite tail_str_window by (first [lia|naive_solver]). rewrite Ho. unfold window. unfold len in Hl. rewrite length_app.
    rewrite drop_app_le by lia. by apply Hdec. }
  unfold check_str_based_finish. rewrite (bool_decide_eq_false_2 _ Hne). cbn [andb].
  destruct (List.find _ (stop_strs st)) eqn:Hf; [by eexists|]. apply list_elem_of_In in Hm.
  pose proof (List.find_none _ _ Hf m Hm) as Hno. cbn in Hno. by rewrite Htail in Hno.
Qed.

(** Nothing is seen outside it. *)
Lemma not_seen_in_window st r pre w :
  output_ids (out r) = pre ++ w -> len w = max_len_tail_str st -> 0 < max_len_tail_str st -> stop_regex_strs st = [] ->
  Forall (fun m => contains m (tokenizer_decode w) = false /\ contains m decoded_text = false) (stop_strs st) -> check_str_based_finish st r = None.
Proof.
  intros Ho Hw Hpos Hre Hno. unfold check_str_based_finish. case_bool_decide as He; [by rewrite Hre|]. cbn [andb]. rewrite (finish_in_window st r w pre) by (first [done|by left]).
  rewrite Hre. cbn [List.find]. destruct (List.find _ (stop_strs st)) as [m|] eqn:Hf; [|done]. apply List.find_some in Hf as [Hin Hc].
  apply list_elem_of_In in Hin. rewrite Forall_forall in Hno. destruct (Hno m Hin) as [H1 H2]. by rewrite H1, H2 in Hc.
Qed.

(** A request that the check of its text finishes is finished. *)
Lemma str_finish_finishes g new st r : is_Some (check_str_based_finish st r) -> finished (check_finished (check_str_based_finish st) g new r) = true.
Proof.
  intros [f Hf]. unfold check_finished. destruct (finished r) eqn:Hfin; [done|]. destruct (to_finish (out r)); [done|].
  destruct (_ <=? _); [done|]. destruct (g r); [done|]. set (toks := slice_from _ _).
  destruct (check_token_based_finish r toks) as [r'|] eqn:Ht.
  { unfold check_token_based_finish in Ht. destruct (ignore_eos _); [done|]. destruct (list_find _ toks) as [[i t]|]; [|done]. by injection Ht as <-. }
  destruct (check_vocab_boundary_finish r toks) as [r'|] eqn:Hv.
  { unfold check_vocab_boundary_finish in Hv. destruct (list_find _ toks) as [[i t]|]; [|done]. by injection Hv as <-. }
  by rewrite Hf.
Qed.
End stops.
End Stops.
