(* ===== verification/DllmServerArgs.v ===== *)
(** * Server arguments for diffusion serving

    ServerArgs._handle_dllm_inference of server_args.py: what the arguments are
    changed to when a diffusion algorithm is chosen.  The platform tests are
    parameters; warnings are not modelled. *)

From S2P Require Import Prelude DllmReq.
#[local] Open Scope Z_scope.

Module Args.

(** The arguments that are read or written; [base] has those of DllmConfig. *)
Record args := Args {
  base : server_args;
  disable_cuda_graph : bool;
  attention_backend : option string;
  disable_overlap_schedule : bool;
  disable_radix_cache : bool;
  page_size : Z;
  enable_hierarchical_cache : bool;
  enable_lmcache : bool;
  pp_size : Z;
  enable_lora : option bool;
  disaggregation_mode : string;
  enable_mixed_chunk : bool;
}.

Definition set_graph (a : args) (disable : bool) (backend : option string) : args :=
  Args (base a) disable backend (disable_overlap_schedule a) (disable_radix_cache a) (page_size a) (enable_hierarchical_cache a)
    (enable_lmcache a) (pp_size a) (enable_lora a) (disaggregation_mode a) (enable_mixed_chunk a).

Definition set_overlap (a : args) : args :=
  Args (base a) (disable_cuda_graph a) (attention_backend a) true (disable_radix_cache a) (page_size a) (enable_hierarchical_cache a)
    (enable_lmcache a) (pp_size a) (enable_lora a) (disaggregation_mode a) (enable_mixed_chunk a).

(** The page size, and no further caches. *)
Definition set_cache (a : args) (ps : Z) : args :=
  Args (base a) (disable_cuda_graph a) (attention_backend a) (disable_overlap_schedule a) (disable_radix_cache a) ps false
    false (pp_size a) (enable_lora a) (disaggregation_mode a) (enable_mixed_chunk a).

Definition set_rest (a : args) (pp : Z) : args :=
  Args (base a) (disable_cuda_graph a) (attention_backend a) (disable_overlap_schedule a) (disable_radix_cache a) (page_size a)
    (enable_hierarchical_cache a) (enable_lmcache a) pp
    (match enable_lora a with Some true => Some false | l => l end) "null" false.

Definition partial_accept_algos : list string := ["LinearSpec"; "linear_spec"; "TiDAR"; "tidar"]%string.

Section handle.
Context (is_hip is_npu : bool) (arch : string).

Definition handle_graph (a : args) : args :=
  if is_hip then
    set_graph a true (if bool_decide (attention_backend a ∈ [Some "triton"; Some "aiter"]%string) then attention_backend a else Some "triton"%string)
  else if is_npu then set_graph a (disable_cuda_graph a) (Some "ascend"%string)
  else if negb (disable_cuda_graph a) then set_graph a (disable_cuda_graph a) (Some "flashinfer"%string)
  else a.

(** [page_size % block_size] raises for a block size of zero, which the YAML
    file can give. *)
Definition handle_cache (algo : string) (a : args) : res args :=
  if disable_radix_cache a then Ok a else
  config ← from_server_args arch (base a);
  ps ← (if bool_decide (algo ∈ partial_accept_algos) then Ok 1 else
        cfg ← of_option AttributeError config;
        _ ← (if block_size cfg =? 0 then Raise ZeroDivisionError else Ok tt);
        Ok (if page_size a mod block_size cfg =? 0 then page_size a else block_size cfg));
  Ok (set_cache a ps).

Definition handle_dllm_inference (a : args) : res args :=
  match sa_dllm_algorithm (base a) with
  | None => Ok a
  | Some algo =>
      let a := set_overlap (handle_graph a) in
      a ← handle_cache algo a;
      Ok (set_rest a (if negb (1 <? pp_size a) then 1 else pp_size a))
  end.

(** ** What diffusion serving can rely on *)

(** The modes that the scheduler model leaves out are off. *)
Record ready (a : args) : Prop := {
  rd_overlap : disable_overlap_schedule a = true;
  rd_lora : enable_lora a <> Some true;
  rd_disagg : disaggregation_mode a = "null"%string;
  rd_mixed : enable_mixed_chunk a = false;
  rd_hierarchical : disable_radix_cache a = false -> enable_hierarchical_cache a = false /\ enable_lmcache a = false;
  rd_backend : is_hip = false -> is_npu = false -> disable_cuda_graph a = false -> attention_backend a = Some "flashinfer"%string;
}.

Lemma graph_fixed a b :
  disable_cuda_graph b = disable_cuda_graph (handle_graph a) -> attention_backend b = attention_backend (handle_graph a) -> handle_graph b = b.
Proof.
  assert (Hset : forall x y, disable_cuda_graph b = x -> attention_backend b = y -> set_graph b x y = b) by (intros ? ? <- <-; by destruct b).
  unfold handle_graph. destruct is_hip; [|destruct is_npu].
  - cbn. intros H1 H2. apply Hset; [done|]. rewrite H2. clear. case_bool_decide as Hin; [by rewrite bool_decide_true|]. by rewrite bool_decide_true by (by left).
  - cbn. intros H1 H2. by apply Hset.
  - destruct (disable_cuda_graph a) eqn:Hd; cbn [negb]; [intros H1 _; rewrite H1, ?Hd; done|]. cbn. intros H1 H2. rewrite H1. cbn. by apply Hset.
Qed.

(** A page size that one round chose is kept by the next. *)
Lemma handle_cache_idem algo a a' b :
  handle_cache algo a = Ok a' -> base b = base a' -> page_size b = page_size a' -> disable_radix_cache b = disable_radix_cache a' ->
  enable_hierarchical_cache b = enable_hierarchical_cache a' -> enable_lmcache b = enable_lmcache a' ->
  handle_cache algo b = Ok b.
Proof.
  intros Hrun Hb Hp Hd Hh Hl. unfold handle_cache in *. destruct (disable_radix_cache a) eqn:Hda.
  { injection Hrun as <-. by rewrite Hd, Hda. }
  destruct (from_server_args arch (base a)) as [config|] eqn:Hcfg; [|done]. revert Hrun. step_ok.
  assert (Hset : forall ps, a' = set_cache a ps -> set_cache b (page_size b) = b /\ base b = base a /\ disable_radix_cache b = false /\ page_size b = ps).
  { intros ps ->. cbn in *. split; [|by rewrite Hd]. destruct b. unfold set_cache. cbn in *. by subst. }
  case_bool_decide.
  - step_ok. intros [= <-]. destruct (Hset 1 eq_refl) as (Hs & Hba & Hdb & Hpb). rewrite Hdb, Hba, Hcfg. do 2 step_ok. by rewrite <- Hpb, Hs.
  - destruct config as [cfg|]; [|done]. cbn [of_option]. step_ok. destruct (block_size cfg =? 0) eqn:Hz; [done|]. do 2 step_ok. intros [= <-].
    destruct (Hset _ eq_refl) as (Hs & Hba & Hdb & Hpb). rewrite Hdb, Hba, Hcfg. step_ok. cbn [of_option]. step_ok. rewrite Hz. do 2 step_ok.
    assert (Hm : (if page_size b mod block_size cfg =? 0 then page_size b else block_size cfg) = page_size b).
    { rewrite Hpb. destruct (page_size a mod block_size cfg =? 0) eqn:Hq; [by rewrite Hq|]. by rewrite Z_mod_same_full. }
    by rewrite Hm, Hs.
Qed.

Lemma cache_frame algo a a' : handle_cache algo a = Ok a' ->
  (disable_radix_cache a = true /\ a' = a) \/
  disable_radix_cache a = false /\ exists cfg ps, from_server_args arch (base a) = Ok cfg /\ a' = set_cache a ps /\
    if bool_decide (algo ∈ partial_accept_algos) then ps = 1 else exists c, cfg = Some c /\ (block_size c | ps).
Proof.
  unfold handle_cache. destruct (disable_radix_cache a); [intros [= <-]; by left|]. intros Hrun. right. split; [done|].
  destruct (from_server_args arch (base a)) as [config|] eqn:Hcfg; [|done]. revert Hrun. step_ok. case_bool_decide.
  - step_ok. intros [= <-]. by exists config, 1.
  - destruct config as [cfg|]; [|done]. cbn [of_option]. step_ok. destruct (Z.eqb_spec (block_size cfg) 0) as [|Hz]; [done|]. do 2 step_ok. intros [= <-].
    eexists _, _. split; [done|]. split; [done|]. exists cfg. split; [done|].
    destruct (Z.eqb_spec (page_size a mod block_size cfg) 0); [by apply Z.mod_divide|done].
Qed.

Lemma some_config sa cfg : is_Some (sa_dllm_algorithm sa) -> from_server_args arch sa = Ok cfg -> is_Some cfg.
Proof.
  intros [algo Ha]. unfold from_server_args. rewrite Ha. destruct (dllm_params arch) as [[bs mask]|]; [|done].
  destruct (sa_dllm_algorithm_config sa); intros [= <-]; by eexists.
Qed.

(** Handling the arguments for diffusion serving: when it succeeds, the
    modes that diffusion serving does not support are off, with the radix cache
    the page size is one for the algorithms that accept part of a block and a
    multiple of the block size for the others, and handling the arguments again
    changes nothing.  Pipeline parallelism is not among the modes that are
    turned off: a size above one is kept. *)
Theorem dllm_args_ready a a' algo :
  sa_dllm_algorithm (base a) = Some algo -> handle_dllm_inference a = Ok a' ->
  ready a' /\ handle_dllm_inference a' = Ok a' /\
  (disable_radix_cache a = false -> exists cfg, from_server_args arch (base a) = Ok (Some cfg) /\
    if bool_decide (algo ∈ partial_accept_algos) then page_size a' = 1 else (block_size cfg | page_size a')) /\
  pp_size a' = Z.max 1 (pp_size a).
Proof.
  intros Ha. unfold handle_dllm_inference. rewrite Ha. set (a0 := set_overlap (handle_graph a)).
  destruct (handle_cache algo a0) as [a1|] eqn:Hc; [|done]. step_ok. intros [= <-]. set (a' := set_rest a1 _).
  assert (Hsame : disable_cuda_graph a1 = disable_cuda_graph (handle_graph a) /\ attention_backend a1 = attention_backend (handle_graph a) /\
    disable_overlap_schedule a1 = true /\ base a1 = base a /\ pp_size a1 = pp_size a /\ disable_radix_cache a1 = disable_radix_cache a).
  { assert (Hg : base (handle_graph a) = base a /\ pp_size (handle_graph a) = pp_size a /\ disable_radix_cache (handle_graph a) = disable_radix_cache a).
    { unfold handle_graph. by destruct is_hip, is_npu, (disable_cuda_graph a). }
    destruct (cache_frame _ _ _ Hc) as [[_ ->]|(_ & cfg & ps & _ & -> & _)]; cbn; intuition. }
  destruct Hsame as (G1 & G2 & G3 & G4 & G5 & G6).
  assert (Hfix : set_overlap (handle_graph a') = a').
  { rewrite (graph_fixed a a') by done. unfold set_overlap, a', set_rest. cbn. by rewrite G3. }
  assert (Hcf : handle_cache algo a' = Ok a') by (by apply (handle_cache_idem algo a0 a1)).
  split; [|split; [|split]].
  - split; try done; cbn.
    + by destruct (enable_lora a1) as [[]|].
    + destruct (cache_frame _ _ _ Hc) as [[Hd ->]|(_ & cfg & ps & _ & -> & _)]; [by rewrite Hd|done].
    + intros Hh Hn. rewrite G1, G2. unfold handle_graph. rewrite Hh, Hn. destruct (disable_cuda_graph a) eqn:Hd; cbn; congruence.
  - change (base a') with (base a1). rewrite G4, Ha, Hfix, Hcf. step_ok. f_equal. unfold a', set_rest. cbn. f_equal.
    + destruct (1 <? pp_size a1) eqn:Hlt; cbn [negb]; [by rewrite Hlt|done].
    + by destruct (enable_lora a1) as [[]|].
  - intros Hr. destruct (cache_frame _ _ _ Hc) as [[Hd ->]|(_ & cfg & ps & Hcfg & -> & Hps)]; [congruence|]. change (base a0) with (base (handle_graph a)) in Hcfg.
    change (base (set_cache a0 ps)) with (base (handle_graph a)) in G4. rewrite G4 in Hcfg.
    destruct (some_config _ _ ltac:(by eexists) Hcfg) as [c ->]. exists c. split; [done|]. case_bool_decide; [done|]. by destruct Hps as (c' & [= <-] & ?).
  - cbn. rewrite G5. destruct (Z.ltb_spec 1 (pp_size a)); cbn; lia.
Qed.
End handle.

(** A server with pages of 16 and two pipeline stages. *)
Definition sample_args (algo : string) : args :=
  Args (ServerArgs (Some algo) None None None) false None false false 16 true false 2 (Some true) "decode" true.

Lemma dllm_args_ready_witness :
  exists a', handle_dllm_inference false false "SDARForCausalLM" (sample_args "TiDAR") = Ok a' /\ ready false false a' /\
    page_size a' = 1 /\ pp_size a' = 2.
Proof.
  destruct (handle_dllm_inference false false "SDARForCausalLM" (sample_args "TiDAR")) as [a'|e] eqn:Hrun; [|vm_compute in Hrun; discriminate].
  destruct (dllm_args_ready false false "SDARForCausalLM" (sample_args "TiDAR") a' "TiDAR" eq_refl Hrun) as (Hr & _ & Hp & Hpp).
  exists a'. split; [done|]. split; [exact Hr|]. destruct (Hp eq_refl) as (cfg & _ & Hps). split; [|exact Hpp].
  rewrite bool_decide_true in Hps by (do 2 right; by left). exact Hps.
Defined.
End Args.
