(* ===== verification/Streaming.v ===== *)
(** * Streaming outputs to the detokenizer

    stream_output_generation of managers/scheduler_output_processor_mixin.py
    with Req.init_incremental_detokenize of managers/schedule_batch.py: which
    requests report after a step, and which token ids the detokenizer is sent.
    Logprobs and statistics of the message are not modelled; prompts have no
    padding. *)

From S2P Require Import Prelude DllmReq StopStrings.
Import Stops.
#[local] Open Scope Z_scope.

Module Stream.

(** What [finished_reason.get("matched", None)] is, for a finished request. *)
Inductive matched := NO_MATCH | MATCHED_INT (token : Z) | MATCHED_STR (t : text).

(** to_json *)
Definition to_json (f : finish_reason) : matched :=
  match f with
  | FINISH_LENGTH _ => NO_MATCH
  | FINISH_ABORT => NO_MATCH
  | FINISH_MATCHED_TOKEN m => MATCHED_INT m
  | FINISH_MATCHED_STR m => MATCHED_STR m
  | FINISH_MATCHED_REGEX m => MATCHED_STR m
  end.

(** One request's entry of a BatchTokenIDOutput. *)
Record item := Item {
  it_rid : Z;
  it_finished : option matched;
  it_decoded_text : text;
  it_decode_ids : list Z;
  it_read_offset : Z;
  it_output_ids : list Z;
  it_skip_special_tokens : bool;
  it_spaces_between_special_tokens : bool;
  it_no_stop_trim : bool;
}.

(** The fields of Req for incremental detokenization and streaming. *)
Record stream_state := StreamState {
  surr_offset : option Z;
  read_offset : option Z;
  surr_and_decode_ids : list Z;
  cur_decode_ids_len : Z;
  send_decode_id_offset : Z;
  send_token_offset : Z;
  finished_output : bool;
}.

Definition new_stream : stream_state := StreamState None None [] 0 0 0 false.

Definition INIT_INCREMENTAL_DETOKENIZATION_OFFSET : Z := 5.

Definition init_incremental_detokenize (s : stream_state) (r : req) : stream_state * (list Z * Z) :=
  let output_ids := output_ids_through_stop r in
  match surr_offset s, read_offset s with
  | Some surr, Some read =>
      let ids := surr_and_decode_ids s ++ slice_from output_ids (cur_decode_ids_len s) in
      (StreamState (Some surr) (Some read) ids (len output_ids) (send_decode_id_offset s) (send_token_offset s) (finished_output s),
       (ids, read - surr))
  | _, _ =>
      let read := len (origin_input_ids (info r)) in
      let surr := Z.max (read - INIT_INCREMENTAL_DETOKENIZATION_OFFSET) 0 in
      let ids := slice_from (origin_input_ids (info r)) surr ++ output_ids in
      (StreamState (Some surr) (Some read) ids (len output_ids) (send_decode_id_offset s) (send_token_offset s) (finished_output s),
       (ids, read - surr))
  end.

(** ** Reporting *)

Section stream.
(** Settings of the request and of the server, and the tokenizer. *)
Context (stream : bool) (req_stream_interval : option Z) (stream_interval DEFAULT_FORCE_STREAM_INTERVAL : Z).
Context (st : stops) (tokenizer_decode : list Z -> text).
Context (decoded_text : text) (skip_special_tokens spaces_between_special_tokens no_stop_trim : bool).

Definition py_mod (a b : Z) : res Z := if b =? 0 then Raise ZeroDivisionError else Ok (a mod b).

(** [req.sampling_params.stream_interval or self.stream_interval] *)
Definition interval : Z := match req_stream_interval with Some i => if i =? 0 then stream_interval else i | None => stream_interval end.

(** Whether a request that goes on reports now. *)
Definition due (r : req) : res bool :=
  if stream then
    m ← py_mod (len (output_ids (out r))) interval;
    Ok ((if 1 <? interval then m =? 1 else m =? 0) && negb (check_match_stop_str_prefix tokenizer_decode st r))
  else
    m ← py_mod (len (output_ids (out r))) DEFAULT_FORCE_STREAM_INTERVAL;
    Ok (m =? 0).

Definition report (s : stream_state) (r : req) : stream_state * item :=
  let '(s, (decode_ids, read_offset')) := init_incremental_detokenize s r in
  let output_ids_ := output_ids_through_stop r in
  (StreamState (surr_offset s) (read_offset s) (surr_and_decode_ids s) (cur_decode_ids_len s) (len decode_ids) (len output_ids_) (finished_output s),
   Item (rid (info r)) (to_json <$> finished_reason (out r)) decoded_text (slice_from decode_ids (send_decode_id_offset s)) read_offset'
     (slice_from output_ids_ (send_token_offset s)) skip_special_tokens spaces_between_special_tokens no_stop_trim).

Definition set_finished_len (r : req) : req :=
  let o := out r in
  set_out r (ReqOut (output_ids o) (channels o) (finished_reason o)
    (match finished_len o with None => Some (len (output_ids o)) | n => n end) (to_finish o)).

(** The body of the loop over the requests. *)
Definition stream_one (s : stream_state) (r : req) : res (stream_state * req * option item) :=
  if finished r then
    if finished_output s then Ok (s, r, None) else
    let s := StreamState (surr_offset s) (read_offset s) (surr_and_decode_ids s) (cur_decode_ids_len s) (send_decode_id_offset s) (send_token_offset s) true in
    let r := set_finished_len r in
    let '(s, it) := report s r in
    Ok (s, r, Some it)
  else
    d ← due r;
    if d : bool then let '(s, it) := report s r in Ok (s, r, Some it) else Ok (s, r, None).

(** A request over its steps; [rs] is the request after each of them. *)
Fixpoint stream_run (s : stream_state) (rs : list req) : res (stream_state * list item) :=
  match rs with
  | [] => Ok (s, [])
  | r :: rs =>
      '(s, _, it) ← stream_one s r;
      '(s, its) ← stream_run s rs;
      Ok (s, option_list it ++ its)
  end.

(** ** Everything is sent, once *)

(** The prompt tokens the detokenizer gets as context. *)
Definition context (r : req) : list Z :=
  slice_from (origin_input_ids (info r)) (Z.max (len (origin_input_ids (info r)) - INIT_INCREMENTAL_DETOKENIZATION_OFFSET) 0).

(** What was sent: nothing, or the context and the output [o]. *)
Definition sent (s : stream_state) (ctx : list Z) (o : option (list Z)) : Prop :=
  match o with
  | None => surr_offset s = None /\ send_decode_id_offset s = 0 /\ send_token_offset s = 0
  | Some o => exists surr read, surr_offset s = Some surr /\ read_offset s = Some read /\ read - surr = len ctx /\
      surr_and_decode_ids s = ctx ++ o /\ cur_decode_ids_len s = len o /\ send_decode_id_offset s = len (ctx ++ o) /\ send_token_offset s = len o
  end.

(** The request after a later step. *)
Record evolves (r r' : req) : Prop := {
  ev_info : info r' = info r;
  ev_going : finished r = false;
  ev_out : output_ids_through_stop r `prefix_of` output_ids_through_stop r';
}.

Definition so_far (o : option (list Z)) : list Z := match o with None => [] | Some o => o end.
Definition first_ids (o : option (list Z)) (ctx : list Z) : list Z := match o with None => ctx | Some _ => [] end.

Lemma drop_prefix {A} (l k : list A) : l `prefix_of` k -> l ++ drop (length l) k = k.
Proof. intros [x ->]. by rewrite drop_app_length. Qed.

Lemma len_context r : len (context r) = len (origin_input_ids (info r)) - Z.max (len (origin_input_ids (info r)) - INIT_INCREMENTAL_DETOKENIZATION_OFFSET) 0.
Proof. pose proof (len_nonneg (origin_input_ids (info r))). unfold context, INIT_INCREMENTAL_DETOKENIZATION_OFFSET. by rewrite len_slice_from by lia. Qed.

(** The settings every item of the request carries. *)
Definition settings (it : item) : Prop :=
  it_decoded_text it = decoded_text /\ it_skip_special_tokens it = skip_special_tokens /\
  it_spaces_between_special_tokens it = spaces_between_special_tokens /\ it_no_stop_trim it = no_stop_trim.

(** One report: what is new since the last one. *)
Lemma report_spec s r o :
  sent s (context r) o -> so_far o `prefix_of` output_ids_through_stop r ->
  exists s' it new, report s r = (s', it) /\ sent s' (context r) (Some (output_ids_through_stop r)) /\ finished_output s' = finished_output s /\
    so_far o ++ new = output_ids_through_stop r /\ it_decode_ids it = first_ids o (context r) ++ new /\ it_output_ids it = new /\
    it_read_offset it = len (context r) /\ it_rid it = rid (info r) /\ it_finished it = to_json <$> finished_reason (out r) /\ settings it.
Proof.
  intros Hs Hp. set (t := output_ids_through_stop r) in *. pose proof (drop_prefix _ _ Hp) as Hnew. destruct o as [o|]; cbn [so_far first_ids] in *.
  - destruct Hs as (surr & read & H1 & H2 & H3 & H4 & H5 & H6 & H7). unfold report, init_incremental_detokenize. rewrite H1, H2. fold t.
    pose proof (len_nonneg o). pose proof (len_nonneg (context r)). eexists _, _, (drop (length o) t). split; [reflexivity|].
    cbn [sent surr_offset read_offset surr_and_decode_ids cur_decode_ids_len send_decode_id_offset send_token_offset finished_output
         it_decode_ids it_output_ids it_read_offset it_rid it_finished].
    assert (Hfrom : slice_from t (cur_decode_ids_len s) = drop (length o) t) by (rewrite H5, slice_from_drop by lia; unfold len; by rewrite Nat2Z.id).
    rewrite Hfrom, H4, <- app_assoc, Hnew. split; [|split; [done|split; [done|split; [|split; [|by rewrite H3]]]]].
    + exists surr, read. by rewrite !len_app.
    + rewrite H6, slice_from_drop by apply len_nonneg. unfold len. rewrite Nat2Z.id, <- Hnew at 1. rewrite app_assoc. by rewrite drop_app_length.
    + rewrite H7, slice_from_drop by lia. unfold len. by rewrite Nat2Z.id.
  - destruct Hs as (H1 & H2 & H3). unfold report, init_incremental_detokenize. rewrite H1. fold t. fold (context r).
    eexists _, _, t. split; [reflexivity|]. cbn [sent surr_offset read_offset surr_and_decode_ids cur_decode_ids_len send_decode_id_offset send_token_offset finished_output
         it_decode_ids it_output_ids it_read_offset it_rid it_finished].
    rewrite H2, H3, !(slice_from_drop _ 0), !drop_0, <- len_context by lia. split; [|done]. exists (Z.max (len (origin_input_ids (info r)) - 5) 0), (len (origin_input_ids (info r))).
    split; [done|]. split; [done|]. by rewrite len_context.
Qed.

(** The items of a run: [cs] are the new tokens of each. *)
Record delivered (ctx : list Z) (o : option (list Z)) (id : Z) (cs : list (list Z)) (its : list item) : Prop := {
  dl_ids : it_decode_ids <$> its = match cs with [] => [] | c :: cs => (first_ids o ctx ++ c) :: cs end;
  dl_out : it_output_ids <$> its = cs;
  dl_read : Forall (fun it => it_read_offset it = len ctx /\ it_rid it = id /\ settings it) its;
}.

Lemma delivered_cons ctx o o' id c cs it its :
  it_decode_ids it = first_ids o ctx ++ c -> it_output_ids it = c -> it_read_offset it = len ctx -> it_rid it = id -> settings it ->
  delivered ctx (Some o') id cs its -> delivered ctx o id (c :: cs) (it :: its).
Proof.
  intros H1 H2 H3 H4 H5 [D1 D2 D3]. split; [|by rewrite fmap_cons, H2, D2|by constructor]. rewrite fmap_cons, H1, D1. by destruct cs.
Qed.

Hypothesis interval_ok : interval <> 0.
Hypothesis force_ok : DEFAULT_FORCE_STREAM_INTERVAL <> 0.

Lemma due_ok r : exists b, due r = Ok b.
Proof.
  unfold due, py_mod. rewrite (proj2 (Z.eqb_neq _ _) interval_ok), (proj2 (Z.eqb_neq _ _) force_ok). destruct stream; step_ok; by eexists.
Qed.

Lemma finished_len_same r : output_ids_through_stop (set_finished_len r) = output_ids_through_stop r.
Proof.
  unfold output_ids_through_stop, set_finished_len. cbn. destruct (finished_len (out r)); [done|]. rewrite slice_to_take by apply len_nonneg.
  unfold len. rewrite Nat2Z.id. by apply take_ge.
Qed.

(** The run up to the step before the last. *)
Lemma going_run rs : forall s o ctx id,
  Forall (fun r => finished r = false /\ context r = ctx /\ rid (info r) = id /\ so_far o `prefix_of` output_ids_through_stop r) rs ->
  StronglySorted evolves rs -> sent s ctx o -> finished_output s = false ->
  exists s' its cs o', stream_run s rs = Ok (s', its) /\ delivered ctx o id cs its /\ Forall (fun it => it_finished it = None) its /\
    sent s' ctx o' /\ finished_output s' = false /\ so_far o' = so_far o ++ concat cs /\ (o' = None -> o = None /\ its = []) /\
    (o' = o \/ exists r, r ∈ rs /\ o' = Some (output_ids_through_stop r)) /\ (o' <> None -> o = None -> cs <> []).
Proof.
  induction rs as [|r rs IH]; intros s o ctx id Hf Hev Hs Hfo.
  { exists s, [], [], o. cbn [stream_run]. rewrite app_nil_r. split; [done|]. split; [by split|]. split; [constructor|]. split; [done|].
    split; [done|]. split; [done|]. split; [done|]. split; [by left|]. congruence. }
  apply Forall_cons in Hf as [(Hgo & Hctx & Hid & Hpre) Hf]. apply StronglySorted_inv in Hev as [Hev Hr]. cbn [stream_run]. unfold stream_one at 1. rewrite Hgo.
  destruct (due_ok r) as [[] ->]; do 2 step_ok.
  - subst ctx id. destruct (report_spec s r o Hs Hpre) as (s1 & it & new & Hrep & Hs1 & Hfo1 & Hnew & I1 & I2 & I3 & I4 & I5 & I6).
    rewrite Hrep. step_ok. destruct (IH s1 (Some (output_ids_through_stop r)) (context r) (rid (info r))) as (s' & its & cs & o' & Hrun & Hd & Hn & Hs' & Hfo' & Ho & Hz & Hin & _).
    { rewrite Forall_forall in *. intros r' Hr'. destruct (Hf r' Hr') as (? & ? & ? & _). split; [done|]. split; [done|]. split; [done|]. apply (Hr r' Hr'). }
    { done. } { done. } { congruence. }
    rewrite Hrun. step_ok. exists s', (it :: its), (new :: cs), o'. split; [done|].
    split; [by apply (delivered_cons _ _ (output_ids_through_stop r))|]. split; [constructor; [|done]|].
    { rewrite I5. unfold finished in Hgo. apply bool_decide_eq_false in Hgo. by destruct (finished_reason (out r)); [destruct Hgo|]. }
    split; [done|]. split; [done|]. split; [rewrite Ho; cbn [so_far concat]; by rewrite <- Hnew, app_assoc|].
    split; [intros ->; by destruct (Hz eq_refl)|]. split; [|done]. right. destruct Hin as [->|(r' & Hr' & ->)]; [exists r|exists r']; split; try done; [by left|by right].
  - destruct (IH s o ctx id Hf Hev Hs Hfo) as (s' & its & cs & o' & Hrun & Hd & Hn & Hs' & Hfo' & Ho & Hz & Hin & Hlast). rewrite Hrun. step_ok.
    exists s', its, cs, o'. do 7 (split; [done|]). split; [|done]. destruct Hin as [->|(r' & Hr' & ->)]; [by left|]. right. exists r'. split; [by right|done].
Qed.

(** The whole run: the last item, and only it, is final; the chunks make up
    the output. *)
Lemma stream_delivers rs r :
  finished r = true -> StronglySorted evolves (rs ++ [r]) ->
  exists s its lst cs, stream_run new_stream (rs ++ [r]) = Ok (s, its ++ [lst]) /\ delivered (context r) None (rid (info r)) cs (its ++ [lst]) /\
    Forall (fun it => it_finished it = None) its /\ it_finished lst = to_json <$> finished_reason (out r) /\ concat cs = output_ids_through_stop r /\
    ((forall x, x ∈ rs -> output_ids_through_stop x <> output_ids_through_stop r) -> output_ids_through_stop r <> [] -> it_output_ids lst <> []).
Proof.
  intros Hfin Hev. apply StronglySorted_app in Hev as (Hcross & Hev & _).
  assert (Hall : Forall (fun x => finished x = false /\ context x = context r /\ rid (info x) = rid (info r) /\ so_far None `prefix_of` output_ids_through_stop x) rs).
  { apply Forall_forall. intros x Hx. destruct (Hcross x r Hx ltac:(by left)) as [Hi Hg _]. split; [done|]. unfold context. rewrite Hi. split; [done|]. split; [done|].
    apply prefix_nil. }
  destruct (going_run rs new_stream None (context r) (rid (info r)) Hall Hev ltac:(done) eq_refl)
    as (s1 & its & cs & o & Hrun & [D1 D2 D3] & Hn & Hs1 & Hfo & Ho & Hz & Hin & Hne).
  assert (Hpre : so_far o `prefix_of` output_ids_through_stop (set_finished_len r)).
  { rewrite finished_len_same. destruct Hin as [->|(x & Hx & ->)]; [apply prefix_nil|]. by destruct (Hcross x r Hx ltac:(by left)). }
  set (s2 := StreamState (surr_offset s1) (read_offset s1) (surr_and_decode_ids s1) (cur_decode_ids_len s1) (send_decode_id_offset s1) (send_token_offset s1) true).
  assert (Hs2 : sent s2 (context (set_finished_len r)) o) by (by destruct o).
  destruct (report_spec s2 _ o Hs2 Hpre) as (s3 & it & new & Hrep & _ & _ & Hnew & I1 & I2 & I3 & I4 & I5 & I6). rewrite finished_len_same in Hnew.
  exists s3, its, it, (cs ++ [new]). split; [|split; [|split; [done|split; [done|split]]]].
  - assert (Hstep : stream_one s1 r = Ok (s3, set_finished_len r, Some it)) by (unfold stream_one; rewrite Hfin, Hfo; fold s2; by rewrite Hrep).
    assert (Happ : forall rs s s1 its, stream_run s rs = Ok (s1, its) -> forall s' its', stream_run s1 [r] = Ok (s', its') -> stream_run s (rs ++ [r]) = Ok (s', its ++ its')).
    { clear. induction rs as [|x rs IH]; cbn [stream_run app]; [by intros s s1 its [= -> <-]|]. intros s s1 its. destruct (stream_one s x) as [[[sa ra] ita]|]; [|done]. step_ok.
      destruct (stream_run sa rs) as [[sb itb]|] eqn:Hr; [|done]. step_ok. intros [= -> <-] s' its' Hl. rewrite (IH _ _ _ Hr _ _ Hl). step_ok. by rewrite app_assoc. }
    apply (Happ rs _ s1); [done|]. cbn [stream_run]. rewrite Hstep. by do 2 step_ok.
  - split.
    + rewrite fmap_app, D1. cbn [fmap list_fmap]. rewrite I1. destruct o as [o|].
      * destruct cs as [|c cs]; [by destruct (Hne ltac:(done) eq_refl)|done].
      * destruct (Hz eq_refl) as [_ ->]. by destruct cs.
    + by rewrite fmap_app, D2, <- I2.
    + apply Forall_app. split; [done|]. by constructor.
  - rewrite concat_app, <- Hnew, Ho. cbn. by rewrite app_nil_r.
  - intros Hx Hne0 He. rewrite I2 in He. rewrite He, app_nil_r in Hnew. destruct Hin as [->|(x & Hxin & ->)]; [by symmetry in Hnew|].
    by apply (Hx x Hxin).
Qed.

(** C15: the scheduler sends every token once.  Whatever the stream interval and
    the stop strings hold back, over the steps of a request up to the one that
    finishes it the token ids reported are its output through the stop, in
    order and without repetition, the ids for the detokenizer are the same
    behind at most five tokens of the prompt, and exactly the last report is
    final. *)
Theorem stream_sends_everything rs r :
  finished r = true -> StronglySorted evolves (rs ++ [r]) ->
  exists s its lst, stream_run new_stream (rs ++ [r]) = Ok (s, its ++ [lst]) /\
    concat (it_output_ids <$> its ++ [lst]) = output_ids_through_stop r /\
    concat (it_decode_ids <$> its ++ [lst]) = context r ++ output_ids_through_stop r /\
    Forall (fun it => it_finished it = None) its /\ it_finished lst = to_json <$> finished_reason (out r).
Proof.
  intros Hfin Hev. destruct (stream_delivers rs r Hfin Hev) as (s & its & lst & cs & Hrun & [D1 D2 _] & Hn & Hl & Hc & _). exists s, its, lst. split; [done|].
  split; [by rewrite D2|]. split; [|done]. rewrite D1, <- Hc. destruct cs as [|c cs]; [|cbn; by rewrite <- app_assoc].
  apply (f_equal length) in D2. rewrite fmap_app, length_app in D2. cbn in D2. lia.
Qed.

(** With a stream interval of at least 2 that divides the block size, a request
    whose output grows by whole blocks reports nothing until it is finished. *)
Lemma blocks_never_due r n b :
  stream = true -> 1 < interval -> len (output_ids (out r)) = n * b -> (interval | b) -> due r = Ok false.
Proof.
  intros Hs Hi Hl [k ->]. unfold due, py_mod. rewrite Hs, (proj2 (Z.eqb_neq _ _) interval_ok). step_ok. rewrite Hl, (proj2 (Z.ltb_lt _ _) Hi), Z.mul_assoc.
  by rewrite Z_mod_mult.
Qed.
End stream.
End Stream.
