(* ===== verification/Detokenizer.v ===== *)
(** * The detokenizer

    DetokenizerManager of managers/detokenizer_manager.py: the states of the
    requests in a dictionary of limited capacity, batched decoding grouped by
    flags, and the incremental text of each request.  The tokenizer is a
    parameter; texts are lists of code points.  The other fields of the messages
    are passed on unchanged and not modelled. *)

From S2P Require Import Prelude DllmReq StopStrings Streaming.
Import Stops Stream.
#[local] Open Scope Z_scope.

Module Detok.

(** ** Text *)


Definition between (a b c : Z) : bool := (a <=? c) && (c <=? b).

Definition is_chinese_char (cp : Z) : bool :=
  between 19968 40959 cp || between 13312 19903 cp || between 131072 173791 cp || between 173824 177983 cp ||
  between 177984 178207 cp || between 178208 183983 cp || between 63744 64255 cp || between 194560 195103 cp.

(** [text.rfind(c)] *)
Fixpoint rfind (c : Z) (t : text) : Z :=
  match t with
  | [] => -1
  | x :: t => let i := rfind c t in if i =? -1 then (if x =? c then 0 else -1) else i + 1
  end.

(** [text.find(m)]; None for -1. *)
Fixpoint find (m t : text) : option nat :=
  if is_prefix m t then Some 0%nat else match t with [] => None | _ :: t => S <$> find m t end.

(** The character before the last. *)
Definition penultimate (t : text) : option Z := last (take (length t - 1) t).

Definition find_printable_text (t : text) : text :=
  if bool_decide (last t = Some 10) then t
  else if match last t with Some c => is_chinese_char c | None => false end then t
  else if match penultimate t with Some c => is_chinese_char c | None => false end then slice_to t (-1)
  else slice_to t (rfind 32 t + 1).

(** ** The states *)

Record status := Status {
  decoded_text : text;
  decode_ids : list Z;
  surr_offset : Z;
  read_offset : Z;
  sent_offset : Z;
}.

(** An OrderedDict. *)
Notation dict := (list (Z * status)) (only parsing).

Fixpoint get (k : Z) (d : dict) : option status :=
  match d with
  | [] => None
  | (k', s) :: d => if k =? k' then Some s else get k d
  end.

(** [popitem(last=False)] *)
Definition popitem (d : dict) : res dict := match d with [] => Raise KeyError | _ :: d => Ok d end.

(** __setitem__ of LimitedCapacityDict, for a new key. *)
Definition setitem (capacity : nat) (k : Z) (s : status) (d : dict) : res dict :=
  d ← (if (capacity <=? length d)%nat then popitem d else Ok d);
  Ok (d ++ [(k, s)]).

(** A state is an object that the dictionary refers to. *)
Definition update (k : Z) (s : status) (d : dict) : dict := (fun e => if fst e =? k then (k, s) else e) <$> d.
Definition delete (k : Z) (d : dict) : dict := filter (fun e => fst e <> k) d.

Section detokenizer.
Context (capacity : nat) (disable_tokenizer_batch_decode is_tool_call_parser_gpt_oss : bool).
(** [tokenizer.decode] and [tokenizer.batch_decode], with skip_special_tokens and
    spaces_between_special_tokens. *)
Context (decode : bool * bool -> list Z -> text) (batch_decode : bool * bool -> list (list Z) -> list text).

(** trim_matched_stop on token ids; [not matched] also holds of token 0. *)
Definition trim_ids (ids : list Z) (fin : option matched) (no_stop_trim : bool) : res (list Z) :=
  if no_stop_trim then Ok ids else
  match fin with
  | Some (MATCHED_INT m) =>
      if m =? 0 then Ok ids else
      match last ids with
      | None => Raise IndexError
      | Some x => if (x =? 200012) && is_tool_call_parser_gpt_oss then Ok ids else Ok (slice_to ids (-1))
      end
  | _ => Ok ids
  end.

(** trim_matched_stop on the text. *)
Definition trim_text (t : text) (fin : option matched) (no_stop_trim : bool) : text :=
  if no_stop_trim then t else
  match fin with
  | Some (MATCHED_STR m) => if bool_decide (m = []) then t else match find m t with Some pos => take pos t | None => t end
  | _ => t
  end.

(** ** Grouped decoding *)

Definition group_keys (flags : list (bool * bool)) : list (bool * bool) :=
  foldl (fun ks k => if bool_decide (k ∈ ks) then ks else ks ++ [k]) [] flags.

Definition indices (flags : list (bool * bool)) (k : bool * bool) : list nat := filter (fun i => flags !! i = Some k) (seq 0 (length flags)).

(** [for idx, text in zip(indices, decoded): results[idx] = text] *)
Definition write (results : list text) (idxs : list nat) (decoded : list text) : list text :=
  foldl (fun acc '(i, t) => <[i := t]> acc) results (zip idxs decoded).

Definition grouped_batch_decode (ids_list : list (list Z)) (flags : list (bool * bool)) : res (list text) :=
  match flags with
  | [] => Raise IndexError
  | first :: _ =>
      if forallb (fun k => bool_decide (k = first)) flags then Ok (batch_decode first ids_list)
      else Ok (foldl (fun results k => write results (indices flags k) (batch_decode k ((fun i => ids_list !!! i) <$> indices flags k)))
                 (replicate (length ids_list) []) (group_keys flags))
  end.

Definition decode_all (ids_list : list (list Z)) (flags : list (bool * bool)) : res (list text) :=
  if negb disable_tokenizer_batch_decode then grouped_batch_decode ids_list flags
  else Ok (zip_with (fun ids k => decode k ids) ids_list flags).

(** ** A batch *)

(** The state with the new tokens. *)
Definition enter (old : option status) (it : item) : status :=
  match old with
  | None => Status (it_decoded_text it) (it_decode_ids it) 0 (it_read_offset it) 0
  | Some s => Status (decoded_text s) (decode_ids s ++ it_decode_ids it) (surr_offset s) (read_offset s) (sent_offset s)
  end.

Definition read_ids (s : status) (it : item) : res (list Z) := trim_ids (slice_from (decode_ids s) (surr_offset s)) (it_finished it) (it_no_stop_trim it).
Definition surr_ids (s : status) : list Z := slice (decode_ids s) (surr_offset s) (read_offset s).

(** First loop: the dictionary, and what to decode. *)
Fixpoint initialize (d : dict) (its : list item) : res (dict * list (list Z) * list (list Z)) :=
  match its with
  | [] => Ok (d, [], [])
  | it :: its =>
      let s := enter (get (it_rid it) d) it in
      d ← (match get (it_rid it) d with None => setitem capacity (it_rid it) s d | Some _ => Ok (update (it_rid it) s d) end);
      r ← read_ids s it;
      '(d, reads, surrs) ← initialize d its;
      Ok (d, r :: reads, surr_ids s :: surrs)
  end.

(** The new state and the text that is sent. *)
Definition emit (s : status) (it : item) (surr_text read_text : text) : status * text :=
  let new_text := slice_from read_text (len surr_text) in
  let '(s, new_text) :=
    match it_finished it with
    | None =>
        if negb (bool_decide (new_text = [])) && negb (bool_decide (last new_text = Some replacement)) then
          (Status (decoded_text s ++ new_text) (decode_ids s) (read_offset s) (len (decode_ids s)) (sent_offset s), [])
        else (s, find_printable_text new_text)
    | Some _ => (s, new_text)
    end in
  let output_str := trim_text (decoded_text s ++ new_text) (it_finished it) (it_no_stop_trim it) in
  (Status (decoded_text s) (decode_ids s) (surr_offset s) (read_offset s) (len output_str), slice_from output_str (sent_offset s)).

(** Last loop. *)
Fixpoint incremental (d : dict) (its : list (item * (text * text))) : res (dict * list text) :=
  match its with
  | [] => Ok (d, [])
  | (it, (surr_text, read_text)) :: its =>
      s ← of_option RuntimeError (get (it_rid it) d);
      let '(s, t) := emit s it surr_text read_text in
      let d := match it_finished it with None => update (it_rid it) s d | Some _ => delete (it_rid it) d end in
      '(d, ts) ← incremental d its;
      Ok (d, t :: ts)
  end.

Definition flags_of (it : item) : bool * bool := (it_skip_special_tokens it, it_spaces_between_special_tokens it).

Definition decode_batch_token_id_output (d : dict) (its : list item) : res (dict * list text) :=
  '(d, reads, surrs) ← initialize d its;
  surr_texts ← decode_all surrs (flags_of <$> its);
  read_texts ← decode_all reads (flags_of <$> its);
  incremental d (zip its (zip surr_texts read_texts)).

(** handle_batch_token_id_out *)
Definition handle_batch_token_id_out (d : dict) (its : list item) : res (dict * list text) :=
  if bool_decide (its = []) then Ok (d, []) else decode_batch_token_id_output d its.

(** ** Grouping does not matter

    [batch_decode] decodes each list by itself, as documented. *)

Hypothesis batch_decode_each : forall k l, batch_decode k l = decode k <$> l.

Definition each (ids_list : list (list Z)) (flags : list (bool * bool)) : list text := zip_with (fun ids k => decode k ids) ids_list flags.

Lemma length_write idxs : forall results decoded, length (write results idxs decoded) = length results.
Proof. induction idxs as [|i idxs IH]; intros results [|t ts]; try done. unfold write in *. cbn. by rewrite IH, length_insert. Qed.

Lemma write_lookup f idxs : forall results i,
  NoDup idxs -> (forall j, j ∈ idxs -> (j < length results)%nat) ->
  write results idxs (f <$> idxs) !! i = if decide (i ∈ idxs) then Some (f i) else results !! i.
Proof.
  induction idxs as [|j idxs IH]; intros results i Hnd Hin; [by rewrite decide_False by apply not_elem_of_nil|].
  apply NoDup_cons in Hnd as [Hj Hnd]. unfold write in *. cbn [fmap list_fmap zip zip_with foldl]. rewrite IH; [|done|].
  2:{ intros k Hk. rewrite length_insert. apply Hin. by right. }
  assert (Hlt : (j < length results)%nat) by (apply Hin; by left).
  destruct (decide (i ∈ idxs)) as [Hi|Hi]; [by rewrite decide_True by (by right)|]. destruct (decide (i = j)) as [->|Hne].
  - rewrite decide_True by (by left). by rewrite list_lookup_insert_eq.
  - rewrite decide_False by (intros [?|?]%elem_of_cons; done). by rewrite list_lookup_insert_ne.
Qed.

Lemma elem_of_group_keys flags k : k ∈ group_keys flags <-> k ∈ flags.
Proof.
  unfold group_keys. enough (H : forall acc, k ∈ foldl (fun ks k => if bool_decide (k ∈ ks) then ks else ks ++ [k]) acc flags <-> k ∈ acc \/ k ∈ flags).
  { rewrite H. pose proof (not_elem_of_nil k). tauto. }
  induction flags as [|x flags IH]; intros acc; cbn [foldl]; [pose proof (not_elem_of_nil k); tauto|]. rewrite IH, elem_of_cons.
  case_bool_decide as Hx; [|rewrite elem_of_app, list_elem_of_singleton; tauto]. split; [tauto|]. intros [?|[->|?]]; tauto.
Qed.

Lemma each_lookup ids_list flags i : length ids_list = length flags ->
  each ids_list flags !! i = match flags !! i with Some k => Some (decode k (ids_list !!! i)) | None => None end.
Proof.
  intros Hl. unfold each. rewrite lookup_zip_with. destruct (flags !! i) as [k|] eqn:Hk.
  - destruct (lookup_lt_is_Some_2 ids_list i) as [x Hx]; [rewrite Hl; by apply lookup_lt_Some in Hk|]. rewrite (list_lookup_total_correct _ _ _ Hx), Hx. done.
  - by destruct (ids_list !! i).
Qed.

(** Equivalence of the grouped decoder with decoding one by one. *)
Lemma grouped_decode_each ids_list flags :
  length ids_list = length flags -> flags <> [] -> grouped_batch_decode ids_list flags = Ok (each ids_list flags).
Proof.
  intros Hl Hne. unfold grouped_batch_decode. destruct flags as [|first flags0] eqn:Hf; [done|]. rewrite <- Hf in *.
  destruct (forallb _ flags) eqn:Hall; f_equal; apply list_eq; intros i.
  - rewrite batch_decode_each, list_lookup_fmap, each_lookup by done. destruct (flags !! i) as [k|] eqn:Hk.
    + destruct (lookup_lt_is_Some_2 ids_list i) as [x Hx]; [rewrite Hl; by apply lookup_lt_Some in Hk|]. rewrite (list_lookup_total_correct _ _ _ Hx), Hx.
      rewrite forallb_forall in Hall. specialize (Hall k ltac:(apply list_elem_of_In; by eapply list_elem_of_lookup_2)). by apply bool_decide_eq_true in Hall as ->.
    + assert (Hx : ids_list !! i = None) by (apply lookup_ge_None; apply lookup_ge_None in Hk; lia). by rewrite Hx.
  - rewrite each_lookup by done. set (body results k := write results (indices flags k) (batch_decode k ((fun i => ids_list !!! i) <$> indices flags k))).
    assert (Hin : forall k, NoDup (indices flags k) /\ forall j, j ∈ indices flags k <-> flags !! j = Some k).
    { intros k. split; [apply NoDup_filter, NoDup_seq|]. intros j. unfold indices. rewrite list_elem_of_filter, elem_of_seq. split; [tauto|].
      intros Hj. split; [done|]. apply lookup_lt_Some in Hj. lia. }
    assert (Hloop : forall ks results, length results = length flags -> foldl body results ks !! i =
      match flags !! i with Some k => if decide (k ∈ ks) then Some (decode k (ids_list !!! i)) else results !! i | None => results !! i end).
    { induction ks as [|k ks IH]; intros results Hlr; cbn [foldl]; [destruct (flags !! i); [|done]; by rewrite decide_False by apply not_elem_of_nil|].
      rewrite IH by (unfold body; by rewrite length_write). destruct (Hin k) as [Hnd Hmem].
      assert (Hw : body results k !! i = if decide (i ∈ indices flags k) then Some (decode k (ids_list !!! i)) else results !! i).
      { unfold body. rewrite batch_decode_each, <- list_fmap_compose. apply (write_lookup (fun i => decode k (ids_list !!! i))); [done|].
        intros j Hj%Hmem. apply lookup_lt_Some in Hj. lia. }
      rewrite Hw. destruct (flags !! i) as [k'|] eqn:Hk.
      - destruct (decide (k' ∈ ks)); [by rewrite decide_True by (by right)|]. destruct (decide (k' = k)) as [->|Hkk].
        + by rewrite !decide_True by (try (by apply Hmem); by left).
        + rewrite (decide_False (P := k' ∈ k :: ks)) by (intros [?|?]%elem_of_cons; done). rewrite decide_False; [done|]. intros Hc%Hmem. congruence.
      - rewrite decide_False; [done|]. intros Hc%Hmem. congruence. }
    rewrite Hloop by (by rewrite length_replicate). destruct (flags !! i) as [k|] eqn:Hk.
    + rewrite decide_True; [done|]. apply elem_of_group_keys. by eapply list_elem_of_lookup_2.
    + apply lookup_ge_None. rewrite length_replicate, Hl. by apply lookup_ge_None.
Qed.

Lemma decode_all_each ids_list flags : length ids_list = length flags -> flags <> [] -> decode_all ids_list flags = Ok (each ids_list flags).
Proof. intros Hl Hne. unfold decode_all. destruct disable_tokenizer_batch_decode; [done|]. by apply grouped_decode_each. Qed.

(** ** Requests in a batch do not influence each other *)

(** One request: its state, and the text that is sent for an item. *)
Definition step (old : option status) (it : item) : res (option status * text) :=
  let s := enter old it in
  r ← read_ids s it;
  let '(s, t) := emit s it (decode (flags_of it) (surr_ids s)) (decode (flags_of it) r) in
  Ok (match it_finished it with None => Some s | Some _ => None end, t).

Fixpoint run (old : option status) (its : list item) : res (option status * list text) :=
  match its with
  | [] => Ok (old, [])
  | it :: its =>
      '(s, t) ← step old it;
      '(s, ts) ← run s its;
      Ok (s, t :: ts)
  end.

Definition keys (d : dict) : list Z := fst <$> d.

Lemma get_update k k' s d : get k (update k' s d) = if k =? k' then (fun _ => s) <$> get k d else get k d.
Proof.
  induction d as [|[k0 s0] d IH]; [by destruct (k =? k')|]. unfold update in *. cbn [fmap list_fmap get fst].
  destruct (Z.eqb_spec k0 k') as [->|Hne]; cbn [get].
  - destruct (Z.eqb_spec k k') as [->|]; [done|exact IH].
  - destruct (Z.eqb_spec k k0) as [->|]; [|exact IH]. by rewrite (proj2 (Z.eqb_neq k0 k')).
Qed.

Lemma get_delete k k' d : get k (delete k' d) = if k =? k' then None else get k d.
Proof.
  induction d as [|[k0 s0] d IH]; [by destruct (k =? k')|]. unfold delete in *. rewrite filter_cons. cbn [fst get].
  case_decide as Hk; cbn [get].
  - destruct (Z.eqb_spec k k0) as [->|]; [|exact IH]. by rewrite (proj2 (Z.eqb_neq k0 k')).
  - subst k0. rewrite IH. by destruct (Z.eqb_spec k k').
Qed.

Lemma get_app k d d' : get k (d ++ d') = match get k d with Some s => Some s | None => get k d' end.
Proof. induction d as [|[k0 s0] d IH]; [done|]. cbn [app get]. by destruct (k =? k0). Qed.

Lemma get_keys k d : is_Some (get k d) <-> k ∈ keys d.
Proof.
  induction d as [|[k0 s0] d IH]; cbn [get keys fmap list_fmap fst].
  - split; [by intros [? ?]|by intros ?%not_elem_of_nil].
  - rewrite elem_of_cons. destruct (Z.eqb_spec k k0) as [->|Hk]; [split; [by left|by eexists]|]. rewrite IH. split; [by right|by intros [?|?]].
Qed.

Lemma keys_update k s d : keys (update k s d) = keys d.
Proof.
  unfold keys, update. rewrite <- list_fmap_compose. apply list_fmap_ext. intros i [k0 s0] _. cbn. by destruct (Z.eqb_spec k0 k) as [->|].
Qed.

(** Distinct keys, all known, and no more of them than there is room for. *)
Record fits (known : list Z) (d : dict) : Prop := {
  ft_nodup : NoDup (keys d);
  ft_known : keys d ⊆ known;
  ft_room : (length known <= capacity)%nat;
}.

Lemma fits_update known k s d : fits known d -> fits known (update k s d).
Proof. intros [F1 F2 F3]. split; rewrite ?keys_update; done. Qed.

Lemma fits_delete known k d : fits known d -> fits known (delete k d).
Proof.
  intros [F1 F2 F3]. assert (Hsub : keys (delete k d) `sublist_of` keys d) by (apply fmap_sublist, sublist_filter).
  split; [by eapply sublist_NoDup| |done]. intros x Hx. apply F2. by eapply elem_of_sublist.
Qed.

Lemma fits_new known k s d : fits known d -> k ∈ known -> get k d = None -> setitem capacity k s d = Ok (d ++ [(k, s)]) /\ fits known (d ++ [(k, s)]).
Proof.
  intros [F1 F2 F3] Hk Hg. assert (Hn : k ∉ keys d) by (intros [? Hc]%get_keys; congruence).
  assert (Hnd : NoDup (keys (d ++ [(k, s)]))) by (unfold keys; rewrite fmap_app; apply NoDup_app; split; [done|]; split; [by intros x Hx ->%list_elem_of_singleton|apply NoDup_singleton]).
  assert (Hin : keys (d ++ [(k, s)]) ⊆ known).
  { unfold keys. rewrite fmap_app. intros x [Hx|Hx]%elem_of_app; [by apply F2|]. by apply list_elem_of_singleton in Hx as ->. }
  split; [|by split]. unfold setitem. pose proof (submseteq_length _ _ (NoDup_submseteq _ _ Hnd Hin)) as Hle. unfold keys in Hle.
  rewrite length_fmap, length_app in Hle. cbn in Hle. destruct (Nat.leb_spec capacity (length d)); [lia|]. done.
Qed.

(** What an item reads, given the dictionary before the batch. *)
Definition entered (d : dict) (it : item) : status := enter (get (it_rid it) d) it.
Definition reads_ok (d : dict) (it : item) : Prop := exists r, read_ids (entered d it) it = Ok r.
Definition read_of (d : dict) (it : item) : list Z := match read_ids (entered d it) it with Ok r => r | Raise _ => [] end.

Lemma entered_same d d' it : get (it_rid it) d' = get (it_rid it) d -> entered d' it = entered d it.
Proof. intros Hg. unfold entered. by rewrite Hg. Qed.

(** The first loop: every request gets its tokens. *)
Lemma initialize_run known its : forall d,
  fits known d -> NoDup (it_rid <$> its) -> Forall (fun it => it_rid it ∈ known) its -> Forall (reads_ok d) its ->
  exists d', initialize d its = Ok (d', read_of d <$> its, (fun it => surr_ids (entered d it)) <$> its) /\ fits known d' /\
    (forall it, it ∈ its -> get (it_rid it) d' = Some (entered d it)) /\ (forall k, k ∉ it_rid <$> its -> get k d' = get k d).
Proof.
  induction its as [|it its IH]; intros d Hf Hnd Hk Hr; [exists d; split; [done|]; split; [done|]; split; [|done]; by intros it ?%not_elem_of_nil|].
  apply NoDup_cons in Hnd as [Hnew Hnd]. apply Forall_cons in Hk as [Hk0 Hk]. apply Forall_cons in Hr as [[r Hr0] Hr]. cbn [initialize].
  fold (entered d it). set (s := entered d it) in *.
  assert (Hset : exists d1, match get (it_rid it) d with None => setitem capacity (it_rid it) s d | Some _ => Ok (update (it_rid it) s d) end = Ok d1 /\
    fits known d1 /\ get (it_rid it) d1 = Some s /\ forall k, k <> it_rid it -> get k d1 = get k d).
  { destruct (get (it_rid it) d) as [s0|] eqn:Hg.
    - eexists. split; [done|]. split; [by apply fits_update|]. split; [by rewrite get_update, Z.eqb_refl, Hg|]. intros k Hne. rewrite get_update. by rewrite (proj2 (Z.eqb_neq _ _) Hne).
    - destruct (fits_new known _ s d Hf Hk0 Hg) as [Hrun Hf']. eexists. split; [done|]. split; [done|]. split; [rewrite get_app, Hg; cbn; by rewrite Z.eqb_refl|].
      intros k Hne. rewrite get_app. cbn. rewrite (proj2 (Z.eqb_neq _ _) Hne). by destruct (get k d). }
  destruct Hset as (d1 & Hrun1 & Hf1 & Hg1 & Hother). rewrite Hrun1. step_ok. rewrite Hr0. step_ok.
  assert (Hsame : forall it', it' ∈ its -> entered d1 it' = entered d it').
  { intros it' Hin. apply entered_same, Hother. intros He. apply Hnew. rewrite <- He. by apply list_elem_of_fmap_2. }
  assert (Hr1 : Forall (reads_ok d1) its) by (rewrite Forall_forall in *; intros it' Hin; unfold reads_ok; rewrite Hsame by done; by apply Hr).
  destruct (IH d1 Hf1 Hnd Hk Hr1) as (d' & Hrun & Hf' & Hget & Hrest). rewrite Hrun. step_ok.
  assert (Hext : forall {A} (f g : item -> A), (forall it', it' ∈ its -> f it' = g it') -> f <$> its = g <$> its).
  { intros A f g Hfg. apply list_fmap_ext. intros i it' Hi. apply Hfg. by eapply list_elem_of_lookup_2. }
  exists d'. rewrite !fmap_cons. split; [|split; [done|split]].
  - unfold read_of at 2. fold s. rewrite Hr0. do 3 f_equal; [f_equal|]; apply Hext; intros it' Hin; unfold read_of; by rewrite Hsame.
  - intros it' [->|Hin]%elem_of_cons; [by rewrite Hrest|]. by rewrite Hget, Hsame.
  - intros k [Hk1 Hk2]%not_elem_of_cons. by rewrite Hrest, Hother.
Qed.

(** The last loop: every request's state moves on, or is dropped. *)
Lemma incremental_run known its : forall d (st : item -> status) (st' : item -> status * text) (texts : item -> text * text),
  fits known d -> NoDup (it_rid <$> its) -> (forall it, it ∈ its -> get (it_rid it) d = Some (st it)) ->
  (forall it, it ∈ its -> emit (st it) it (fst (texts it)) (snd (texts it)) = st' it) ->
  exists d', incremental d ((fun it => (it, texts it)) <$> its) = Ok (d', (fun it => snd (st' it)) <$> its) /\ fits known d' /\
    (forall it, it ∈ its -> get (it_rid it) d' = match it_finished it with None => Some (fst (st' it)) | Some _ => None end) /\
    (forall k, k ∉ it_rid <$> its -> get k d' = get k d).
Proof.
  induction its as [|it its IH]; intros d st st' texts Hf Hnd Hg He; [exists d; split; [done|]; split; [done|]; split; [|done]; by intros it ?%not_elem_of_nil|].
  apply NoDup_cons in Hnd as [Hnew Hnd]. rewrite !fmap_cons. cbn [incremental]. pose proof (He it ltac:(by left)) as He0. destruct (texts it) as [a b] eqn:Ht. cbn [fst snd] in He0.
  rewrite (Hg it) by (by left). cbn [of_option]. step_ok. rewrite He0. destruct (st' it) as [s t] eqn:Hs. step_ok.
  set (d1 := match it_finished it with None => update (it_rid it) s d | Some _ => delete (it_rid it) d end).
  assert (H1 : fits known d1 /\ get (it_rid it) d1 = (match it_finished it with None => Some s | Some _ => None end) /\ forall k, k <> it_rid it -> get k d1 = get k d).
  { subst d1. destruct (it_finished it).
    - split; [by apply fits_delete|]. split; [by rewrite get_delete, Z.eqb_refl|]. intros k Hne. by rewrite get_delete, (proj2 (Z.eqb_neq _ _) Hne).
    - split; [by apply fits_update|]. split; [by rewrite get_update, Z.eqb_refl, (Hg it) by (by left)|]. intros k Hne. by rewrite get_update, (proj2 (Z.eqb_neq _ _) Hne). }
  destruct H1 as (Hf1 & Hg1 & Hother).
  destruct (IH d1 st st' texts Hf1 Hnd) as (d' & Hrun & Hf' & Hget & Hrest).
  { intros it' Hin. rewrite Hother; [apply Hg; by right|]. intros Hc. apply Hnew. rewrite <- Hc. by apply list_elem_of_fmap_2. }
  { intros it' Hin. apply He. by right. }
  rewrite Hrun. step_ok. exists d'. split; [done|]. split; [done|]. split.
  - intros it' [->|Hin]%elem_of_cons; [by rewrite Hrest, Hg1, Hs|]. by apply Hget.
  - intros k [Hk1 Hk2]%not_elem_of_cons. by rewrite Hrest, Hother.
Qed.

(** A batch is as many independent steps. *)
Definition stepped (d : dict) (it : item) : option status * text :=
  match step (get (it_rid it) d) it with Ok x => x | Raise _ => (None, []) end.

Lemma batch_run known d its :
  fits known d -> NoDup (it_rid <$> its) -> Forall (fun it => it_rid it ∈ known) its -> Forall (fun it => exists x, step (get (it_rid it) d) it = Ok x) its ->
  exists d', handle_batch_token_id_out d its = Ok (d', (fun it => snd (stepped d it)) <$> its) /\ fits known d' /\
    (forall it, it ∈ its -> get (it_rid it) d' = fst (stepped d it)) /\ (forall k, k ∉ it_rid <$> its -> get k d' = get k d).
Proof.
  intros Hf Hnd Hk Hs. unfold handle_batch_token_id_out. case_bool_decide as Hnil; [subst its; exists d; split; [done|]; split; [done|]; split; [|done]; by intros ? ?%not_elem_of_nil|].
  assert (Hok : Forall (reads_ok d) its).
  { eapply Forall_impl; [exact Hs|]. intros it [x Hx]. unfold step in Hx. fold (entered d it) in Hx. unfold reads_ok. destruct (read_ids (entered d it) it); [by eexists|done]. }
  destruct (initialize_run known its d Hf Hnd Hk Hok) as (d1 & Hrun & Hf1 & Hg1 & Hr1). unfold decode_batch_token_id_output. rewrite Hrun. do 2 step_ok.
  rewrite !decode_all_each by (rewrite ?length_fmap; try done; by destruct its). do 2 step_ok.
  set (texts it := (decode (flags_of it) (surr_ids (entered d it)), decode (flags_of it) (read_of d it))).
  assert (Hzip : forall l, zip l (zip (each ((fun it => surr_ids (entered d it)) <$> l) (flags_of <$> l)) (each (read_of d <$> l) (flags_of <$> l))) = (fun it => (it, texts it)) <$> l).
  { unfold each. induction l as [|it l IH]; [done|]. cbn. by rewrite IH. }
  rewrite Hzip. set (st' it := emit (entered d it) it (fst (texts it)) (snd (texts it))).
  destruct (incremental_run known its d1 (entered d) st' texts Hf1 Hnd Hg1 ltac:(done)) as (d' & Hrun' & Hf' & Hg' & Hr').
  assert (Hst : forall it, it ∈ its -> stepped d it = (match it_finished it with None => Some (fst (st' it)) | Some _ => None end, snd (st' it))).
  { intros it Hin. rewrite Forall_forall in Hok. destruct (Hok it Hin) as [r Hr]. unfold stepped, step. fold (entered d it). rewrite Hr. step_ok.
    unfold st', texts, read_of. rewrite Hr. cbn [fst snd]. by destruct (emit _ _ _ _). }
  exists d'. split; [|split; [done|split]].
  - rewrite Hrun'. do 2 f_equal. apply list_fmap_ext. intros i it Hi. by rewrite (Hst it) by (by eapply list_elem_of_lookup_2).
  - intros it Hin. by rewrite Hg', Hst.
  - intros k Hnk. by rewrite Hr', Hr1.
Qed.

Fixpoint serve (d : dict) (bs : list (list item)) : res (dict * list (list text)) :=
  match bs with
  | [] => Ok (d, [])
  | b :: bs =>
      '(d, ts) ← handle_batch_token_id_out d b;
      '(d, tss) ← serve d bs;
      Ok (d, ts :: tss)
  end.

(** The items and the texts of one request. *)
Definition of_rid {A} (k : Z) (l : list (item * A)) : list (item * A) := filter (fun e => it_rid (fst e) = k) l.
Definition items_of (k : Z) (its : list item) : list item := filter (fun it => it_rid it = k) its.
Definition texts_of (k : Z) (its : list item) (ts : list text) : list text := snd <$> of_rid k (zip its ts).

Lemma texts_of_app k its its' ts ts' : length its = length ts -> texts_of k (its ++ its') (ts ++ ts') = texts_of k its ts ++ texts_of k its' ts'.
Proof. intros Hl. unfold texts_of, of_rid. by rewrite zip_with_app, filter_app, fmap_app. Qed.

Lemma texts_of_map k its (f : item -> text) : texts_of k its (f <$> its) = f <$> items_of k its.
Proof.
  unfold texts_of, of_rid, items_of. induction its as [|it its IH]; [done|]. rewrite fmap_cons. cbn [zip zip_with]. rewrite !filter_cons. cbn [fst].
  case_decide; [|exact IH]. rewrite !fmap_cons. by rewrite IH.
Qed.

(** In a batch a request has at most one item. *)
Lemma items_of_one k its : NoDup (it_rid <$> its) -> items_of k its = [] /\ k ∉ it_rid <$> its \/ exists it, items_of k its = [it] /\ it ∈ its /\ it_rid it = k.
Proof.
  induction its as [|it its IH]; intros Hnd; [left; split; [done|apply not_elem_of_nil]|]. rewrite fmap_cons in Hnd. apply NoDup_cons in Hnd as [Hn Hnd]. unfold items_of in *.
  rewrite filter_cons. destruct (IH Hnd) as [[He Hni]|(it' & He & Hin & Hk)].
  - case_decide as Hk; [right; exists it; rewrite He; split; [done|]; split; [by left|done]|]. left. split; [done|]. rewrite fmap_cons. apply not_elem_of_cons. split; [congruence|done].
  - right. exists it'. rewrite decide_False; [split; [done|]; split; [by right|done]|]. intros Hc. apply Hn. rewrite Hc, <- Hk. by apply list_elem_of_fmap_2.
Qed.

(** Batching is transparent: when the dictionary has room for every request that
    ever comes, and each request alone could be served, the batches are served,
    and every request gets the texts it would get alone. *)
Lemma serve_independent known bs : forall d,
  fits known d -> Forall (fun b => NoDup (it_rid <$> b) /\ Forall (fun it => it_rid it ∈ known) b) bs ->
  (forall k, exists x, run (get k d) (items_of k (concat bs)) = Ok x) ->
  exists d' tss, serve d bs = Ok (d', tss) /\ fits known d' /\ length (concat tss) = length (concat bs) /\
    forall k, run (get k d) (items_of k (concat bs)) = Ok (get k d', texts_of k (concat bs) (concat tss)).
Proof.
  induction bs as [|b bs IH]; intros d Hf Hb Hr; [by exists d, []|]. apply Forall_cons in Hb as [[Hnd Hk] Hb]. cbn [concat] in *.
  assert (Hsplit : forall k, items_of k (b ++ concat bs) = items_of k b ++ items_of k (concat bs)) by (intros k; apply filter_app).
  assert (Hsteps : Forall (fun it => exists x, step (get (it_rid it) d) it = Ok x) b).
  { apply Forall_forall. intros it Hin. destruct (Hr (it_rid it)) as [x Hx]. rewrite Hsplit in Hx.
    destruct (items_of_one (it_rid it) b Hnd) as [[_ Hni]|(it' & He & Hin' & Hid)]; [by destruct (Hni ltac:(by apply list_elem_of_fmap_2))|].
    assert (it' = it) as ->.
    { assert (Hit : it ∈ items_of (it_rid it) b) by (apply list_elem_of_filter; by split). rewrite He in Hit. by apply list_elem_of_singleton in Hit. }
    rewrite He in Hx. cbn [app run] in Hx. destruct (step (get (it_rid it) d) it); [by eexists|done]. }
  destruct (batch_run known d b Hf Hnd Hk Hsteps) as (d1 & Hrun1 & Hf1 & Hg1 & Hr1).
  assert (Hone : forall k ts, run (get k d) (items_of k (b ++ concat bs)) = Ok ts ->
    exists ts', run (get k d1) (items_of k (concat bs)) = Ok (fst ts, ts') /\ snd ts = ((fun it => snd (stepped d it)) <$> items_of k b) ++ ts').
  { intros k [s ts] Hx. rewrite Hsplit in Hx. destruct (items_of_one k b Hnd) as [[He Hni]|(it & He & Hin & Hid)]; rewrite He in Hx |- *.
    - rewrite Hr1 by done. cbn [app] in Hx. exists ts. by split.
    - cbn [app run] in Hx. rewrite <- Hid in Hx |- *. rewrite (Hg1 it Hin). destruct (step (get (it_rid it) d) it) as [[s1 t1]|] eqn:Hst; [|done]. revert Hx. step_ok.
      assert (Hsd : stepped d it = (s1, t1)) by (unfold stepped; by rewrite Hst). rewrite fmap_cons, Hsd. cbn [fst snd fmap list_fmap app].
      destruct (run s1 (items_of (it_rid it) (concat bs))) as [[s2 ts2]|] eqn:Hr2; [|done]. step_ok. intros [= <- <-]. exists ts2. by split. }
  destruct (IH d1 Hf1 Hb) as (d' & tss & Hrun & Hf' & Hlen & Hall).
  { intros k. destruct (Hr k) as [ts Hts]. destruct (Hone k ts Hts) as (ts' & Hr' & _). by eexists. }
  cbn [serve]. rewrite Hrun1. do 2 step_ok. rewrite Hrun. do 2 step_ok. eexists d', (_ :: tss). split; [done|]. split; [done|]. cbn [concat].
  split; [by rewrite !length_app, length_fmap, Hlen|]. intros k. destruct (Hr k) as [[s ts] Hts]. destruct (Hone k _ Hts) as (ts' & Hr' & Hsnd). cbn [fst snd] in *.
  rewrite Hall in Hr'. injection Hr' as <- <-. rewrite Hts, texts_of_app by (by rewrite length_fmap). by rewrite texts_of_map, Hsnd.
Qed.
End detokenizer.
End Detok.
