(* ===== verification/DetokenizerProofs.v ===== *)
(** * The text a client gets

    From the steps of a request through the scheduler's reports and the
    detokenizer's batches: the increments add up to the text of the generated
    tokens, for text without CJK characters; with them, text can be repeated. *)

From S2P Require Import Prelude DllmReq StopStrings Streaming Detokenizer.
Import Stops Stream Detok.
#[local] Open Scope Z_scope.

(** ** Prefixes up to a kind of character *)

(** The longest prefix that ends with a character of the kind. *)
Fixpoint upto (P : Z -> bool) (t : text) : text :=
  match t with
  | [] => []
  | x :: t => match upto P t with [] => if P x then [x] else [] | u => x :: u end
  end.

Definition ends_in (P : Z -> bool) (t : text) : Prop := forall c, last t = Some c -> P c = true.

Lemma upto_prefix P t : upto P t `prefix_of` t.
Proof.
  induction t as [|x t IH]; [done|]. cbn [upto]. destruct (upto P t) as [|y u].
  - destruct (P x); [|apply prefix_nil]. apply prefix_cons, prefix_nil.
  - by apply prefix_cons.
Qed.

Lemma upto_ends P t : ends_in P (upto P t).
Proof.
  induction t as [|x t IH]; [done|]. cbn [upto]. destruct (upto P t) as [|y u] eqn:Hu.
  - destruct (P x) eqn:Hx; [|done]. by intros c [= <-].
  - intros c. rewrite last_cons_cons. apply IH.
Qed.

Lemma upto_longest P t x : x `prefix_of` t -> ends_in P x -> x `prefix_of` upto P t.
Proof.
  revert x. induction t as [|a t IH]; intros x Hp He; [by apply prefix_nil_inv in Hp as ->|]. destruct x as [|b x]; [apply prefix_nil|].
  pose proof (prefix_cons_inv_1 _ _ _ _ Hp) as ->. pose proof (prefix_cons_inv_2 _ _ _ _ Hp) as Hp'. cbn [upto].
  assert (He' : ends_in P x) by (intros c Hc; apply He; destruct x; [done|by rewrite last_cons_cons]).
  specialize (IH x Hp' He'). destruct (upto P t) as [|y u]; [|by apply prefix_cons]. apply prefix_nil_inv in IH as ->. rewrite (He a eq_refl). done.
Qed.

Definition is_space (c : Z) : bool := c =? 32.
Definition is_settled (c : Z) : bool := negb (c =? replacement).

Lemma rfind_upto t : slice_to t (rfind 32 t + 1) = upto is_space t /\ -1 <= rfind 32 t < len t /\ (rfind 32 t = -1 <-> upto is_space t = []).
Proof.
  induction t as [|x t (IH1 & IH2 & IH3)]; [done|]. cbn [rfind upto]. rewrite len_cons. destruct (Z.eqb_spec (rfind 32 t) (-1)) as [He|He].
  - rewrite (proj1 IH3 He). unfold is_space. destruct (x =? 32); (split; [|split; [lia|done]]); [by rewrite slice_to_take by lia|done].
  - destruct (upto is_space t) as [|y u] eqn:Hu; [by destruct He; apply IH3|]. rewrite <- Hu in *. split; [|split; [lia|]].
    + rewrite slice_to_take in IH1 by lia. rewrite slice_to_take by lia. replace (Z.to_nat (rfind 32 t + 1 + 1)) with (S (Z.to_nat (rfind 32 t + 1))) by lia. cbn. by rewrite IH1.
    + split; [lia|done].
Qed.

(** ** Decoders

    [piece b] is the text that the tokens [b] add after other tokens; decoding
    with some context before them gives it, unless the context ends within a
    character, which shows as a replacement character.  What comes before
    trailing replacement characters does not change any more. *)

Definition clean (t : text) : Prop := last t <> Some replacement.
Definition settled (t : text) : text := upto is_settled t.

Class Decoder (decode piece : list Z -> text) : Prop := {
  decode_after s b : s <> [] -> clean (piece s) -> decode (s ++ b) = decode s ++ piece b;
  piece_nil : piece [] = [];
  piece_app a b : clean (piece a) -> piece (a ++ b) = piece a ++ piece b;
  piece_settled a b : settled (piece a) `prefix_of` piece (a ++ b);
}.

(** No CJK characters, for which find_printable_text has rules of its own. *)
Definition plain (piece : list Z -> text) : Prop := forall a, Forall (fun c => is_chinese_char c = false) (piece a).

Lemma printable_plain t : Forall (fun c => is_chinese_char c = false) t -> last t <> Some 10 -> find_printable_text t = upto is_space t.
Proof.
  intros Hp Hl. unfold find_printable_text. rewrite bool_decide_false by done.
  assert (Hc : forall c, c ∈ t -> is_chinese_char c = false) by (by rewrite <- Forall_forall).
  assert (H1 : match last t with Some c => is_chinese_char c | None => false end = false) by (destruct (last t) eqn:He; [by apply Hc, last_Some_elem_of|done]).
  assert (H2 : match penultimate t with Some c => is_chinese_char c | None => false end = false).
  { unfold penultimate. destruct (last (take _ t)) eqn:He; [|done]. apply Hc. apply last_Some_elem_of in He. by eapply elem_of_prefix; [|apply prefix_take]. }
  rewrite H1, H2. apply rfind_upto.
Qed.

Section text.
Context (gpt_oss : bool) (decode : bool * bool -> list Z -> text) (flags : bool * bool) (piece : list Z -> text).
Context `{!Decoder (decode flags) piece} (Hplain : plain piece).
Notation step := (step gpt_oss decode).
Notation run := (run gpt_oss decode).

(** Between items: [done] is decoded, of the tokens [P] the text [X] was sent. *)
Record holding (s : status) (done P : list Z) (X : text) : Prop := {
  hd_split : exists pre ctx, ctx <> [] /\ clean (piece ctx) /\ decode_ids s = pre ++ ctx ++ P /\ surr_offset s = len pre /\ read_offset s = len (pre ++ ctx);
  hd_text : decoded_text s = piece done;
  hd_clean : clean (piece done);
  hd_sent : sent_offset s = len (piece done ++ X);
  hd_prefix : X `prefix_of` settled (piece P);
  hd_space : ends_in is_space X;
}.

(** With the new tokens entered: [X] is part of the text. *)
Record ready (s : status) (done P : list Z) (X : text) : Prop := {
  ry_split : exists pre ctx, ctx <> [] /\ clean (piece ctx) /\ decode_ids s = pre ++ ctx ++ P /\ surr_offset s = len pre /\ read_offset s = len (pre ++ ctx);
  ry_text : decoded_text s = piece done;
  ry_clean : clean (piece done);
  ry_sent : sent_offset s = len (piece done ++ X);
  ry_prefix : X `prefix_of` piece P;
  ry_space : ends_in is_space X;
}.

Lemma enter_ready s done P X it : holding s done P X -> ready (enter (Some s) it) done (P ++ it_decode_ids it) X.
Proof.
  intros [(pre & ctx & H1 & H2 & H3 & H4 & H5) Ht Hc Hs Hp He]. split; try done.
  - exists pre, ctx. cbn. by rewrite H3, <- !app_assoc.
  - etrans; [exact Hp|apply piece_settled].
Qed.

(** What is decoded, and the new text. *)
Lemma ready_texts s done P X ids :
  ready s done P X -> slice_from (decode_ids s) (surr_offset s) = ids ->
  exists ctx, ids = ctx ++ P /\ ctx <> [] /\ clean (piece ctx) /\ surr_ids s = ctx /\
    forall P', slice_from (decode flags (ctx ++ P')) (len (decode flags ctx)) = piece P'.
Proof.
  intros [(pre & ctx & H1 & H2 & H3 & H4 & H5) _ _ _ _ _] <-. exists ctx. rewrite H3, H4. pose proof (len_nonneg pre). split.
  { rewrite slice_from_drop by lia. unfold len. by rewrite Nat2Z.id, drop_app_length. }
  split; [done|]. split; [done|]. split.
  - unfold surr_ids. rewrite H3, H4, H5, slice_drop_take by apply len_nonneg. unfold len. by rewrite !Nat2Z.id, app_assoc, take_app_length, drop_app_length.
  - intros P'. rewrite decode_after by done. rewrite slice_from_drop by apply len_nonneg. unfold len. by rewrite Nat2Z.id, drop_app_length.
Qed.

(** The increment: what the output has beyond what was sent. *)
Lemma increment (a X b : text) : X `prefix_of` b -> a ++ X ++ slice_from (a ++ b) (len (a ++ X)) = a ++ b.
Proof.
  intros [k ->]. rewrite slice_from_drop by apply len_nonneg. unfold len. by rewrite Nat2Z.id, (app_assoc a X k), drop_app_length, app_assoc.
Qed.

Lemma step_going old it s done P X :
  enter old it = s -> ready s done P X -> it_finished it = None -> flags_of it = flags ->
  exists s' t done' P' X', step old it = Ok (Some s', t) /\ holding s' done' P' X' /\ done' ++ P' = done ++ P /\
    piece done ++ X ++ t = piece done' ++ X'.
Proof.
  intros He Hr Hf Hfl. unfold Detok.step. rewrite He, Hfl. destruct (ready_texts _ _ _ _ _ Hr eq_refl) as (ctx & Hids & Hne & Hc & Hsurr & Hnew).
  unfold read_ids, trim_ids. rewrite Hf, Hids, Hsurr. assert (Htrim : (if it_no_stop_trim it then Ok (ctx ++ P) else Ok (ctx ++ P)) = Ok (ctx ++ P)) by (by destruct (it_no_stop_trim it)).
  rewrite Htrim. step_ok. unfold emit. rewrite Hf, Hnew. destruct Hr as [(pre & ctx' & K1 & K2 & K3 & K4 & K5) Ht Hcl Hs Hp Hsp].
  assert (Htt : forall t, trim_text t None (it_no_stop_trim it) = t) by (intros t; unfold trim_text; by destruct (it_no_stop_trim it)).
  destruct (negb _ && negb _) eqn:Hflush.
  - apply andb_true_iff in Hflush as [Hn%negb_true_iff%bool_decide_eq_false Hl%negb_true_iff%bool_decide_eq_false]. cbn [decoded_text decode_ids surr_offset read_offset sent_offset].
    rewrite Htt, app_nil_r, Ht, <- piece_app by done. eexists _, _, (done ++ P), [], []. split; [reflexivity|]. split; [split|split].
    + cbn. exists (pre ++ ctx'), P. split; [intros ->; by rewrite piece_nil in Hn|]. split; [done|]. rewrite K3, !app_nil_r, <- app_assoc. split; [done|]. split; [done|by rewrite app_assoc].
    + done.
    + rewrite piece_app by done. unfold clean. rewrite last_app. by destruct (last (piece P)) eqn:El; [|apply last_None in El].
    + cbn. by rewrite app_nil_r.
    + apply prefix_nil.
    + done.
    + by rewrite app_nil_r.
    + rewrite app_nil_r, Hs, (piece_app done P) by done. by apply increment.
  - assert (Hlast : last (piece P) <> Some 10).
    { intros Hc10. rewrite Hc10 in Hflush. destruct (piece P); [done|]. done. }
    assert (Hsub : upto is_space (piece P) `prefix_of` settled (piece P)).
    { apply upto_longest; [apply upto_prefix|]. intros c Hc'. apply upto_ends in Hc'. unfold is_space, is_settled in *. apply Z.eqb_eq in Hc' as ->. done. }
    rewrite (printable_plain _ (Hplain P) Hlast), Htt, Ht. eexists _, _, done, P, (upto is_space (piece P)). split; [reflexivity|]. split; [|split; [done|]].
    + split; cbn; try done; [by exists pre, ctx'|apply upto_ends].
    + rewrite Hs. apply increment. by apply upto_longest.
Qed.

(** The tokens of the last item that count: all, or all but the stop token. *)
Definition kept (it : item) (ids : list Z) : list Z := match trim_ids gpt_oss ids (it_finished it) (it_no_stop_trim it) with Ok l => l | Raise _ => ids end.

Definition trims (it : item) : bool :=
  negb (it_no_stop_trim it) && match it_finished it with Some (MATCHED_INT m) => negb (m =? 0) | _ => false end.

(** No stop string is cut from the text. *)
Definition no_stop_str (it : item) : Prop := it_no_stop_trim it = true \/ forall m, it_finished it <> Some (MATCHED_STR m).

Lemma slice_to_end {A} (l : list A) : slice_to l (-1) = take (length l - 1) l.
Proof. unfold slice_to, clamp. cbn. f_equal. unfold len. lia. Qed.

Lemma trim_app it a c : (trims it = true -> c <> []) -> trim_ids gpt_oss (a ++ c) (it_finished it) (it_no_stop_trim it) = Ok (a ++ kept it c).
Proof.
  unfold trims, kept, trim_ids. intros Hc. destruct (it_no_stop_trim it); [done|]. destruct (it_finished it) as [[|m|]|]; try done. destruct (m =? 0); [done|].
  specialize (Hc eq_refl). rewrite last_app. destruct (last c) as [x|] eqn:Hl; [|by apply last_None in Hl]. destruct (_ && _); [done|]. f_equal. rewrite !slice_to_end, length_app.
  destruct c as [|y c]; [done|]. rewrite take_app_ge by (cbn; lia). do 2 f_equal. cbn. lia.
Qed.

Lemma kept_app it a c : (trims it = true -> c <> []) -> kept it (a ++ c) = a ++ kept it c.
Proof. intros Hc. unfold kept at 1. by rewrite trim_app. Qed.

(** What is kept of the item starts with what was there. *)
Lemma kept_after it P c : (trims it = true -> c <> []) -> exists c', kept it (P ++ c) = P ++ c'.
Proof. intros Hc. exists (kept it c). by apply kept_app. Qed.

Lemma step_final old it s done P c X m :
  enter old it = s -> ready s done (P ++ c) X -> (forall c', X `prefix_of` piece (P ++ c')) -> it_finished it = Some m -> flags_of it = flags -> no_stop_str it ->
  (trims it = true -> c <> []) ->
  exists t, step old it = Ok (None, t) /\ piece done ++ X ++ t = piece (done ++ P ++ kept it c).
Proof.
  intros He Hr Hx Hf Hfl Hns Hc. unfold Detok.step. rewrite He, Hfl. destruct (ready_texts _ _ _ _ _ Hr eq_refl) as (ctx & Hids & Hne & Hcl & Hsurr & Hnew).
  unfold read_ids. rewrite Hids, Hsurr, app_assoc, trim_app by done. step_ok. rewrite <- app_assoc. unfold emit. rewrite Hnew.
  assert (Htt : forall t, trim_text t (it_finished it) (it_no_stop_trim it) = t).
  { intros t. unfold trim_text. destruct Hns as [->|Hns]; [done|]. destruct (it_no_stop_trim it); [done|]. destruct (it_finished it) as [[| |x]|]; try done. by destruct (Hns x). }
  destruct Hr as [_ Ht Hcl' Hs _ _]. rewrite Hf in Htt |- *. rewrite Htt. eexists. split; [reflexivity|]. rewrite Hs, Ht, (piece_app done) by done. apply increment. apply Hx.
Qed.

(** A request from some state on: the increments complete the text. *)
Lemma run_text its : forall s done P X lst m cs c,
  holding s done P X -> Forall (fun it => it_finished it = None /\ flags_of it = flags) its -> it_finished lst = Some m -> flags_of lst = flags -> no_stop_str lst ->
  (trims lst = true -> c <> []) -> it_decode_ids <$> its = cs -> it_decode_ids lst = c ->
  exists ts, run (Some s) (its ++ [lst]) = Ok (None, ts) /\ piece done ++ X ++ concat ts = piece (done ++ P ++ concat cs ++ kept lst c).
Proof.
  induction its as [|it its IH]; intros s done P X lst m cs c Hh Hf Hm Hfl Hns Hc <- Hl; cbn [app Detok.run fmap list_fmap concat].
  - pose proof (enter_ready s done P X lst Hh) as Hr. rewrite Hl in Hr.
    destruct (step_final (Some s) lst _ done P c X m eq_refl Hr) as (t & Hst & Ht); try done.
    { intros c'. etrans; [apply (hd_prefix _ _ _ _ Hh)|apply piece_settled]. }
    rewrite Hst. do 2 step_ok. eexists. split; [reflexivity|]. cbn [concat]. by rewrite app_nil_r.
  - apply Forall_cons in Hf as [[Hf0 Hfl0] Hf]. pose proof (enter_ready s done P X it Hh) as Hr.
    destruct (step_going (Some s) it _ done _ X eq_refl Hr Hf0 Hfl0) as (s1 & t & done1 & P1 & X1 & Hst & Hh1 & Hd & Ht). rewrite Hst. do 2 step_ok.
    destruct (IH s1 done1 P1 X1 lst m _ c Hh1 Hf Hm Hfl Hns Hc eq_refl Hl) as (ts & Hrun & Hts). rewrite Hrun. do 2 step_ok. eexists. split; [reflexivity|]. cbn [concat].
    transitivity ((piece done ++ X ++ t) ++ concat ts); [by rewrite <- !app_assoc|]. rewrite Ht, <- app_assoc, Hts. f_equal.
    transitivity ((done1 ++ P1) ++ concat (it_decode_ids <$> its) ++ kept lst c); [by rewrite <- !app_assoc|]. rewrite Hd. by rewrite <- !app_assoc.
Qed.

(** The state before the first item. *)
Definition before (ctx : list Z) : status := Status [] ctx 0 (len ctx) 0.

Lemma before_holding ctx : ctx <> [] -> clean (piece ctx) -> holding (before ctx) [] [] [].
Proof.
  intros Hne Hc. pose proof (@piece_nil (decode flags) piece _) as Hn. split; rewrite ?Hn; try done. exists [], ctx. cbn. by rewrite app_nil_r.
Qed.

(** The first item is one more item after that state. *)
Lemma first_item it ctx c :
  it_decoded_text it = [] -> it_decode_ids it = ctx ++ c -> it_read_offset it = len ctx ->
  enter None it = enter (Some (before ctx)) (Item (it_rid it) (it_finished it) [] c (it_read_offset it) (it_output_ids it) (it_skip_special_tokens it)
    (it_spaces_between_special_tokens it) (it_no_stop_trim it)).
Proof. intros H1 H2 H3. unfold enter. cbn. by rewrite H1, H2, H3. Qed.

Lemma run_first it ctx c its :
  it_decoded_text it = [] -> it_decode_ids it = ctx ++ c -> it_read_offset it = len ctx ->
  run None (it :: its) = run (Some (before ctx)) (Item (it_rid it) (it_finished it) [] c (it_read_offset it) (it_output_ids it) (it_skip_special_tokens it)
    (it_spaces_between_special_tokens it) (it_no_stop_trim it) :: its).
Proof. intros H1 H2 H3. cbn [Detok.run]. unfold Detok.step. by rewrite (first_item it ctx c). Qed.
End text.

(** ** From the steps of a request to the client *)

Section client.
Context (capacity : nat) (disable_batch gpt_oss : bool) (decode : bool * bool -> list Z -> text) (batch_decode : bool * bool -> list (list Z) -> list text).
Context (flags : bool * bool) (piece : list Z -> text).
(** Settings of the request and of the server. *)
Context (stream : bool) (req_interval : option Z) (stream_interval FORCE : Z) (st : stops) (tokenizer_decode : list Z -> text) (no_stop_trim : bool).
Hypothesis batch_decode_each : forall k l, batch_decode k l = decode k <$> l.
Context `{!Decoder (decode flags) piece} (Hplain : plain piece).
Hypothesis interval_ok : interval req_interval stream_interval <> 0.
Hypothesis force_ok : FORCE <> 0.
Notation stream_run := (stream_run stream req_interval stream_interval FORCE st tokenizer_decode [] (fst flags) (snd flags) no_stop_trim).
Notation run := (run gpt_oss decode).
Notation serve := (serve capacity disable_batch gpt_oss decode batch_decode).
Notation delivered := (delivered [] (fst flags) (snd flags) no_stop_trim).

(** The texts of a request served alone. *)
Lemma alone_text ctx id cs its lst m :
  delivered ctx None id cs (its ++ [lst]) -> Forall (fun it => it_finished it = None) its -> it_finished lst = Some m ->
  ctx <> [] -> clean (piece ctx) -> no_stop_str lst -> (trims lst = true -> it_output_ids lst <> []) ->
  exists ts, run None (its ++ [lst]) = Ok (None, ts) /\ concat ts = piece (kept gpt_oss lst (concat cs)).
Proof.
  intros [D1 D2 D3] Hn Hm Hne Hc Hns Htr.
  assert (Hset : forall it, it ∈ its ++ [lst] -> it_decoded_text it = [] /\ it_read_offset it = len ctx /\ flags_of it = flags).
  { intros it Hin. rewrite Forall_forall in D3. destruct (D3 it Hin) as (H1 & _ & H2 & H3 & H4 & _). unfold flags_of. rewrite H3, H4. by destruct flags. }
  pose proof (before_holding decode flags piece ctx Hne Hc) as Hh. pose proof (@piece_nil (decode flags) piece _) as Hpn.
  assert (Hfl : Forall (fun it => it_finished it = None /\ flags_of it = flags) its).
  { rewrite Forall_forall in *. intros it Hin. split; [by apply Hn|]. apply Hset, elem_of_app. by left. }
  destruct its as [|it its].
  - destruct cs as [|c [|]]; cbn in D1, D2; try done. injection D1 as D1. injection D2 as D2. destruct (Hset lst ltac:(by left)) as (H1 & H2 & H3).
    cbn [app]. rewrite (run_first gpt_oss decode lst ctx c) by done. set (lst' := Item _ _ _ _ _ _ _ _ _).
    destruct (run_text gpt_oss decode flags piece Hplain [] (before ctx) [] [] [] lst' m [] c Hh) as (ts & Hrun & Hts); try done; [by intros Ht; rewrite <- D2; apply Htr|].
    exists ts. split; [exact Hrun|]. rewrite Hpn in Hts. cbn in Hts. rewrite Hts. cbn. by rewrite app_nil_r.
  - destruct cs as [|c cs]; [done|]. cbn [app fmap list_fmap] in D1, D2. injection D1 as D1 D1'. injection D2 as D2 D2'. destruct (Hset it ltac:(by left)) as (H1 & H2 & H3).
    cbn [app]. rewrite (run_first gpt_oss decode it ctx c) by done. set (it' := Item _ _ _ _ _ _ _ _ _). apply Forall_cons in Hfl as [[Hf0 Hf1] Hfl].
    assert (Hcs : exists cs0, cs = cs0 ++ [it_output_ids lst] /\ it_decode_ids <$> its = cs0 /\ it_decode_ids lst = it_output_ids lst).
    { exists (it_output_ids <$> its). fold (it_output_ids <$> (its ++ [lst])) in D2'. fold (it_decode_ids <$> (its ++ [lst])) in D1'. rewrite <- D2', fmap_app in D1' |- *. rewrite fmap_app in D1'. cbn [fmap list_fmap] in *.
      apply app_inj_2 in D1' as [Ha Hb]; [|done]. injection Hb as Hb. by split. }
    destruct Hcs as (cs0 & -> & Hids & Hlst).
    destruct (run_text gpt_oss decode flags piece Hplain (it' :: its) (before ctx) [] [] [] lst m (c :: cs0) (it_output_ids lst) Hh) as (ts & Hrun & Hts); try done.
    + by constructor.
    + by apply Hset, elem_of_app; right; left.
    + cbn. f_equal. exact Hids.
    + exists ts. split; [exact Hrun|]. rewrite Hpn in Hts. cbn [app] in Hts. rewrite Hts. f_equal. cbn [concat]. rewrite concat_app. cbn [concat]. rewrite app_nil_r.
      by rewrite app_assoc, (kept_app gpt_oss).
Qed.

(** C14: the client gets the text of the tokens.  A request is reported after
    its steps as the stream settings say, and its reports reach the detokenizer
    in batches with those of other requests: then the batches are served, and the
    increments of the request's text add up to the text of its output through the
    stop, without the stop token when that is trimmed.  This is for a detokenizer
    whose dictionary of states has room for every request ([capacity]; an evicted
    state loses text), for a request that does not end with a stop string that is
    trimmed, whose last report has something new, after a context that ends with
    complete characters, for a tokenizer that decodes complete characters
    independently of what follows ([Decoder]), and text without CJK
    characters. *)
Theorem streamed_text_complete known bs rs r s its :
  finished r = true -> StronglySorted evolves (rs ++ [r]) -> stream_run new_stream (rs ++ [r]) = Ok (s, its) ->
  items_of (rid (info r)) (concat bs) = its -> Forall (fun b => NoDup (it_rid <$> b) /\ Forall (fun it => it_rid it ∈ known) b) bs ->
  (length known <= capacity)%nat -> (forall k, k <> rid (info r) -> exists x, run None (items_of k (concat bs)) = Ok x) ->
  context r <> [] -> clean (piece (context r)) ->
  (no_stop_trim = true \/ forall m, to_json <$> finished_reason (out r) <> Some (MATCHED_STR m)) ->
  (forall x, x ∈ rs -> output_ids_through_stop x <> output_ids_through_stop r) -> output_ids_through_stop r <> [] ->
  exists d tss ids, serve [] bs = Ok (d, tss) /\ trim_ids gpt_oss (output_ids_through_stop r) (to_json <$> finished_reason (out r)) no_stop_trim = Ok ids /\
    concat (texts_of (rid (info r)) (concat bs) (concat tss)) = piece ids.
Proof.
  intros Hfin Hev Hsrun Hits Hbs Hcap Hother Hctx Hcl Hns Hnew Hne.
  destruct (stream_delivers stream req_interval stream_interval FORCE st tokenizer_decode [] (fst flags) (snd flags) no_stop_trim interval_ok force_ok rs r Hfin Hev)
    as (s' & its0 & lst & cs & Hrun0 & Hd & Hn & Hl & Hcs & Hlast). rewrite Hsrun in Hrun0. injection Hrun0 as <- Hits0. rewrite Hits0 in Hits.
  assert (Hset : it_no_stop_trim lst = no_stop_trim).
  { destruct Hd as [_ _ D3]. apply Forall_app in D3 as [_ D3]. by apply Forall_cons in D3 as [(_ & _ & _ & _ & _ & ?) _]. }
  assert (Hm : exists m, it_finished lst = Some m) by (rewrite Hl; unfold finished in Hfin; apply bool_decide_eq_true in Hfin; destruct (finished_reason (out r)); [by eexists|done]).
  destruct Hm as [m Hm]. destruct (alone_text (context r) (rid (info r)) cs its0 lst m Hd Hn Hm Hctx Hcl) as (ts & Hrun & Hts).
  { unfold no_stop_str. rewrite Hset, Hl. exact Hns. }
  { intros _. by apply Hlast. }
  destruct (serve_independent capacity disable_batch gpt_oss decode batch_decode batch_decode_each known bs []) as (d & tss & Hserve & _ & _ & Hall).
  { split; [constructor|intros x ?%not_elem_of_nil; done|done]. }
  { exact Hbs. }
  { intros k. destruct (decide (k = rid (info r))) as [->|Hk]; [rewrite Hits; by eexists|by apply Hother]. }
  specialize (Hall (rid (info r))). rewrite Hits in Hall. cbn [get] in Hall. rewrite Hrun in Hall. injection Hall as _ Hall.
  exists d, tss, (kept gpt_oss lst (concat cs)). split; [done|]. rewrite <- Hall, Hts. split; [|done]. rewrite <- Hl, <- Hset, <- Hcs.
  pose proof (trim_app gpt_oss lst [] (concat cs)) as Ht. apply Ht. intros _. by rewrite Hcs.
Qed.
End client.
