(* ===== verification/DetokenizerExamples.v ===== *)
(** * A tokenizer, and runs of the detokenizer

    A tokenizer whose tokens are characters, but for one character of two
    tokens, is a [Decoder].  A stream that adds up; one in which text is
    repeated; a stop token that stays; and what an eviction from the dictionary
    does. *)

From S2P Require Import Prelude DllmReq StopStrings Streaming Detokenizer DetokenizerProofs.
Import Stops Stream Detok.
#[local] Open Scope Z_scope.

(** ** Characters, one of them in two tokens *)

Section toy.
Context (char : Z -> Z).

Definition toy_char (x : Z) : Z := if x <? 0 then replacement else char x.

(** Tokens -1 and -2 are the halves of the character 233. *)
Fixpoint toy (l : list Z) : text :=
  match l with
  | [] => []
  | x :: t =>
      match t with
      | y :: t' => if (x =? -1) && (y =? -2) then 233 :: toy t' else toy_char x :: toy t
      | [] => [toy_char x]
      end
  end.

Lemma toy_cons x t : x <> -1 -> toy (x :: t) = toy_char x :: toy t.
Proof. intros Hx. destruct t as [|y t]; [done|]. cbn [toy]. by rewrite (proj2 (Z.eqb_neq _ _) Hx). Qed.

Lemma toy_pair x y t : toy (x :: y :: t) = if (x =? -1) && (y =? -2) then 233 :: toy t else toy_char x :: toy (y :: t).
Proof. done. Qed.

Lemma clean_tail x t : clean (x :: t) -> clean t.
Proof. unfold clean. destruct t; [done|]. by rewrite last_cons_cons. Qed.

Lemma toy_app : forall n a b, (length a <= n)%nat -> clean (toy a) -> toy (a ++ b) = toy a ++ toy b.
Proof.
  induction n as [|n IH]; intros [|x [|y a]] b Hn Hc; try done; try (cbn in Hn; lia).
  - apply (toy_cons x b). intros ->. by apply Hc.
  - cbn [app]. rewrite !toy_pair in *. destruct ((x =? -1) && (y =? -2)); apply clean_tail in Hc; cbn [app]; f_equal.
    + apply IH; [cbn in Hn; lia|done].
    + apply (IH (y :: a)); [cbn in *; lia|done].
Qed.

Lemma settled_cons x t : settled (x :: t) = match settled t with [] => if is_settled x then [x] else [] | u => x :: u end.
Proof. done. Qed.

Lemma settled_prefix x t t' : settled t `prefix_of` t' -> settled (x :: t) `prefix_of` x :: t'.
Proof.
  rewrite settled_cons. destruct (settled t); intros Hp; [|by apply prefix_cons]. destruct (is_settled x); [|apply prefix_nil]. apply prefix_cons, prefix_nil.
Qed.

Lemma toy_settled : forall n a b, (length a <= n)%nat -> settled (toy a) `prefix_of` toy (a ++ b).
Proof.
  induction n as [|n IH]; intros [|x [|y a]] b Hn; try (apply prefix_nil); try (cbn in Hn; lia).
  - change ([x] ++ b) with (x :: b). destruct (decide (x = -1)) as [->|Hx]; [apply prefix_nil|]. rewrite (toy_cons x b Hx). apply (settled_prefix _ []), prefix_nil.
  - cbn [app]. rewrite !toy_pair. destruct ((x =? -1) && (y =? -2)); apply settled_prefix; [apply IH|apply (IH (y :: a))]; cbn in *; lia.
Qed.

#[global] Instance toy_decoder : Decoder toy toy.
Proof.
  split.
  - intros s b _ Hc. by apply (toy_app (length s)).
  - done.
  - intros a b Hc. by apply (toy_app (length a)).
  - intros a b. by apply (toy_settled (length a)).
Qed.

Lemma toy_plain : (forall x, is_chinese_char (char x) = false) -> plain toy.
Proof.
  intros Hc a. enough (H : forall n a, (length a <= n)%nat -> Forall (fun c => is_chinese_char c = false) (toy a)) by by apply (H (length a)).
  assert (H1 : forall x, is_chinese_char (toy_char x) = false) by (intros x; unfold toy_char; destruct (x <? 0); [done|apply Hc]).
  induction n as [|n IH]; intros [|x [|y l]] Hn; try (cbn in Hn; lia); try (constructor; fail); [by repeat constructor|]. rewrite toy_pair.
  destruct (_ && _); constructor; try done; [apply IH|apply (IH (y :: l))]; cbn in *; lia.
Qed.
End toy.

(** ** A stream *)

Definition ascii_char (x : Z) : Z := if is_chinese_char x then 63 else x.

Lemma ascii_plain x : is_chinese_char (ascii_char x) = false.
Proof. unfold ascii_char. destruct (is_chinese_char x) eqn:H; [done|exact H]. Qed.

Definition text_req (id : Z) (out : list Z) (fin : option finish_reason) : req :=
  Req (ReqInfo id [104] (SamplingParams 8 false []) [] None 100 false (-1) false false)
    (ReqOut out (LpChannels [] [] None None [] [] [] []) fin None None)
    (ReqKV None 0 0 false false 0) (ReqIn [] [] 0 0 0 None 0).

Definition toy_decode (char : Z -> Z) (_ : bool * bool) (l : list Z) : text := toy char l.
Definition toy_batch (char : Z -> Z) (k : bool * bool) (l : list (list Z)) : list text := toy_decode char k <$> l.

#[global] Instance toy_decode_decoder char flags : Decoder (toy_decode char flags) (toy char).
Proof. exact (toy_decoder char). Qed.

(** The items of a request that streams after every step. *)
Definition items (rs : list req) : list item :=
  match stream_run true None 1 50 no_stops (fun _ => []) [] true true false new_stream rs with Ok (_, its) => its | Raise _ => [] end.

(** "H é i!" in three steps, the character split between the first two; the
    last token is the stop token 9. *)
Definition greeting : list req :=
  [text_req 1 [72; 32; -1] None; text_req 1 [72; 32; -1; -2; 32] None; text_req 1 [72; 32; -1; -2; 32; 105; 33; 9] (Some (FINISH_MATCHED_TOKEN 9))].

Definition greeting_batches : list (list item) := (fun it => [it]) <$> items greeting.

Lemma streamed_text_complete_witness :
  exists d tss, serve 4 false false (toy_decode ascii_char) (toy_batch ascii_char) [] greeting_batches = Ok (d, tss) /\
    tss = [[[72; 32]]; [[233; 32]]; [[105; 33]]] /\ concat (texts_of 1 (concat greeting_batches) (concat tss)) = toy ascii_char [72; 32; -1; -2; 32; 105; 33].
Proof.
  set (r := text_req 1 [72; 32; -1; -2; 32; 105; 33; 9] (Some (FINISH_MATCHED_TOKEN 9))).
  set (rs := [text_req 1 [72; 32; -1] None; text_req 1 [72; 32; -1; -2; 32] None]).
  destruct (streamed_text_complete 4 false false (toy_decode ascii_char) (toy_batch ascii_char) (true, true) (toy ascii_char) true None 1 50 no_stops (fun _ => []) false
    (fun k l => eq_refl) (toy_plain ascii_char ascii_plain) ltac:(cbn; lia) ltac:(lia)
    [1] greeting_batches rs r
    (match stream_run true None 1 50 no_stops (fun _ => []) [] true true false new_stream (rs ++ [r]) with Ok (s, _) => s | Raise _ => new_stream end) (items greeting))
    as (d & tss & ids & Hs & Hi & Ht).
  - reflexivity.
  - repeat constructor; cbn; try reflexivity; eexists; reflexivity.
  - vm_compute. reflexivity.
  - vm_compute. reflexivity.
  - repeat constructor; try (intros H; by apply not_elem_of_nil in H).
  - cbn. lia.
  - intros k Hk. exists (None, []). assert (He : items_of k (concat greeting_batches) = []); [|by rewrite He].
    assert (Hall : Forall (fun it => it_rid it = 1) (concat greeting_batches)) by (vm_compute; repeat constructor).
    apply elem_of_nil_inv. intros it [Hit Hin]%list_elem_of_filter. rewrite Forall_forall in Hall. rewrite (Hall it Hin) in Hit. by subst k.
  - discriminate.
  - discriminate.
  - right. discriminate.
  - intros x [->|[->|Hx%not_elem_of_nil]%elem_of_cons]%elem_of_cons; [discriminate|discriminate|done].
  - discriminate.
  - exists d, tss. split; [exact Hs|]. vm_compute in Hi. injection Hi as <-. split; [|exact Ht].
    assert (Hc : snd <$> (match serve 4 false false (toy_decode ascii_char) (toy_batch ascii_char) [] greeting_batches with Ok x => Some x | Raise _ => None end)
      = Some [[[72; 32]]; [[233; 32]]; [[105; 33]]]) by (vm_compute; reflexivity).
    rewrite Hs in Hc. exact (Some_inj _ _ Hc).
Defined.

Lemma stream_sends_everything_witness :
  exists s its lst, stream_run true None 1 50 no_stops (fun _ => []) [] true true false new_stream greeting = Ok (s, its ++ [lst]) /\
    its ++ [lst] = items greeting /\ concat (it_output_ids <$> its ++ [lst]) = [72; 32; -1; -2; 32; 105; 33; 9] /\
    concat (it_decode_ids <$> its ++ [lst]) = [104; 72; 32; -1; -2; 32; 105; 33; 9] /\ it_finished lst = Some (MATCHED_INT 9).
Proof.
  destruct (stream_sends_everything true None 1 50 no_stops (fun _ => []) [] true true false ltac:(cbn; lia) ltac:(lia)
    [text_req 1 [72; 32; -1] None; text_req 1 [72; 32; -1; -2; 32] None] (text_req 1 [72; 32; -1; -2; 32; 105; 33; 9] (Some (FINISH_MATCHED_TOKEN 9))))
    as (s & its & lst & Hrun & Ho & Hd & _ & Hl).
  - reflexivity.
  - repeat constructor; cbn; try reflexivity; eexists; reflexivity.
  - exists s, its, lst. split; [exact Hrun|]. split; [unfold items; change greeting with
      ([text_req 1 [72; 32; -1] None; text_req 1 [72; 32; -1; -2; 32] None] ++ [text_req 1 [72; 32; -1; -2; 32; 105; 33; 9] (Some (FINISH_MATCHED_TOKEN 9))]); by rewrite Hrun|].
    split; [exact Ho|]. split; [exact Hd|exact Hl].
Defined.

(** ** Where the increments do not add up *)

Definition all_texts (capacity : nat) (k : Z) (bs : list (list item)) : option text :=
  match serve capacity false false (toy_decode id) (toy_batch id) [] bs with
  | Ok (_, tss) => Some (concat (texts_of k (concat bs) (concat tss)))
  | Raise _ => None
  end.

(** A CJK character, and two characters that are each split between steps. *)
Definition mixed : list req :=
  [text_req 1 [20320; -1] None; text_req 1 [20320; -1; -2; -1] None; text_req 1 [20320; -1; -2; -1; -2] (Some (FINISH_LENGTH 5))].

(** Text can be repeated.  When a step ends within a character that follows
    a CJK character, the text before it is sent; when the next step ends within
    a character that follows another kind of character, the printable part is
    shorter than what was sent, the offset of what was sent moves back, and the
    CJK character is sent a second time: the increments of this stream are not
    the text of its tokens, which a single report gives. *)
Theorem streamed_text_repeats :
  all_texts 4 1 ((fun it => [it]) <$> items mixed) = Some [20320; 20320; 233; 233] /\
  all_texts 4 1 ((fun it => [it]) <$> items [text_req 1 [20320; -1; -2; -1; -2] (Some (FINISH_LENGTH 5))]) = Some [20320; 233; 233] /\
  toy id [20320; -1; -2; -1; -2] = [20320; 233; 233] /\ Decoder (toy id) (toy id).
Proof. split; [vm_compute; reflexivity|]. split; [vm_compute; reflexivity|]. split; [reflexivity|]. apply toy_decoder. Qed.

(** A stop token is trimmed from the text unless its id is 0. *)
Lemma stop_token_zero_kept :
  all_texts 4 1 [items [text_req 1 [72; 105; 9] (Some (FINISH_MATCHED_TOKEN 9))]] = Some [72; 105] /\
  all_texts 4 1 [items [text_req 1 [72; 105; 0] (Some (FINISH_MATCHED_TOKEN 0))]] = Some [72; 105; 0].
Proof. split; vm_compute; reflexivity. Qed.

Definition nth_items (rs : list req) (i : nat) : list item := match items rs !! i with Some it => [it] | None => [] end.

(** Two requests and room for one state: the first one's state is dropped when
    the second one comes, and the next tokens of the first are taken for the
    start of a new request, whose first token is lost as context; nothing is
    raised, unless the two are in the same batch. *)
Lemma evicted_state_loses_text :
  let one := [text_req 1 [72] None; text_req 1 [72; 73; 74] (Some (FINISH_LENGTH 3))] in
  let two := [text_req 2 [90] None; text_req 2 [90; 91] (Some (FINISH_LENGTH 2))] in
  all_texts 2 1 [nth_items one 0; nth_items two 0; nth_items one 1] = Some [72; 73; 74] /\
  all_texts 1 1 [nth_items one 0; nth_items two 0; nth_items one 1] = Some [72; 74] /\
  serve 1 false false (toy_decode id) (toy_batch id) [] [nth_items one 0 ++ nth_items two 0] = Raise RuntimeError.
Proof. cbn zeta. split; [|split]; vm_compute; reflexivity. Qed.
