(* ===== verification/Responses.v ===== *)
(** * Responses of the tokenizer manager

    TokenizerManager of managers/tokenizer_manager.py between the detokenizer
    and the client: the handle loop ([_handle_batch_output], [_handle_abort_req])
    fills the output list of each request's ReqState and sets its event; a
    generator per request ([_wait_one_response]) waits for the event, takes the
    list and yields to the client.  Both run in one asyncio loop, so they
    interleave at the points where they wait.  Meta information other than the
    finish reason, metrics, embeddings and clients that disconnect are not
    modelled. *)

From S2P Require Import Prelude DllmReq.
#[local] Open Scope Z_scope.

Module Tok.

(** The finish reason of a message: aborts carry a status code, or none. *)
Inductive reason := NORMAL | ABORT (status_code : option Z).

(** One request's entry of a BatchStrOutput or, without text, of a
    BatchTokenIDOutput. *)
Record output := Output { o_rid : Z; o_text : option text; o_ids : list Z; o_finish : option reason }.

(** A dict that is put into an output list: its text may be missing, or None
    and filled in later; its ids may be the list of the state itself. *)
Inductive text_field := NoText | Deferred | Text (t : text).
Inductive ids_field := Own (l : list Z) | Alias.
Record chunk := Chunk { c_text : text_field; c_ids : ids_field; c_finish : option reason }.

Record req_state := ReqState {
  st_rid : Z;
  is_stream : bool;
  out_list : list chunk;
  finished : bool;
  event : bool;
  last_output_offset : Z;
  st_text : text;
  text_chunks : list text;
  st_output_ids : list Z;
  closed : bool;   (* the generator has returned *)
}.

Definition new_state (rid : Z) (stream : bool) : req_state := ReqState rid stream [] false false 0 [] [] [] false.

Definition set_queue (s : req_state) (l : list chunk) (e : bool) : req_state :=
  ReqState (st_rid s) (is_stream s) l (finished s) e (last_output_offset s) (st_text s) (text_chunks s) (st_output_ids s) (closed s).
Definition set_finished (s : req_state) (f : bool) : req_state :=
  ReqState (st_rid s) (is_stream s) (out_list s) f (event s) (last_output_offset s) (st_text s) (text_chunks s) (st_output_ids s) (closed s).
Definition set_offset (s : req_state) (n : Z) : req_state :=
  ReqState (st_rid s) (is_stream s) (out_list s) (finished s) (event s) n (st_text s) (text_chunks s) (st_output_ids s) (closed s).
Definition set_texts (s : req_state) (t : text) (l : list text) : req_state :=
  ReqState (st_rid s) (is_stream s) (out_list s) (finished s) (event s) (last_output_offset s) t l (st_output_ids s) (closed s).
Definition set_ids (s : req_state) (l : list Z) : req_state :=
  ReqState (st_rid s) (is_stream s) (out_list s) (finished s) (event s) (last_output_offset s) (st_text s) (text_chunks s) l (closed s).
Definition close (s : req_state) : req_state :=
  ReqState (st_rid s) (is_stream s) (out_list s) (finished s) (event s) (last_output_offset s) (st_text s) (text_chunks s) (st_output_ids s) true.

Definition append_text (s : req_state) (t : text) : req_state :=
  if bool_decide (t = []) then s else set_texts s (st_text s) (text_chunks s ++ [t]).

Definition get_text (s : req_state) : req_state * text :=
  let t := st_text s ++ concat (text_chunks s) in (set_texts s t [], t).

(** The states are objects; [rid_to_state] refers to those that are live. *)
Record manager := Manager { objs : list req_state; rid_to_state : gmap Z nat }.

Definition put (s : manager) (k : nat) (st : req_state) : manager := Manager (<[k := st]> (objs s)) (rid_to_state s).

Section manager.
Context (incremental_streaming_output : bool) (batch_notify_size : nat).

(** _init_req_state for one request *)
Definition init_req_state (rid : Z) (stream : bool) (s : manager) : res manager :=
  match rid_to_state s !! rid with
  | Some _ => Raise ValueError
  | None => Ok (Manager (objs s ++ [new_state rid stream]) (<[rid := length (objs s)]> (rid_to_state s)))
  end.

(** ** The handle loop *)

Definition incremental (s : req_state) : bool := incremental_streaming_output && is_stream s.

(** The state after an output, and the dict for its list, if any. *)
Definition receive (s : req_state) (m : output) : req_state * option chunk :=
  let s := set_finished s (bool_decide (o_finish m <> None)) in
  let s := match o_text m with Some t => append_text s t | None => s end in
  let s := set_ids s (st_output_ids s ++ o_ids m) in
  if incremental s then
    (set_offset s (len (st_output_ids s)), Some (Chunk (match o_text m with Some t => Text t | None => NoText end) (Own (o_ids m)) (o_finish m)))
  else if finished s then
    match o_text m with
    | Some _ => let '(s, t) := get_text s in (s, Some (Chunk (Text t) (Own (st_output_ids s)) (o_finish m)))
    | None => (s, Some (Chunk NoText (Own (st_output_ids s)) (o_finish m)))
    end
  else if is_stream s then
    (s, Some (Chunk (match o_text m with Some _ => Deferred | None => NoText end) Alias (o_finish m)))
  else (s, None).

(** [event.set()] for the states in [pending_notify] *)
Definition notify (s : manager) (pending : list nat) : manager :=
  Manager (foldl (fun l k => alter (fun st => set_queue st (out_list st) true) k l) (objs s) pending) (rid_to_state s).

(** _handle_batch_output from some point to the next [await]: the outputs that
    are left, and those taken, with the state they went to. *)
Fixpoint handle_batch_output (s : manager) (pending : list nat) (ms : list output) : manager * list output * list (nat * output) :=
  match ms with
  | [] => (notify s pending, [], [])
  | m :: ms =>
      match rid_to_state s !! o_rid m with
      | None => handle_batch_output s pending ms
      | Some k =>
          match objs s !! k with
          | None => handle_batch_output s pending ms
          | Some st =>
              let '(st, c) := receive st m in
              let refs := if finished st then delete (o_rid m) (rid_to_state s) else rid_to_state s in
              match c with
              | None =>
                  let '(s, rest, taken) := handle_batch_output (Manager (<[k := st]> (objs s)) refs) pending ms in
                  (s, rest, (k, m) :: taken)
              | Some c =>
                  let s := Manager (<[k := set_queue st (out_list st ++ [c]) (event st)]> (objs s)) refs in
                  let pending := if bool_decide (k ∈ pending) then pending else pending ++ [k] in
                  if (batch_notify_size <=? length pending)%nat then (notify s pending, ms, [(k, m)])
                  else let '(s, rest, taken) := handle_batch_output s pending ms in (s, rest, (k, m) :: taken)
              end
          end
      end
  end.

(** _handle_abort_req *)
Definition handle_abort_req (s : manager) (rid : Z) (r : reason) : res (manager * nat) :=
  k ← of_option KeyError (rid_to_state s !! rid);
  st ← of_option KeyError (objs s !! k);
  let st := set_finished st true in
  let ids := if is_stream st then Own (match last (st_output_ids st) with Some t => [t] | None => [] end) else Alias in
  let '(st, t) := get_text st in
  Ok (put s k (set_queue st (out_list st ++ [Chunk (Text t) ids (Some r)]) true), k).

(** ** The generator *)

(** The start of _wait_one_response: the generator looks its state up, by the id
    of its request, when it runs for the first time. *)
Definition wait_begin (s : manager) (rid : Z) : res nat := of_option KeyError (rid_to_state s !! rid).

(** What the client gets: an output, or the exception that ends its generator. *)
Inductive answer := Yield (t : option text) (ids : list Z) (f : option reason) | Error (e : pyexn).

Definition ids_of (s : req_state) (c : chunk) : list Z := match c_ids c with Own l => l | Alias => st_output_ids s end.

Definition text_key (c : chunk) : res text := match c_text c with Text t => Ok t | NoText => Raise KeyError | Deferred => Raise TypeError end.

Fixpoint join (l : list chunk) : res text :=
  match l with
  | [] => Ok []
  | c :: l => t ← text_key c; ts ← join l; Ok (t ++ ts)
  end.

(** _coalesce_streaming_chunks *)
Definition coalesce (s : req_state) (l : list chunk) (lst : chunk) : res chunk :=
  t ← (match c_text lst with NoText => Ok NoText | _ => t ← join l; Ok (Text t) end);
  Ok (Chunk t (Own (concat (ids_of s <$> l))) (c_finish lst)).

(** From [event.wait()] to the dict that is sent, or an exception; the list and
    the event are reset either way. *)
Definition take_output (s : req_state) : req_state * res chunk :=
  let l := out_list s in
  let s := set_queue s [] false in
  match lst ← of_option IndexError (last l); if incremental s && (1 <? length l)%nat then coalesce s l lst else Ok lst with
  | Raise e => (s, Raise e)
  | Ok c =>
      match c_text c with
      | Deferred =>
          if is_stream s && negb (incremental s) then let '(s, t) := get_text s in (s, Ok (Chunk (Text t) (c_ids c) (c_finish c))) else (s, Ok c)
      | _ => (s, Ok c)
      end
  end.

Definition yield_of (s : req_state) (c : chunk) : answer :=
  Yield (match c_text c with Text t => Some t | _ => None end) (ids_of s c) (c_finish c).

(** _handle_abort_finish_reason: the manager it leaves and the exception it
    raises, if any; an HTTPException is a RuntimeError here. *)
Definition handle_abort_finish_reason (s : manager) (st : req_state) (c : chunk) : manager * res () :=
  match c_finish c with
  | Some (ABORT (Some code)) =>
      if code =? 400 then (s, if is_stream st then Ok () else Raise ValueError)
      else if (code =? 503) || (code =? 500) then
        (Manager (objs s) (delete (st_rid st) (rid_to_state s)), if is_stream st then Ok () else Raise RuntimeError)
      else (s, Ok ())
  | _ => (s, Ok ())
  end.

(** One round of _wait_one_response once the event is set: the manager it
    leaves, and what it yields or the exception it raises, which ends it. *)
Definition wait_one_response (s : manager) (k : nat) : manager * res (list answer) :=
  match objs s !! k with
  | None => (s, Raise IndexError)
  | Some st =>
      let '(st, r) := take_output st in
      match r with
      | Raise e => (put s k (close st), Raise e)
      | Ok c =>
          if finished st then
            let '(s, r) := handle_abort_finish_reason (put s k (close st)) st c in
            (s, _ ← r; Ok [yield_of st c])
          else (put s k st, Ok (if is_stream st then [yield_of st c] else []))
      end
  end.

(** What the client sees of a round. *)
Definition seen (r : res (list answer)) : list answer := match r with Ok l => l | Raise e => [Error e] end.

(** ** The two together *)

(** What happens to a request, by the index of its state. *)
Inductive observation := Took (k : nat) (m : output) | Aborted (k : nat) | Gave (k : nat) (a : answer).

(** The rest of the batch whose handling waits, empty between messages. *)
Record system := System { mgr : manager; rest : list output }.

Inductive step : system -> list observation -> system -> Prop :=
  | arrive s ms rid stream s' : init_req_state rid stream s = Ok s' -> step (System s ms) [] (System s' ms)
  | receive_batch s ms s' ms' taken : handle_batch_output s [] ms = (s', ms', taken) -> step (System s []) (uncurry Took <$> taken) (System s' ms')
  | resume_batch s ms s' ms' taken : handle_batch_output s [] ms = (s', ms', taken) -> step (System s ms) (uncurry Took <$> taken) (System s' ms')
  | receive_abort s rid r s' k : handle_abort_req s rid r = Ok (s', k) -> step (System s []) [Aborted k] (System s' [])
  | wake s ms k st s' r :
      objs s !! k = Some st -> event st = true -> closed st = false -> wait_one_response s k = (s', r) -> step (System s ms) (Gave k <$> seen r) (System s' ms).

Definition start : system := System (Manager [] ∅) [].

Inductive reachable : system -> list observation -> Prop :=
  | reach_start : reachable start []
  | reach_step s tr o s' : reachable s tr -> step s o s' -> reachable s' (tr ++ o).
End manager.
End Tok.
