(* ===== verification/ResponsesProofs.v ===== *)
(** * What the client of the tokenizer manager gets

    Invariants of the handle loop and the generators, over every interleaving:
    a generator is woken exactly when there is output for it, and the client
    gets the output of its request; what aborts leave behind. *)

From S2P Require Import Prelude DllmReq Responses.
Import Tok.
#[local] Open Scope Z_scope.

(** ** Observations of one request *)

Definition takes (k : nat) (tr : list observation) : list output :=
  omap (fun o => match o with Took k' m => if decide (k' = k) then Some m else None | _ => None end) tr.
Definition gives (k : nat) (tr : list observation) : list answer :=
  omap (fun o => match o with Gave k' a => if decide (k' = k) then Some a else None | _ => None end) tr.

Definition texts (ms : list output) : text := concat ((fun m => match o_text m with Some t => t | None => [] end) <$> ms).
Definition ids (ms : list output) : list Z := concat (o_ids <$> ms).
Definition given_text (l : list answer) : text := concat ((fun a => match a with Yield (Some t) _ _ => t | _ => [] end) <$> l).
Definition given_ids (l : list answer) : list Z := concat ((fun a => match a with Yield _ l _ => l | Error _ => [] end) <$> l).

Definition has_text (o : observation) : Prop := match o with Took _ m => is_Some (o_text m) | _ => True end.
Definition ends (m : output) : bool := bool_decide (o_finish m <> None).
Definition normal (f : option reason) : Prop := f = None \/ f = Some NORMAL.

Lemma takes_app k tr tr' : takes k (tr ++ tr') = takes k tr ++ takes k tr'.
Proof. apply omap_app. Qed.
Lemma gives_app k tr tr' : gives k (tr ++ tr') = gives k tr ++ gives k tr'.
Proof. apply omap_app. Qed.
Lemma takes_one k k' m : takes k [Took k' m] = if decide (k' = k) then [m] else [].
Proof. cbn. by destruct (decide (k' = k)). Qed.
Lemma gives_gave k k' l : gives k (Gave k' <$> l) = if decide (k' = k) then l else [].
Proof.
  unfold gives. destruct (decide (k' = k)) as [->|Hk]; induction l as [|a l IH]; try done; rewrite fmap_cons; csimpl; rewrite IH.
  - by rewrite decide_True.
  - by rewrite decide_False.
Qed.
Lemma takes_gave k k' l : takes k (Gave k' <$> l) = [].
Proof. by induction l. Qed.
Lemma texts_app l l' : texts (l ++ l') = texts l ++ texts l'.
Proof. unfold texts. by rewrite fmap_app, concat_app. Qed.
Lemma ids_app l l' : ids (l ++ l') = ids l ++ ids l'.
Proof. unfold ids. by rewrite fmap_app, concat_app. Qed.
Lemma given_text_app l l' : given_text (l ++ l') = given_text l ++ given_text l'.
Proof. unfold given_text. by rewrite fmap_app, concat_app. Qed.
Lemma given_ids_app l l' : given_ids (l ++ l') = given_ids l ++ given_ids l'.
Proof. unfold given_ids. by rewrite fmap_app, concat_app. Qed.

Section responses.
Context (inc : bool) (batch_notify_size : nat).
Notation incremental := (incremental inc).
Notation receive := (receive inc).
Notation take_output := (take_output inc).
Notation handle_batch_output := (handle_batch_output inc batch_notify_size).
Notation wait_one_response := (wait_one_response inc).
Notation step := (step inc batch_notify_size).
Notation reachable := (reachable inc batch_notify_size).

(** ** One state *)

Definition total (st : req_state) : text := st_text st ++ concat (text_chunks st).

Definition chunk_text (c : chunk) : text := match c_text c with Text t => t | _ => [] end.
Definition chunk_ids (c : chunk) : list Z := match c_ids c with Own l => l | Alias => [] end.
Definition own (c : chunk) : Prop := exists t l f, c = Chunk (Text t) (Own l) f /\ normal f.

(** The last chunk of a list that is not incremental. *)
Definition whole (st : req_state) (c : chunk) : Prop :=
  exists f, normal f /\ c = if finished st then Chunk (Text (total st)) (Own (st_output_ids st)) f else Chunk Deferred Alias f.

(** The state of a request that has taken these outputs and given these
    answers. *)
Record sound (st : req_state) (ms : list output) (l : list answer) : Prop := {
  so_text : total st = texts ms;
  so_ids : st_output_ids st = ids ms;
  so_end : finished st = existsb ends ms;
  so_closed : closed st = true -> finished st = true /\ out_list st = [];
  so_owed : finished st = true -> closed st = false -> out_list st <> [];
  so_inc : incremental st = true -> Forall own (out_list st) /\ given_text l ++ concat (chunk_text <$> out_list st) = texts ms /\
             given_ids l ++ concat (chunk_ids <$> out_list st) = ids ms;
  so_stream : incremental st = false -> is_stream st = true ->
             (out_list st <> [] -> exists cs c, out_list st = cs ++ [c] /\ whole st c) /\
             (closed st = true -> exists f, last l = Some (Yield (Some (texts ms)) (ids ms) f));
  so_single : is_stream st = false ->
             (if finished st && negb (closed st) then exists c, out_list st = [c] /\ whole st c else out_list st = []) /\
             (if closed st then exists f, l = [Yield (Some (texts ms)) (ids ms) f] else l = []);
}.

Lemma new_sound rid stream : sound (new_state rid stream) [] [].
Proof. by split. Qed.

Lemma append_text_total s t : total (append_text s t) = total s ++ t.
Proof.
  unfold append_text, total. case_bool_decide as Ht; [by rewrite Ht, app_nil_r|]. cbn. by rewrite concat_app, <- app_assoc; cbn; rewrite app_nil_r.
Qed.

(** Everything but the text. *)
Lemma append_text_frame s t :
  st_rid (append_text s t) = st_rid s /\ is_stream (append_text s t) = is_stream s /\ out_list (append_text s t) = out_list s /\ finished (append_text s t) = finished s /\
  event (append_text s t) = event s /\ st_output_ids (append_text s t) = st_output_ids s /\ closed (append_text s t) = closed s.
Proof. unfold append_text. by destruct (bool_decide _). Qed.

Lemma receive_frame s m s' c : receive s m = (s', c) ->
  st_rid s' = st_rid s /\ is_stream s' = is_stream s /\ out_list s' = out_list s /\ event s' = event s /\ closed s' = closed s /\ finished s' = ends m.
Proof.
  unfold Tok.receive, ends. destruct (o_text m) as [t|].
  - destruct (append_text_frame (Tok.set_finished s (bool_decide (o_finish m <> None))) t) as (H1 & H2 & H3 & H4 & H5 & H6 & H7).
    destruct (Tok.incremental _ _); [intros [= <- <-]; cbn; by rewrite H1, H2, H3, H4, H5, H7|]. cbn [Tok.finished set_ids]. rewrite H4. cbn [Tok.finished Tok.set_finished].
    case_bool_decide; cbn [get_text]; [intros [= <- <-]; cbn; by rewrite H1, H2, H3, H4, H5, H7|].
    destruct (is_stream (set_ids _ _)); intros [= <- <-]; cbn; by rewrite H1, H2, H3, H4, H5, H7.
  - destruct (Tok.incremental _ _); [by intros [= <- <-]|]. destruct (Tok.finished (set_ids _ _)); [by intros [= <- <-]|]. destruct (is_stream (set_ids _ _)); by intros [= <- <-].
Qed.

(** The texts and ids after an output, and the chunk for the list. *)
Lemma receive_parts s m t s' c : o_text m = Some t -> receive s m = (s', c) ->
  total s' = total s ++ t /\ st_output_ids s' = st_output_ids s ++ o_ids m /\
  c = if incremental s then Some (Chunk (Text t) (Own (o_ids m)) (o_finish m))
      else if ends m then Some (Chunk (Text (total s')) (Own (st_output_ids s')) (o_finish m))
      else if is_stream s then Some (Chunk Deferred Alias (o_finish m)) else None.
Proof.
  intros Ht. unfold Tok.receive. rewrite Ht. fold (ends m). set (s1 := append_text _ t). set (s2 := set_ids s1 _).
  destruct (append_text_frame (Tok.set_finished s (ends m)) t) as (H1 & H2 & H3 & H4 & H5 & H6 & H7). fold s1 in H1, H2, H3, H4, H5, H6, H7.
  assert (Htot : total s2 = total s ++ t) by (change (total s2) with (total s1); unfold s1; by rewrite append_text_total).
  assert (Hids : st_output_ids s2 = st_output_ids s ++ o_ids m) by (unfold s2; cbn; by rewrite H6).
  assert (Hinc : incremental s2 = incremental s) by (unfold Tok.incremental, s2; cbn; by rewrite H2).
  rewrite Hinc. change (finished s2) with (finished s1). rewrite H4. change (is_stream s2) with (is_stream s1). rewrite H2. cbn [Tok.finished Tok.set_finished is_stream].
  destruct (incremental s); [by intros [= <- <-]|]. destruct (ends m); [|destruct (is_stream s); by intros [= <- <-]].
  intros [= <- <-]. assert (Hg : total (set_texts s2 (total s2) []) = total s2) by (unfold total at 1; cbn; apply app_nil_r).
  change (st_text s1 ++ concat (text_chunks s1)) with (total s2). by rewrite Hg.
Qed.

Lemma incremental_stream st : incremental st = true -> is_stream st = true.
Proof. unfold Tok.incremental. by intros [_ ?]%andb_true_iff. Qed.

Lemma sound_open st ms l : sound st ms l -> finished st = false -> closed st = false.
Proof. intros Hs Hf. apply not_true_iff_false. intros Hc. destruct (so_closed _ _ _ Hs Hc). congruence. Qed.

Lemma receive_sound st ms l m st' c :
  sound st ms l -> finished st = false -> is_Some (o_text m) -> normal (o_finish m) -> receive st m = (st', c) ->
  sound (match c with Some c => set_queue st' (out_list st' ++ [c]) (event st') | None => st' end) (ms ++ [m]) l.
Proof.
  intros Hs Hf [t Ht] Hn Hr. pose proof (sound_open _ _ _ Hs Hf) as Hopen. destruct Hs as [S1 S2 S3 S4 S0 S5 S6 S7].
  destruct (receive_frame _ _ _ _ Hr) as (F1 & F2 & F3 & F4 & F5 & F6). destruct (receive_parts _ _ _ _ _ Ht Hr) as (P1 & P2 & P3).
  assert (Htx : texts (ms ++ [m]) = texts ms ++ t) by (rewrite texts_app; f_equal; unfold texts; cbn; by rewrite Ht, app_nil_r).
  assert (Hid : ids (ms ++ [m]) = ids ms ++ o_ids m) by (rewrite ids_app; f_equal; unfold ids; cbn; by rewrite app_nil_r).
  assert (Hex : existsb ends (ms ++ [m]) = ends m) by (rewrite existsb_app, <- S3, Hf; cbn; by rewrite orb_false_r).
  set (s2 := match c with Some c => _ | None => _ end).
  assert (E : total s2 = total st' /\ st_output_ids s2 = st_output_ids st' /\ finished s2 = ends m /\ closed s2 = false /\ is_stream s2 = is_stream st /\
    incremental s2 = incremental st /\ out_list s2 = out_list st ++ match c with Some c => [c] | None => [] end).
  { unfold s2, Tok.incremental. destruct c; cbn; rewrite ?F3, ?F5, ?F6, ?F2, ?app_nil_r; done. }
  destruct E as (E1 & E2 & E3 & E4 & E5 & E6 & E7).
  split; rewrite ?E1, ?E2, ?E3, ?E4, ?E5, ?E6, ?E7, ?P1, ?P2, ?Htx, ?Hid, ?Hex, ?S1, ?S2; try done.
  - intros He _. rewrite He in P3. assert (Hc : c <> None) by (by destruct (incremental st); rewrite P3). destruct c; [|done]. by intros [_ ?]%app_nil.
  - intros Hi. rewrite Hi in P3. subst c. destruct (S5 Hi) as (Q1 & Q2 & Q3). rewrite !fmap_app, !concat_app, !app_assoc, Q2, Q3. cbn. rewrite !app_nil_r.
    split; [|done]. apply Forall_app. split; [done|]. constructor; [|done]. by exists t, (o_ids m), (o_finish m).
  - intros Hi Hst. split; [|done]. intros _. rewrite Hi, Hst in P3. exists (out_list st), (match c with Some c => c | None => Chunk NoText Alias None end).
    split; [by destruct (ends m); subst c|]. exists (o_finish m). split; [done|]. rewrite E1, E2, E3. by destruct (ends m); subst c.
  - intros Hst. destruct (S7 Hst) as [T1 T2]. rewrite Hf in T1. rewrite Hopen in T2. split; [|done]. cbn in T1. rewrite T1.
    assert (Hi : incremental st = false) by (apply not_true_iff_false; intros Hi%incremental_stream; congruence). rewrite Hi, Hst in P3.
    destruct (ends m); subst c; [|done]. cbn. eexists. split; [done|]. exists (o_finish m). split; [done|]. by rewrite E1, E2, E3.
Qed.

(** ** Taking the output *)

Lemma join_own l : Forall own l -> join l = Ok (concat (chunk_text <$> l)).
Proof. induction 1 as [|c l (t & i & f & -> & _) _ IH]; [done|]. cbn. unfold join in IH |- *. rewrite IH. done. Qed.

Lemma ids_own st l : Forall own l -> ids_of st <$> l = chunk_ids <$> l.
Proof. induction 1 as [|c l (t & i & f & -> & _) _ IH]; [done|]. rewrite !fmap_cons. by f_equal. Qed.

(** The frame of taking: the list is empty and the event cleared. *)
Definition drained (st st' : req_state) : Prop :=
  st_rid st' = st_rid st /\ is_stream st' = is_stream st /\ out_list st' = [] /\ finished st' = finished st /\ event st' = false /\ closed st' = closed st /\
  total st' = total st /\ st_output_ids st' = st_output_ids st.

Lemma take_incremental st l c :
  incremental st = true -> out_list st = l ++ [c] -> Forall own (out_list st) ->
  exists st' f, drained st st' /\ normal f /\
    take_output st = (st', Ok (Chunk (Text (concat (chunk_text <$> out_list st))) (Own (concat (chunk_ids <$> out_list st))) f)).
Proof.
  intros Hi Hl Hown. assert (Hc : own c) by (rewrite Hl, Forall_app, Forall_singleton in Hown; tauto). destruct Hc as (t & i & f & -> & Hf).
  exists (set_queue st [] false), f. split; [done|]. split; [done|]. unfold Tok.take_output.
  change (incremental (set_queue st [] false)) with (incremental st). rewrite Hi, Hl, last_snoc. cbn [of_option]. step_ok.
  destruct (1 <? length (l ++ [_]))%nat eqn:H1; cbn [andb].
  - unfold coalesce. cbn [c_text]. rewrite <- Hl, join_own, ids_own by done. by do 3 step_ok.
  - apply Nat.ltb_ge in H1. rewrite length_app in H1. cbn in H1. destruct l; [|cbn in H1; lia]. step_ok. cbn. by rewrite !app_nil_r.
Qed.

Lemma take_whole st l c :
  incremental st = false -> out_list st = l ++ [c] -> whole st c -> (finished st = false -> is_stream st = true) ->
  exists st' c' f, drained st st' /\ normal f /\ take_output st = (st', Ok c') /\ c_finish c' = f /\ yield_of st' c' = Yield (Some (total st)) (st_output_ids st) f.
Proof.
  intros Hi Hl (f & Hf & Hc) Hst. unfold Tok.take_output. change (incremental (set_queue st [] false)) with (incremental st). rewrite Hi, Hl, last_snoc. cbn [of_option andb]. do 2 step_ok.
  destruct (finished st) eqn:Hfin; subst c; cbn [c_text].
  - eexists _, _, f. split; [|done]. unfold drained. done.
  - change (is_stream (set_queue st [] false)) with (is_stream st). rewrite (Hst eq_refl). cbn [andb negb get_text]. eexists _, _, f. split; [|done].
    unfold drained. rewrite <- Hfin. do 6 (split; [done|]). split; [|done]. unfold total. cbn. apply app_nil_r.
Qed.

(** The answers of a round: for a request whose output is normal. *)
Lemma wait_sound s k st ms l :
  objs s !! k = Some st -> sound st ms l -> out_list st <> [] -> closed st = false ->
  exists st' t i f, wait_one_response s k = (put s k st', Ok [Yield (Some t) i f]) /\ sound st' ms (l ++ [Yield (Some t) i f]) /\
    st_rid st' = st_rid st /\ event st' = false /\ out_list st' = [] /\ finished st' = finished st.
Proof.
  intros Hk Hs Hne Hopen. assert (Hlst : exists cs c, out_list st = cs ++ [c]) by (destruct (out_list st) as [|x q] using rev_ind; [done|by eexists _, _]).
  destruct Hlst as (cs & c & Hl). assert (Hkind : finished st = false -> is_stream st = true).
  { intros Hf. destruct (is_stream st) eqn:Hstr; [done|]. destruct (so_single _ _ _ Hs Hstr) as [H1 _]. by rewrite Hf in H1. }
  assert (Htake : exists st' c' t i f, drained st st' /\ normal f /\ take_output st = (st', Ok c') /\ c_finish c' = f /\ yield_of st' c' = Yield (Some t) i f /\
    if incremental st then t = concat (chunk_text <$> out_list st) /\ i = concat (chunk_ids <$> out_list st) else t = texts ms /\ i = ids ms).
  { destruct (incremental st) eqn:Hi.
    - destruct (so_inc _ _ _ Hs Hi) as (Hown & _). destruct (take_incremental st cs c Hi Hl Hown) as (st' & f & Hd & Hf & Ht). by eexists st', _, _, _, f.
    - assert (Hw : whole st c).
      { destruct (is_stream st) eqn:Hstr.
        - destruct (so_stream _ _ _ Hs Hi Hstr) as [Hw _]. destruct (Hw Hne) as (cs' & c0 & Hl' & Hw'). rewrite Hl in Hl'. by apply app_inj_tail in Hl' as [_ ->].
        - destruct (so_single _ _ _ Hs Hstr) as [Hw _]. destruct (_ && _); [|done]. destruct Hw as (c0 & Hl' & Hw'). rewrite Hl in Hl'. by apply (app_inj_tail cs []) in Hl' as [_ ->]. }
      destruct (take_whole st cs c Hi Hl Hw Hkind) as (st' & c' & f & Hd & Hf & Ht & Hcf & Hy). eexists st', c', _, _, f. rewrite <- (so_text _ _ _ Hs), <- (so_ids _ _ _ Hs). done. }
  destruct Htake as (st' & c' & t & i & f & (D1 & D2 & D3 & D4 & D5 & D6 & D7 & D8) & Hf & Ht & Hcf & Hy & Hti).
  exists (if finished st then close st' else st'), t, i, f. split; [|split; [|by destruct (finished st)]].
  - unfold Tok.wait_one_response. rewrite Hk, Ht, D4, Hy. unfold handle_abort_finish_reason. rewrite Hcf. destruct (finished st) eqn:Hfin; [by destruct Hf as [-> | ->]|].
    by rewrite D2, (Hkind eq_refl).
  - destruct Hs as [S1 S2 S3 S4 S0 S5 S6 S7]. set (s2 := if finished st then _ else _).
    assert (E : total s2 = total st /\ st_output_ids s2 = st_output_ids st /\ finished s2 = finished st /\ closed s2 = finished st /\ is_stream s2 = is_stream st /\
      incremental s2 = incremental st /\ out_list s2 = []) by (unfold s2, Tok.incremental; destruct (finished st); cbn; rewrite ?D2, ?D3, ?D4, ?D6, ?Hopen; done).
    destruct E as (E1 & E2 & E3 & E4 & E5 & E6 & E7). split; rewrite ?E1, ?E2, ?E3, ?E4, ?E5, ?E6, ?E7; try done.
    + congruence.
    + intros Hi. rewrite Hi in Hti. destruct Hti as [-> ->]. destruct (S5 Hi) as (_ & Q2 & Q3). rewrite given_text_app, given_ids_app. unfold given_text at 2, given_ids at 2. cbn.
      by rewrite !app_nil_r.
    + intros Hi Hstr. rewrite Hi in Hti. destruct Hti as [-> ->]. split; [done|]. intros _. exists f. by rewrite last_snoc.
    + intros Hstr. assert (Hi : incremental st = false) by (apply not_true_iff_false; intros Hi%incremental_stream; congruence). rewrite Hi in Hti. destruct Hti as [-> ->].
      destruct (S7 Hstr) as [_ T2]. rewrite Hopen in T2. subst l. destruct (finished st) eqn:Hfin; [split; [done|by exists f]|]. by rewrite Hkind in Hstr.
Qed.

(** ** All states *)

Definition fine (k : nat) (tr : list observation) : Prop := Aborted k ∉ tr /\ Forall (fun m => normal (o_finish m)) (takes k tr).

(** In the middle of a batch the states in [pending] have output and are about
    to be notified. *)
Record inv (s : manager) (pending : list nat) (tr : list observation) : Prop := {
  i_refs : forall rid k, rid_to_state s !! rid = Some k -> exists st, objs s !! k = Some st /\ st_rid st = rid;
  i_event : forall k st, objs s !! k = Some st -> if decide (k ∈ pending) then out_list st <> [] else event st = bool_decide (out_list st <> []);
  i_text : forall k st, objs s !! k = Some st -> incremental st = true -> Forall (fun c => exists t, c_text c = Text t) (out_list st);
  i_sound : forall k st, objs s !! k = Some st -> fine k tr -> sound st (takes k tr) (gives k tr) /\ (rid_to_state s !! st_rid st = Some k -> finished st = false);
  i_fresh : forall k, (length (objs s) <= k)%nat -> takes k tr = [] /\ gives k tr = [];
}.

Lemma start_keeps : inv (Manager [] ∅) [] [].
Proof. split; intros; try done. Qed.

Lemma fine_app k tr tr' : fine k (tr ++ tr') -> fine k tr.
Proof. intros [H1 H2]. rewrite takes_app in H2. apply Forall_app in H2 as [H2 _]. split; [|done]. intros H. apply H1, elem_of_app. by left. Qed.

Lemma sound_event st e ms l : sound st ms l -> sound (set_queue st (out_list st) e) ms l.
Proof. intros []. by split. Qed.

Lemma notify_lookup pending : forall s k,
  objs (notify s pending) !! k = (fun st => if decide (k ∈ pending) then set_queue st (out_list st) true else st) <$> objs s !! k.
Proof.
  unfold notify. cbn [objs]. induction pending as [|j pending IH]; intros s k; cbn [foldl].
  - destruct (objs s !! k); [|done]. cbn. by rewrite decide_False by apply not_elem_of_nil.
  - pose proof (IH (Manager (alter (fun st => set_queue st (out_list st) true) j (objs s)) (rid_to_state s)) k) as H. cbn [objs] in H. rewrite H.
    destruct (decide (j = k)) as [->|Hne].
    + rewrite list_lookup_alter_eq. destruct (objs s !! k); [|done]. cbn. rewrite (decide_True (P := k ∈ k :: pending)) by (by left). by destruct (decide (k ∈ pending)).
    + rewrite list_lookup_alter_ne by done. destruct (objs s !! k); [|done]. cbn. f_equal. apply decide_ext. rewrite elem_of_cons. split; [by right|]. by intros [->|?].
Qed.

Lemma notify_inv s pending tr : inv s pending tr -> inv (notify s pending) [] tr.
Proof.
  intros [I1 I2 I3 I4 I5]. split.
  - intros rid k Hk. destruct (I1 rid k Hk) as (st & Hst & Hr). rewrite notify_lookup, Hst. cbn. eexists. split; [done|]. by destruct (decide _).
  - intros k st. rewrite notify_lookup. destruct (objs s !! k) as [st0|] eqn:Hst; [|done]. intros [= <-]. specialize (I2 k st0 Hst).
    rewrite (decide_False (P := k ∈ [])) by apply not_elem_of_nil. destruct (decide (k ∈ pending)); [|done]. by rewrite bool_decide_eq_true_2.
  - intros k st. rewrite notify_lookup. destruct (objs s !! k) as [st0|] eqn:Hst; [|done]. intros [= <-]. specialize (I3 k st0 Hst). by destruct (decide _).
  - intros k st. rewrite notify_lookup. destruct (objs s !! k) as [st0|] eqn:Hst; [|done]. intros [= <-] Hf. destruct (I4 k st0 Hst Hf) as [H1 H2].
    destruct (decide _); [|done]. split; [by apply sound_event|done].
  - intros k Hk. apply I5. etrans; [|exact Hk]. unfold notify. cbn. clear. revert s. induction pending as [|j p IH]; intros s; cbn; [done|].
    specialize (IH (Manager (alter (fun st => set_queue st (out_list st) true) j (objs s)) (rid_to_state s))). cbn in IH. by rewrite length_alter in IH.
Qed.

(** The state after an output is in its list. *)
Definition queued (st : req_state) (c : option chunk) : req_state :=
  match c with Some c => set_queue st (out_list st ++ [c]) (event st) | None => st end.

Lemma receive_chunk_text st m st' c : is_Some (o_text m) -> receive st m = (st', Some c) -> incremental st = true -> exists t, c_text c = Text t.
Proof. intros [t Ht] Hr Hi. destruct (receive_parts _ _ _ _ _ Ht Hr) as (_ & _ & Hc). rewrite Hi in Hc. injection Hc as ->. by exists t. Qed.

Lemma take_inv s pending tr m k st st' c :
  inv s pending tr -> rid_to_state s !! o_rid m = Some k -> objs s !! k = Some st -> receive st m = (st', c) -> is_Some (o_text m) ->
  inv (Manager (<[k := queued st' c]> (objs s)) (if finished st' then delete (o_rid m) (rid_to_state s) else rid_to_state s))
    (match c with Some _ => if bool_decide (k ∈ pending) then pending else pending ++ [k] | None => pending end) (tr ++ [Took k m]).
Proof.
  intros [I1 I2 I3 I4 I5] Href Hst Hr Ht. destruct (receive_frame _ _ _ _ Hr) as (F1 & F2 & F3 & F4 & F5 & F6). pose proof (lookup_lt_Some _ _ _ Hst) as Hlt.
  assert (Hrid : st_rid st = o_rid m) by (destruct (I1 _ _ Href) as (x & Hx & <-); congruence).
  assert (Hrefs : forall r j, (if finished st' then delete (o_rid m) (rid_to_state s) else rid_to_state s) !! r = Some j -> rid_to_state s !! r = Some j).
  { intros r j. destruct (finished st'); [|done]. by intros [_ ?]%lookup_delete_Some. }
  assert (Hq : st_rid (queued st' c) = st_rid st /\ finished (queued st' c) = ends m /\ incremental (queued st' c) = incremental st) by (unfold Tok.incremental; destruct c; cbn; by rewrite ?F1, ?F2, ?F6).
  destruct Hq as (Q1 & Q2 & Q3). split; cbn [objs rid_to_state].
  - intros r j Hj. apply Hrefs in Hj. destruct (I1 r j Hj) as (x & Hx & Hrx). destruct (decide (j = k)) as [->|Hne].
    + exists (queued st' c). rewrite list_lookup_insert_eq by done. split; [done|]. rewrite Q1. congruence.
    + exists x. by rewrite list_lookup_insert_ne.
  - intros j x Hx. destruct (decide (j = k)) as [->|Hne].
    + rewrite list_lookup_insert_eq in Hx by done. injection Hx as <-. specialize (I2 k st Hst). destruct c as [c|]; cbn.
      * destruct (bool_decide (k ∈ pending)) eqn:Hb; [apply bool_decide_eq_true in Hb; rewrite decide_True by done|rewrite decide_True by (apply elem_of_app; right; by left)].
        -- intros [_ Hc]%app_nil. done.
        -- intros [_ Hc]%app_nil. done.
      * by rewrite F3, F4.
    + rewrite list_lookup_insert_ne in Hx by done. specialize (I2 j x Hx). destruct c; [|done]. destruct (bool_decide (k ∈ pending)); [done|].
      assert (Hiff : j ∈ pending ++ [k] <-> j ∈ pending) by (rewrite elem_of_app, list_elem_of_singleton; naive_solver).
      by destruct (decide (j ∈ pending ++ [k])), (decide (j ∈ pending)); try tauto.
  - intros j x Hx Hi. destruct (decide (j = k)) as [->|Hne]; [|rewrite list_lookup_insert_ne in Hx by done; by apply (I3 j)].
    rewrite list_lookup_insert_eq in Hx by done. injection Hx as <-. rewrite Q3 in Hi. specialize (I3 k st Hst Hi). destruct c as [c|]; cbn; rewrite F3; [|done].
    apply Forall_app. split; [done|]. constructor; [|done]. by apply (receive_chunk_text st m st').
  - intros j x Hx Hf. pose proof (fine_app _ _ _ Hf) as Hf0. destruct Hf as [_ Hn]. rewrite takes_app, takes_one in Hn. rewrite takes_app, gives_app, takes_one, app_nil_r.
    destruct (decide (k = j)) as [<-|Hne].
    + rewrite list_lookup_insert_eq in Hx by done. injection Hx as <-. destruct (I4 k st Hst Hf0) as [Hs Hlive]. apply Forall_app in Hn as [_ Hn]. rewrite Forall_singleton in Hn.
      split; [apply (receive_sound st); try done; apply Hlive; by rewrite Hrid|]. rewrite Q1, Q2, Hrid, F6. destruct (ends m); [|done]. by rewrite lookup_delete_eq.
    + rewrite list_lookup_insert_ne in Hx by done. rewrite app_nil_r in *. destruct (I4 j x Hx Hf0) as [Hs Hlive]. split; [done|]. intros Hj. apply Hlive. by apply Hrefs.
  - intros j Hj. rewrite length_insert in Hj. rewrite takes_app, gives_app, takes_one, decide_False by lia. destruct (I5 j Hj) as [-> ->]. done.
Qed.

Lemma batch_inv ms : forall s pending tr s' rest taken,
  inv s pending tr -> handle_batch_output s pending ms = (s', rest, taken) -> Forall has_text (uncurry Took <$> taken) -> inv s' [] (tr ++ (uncurry Took <$> taken)).
Proof.
  induction ms as [|m ms IH]; intros s pending tr s' rest taken Hinv; cbn [Tok.handle_batch_output].
  { intros [= <- <- <-] _. cbn. rewrite app_nil_r. by apply notify_inv. }
  destruct (rid_to_state s !! o_rid m) as [k|] eqn:Hk; [|by apply IH]. destruct (objs s !! k) as [st|] eqn:Hst; [|by apply IH].
  destruct (receive st m) as [st' c] eqn:Hr. pose proof (fun Ht => take_inv s pending tr m k st st' c Hinv Hk Hst Hr Ht) as Hinv'. destruct c as [c|]; cbn [queued] in Hinv'.
  - set (s1 := Manager _ _) in *. set (p1 := if bool_decide _ then pending else _) in *. destruct (batch_notify_size <=? length p1)%nat.
    + intros [= <- <- <-] Ht. rewrite fmap_cons, Forall_cons in Ht. cbn. apply notify_inv, Hinv'. apply Ht.
    + destruct (handle_batch_output s1 p1 ms) as [[s2 rest2] taken2] eqn:Hrec. intros [= <- <- <-] Ht. rewrite fmap_cons, Forall_cons in Ht. destruct Ht as [Ht1 Ht2].
      rewrite fmap_cons, cons_middle, app_assoc. by eapply IH; [apply Hinv'| |].
  - set (s1 := Manager _ _) in *. destruct (handle_batch_output s1 pending ms) as [[s2 rest2] taken2] eqn:Hrec. intros [= <- <- <-] Ht.
    rewrite fmap_cons, Forall_cons in Ht. destruct Ht as [Ht1 Ht2]. rewrite fmap_cons, cons_middle, app_assoc. by eapply IH; [apply Hinv'| |].
Qed.

(** ** Every step *)

Lemma take_frame st st' r : take_output st = (st', r) ->
  st_rid st' = st_rid st /\ is_stream st' = is_stream st /\ out_list st' = [] /\ event st' = false /\ finished st' = finished st.
Proof.
  unfold Tok.take_output. destruct (_ ≫= _) as [x|]; [|by intros [= <- _]].
  destruct (c_text x); [by intros [= <- _]| |by intros [= <- _]]. destruct (_ && _); by intros [= <- _].
Qed.

Lemma wait_frame s k st s' r : objs s !! k = Some st -> wait_one_response s k = (s', r) ->
  exists st', objs s' = <[k := st']> (objs s) /\ st_rid st' = st_rid st /\ is_stream st' = is_stream st /\ out_list st' = [] /\ event st' = false /\
    (rid_to_state s' = rid_to_state s \/ rid_to_state s' = delete (st_rid st) (rid_to_state s)).
Proof.
  intros Hk. unfold Tok.wait_one_response. rewrite Hk. destruct (take_output st) as [st1 r1] eqn:Ht.
  destruct (take_frame _ _ _ Ht) as (T1 & T2 & T3 & T4 & T5). destruct r1 as [c|e]; [|intros [= <- _]; exists (close st1); cbn; eauto 10].
  destruct (finished st1).
  - unfold handle_abort_finish_reason. intros H. exists (close st1). rewrite <- T1.
    destruct (c_finish c) as [[|[code|]]|]; [|destruct (code =? 400); [|destruct (_ || _)]| |]; injection H as <- _; cbn; eauto 10.
  - intros [= <- _]. exists st1. cbn. eauto 10.
Qed.

Lemma text_join l : Forall (fun c => exists t, c_text c = Text t) l -> exists t, join l = Ok t.
Proof. induction 1 as [|c l [t Ht] _ [ts IH]]; [by eexists|]. cbn. unfold text_key. rewrite Ht. step_ok. unfold join in IH |- *. rewrite IH. by eexists. Qed.

(** The exceptions of _handle_abort_finish_reason: an abort of a request that
    does not stream, by its status code. *)
Definition abort_error (f : option reason) : option pyexn :=
  match f with
  | Some (ABORT (Some code)) =>
      if code =? 400 then Some ValueError else if (code =? 503) || (code =? 500) then Some RuntimeError else None
  | _ => None
  end.

Lemma take_finish st st' c lst : take_output st = (st', Ok c) -> last (out_list st) = Some lst -> c_finish c = c_finish lst.
Proof.
  unfold Tok.take_output. intros H Hl. rewrite Hl in H. cbn [of_option] in H. revert H. step_ok.
  destruct (if _ && _ then _ else _) as [y|] eqn:Hy; [|done].
  assert (Hf : c_finish y = c_finish lst).
  { destruct (_ && _); [|by injection Hy as ->]. unfold coalesce in Hy. apply res_bind_Ok in Hy as (t & _ & [= <-]). done. }
  destruct (c_text y); [by intros [= _ <-]| |by intros [= _ <-]]. destruct (is_stream _ && _); cbn [get_text]; by intros [= _ <-].
Qed.

(** A round raises exactly on such an abort. *)
Lemma wait_runs s k st lst : objs s !! k = Some st -> last (out_list st) = Some lst -> (incremental st = true -> Forall (fun c => exists t, c_text c = Text t) (out_list st)) ->
  match snd (wait_one_response s k), (if finished st && negb (is_stream st) then abort_error (c_finish lst) else None) with
  | Raise e, Some e' => e = e'
  | Ok _, None => True
  | _, _ => False
  end.
Proof.
  intros Hk Hlst Htx. assert (Hne : out_list st <> []) by (by intros E; rewrite E in Hlst). unfold Tok.wait_one_response. rewrite Hk.
  assert (Ht : exists st' c, take_output st = (st', Ok c)).
  { unfold Tok.take_output. change (incremental (set_queue st [] false)) with (incremental st). rewrite Hlst.
    cbn [of_option]. step_ok. assert (Hc : exists c, (if incremental st && (1 <? length (out_list st))%nat then coalesce (set_queue st [] false) (out_list st) lst else Ok lst) = Ok c).
    { destruct (incremental st); [|by eexists]. cbn [andb]. destruct (1 <? length (out_list st))%nat; [|by eexists]. destruct (text_join _ (Htx eq_refl)) as [t Hj]. unfold coalesce. rewrite Hj.
      destruct (c_text lst); do 2 step_ok; by eexists. }
    destruct Hc as [c ->]. destruct (c_text c); try by eexists _, _. destruct (_ && _); by eexists _, _. }
  destruct Ht as (st' & c & Ht). rewrite Ht. destruct (take_frame _ _ _ Ht) as (_ & T2 & _ & _ & T5).
  rewrite <- (take_finish _ _ _ _ Ht Hlst), <- T2, <- T5. destruct (finished st'); [|done]. unfold handle_abort_finish_reason, abort_error.
  destruct (c_finish c) as [[|[code|]]|]; [|destruct (code =? 400); [|destruct (_ || _)]| |]; by destruct (is_stream st').
Qed.

Lemma wake_inv s tr k st s' w :
  inv s [] tr -> objs s !! k = Some st -> event st = true -> closed st = false -> wait_one_response s k = (s', w) -> inv s' [] (tr ++ (Gave k <$> seen w)).
Proof.
  intros [I1 I2 I3 I4 I5] Hk Hev Hopen Hw. pose proof (lookup_lt_Some _ _ _ Hk) as Hlt.
  destruct (wait_frame _ _ _ _ _ Hk Hw) as (st' & W1 & W2 & W3 & W4 & W5 & W6).
  assert (Hrefs : forall r j, rid_to_state s' !! r = Some j -> rid_to_state s !! r = Some j) by (intros r j; destruct W6 as [-> | ->]; [done|]; by intros [_ ?]%lookup_delete_Some).
  assert (Hne : out_list st <> []).
  { specialize (I2 k st Hk). rewrite decide_False in I2 by apply not_elem_of_nil. rewrite Hev in I2. symmetry in I2. by apply bool_decide_eq_true in I2. }
  split; rewrite ?W1.
  - intros r j Hj. destruct (I1 r j (Hrefs r j Hj)) as (x & Hx & Hr). destruct (decide (j = k)) as [->|Hjk].
    + exists st'. rewrite list_lookup_insert_eq by done. split; [done|]. congruence.
    + exists x. by rewrite list_lookup_insert_ne.
  - intros j x Hx. rewrite decide_False by apply not_elem_of_nil. destruct (decide (j = k)) as [->|Hjk].
    + rewrite list_lookup_insert_eq in Hx by done. injection Hx as <-. by rewrite W4, W5.
    + rewrite list_lookup_insert_ne in Hx by done. specialize (I2 j x Hx). by rewrite decide_False in I2 by apply not_elem_of_nil.
  - intros j x Hx Hi. destruct (decide (j = k)) as [->|Hjk]; [rewrite list_lookup_insert_eq in Hx by done; injection Hx as <-; by rewrite W4|].
    rewrite list_lookup_insert_ne in Hx by done. by apply (I3 j).
  - intros j x Hx Hf. pose proof (fine_app _ _ _ Hf) as Hf0. rewrite takes_app, gives_app, takes_gave, gives_gave, app_nil_r. destruct (decide (k = j)) as [<-|Hjk].
    + rewrite list_lookup_insert_eq in Hx by done. injection Hx as <-. destruct (I4 k st Hk Hf0) as [Hs Hlive].
      destruct (wait_sound s k st _ _ Hk Hs Hne Hopen) as (st2 & t & i & f & Hw2 & Hs2 & R1 & R2 & R3 & R4). rewrite Hw in Hw2. injection Hw2 as -> ->.
      assert (st2 = st') as -> by (apply (f_equal (lookup k)) in W1; cbn in W1; rewrite !list_lookup_insert_eq in W1 by done; congruence).
      split; [exact Hs2|]. cbn. rewrite W2, R4. exact Hlive.
    + rewrite list_lookup_insert_ne in Hx by done. rewrite app_nil_r. destruct (I4 j x Hx Hf0) as [Hs Hlive]. split; [done|]. intros Hj. apply Hlive. by apply Hrefs.
  - intros j Hj. rewrite length_insert in Hj. rewrite takes_app, gives_app, takes_gave, gives_gave, decide_False by lia. destruct (I5 j Hj) as [-> ->]. done.
Qed.

Lemma arrive_keeps s tr rid stream s' : inv s [] tr -> init_req_state rid stream s = Ok s' -> inv s' [] tr.
Proof.
  intros [I1 I2 I3 I4 I5]. unfold init_req_state. destruct (rid_to_state s !! rid) eqn:Hr; [done|]. intros [= <-].
  assert (Hl : forall k st, (objs s ++ [new_state rid stream]) !! k = Some st -> objs s !! k = Some st \/ (k = length (objs s) /\ st = new_state rid stream)).
  { intros k st Hk. apply lookup_app_Some in Hk as [Hk|[Hge Hk]]; [by left|]. right. apply list_lookup_singleton_Some in Hk as [Hz <-]. split; [lia|done]. }
  split; cbn [objs rid_to_state].
  - intros r k Hk. destruct (decide (r = rid)) as [->|Hne].
    + rewrite lookup_insert_eq in Hk. injection Hk as <-. exists (new_state rid stream). rewrite lookup_app_r by done. by rewrite Nat.sub_diag.
    + rewrite lookup_insert_ne in Hk by done. destruct (I1 r k Hk) as (st & Hst & Hrid). exists st. split; [|done]. by apply lookup_app_l_Some.
  - intros k st [Hk|[-> ->]]%Hl; [by apply I2|]. by rewrite decide_False by apply not_elem_of_nil.
  - intros k st [Hk|[-> ->]]%Hl; [by apply (I3 k)|done].
  - intros k st [Hk|[-> ->]]%Hl Hf.
    + destruct (I4 k st Hk Hf) as [Hs Hlive]. split; [done|]. intros Hm. apply Hlive. apply lookup_insert_Some in Hm as [[_ Hm]|[_ ?]]; [|done].
      apply lookup_lt_Some in Hk. lia.
    + destruct (I5 (length (objs s)) ltac:(lia)) as [-> ->]. split; [apply new_sound|done].
  - intros k Hk. apply I5. rewrite length_app in Hk. lia.
Qed.

Lemma abort_inv s tr rid r s' k : inv s [] tr -> handle_abort_req s rid r = Ok (s', k) -> inv s' [] (tr ++ [Aborted k]).
Proof.
  intros [I1 I2 I3 I4 I5]. unfold handle_abort_req. destruct (rid_to_state s !! rid) as [k0|] eqn:Href; [|done]. cbn [of_option]. step_ok.
  destruct (objs s !! k0) as [st|] eqn:Hk; [|done]. cbn [of_option get_text]. step_ok. set (st' := set_queue _ _ _). intros [= <- <-]. pose proof (lookup_lt_Some _ _ _ Hk) as Hlt.
  split; cbn [objs put rid_to_state].
  - intros r' j Hj. destruct (I1 r' j Hj) as (x & Hx & Hr). destruct (decide (j = k0)) as [->|Hjk].
    + exists st'. rewrite list_lookup_insert_eq by done. split; [done|]. assert (x = st) as -> by congruence. exact Hr.
    + exists x. by rewrite list_lookup_insert_ne.
  - intros j x Hx. rewrite decide_False by apply not_elem_of_nil. destruct (decide (j = k0)) as [->|Hjk].
    + rewrite list_lookup_insert_eq in Hx by done. injection Hx as <-. symmetry. apply bool_decide_eq_true. unfold st'. cbn. by intros [_ ?]%app_nil.
    + rewrite list_lookup_insert_ne in Hx by done. specialize (I2 j x Hx). by rewrite decide_False in I2 by apply not_elem_of_nil.
  - intros j x Hx Hi. destruct (decide (j = k0)) as [->|Hjk]; [|rewrite list_lookup_insert_ne in Hx by done; by apply (I3 j)].
    rewrite list_lookup_insert_eq in Hx by done. injection Hx as <-. unfold st'. cbn. apply Forall_app. split; [by apply (I3 k0)|]. constructor; [by eexists|done].
  - intros j x Hx Hf. pose proof (fine_app _ _ _ Hf) as Hf0. destruct (decide (j = k0)) as [->|Hjk].
    + destruct Hf as [Hf _]. destruct Hf. apply elem_of_app. right. by left.
    + rewrite list_lookup_insert_ne in Hx by done. rewrite takes_app, gives_app. cbn. rewrite !app_nil_r. by apply I4.
  - intros j Hj. rewrite length_insert in Hj. rewrite takes_app, gives_app. cbn. rewrite !app_nil_r. by apply I5.
Qed.

Lemma reachable_keeps s tr : reachable s tr -> Forall has_text tr -> inv (mgr s) [] tr.
Proof.
  induction 1 as [|s tr o s' _ IH Hstep]; [intros _; apply start_keeps|]. intros [Ht Ho]%Forall_app. specialize (IH Ht).
  inversion Hstep; subst; cbn in *; rewrite ?app_nil_r.
  - by eapply arrive_keeps.
  - by eapply batch_inv.
  - by eapply batch_inv.
  - by eapply abort_inv.
  - by eapply wake_inv.
Qed.

(** C13: no lost and no false wakeups.  In every interleaving of the handle loop,
    arrivals, aborts and the generators of the requests, with outputs that carry
    text and clients that stay connected, whenever the loop waits the event of a
    request is set exactly when there is output for it; a generator that is woken
    finds output, and raises exactly if the request does not stream and its last
    output is an abort with status 400 (ValueError), 500 or 503 (HTTPException);
    and the event of a request that has its last output, and whose client has
    not, is set. *)
Theorem wakeups_exact s tr k st :
  reachable s tr -> Forall has_text tr -> objs (mgr s) !! k = Some st ->
  (event st = true <-> out_list st <> []) /\
  (event st = true -> exists lst, last (out_list st) = Some lst /\
    match snd (wait_one_response (mgr s) k), (if finished st && negb (is_stream st) then abort_error (c_finish lst) else None) with
    | Raise e, Some e' => e = e'
    | Ok _, None => True
    | _, _ => False
    end) /\
  (fine k tr -> finished st = true -> closed st = false -> event st = true).
Proof.
  intros Hr Ht Hk. destruct (reachable_keeps s tr Hr Ht) as [_ I2 I3 I4 _]. specialize (I2 k st Hk). rewrite decide_False in I2 by apply not_elem_of_nil.
  assert (Hev : event st = true <-> out_list st <> []) by (rewrite I2; apply bool_decide_eq_true). split; [done|]. split.
  - intros He. apply Hev in He. destruct (last (out_list st)) as [lst|] eqn:Hl; [|by apply last_None in Hl].
    exists lst. split; [done|]. apply (wait_runs _ _ st); [done..|]. by apply (I3 k).
  - intros Hf Hfin Hopen. apply Hev. by apply (so_owed _ _ _ (proj1 (I4 k st Hk Hf))).
Qed.


(** ** A generator that starts late *)

(** The handle loop only removes ids. *)
Lemma batch_removes ms : forall s pending s' rest taken rid,
  handle_batch_output s pending ms = (s', rest, taken) -> rid_to_state s !! rid = None -> rid_to_state s' !! rid = None.
Proof.
  induction ms as [|m ms IH]; intros s pending s' rest taken rid; cbn [Tok.handle_batch_output]; [by intros [= <- _ _]|].
  destruct (rid_to_state s !! o_rid m) as [k|]; [|by apply IH]. destruct (objs s !! k) as [st|]; [|by apply IH].
  destruct (receive st m) as [st' [c|]]; set (refs := if finished st' then _ else _); intros H Hn.
  - assert (Hr : refs !! rid = None) by (unfold refs; destruct (finished st'); [by apply lookup_delete_None; right|done]).
    destruct (batch_notify_size <=? _)%nat; [by injection H as <- _ _|].
    destruct (handle_batch_output _ _ ms) as [[s2 rest2] taken2] eqn:Hrec. injection H as <- _ _. by eapply IH.
  - assert (Hr : refs !! rid = None) by (unfold refs; destruct (finished st'); [by apply lookup_delete_None; right|done]).
    destruct (handle_batch_output _ _ ms) as [[s2 rest2] taken2] eqn:Hrec. injection H as <- _ _. by eapply IH.
Qed.

(** A generator that runs for the first time after the last output of its
    request was handled raises KeyError: the output is in the state, but the id
    is gone.  The generators of a batch of prompts are started when the last
    prompt has been tokenized and sent. *)
Theorem late_generator_raises s pending ms s' rest taken k m :
  handle_batch_output s pending ms = (s', rest, taken) -> (k, m) ∈ taken -> o_finish m <> None ->
  wait_begin s' (o_rid m) = Raise KeyError.
Proof.
  intros H Hin Hf. unfold wait_begin. enough (Hn : rid_to_state s' !! o_rid m = None) by (by rewrite Hn).
  revert s pending s' rest taken H Hin. induction ms as [|x ms IH]; intros s pending s' rest taken; cbn [Tok.handle_batch_output].
  { intros [= _ _ <-] Hin. by apply not_elem_of_nil in Hin. }
  destruct (rid_to_state s !! o_rid x) as [j|]; [|by apply IH]. destruct (objs s !! j) as [st|]; [|by apply IH].
  destruct (receive st x) as [st' c] eqn:Hr. destruct (receive_frame _ _ _ _ Hr) as (_ & _ & _ & _ & _ & F6).
  assert (Hhead : x = m -> (if finished st' then delete (o_rid x) (rid_to_state s) else rid_to_state s) !! o_rid m = None).
  { intros ->. assert (Hfin : finished st' = true) by (rewrite F6; by apply bool_decide_eq_true). rewrite Hfin. apply lookup_delete_eq. }
  destruct c as [c|].
  - destruct (batch_notify_size <=? _)%nat.
    + intros [= <- _ <-] [= _ He]%list_elem_of_singleton. by apply Hhead.
    + destruct (handle_batch_output _ _ ms) as [[s2 rest2] taken2] eqn:Hrec.
      intros [= <- _ <-] [[= _ He]|Hin]%elem_of_cons; [|by eapply IH]. eapply batch_removes; [exact Hrec|]. by apply Hhead.
  - destruct (handle_batch_output _ _ ms) as [[s2 rest2] taken2] eqn:Hrec.
    intros [= <- _ <-] [[= _ He]|Hin]%elem_of_cons; [|by eapply IH]. eapply batch_removes; [exact Hrec|]. by apply Hhead.
Qed.

(** ** After an abort *)

(** C38: an aborted request id stays taken.  A request that is aborted while it
    waits in the scheduler's queue gets its answer and its generator ends, but
    unless the status of the abort is 500 or 503 its id is not removed: from
    then on a request with this id is turned away as a duplicate. *)
Theorem aborted_rid_stays s rid r s1 k s2 a stream :
  handle_abort_req s rid r = Ok (s1, k) -> wait_one_response s1 k = (s2, a) ->
  (forall code, r = ABORT (Some code) -> code <> 500 /\ code <> 503) ->
  rid_to_state s2 !! rid = Some k /\ (exists st, objs s2 !! k = Some st /\ closed st = true) /\ init_req_state rid stream s2 = Raise ValueError.
Proof.
  intros Ha Hw Hcode. unfold handle_abort_req in Ha. destruct (rid_to_state s !! rid) as [k0|] eqn:Href; [|done]. cbn [of_option] in Ha. apply res_bind_Ok in Ha as (x & [= <-] & Ha).
  destruct (objs s !! k0) as [st|] eqn:Hk; [|done]. cbn [of_option get_text] in Ha. apply res_bind_Ok in Ha as (x & [= <-] & Ha). set (st' := set_queue _ _ _) in Ha. injection Ha as <- <-.
  pose proof (lookup_lt_Some _ _ _ Hk) as Hlt. unfold Tok.wait_one_response in Hw. cbn [put objs rid_to_state] in Hw. rewrite list_lookup_insert_eq in Hw by done.
  destruct (take_output st') as [st2 r2] eqn:Ht. destruct (take_frame _ _ _ Ht) as (T1 & T2 & T3 & T4 & T5).
  assert (Hl : last (out_list st') = Some (Chunk (Text (total st)) (if is_stream st then Own (match last (st_output_ids st) with Some t => [t] | None => [] end) else Alias) (Some r)))
    by (unfold st'; cbn; by rewrite last_snoc).
  assert (Hres : s2 = put (put s k0 st') k0 (close st2)).
  { destruct r2 as [c|e]; [|by injection Hw as <- _]. pose proof (take_finish _ _ _ _ Ht Hl) as Hcf. cbn in Hcf. rewrite T5 in Hw. change (finished st') with true in Hw.
    unfold handle_abort_finish_reason in Hw. rewrite Hcf in Hw. cbn beta iota zeta in Hw.
    destruct r as [|[code|]]; cbn beta iota in Hw; [by injection Hw as <- _| |by injection Hw as <- _]. destruct (Hcode code eq_refl) as [H1 H2]. destruct (code =? 400); [by injection Hw as <- _|].
    rewrite (proj2 (Z.eqb_neq _ _) H1), (proj2 (Z.eqb_neq _ _) H2) in Hw. by injection Hw as <- _. }
  subst s2. cbn [put rid_to_state objs]. split; [done|]. split; [|unfold init_req_state; cbn; by rewrite Href].
  exists (close st2). rewrite list_lookup_insert_eq by (by rewrite length_insert). done.
Qed.
End responses.
