(* ===== verification/ResponsesExamples.v ===== *)
(** * Runs of the tokenizer manager

    The steps of the handle loop and the generators as a function, and runs of
    two requests: the theorems on responses applied, and what an abort sends. *)

From S2P Require Import Prelude DllmReq Responses ResponsesProofs.
Import Tok.
#[local] Open Scope Z_scope.

Inductive action := Arrive (rid : Z) (stream : bool) | Message (ms : list output) | Resume | AbortMessage (rid : Z) (r : reason) | Wake (k : nat).

Section run.
Context (inc : bool) (batch_notify_size : nat).

Definition act (x : action) (s : system) : option (system * list observation) :=
  match x with
  | Arrive rid stream => match init_req_state rid stream (mgr s) with Ok m => Some (System m (rest s), []) | Raise _ => None end
  | Message ms =>
      match rest s with
      | [] => let '(m, ms, taken) := handle_batch_output inc batch_notify_size (mgr s) [] ms in Some (System m ms, uncurry Took <$> taken)
      | _ => None
      end
  | Resume => let '(m, ms, taken) := handle_batch_output inc batch_notify_size (mgr s) [] (rest s) in Some (System m ms, uncurry Took <$> taken)
  | AbortMessage rid r =>
      match rest s with
      | [] => match handle_abort_req (mgr s) rid r with Ok (m, k) => Some (System m [], [Aborted k]) | Raise _ => None end
      | _ => None
      end
  | Wake k =>
      match objs (mgr s) !! k with
      | Some st =>
          if event st && negb (closed st) then
            let '(m, r) := wait_one_response inc (mgr s) k in Some (System m (rest s), Gave k <$> seen r)
          else None
      | None => None
      end
  end.

Fixpoint acts (l : list action) (s : system) (tr : list observation) : option (system * list observation) :=
  match l with
  | [] => Some (s, tr)
  | x :: l => match act x s with Some (s, o) => acts l s (tr ++ o) | None => None end
  end.

Lemma act_step x s s' o : act x s = Some (s', o) -> step inc batch_notify_size s o s'.
Proof.
  destruct s as [m ms]. destruct x as [rid stream|ms'| |rid r|k]; cbn.
  - destruct (init_req_state rid stream m) eqn:H; [|done]. intros [= <- <-]. by apply (arrive _ _ m ms rid stream).
  - destruct ms; [|done]. destruct (handle_batch_output _ _ m [] ms') as [[m' rest'] taken] eqn:H. intros [= <- <-]. by apply (receive_batch _ _ m ms').
  - destruct (handle_batch_output _ _ m [] ms) as [[m' rest'] taken] eqn:H. intros [= <- <-]. by apply (resume_batch _ _ m ms).
  - destruct ms; [|done]. destruct (handle_abort_req m rid r) as [[m' k]|] eqn:H; [|done]. intros [= <- <-]. by apply (receive_abort _ _ m rid r).
  - destruct (objs m !! k) as [st|] eqn:Hk; [|done]. destruct (event st) eqn:He; [|done]. destruct (closed st) eqn:Hc; [done|]. cbn [negb andb].
    destruct (wait_one_response inc m k) as [m' r] eqn:H. intros [= <- <-]. by apply (wake _ _ m ms k st).
Qed.

Lemma acts_reachable l : forall s tr s' tr', reachable inc batch_notify_size s tr -> acts l s tr = Some (s', tr') -> reachable inc batch_notify_size s' tr'.
Proof.
  induction l as [|x l IH]; intros s tr s' tr' Hr; cbn; [by intros [= <- <-]|]. destruct (act x s) as [[s1 o]|] eqn:H; [|done].
  apply IH. eapply reach_step; [done|]. by apply (act_step x).
Qed.
End run.

(** Two requests, the first of which streams; two outputs of the first are
    waiting when its generator is woken. *)
Definition two_requests : list action :=
  [Arrive 1 true; Arrive 2 false;
   Message [Output 1 (Some [72]) [10] None; Output 2 (Some [65]) [20] None]; Resume;
   Message [Output 1 (Some [105]) [11] None]; Resume; Wake 0;
   Message [Output 2 (Some [66]) [21] (Some NORMAL); Output 1 (Some [33]) [12] (Some NORMAL)]; Resume; Wake 1; Wake 0].

Definition outcome (inc : bool) (notify : nat) (l : list action) : system * list observation :=
  match acts inc notify l start [] with Some x => x | None => (start, []) end.

(** The run before the first generator is woken, and the whole run. *)
Definition midway : system * list observation := Eval vm_compute in outcome true 1 (take 6 two_requests).

Lemma midway_reachable : reachable true 1 (fst midway) (snd midway).
Proof. apply (acts_reachable true 1 (take 6 two_requests) start []); [constructor|vm_compute; reflexivity]. Qed.



Lemma wakeups_exact_witness :
  exists st, objs (mgr (fst midway)) !! 0%nat = Some st /\ event st = true /\ length (out_list st) = 2%nat /\
    exists a, snd (wait_one_response true (mgr (fst midway)) 0) = Ok a.
Proof.
  eexists. split; [reflexivity|]. split; [reflexivity|]. split; [reflexivity|].
  edestruct (proj1 (proj2 (wakeups_exact true 1 (fst midway) (snd midway) 0 _ midway_reachable
    ltac:(repeat constructor; by eexists) eq_refl)) eq_refl) as (lst & _ & Hw).
  destruct (snd (wait_one_response true (mgr (fst midway)) 0)) as [a|e]; [by exists a|destruct Hw].
Defined.


(** A request that is aborted while it waits. *)
Definition before_abort : manager := mgr (fst (outcome false 1 [Arrive 1 true])).

Lemma aborted_rid_stays_witness :
  exists s1 s2 a, handle_abort_req before_abort 1 (ABORT None) = Ok (s1, 0%nat) /\ wait_one_response false s1 0 = (s2, a) /\
    a = Ok [Yield (Some []) [] (Some (ABORT None))] /\ init_req_state 1 true s2 = Raise ValueError.
Proof.
  eexists _, _, _. split; [vm_compute; reflexivity|]. split; [vm_compute; reflexivity|]. split; [reflexivity|].
  refine (proj2 (proj2 (aborted_rid_stays false before_abort 1 (ABORT None) _ 0 _ _ true _ _ _))).
  - vm_compute. reflexivity.
  - vm_compute. reflexivity.
  - discriminate.
Defined.

(** With incremental streaming an abort sends the whole text again, and the last
    token, although both have been sent. *)
Lemma aborted_stream_repeats :
  gives 0 (snd (outcome true 1 [Arrive 1 true; Message [Output 1 (Some [72; 105]) [10; 11] None]; Wake 0; Resume; AbortMessage 1 (ABORT None); Wake 0]))
  = [Yield (Some [72; 105]) [10; 11] None; Yield (Some [72; 105]) [11] (Some (ABORT None))].
Proof. vm_compute. reflexivity. Qed.

(** The id of a request that finishes can be used again. *)
Lemma finished_rid_free :
  acts false 1 [Arrive 1 false; Message [Output 1 (Some [72]) [10] (Some NORMAL)]; Resume; Wake 0; Arrive 1 false] start [] <> None.
Proof. vm_compute. discriminate. Qed.

(** One message with the only output of request 1, whose generator has not run. *)
Lemma late_generator_raises_witness :
  wait_begin (fst (fst (handle_batch_output false 1 before_abort [] [Output 1 (Some [72]) [10] (Some NORMAL)]))) 1 = Raise KeyError.
Proof.
  refine (late_generator_raises false 1 before_abort [] [Output 1 (Some [72]) [10] (Some NORMAL)] _ _ _ 0
    (Output 1 (Some [72]) [10] (Some NORMAL)) _ _ _); [vm_compute; reflexivity|by left|discriminate].
Defined.

(** Without a tokenizer in the server, outputs have no text and the answer to an
    abort has: coalescing them raises. *)
Lemma abort_without_tokenizer_raises :
  gives 0 (snd (outcome true 1 [Arrive 1 true; Message [Output 1 None [10] None]; Resume; AbortMessage 1 (ABORT None); Wake 0])) = [Error KeyError].
Proof. vm_compute. reflexivity. Qed.
