(* ===== verification/SamplingParams.v ===== *)
(** * Sampling parameters

    SamplingParams of sampling/sampling_params.py: the defaults of the
    constructor, [verify], [normalize], and the bound on the length of what a stop
    regex matches.  Numbers that are floats in the code are rationals; the
    parse tree of a regex is that of the Python module sre_parse. *)

From S2P Require Import Prelude DllmReq StopStrings.
From Stdlib Require Import QArith.
Import Stops.
#[local] Open Scope Z_scope.

Module Sampling.

Definition SAMPLING_EPS : Q := 1 # 1000000.
Definition TOP_K_ALL : Z := 2 ^ 30.
Definition MAX_LEN : Z := 2 ^ 30.

(** A string or a list of strings. *)
Inductive one_or_many := One (s : text) | Many (l : list text).

(** Keyword arguments, but for structural_tag, custom_params and sampling_seed,
    which are stored as they come and used elsewhere; None is the Python None, or a missing argument but for
    max_new_tokens, whose default is 128. *)
Record request_params := RequestParams {
  rq_max_new_tokens : option Z;
  rq_stop : option one_or_many;
  rq_stop_token_ids : option (list (option Z));
  rq_stop_regex : option one_or_many;
  rq_temperature : option Q;
  rq_top_p : option Q;
  rq_top_k : option Z;
  rq_min_p : option Q;
  rq_frequency_penalty : option Q;
  rq_presence_penalty : option Q;
  rq_repetition_penalty : option Q;
  rq_min_new_tokens : option Z;
  rq_n : option Z;
  rq_json_schema : option string;
  rq_regex : option string;
  rq_ebnf : option string;
  rq_ignore_eos : option bool;
  rq_skip_special_tokens : option bool;
  rq_spaces_between_special_tokens : option bool;
  rq_no_stop_trim : option bool;
  rq_stream_interval : option Z;
  rq_logit_bias : option (list Z);   (* the keys *)
}.

Record params := Params {
  max_new_tokens : option Z;
  stop_strs : option one_or_many;
  stop_token_ids : option (list Z);   (* a set *)
  stop_regex_strs : option one_or_many;
  temperature : Q;
  top_p : Q;
  top_k : Z;
  min_p : Q;
  frequency_penalty : Q;
  presence_penalty : Q;
  repetition_penalty : Q;
  min_new_tokens : Z;
  n : Z;
  json_schema : option string;
  regex : option string;
  ebnf : option string;
  ignore_eos : bool;
  skip_special_tokens : bool;
  spaces_between_special_tokens : bool;
  no_stop_trim : bool;
  stream_interval : option Z;
  logit_bias : option (list Z);
}.

Definition Qlt_bool (x y : Q) : bool := negb (Qle_bool y x).

(** __init__ *)
Definition init (r : request_params) : params :=
  let stop_ids :=
    match rq_stop_token_ids r with
    | Some (x :: l) => match remove_dups (omap id (x :: l)) with [] => None | ids => Some ids end
    | _ => None
    end in
  let temp := default 1%Q (rq_temperature r) in
  let k := default (-1) (rq_top_k r) in
  let greedy := Qle_bool 0 temp && Qlt_bool temp SAMPLING_EPS in
  let temp := if greedy then 1%Q else temp in
  let k := if greedy then 1 else k in
  let k := if k =? -1 then TOP_K_ALL else k in
  Params (rq_max_new_tokens r) (rq_stop r) stop_ids (rq_stop_regex r) temp (default 1%Q (rq_top_p r)) k (default 0%Q (rq_min_p r))
    (default 0%Q (rq_frequency_penalty r)) (default 0%Q (rq_presence_penalty r)) (default 1%Q (rq_repetition_penalty r)) (default 0 (rq_min_new_tokens r))
    (default 1 (rq_n r)) (rq_json_schema r) (rq_regex r) (rq_ebnf r) (default false (rq_ignore_eos r)) (default true (rq_skip_special_tokens r))
    (default true (rq_spaces_between_special_tokens r)) (default false (rq_no_stop_trim r)) (rq_stream_interval r) (rq_logit_bias r).

Definition require (b : bool) : res unit := if b then Ok tt else Raise ValueError.
Definition within (lo hi x : Q) : bool := Qle_bool lo x && Qle_bool x hi.
Definition given {A} (o : option A) : nat := match o with Some _ => 1 | None => 0 end.

Definition verify (vocab_size : Z) (p : params) : res unit :=
  _ ← require (negb (Qlt_bool (temperature p) 0));
  _ ← require (Qlt_bool 0 (top_p p) && Qle_bool (top_p p) 1);
  _ ← require (within 0 1 (min_p p));
  _ ← require (negb ((top_k p <? 1) || (top_k p =? -1)));
  _ ← require (within (-2) 2 (frequency_penalty p));
  _ ← require (within (-2) 2 (presence_penalty p));
  _ ← require (within 0 2 (repetition_penalty p));
  _ ← require (0 <=? min_new_tokens p);
  _ ← (match max_new_tokens p with
       | Some m => _ ← require (0 <=? m); require (min_new_tokens p <=? m)
       | None => Ok tt
       end);
  _ ← (match logit_bias p with
       | Some keys => require (forallb (fun k => (0 <=? k) && (k <? vocab_size)) keys)
       | None => Ok tt
       end);
  require (given (json_schema p) + given (regex p) + given (ebnf p) <=? 1)%nat.

(** ** Stop regexes *)

(** A token of a parsed pattern; a repetition without a maximum is [None]. *)
Inductive re :=
  | LITERAL (c : Z)
  | IN (set : list Z)
  | ANY
  | SUBPATTERN (p : list re)
  | BRANCH (branches : list (list re))
  | REPEAT (min : nat) (max : option nat) (p : list re)
  | AT
  | OTHER.

(** _max_length_from_subpattern; the maximum of no branches, which the parser
    never makes, is a ValueError, here 0. *)
Fixpoint max_length_token (t : re) : Z :=
  let fix all (p : list re) : Z := match p with [] => 0 | t :: p => max_length_token t + all p end in
  match t with
  | LITERAL _ => 1
  | IN _ => 1
  | ANY => 1
  | SUBPATTERN p => all p
  | BRANCH branches => (fix go (l : list (list re)) : Z := match l with [] => 0 | [p] => all p | p :: l => Z.max (all p) (go l) end) branches
  | REPEAT _ None _ => MAX_LEN
  | REPEAT _ (Some k) p => Z.of_nat k * all p
  | AT => 0
  | OTHER => MAX_LEN
  end.

Fixpoint max_length (p : list re) : Z := match p with [] => 0 | t :: p => max_length_token t + max_length p end.

(** [normalize]: the lists, and the lengths to look back. *)
Definition stop_list (o : option one_or_many) : list text := match o with None => [] | Some (One s) => [s] | Some (Many l) => l end.

Definition max_over {A} (f : A -> Z) (l : list A) : Z := foldl (fun acc x => Z.max acc (f x)) 0 l.

(** [encode] is [tokenizer.encode], None without a tokenizer; [parse] is
    sre_parse.parse. *)
Definition normalize (encode : option (text -> list Z)) (parse : text -> list re) (p : params) : stops :=
  let strs := stop_list (stop_strs p) in
  let regexes := stop_list (stop_regex_strs p) in
  StopConf strs (max_over (fun s => match encode with Some e => len (e s) | None => len s end) strs) regexes (max_over (fun s => max_length (parse s)) regexes).

Lemma max_over_bound {A} (f : A -> Z) l : 0 <= max_over f l /\ forall x, x ∈ l -> f x <= max_over f l.
Proof.
  unfold max_over. assert (Hmax : forall acc, acc <= foldl (fun acc x => Z.max acc (f x)) acc l /\ forall x, x ∈ l -> f x <= foldl (fun acc x => Z.max acc (f x)) acc l).
  { induction l as [|y l IH]; intros acc; [split; [done|]; by intros x ?%not_elem_of_nil|]. cbn [foldl]. destruct (IH (Z.max acc (f y))) as [H1 H2].
    split; [lia|]. intros x [->|Hx]%elem_of_cons; [lia|by apply H2]. }
  apply Hmax.
Qed.

(** ** The bound is a bound *)

(** What the tokens match; zero-width assertions match nothing, and a token of
    another kind whatever the module makes of it. *)
Inductive matches : re -> text -> Prop :=
  | match_literal c : matches (LITERAL c) [c]
  | match_in set c : c ∈ set -> matches (IN set) [c]
  | match_any c : matches ANY [c]
  | match_sub p s : matches_all p s -> matches (SUBPATTERN p) s
  | match_branch bs p s : p ∈ bs -> matches_all p s -> matches (BRANCH bs) s
  | match_repeat lo hi p k s : (lo <= k)%nat -> (forall h, hi = Some h -> (k <= h)%nat) -> matches_times k p s -> matches (REPEAT lo hi p) s
  | match_at : matches AT []
  | match_other s : matches OTHER s
with matches_all : list re -> text -> Prop :=
  | all_nil : matches_all [] []
  | all_cons t p s s' : matches t s -> matches_all p s' -> matches_all (t :: p) (s ++ s')
with matches_times : nat -> list re -> text -> Prop :=
  | times_0 p : matches_times 0 p []
  | times_S k p s s' : matches_all p s -> matches_times k p s' -> matches_times (S k) p (s ++ s').

Scheme matches_ind' := Minimality for matches Sort Prop
with matches_all_ind' := Minimality for matches_all Sort Prop
with matches_times_ind' := Minimality for matches_times Sort Prop.
Combined Scheme matches_mutind from matches_ind', matches_all_ind', matches_times_ind'.

Lemma token_sub p : max_length_token (SUBPATTERN p) = max_length p.
Proof. cbn. induction p as [|t p IH]; [done|]. cbn. by rewrite IH. Qed.

Lemma token_repeat lo k p : max_length_token (REPEAT lo (Some k) p) = Z.of_nat k * max_length p.
Proof. rewrite <- token_sub. done. Qed.

Lemma token_branch bs p : p ∈ bs -> max_length p <= max_length_token (BRANCH bs).
Proof.
  intros Hp. induction bs as [|q bs IH]; [by apply not_elem_of_nil in Hp|]. destruct bs as [|q' bs].
  - apply list_elem_of_singleton in Hp as ->. by rewrite <- token_sub.
  - change (max_length_token (BRANCH (q :: q' :: bs))) with (Z.max (max_length_token (SUBPATTERN q)) (max_length_token (BRANCH (q' :: bs)))). rewrite token_sub.
    apply elem_of_cons in Hp as [->|Hp]; [lia|]. specialize (IH Hp). lia.
Qed.

Lemma token_nonneg : forall t, 0 <= max_length_token t.
Proof.
  fix IH 1. assert (Hall : forall p, 0 <= max_length_token (SUBPATTERN p)) by (intros p; induction p as [|t p IHp]; [done|]; pose proof (IH t); cbn in *; lia).
  clear IH. intros [c|set| |p|bs|lo [k|] p| |]; try (by vm_compute).
  - apply Hall.
  - induction bs as [|q bs IHb]; [done|]. destruct bs as [|q' bs]; [apply (Hall q)|]. pose proof (Hall q). cbn in *. lia.
  - rewrite token_repeat, <- token_sub. pose proof (Hall p). lia.
Qed.

Lemma max_length_nonneg p : 0 <= max_length p.
Proof. rewrite <- token_sub. apply token_nonneg. Qed.

Lemma match_bounds :
  (forall t s, matches t s -> len s <= max_length_token t \/ MAX_LEN <= max_length_token t) /\
  (forall p s, matches_all p s -> len s <= max_length p \/ MAX_LEN <= max_length p) /\
  (forall k p s, matches_times k p s -> len s <= Z.of_nat k * max_length p \/ MAX_LEN <= max_length p /\ (1 <= k)%nat).
Proof.
  apply matches_mutind.
  - by left.
  - by left.
  - by left.
  - intros p s _ IH. by rewrite token_sub.
  - intros bs p s Hp _ IH. pose proof (token_branch bs p Hp). lia.
  - intros lo hi p k s Hlo Hhi _ IH. destruct hi as [h|]; [|right; done]. specialize (Hhi h eq_refl). rewrite token_repeat. pose proof (max_length_nonneg p).
    pose proof (Z.mul_le_mono_nonneg_r (Z.of_nat k) (Z.of_nat h) (max_length p)). destruct IH as [IH|[IH Hk]]; [left; lia|right].
    transitivity (max_length p); [done|]. nia.
  - by left.
  - by right.
  - by left.
  - intros t p s s' _ IH1 _ IH2. rewrite len_app. cbn [max_length]. pose proof (token_nonneg t). pose proof (max_length_nonneg p). lia.
  - intros p. by left.
  - intros k p s s' _ IH1 _ IH2. rewrite len_app, Nat2Z.inj_succ, Z.mul_succ_l. pose proof (max_length_nonneg p). destruct IH1 as [IH1|IH1]; [|right; split; [done|lia]].
    destruct IH2 as [IH2|[IH2 Hk]]; [left; lia|right; split; [done|lia]].
Qed.

(** C40: the number of characters to look back for a stop regex is a bound: any
    text a pattern matches is no longer than what [normalize] computes for it,
    unless that is at least 2^30, the answer for unbounded repetitions and for
    constructs it does not know; and it is never negative. *)
Theorem stop_regex_max_len_bounds encode parse p r s :
  let st := normalize encode parse p in
  r ∈ Stops.stop_regex_strs st -> matches_all (parse r) s ->
  0 <= stop_regex_max_len st /\ (len s <= stop_regex_max_len st \/ MAX_LEN <= stop_regex_max_len st).
Proof.
  cbn. intros Hr Hm. destruct match_bounds as (_ & Hb & _). specialize (Hb _ _ Hm). destruct (max_over_bound (fun s => max_length (parse s)) (stop_list (stop_regex_strs p))) as [H0 H1].
  split; [exact H0|]. specialize (H1 r Hr). cbn in H1. lia.
Qed.

(** [a{2,3}(b|cd)$] *)
Definition sample_regex : list re := [REPEAT 2 (Some 3%nat) [LITERAL 97]; SUBPATTERN [BRANCH [[LITERAL 98]; [LITERAL 99; LITERAL 100]]]; AT].
Definition sample_request : request_params :=
  RequestParams (Some 128) None None (Some (One [63])) None None None None None None None None None None None None None None None None None None.

Lemma stop_regex_max_len_bounds_witness :
  normalize None (fun _ => sample_regex) (init sample_request) = StopConf [] 0 [[63]] 5 /\ matches_all sample_regex [97; 97; 97; 99; 100] /\ len [97; 97; 97; 99; 100] <= 5.
Proof.
  assert (Hn : normalize None (fun _ => sample_regex) (init sample_request) = StopConf [] 0 [[63]] 5) by reflexivity.
  assert (Hm : matches_all sample_regex [97; 97; 97; 99; 100]).
  { apply (all_cons _ _ [97; 97; 97] [99; 100]).
    - apply (match_repeat 2 (Some 3%nat) [LITERAL 97] 3); [lia|by intros h [= <-]|]. do 3 (apply (times_S _ _ [97]); [apply (all_cons _ _ [97] []); constructor|]). constructor.
    - apply (all_cons _ _ [99; 100] []); [|apply (all_cons _ _ [] []); constructor]. apply match_sub, (all_cons _ _ [99; 100] []); [|constructor].
      apply (match_branch _ [LITERAL 99; LITERAL 100]); [right; by left|]. apply (all_cons _ _ [99] [100]); [constructor|]. apply (all_cons _ _ [100] []); constructor. }
  split; [exact Hn|]. split; [exact Hm|].
  destruct (stop_regex_max_len_bounds None (fun _ => sample_regex) (init sample_request) [63] [97; 97; 97; 99; 100] ltac:(by left) Hm) as [_ [H|H]]; [exact H|destruct (H eq_refl)].
Defined.

(** ** What the sampler may rely on *)

Lemma Qlt_bool_true x y : Qlt_bool x y = true <-> (x < y)%Q.
Proof. unfold Qlt_bool. rewrite negb_true_iff, <- not_true_iff_false, Qle_bool_iff. split; [apply Qnot_le_lt|apply Qlt_not_le]. Qed.

Lemma Qlt_bool_false x y : Qlt_bool x y = false <-> (y <= x)%Q.
Proof. unfold Qlt_bool. rewrite negb_false_iff. apply Qle_bool_iff. Qed.

Lemma require_ok {A} b (f : unit -> res A) x : (u ← require b; f u) = Ok x <-> b = true /\ f tt = Ok x.
Proof. unfold require. destruct b; cbn; naive_solver. Qed.

(** The constructor leaves no temperature between 0 and the epsilon. *)
Lemma init_temperature r : (temperature (init r) < 0)%Q \/ (SAMPLING_EPS <= temperature (init r))%Q.
Proof.
  cbn. destruct (Qle_bool 0 _) eqn:H0; cbn; [|left; by apply Qlt_bool_true; unfold Qlt_bool; rewrite H0]. destruct (Qlt_bool _ _) eqn:H1; [by right|].
  right. by apply Qlt_bool_false.
Qed.

(** What passes the checks.  Parameters that pass verify() after the
    constructor can be divided by their temperature, which is at least 10^-6;
    they sample among at least one token; a temperature below the epsilon has
    become greedy sampling; the least number of new tokens is not above the
    largest; and the biased tokens are in the vocabulary. *)
Theorem verified_params vocab r :
  verify vocab (init r) = Ok tt ->
  (SAMPLING_EPS <= temperature (init r))%Q /\ 1 <= top_k (init r) /\ (0 < top_p (init r))%Q /\
  (forall t, rq_temperature r = Some t -> (0 <= t)%Q -> (t < SAMPLING_EPS)%Q -> top_k (init r) = 1) /\
  0 <= min_new_tokens (init r) /\ (forall m, max_new_tokens (init r) = Some m -> min_new_tokens (init r) <= m) /\
  (forall keys, logit_bias (init r) = Some keys -> Forall (fun k => 0 <= k < vocab) keys).
Proof.
  pose proof (init_temperature r) as Ht. unfold verify. rewrite !require_ok. intros (H1 & H2 & _ & H4 & _ & _ & _ & H8 & H).
  apply andb_true_iff in H2 as [H2 _]. apply Qlt_bool_true in H2. apply negb_true_iff in H1, H4. apply Qlt_bool_false in H1.
  apply orb_false_iff in H4 as [H4 _]. apply Z.ltb_ge in H4. apply Z.leb_le in H8.
  split; [destruct Ht as [Ht|Ht]; [by apply Qlt_not_le in Ht|done]|]. split; [done|]. split; [done|]. split.
  { intros t Hr H0 He. cbn. rewrite Hr. cbn. by rewrite (proj2 (Qle_bool_iff _ _) H0), (proj2 (Qlt_bool_true _ _) He). }
  split; [done|]. split.
  - intros m Hm. rewrite Hm in H. unfold require in H. destruct (0 <=? m); [|done]. cbn in H. destruct (_ <=? m) eqn:Hle; [by apply Z.leb_le|done].
  - intros keys Hk. rewrite Hk in H. destruct (match max_new_tokens (init r) with Some _ => _ | None => _ end); [|done]. cbn in H. unfold require in H.
    destruct (forallb _ keys) eqn:Hb; [|done]. rewrite List.forallb_forall in Hb. apply List.Forall_forall. intros k Hin. specialize (Hb k Hin). lia.
Qed.

Lemma verified_params_witness :
  verify 100 (init sample_request) = Ok tt /\ top_k (init sample_request) = TOP_K_ALL /\ 1 <= top_k (init sample_request).
Proof.
  assert (H : verify 100 (init sample_request) = Ok tt) by reflexivity. split; [exact H|]. split; [reflexivity|].
  exact (proj1 (proj2 (verified_params 100 sample_request H))).
Defined.

(** ** Stop strings are honoured

    The number of tokens that the tokenizer makes of the longest stop string,
    and one more, is the window in which stop strings are looked for. *)

Section honoured.
Context (encode : text -> list Z) (decode : list Z -> text) (parse : text -> list re) (search : text -> text -> bool) (decoded : text).
(** The text of some tokens is also there when tokens come before them, but
    for pieces of characters. *)
Hypothesis decode_more : forall a b m, replacement ∉ m -> contains m (decode b) = true -> contains m (decode (a ++ b)) = true.

(** C16: a stop string stops the request.  When the tokens that the tokenizer
    makes of one of the stop strings of the request are generated, whatever
    came before them, the check after that token, and the one after the next
    token at the latest, finishes the request. *)
Theorem stop_string_honoured p m pre post g new r :
  let st := normalize (Some encode) parse p in
  m ∈ Stops.stop_strs st -> replacement ∉ m -> contains m (decode (encode m ++ post)) = true ->
  output_ids (out r) = pre ++ encode m ++ post -> len post <= 1 ->
  finished (check_finished (check_str_based_finish decode search decoded st) g new r) = true.
Proof.
  cbn. intros Hm Hrep Hc Ho Hpost. apply str_finish_finishes.
  destruct (max_over_bound (fun s => len (encode s)) (stop_list (stop_strs p))) as [H0 H1]. specialize (H1 m Hm). cbn in H1.
  apply (seen_in_window decode search decoded _ r m pre (encode m ++ post)); try done; unfold max_len_tail_str; cbn; [lia|]. rewrite len_app. lia.
Qed.
End honoured.

(** *** A tokenizer with a token for the word END *)

Definition word : text := text_of "END".
Definition word_piece (t : Z) : text := if t =? 300 then word else [t].
Definition word_decode (l : list Z) : text := concat (word_piece <$> l).
Definition word_encode (t : text) : list Z := if bool_decide (t = word) then [300] else t.

Lemma word_decode_more a b m : replacement ∉ m -> contains m (word_decode b) = true -> contains m (word_decode (a ++ b)) = true.
Proof. intros _ Hc. unfold word_decode in *. rewrite fmap_app, concat_app, <- (app_nil_r (concat (word_piece <$> b))). by apply contains_more. Qed.

Definition word_request : request_params :=
  RequestParams (Some 128) (Some (One word)) None None None None None None None None None None None None None None None None None None None None.

Definition word_stops : stops := normalize (Some word_encode) (fun _ => []) (init word_request).
Definition word_check : req -> option finish_reason := check_str_based_finish word_decode (fun _ _ => false) [] word_stops.

(** A request that never sees its stop token, with this output. *)
Definition word_req (outs : list Z) : req :=
  Req (ReqInfo 1 [5; 6] (DllmReq.SamplingParams 128 false []) [7] None 1000 false (-1) false false)
      (ReqOut outs no_channels None None None) (ReqKV (Some 0%nat) 2 2 false false 0)
      (ReqIn [] [] 0 0 0 (Some INCOMING_PREFILL) 0).

Lemma stop_string_honoured_witness :
  word_stops = StopConf [word] 1 [] 0 /\
  finished (check_finished word_check (fun _ => false) 1 (word_req [65; 66; 300])) = true /\
  finished_reason (out (check_finished word_check (fun _ => false) 1 (word_req [65; 66; 300]))) = Some (FINISH_MATCHED_STR word).
Proof.
  split; [reflexivity|]. split; [|reflexivity].
  apply (stop_string_honoured word_encode word_decode (fun _ => []) (fun _ _ => false) [] word_decode_more (init word_request) word [65; 66] []).
  - by left.
  - apply (bool_decide_unpack _). vm_compute. exact I.
  - reflexivity.
  - reflexivity.
  - discriminate.
Defined.

(** The same text from other tokens is not seen: the window has two tokens, and
    the word takes three. *)
Lemma spelled_out_stop_missed :
  contains word (word_decode (65 :: word)) = true /\
  finished (foldl (fun r t => check_finished word_check (fun _ => false) 1 (word_req (output_ids (out r) ++ [t]))) (word_req []) (65 :: word)) = false.
Proof. split; vm_compute; reflexivity. Qed.
End Sampling.
