(* ===== verification/PrefillAdder.v ===== *)
(** * The prefill budget

    PrefillAdder of srt/managers/schedule_policy.py for the standard (not
    hybrid) allocators: the token budgets, the operations that admit a request,
    and what they change of the request.

    [avail] is what the allocator and the prefix cache report when an operation
    looks: available slots plus evictable slots.  Token ratios are rationals
    rounded by the code with [int]; the offset of the running batch is an
    integer here, as it is when the running batch is empty, which it always is
    while a diffusion algorithm serves. *)

From S2P Require Import Prelude DllmReq.

(** [SGLANG_CLIP_MAX_NEW_TOKENS_ESTIMATION], an environment setting. *)
Section adder.
Context (CLIP_MAX_NEW_TOKENS : Z).

Inductive AddReqResult := CONTINUE | NO_TOKEN | OTHER.
#[local] Instance add_result_eq_dec : EqDecision AddReqResult.
Proof. solve_decision. Defined.

Record adder := Adder {
  page_size : Z;
  rem_input_tokens : Z;
  rem_chunk_tokens : option Z;
  rem_dllm_tokens : Z;
  dllm : option dllm_config;
  rem_total_token_offset : Z;
  cur_rem_token_offset : Z;
  can_run_list : list Z;
  new_chunked_req : option Z;
  log_hit_tokens : Z;
  log_input_tokens : Z;
}.

(** PrefillAdder.__init__ *)
Definition init (ps : Z) (rem_input : Z) (rem_chunk : option Z) (num_mixed_decode_tokens : Z)
    (running_offset : Z) (cfg : option dllm_config) : adder :=
  Adder ps (rem_input - num_mixed_decode_tokens)
    ((fun c => c - num_mixed_decode_tokens) <$> rem_chunk)
    (match cfg with Some c => max_running_requests c * block_size c | None => 0 end)
    cfg (num_mixed_decode_tokens + running_offset) num_mixed_decode_tokens [] None 0 0.

Definition rem_total_tokens (avail : Z) (a : adder) : Z := avail - rem_total_token_offset a.
Definition cur_rem_tokens (avail : Z) (a : adder) : Z := avail - cur_rem_token_offset a.

(** [-(-tokens // page_size) * page_size] *)
Definition ceil_paged_tokens (a : adder) (tokens : Z) : Z :=
  - ((- tokens) / page_size a) * page_size a.

Definition budget_state (avail : Z) (a : adder) : AddReqResult :=
  if (rem_total_tokens avail a <=? 0) || (cur_rem_tokens avail a <=? 0) then NO_TOKEN
  else if rem_input_tokens a <=? 0 then OTHER
  else match dllm a with
  | Some _ => if rem_dllm_tokens a <=? 0 then OTHER else CONTINUE
  | None => match rem_chunk_tokens a with
            | Some c => if c <=? 0 then OTHER else CONTINUE
            | None => CONTINUE
            end
  end.

Definition update_prefill_budget (prefix_len extend_len max_new : Z) (a : adder) : adder :=
  let extend_len := ceil_paged_tokens a extend_len in
  let page_overhead := page_size a in
  Adder (page_size a) (rem_input_tokens a - extend_len)
    (match dllm a with
     | Some _ => rem_chunk_tokens a
     | None => (fun c => c - extend_len) <$> rem_chunk_tokens a
     end)
    (match dllm a with Some _ => rem_dllm_tokens a - extend_len | None => rem_dllm_tokens a end)
    (dllm a)
    (rem_total_token_offset a + (extend_len + max_new + page_overhead))
    (cur_rem_token_offset a + (extend_len + page_overhead))
    (can_run_list a) (new_chunked_req a)
    (log_hit_tokens a + prefix_len) (log_input_tokens a + extend_len).

Definition add_can_run (r : req) (a : adder) : adder :=
  Adder (page_size a) (rem_input_tokens a) (rem_chunk_tokens a) (rem_dllm_tokens a) (dllm a)
    (rem_total_token_offset a) (cur_rem_token_offset a) (can_run_list a ++ [rid (info r)])
    (new_chunked_req a) (log_hit_tokens a) (log_input_tokens a).

Definition set_new_chunked (r : req) (a : adder) : adder :=
  Adder (page_size a) (rem_input_tokens a) (rem_chunk_tokens a) (rem_dllm_tokens a) (dllm a)
    (rem_total_token_offset a) (cur_rem_token_offset a) (can_run_list a)
    (Some (rid (info r))) (log_hit_tokens a) (log_input_tokens a).

Definition clipped_max_new (r : req) : Z :=
  Z.min (max_new_tokens (sampling (info r))) CLIP_MAX_NEW_TOKENS.

(** [min(max(max_new_tokens - len(output_ids), 0), CLIP_MAX_NEW_TOKENS)] *)
Definition remaining_max_new (r : req) : Z :=
  Z.min (Z.max (max_new_tokens (sampling (info r)) - len (output_ids (out r))) 0) CLIP_MAX_NEW_TOKENS.

(** ** Diffusion requests *)

Definition get_dllm_remain_tokens (cfg : dllm_config) (avail : Z) (a : adder) : Z :=
  let rem := Z.min (Z.min (rem_dllm_tokens a) (block_size cfg)) (rem_total_tokens avail a) in
  if rem <=? 0 then rem_dllm_tokens a else rem.

Definition add_dllm_req (cfg : dllm_config) (r : req) (prefix_len : Z) (a : adder) : req * adder :=
  let trunc_len := Z.min (rem_dllm_tokens a) (block_size cfg) in
  let r := set_extend_len_field r trunc_len in
  let r := set_fill_ids r (slice_to (fill_ids (inp r)) (prefix_len + trunc_len)) in
  (r, update_prefill_budget prefix_len trunc_len 0 (add_can_run r a)).

Definition add_dllm_prompt_cache_req (avail : Z) (r : req) (a : adder) : AddReqResult * adder :=
  let total_tokens := extend_input_len (inp r) + remaining_max_new r in
  if rem_total_tokens avail a <=? total_tokens then (NO_TOKEN, a) else
  let input_tokens := ceil_paged_tokens a (extend_input_len (inp r)) in
  if (rem_input_tokens a <=? input_tokens) && negb (len (can_run_list a) =? 0) then (OTHER, a) else
  (CONTINUE, update_prefill_budget (len (prefix_indices (inp r))) input_tokens (clipped_max_new r)
               (add_can_run r a)).

Definition add_dllm_staging_req (avail : Z) (r : req) (a : adder) : res (AddReqResult * req * adder) :=
  match dllm a with
  | None => Raise AssertionError
  | Some cfg =>
      let rem := get_dllm_remain_tokens cfg avail a in
      if rem <=? 0 then Ok (NO_TOKEN, r, a) else
      let truncated := rem <? extend_input_len (inp r) in
      let r := set_extend_len_field r (Z.min (extend_input_len (inp r)) rem) in
      let r := set_fill_ids r
        (slice_to (fill_ids (inp r)) (len (prefix_indices (inp r)) + extend_input_len (inp r))) in
      let max_new := if truncated then 0 else clipped_max_new r in
      let a := update_prefill_budget 0 (extend_input_len (inp r)) max_new (add_can_run r a) in
      Ok (if get_dllm_remain_tokens cfg avail a <=? 0 then NO_TOKEN else CONTINUE, r, a)
  end.

(** ** Requests of autoregressive models *)

(** add_chunked_req; the result is the request when its prefill is not over. *)
Definition add_chunked_req (avail : Z) (r : req) (a : adder) : res (bool * req * adder) :=
  rem ← match dllm a with
        | Some cfg => Ok (get_dllm_remain_tokens cfg avail a)
        | None =>
            c ← of_option TypeError (rem_chunk_tokens a);
            let rem := Z.min c (rem_total_tokens avail a) in
            Ok (if rem <=? 0 then c else rem)
        end;
  let truncated := rem <? extend_input_len (inp r) in
  let r := set_extend_input_len r (Z.min (extend_input_len (inp r)) rem) in
  let r := set_fill_ids r
    (slice_to (fill_ids (inp r)) (len (prefix_indices (inp r)) + extend_input_len (inp r))) in
  Ok (truncated, r,
      update_prefill_budget 0 (extend_input_len (inp r))
        (if truncated then 0 else clipped_max_new r) (add_can_run r a)).

(** add_one_req without a host cache, a prefill delayer or context parallelism,
    for a request that does not take the ignore_eos path.  [avail] is seen
    before and [avail'] after the lock on the request's last node is taken. *)
Definition add_one_req (avail avail' : Z) (prefill_max_requests truncation_align : option Z)
    (r : req) (a : adder) : res (AddReqResult * req * adder) :=
  if match prefill_max_requests with Some x => x <=? len (can_run_list a) | None => false end
  then Ok (OTHER, r, a) else
  let total_tokens := extend_input_len (inp r) + remaining_max_new r + page_size a in
  let input_tokens := ceil_paged_tokens a (extend_input_len (inp r)) in
  let prefix_len := len (prefix_indices (inp r)) in
  if rem_total_tokens avail a <=? total_tokens then Ok (NO_TOKEN, r, a) else
  if (rem_input_tokens a <=? input_tokens) && negb (len (can_run_list a) =? 0) then Ok (OTHER, r, a) else
  if rem_total_tokens avail' a <=? total_tokens then Ok (NO_TOKEN, r, a) else
  match dllm a with
  | Some cfg =>
      if rem_dllm_tokens a <=? 0 then Ok (OTHER, r, a) else
      _ ← py_assert (bool_decide (truncation_align = None));
      let '(r, a) := add_dllm_req cfg r prefix_len a in
      Ok (budget_state avail' a, r, a)
  | None =>
      let whole := match rem_chunk_tokens a with None => true | Some c => input_tokens <=? c end in
      if whole then
        let a := update_prefill_budget prefix_len input_tokens (clipped_max_new r) (add_can_run r a) in
        Ok (budget_state avail' a, r, a)
      else
        let c := default 0 (rem_chunk_tokens a) in
        let trunc_len := c / page_size a * page_size a in
        if trunc_len <=? 0 then Ok (OTHER, r, a) else
        if match truncation_align with Some t => trunc_len <? t | None => false end
        then Ok (OTHER, r, a) else
        let trunc_len := match truncation_align with Some t => t * (trunc_len / t) | None => trunc_len end in
        let r := set_extend_input_len r trunc_len in
        let r := set_fill_ids r (slice_to (fill_ids (inp r)) (len (prefix_indices (inp r)) + trunc_len)) in
        let a := update_prefill_budget prefix_len trunc_len 0 (set_new_chunked r (add_can_run r a)) in
        Ok (budget_state avail' a, r, a)
  end.

(** * Theorems *)

Lemma ceil_paged_spec a t :
  0 < page_size a -> t <= ceil_paged_tokens a t < t + page_size a.
Proof.
  intros Hp. unfold ceil_paged_tokens.
  pose proof (Z.div_mod (- t) (page_size a) ltac:(lia)).
  pose proof (Z.mod_pos_bound (- t) (page_size a) Hp). nia.
Qed.

Lemma ceil_paged_idem a t :
  0 < page_size a -> ceil_paged_tokens a (ceil_paged_tokens a t) = ceil_paged_tokens a t.
Proof.
  intros Hp. unfold ceil_paged_tokens at 1 3. f_equal. f_equal.
  unfold ceil_paged_tokens. rewrite <- Z.mul_opp_l, Z.opp_involutive. by rewrite Z.div_mul by lia.
Qed.

Lemma clipped_nonneg r :
  0 <= CLIP_MAX_NEW_TOKENS -> 0 <= max_new_tokens (sampling (info r)) -> 0 <= clipped_max_new r.
Proof. unfold clipped_max_new. lia. Qed.

(** One prompt admitted: it fits what is left, and what is left shrinks by at
    least its length. *)
Lemma prompt_step avail r a a' :
  0 < page_size a -> 0 <= CLIP_MAX_NEW_TOKENS -> 0 <= max_new_tokens (sampling (info r)) ->
  add_dllm_prompt_cache_req avail r a = (CONTINUE, a') ->
  rem_total_token_offset a + extend_input_len (inp r) < avail /\
  rem_total_token_offset a + extend_input_len (inp r) <= rem_total_token_offset a' /\
  can_run_list a' = can_run_list a ++ [rid (info r)] /\ page_size a' = page_size a /\ dllm a' = dllm a.
Proof.
  intros Hp Hclip Hmax. unfold add_dllm_prompt_cache_req, rem_total_tokens.
  destruct (Z.leb_spec (avail - rem_total_token_offset a)
    (extend_input_len (inp r) + remaining_max_new r)); [done|].
  destruct (_ && _); [done|]. intros [= <-]. cbn.
  pose proof (clipped_nonneg r Hclip Hmax).
  pose proof (ceil_paged_spec a (extend_input_len (inp r)) Hp).
  pose proof (ceil_paged_spec a (ceil_paged_tokens a (extend_input_len (inp r))) Hp) as Hc.
  unfold remaining_max_new in *. unfold ceil_paged_tokens in *. cbn in *.
  split; [lia|]. split; [lia|]. done.
Qed.

Lemma prompt_reject avail r a res a' :
  add_dllm_prompt_cache_req avail r a = (res, a') -> res <> CONTINUE -> a' = a.
Proof.
  unfold add_dllm_prompt_cache_req. destruct (_ <=? _); [by intros [= <- <-]|].
  destruct (_ && _); [by intros [= <- <-]|]. by intros [= <- <-].
Qed.

(** How a staged block is admitted, when the block budget of the round still
    covers a whole block: in full when the memory estimate covers the block,
    cut to the estimate when the estimate is positive but smaller, and in full
    again, without room for it, when the estimate is used up. *)
Theorem add_dllm_staging_req_spec cfg avail r a :
  dllm a = Some cfg -> 0 < block_size cfg -> block_size cfg <= rem_dllm_tokens a ->
  extend_input_len (inp r) = block_size cfg ->
  len (fill_ids (inp r)) = len (prefix_indices (inp r)) + block_size cfg ->
  exists res r' a', add_dllm_staging_req avail r a = Ok (res, r', a') /\
    can_run_list a' = can_run_list a ++ [rid (info r)] /\
    extend_input_len (inp r') =
      (if rem_total_tokens avail a <=? 0 then block_size cfg
       else Z.min (block_size cfg) (rem_total_tokens avail a)) /\
    len (fill_ids (inp r')) = len (prefix_indices (inp r')) + extend_input_len (inp r') /\
    fill_ids (inp r') `prefix_of` fill_ids (inp r) /\
    prefix_indices (inp r') = prefix_indices (inp r).
Proof.
  intros Hd Hb Hrem Hext Hfill. unfold add_dllm_staging_req. rewrite Hd.
  assert (Hg : get_dllm_remain_tokens cfg avail a =
    if rem_total_tokens avail a <=? 0 then rem_dllm_tokens a
    else Z.min (block_size cfg) (rem_total_tokens avail a)).
  { unfold get_dllm_remain_tokens. rewrite (Z.min_r (rem_dllm_tokens a) (block_size cfg)) by lia.
    destruct (Z.leb_spec (rem_total_tokens avail a) 0).
    - by rewrite (proj2 (Z.leb_le _ _)) by lia.
    - by rewrite (proj2 (Z.leb_gt _ _)) by lia. }
  rewrite Hg. rewrite (proj2 (Z.leb_gt _ 0)) by (destruct (Z.leb_spec (rem_total_tokens avail a) 0); lia).
  do 3 eexists. split; [reflexivity|]. cbn [inp set_fill_ids set_extend_len_field set_inp extend_input_len
    fill_ids prefix_indices add_can_run update_prefill_budget can_run_list info].
  split; [done|]. rewrite Hext.
  assert (He : Z.min (block_size cfg) (if rem_total_tokens avail a <=? 0 then rem_dllm_tokens a
      else Z.min (block_size cfg) (rem_total_tokens avail a)) =
    if rem_total_tokens avail a <=? 0 then block_size cfg
    else Z.min (block_size cfg) (rem_total_tokens avail a))
    by (destruct (Z.leb_spec (rem_total_tokens avail a) 0); lia).
  rewrite He. set (e := if rem_total_tokens avail a <=? 0 then block_size cfg
    else Z.min (block_size cfg) (rem_total_tokens avail a)) in *.
  assert (0 <= e <= block_size cfg) by (subst e; destruct (Z.leb_spec (rem_total_tokens avail a) 0); lia).
  clearbody e. split; [done|]. split; [|split; [|done]].
  - pose proof (len_nonneg (prefix_indices (inp r))). rewrite len_slice_to by lia. done.
  - pose proof (len_nonneg (prefix_indices (inp r))). rewrite slice_to_take by lia. apply prefix_take.
Qed.

(** An autoregressive request admitted by [add_one_req] fits the budgets it
    was checked against: its input, what it may still generate and one page are
    below the remaining total after the lock, the chunk budget covers its
    input, and its input is what follows its cached prefix. *)
Theorem add_one_req_within_budget avail avail' pmax align r a res r' a' :
  dllm a = None -> 0 < page_size a -> (forall c, rem_chunk_tokens a = Some c -> 0 <= c) ->
  (forall t, align = Some t -> 0 < t) ->
  0 <= extend_input_len (inp r) ->
  len (fill_ids (inp r)) = len (prefix_indices (inp r)) + extend_input_len (inp r) ->
  add_one_req avail avail' pmax align r a = Ok (res, r', a') ->
  can_run_list a' = can_run_list a /\ r' = r /\ res <> CONTINUE \/
  can_run_list a' = can_run_list a ++ [rid (info r)] /\
  0 <= extend_input_len (inp r') <= extend_input_len (inp r) /\
  extend_input_len (inp r) + remaining_max_new r + page_size a < rem_total_tokens avail' a /\
  (forall c, rem_chunk_tokens a = Some c -> extend_input_len (inp r') <= c) /\
  fill_ids (inp r') = take (length (prefix_indices (inp r)) + Z.to_nat (extend_input_len (inp r')))
    (fill_ids (inp r)) /\
  (extend_input_len (inp r') < extend_input_len (inp r) -> new_chunked_req a' = Some (rid (info r))).
Proof.
  intros Hd Hp Hc Hal He Hfill. unfold add_one_req.
  destruct (match pmax with Some x => x <=? len (can_run_list a) | None => false end);
    [by intros [= <- <- <-]; left|].
  destruct (rem_total_tokens avail a <=? _); [by intros [= <- <- <-]; left|].
  destruct ((rem_input_tokens a <=? _) && _); [by intros [= <- <- <-]; left|].
  destruct (Z.leb_spec (rem_total_tokens avail' a) (extend_input_len (inp r) + remaining_max_new r + page_size a))
    as [|Htot]; [by intros [= <- <- <-]; left|]. rewrite Hd.
  pose proof (ceil_paged_spec a (extend_input_len (inp r)) Hp) as Hceil.
  destruct (rem_chunk_tokens a) as [c|] eqn:Hrc.
  2: { intros [= <- <- <-]. right. cbn [can_run_list update_prefill_budget add_can_run].
       split; [done|]. split; [lia|]. split; [done|]. split; [done|]. split; [|lia].
       rewrite take_ge; [done|]. unfold len in Hfill. lia. }
  specialize (Hc c eq_refl).
  destruct (Z.leb_spec (ceil_paged_tokens a (extend_input_len (inp r))) c) as [Hw|Hw].
  { intros [= <- <- <-]. right. cbn [can_run_list update_prefill_budget add_can_run].
    split; [done|]. split; [lia|]. split; [done|]. split; [by intros ? [= <-]; lia|]. split; [|lia].
    rewrite take_ge; [done|]. unfold len in Hfill. lia. }
  cbn [default from_option id].
  destruct (Z.leb_spec (c / page_size a * page_size a) 0) as [|Hpos]; [by intros [= <- <- <-]; left|].
  destruct (match align with Some t => _ | None => false end) eqn:Ht; [by intros [= <- <- <-]; left|].
  set (tl := match align with Some t => _ | None => _ end).
  assert (Htl : 0 <= tl <= c /\ tl <= extend_input_len (inp r)).
  { assert (Hb : 0 <= tl <= c / page_size a * page_size a).
    { subst tl. destruct align as [t|]; [|lia]. specialize (Hal t eq_refl).
      pose proof (Z.div_mod (c / page_size a * page_size a) t ltac:(lia)).
      pose proof (Z.mod_pos_bound (c / page_size a * page_size a) t Hal).
      pose proof (Z.div_pos (c / page_size a * page_size a) t ltac:(lia) Hal). nia. }
    pose proof (Z.div_mod c (page_size a) ltac:(lia)).
    pose proof (Z.mod_pos_bound c (page_size a) Hp). split; [lia|].
    unfold ceil_paged_tokens in Hw, Hceil.
    assert (c / page_size a < - (- extend_input_len (inp r) / page_size a)) by nia. nia. }
  clearbody tl. intros [= <- <- <-]. right.
  cbn [can_run_list update_prefill_budget add_can_run set_new_chunked new_chunked_req inp set_fill_ids
    set_extend_input_len set_inp extend_input_len fill_ids prefix_indices info].
  split; [done|]. split; [lia|]. split; [done|]. split; [by intros ? [= <-]; lia|]. split; [|done].
  pose proof (len_nonneg (prefix_indices (inp r))). rewrite slice_to_take by lia. f_equal. unfold len. lia.
Qed.
End adder.

Definition demo_cfg : dllm_config := DllmConfig "LinearSpec" 4 99 2 4 false false.
Definition demo_adder (cfg : option dllm_config) (chunk : option Z) : adder :=
  init 1 100 chunk 0 0 cfg.
Definition demo_staged : req :=
  set_inp (demo_req 50 []) (ReqIn [5; 6; 99; 99; 99; 99] [1; 2] 4 0 1 (Some STAGING_DECODE) 2).

Lemma add_dllm_staging_req_witness :
  exists res r' a', add_dllm_staging_req 4096 3 demo_staged (demo_adder (Some demo_cfg) None)
    = Ok (res, r', a') /\ extend_input_len (inp r') = 3.
Proof.
  destruct (add_dllm_staging_req_spec 4096 demo_cfg 3 demo_staged (demo_adder (Some demo_cfg) None))
    as (res & r' & a' & Hr & _ & He & _); [reflexivity|reflexivity|vm_compute; discriminate
    |reflexivity|reflexivity|].
  by exists res, r', a'.
Defined.

Lemma add_one_req_witness :
  exists res r' a', add_one_req 4096 1000 1000 None None demo_staged (demo_adder None (Some 3))
    = Ok (res, r', a') /\ extend_input_len (inp r') <= 3.
Proof.
  do 3 eexists. split; [reflexivity|].
  destruct (add_one_req_within_budget 4096 1000 1000 None None demo_staged (demo_adder None (Some 3))
    _ _ _ eq_refl ltac:(reflexivity) ltac:(by intros ? [= <-]) ltac:(done) ltac:(vm_compute; discriminate)
    eq_refl eq_refl) as [(_ & _ & Hne)|(_ & _ & _ & Hc & _)].
  - vm_compute. discriminate.
  - exact (Hc 3 eq_refl).
Defined.
