(* ===== verification/MemCommon.v ===== *)
(** * Memory of a batch

    The request-to-token table (ReqToTokenPool of srt/mem_cache/memory_pool.py),
    the allocation of a batch's slots and their recording in the table
    (srt/mem_cache/common.py), the prefix cache as these functions see it with
    the chunk cache (srt/mem_cache/chunk_cache.py) as an instance, and the part
    of ScheduleBatch.prepare_for_extend (srt/managers/schedule_batch.py) that
    allocates. *)

From S2P Require Import Prelude Allocator DllmReq.

(** ** ReqToTokenPool *)

Record req_pool := ReqPool {
  pool_size : nat;
  max_context_len : nat;
  req_to_token : list (list Z);
  free_slots : list nat;
}.

Definition set_table (p : req_pool) (t : list (list Z)) : req_pool :=
  ReqPool (pool_size p) (max_context_len p) t (free_slots p).
Definition set_free_slots (p : req_pool) (l : list nat) : req_pool :=
  ReqPool (pool_size p) (max_context_len p) (req_to_token p) l.

Definition pool_init (size ctx : nat) : req_pool :=
  ReqPool size ctx (replicate size (replicate ctx 0)) (seq 0 size).

Definition pool_available_size (p : req_pool) : nat := length (free_slots p).

Definition pool_clear (p : req_pool) : req_pool := set_free_slots p (seq 0 (pool_size p)).

(** The requests without a slot take the selected ones in order. *)
Fixpoint take_slots (reqs : list req) (select : list nat) : list req :=
  match reqs with
  | [] => []
  | r :: reqs =>
      match req_pool_idx (kvs r), select with
      | None, i :: select => set_pool_idx r (Some i) :: take_slots reqs select
      | _, _ => r :: take_slots reqs select
      end
  end.

Definition needs_slot (r : req) : bool := bool_decide (req_pool_idx (kvs r) = None).

Definition pool_alloc (reqs : list req) (p : req_pool) : res (option (list req * req_pool)) :=
  _ ← py_assert (forallb (fun r => needs_slot r || (0 <? is_chunked (inp r))
                                   || (0 <? kv_committed_len (kvs r))) reqs);
  let need_size := length (filter (fun r => needs_slot r = true) reqs) in
  if (length (free_slots p) <? need_size)%nat then Ok None
  else Ok (Some (take_slots reqs (take need_size (free_slots p)),
                 set_free_slots p (drop need_size (free_slots p)))).

Definition pool_free (r : req) (p : req_pool) : res (req * req_pool) :=
  match req_pool_idx (kvs r) with
  | None => Raise AssertionError
  | Some i => Ok (set_pool_idx r None, set_free_slots p (free_slots p ++ [i]))
  end.

(** ** Recording slots in the table *)

Definition WRITE_BLOCK : nat := 512.

(** write_req_to_token_pool_triton, program [pid]. *)
Definition write_program (req_pool_indices : list nat) (prefix_tensors : list (list Z))
    (pre_lens seq_lens extend_lens : list nat) (out_cache_loc : list Z)
    (table : list (list Z)) (pid : nat) : list (list Z) :=
  let pre_len := pre_lens !!! pid in
  let seq_len := seq_lens !!! pid in
  let cumsum_start := foldl Nat.add 0%nat (take pid extend_lens) in
  let table := flat_copy WRITE_BLOCK (req_pool_indices !!! pid) 0 pre_len 0 (prefix_tensors !!! pid) table in
  flat_copy WRITE_BLOCK (req_pool_indices !!! pid) pre_len seq_len cumsum_start out_cache_loc table.

Definition write_kernel (req_pool_indices : list nat) (prefix_tensors : list (list Z))
    (pre_lens seq_lens extend_lens : list nat) (out_cache_loc : list Z)
    (table : list (list Z)) : list (list Z) :=
  foldl (write_program req_pool_indices prefix_tensors pre_lens seq_lens extend_lens out_cache_loc)
    table (seq 0 (length req_pool_indices)).

(** [row[a:b] = vals], which raises when the lengths differ. *)
Definition assign_slice (a b : nat) (vals row : list Z) : res (list Z) :=
  if (length vals =? Nat.min b (length row) - a)%nat then Ok (list_inserts a vals row)
  else Raise RuntimeError.

(** The loop used without triton. *)
Definition write_loop (req_pool_indices : list nat) (prefix_tensors : list (list Z))
    (pre_lens seq_lens extend_lens : list nat) (out_cache_loc : list Z)
    (table : list (list Z)) : res (nat * list (list Z)) :=
  foldM (fun '(pt, table) i =>
      let req_idx := req_pool_indices !!! i in
      let prefix_len := pre_lens !!! i in
      let seq_len := seq_lens !!! i in
      let extend_len := extend_lens !!! i in
      row ← of_option IndexError (table !! req_idx);
      row ← assign_slice 0 prefix_len (prefix_tensors !!! i) row;
      row ← assign_slice prefix_len seq_len (take extend_len (drop pt out_cache_loc)) row;
      Ok ((pt + extend_len)%nat, <[req_idx := row]> table))
    (0%nat, table) (seq 0 (length req_pool_indices)).

(** get_last_loc_torch *)
Definition get_last_loc_torch (table : list (list Z)) (idx : list nat) (pre_lens : list Z) : list Z :=
  zip_with (fun i p => if 0 <? p then (table !!! i) !!! Z.to_nat (p - 1) else -1) idx pre_lens.

(** get_last_loc_kernel: one lane per request in chunks of 256; the loads
    beyond the end or before the first position yield the default. *)
Definition get_last_loc_triton (table : list (list Z)) (idx : list nat) (pre_lens : list Z) : list Z :=
  foldl (fun result offset =>
      if (offset <? length pre_lens)%nat then
        let prefix_len := pre_lens !!! offset in
        let token := if 0 <? prefix_len
                     then (table !!! (idx !!! offset)) !!! Z.to_nat (prefix_len - 1) else -1 in
        <[offset := token]> result
      else result)
    (replicate (length pre_lens) 0) (seq 0 ((length pre_lens + 255) / 256 * 256)).

(** ** The prefix cache

    What a cache does with the allocator and a request, and the laws the
    scheduler relies on: [cached] lists the slots the cache holds, [cache_ok] is
    the cache's own invariant. *)
Class PrefixCache (T : Type) := {
  cache_ok : T -> Prop;
  is_chunk_cache : T -> bool;
  evictable_size : T -> Z;
  cached : T -> list Z;
  evict : Z -> T * allocator -> res (T * allocator);
  cache_finished_req : bool -> list Z -> req -> T * allocator -> res (req * (T * allocator));

  evict_conserves n t a :
    cache_ok t -> exists t' a', evict n (t, a) = Ok (t', a') /\ cache_ok t' /\
    cached t' ++ Token.pool a' ≡ₚ cached t ++ Token.pool a /\
    is_not_in_free_group a' = is_not_in_free_group a /\ (Token.wf a -> Token.wf a');
  finished_conserves row r t a r' t' a' :
    cache_ok t -> cache_finished_req false row r (t, a) = Ok (r', (t', a')) ->
    cache_protected_len (kvs r) = 0 -> 0 <= kv_committed_len (kvs r) ->
    kv_committed_len (kvs r) = seqlen r ->
    cache_ok t' /\ cached t' ++ Token.pool a' ≡ₚ slice_to row (kv_committed_len (kvs r)) ++ cached t ++ Token.pool a /\
    is_not_in_free_group a' = is_not_in_free_group a /\ (Token.wf a -> Token.wf a');
  finished_req row r t a r' t' a' :
    cache_finished_req false row r (t, a) = Ok (r', (t', a')) ->
    kv_committed_freed (kvs r) = false /\
    r' = set_kvs r (ReqKV (req_pool_idx (kvs r)) (kv_committed_len (kvs r)) (kv_allocated_len (kvs r))
           true (kv_overallocated_freed (kvs r)) (cache_protected_len (kvs r)));
  finished_ok row r t a :
    cache_ok t -> kv_committed_freed (kvs r) = false -> exists r' t' a',
      cache_finished_req false row r (t, a) = Ok (r', (t', a'));
}.

(** ChunkCache: nothing is cached; finishing frees the committed slots. *)
Definition chunk_cache_finished_req (row : list Z) (r : req) (s : unit * allocator)
    : res (req * (unit * allocator)) :=
  '(kv_committed_len, r) ← pop_committed_kv_cache false r;
  Ok (r, (tt, Token.free (slice_to row kv_committed_len) (snd s))).

#[global, program] Instance ChunkCache : PrefixCache unit := {|
  cache_ok _ := True;
  is_chunk_cache _ := true;
  evictable_size _ := 0;
  cached _ := [];
  evict n s := Ok s;
  cache_finished_req is_insert row r s := chunk_cache_finished_req row r s;
|}.
Next Obligation. intros n t a _. by exists t, a. Qed.
Next Obligation.
  intros row r t a r' t' a' _ Hf _ _ _. unfold chunk_cache_finished_req, pop_committed_kv_cache in Hf.
  destruct (kv_committed_freed (kvs r)); [done|]. injection Hf as <- <- <-.
  split; [done|]. split; [apply Token.free_pool|]. split; [|by apply Token.free_wf].
  apply Token.free_group_flag.
Qed.
Next Obligation.
  intros row r t a r' t' a' Hf. unfold chunk_cache_finished_req, pop_committed_kv_cache in Hf.
  destruct (kv_committed_freed (kvs r)); [done|]. by injection Hf as <- <- <-.
Qed.
Next Obligation.
  intros row r t a _ Hf. unfold chunk_cache_finished_req, pop_committed_kv_cache. rewrite Hf.
  by do 3 eexists.
Qed.

(** ** Allocating a batch *)

(** The memory a scheduler owns. *)
Record mem (T : Type) := Mem { kv : allocator; rows : req_pool; tree : T }.
Arguments Mem {T} kv rows tree.
Arguments kv {T} m.
Arguments rows {T} m.
Arguments tree {T} m.

(** The fields of a ScheduleBatch that prepare_for_extend fills. *)
Record extend_batch := ExtendBatch {
  eb_reqs : list req;
  eb_input_ids : list Z;
  eb_seq_lens : list Z;
  eb_prefix_lens : list Z;
  eb_extend_lens : list Z;
  eb_out_cache_loc : list Z;
  eb_req_pool_indices : list nat;
}.

Section alloc.
Context {T : Type} `{!PrefixCache T}.
(** The page size, and the memory the paged kernels may read beyond tensors. *)
Context (page_size : Z) (masked : lanes) (oob : Z -> Z) (empty : Z -> list Z).

Definition evict_from_tree_cache (num_tokens : Z) (available : Z) (s : T * allocator)
    : res (T * allocator) :=
  if is_chunk_cache (fst s) then Ok s
  else if available <? num_tokens then evict num_tokens s else Ok s.

Definition alloc_token_slots (num_tokens : Z) (s : T * allocator) : res (list Z * (T * allocator)) :=
  '(t, a) ← evict_from_tree_cache num_tokens (Token.available_size (snd s)) s;
  match Token.alloc num_tokens a with
  | (Some loc, a) => Ok (loc, (t, a))
  | (None, _) => Raise RuntimeError
  end.

Definition alloc_paged_token_slots_extend (prefix_lens seq_lens last_loc : list Z)
    (extend_num_tokens : Z) (s : T * allocator) : res (list Z * (T * allocator)) :=
  let num_tokens := extend_num_tokens + len seq_lens * page_size in
  '(t, a) ← evict_from_tree_cache num_tokens (Paged.available_size (snd s)) s;
  match Paged.alloc_extend masked oob empty prefix_lens seq_lens last_loc extend_num_tokens a with
  | (Some loc, a) => Ok (loc, (t, a))
  | (None, _) => Raise RuntimeError
  end.

Definition alloc_req_slots (reqs : list req) (p : req_pool) : res (list req * req_pool) :=
  o ← pool_alloc reqs p;
  of_option RuntimeError o.

(** [t[-1:] if len(t) > 0 else [-1]] *)
Definition last_loc_of (t : list Z) : Z := default (-1) (last t).

Definition pool_idx (r : req) : nat := default 0%nat (req_pool_idx (kvs r)).

(** alloc_for_extend *)
Definition alloc_for_extend (reqs : list req) (prefix_lens seq_lens extend_lens : list Z)
    (extend_num_tokens : Z) (m : mem T) : res (list Z * list req * mem T) :=
  let prefix_tensors := (fun r => prefix_indices (inp r)) <$> reqs in
  '(reqs, p) ← alloc_req_slots reqs (rows m);
  '(loc, (t, a)) ←
    (if page_size =? 1 then alloc_token_slots extend_num_tokens (tree m, kv m)
     else alloc_paged_token_slots_extend prefix_lens seq_lens (last_loc_of <$> prefix_tensors)
            extend_num_tokens (tree m, kv m));
  let table := write_kernel (pool_idx <$> reqs) prefix_tensors (Z.to_nat <$> prefix_lens)
    (Z.to_nat <$> seq_lens) (Z.to_nat <$> extend_lens) loc (req_to_token p) in
  Ok (loc, reqs, Mem a (set_table p table) t).

(** The per-request loop of prepare_for_extend. *)
Definition commit_extend (r : req) : res req :=
  let seq_len := len (fill_ids (inp r)) in
  let pre_len := len (prefix_indices (inp r)) in
  _ ← py_assert (seq_len - pre_len =? extend_input_len (inp r));
  Ok (set_kv_lens r seq_len seq_len).

Definition prepare_for_extend (reqs : list req) (m : mem T) : res (extend_batch * mem T) :=
  let input_ids := (fun r => slice_from (fill_ids (inp r)) (len (prefix_indices (inp r)))) <$> reqs in
  let extend_num_tokens := foldr Z.add 0 (len <$> input_ids) in
  let seq_lens := (fun r => len (fill_ids (inp r))) <$> reqs in
  let prefix_lens := (fun r => len (prefix_indices (inp r))) <$> reqs in
  let extend_lens := (fun r => extend_input_len (inp r)) <$> reqs in
  '(loc, reqs, m) ← alloc_for_extend reqs prefix_lens seq_lens extend_lens extend_num_tokens m;
  reqs ← mapM commit_extend reqs;
  Ok (ExtendBatch reqs (concat input_ids) seq_lens prefix_lens extend_lens loc (pool_idx <$> reqs), m).

(** ** Releasing a request: release_kv_cache

    [strip] as in [cache_commit_len]; no speculative algorithm is configured. *)
Definition ceil_align (x a : Z) : Z := ceil_div x a * a.

Definition release_kv_cache (strip is_insert : bool) (r : req) (m : mem T) : res (req * mem T) :=
  match req_pool_idx (kvs r) with
  | None => Raise AssertionError
  | Some i =>
      row ← of_option IndexError (req_to_token (rows m) !! i);
      '(r, (t, a)) ← cache_finished_req is_insert row r (tree m, kv m);
      '(start_p, end_p, r) ← pop_overallocated_kv_cache strip r;
      _ ← py_assert (strip || (start_p =? end_p));
      let start_p := if 1 <? page_size then ceil_align start_p page_size else start_p in
      let a := if start_p <? end_p then Token.free (slice row start_p end_p) a else a in
      '(r, p) ← pool_free r (rows m);
      Ok (r, Mem a p t)
  end.
End alloc.

(** * Theorems *)

(** ** The two ways of recording slots agree *)

(** A batch whose tensors have consistent shapes, on rows of the table. *)
Definition write_shapes (idx : list nat) (prefix : list (list Z)) (pre sl el : list nat)
    (loc : list Z) (table : list (list Z)) : Prop :=
  length prefix = length idx /\ length pre = length idx /\ length sl = length idx /\
  length el = length idx /\
  (forall b, (b < length idx)%nat ->
     length (prefix !!! b) = pre !!! b /\ (sl !!! b = pre !!! b + el !!! b)%nat /\
     exists row, table !! (idx !!! b) = Some row /\ (sl !!! b <= length row)%nat) /\
  length loc = foldr Nat.add 0%nat el.

Lemma assign_slice_ok a b vals row :
  length vals = (b - a)%nat -> (b <= length row)%nat ->
  assign_slice a b vals row = Ok (list_inserts a vals row).
Proof. intros Hv Hb. unfold assign_slice. by rewrite (proj2 (Nat.eqb_eq _ _)) by lia. Qed.

Lemma sum_take_S (el : list nat) k :
  (k < length el)%nat ->
  foldr Nat.add 0%nat (take (S k) el) = (foldr Nat.add 0 (take k el) + el !!! k)%nat.
Proof.
  intros Hk. rewrite (take_S_r _ _ (el !!! k)) by (by apply list_lookup_lookup_total_lt).
  rewrite sum_app. cbn [foldr]. lia.
Qed.

Lemma sum_take_le (el : list nat) k : (foldr Nat.add 0 (take k el) <= foldr Nat.add 0 el)%nat.
Proof. revert k. induction el as [|x el IH]; intros [|k]; cbn; try lia. specialize (IH k). lia. Qed.

(** What program [b] leaves in its row. *)
Definition written_row (prefix : list (list Z)) (pre el : list nat) (loc : list Z) (b : nat)
    (row : list Z) : list Z :=
  list_inserts (pre !!! b) (take (el !!! b) (drop (foldr Nat.add 0%nat (take b el)) loc))
    (list_inserts 0 (prefix !!! b) row).

Lemma program_row idx prefix pre sl el loc table b row :
  write_shapes idx prefix pre sl el loc table -> (b < length idx)%nat ->
  (sl !!! b <= length row)%nat ->
  masked_copy WRITE_BLOCK (pre !!! b) (sl !!! b) (foldl Nat.add 0%nat (take b el)) loc
    (masked_copy WRITE_BLOCK 0 (pre !!! b) 0 (prefix !!! b) row)
  = written_row prefix pre el loc b row.
Proof.
  intros (Hp & Hpre & Hsl & Hel & Hb & Hloc) Hlt Hrow. destruct (Hb b Hlt) as (Hpl & Hs & _).
  rewrite foldl_add_sum. cbn [plus].
  assert (Hsum : (foldr Nat.add 0 (take b el) + el !!! b <= length loc)%nat).
  { rewrite Hloc, <- sum_take_S by lia. apply sum_take_le. }
  rewrite (masked_copy_spec WRITE_BLOCK 0) by (unfold WRITE_BLOCK; lia).
  rewrite Nat.sub_0_r, drop_0, (take_ge (prefix !!! b)) by lia.
  rewrite masked_copy_spec by (rewrite ?length_inserts; unfold WRITE_BLOCK; lia).
  unfold written_row. do 2 f_equal. lia.
Qed.

Section write.
Context (idx : list nat) (prefix : list (list Z)) (pre sl el : list nat) (loc : list Z)
  (table : list (list Z)).
Hypothesis shapes : write_shapes idx prefix pre sl el loc table.
Hypothesis distinct : NoDup idx.
Hypothesis rect : rectangular table.

(** One program, and all of them, in terms of the rows. *)
Definition program_on (b : nat) (row : list Z) : list Z :=
  masked_copy WRITE_BLOCK (pre !!! b) (sl !!! b) (foldl Nat.add 0%nat (take b el)) loc
    (masked_copy WRITE_BLOCK 0 (pre !!! b) 0 (prefix !!! b) row).

Lemma write_programs k :
  (k <= length idx)%nat ->
  let t := foldl (fun t b => alter (program_on b) (idx !!! b) t) table (seq 0 k) in
  foldl (write_program idx prefix pre sl el loc) table (seq 0 k) = t /\
  rectangular t /\ stride t = stride table /\ length t = length table.
Proof using shapes rect.
  cbn zeta. induction k as [|k IH]; intros Hk; [done|]. destruct IH as (He & Hr & Hs & Hl); [lia|].
  rewrite seq_S, !foldl_app, He. cbn [foldl plus]. set (t := foldl (fun t b => alter (program_on b) (idx !!! b) t) table (seq 0 k)) in *. clearbody t. clear He.
  destruct shapes as (_ & _ & _ & Hel & Hb & Hloc). destruct (Hb k ltac:(lia)) as (Hpl & Hsl & row & Hrow & Hw).
  rewrite (proj1 (Forall_lookup _ _) rect _ _ Hrow) in Hw.
  assert (Hi : (idx !!! k < length t)%nat) by (rewrite Hl; by eapply lookup_lt_Some).
  assert (Hsum : (foldl Nat.add 0 (take k el) + el !!! k <= length loc)%nat).
  { rewrite foldl_add_sum, Hloc, Nat.add_0_l, <- sum_take_S by lia. apply sum_take_le. }
  assert (Hpo : forall row, length (program_on k row) = length row) by (intros; unfold program_on; by rewrite !length_masked_copy).
  destruct (rectangular_alter (program_on k) (idx !!! k) t Hpo Hr) as [Hr' Hs'].
  split; [|by rewrite length_alter, Hs', Hs]. unfold write_program. cbn zeta.
  rewrite (flat_copy_row _ _ 0) by (done || (unfold WRITE_BLOCK; lia)).
  destruct (rectangular_alter (masked_copy WRITE_BLOCK 0 (pre !!! k) 0 (prefix !!! k)) (idx !!! k) t) as [Hr1 Hs1];
    [intros; apply length_masked_copy|done|].
  rewrite flat_copy_row; [|done|unfold WRITE_BLOCK; lia|by rewrite length_alter|lia|lia].
  apply list_eq. intros j. destruct (decide (j = idx !!! k)) as [->|Hne]; [|by rewrite !list_lookup_alter_ne by done].
  rewrite !list_lookup_alter_eq. by destruct (t !! (idx !!! k)).
Qed.

Lemma idx_inj b c : (b < length idx)%nat -> (c < length idx)%nat -> idx !!! b = idx !!! c -> b = c.
Proof.
  intros Hb Hc Heq. eapply NoDup_lookup; [exact distinct|..];
    [by apply list_lookup_lookup_total_lt|]. rewrite Heq. by apply list_lookup_lookup_total_lt.
Qed.

(** The table the kernel leaves. *)
Lemma write_kernel_rows :
  let table' := write_kernel idx prefix pre sl el loc table in
  length table' = length table /\
  (forall b, (b < length idx)%nat ->
     table' !! (idx !!! b) = written_row prefix pre el loc b <$> table !! (idx !!! b)) /\
  (forall j, j ∉ idx -> table' !! j = table !! j).
Proof.
  destruct (alter_rows program_on (fun b => idx !!! b) (length idx) table idx_inj) as (Hl & Hin & Hout).
  cbn zeta. unfold write_kernel. rewrite (proj1 (write_programs (length idx) ltac:(done))).
  split; [exact Hl|]. split.
  - intros b Hb. etransitivity; [exact (Hin b Hb)|].
    destruct shapes as (_ & _ & _ & _ & Hbs & _). destruct (Hbs b Hb) as (_ & _ & row & Hr & Hw).
    rewrite Hr. cbn. f_equal. by eapply program_row.
  - intros j Hj. apply Hout. intros b Hb <-. apply Hj.
    eapply list_elem_of_lookup_2. by apply list_lookup_lookup_total_lt.
Qed.

Lemma loop_prefix k :
  (k <= length idx)%nat ->
  foldM (fun '(pt, table) i =>
      let req_idx := idx !!! i in
      let prefix_len := pre !!! i in
      let seq_len := sl !!! i in
      let extend_len := el !!! i in
      row ← of_option IndexError (table !! req_idx);
      row ← assign_slice 0 prefix_len (prefix !!! i) row;
      row ← assign_slice prefix_len seq_len (take extend_len (drop pt loc)) row;
      Ok ((pt + extend_len)%nat, <[req_idx := row]> table))
    (0%nat, table) (seq 0 k)
  = Ok (foldr Nat.add 0%nat (take k el),
        foldl (fun t b => alter (written_row prefix pre el loc b) (idx !!! b) t) table (seq 0 k)).
Proof.
  induction k as [|k IH]; intros Hk; [done|].
  rewrite seq_S, foldM_app, IH by lia. change (Ok ?x ≫= ?f) with (f x). cbn [foldM plus].
  rewrite foldl_app. cbn [foldl].
  destruct (alter_rows (written_row prefix pre el loc) (fun b => idx !!! b) k table)
    as (_ & _ & Hout); [intros; apply idx_inj; lia|].
  set (t := foldl _ table (seq 0 k)) in *. clearbody t.
  destruct shapes as (Hp & Hpre & Hsl & Hel & Hbs & Hloc).
  destruct (Hbs k ltac:(lia)) as (Hpl & Hs & row & Hr & Hw).
  assert (Hrt : t !! (idx !!! k) = Some row).
  { rewrite Hout; [done|]. intros b Hb Heq. apply idx_inj in Heq; lia. }
  assert (Hsum : (foldr Nat.add 0 (take k el) + el !!! k <= length loc)%nat).
  { rewrite Hloc, <- sum_take_S by lia. apply sum_take_le. }
  rewrite Hrt. cbn [of_option]. step_ok.
  rewrite assign_slice_ok by lia. step_ok.
  rewrite assign_slice_ok by (rewrite ?length_inserts, ?length_take, ?length_drop; lia).
  step_ok. step_ok.
  rewrite sum_take_S by lia. f_equal. f_equal.
  rewrite list_insert_alter. apply list_alter_ext; [|done]. intros row' Hr'.
  rewrite Hrt in Hr'. injection Hr' as <-. done.
Qed.
End write.

(** The triton kernel and the fallback loop write the same table.  For a
    batch of distinct rows with consistent lengths the loop does not raise and
    leaves exactly what the chunked, masked kernel leaves. *)
Theorem write_kernel_matches_loop idx prefix pre sl el loc table :
  write_shapes idx prefix pre sl el loc table -> NoDup idx -> rectangular table ->
  snd <$> write_loop idx prefix pre sl el loc table
  = Ok (write_kernel idx prefix pre sl el loc table).
Proof.
  intros Hsh Hnd Hrect. unfold write_loop. rewrite (loop_prefix idx prefix pre sl el loc table Hsh Hnd) by done.
  cbn. f_equal. destruct (write_kernel_rows idx prefix pre sl el loc table Hsh Hnd Hrect) as (Hl & Hin & Hout).
  destruct (alter_rows (written_row prefix pre el loc) (fun b => idx !!! b) (length idx) table)
    as (Hl' & Hin' & Hout'); [by apply idx_inj|].
  apply list_eq. intros j. destruct (decide (j ∈ idx)) as [(b & Hb)%list_elem_of_lookup|Hj].
  - apply lookup_lt_Some in Hb as Hlt. apply list_lookup_total_correct in Hb. subst j.
    rewrite Hin by done. by apply Hin'.
  - rewrite Hout by done. apply Hout'. intros b Hb <-. apply Hj.
    eapply list_elem_of_lookup_2. by apply list_lookup_lookup_total_lt.
Qed.

Lemma write_kernel_matches_loop_witness :
  snd <$> write_loop [1%nat; 0%nat] [[7]; []] [1%nat; 0%nat] [2%nat; 3%nat] [1%nat; 3%nat]
      [11; 12; 13; 14] [[0; 0; 0]; [0; 0; 0]]
  = Ok [[12; 13; 14]; [7; 11; 0]].
Proof.
  rewrite write_kernel_matches_loop; [reflexivity| | |].
  - split; [done|]. split; [done|]. split; [done|]. split; [done|]. split; [|done].
    intros [|[|b]] Hb; cbn in Hb; [| |lia]; (split; [done|]); (split; [done|]);
      eexists; (split; [reflexivity|cbn; lia]).
  - apply (bool_decide_unpack _). vm_compute. exact I.
  - repeat constructor.
Defined.

Lemma lanes_fill {A} (f : nat -> A) n m (r : list A) :
  length r = n ->
  let r' := foldl (fun r off => if (off <? n)%nat then <[off := f off]> r else r) r (seq 0 m) in
  length r' = n /\ forall i, (i < n)%nat -> r' !! i = if decide (i < m)%nat then Some (f i) else r !! i.
Proof.
  intros Hr. cbn zeta. induction m as [|m [IHl IH]]; [done|].
  rewrite seq_S, foldl_app. cbn [foldl plus]. set (r' := foldl _ _ _) in *. clearbody r'.
  destruct (Nat.ltb_spec m n).
  - split; [by rewrite length_insert|]. intros i Hi. rewrite list_lookup_insert, IH by done.
    destruct (decide (m = i /\ _)) as [[-> _]|Hn].
    + by rewrite decide_True by lia.
    + destruct (decide (i < m)%nat); [by rewrite decide_True by lia|by rewrite decide_False by lia].
  - split; [done|]. intros i Hi. rewrite IH by done. by rewrite !decide_True by lia.
Qed.

(** The kernel that looks up each request's last cached slot, in chunks of
    256 masked lanes, returns what the reference implementation returns. *)
Theorem get_last_loc_agree table idx pre_lens :
  length idx = length pre_lens ->
  get_last_loc_triton table idx pre_lens = get_last_loc_torch table idx pre_lens.
Proof.
  intros Hl. unfold get_last_loc_triton, get_last_loc_torch. set (n := length pre_lens) in *.
  set (f off := if 0 <? pre_lens !!! off
    then (table !!! (idx !!! off)) !!! Z.to_nat (pre_lens !!! off - 1) else -1).
  destruct (lanes_fill f n ((n + 255) / 256 * 256) (replicate n 0)) as [Hl' Hlk];
    [by rewrite length_replicate|].
  apply list_eq. intros i. destruct (decide (i < n)%nat) as [Hi|Hi].
  - etransitivity; [exact (Hlk i Hi)|].
    pose proof (Nat.div_mod (n + 255) 256 ltac:(done)).
    pose proof (Nat.mod_upper_bound (n + 255) 256 ltac:(done)).
    rewrite decide_True by lia. rewrite lookup_zip_with.
    rewrite (list_lookup_lookup_total_lt idx i), (list_lookup_lookup_total_lt pre_lens i) by lia. done.
  - rewrite !lookup_ge_None_2; [done| |].
    + rewrite length_zip_with. lia.
    + etransitivity; [apply Nat.eq_le_incl, Hl'|]. lia.
Qed.

Lemma get_last_loc_agree_witness :
  get_last_loc_triton [[3; 4]; [5; 6]] [1%nat; 0%nat] [2; 0] = [6; -1].
Proof. rewrite get_last_loc_agree; [reflexivity|reflexivity]. Defined.
