(* ===== verification/KvAccounting.v ===== *)
(** * Who holds which slot

    The accounting invariant of the scheduler's memory and its preservation by
    the operations of MemCommon: every KV slot is free, cached, or recorded for
    exactly one request, and every row of the table is free or belongs to
    exactly one request. *)

From S2P Require Import Prelude Allocator DllmReq MemCommon.

(** The slots recorded for a request, and its row. *)
Definition owned (table : list (list Z)) (r : req) : list Z :=
  match req_pool_idx (kvs r) with
  | Some i => take (Z.to_nat (kv_committed_len (kvs r))) (table !!! i)
  | None => []
  end.

Definition idx_of (r : req) : list nat :=
  match req_pool_idx (kvs r) with Some i => [i] | None => [] end.

Section holds.
Context {T : Type} `{!PrefixCache T}.

Record holds (slots : list Z) (m : mem T) (rs : list req) : Prop := Holds {
  h_slots : Token.pool (kv m) ++ cached (tree m) ++ (rs ≫= owned (req_to_token (rows m))) ≡ₚ slots;
  h_rows : free_slots (rows m) ++ (rs ≫= idx_of) ≡ₚ seq 0 (pool_size (rows m));
  h_len : length (req_to_token (rows m)) = pool_size (rows m);
  h_width i row : req_to_token (rows m) !! i = Some row -> length row = max_context_len (rows m);
  h_wf : Token.wf (kv m);
  h_cache : cache_ok (tree m);
}.

Lemma holds_perm slots m rs rs' : rs ≡ₚ rs' -> holds slots m rs -> holds slots m rs'.
Proof.
  intros Hp [Hs Hr Hl Hw Hwf Hck]. split; [|..|done|done|done|done].
  - by rewrite <- Hp.
  - by rewrite <- Hp.
Qed.

#[global] Instance holds_proper slots m : Proper ((≡ₚ) ==> iff) (holds slots m).
Proof. intros rs rs' Hp. split; apply holds_perm; [done|by symmetry]. Qed.

Lemma holds_row slots m rs r i :
  holds slots m rs -> r ∈ rs -> req_pool_idx (kvs r) = Some i ->
  exists row, req_to_token (rows m) !! i = Some row /\ length row = max_context_len (rows m).
Proof.
  intros Hh Hr Hi. assert (Hin : i ∈ seq 0 (pool_size (rows m))).
  { rewrite <- (h_rows _ _ _ Hh). apply elem_of_app. right. apply list_elem_of_bind.
    exists r. split; [|done]. unfold idx_of. rewrite Hi. by left. }
  apply elem_of_seq in Hin. destruct (lookup_lt_is_Some_2 (req_to_token (rows m)) i) as [row Hrow].
  { rewrite (h_len _ _ _ Hh). lia. }
  exists row. split; [done|]. by eapply h_width.
Qed.

(** *** Rows taken from the free list *)

Lemma take_slots_length reqs sel : length (take_slots reqs sel) = length reqs.
Proof.
  revert sel. induction reqs as [|r reqs IH]; intros sel; cbn; [done|].
  destruct (req_pool_idx (kvs r)), sel; cbn; by rewrite IH.
Qed.

Lemma take_slots_spec reqs sel :
  length sel = length (filter (fun r => needs_slot r = true) reqs) ->
  (take_slots reqs sel ≫= idx_of) ≡ₚ (reqs ≫= idx_of) ++ sel /\
  forall b r, reqs !! b = Some r -> exists i, take_slots reqs sel !! b = Some (set_pool_idx r (Some i)) /\
    (req_pool_idx (kvs r) = None \/ req_pool_idx (kvs r) = Some i).
Proof.
  revert sel. induction reqs as [|r reqs IH]; intros sel Hl.
  { destruct sel; [done|]. done. }
  rewrite filter_cons in Hl. cbn [take_slots].
  destruct (req_pool_idx (kvs r)) as [i|] eqn:Hi.
  - rewrite decide_False in Hl by (unfold needs_slot; by rewrite Hi). destruct (IH sel Hl) as [Hp Hlk].
    rewrite !bind_cons, Hp. split; [by rewrite app_assoc|].
    intros [|b] r' Hr'; [|by apply Hlk]. cbn in Hr'. injection Hr' as <-. exists i. cbn. split; [|by right].
    f_equal. destruct r as [? ? [] ?]. unfold set_pool_idx, set_kvs. cbn in *. by rewrite Hi.
  - rewrite decide_True in Hl by (unfold needs_slot; by rewrite Hi). destruct sel as [|j sel]; [done|].
    cbn in Hl. destruct (IH sel ltac:(lia)) as [Hp Hlk]. rewrite !bind_cons, Hp.
    split; [unfold idx_of at 1 3; cbn; rewrite Hi; solve_Permutation|].
    intros [|b] r' Hr'; [|by apply Hlk]. cbn in Hr'. injection Hr' as <-. exists j. by split; [|left].
Qed.

(** *** Updates that touch one request *)

(** The rows of the other requests of the same state are not this one's. *)
Lemma holds_other_row slots m r rs r' i :
  holds slots m (r :: rs) -> req_pool_idx (kvs r) = Some i -> r' ∈ rs -> req_pool_idx (kvs r') <> Some i.
Proof.
  intros Hh Hi Hr' Hi'. pose proof (NoDup_seq 0 (pool_size (rows m))) as Hnd.
  rewrite <- (h_rows _ _ _ Hh) in Hnd. apply NoDup_app in Hnd as (_ & _ & Hnd).
  rewrite bind_cons in Hnd. apply NoDup_app in Hnd as (_ & Hd & _). apply (Hd i).
  - unfold idx_of. rewrite Hi. by left.
  - apply list_elem_of_bind. exists r'. split; [|done]. unfold idx_of. rewrite Hi'. by left.
Qed.

(** Giving back the tail of a request's slots. *)
Lemma holds_trim slots a p t r rs i n :
  holds slots (Mem a p t) (r :: rs) -> req_pool_idx (kvs r) = Some i ->
  0 <= n <= kv_committed_len (kvs r) -> kv_committed_len (kvs r) <= Z.of_nat (max_context_len p) ->
  holds slots (Mem (Token.free (slice (req_to_token p !!! i) n (kv_committed_len (kvs r))) a) p t)
    (set_kv_lens r n n :: rs).
Proof.
  intros Hh Hi Hn Hc. destruct (holds_row _ _ _ r i Hh ltac:(by left) Hi) as (row & Hrow & Hlen).
  cbn in Hrow, Hlen. rewrite (list_lookup_total_correct _ _ _ Hrow).
  destruct Hh as [Hs Hr Hl Hw Hwf Hck]. cbn [kv rows tree] in *. split; cbn [kv rows tree]; try done.
  - rewrite <- Hs, Token.free_pool, !bind_cons. unfold owned at 1 3. cbn. rewrite Hi.
    rewrite (list_lookup_total_correct _ _ _ Hrow), slice_drop_take by (unfold len; lia).
    rewrite <- (take_drop (Z.to_nat n) (take (Z.to_nat (kv_committed_len (kvs r))) row)) at 2.
    rewrite take_take, Nat.min_l by lia. solve_Permutation.
  - by apply Token.free_wf.
Qed.
(** Releasing a finished request: its slots and its row are free again. *)
Lemma holds_release ps slots m r rs :
  holds slots m (r :: rs) -> is_Some (req_pool_idx (kvs r)) -> ps <= 1 ->
  kv_committed_freed (kvs r) = false -> kv_overallocated_freed (kvs r) = false ->
  cache_protected_len (kvs r) = 0 -> kv_committed_len (kvs r) = seqlen r ->
  kv_allocated_len (kvs r) = kv_committed_len (kvs r) ->
  exists r' m', release_kv_cache ps false false r m = Ok (r', m') /\
    holds slots m' (r' :: rs) /\ req_pool_idx (kvs r') = None /\ info r' = info r /\ out r' = out r /\
    inp r' = inp r /\ is_not_in_free_group (kv m') = is_not_in_free_group (kv m) /\
    max_context_len (rows m') = max_context_len (rows m) /\
    req_to_token (rows m') = req_to_token (rows m) /\
    cache_protected_len (kvs r') = cache_protected_len (kvs r).
Proof.
  intros Hh [i Hi] Hps Hcf Hof Hprot Hcl Hal. destruct m as [a p t].
  destruct (holds_row _ _ _ r i Hh ltac:(by left) Hi) as (row & Hrow & Hlen). cbn in Hrow, Hlen.
  assert (Hc0 : 0 <= kv_committed_len (kvs r)) by (rewrite Hcl; unfold seqlen, len; lia).
  pose proof (h_cache _ _ _ Hh) as Hck0. cbn [tree] in Hck0.
  destruct (finished_ok row r t a Hck0 Hcf) as (r1 & t' & a' & Hfin).
  destruct (finished_conserves _ _ _ _ _ _ _ Hck0 Hfin Hprot Hc0 Hcl) as (Hck' & Hcons & Hg & Hwf').
  destruct (finished_req _ _ _ _ _ _ _ Hfin) as [_ ->].
  unfold release_kv_cache. rewrite Hi. cbn [rows tree kv]. rewrite Hrow. cbn [of_option].
  step_ok. rewrite Hfin. step_ok.
  unfold pop_overallocated_kv_cache. cbn [kvs set_kvs kv_overallocated_freed]. rewrite Hof.
  cbn [negb py_assert]. step_ok.
  step_ok. unfold cache_commit_len. cbn [kvs set_kvs kv_committed_len kv_allocated_len].
  rewrite Hal, Z.eqb_refl. cbn [orb py_assert]. step_ok.
  rewrite (proj2 (Z.ltb_ge 1 ps)) by lia. rewrite Z.ltb_irrefl.
  unfold pool_free. cbn [kvs set_kvs req_pool_idx]. rewrite Hi.
  step_ok.
  do 2 eexists. split; [reflexivity|]. split; [|repeat split; exact Hg].
  destruct Hh as [Hs Hr Hl Hw Hwf Hck]. cbn [kv rows tree] in *. split; cbn [kv rows tree]; try done.
  - rewrite bind_cons. unfold owned at 1. cbn. rewrite bind_cons in Hs. unfold owned at 1 in Hs.
    rewrite Hi, (list_lookup_total_correct _ _ _ Hrow) in Hs.
    rewrite slice_to_take in Hcons by done. rewrite <- Hs.
    rewrite app_assoc, (Permutation_app_comm (Token.pool a')), Hcons. solve_Permutation.
  - rewrite bind_cons. unfold idx_of at 1. cbn. rewrite <- Hr, bind_cons. unfold idx_of at 2. rewrite Hi.
    cbn. solve_Permutation.
  - by apply Hwf'.
Qed.

(** *** Preparing a batch *)

(** A request whose next input continues the slots it already holds. *)
Definition extend_ready (m : mem T) (r : req) : Prop :=
  prefix_indices (inp r) = owned (req_to_token (rows m)) r /\
  len (prefix_indices (inp r)) + extend_input_len (inp r) = len (fill_ids (inp r)) /\
  0 <= extend_input_len (inp r) /\
  len (fill_ids (inp r)) <= Z.of_nat (max_context_len (rows m)) /\
  (0 < is_chunked (inp r) \/ 0 < kv_committed_len (kvs r) \/ req_pool_idx (kvs r) = None).

Lemma alloc_token_slots_spec n (s : T * allocator) loc t' a' :
  0 <= n -> Token.wf (snd s) -> cache_ok (fst s) -> alloc_token_slots n s = Ok (loc, (t', a')) ->
  len loc = n /\ cached (fst s) ++ Token.pool (snd s) ≡ₚ loc ++ cached t' ++ Token.pool a' /\
  Token.wf a' /\ cache_ok t' /\ is_not_in_free_group a' = is_not_in_free_group (snd s).
Proof.
  intros Hn Hwf Hck. destruct s as [t a]. cbn [fst snd] in *.
  assert (Hev : exists t1 a1, evict_from_tree_cache n (Token.available_size a) (t, a) = Ok (t1, a1) /\ cache_ok t1 /\
    cached t1 ++ Token.pool a1 ≡ₚ cached t ++ Token.pool a /\
    is_not_in_free_group a1 = is_not_in_free_group a /\ Token.wf a1).
  { unfold evict_from_tree_cache. cbn [fst]. destruct (is_chunk_cache t); [by exists t, a|].
    destruct (_ <? n); [|by exists t, a].
    destruct (evict_conserves n t a Hck) as (t1 & a1 & He & ? & ? & ? & Hw). exists t1, a1. repeat split; auto. }
  unfold alloc_token_slots. cbn [snd]. destruct Hev as (t1 & a1 & -> & Hck1 & Hc & Hg & Hwf1). step_ok.
  destruct (Token.alloc n a1) as [[l|] a2] eqn:Ha; [|done].
  intros [= <- <- <-]. pose proof (Token.alloc_wf _ _ _ _ Hwf1 Ha).
  apply Token.alloc_spec in Ha as ([Hp Hl] & _ & Hg2). split; [by apply Hl|]. split; [|split; [done|split; [done|congruence]]].
  rewrite <- Hc, Hp. solve_Permutation.
Qed.

Lemma concat_segments (el : list nat) (loc : list Z) :
  length loc = foldr Nat.add 0%nat el ->
  loc = seq 0 (length el) ≫= (fun b => take (el !!! b) (drop (foldr Nat.add 0%nat (take b el)) loc)).
Proof.
  intros Hl. rewrite <- (firstn_all loc) at 1. rewrite Hl, <- (firstn_all el) at 1.
  assert (Hk : forall k, (k <= length el)%nat ->
    take (foldr Nat.add 0%nat (take k el)) loc
    = seq 0 k ≫= (fun b => take (el !!! b) (drop (foldr Nat.add 0%nat (take b el)) loc))).
  { induction k as [|k IH]; intros Hk; [done|]. rewrite seq_S, bind_app, <- IH by lia.
    change ([?x] ≫= ?f) with (f x ++ []). rewrite app_nil_r, sum_take_S by lia. cbn [plus].
    by rewrite take_take_drop. }
  by apply Hk.
Qed.

Lemma idx_of_all (rs : list req) :
  (forall r, r ∈ rs -> is_Some (req_pool_idx (kvs r))) -> rs ≫= idx_of = pool_idx <$> rs.
Proof.
  induction rs as [|r rs IH]; intros Hr; [done|]. rewrite bind_cons, IH by (intros; apply Hr; by right).
  destruct (Hr r ltac:(by left)) as [i Hi]. unfold idx_of, pool_idx. rewrite fmap_cons, Hi. done.
Qed.

Lemma bind_seq_total {A B} `{Inhabited B} (f : B -> list A) (rs : list B) :
  rs ≫= f = seq 0 (length rs) ≫= (fun b => f (rs !!! b)).
Proof.
  rewrite <- (concat_imap_seq (fun _ => f)).
  induction rs as [|r rs IH]; [done|]. rewrite bind_cons, IH. done.
Qed.

Lemma mapM_commit (rs rs' : list req) :
  mapM commit_extend rs = Ok rs' ->
  rs' = (fun r => set_kv_lens r (len (fill_ids (inp r))) (len (fill_ids (inp r)))) <$> rs.
Proof.
  revert rs'. induction rs as [|r rs IH]; intros rs'; cbn [mapM]; [by intros [= <-]|].
  destruct (commit_extend r) as [r1|] eqn:Hc; [|discriminate].
  unfold commit_extend in Hc. destruct (py_assert _); [|discriminate]. injection Hc as <-.
  step_ok.
  destruct (mapM commit_extend rs) as [l|] eqn:Hm; [|done].
  step_ok. intros [= <-]. rewrite fmap_cons. f_equal. by apply IH.
Qed.

(** The rows a batch of requests has after it took slots. *)
Lemma batch_rows slots m reqs others sel rest :
  holds slots m (reqs ++ others) ->
  free_slots (rows m) = sel ++ rest ->
  length sel = length (filter (fun r => needs_slot r = true) reqs) ->
  let reqs1 := take_slots reqs sel in
  rest ++ ((reqs1 ++ others) ≫= idx_of) ≡ₚ seq 0 (pool_size (rows m)) /\
  reqs1 ≫= idx_of = pool_idx <$> reqs1 /\
  NoDup (pool_idx <$> reqs1) /\
  (forall r i, r ∈ others -> req_pool_idx (kvs r) = Some i -> i ∉ pool_idx <$> reqs1) /\
  (forall i, i ∈ pool_idx <$> reqs1 -> (i < pool_size (rows m))%nat).
Proof.
  intros Hh Hf Hl. cbn zeta. destruct (take_slots_spec reqs sel Hl) as [Hp Hlk].
  set (reqs1 := take_slots reqs sel) in *.
  assert (Hall : reqs1 ≫= idx_of = pool_idx <$> reqs1).
  { apply idx_of_all. intros r (b & Hb)%list_elem_of_lookup.
    destruct (lookup_lt_is_Some_2 reqs b) as [r0 Hr0].
    { rewrite <- (take_slots_length reqs sel). by eapply lookup_lt_Some. }
    destruct (Hlk b r0 Hr0) as (i & Hi & _). fold reqs1 in Hi. rewrite Hb in Hi. injection Hi as ->. by eexists. }
  assert (Hseq : rest ++ ((reqs1 ++ others) ≫= idx_of) ≡ₚ seq 0 (pool_size (rows m))).
  { rewrite <- (h_rows _ _ _ Hh), Hf, !bind_app, Hp. solve_Permutation. }
  split; [done|]. split; [done|].
  pose proof (NoDup_seq 0 (pool_size (rows m))) as Hnd. rewrite <- Hseq, bind_app, Hall in Hnd.
  apply NoDup_app in Hnd as (_ & _ & Hnd). apply NoDup_app in Hnd as (Hnd & Hd & _).
  split; [done|]. split.
  - intros r i Hr Hi Hin. apply (Hd i Hin). apply list_elem_of_bind. exists r. split; [|done].
    unfold idx_of. rewrite Hi. by left.
  - intros i Hi. assert (Hin : i ∈ seq 0 (pool_size (rows m))).
    { rewrite <- Hseq, bind_app, Hall, !elem_of_app. tauto. }
    apply elem_of_seq in Hin. lia.
Qed.

(** What prepare_for_extend leaves, request by request: its row holds the
    prefix it had followed by its part of the new slots. *)
Definition prepared (m' : mem T) (loc : list Z) (reqs reqs' : list req) : Prop :=
  length reqs' = length reqs /\
  (forall b r, reqs !! b = Some r -> exists i row,
     reqs' !! b = Some (set_kv_lens (set_pool_idx r (Some i)) (len (fill_ids (inp r))) (len (fill_ids (inp r)))) /\
     (req_pool_idx (kvs r) = None \/ req_pool_idx (kvs r) = Some i) /\
     req_to_token (rows m') !! i = Some row /\ length row = max_context_len (rows m') /\
     take (length (prefix_indices (inp r))) row = prefix_indices (inp r)) /\
  loc = seq 0 (length reqs) ≫= (fun b =>
     take (Z.to_nat (extend_input_len (inp (reqs !!! b))))
       (drop (length (prefix_indices (inp (reqs !!! b))))
          (req_to_token (rows m') !!! pool_idx (reqs' !!! b)))).

Lemma written_row_split (prefix seg row : list Z) :
  (length prefix + length seg <= length row)%nat ->
  let row' := list_inserts (length prefix) seg (list_inserts 0 prefix row) in
  take (length prefix) row' = prefix /\
  take (length seg) (drop (length prefix) row') = seg /\
  take (length prefix + length seg) row' = prefix ++ seg.
Proof.
  intros Hl. cbn zeta.
  assert (Hp : take (length prefix) (list_inserts 0 prefix row) = prefix).
  { pose proof (kept_extend row prefix 0 0 (length prefix)) as Hk. cbn in Hk.
    rewrite drop_0 in Hk. rewrite Hk by lia. apply firstn_all. }
  split; [by rewrite inserts_below by lia|].
  pose proof (kept_extend (list_inserts 0 prefix row) seg (length prefix) 0 (length seg)) as Hk.
  rewrite Nat.add_0_r in Hk. cbn [plus take app] in Hk. rewrite length_inserts, firstn_all in Hk.
  specialize (Hk ltac:(lia) ltac:(lia)). split; [done|].
  pose proof (kept_extend (list_inserts 0 prefix row) seg 0 (length prefix) (length seg)) as Hk2.
  rewrite !drop_0, length_inserts, firstn_all, Hp in Hk2. apply Hk2; cbn; lia.
Qed.

Lemma bind_ext_seq {A} (f g : nat -> list A) n :
  (forall b, (b < n)%nat -> f b = g b) -> seq 0 n ≫= f = seq 0 n ≫= g.
Proof.
  intros Hfg. induction n as [|n IH]; [done|]. rewrite seq_S, !bind_app, IH by (intros; apply Hfg; lia).
  f_equal. change ([?x] ≫= ?h) with (h x ++ []). cbn [plus]. by rewrite Hfg by lia.
Qed.

Lemma total_fmap {A B} `{Inhabited A, Inhabited B} (f : A -> B) (l : list A) b :
  (b < length l)%nat -> (f <$> l) !!! b = f (l !!! b).
Proof. apply list_lookup_total_fmap. Qed.

(** The batch's tensors, as prepare_for_extend builds them. *)
Definition pre_of (reqs : list req) : list nat :=
  Z.to_nat <$> ((fun r => len (prefix_indices (inp r))) <$> reqs).
Definition sl_of (reqs : list req) : list nat :=
  Z.to_nat <$> ((fun r => len (fill_ids (inp r))) <$> reqs).
Definition el_of (reqs : list req) : list nat :=
  Z.to_nat <$> ((fun r => extend_input_len (inp r)) <$> reqs).
Definition prefix_of_reqs (reqs : list req) : list (list Z) :=
  (fun r => prefix_indices (inp r)) <$> reqs.

Lemma batch_lookup reqs b :
  (b < length reqs)%nat ->
  pre_of reqs !!! b = length (prefix_indices (inp (reqs !!! b))) /\
  sl_of reqs !!! b = length (fill_ids (inp (reqs !!! b))) /\
  el_of reqs !!! b = Z.to_nat (extend_input_len (inp (reqs !!! b))) /\
  prefix_of_reqs reqs !!! b = prefix_indices (inp (reqs !!! b)).
Proof.
  intros Hb. unfold pre_of, sl_of, el_of, prefix_of_reqs.
  rewrite !total_fmap by (by rewrite ?length_fmap). unfold len. by rewrite !Nat2Z.id.
Qed.

(** A request whose input follows its prefix and fits a row of width [n]. *)
Definition row_fits (n : nat) (r : req) : Prop :=
  len (prefix_indices (inp r)) + extend_input_len (inp r) = len (fill_ids (inp r)) /\
  0 <= extend_input_len (inp r) /\ len (fill_ids (inp r)) <= Z.of_nat n.

Lemma ready_fits m r : extend_ready m r -> row_fits (max_context_len (rows m)) r.
Proof. intros (_ & H1 & H2 & H3 & _). done. Qed.

Lemma extend_total n reqs :
  (forall r, r ∈ reqs -> row_fits n r) ->
  foldr Z.add 0 (len <$> ((fun r => slice_from (fill_ids (inp r)) (len (prefix_indices (inp r)))) <$> reqs))
  = Z.of_nat (foldr Nat.add 0%nat (el_of reqs)).
Proof.
  unfold el_of. induction reqs as [|r reqs IH]; intros Hr; [done|]. rewrite !fmap_cons. cbn [foldr].
  rewrite IH by (intros; apply Hr; by right). destruct (Hr r ltac:(by left)) as (He & H0 & _).
  rewrite len_slice_from by (pose proof (len_nonneg (prefix_indices (inp r))); lia). lia.
Qed.

Lemma ready_shapes n table reqs idx loc :
  (forall r, r ∈ reqs -> row_fits n r) -> length idx = length reqs ->
  (forall i, i ∈ idx -> (i < length table)%nat) ->
  (forall i row, table !! i = Some row -> length row = n) ->
  len loc = Z.of_nat (foldr Nat.add 0%nat (el_of reqs)) ->
  write_shapes idx (prefix_of_reqs reqs) (pre_of reqs) (sl_of reqs) (el_of reqs) loc table.
Proof.
  intros Hr Hidx Hlt Hw Hloc. unfold write_shapes, pre_of, sl_of, el_of, prefix_of_reqs.
  rewrite !length_fmap. split; [done|]. split; [done|]. split; [done|]. split; [done|]. split.
  - rewrite Hidx. intros b Hb. destruct (batch_lookup reqs b Hb) as (Hpre & Hsl & Hel & Hpf).
    unfold pre_of, sl_of, el_of, prefix_of_reqs in Hpre, Hsl, Hel, Hpf. rewrite Hpre, Hsl, Hel, Hpf.
    destruct (Hr (reqs !!! b)) as (He & H0 & Hc).
    { eapply list_elem_of_lookup_2. by apply list_lookup_lookup_total_lt. }
    unfold len in He, Hc. split; [done|]. split; [lia|].
    destruct (lookup_lt_is_Some_2 table (idx !!! b)) as [row Hrow].
    { apply Hlt. eapply list_elem_of_lookup_2. apply list_lookup_lookup_total_lt. lia. }
    exists row. split; [done|]. rewrite (Hw _ _ Hrow). lia.
  - unfold len in Hloc. fold (el_of reqs). lia.
Qed.

(** The rows of the batch after the kernel ran on the allocated slots. *)
Lemma kernel_rows n table reqs idx loc :
  (forall r, r ∈ reqs -> row_fits n r) -> length idx = length reqs -> NoDup idx ->
  (forall i, i ∈ idx -> (i < length table)%nat) ->
  (forall i row, table !! i = Some row -> length row = n) ->
  len loc = Z.of_nat (foldr Nat.add 0%nat (el_of reqs)) ->
  let table' := write_kernel idx (prefix_of_reqs reqs) (pre_of reqs) (sl_of reqs) (el_of reqs) loc
                  table in
  length table' = length table /\
  (forall i row, table' !! i = Some row -> length row = n) /\
  (forall j, j ∉ idx -> table' !! j = table !! j) /\
  (forall b, (b < length reqs)%nat -> exists row,
     let r := reqs !!! b in
     let seg := take (el_of reqs !!! b) (drop (foldr Nat.add 0%nat (take b (el_of reqs))) loc) in
     table' !! (idx !!! b) = Some row /\
     length seg = Z.to_nat (extend_input_len (inp r)) /\
     take (length (prefix_indices (inp r))) row = prefix_indices (inp r) /\
     take (Z.to_nat (extend_input_len (inp r))) (drop (length (prefix_indices (inp r))) row) = seg /\
     take (length (fill_ids (inp r))) row = prefix_indices (inp r) ++ seg).
Proof.
  intros Hr Hidx Hnd Hlt Hw Hloc. cbn zeta.
  pose proof (ready_shapes n table reqs idx loc Hr Hidx Hlt Hw Hloc) as Hsh.
  destruct (write_kernel_rows _ _ _ _ _ _ _ Hsh Hnd (rectangular_of n _ Hw)) as (Hl & Hin & Hout).
  set (table' := write_kernel _ _ _ _ _ _ _) in *. split; [done|].
  assert (Hone : forall b, (b < length reqs)%nat -> exists row0,
    table !! (idx !!! b) = Some row0 /\
    table' !! (idx !!! b) = Some (written_row (prefix_of_reqs reqs) (pre_of reqs) (el_of reqs) loc b row0)).
  { intros b Hb. rewrite Hin by lia. destruct Hsh as (_ & _ & _ & _ & Hs & _).
    destruct (Hs b ltac:(lia)) as (_ & _ & row0 & Hrow0 & _). exists row0. by rewrite Hrow0. }
  split; [|split; [done|]].
  - intros i row Hi. destruct (decide (i ∈ idx)) as [(b & Hb)%list_elem_of_lookup|Hn].
    + destruct (Hone b) as (row0 & H0 & H1); [rewrite <- Hidx; by eapply lookup_lt_Some|].
      apply list_lookup_total_correct in Hb. subst i. rewrite Hi in H1. injection H1 as ->.
      unfold written_row. rewrite !length_inserts. by eapply Hw.
    + rewrite Hout in Hi by done. by eapply Hw.
  - intros b Hb. destruct (Hone b Hb) as (row0 & H0 & H1). eexists. split; [exact H1|].
    destruct (batch_lookup reqs b Hb) as (Hpre & Hsl & Hel & Hpf).
    destruct (Hr (reqs !!! b)) as (He & Hn0 & Hc).
    { eapply list_elem_of_lookup_2. by apply list_lookup_lookup_total_lt. }
    set (seg := take (el_of reqs !!! b) _) in *.
    assert (Hseg : length seg = Z.to_nat (extend_input_len (inp (reqs !!! b)))).
    { subst seg. rewrite length_take, length_drop, Hel.
      assert ((foldr Nat.add 0 (take b (el_of reqs)) + el_of reqs !!! b <= length loc)%nat).
      { assert (Hll : length loc = foldr Nat.add 0%nat (el_of reqs)) by (unfold len in Hloc; lia).
        rewrite Hll, <- sum_take_S by (unfold el_of; rewrite !length_fmap; lia). apply sum_take_le. }
      rewrite Hel in *. lia. }
    split; [done|]. unfold written_row. fold seg. rewrite Hpre, Hpf.
    destruct (written_row_split (prefix_indices (inp (reqs !!! b))) seg row0) as (H2 & H3 & H4).
    { rewrite Hseg, (Hw _ _ H0). unfold len in *. lia. }
    split; [done|]. rewrite <- Hseg. split; [done|]. rewrite <- H4. f_equal. unfold len in *. lia.
Qed.

Lemma prepare_spec masked oob empty slots m reqs others eb m' :
  holds slots m (reqs ++ others) -> (forall r, r ∈ reqs -> extend_ready m r) ->
  prepare_for_extend 1 masked oob empty reqs m = Ok (eb, m') ->
  holds slots m' (eb_reqs eb ++ others) /\
  prepared m' (eb_out_cache_loc eb) reqs (eb_reqs eb) /\
  (forall r, r ∈ others -> owned (req_to_token (rows m')) r = owned (req_to_token (rows m)) r) /\
  is_not_in_free_group (kv m') = is_not_in_free_group (kv m) /\
  max_context_len (rows m') = max_context_len (rows m).
Proof.
  intros Hh Hready. unfold prepare_for_extend, alloc_for_extend, alloc_req_slots, pool_alloc. cbn zeta.
  destruct (py_assert _) as [u|]; [|discriminate]. step_ok.
  set (need := length (filter (fun r => needs_slot r = true) reqs)).
  destruct (Nat.ltb_spec (length (free_slots (rows m))) need) as [|Hneed]; [discriminate|].
  step_ok. cbn [of_option]. step_ok.
  change (1 =? 1) with true. cbn iota. rewrite (extend_total (max_context_len (rows m))) by (intros; by apply ready_fits, Hready).
  destruct (alloc_token_slots _ _) as [[loc [t a]]|] eqn:Ht; [|discriminate].
  step_ok. step_ok.
  destruct (batch_rows slots m reqs others (take need (free_slots (rows m))) (drop need (free_slots (rows m))))
    as (Hseq & Hall & Hnd & Hoth & Hlt); [done|by rewrite take_drop|rewrite length_take; lia|].
  destruct (take_slots_spec reqs (take need (free_slots (rows m)))) as [_ Htk]; [rewrite length_take; lia|].
  pose proof (take_slots_length reqs (take need (free_slots (rows m)))) as Hlen1.
  set (reqs1 := take_slots reqs _) in *.
  destruct (mapM commit_extend reqs1) as [reqs2|] eqn:Hm; [|discriminate].
  step_ok. intros [= <- <-]. apply mapM_commit in Hm.
  apply alloc_token_slots_spec in Ht as (Hll & Hpool & Hwf & Hck & Hg); [|lia|apply Hh|apply Hh]. cbn [fst snd] in *.
  destruct (kernel_rows (max_context_len (rows m)) (req_to_token (rows m)) reqs (pool_idx <$> reqs1) loc) as (Htl & Htw & Hto & Htb);
    [intros; by apply ready_fits, Hready|by rewrite length_fmap|done|intros i Hi; rewrite (h_len _ _ _ Hh); by apply Hlt
    |by apply Hh|done|].
  unfold pre_of, sl_of, el_of, prefix_of_reqs in Htl, Htw, Hto, Htb.
  cbn [req_to_token set_free_slots].
  set (table' := write_kernel _ _ _ _ _ _ _) in *. clearbody table'.
  cbn [eb_reqs eb_out_cache_loc].
  set (seg b := take (el_of reqs !!! b) (drop (foldr Nat.add 0%nat (take b (el_of reqs))) loc)).
  assert (Hfact : forall b r, reqs !! b = Some r -> exists i row,
     reqs2 !! b = Some (set_kv_lens (set_pool_idx r (Some i)) (len (fill_ids (inp r))) (len (fill_ids (inp r)))) /\
     (req_pool_idx (kvs r) = None \/ req_pool_idx (kvs r) = Some i) /\ table' !! i = Some row /\
     take (length (prefix_indices (inp r))) row = prefix_indices (inp r) /\
     take (Z.to_nat (extend_input_len (inp r))) (drop (length (prefix_indices (inp r))) row) = seg b /\
     take (length (fill_ids (inp r))) row = prefix_indices (inp r) ++ seg b).
  { intros b r Hb. pose proof (lookup_lt_Some _ _ _ Hb) as Hblt.
    destruct (Htk b r Hb) as (i & Hi & Hor). destruct (Htb b Hblt) as (row & Hrow & _ & Hfs).
    rewrite (list_lookup_total_correct _ _ _ Hb) in Hfs.
    assert (Hix : (pool_idx <$> reqs1) !!! b = i).
    { apply list_lookup_total_correct. rewrite list_lookup_fmap. fold reqs1 in Hi. by rewrite Hi. }
    rewrite Hix in Hrow. exists i, row. split; [|by split].
    rewrite Hm, list_lookup_fmap. fold reqs1 in Hi. by rewrite Hi. }
  assert (Hl2 : length reqs2 = length reqs) by (by rewrite Hm, length_fmap).
  assert (Hothers : forall r, r ∈ others -> owned table' r = owned (req_to_token (rows m)) r).
  { intros r Hr. unfold owned. destruct (req_pool_idx (kvs r)) as [j|] eqn:Hj; [|done].
    f_equal. rewrite !list_lookup_total_alt. f_equal. apply Hto. by eapply Hoth. }
  assert (Hlocseg : loc = seq 0 (length reqs) ≫= seg).
  { pose proof (concat_segments (el_of reqs) loc) as Hcs.
    assert (Hel : length (el_of reqs) = length reqs) by (unfold el_of; by rewrite !length_fmap).
    rewrite Hel in Hcs. apply Hcs. unfold len in Hll. lia. }
  assert (Howned : reqs2 ≫= owned table' ≡ₚ (reqs ≫= owned (req_to_token (rows m))) ++ loc).
  { rewrite (bind_seq_total (owned table') reqs2), Hl2, (bind_seq_total (owned _) reqs), Hlocseg.
    rewrite <- bind_app_perm. apply bind_perm_ext. intros b Hb%elem_of_seq.
    destruct (lookup_lt_is_Some_2 reqs b ltac:(lia)) as [r Hr].
    destruct (Hfact b r Hr) as (i & row & Hr2 & _ & Hrow & _ & _ & Htake).
    rewrite (list_lookup_total_correct _ _ _ Hr2), (list_lookup_total_correct _ _ _ Hr).
    unfold owned at 1. cbn. rewrite (list_lookup_total_correct _ _ _ Hrow).
    unfold len. rewrite Nat2Z.id, Htake.
    destruct (Hready r) as (<- & _); [by eapply list_elem_of_lookup_2|]. done. }
  assert (Hothb : others ≫= owned table' = others ≫= owned (req_to_token (rows m))).
  { clear -Hothers. induction others as [|r o IH]; [done|]. rewrite !bind_cons, Hothers by (by left).
    f_equal. apply IH. intros. apply Hothers. by right. }
  split; [|split; [|split; [exact Hothers|split; [exact Hg|done]]]].
  - split; cbn [kv rows tree set_table set_free_slots free_slots req_to_token pool_size max_context_len].
    + rewrite bind_app, Howned, Hothb. rewrite <- (h_slots _ _ _ Hh), bind_app.
      rewrite (app_assoc (Token.pool (kv m))), (Permutation_app_comm (Token.pool (kv m))), Hpool.
      solve_Permutation.
    + rewrite <- Hseq, !bind_app. f_equiv. f_equiv. rewrite Hm. clear.
      induction reqs1 as [|r l IH]; [done|]. rewrite fmap_cons, !bind_cons, IH. done.
    + rewrite Htl. apply Hh.
    + exact Htw.
    + done.
    + done.
  - split; [done|]. split.
    + intros b r Hr. destruct (Hfact b r Hr) as (i & row & Hr2 & Hor & Hrow & Hpf & _).
      exists i, row. split; [done|]. split; [done|]. split; [done|]. split; [by eapply Htw|done].
    + rewrite Hlocseg at 1. apply bind_ext_seq. intros b Hb.
      destruct (lookup_lt_is_Some_2 reqs b ltac:(lia)) as [r Hr].
      destruct (Hfact b r Hr) as (i & row & Hr2 & _ & Hrow & _ & Hsg & _).
      rewrite (list_lookup_total_correct _ _ _ Hr2), (list_lookup_total_correct _ _ _ Hr). cbn.
      rewrite (list_lookup_total_correct _ _ _ Hrow). done.
Qed.

Lemma prepare_fields ps masked oob empty reqs (m : mem T) eb m' :
  prepare_for_extend ps masked oob empty reqs m = Ok (eb, m') ->
  eb_input_ids eb = concat ((fun r => slice_from (fill_ids (inp r)) (len (prefix_indices (inp r)))) <$> reqs) /\
  eb_prefix_lens eb = (fun r => len (prefix_indices (inp r))) <$> reqs /\
  eb_extend_lens eb = (fun r => extend_input_len (inp r)) <$> reqs /\
  eb_req_pool_indices eb = pool_idx <$> eb_reqs eb /\
  eb_seq_lens eb = (fun r => len (fill_ids (inp r))) <$> reqs.
Proof.
  unfold prepare_for_extend. cbn zeta. destruct (alloc_for_extend _ _ _ _ _ _ _ _ _ _) as [[[loc reqs1] m1]|]; [|discriminate].
  step_ok. destruct (mapM commit_extend reqs1) as [reqs2|]; [|discriminate].
  step_ok. by intros [= <- <-].
Qed.
End holds.
