(* ===== verification/DllmScheduler.v ===== *)
(** * The diffusion scheduler

    SchedulerDllmMixin and DllmManager of srt/dllm/mixin/scheduler.py with the
    part of Scheduler.get_next_batch_to_run (srt/managers/scheduler.py) that
    drives them.

    Requests are shared objects: the scheduler's queue, the manager's two queues
    and the batch in flight all refer to the same requests.  They live in one
    store [objs], and the queues hold their ids.

    The running batch of a diffusion server is always empty: every request of
    the last batch is excluded from the merge into it.  Priority scheduling is
    off, as is pipeline parallelism.  Profiling timers and metrics are left
    out. *)

From S2P Require Import Prelude Allocator DllmReq PrefillAdder MemCommon KvAccounting.

(** ** DllmManager *)

Record manager := Manager { waiting : list Z; staging : list Z }.

Inductive forward_mode := EXTEND | DLLM_EXTEND.
#[global] Instance forward_mode_eq_dec : EqDecision forward_mode.
Proof. solve_decision. Defined.

Notation store := (gmap Z req).

Section manager.
Implicit Types (objs : store) (g : manager).

Definition is_prefill objs (i : Z) : bool := is_dllm_prefill (objs !!! i).
Definition is_finished objs (i : Z) : bool := finished (objs !!! i).
Definition has_phase objs (p : dllm_phase) (i : Z) : bool :=
  bool_decide (phase (inp (objs !!! i)) = Some p).

Definition get_prefill_requests objs g : list Z := filter (fun i => is_prefill objs i = true) (waiting g).
Definition get_decode_requests objs g : list Z := filter (fun i => is_prefill objs i = false) (waiting g).

Definition has_duplicate_reqs (reqs : list Z) g : bool :=
  existsb (fun i => bool_decide (i ∈ waiting g)) reqs.

Definition add_waiting_reqs (reqs : list Z) g : res manager :=
  if has_duplicate_reqs reqs g then Raise RuntimeError
  else Ok (Manager (waiting g ++ reqs) (staging g)).

Definition add_staging_reqs (reqs : list Z) g : manager := Manager (waiting g) (staging g ++ reqs).
Definition any_staging_reqs g : bool := (0 <? len (staging g)).
Definition is_empty g : bool := bool_decide (waiting g = []).

Definition increment_chunked_count objs g : store :=
  foldl (fun objs i => <[i := set_is_chunked (objs !!! i) (is_chunked (inp (objs !!! i)) + 1)]> objs)
    objs (staging g).

Definition filter_finished_reqs objs g : manager :=
  Manager (filter (fun i => is_finished objs i = false) (waiting g))
          (filter (fun i => is_finished objs i = false) (staging g)).
End manager.

(** ** The scheduler *)

Section scheduler.
Context {T : Type} `{!PrefixCache T}.

Record sched := Sched {
  objs : store;
  waiting_queue : list Z;
  mgr : manager;
  batch_is_full : bool;
  smem : mem T;
  num_generated_tokens : Z;
}.

Definition set_objs (s : sched) (o : store) : sched :=
  Sched o (waiting_queue s) (mgr s) (batch_is_full s) (smem s) (num_generated_tokens s).
Definition set_mgr (s : sched) (g : manager) : sched :=
  Sched (objs s) (waiting_queue s) g (batch_is_full s) (smem s) (num_generated_tokens s).
Definition set_full (s : sched) (b : bool) : sched :=
  Sched (objs s) (waiting_queue s) (mgr s) b (smem s) (num_generated_tokens s).
Definition set_mem (s : sched) (m : mem T) : sched :=
  Sched (objs s) (waiting_queue s) (mgr s) (batch_is_full s) m (num_generated_tokens s).
Definition set_queue (s : sched) (q : list Z) : sched :=
  Sched (objs s) q (mgr s) (batch_is_full s) (smem s) (num_generated_tokens s).

(** Server settings: the configuration, the request limit per micro-batch, the
    prefill budgets, the policy that reorders the waiting queue, the prefix
    cache's match_prefix, and the answers of tokenizer and grammar. *)
Record settings := Settings {
  cfg : dllm_config;
  clip_max_new_tokens : Z;
  pp_max_micro_batch_size : Z;
  max_prefill_tokens : Z;
  chunked_prefill_size : option Z;
  page : Z;
  strip_thinking : bool;
  calc_priority : store -> list Z -> list Z;
  match_prefix : T -> list Z -> list Z * option Z;
  str_finish : req -> option finish_reason;
  grammar_terminated : req -> bool;
}.

Context (se : settings) (masked : lanes) (oob : Z -> Z) (empty : Z -> list Z).

Definition avail (m : mem T) : Z := Token.available_size (kv m) + evictable_size (tree m).

(** get_num_allocatable_reqs with an empty running batch. *)
Definition get_num_allocatable_reqs : Z := pp_max_micro_batch_size se.

(** _prepare_staging_reqs, for one request *)
Definition prepare_staging_req (table : list (list Z)) (r : req) : res req :=
  r ← init_next_round_input (cfg se) None r;
  match req_pool_idx (kvs r) with
  | Some i =>
      if 0 <? kv_committed_len (kvs r) then
        let kv_len := kv_committed_len (kvs r) in
        let r := set_prefix_indices r (slice_to (table !!! i) kv_len) in
        let r := determine_dllm_phase (cfg se) r in
        Ok (set_extend_input_len r (len (fill_ids (inp r)) - len (prefix_indices (inp r))))
      else Ok r
  | None => Ok r
  end.

Definition prepare_staging_reqs (s : sched) : res sched :=
  o ← foldM (fun o i =>
        r ← prepare_staging_req (req_to_token (rows (smem s))) (o !!! i);
        Ok (<[i := r]> o)) (objs s) (staging (mgr s));
  Ok (set_mgr (set_objs s o) (Manager (waiting (mgr s)) [])).

Definition fetch_waiting_reqs (s : sched) : res sched :=
  let max_dllm_capacity := max_running_requests (cfg se) - len (waiting (mgr s)) in
  let num_requests_to_add := Z.min max_dllm_capacity (len (waiting_queue s)) in
  if 0 <? num_requests_to_add then
    g ← add_waiting_reqs (slice_to (waiting_queue s) num_requests_to_add) (mgr s);
    Ok (set_queue (set_mgr s g) (slice_from (waiting_queue s) num_requests_to_add))
  else Ok s.

Definition should_skip_prefill (s : sched) : bool * sched :=
  if (batch_is_full s || bool_decide (waiting_queue s = [])) && is_empty (mgr s) then (true, s)
  else if (get_num_allocatable_reqs <=? 0) && is_empty (mgr s) then (true, set_full s true)
  else (false, s).

Definition create_dllm_prefill_adder : adder :=
  PrefillAdder.init (page se) (max_prefill_tokens se) (chunked_prefill_size se) 0 0 (Some (cfg se)).

(** _process_incoming_prefill_reqs: a loop that stops at the first request it
    cannot admit. *)
Fixpoint process_incoming_prefill_reqs (reqs : list Z) (s : sched) (a : adder) : sched * adder :=
  match reqs with
  | [] => (s, a)
  | i :: reqs =>
      let s := if get_num_allocatable_reqs <=? len (can_run_list a) then set_full s true else s in
      if batch_is_full s then (s, a) else
      let r := init_prompt_cache_input (objs s !!! i) in
      let s := set_objs s (<[i := r]> (objs s)) in
      match add_dllm_prompt_cache_req (clip_max_new_tokens se) (avail (smem s)) r a with
      | (CONTINUE, a) => process_incoming_prefill_reqs reqs s a
      | (NO_TOKEN, a) => (set_full s true, a)
      | (OTHER, a) => (s, a)
      end
  end.

(** process_dllm_staging_reqs *)
Fixpoint process_dllm_staging_reqs (reqs : list Z) (s : sched) (a : adder)
    : res (AddReqResult * sched * adder) :=
  match reqs with
  | [] => Ok (CONTINUE, s, a)
  | i :: reqs =>
      '(res, r, a) ← add_dllm_staging_req (clip_max_new_tokens se) (avail (smem s)) (objs s !!! i) a;
      let s := set_objs s (<[i := r]> (objs s)) in
      match res with
      | NO_TOKEN => Ok (NO_TOKEN, s, a)
      | _ => process_dllm_staging_reqs reqs s a
      end
  end.

(** process_dllm_incoming_reqs *)
Fixpoint process_dllm_incoming_reqs (reqs : list Z) (s : sched) (a : adder)
    : res (sched * adder) :=
  match reqs with
  | [] => Ok (s, a)
  | i :: reqs =>
      let s := if get_num_allocatable_reqs <=? len (can_run_list a) then set_full s true else s in
      if batch_is_full s then Ok (s, a) else
      r ← init_next_round_input (cfg se) (Some (match_prefix se (tree (smem s)))) (objs s !!! i);
      '(res, r, a) ← add_one_req (clip_max_new_tokens se) (avail (smem s)) (avail (smem s)) None None r a;
      let s := set_objs s (<[i := r]> (objs s)) in
      match res with
      | CONTINUE => process_dllm_incoming_reqs reqs s a
      | NO_TOKEN => Ok (set_full s true, a)
      | OTHER => Ok (s, a)
      end
  end.

Definition process_batch_by_phase (batch : list Z) (staging_phase incoming_phase : dllm_phase)
    (s : sched) (a : adder) : res (sched * adder) :=
  let staging_reqs := filter (fun i => has_phase (objs s) staging_phase i = true) batch in
  '(res, s, a) ← process_dllm_staging_reqs staging_reqs s a;
  match res with
  | CONTINUE =>
      let incoming_reqs := filter (fun i => has_phase (objs s) incoming_phase i = true) batch in
      process_dllm_incoming_reqs incoming_reqs s a
  | _ => Ok (s, a)
  end.

Definition process_dllm_batches (s : sched) (a : adder) : res (forward_mode * sched * adder) :=
  let incoming_prefill := filter (fun i => has_phase (objs s) INCOMING_PREFILL i = true) (waiting (mgr s)) in
  match incoming_prefill with
  | _ :: _ =>
      let '(s, a) := process_incoming_prefill_reqs incoming_prefill s a in
      Ok (EXTEND, s, a)
  | [] =>
      let prefill_reqs := get_prefill_requests (objs s) (mgr s) in
      '(s, a) ← match prefill_reqs with
                | _ :: _ => process_batch_by_phase prefill_reqs STAGING_PREFILL INCOMING_PREFILL s a
                | [] => process_batch_by_phase (get_decode_requests (objs s) (mgr s))
                          STAGING_DECODE INCOMING_DECODE s a
                end;
      Ok (DLLM_EXTEND, s, a)
  end.

(** _update_state_for_batch; nothing is preempted. *)
Definition update_state_for_batch (can_run : list Z) (s : sched) : sched :=
  let g := add_staging_reqs can_run (mgr s) in
  set_mgr (set_objs s (increment_chunked_count (objs s) g)) g.

(** The requests of a batch, written back after they changed. *)
Definition write_back (ids : list Z) (reqs : list req) (o : store) : store :=
  foldl (fun o '(i, r) => <[i := r]> o) o (zip ids reqs).

(** _create_dllm_batch *)
Definition create_dllm_batch (can_run : list Z) (s : sched) : res (extend_batch * sched) :=
  '(eb, m) ← prepare_for_extend (page se) masked oob empty ((fun i => objs s !!! i) <$> can_run) (smem s);
  Ok (eb, set_mem (set_objs s (write_back can_run (eb_reqs eb) (objs s))) m).

Definition get_new_batch_dllm (s : sched) : res (option (list Z * extend_batch * forward_mode) * sched) :=
  let '(skip, s) := should_skip_prefill s in
  if skip then Ok (None, s) else
  let s := set_queue s (calc_priority se (objs s) (waiting_queue s)) in
  let a := create_dllm_prefill_adder in
  s ← prepare_staging_reqs s;
  s ← fetch_waiting_reqs s;
  '(mode, s, a) ← process_dllm_batches s a;
  match can_run_list a with
  | [] => Ok (None, s)
  | can_run =>
      let s := update_state_for_batch can_run s in
      '(eb, s) ← create_dllm_batch can_run s;
      Ok (Some (can_run, eb, mode), s)
  end.

(** The diffusion branch of get_next_batch_to_run. *)
Definition get_next_batch_to_run (last_batch_filtered : bool) (s : sched)
    : res (option (list Z * extend_batch * forward_mode) * sched) :=
  let s := set_mgr s (filter_finished_reqs (objs s) (mgr s)) in
  let s := if last_batch_filtered then set_full s false else s in
  get_new_batch_dllm s.

(** ** process_batch_result_dllm *)

(** TiDAR frees rejected slots itself. *)
Definition tidar_manages_kv : bool :=
  bool_decide (algorithm (cfg se) = "TiDAR"%string) || bool_decide (algorithm (cfg se) = "tidar"%string).

(** Give back the last [rejected] slots of a request's committed range. *)
Definition drop_rejected (rejected : Z) (r : req) (m : mem T) : req * mem T :=
  let free_start := kv_committed_len (kvs r) - rejected in
  let free_end := kv_committed_len (kvs r) in
  let m := if tidar_manages_kv then m
           else Mem (Token.free (slice (req_to_token (rows m) !!! pool_idx r) free_start free_end) (kv m))
                    (rows m) (tree m) in
  (set_kv_lens r free_start free_start, m).

(** [fill_ids[-n:] = toks] for [n = len(toks)] *)
Definition assign_tail (fill toks : list Z) : list Z := take (length fill - length toks) fill ++ toks.

Definition extend_output (toks : list Z) (r : req) : req :=
  let o := out r in
  set_out r (ReqOut (output_ids o ++ toks) (channels o) (finished_reason o)
    (finished_len o) (to_finish o)).

(** What the algorithm may attach to its result, per request. *)
Record lp_result := LpResult {
  next_token_logprobs : option (list (list Z));
  next_token_reveal_steps : option (list (list Z));
  next_token_entropy : option (list (list Z));
}.

(** A channel that is optional on both sides. *)
Definition extend_optional (attached : option (list (list Z))) (idx : nat) (channel : option (list Z))
    : res (option (list Z)) :=
  match attached, channel with
  | Some l, Some c => x ← of_option IndexError (l !! idx); Ok (Some (c ++ x))
  | _, _ => Ok channel
  end.

Definition extend_logprobs (lps : lp_result) (idx : nat) (toks : list Z) (r : req) : res req :=
  match next_token_logprobs lps with
  | Some l =>
      if return_logprob (info r) then
        token_logprobs ← of_option IndexError (l !! idx);
        if len token_logprobs =? len toks then
          let o := out r in
          let c := channels o in
          reveal ← extend_optional (next_token_reveal_steps lps) idx (output_token_reveal_steps c);
          entropy ← extend_optional (next_token_entropy lps) idx (output_token_entropy_val c);
          let blank := replicate (length toks) [] in
          let top l := if wants_top_logprobs (info r) then l ++ blank else l in
          let ids l := if wants_token_ids_logprob (info r) then l ++ blank else l in
          Ok (set_out r (ReqOut (output_ids o)
                (LpChannels (output_token_logprobs_val c ++ token_logprobs)
                   (output_token_logprobs_idx c ++ toks) reveal entropy
                   (top (output_top_logprobs_val c)) (top (output_top_logprobs_idx c))
                   (ids (output_token_ids_logprobs_val c)) (ids (output_token_ids_logprobs_idx c)))
                (finished_reason o) (finished_len o) (to_finish o)))
        else Raise RuntimeError
      else Ok r
  | None => Ok r
  end.

Definition round_finished_len (r : req) : req :=
  match finished_len (out r) with
  | Some n =>
      if finished r && emit_full_blocks (cfg se) then
        let bs := block_size (cfg se) in
        let o := out r in
        set_out r (ReqOut (output_ids o) (channels o) (finished_reason o)
          (Some (Z.min (- ((- n) / bs) * bs) (len (output_ids o)))) (to_finish o))
      else r
  | None => r
  end.

(** One request's share of the result. *)
Definition process_one (toks : list Z) (lps : lp_result) (idx : nat) (r : req) (m : mem T)
    : res (req * mem T) :=
  let new_tokens := len toks in
  if new_tokens =? 0 then Ok (drop_rejected (block_size (cfg se)) r m) else
  let r := set_fill_ids r (assign_tail (fill_ids (inp r)) toks) in
  let r := extend_output toks r in
  r ← extend_logprobs lps idx toks r;
  let '(r, m) := if new_tokens <? block_size (cfg se)
                 then drop_rejected (block_size (cfg se) - new_tokens) r m else (r, m) in
  let r := round_finished_len (check_finished (str_finish se) (grammar_terminated se) new_tokens r) in
  if finished r then release_kv_cache (page se) (strip_thinking se) false r m else Ok (r, m).

Definition process_batch_result_dllm (ids : list Z) (mode : forward_mode)
    (next_token_ids : list (list Z)) (logprobs : lp_result) (s : sched) : res sched :=
  match mode with
  | EXTEND => Ok (set_objs s (foldl (fun o i => <[i := set_fill_ids (o !!! i) []]> o) (objs s) ids))
  | DLLM_EXTEND =>
      match next_token_ids with
      | [] => Ok s
      | _ =>
          let begin_ := Mem (free_group_begin (kv (smem s))) (rows (smem s)) (tree (smem s)) in
          s ← foldM (fun s idx =>
                let i := ids !!! idx in
                toks ← of_option IndexError (next_token_ids !! idx);
                '(r, m) ← process_one toks logprobs idx (objs s !!! i) (smem s);
                Ok (Sched (<[i := r]> (objs s)) (waiting_queue s) (mgr s) (batch_is_full s) m
                      (num_generated_tokens s + len toks)))
              (set_mem s begin_) (seq 0 (length ids));
          Ok (set_mem s (Mem (Token.free_group_end (kv (smem s))) (rows (smem s)) (tree (smem s))))
      end
  end.
End scheduler.
