(* ===== verification/DllmSchedulerProofs.v ===== *)
(** * The diffusion scheduler never loses a KV slot

    The interface between the scheduler and a decoding algorithm, the invariant
    of the scheduler's state, and its preservation by every round, whatever
    requests arrive and whatever the algorithm commits. *)

From S2P Require Import Prelude Allocator DllmReq PrefillAdder MemCommon KvAccounting DllmScheduler.

(** ** What the scheduler relies on of an algorithm *)

(** A batch of whole blocks: distinct rows of the table, wide enough, whose new
    slots are the ones recorded after each prefix. *)
Record block_batch (bs width : nat) (eb : extend_batch) (table : list (list Z)) : Prop := BlockBatch {
  bb_idx : NoDup (eb_req_pool_indices eb);
  bb_pre : length (eb_prefix_lens eb) = length (eb_req_pool_indices eb);
  bb_seq : length (eb_seq_lens eb) = length (eb_req_pool_indices eb);
  bb_some : (0 < length (eb_req_pool_indices eb))%nat;
  bb_input : length (eb_input_ids eb) = (length (eb_req_pool_indices eb) * bs)%nat;
  bb_row b : (b < length (eb_req_pool_indices eb))%nat -> exists row,
    table !! (eb_req_pool_indices eb !!! b) = Some row /\
    0 <= eb_prefix_lens eb !!! b /\ (Z.to_nat (eb_prefix_lens eb !!! b) + width <= length row)%nat;
  bb_rect : rectangular table;
  bb_loc : eb_out_cache_loc eb = seq 0 (length (eb_req_pool_indices eb)) ≫= (fun b =>
    take bs (drop (Z.to_nat (eb_prefix_lens eb !!! b)) (table !!! (eb_req_pool_indices eb !!! b))));
}.

(** The first [k b] slots of each request's block. *)
Definition block_slots (eb : extend_batch) (table : list (list Z)) (k : nat -> nat) : list Z :=
  seq 0 (length (eb_req_pool_indices eb)) ≫= (fun b =>
    take (k b) (drop (Z.to_nat (eb_prefix_lens eb !!! b)) (table !!! (eb_req_pool_indices eb !!! b)))).

(** An algorithm as the scheduler sees it: what it commits per request, what
    it keeps for itself between runs (the model, buffers, seeds), and what it
    does to the allocator and the table.  [manages_kv] algorithms free
    the slots of rejected positions themselves; the others leave memory alone.
    An algorithm of this interface raises on a batch of fewer tokens than whole
    blocks ([alg_whole]: an assertion in LowConfidence, a failing view in TiDAR);
    [alg_commits] tells that it commits a token in every block it is given, as
    LowConfidence does and TiDAR, when it runs out of slots, does not. *)
Class DllmAlgorithm (bs : nat) (mask : Z) (manages_kv : bool) := {
  alg_width : nat;
  alg_width_ge : (bs <= alg_width)%nat;
  alg_state : Type;
  alg_run : forward_mode -> extend_batch -> alg_state -> allocator -> list (list Z) ->
            res (list (list Z) * alg_state * allocator * list (list Z));
  alg_prompt mode eb g a t outs g' a' t' :
    mask ∉ eb_input_ids eb -> alg_run mode eb g a t = Ok (outs, g', a', t') -> a' = a /\ t' = t;
  alg_whole mode eb g a t outs g' a' t' :
    mask ∈ eb_input_ids eb -> alg_run mode eb g a t = Ok (outs, g', a', t') ->
    (length (eb_seq_lens eb) * bs <= length (eb_input_ids eb))%nat;
  alg_commits : bool;
  alg_progress mode eb g a t outs g' a' t' :
    alg_commits = true -> block_batch bs alg_width eb t -> (0 < bs)%nat ->
    Forall (fun x => x = mask) (eb_input_ids eb) ->
    alg_run mode eb g a t = Ok (outs, g', a', t') -> Forall (fun toks => toks <> []) outs;
  alg_block mode eb g a t outs g' a' t' :
    block_batch bs alg_width eb t -> Token.wf a -> is_not_in_free_group a = true ->
    mask ∈ eb_input_ids eb ->
    alg_run mode eb g a t = Ok (outs, g', a', t') ->
    let k b := if manages_kv then length (outs !!! b) else bs in
    length outs = length (eb_req_pool_indices eb) /\
    (forall b toks, outs !! b = Some toks -> (length toks <= bs)%nat) /\
    Token.pool a' ++ block_slots eb t' k ≡ₚ Token.pool a ++ block_slots eb t (fun _ => bs) /\
    Token.wf a' /\ is_not_in_free_group a' = true /\
    length t' = length t /\
    (forall b, (b < length (eb_req_pool_indices eb))%nat ->
       let i := eb_req_pool_indices eb !!! b in
       length (t' !!! i) = length (t !!! i) /\
       take (Z.to_nat (eb_prefix_lens eb !!! b)) (t' !!! i) = take (Z.to_nat (eb_prefix_lens eb !!! b)) (t !!! i)) /\
    (forall j, j ∉ eb_req_pool_indices eb -> t' !! j = t !! j);
}.

(** ** The store *)

Definition vals (o : store) : list req := (map_to_list o).*2.
Definition others (o : store) (ids : list Z) : list req := vals (foldr delete o ids).

Lemma vals_split o ids :
  NoDup ids -> (forall i, i ∈ ids -> is_Some (o !! i)) ->
  vals o ≡ₚ ((fun i => o !!! i) <$> ids) ++ others o ids.
Proof.
  unfold others. revert o. induction ids as [|i ids IH]; intros o Hnd Hin; [done|].
  apply NoDup_cons in Hnd as [Hi Hnd]. destruct (Hin i ltac:(by left)) as [r Hr].
  cbn [fmap list_fmap foldr]. rewrite (lookup_total_correct _ _ _ Hr).
  assert (Hd : vals o ≡ₚ r :: vals (delete i o)).
  { unfold vals. by rewrite <- (map_to_list_delete o i r Hr). }
  assert (Hcomm : foldr delete (delete i o) ids = delete i (foldr delete o ids)).
  { clear. induction ids as [|j ids IH]; [done|]. cbn. rewrite IH. apply delete_delete. }
  rewrite Hd, <- Hcomm, (IH (delete i o)); [|done|].
  - assert (He : (fun j => delete i o !!! j) <$> ids = (fun j => o !!! j) <$> ids).
    { apply Forall_fmap_ext_1. apply Forall_forall. intros j Hj.
      apply lookup_total_delete_ne. by intros ->. }
    rewrite He. done.
  - intros j Hj. rewrite lookup_delete_ne by (by intros ->). apply Hin. by right.
Qed.

Lemma lookup_foldr_delete (o : store) ids j :
  foldr delete o ids !! j = if decide (j ∈ ids) then None else o !! j.
Proof.
  induction ids as [|i ids IH]; cbn [foldr]; [done|]. destruct (decide (j = i)) as [->|Hne].
  - rewrite lookup_delete_eq, decide_True by (by left). done.
  - rewrite lookup_delete_ne, IH by done. destruct (decide (j ∈ ids)).
    + by rewrite decide_True by (by right).
    + rewrite decide_False; [done|]. by intros [?|?]%elem_of_cons.
Qed.

(** The rest of the store is unaffected by updates inside [ids]. *)
Lemma others_ext o o' ids :
  (forall j, j ∉ ids -> o' !! j = o !! j) -> others o' ids = others o ids.
Proof.
  intros Hj. unfold others. f_equal. apply map_eq. intros j. rewrite !lookup_foldr_delete.
  case_decide; [done|]. by apply Hj.
Qed.

Lemma elem_of_others o ids r :
  r ∈ others o ids <-> exists j, j ∉ ids /\ o !! j = Some r.
Proof.
  unfold others, vals. rewrite list_elem_of_fmap. split.
  - intros ([j r'] & -> & Hin). apply elem_of_map_to_list in Hin. rewrite lookup_foldr_delete in Hin.
    case_decide; [done|]. by exists j.
  - intros (j & Hj & Ho). exists (j, r). split; [done|]. apply elem_of_map_to_list.
    rewrite lookup_foldr_delete. by rewrite decide_False.
Qed.

Lemma elem_of_vals o r : r ∈ vals o <-> exists j, o !! j = Some r.
Proof.
  unfold vals. rewrite list_elem_of_fmap. split.
  - intros ([j r'] & -> & Hin). apply elem_of_map_to_list in Hin. by exists j.
  - intros (j & Ho). exists (j, r). split; [done|]. by apply elem_of_map_to_list.
Qed.

Lemma write_back_lookup ids reqs o :
  NoDup ids -> length reqs = length ids ->
  (forall b i r, ids !! b = Some i -> reqs !! b = Some r -> write_back ids reqs o !! i = Some r) /\
  (forall j, j ∉ ids -> write_back ids reqs o !! j = o !! j).
Proof.
  unfold write_back. revert reqs o. induction ids as [|i ids IH]; intros [|r reqs] o Hnd Hl; try done.
  apply NoDup_cons in Hnd as [Hi Hnd]. cbn in Hl. cbn [zip zip_with foldl].
  destruct (IH reqs (<[i := r]> o) Hnd ltac:(lia)) as [Hin Hout]. split.
  - intros [|b] j r' Hj Hr'; cbn in Hj, Hr'.
    + injection Hj as <-. injection Hr' as <-. rewrite Hout by done. apply lookup_insert_eq.
    + by eapply Hin.
  - intros j Hj. apply not_elem_of_cons in Hj as [Hne Hj]. rewrite Hout by done.
    by rewrite lookup_insert_ne by done.
Qed.

(** Stores that differ only in the requests' next inputs. *)
Definition same_req (r r' : req) : Prop := kvs r' = kvs r /\ info r' = info r /\ out r' = out r.
Definition soft (o o' : store) : Prop :=
  forall i, match o !! i, o' !! i with
            | Some r, Some r' => same_req r r'
            | None, None => True
            | _, _ => False
            end.

#[global] Instance soft_preorder : PreOrder soft.
Proof.
  split.
  - intros o i. destruct (o !! i); done.
  - intros o1 o2 o3 H1 H2 i. specialize (H1 i). specialize (H2 i).
    destruct (o1 !! i), (o2 !! i), (o3 !! i); try done.
    destruct H1 as (? & ? & ?), H2 as (? & ? & ?). split; [congruence|]. split; congruence.
Qed.

Lemma soft_insert o i r r' : o !! i = Some r -> same_req r r' -> soft o (<[i := r']> o).
Proof.
  intros Hi Hs j. destruct (decide (i = j)) as [->|Hne].
  - by rewrite Hi, lookup_insert_eq.
  - rewrite lookup_insert_ne by done. by destruct (o !! j).
Qed.

Lemma soft_lookup o o' i r : soft o o' -> o !! i = Some r -> exists r', o' !! i = Some r' /\ same_req r r'.
Proof. intros Hs Hi. specialize (Hs i). rewrite Hi in Hs. destruct (o' !! i) as [r'|]; [by exists r'|done]. Qed.

Lemma soft_lookup_r o o' i r' : soft o o' -> o' !! i = Some r' -> exists r, o !! i = Some r /\ same_req r r'.
Proof. intros Hs Hi. specialize (Hs i). rewrite Hi in Hs. destruct (o !! i) as [r|]; [by exists r|done]. Qed.

Lemma vals_dom (o : store) : vals o ≡ₚ (fun i => o !!! i) <$> (map_to_list o).*1.
Proof.
  rewrite (vals_split o (map_to_list o).*1).
  - assert (Hn : others o (map_to_list o).*1 = []).
    { destruct (others o (map_to_list o).*1) as [|r l] eqn:E; [done|].
      assert (Hr : r ∈ others o (map_to_list o).*1) by (rewrite E; by left).
      apply elem_of_others in Hr as (j & Hj & Hr). exfalso. apply Hj.
      apply list_elem_of_fmap. exists (j, r). split; [done|]. by apply elem_of_map_to_list. }
    by rewrite Hn, app_nil_r.
  - apply NoDup_fst_map_to_list.
  - intros i Hi. apply list_elem_of_fmap in Hi as ([j r] & -> & Hin). apply elem_of_map_to_list in Hin. by eexists.
Qed.

Lemma soft_ids (o o' : store) : soft o o' -> (map_to_list o).*1 ≡ₚ (map_to_list o').*1.
Proof.
  intros Hs. apply NoDup_Permutation; [apply NoDup_fst_map_to_list..|].
  intros i. rewrite !list_elem_of_fmap. split; intros ([j r] & -> & Hin); apply elem_of_map_to_list in Hin.
  - destruct (soft_lookup _ _ _ _ Hs Hin) as (r' & Hr' & _). exists (j, r'). split; [done|].
    by apply elem_of_map_to_list.
  - destruct (soft_lookup_r _ _ _ _ Hs Hin) as (r' & Hr' & _). exists (j, r'). split; [done|].
    by apply elem_of_map_to_list.
Qed.

Lemma soft_bind {A} (f : req -> list A) (o o' : store) :
  (forall r r', same_req r r' -> f r' = f r) -> soft o o' -> vals o' ≫= f ≡ₚ vals o ≫= f.
Proof.
  intros Hf Hs. rewrite (vals_dom o'), (vals_dom o), <- (soft_ids o o' Hs).
  assert (He : forall l, (forall i, i ∈ l -> is_Some (o !! i)) ->
    ((fun i => o' !!! i) <$> l) ≫= f = ((fun i => o !!! i) <$> l) ≫= f).
  { induction l as [|i l IH]; intros Hl; [done|]. rewrite !fmap_cons, !bind_cons, IH by (intros; apply Hl; by right).
    f_equal. destruct (Hl i ltac:(by left)) as [r Hr]. destruct (soft_lookup _ _ _ _ Hs Hr) as (r' & Hr' & Hsr).
    rewrite (lookup_total_correct _ _ _ Hr), (lookup_total_correct _ _ _ Hr'). by apply Hf. }
  rewrite He; [done|]. intros i Hi. apply list_elem_of_fmap in Hi as ([j r] & -> & Hin).
  apply elem_of_map_to_list in Hin. by eexists.
Qed.

Lemma holds_soft {T} `{!PrefixCache T} slots (m : mem T) (o o' : store) :
  soft o o' -> holds slots m (vals o) -> holds slots m (vals o').
Proof.
  intros Hs [H1 H2 H3 H4 H5]. split; try done.
  - rewrite (soft_bind (owned _) o o'); [done| |done]. intros r r' (Hk & _). unfold owned. by rewrite Hk.
  - rewrite (soft_bind idx_of o o'); [done| |done]. intros r r' (Hk & _). unfold idx_of. by rewrite Hk.
Qed.

(** ** The invariant *)

Section invariant.
Context {T : Type} `{!PrefixCache T} (se : @settings T) (masked : lanes) (oob : Z -> Z) (empty : Z -> list Z).
Local Notation bs := (block_size (cfg se)).
Local Notation mask := (mask_id (cfg se)).
Context (width : nat).

(** Facts of every request, at all times. *)
Record base (ctx : nat) (r : req) : Prop := Base {
  b_max : 0 <= max_new_tokens (sampling (info r));
  b_ctx : len (origin_input_ids (info r)) + max_new_tokens (sampling (info r)) + Z.of_nat width <= Z.of_nat ctx;
  b_origin : 0 < len (origin_input_ids (info r));
  b_mask : mask ∉ origin_input_ids (info r);
  b_prot : cache_protected_len (kvs r) = 0;
  b_out : finished r = false -> len (output_ids (out r)) <= max_new_tokens (sampling (info r));
  b_done : finished r = true -> req_pool_idx (kvs r) = None;
}.

(** Not started: nothing allocated. *)
Record fresh (r : req) : Prop := Fresh {
  f_phase : phase (inp r) = Some INCOMING_PREFILL;
  f_idx : req_pool_idx (kvs r) = None;
  f_out : output_ids (out r) = [];
  f_kv : kv_committed_freed (kvs r) = false /\ kv_overallocated_freed (kvs r) = false;
  f_fin : finished r = false;
}.

(** Between rounds: its slots are those of its prompt and output. *)
Record active (r : req) : Prop := Active {
  a_idx : is_Some (req_pool_idx (kvs r));
  a_len : kv_committed_len (kvs r) = seqlen r /\ kv_allocated_len (kvs r) = seqlen r;
  a_kv : kv_committed_freed (kvs r) = false /\ kv_overallocated_freed (kvs r) = false;
  a_fin : finished r = false;
}.

(** Ready to denoise its next block. *)
Record ready (table : list (list Z)) (r : req) : Prop := Ready {
  y_active : active r;
  y_phase : phase (inp r) = Some STAGING_DECODE;
  y_prefix : prefix_indices (inp r) = owned table r;
  y_fill : fill_ids (inp r) = origin_input_ids (info r) ++ output_ids (out r)
             ++ replicate (Z.to_nat bs) mask;
  y_ext : extend_input_len (inp r) = bs;
}.

Record sinv (slots : list Z) (s : @sched T) : Prop := Sinv {
  i_holds : holds slots (smem s) (vals (objs s));
  i_group : is_not_in_free_group (kv (smem s)) = true;
  i_nodup : NoDup (waiting_queue s ++ waiting (mgr s));
  i_dom i : i ∈ waiting_queue s ++ waiting (mgr s) -> is_Some (objs s !! i);
  i_staging : NoDup (staging (mgr s)) /\ forall i, i ∈ staging (mgr s) -> i ∈ waiting (mgr s);
  i_base i r : objs s !! i = Some r ->
    rid (info r) = i /\ base (max_context_len (rows (smem s))) r;
  i_queue i r : i ∈ waiting_queue s -> objs s !! i = Some r -> fresh r;
  i_wait i r : i ∈ waiting (mgr s) -> i ∉ staging (mgr s) -> objs s !! i = Some r ->
    finished r = true \/ fresh r \/ ready (req_to_token (rows (smem s))) r;
  i_stag i r : i ∈ staging (mgr s) -> objs s !! i = Some r -> finished r = true \/ active r;
}.

Hypothesis bs_pos : 0 < bs.

(** The input of the next round does not matter for a request's standing. *)
Lemma active_ext r r' :
  kvs r' = kvs r -> info r' = info r -> out r' = out r -> active r -> active r'.
Proof.
  intros Hk Hi Ho [Ha Hl Hkv Hf]. split; rewrite ?Hk; try done.
  - unfold seqlen. by rewrite Hi, Ho.
  - unfold finished. by rewrite Ho.
Qed.

Lemma base_ext ctx r r' :
  kvs r' = kvs r -> info r' = info r -> out r' = out r -> base ctx r -> base ctx r'.
Proof.
  intros Hk Hi Ho [H1 H2 H3 H4 H5 H6 H7]. split; rewrite ?Hk, ?Hi, ?Ho; try done;
    unfold finished; rewrite Ho; done.
Qed.

Lemma owned_ext table r r' : kvs r' = kvs r -> owned table r' = owned table r.
Proof. intros Hk. unfold owned. by rewrite Hk. Qed.

Lemma owned_length m r rs slots :
  holds slots m rs -> r ∈ rs -> active r -> base (max_context_len (rows m)) r ->
  (Z.to_nat bs <= width)%nat ->
  len (owned (req_to_token (rows m)) r) = seqlen r /\ seqlen r + bs <= Z.of_nat (max_context_len (rows m)).
Proof.
  intros Hh Hr [[i Hi] [Hc _] _ Hf] Hb Hw. destruct (holds_row _ _ _ r i Hh Hr Hi) as (row & Hrow & Hl).
  destruct Hb as [Hm Hctx Ho _ _ Hout _]. specialize (Hout Hf). unfold owned. rewrite Hi, Hc.
  rewrite (list_lookup_total_correct _ _ _ Hrow). unfold seqlen, len in *.
  rewrite length_take. split; lia.
Qed.

(** Preparing a staged request for its next round. *)
Lemma prepare_staging_req_spec m r rs slots :
  holds slots m rs -> r ∈ rs -> active r -> base (max_context_len (rows m)) r ->
  (Z.to_nat bs <= width)%nat ->
  exists r', prepare_staging_req se (req_to_token (rows m)) r = Ok r' /\
    ready (req_to_token (rows m)) r' /\ info r' = info r /\ out r' = out r /\ kvs r' = kvs r.
Proof.
  intros Hh Hr Ha Hb Hw. destruct (owned_length m r rs slots Hh Hr Ha Hb Hw) as [Hlen Hctx].
  pose proof Ha as [[i Hi] [Hc Hal] Hkv Hf]. destruct Hb as [Hm _ Ho Hmask _ _ _].
  assert (Hsl : 0 < seqlen r) by (unfold seqlen; pose proof (len_nonneg (output_ids (out r))); lia).
  unfold prepare_staging_req, init_next_round_input. cbn zeta.
  set (r1 := determine_dllm_phase (cfg se) (init_fill_ids_for_dllm (cfg se) r)).
  assert (H1 : info r1 = info r /\ out r1 = out r /\ kvs r1 = kvs r /\
    fill_ids (inp r1) = origin_input_ids (info r) ++ output_ids (out r) ++ replicate (Z.to_nat bs) mask).
  { subst r1. unfold determine_dllm_phase. destruct (_ <? _); done. }
  clearbody r1. destruct H1 as (Hinfo & Hout & Hkvs & Hfill).
  step_ok. step_ok.
  cbn [set_extend_input_len kvs set_inp]. rewrite Hkvs, Hi, Hc.
  rewrite (proj2 (Z.ltb_lt _ _) Hsl).
  assert (Hown : slice_to (req_to_token (rows m) !!! i) (seqlen r) = owned (req_to_token (rows m)) r).
  { unfold owned. rewrite Hi, Hc, slice_to_take by lia. done. }
  rewrite Hown.
  set (r2 := set_prefix_indices _ _).
  assert (Hdet : determine_dllm_phase (cfg se) r2 = set_phase r2 (Some STAGING_DECODE)).
  { assert (Hf2 : fill_ids (inp r2) = origin_input_ids (info r) ++ output_ids (out r)
      ++ replicate (Z.to_nat bs) mask) by exact Hfill.
    assert (Hp2 : prefix_indices (inp r2) = owned (req_to_token (rows m)) r) by done.
    unfold determine_dllm_phase. rewrite Hf2, Hp2, Hlen.
    assert (Hll : len (origin_input_ids (info r) ++ output_ids (out r) ++ replicate (Z.to_nat bs) mask)
      = seqlen r + bs).
    { rewrite !len_app. unfold seqlen, len at 3. rewrite length_replicate. lia. }
    rewrite Hll, Z.ltb_irrefl. f_equal. f_equal. rewrite bool_decide_eq_false_2; [done|].
    intros Hn. apply Hn. rewrite app_assoc. rewrite slice_from_drop by lia.
    rewrite drop_app_ge; [|rewrite length_app; unfold seqlen, len; lia].
    replace (_ - _)%nat with 0%nat by (rewrite length_app; unfold seqlen, len; lia).
    rewrite drop_0. destruct (Z.to_nat bs) eqn:E; [lia|]. by left. }
  rewrite Hdet. eexists. split; [reflexivity|].
  split; [|repeat split; done].
  assert (Howned : forall x, kvs x = kvs r -> owned (req_to_token (rows m)) x = owned (req_to_token (rows m)) r).
  { intros x Hx. unfold owned. by rewrite Hx. }
  split; cbn [inp set_extend_input_len set_inp set_phase phase prefix_indices fill_ids extend_input_len info out].
  - by apply (active_ext r).
  - done.
  - symmetry. apply Howned. exact Hkvs.
  - cbn [r2 set_prefix_indices inp set_inp fill_ids info out set_extend_input_len]. rewrite Hinfo, Hout. exact Hfill.
  - cbn [r2 set_prefix_indices inp set_inp fill_ids prefix_indices set_extend_input_len]. rewrite Hfill, Hlen, !len_app.
    unfold seqlen, len at 3. rewrite length_replicate. lia.
Qed.

Hypothesis width_ge : (Z.to_nat bs <= width)%nat.

Lemma prepare_loop slots (m : mem T) l : forall o,
  NoDup l -> holds slots m (vals o) ->
  (forall i, i ∈ l -> exists r, o !! i = Some r /\ active r /\ base (max_context_len (rows m)) r) ->
  exists o', foldM (fun o i => r ← prepare_staging_req se (req_to_token (rows m)) (o !!! i);
                     Ok (<[i := r]> o)) o l = Ok o' /\
    soft o o' /\ (forall j, j ∉ l -> o' !! j = o !! j) /\
    (forall i, i ∈ l -> exists r, o' !! i = Some r /\ ready (req_to_token (rows m)) r).
Proof.
  induction l as [|i l IH]; intros o Hnd Hh Hall.
  { exists o. split; [done|]. split; [done|]. split; [done|]. by intros i ?%not_elem_of_nil. }
  apply NoDup_cons in Hnd as [Hi Hnd]. destruct (Hall i ltac:(by left)) as (r & Hr & Ha & Hb).
  destruct (prepare_staging_req_spec m r (vals o) slots Hh) as (r' & Hp & Hy & Hsi & Hso & Hsk);
    [apply elem_of_vals; by exists i|done|done|done|].
  assert (Hsoft : soft o (<[i := r']> o)) by (by apply (soft_insert o i r r')).
  destruct (IH (<[i := r']> o)) as (o' & Hf & Hs & Hne & Hin); [done|by apply (holds_soft _ _ o)|..].
  { intros j Hj. destruct (Hall j ltac:(by right)) as (rj & Hrj & ?). exists rj. split; [|done].
    rewrite lookup_insert_ne; [done|]. by intros ->. }
  exists o'. cbn [foldM]. rewrite (lookup_total_correct _ _ _ Hr), Hp.
  step_ok. step_ok.
  split; [done|]. split; [by etransitivity|]. split.
  - intros j Hj. apply not_elem_of_cons in Hj as [Hji Hj]. rewrite Hne by done.
    by rewrite lookup_insert_ne by done.
  - intros j [->|Hj]%elem_of_cons; [|by apply Hin]. exists r'. rewrite Hne by done.
    by rewrite lookup_insert_eq.
Qed.

(** No request of the manager is finished. *)
Definition live (s : @sched T) : Prop :=
  forall i r, i ∈ waiting (mgr s) -> objs s !! i = Some r -> finished r = false.

Lemma filter_inv slots s :
  sinv slots s ->
  let s' := set_mgr s (filter_finished_reqs (objs s) (mgr s)) in sinv slots s' /\ live s'.
Proof.
  intros [Hh Hg Hnd Hd [Hsn Hss] Hb Hq Hw Hs]. cbn zeta.
  assert (Hin : forall (l : list Z) i, i ∈ filter (fun i => is_finished (objs s) i = false) l ->
    i ∈ l /\ forall r, objs s !! i = Some r -> finished r = false).
  { intros l i Hi. apply list_elem_of_filter in Hi as [Hf Hi]. split; [done|]. intros r Hr.
    unfold is_finished in Hf. by rewrite (lookup_total_correct _ _ _ Hr) in Hf. }
  split.
  - split; cbn [set_mgr objs waiting_queue mgr smem filter_finished_reqs waiting staging]; try done.
    + apply NoDup_app in Hnd as (H1 & H2 & H3). apply NoDup_app. split; [done|]. split.
      * intros i Hi Hi'. apply Hin in Hi' as [Hi' _]. by apply (H2 i).
      * by apply NoDup_filter.
    + intros i [Hi|Hi]%elem_of_app; apply Hd; apply elem_of_app; [by left|right; by apply Hin in Hi as [? _]].
    + split; [by apply NoDup_filter|]. intros i Hi. apply list_elem_of_filter in Hi as [Hf Hi].
      apply list_elem_of_filter. split; [done|]. by apply Hss.
    + intros i r Hi Hns Hr. destruct (Hin _ _ Hi) as [Hi' Hf]. apply (Hw i); [done| |done].
      intros Hst. apply Hns. apply list_elem_of_filter. split; [|done].
      unfold is_finished. rewrite (lookup_total_correct _ _ _ Hr). by apply Hf.
    + intros i r Hi Hr. destruct (Hin _ _ Hi) as [Hi' Hf]. by apply (Hs i).
  - intros i r Hi Hr. cbn in Hi, Hr. apply Hin in Hi as [_ Hf]. by apply Hf.
Qed.

Lemma prepare_inv slots s :
  sinv slots s -> live s ->
  exists s', prepare_staging_reqs se s = Ok s' /\ sinv slots s' /\ live s' /\ staging (mgr s') = [] /\
    smem s' = smem s /\ soft (objs s) (objs s') /\ batch_is_full s' = batch_is_full s /\
    waiting (mgr s') = waiting (mgr s) /\ waiting_queue s' = waiting_queue s /\
    (forall i, i ∉ staging (mgr s) -> objs s' !! i = objs s !! i).
Proof.
  intros [Hh Hg Hnd Hd [Hsn Hss] Hb Hq Hw Hs] Hlive. unfold prepare_staging_reqs.
  destruct (prepare_loop slots (smem s) (staging (mgr s)) (objs s) Hsn Hh) as (o' & -> & Hsoft & Hne & Hin).
  { intros i Hi. destruct (Hd i) as [r Hr]; [apply elem_of_app; right; by apply Hss|]. exists r. split; [done|].
    destruct (Hs i r Hi Hr) as [Hf|Ha]; [|split; [done|by apply (Hb i)]].
    rewrite (Hlive i r (Hss i Hi) Hr) in Hf. done. }
  step_ok. eexists. split; [reflexivity|].
  split; [|split; [|done]].
  - split; cbn [set_mgr set_objs objs waiting_queue mgr smem waiting staging]; try done.
    + by apply (holds_soft _ _ (objs s)).
    + intros i Hi. destruct (Hd i Hi) as [r Hr]. destruct (soft_lookup _ _ _ _ Hsoft Hr) as (r' & Hr' & _). by eexists.
    + split; [constructor|]. by intros i ?%not_elem_of_nil.
    + intros i r' Hr'. destruct (soft_lookup_r _ _ _ _ Hsoft Hr') as (r & Hr & Hk & Hinf & Hout).
      destruct (Hb i r Hr) as [Hrid Hbase]. split; [by rewrite Hinf|]. by apply (base_ext _ r).
    + intros i r Hi Hr. rewrite Hne in Hr; [by apply (Hq i)|]. intros Hst%Hss.
      apply NoDup_app in Hnd as (_ & Hdis & _). by apply (Hdis i).
    + intros i r Hi _ Hr. destruct (decide (i ∈ staging (mgr s))) as [Hst|Hst].
      * destruct (Hin i Hst) as (r' & Hr' & Hy). rewrite Hr in Hr'. injection Hr' as <-. by right; right.
      * rewrite Hne in Hr by done. by apply (Hw i).
    + by intros i r ?%not_elem_of_nil.
  - intros i r' Hi Hr'. cbn in Hi, Hr'. destruct (soft_lookup_r _ _ _ _ Hsoft Hr') as (r & Hr & _ & _ & Ho).
    unfold finished. rewrite Ho. by apply (Hlive i).
Qed.

Hypothesis priority_perm : forall o q, calc_priority se o q ≡ₚ q.

Lemma queue_inv slots s q :
  q ≡ₚ waiting_queue s -> sinv slots s -> sinv slots (set_queue s q).
Proof.
  intros Hp [Hh Hg Hnd Hd Hst Hb Hq Hw Hs]. split; cbn [set_queue objs waiting_queue mgr smem]; try done.
  - by rewrite Hp.
  - intros i Hi. apply Hd. by rewrite <- Hp.
  - intros i r Hi. apply Hq. by rewrite <- Hp.
Qed.

Lemma fetch_inv slots s :
  sinv slots s -> live s -> staging (mgr s) = [] ->
  exists s', fetch_waiting_reqs se s = Ok s' /\ sinv slots s' /\ live s' /\ staging (mgr s') = [] /\
    smem s' = smem s /\ objs s' = objs s /\ batch_is_full s' = batch_is_full s /\
    exists k, waiting (mgr s') = waiting (mgr s) ++ k.
Proof.
  intros [Hh Hg Hnd Hd Hst Hb Hq Hw Hs] Hlive Hst0. unfold fetch_waiting_reqs.
  destruct (Z.ltb_spec 0 (Z.min (max_running_requests (cfg se) - len (waiting (mgr s))) (len (waiting_queue s))))
    as [Hn|Hn]; [|exists s; repeat (split; [done|]); exists []; by rewrite app_nil_r].
  set (n := Z.min _ _) in *. clearbody n.
  pose proof (slice_to_from (waiting_queue s) n) as Hsp.
  set (q1 := slice_to (waiting_queue s) n) in *. set (q2 := slice_from (waiting_queue s) n) in *.
  rewrite <- Hsp in Hnd, Hd, Hq. clear Hsp. clearbody q1 q2.
  assert (Hperm : (q1 ++ q2) ++ waiting (mgr s) ≡ₚ q2 ++ waiting (mgr s) ++ q1) by solve_Permutation.
  assert (Hq1 : forall i, i ∈ q1 -> i ∉ waiting (mgr s)).
  { intros i Hi Hi'. apply NoDup_app in Hnd as (_ & Hdis & _). apply (Hdis i); [|done].
    apply elem_of_app. by left. }
  unfold add_waiting_reqs, has_duplicate_reqs.
  assert (Hdup : existsb (fun i => bool_decide (i ∈ waiting (mgr s))) q1 = false).
  { apply not_true_is_false. intros Hex%existsb_exists. destruct Hex as (i & Hi & Hb').
    apply bool_decide_eq_true in Hb'. apply list_elem_of_In in Hi. by apply (Hq1 i). }
  rewrite Hdup. step_ok. eexists. split; [reflexivity|].
  split; [|split; [|split; [done|split; [done|split; [done|split; [done|]]]]]].
  - split; cbn [set_mgr set_queue objs waiting_queue mgr smem waiting staging]; try done.
    + by rewrite <- Hperm.
    + intros i Hi. apply Hd. by rewrite Hperm.
    + rewrite Hst0. split; [constructor|]. by intros i ?%not_elem_of_nil.
    + intros i r Hi. apply Hq. apply elem_of_app. by right.
    + intros i r [Hi|Hi]%elem_of_app Hns Hr; [by apply (Hw i)|].
      right. left. apply (Hq i); [|done]. apply elem_of_app. by left.
  - intros i r Hi Hr. cbn in Hi, Hr. apply elem_of_app in Hi as [Hi|Hi]; [by apply (Hlive i)|].
    apply (Hq i r); [|done]. apply elem_of_app. by left.
  - by eexists.
Qed.

(** *** Choosing the batch *)

(** What the batch's requests look like when it is created. *)
Definition chosen (table : list (list Z)) (mode : forward_mode) (r : req) : Prop :=
  match mode with
  | EXTEND => fresh r /\ fill_ids (inp r) = origin_input_ids (info r) /\ prefix_indices (inp r) = [] /\
      extend_input_len (inp r) = len (origin_input_ids (info r))
  | DLLM_EXTEND => active r /\ prefix_indices (inp r) = owned table r /\
      len (prefix_indices (inp r)) + extend_input_len (inp r) = len (fill_ids (inp r)) /\
      (0 < extend_input_len (inp r) <= bs /\
       fill_ids (inp r) = origin_input_ids (info r) ++ output_ids (out r)
         ++ replicate (Z.to_nat (extend_input_len (inp r))) mask) /\
      (extend_input_len (inp r) = bs -> ready table r)
  end.

(** A partially built batch. *)
Record choosing (slots : list Z) (mode : forward_mode) (s0 s : @sched T) (c : list Z) : Prop := Choosing {
  c_soft : soft (objs s0) (objs s);
  c_same : smem s = smem s0 /\ mgr s = mgr s0 /\ waiting_queue s = waiting_queue s0;
  c_sub : NoDup c /\ forall i, i ∈ c -> i ∈ waiting (mgr s0);
  c_chosen i : i ∈ c -> exists r, objs s !! i = Some r /\ chosen (req_to_token (rows (smem s0))) mode r;
  c_rest i r : i ∉ c -> i ∈ waiting_queue s0 ++ waiting (mgr s0) -> objs s !! i = Some r ->
    exists r0, objs s0 !! i = Some r0 /\ (fresh r0 -> fresh r) /\
    (ready (req_to_token (rows (smem s0))) r0 -> ready (req_to_token (rows (smem s0))) r);
}.

Lemma choosing_ext slots mode s0 s s' c :
  objs s' = objs s -> smem s' = smem s -> mgr s' = mgr s -> waiting_queue s' = waiting_queue s ->
  choosing slots mode s0 s c -> choosing slots mode s0 s' c.
Proof. intros H1 H2 H3 H4 [C1 C2 C3 C4 C5]. split; rewrite ?H1, ?H2, ?H3, ?H4; done. Qed.

Lemma choosing_full slots mode s0 s c b : choosing slots mode s0 s c -> choosing slots mode s0 (set_full s b) c.
Proof. by apply choosing_ext. Qed.

(** A request that joins the batch. *)
Lemma choosing_add slots mode s0 s c i r r' :
  choosing slots mode s0 s c -> i ∉ c -> i ∈ waiting (mgr s0) -> objs s !! i = Some r -> same_req r r' ->
  chosen (req_to_token (rows (smem s0))) mode r' ->
  choosing slots mode s0 (set_objs s (<[i := r']> (objs s))) (c ++ [i]).
Proof.
  intros [C1 C2 [C3 C3'] C4 C5] Hi Hw Hr Hs Hc. split; cbn [set_objs objs smem mgr waiting_queue]; try done.
  - etransitivity; [exact C1|]. by apply (soft_insert _ i r).
  - split.
    + apply NoDup_app. split; [done|]. split; [|apply NoDup_singleton].
      intros j Hj Hj'. apply list_elem_of_singleton in Hj'. by subst j.
    + intros j [Hj|Hj]%elem_of_app; [by apply C3'|]. apply list_elem_of_singleton in Hj. by subst j.
  - intros j [Hj|Hj]%elem_of_app.
    + rewrite lookup_insert_ne by (by intros ->). by apply C4.
    + apply list_elem_of_singleton in Hj. subst j. exists r'. by rewrite lookup_insert_eq.
  - intros j rj Hj Hjw Hrj. apply not_elem_of_app in Hj as [Hj Hj2].
    rewrite lookup_insert_ne in Hrj by (intros ->; apply Hj2; by left). by apply (C5 j).
Qed.

(** A request that is looked at and left for later. *)
Lemma choosing_touch slots mode s0 s c i r r' :
  choosing slots mode s0 s c -> i ∉ c -> objs s !! i = Some r -> same_req r r' ->
  (fresh r -> fresh r') -> (ready (req_to_token (rows (smem s0))) r -> ready (req_to_token (rows (smem s0))) r') ->
  choosing slots mode s0 (set_objs s (<[i := r']> (objs s))) c.
Proof.
  intros [C1 C2 C3 C4 C5] Hi Hr Hs Hfr Hre. split; cbn [set_objs objs smem mgr waiting_queue]; try done.
  - etransitivity; [exact C1|]. by apply (soft_insert _ i r).
  - intros j Hj. rewrite lookup_insert_ne by (by intros ->). by apply C4.
  - intros j rj Hj Hjw Hrj. destruct (decide (i = j)) as [->|Hne].
    + rewrite lookup_insert_eq in Hrj. injection Hrj as <-.
      destruct (C5 j r Hj Hjw Hr) as (r0 & Hr0 & Hf0 & Hy0). exists r0. split; [done|]. split; auto.
    + rewrite lookup_insert_ne in Hrj by done. by apply (C5 j).
Qed.

Lemma init_prompt_same r :
  let r' := init_prompt_cache_input r in
  same_req r r' /\ phase (inp r') = phase (inp r) /\ fill_ids (inp r') = origin_input_ids (info r) /\
  prefix_indices (inp r') = [] /\ extend_input_len (inp r') = len (origin_input_ids (info r)).
Proof. done. Qed.

Lemma fresh_ext r r' : same_req r r' -> phase (inp r') = phase (inp r) -> fresh r -> fresh r'.
Proof.
  intros (Hk & Hi & Ho) Hp [F1 F2 F3 F4 F5]. split; rewrite ?Hk, ?Ho, ?Hp; try done.
  unfold finished. by rewrite Ho.
Qed.

(** The loop over prompts. *)
Lemma choose_prompts slots s0 l : forall s a s' a',
  (forall i r, objs s0 !! i = Some r -> rid (info r) = i) ->
  choosing slots EXTEND s0 s (can_run_list a) -> NoDup l ->
  (forall i, i ∈ l -> i ∉ can_run_list a /\ i ∈ waiting (mgr s0) /\ exists r, objs s !! i = Some r /\ fresh r) ->
  process_incoming_prefill_reqs se l s a = (s', a') ->
  choosing slots EXTEND s0 s' (can_run_list a').
Proof.
  induction l as [|i l IH]; intros s a s' a' Hrid Hc Hnd Hl; cbn [process_incoming_prefill_reqs].
  { by intros [= <- <-]. }
  apply NoDup_cons in Hnd as [Hi Hnd]. destruct (Hl i ltac:(by left)) as (Hic & Hiw & r & Hr & Hf).
  set (s1 := if _ <=? _ then set_full s true else s).
  assert (Hc1 : choosing slots EXTEND s0 s1 (can_run_list a)) by (subst s1; destruct (_ <=? _); auto using choosing_full).
  assert (Ho1 : objs s1 = objs s) by (subst s1; by destruct (_ <=? _)). clearbody s1.
  destruct (batch_is_full s1); [by intros [= <- <-]|].
  rewrite Ho1, (lookup_total_correct _ _ _ Hr).
  destruct (init_prompt_same r) as (Hsame & Hph & Hfi & Hpf & Hex).
  set (r' := init_prompt_cache_input r) in *. clearbody r'.
  assert (Hfr' : fresh r') by (by apply (fresh_ext r)).
  assert (Hr1 : objs s1 !! i = Some r) by (by rewrite Ho1).
  assert (Hrid' : rid (info r') = i).
  { destruct (soft_lookup_r _ _ _ _ (c_soft _ _ _ _ _ Hc) Hr) as (r0 & Hr0 & (_ & Hi0 & _)).
    destruct Hsame as (_ & Hi' & _). rewrite Hi', Hi0. by apply Hrid. }
  assert (Hrest : forall j, j ∈ l -> exists rj, <[i := r']> (objs s) !! j = Some rj /\ fresh rj).
  { intros j Hj. destruct (Hl j ltac:(by right)) as (_ & _ & rj & Hrj & Hfj). exists rj.
    rewrite lookup_insert_ne by (by intros ->). done. }
  destruct (add_dllm_prompt_cache_req _ _ r' a) as [res a1] eqn:Hadd. destruct res.
  - assert (Hcan : can_run_list a1 = can_run_list a ++ [i]).
    { unfold add_dllm_prompt_cache_req in Hadd. destruct (_ <=? _); [done|]. destruct (_ && _); [done|].
      injection Hadd as <-. cbn. by rewrite Hrid'. }
    intros Hrun. apply (IH _ _ _ _ Hrid) in Hrun; [done| |done|].
    + rewrite Hcan, <- Ho1. apply (choosing_add _ _ _ _ _ _ r); try done. split; [done|].
      destruct Hsame as (_ & Hi' & _). by rewrite Hi'.
    + intros j Hj. rewrite Hcan. destruct (Hl j ltac:(by right)) as (Hjc & Hjw & _).
      split; [|split; [done|by apply Hrest]]. apply not_elem_of_app. split; [done|].
      intros Hji%list_elem_of_singleton. by subst j.
  - apply prompt_reject in Hadd as Ha1; [|done]. subst a1. intros [= <- <-]. apply choosing_full.
    rewrite <- Ho1. apply (choosing_touch _ _ _ _ _ _ r); try done. intros [_ Hph' _ _ _]. destruct Hf. congruence.
  - apply prompt_reject in Hadd as Ha1; [|done]. subst a1. intros [= <- <-].
    rewrite <- Ho1. apply (choosing_touch _ _ _ _ _ _ r); try done. intros [_ Hph' _ _ _]. destruct Hf. congruence.
Qed.

(** One staged request: left alone, or admitted with at most its block. *)
Lemma staging_result clip av r a res r' a' :
  dllm a = Some (cfg se) ->
  add_dllm_staging_req clip av r a = Ok (res, r', a') ->
  (r' = r /\ a' = a) \/
  (can_run_list a' = can_run_list a ++ [rid (info r)] /\ dllm a' = Some (cfg se) /\ same_req r r' /\
   phase (inp r') = phase (inp r) /\ prefix_indices (inp r') = prefix_indices (inp r) /\
   (exists rem, 0 < rem /\ extend_input_len (inp r') = Z.min (extend_input_len (inp r)) rem) /\
   fill_ids (inp r') = slice_to (fill_ids (inp r)) (len (prefix_indices (inp r)) + extend_input_len (inp r'))).
Proof.
  intros Hd. unfold add_dllm_staging_req. rewrite Hd.
  destruct (Z.leb_spec (get_dllm_remain_tokens (cfg se) av a) 0) as [|Hrem]; [intros [= <- <- <-]; by left|].
  intros [= <- <- <-]. right. split; [done|]. split; [done|]. split; [done|]. split; [done|].
  split; [done|]. split; [|done]. eexists. split; [exact Hrem|done].
Qed.

(** The block of a ready request, cut or whole. *)
Lemma chosen_block table r r' :
  ready table r -> same_req r r' -> phase (inp r') = phase (inp r) ->
  prefix_indices (inp r') = prefix_indices (inp r) -> len (prefix_indices (inp r)) = seqlen r ->
  (exists rem, 0 < rem /\ extend_input_len (inp r') = Z.min (extend_input_len (inp r)) rem) ->
  fill_ids (inp r') = slice_to (fill_ids (inp r)) (len (prefix_indices (inp r)) + extend_input_len (inp r')) ->
  chosen table DLLM_EXTEND r'.
Proof.
  intros [Ya Yp Ypre Yf Ye] (Hk & Hi & Ho) Hph Hpre Hpl (rem & Hrem & Hext) Hfill.
  assert (Hlf : len (fill_ids (inp r)) = seqlen r + bs).
  { rewrite Yf, !len_app. unfold seqlen, len at 3. rewrite length_replicate. lia. }
  assert (0 <= seqlen r) by (unfold seqlen, len; lia).
  unfold chosen. split; [by apply (active_ext r)|].
  split; [rewrite Hpre, Ypre; symmetry; by apply owned_ext|]. split; [|split; [split; [lia|]|]].
  - rewrite Hpre, Hfill, Hpl, len_slice_to by lia. done.
  - rewrite Hfill, Hpl, Hi, Ho, Yf, slice_to_take, !app_assoc by lia.
    rewrite take_app_ge by (rewrite length_app; unfold seqlen, len; lia).
    rewrite take_replicate. do 2 f_equal. rewrite length_app. unfold seqlen, len. lia.
  - intros Hfull. split; [by apply (active_ext r)|congruence|rewrite Hpre, Ypre; symmetry; by apply owned_ext| |done].
    rewrite Hfill, Hpl, Hfull, slice_to_take by lia. rewrite Hi, Ho, <- Yf. apply take_ge.
    unfold len in Hlf. lia.
Qed.

Lemma choose_blocks slots s0 l : forall s a res s' a',
  sinv slots s0 ->
  choosing slots DLLM_EXTEND s0 s (can_run_list a) -> dllm a = Some (cfg se) -> NoDup l ->
  (forall i, i ∈ l -> i ∉ can_run_list a /\ i ∈ waiting (mgr s0) /\
     exists r, objs s !! i = Some r /\ ready (req_to_token (rows (smem s0))) r) ->
  process_dllm_staging_reqs se l s a = Ok (res, s', a') ->
  choosing slots DLLM_EXTEND s0 s' (can_run_list a') /\ dllm a' = Some (cfg se) /\
  (forall i, match objs s !! i, objs s' !! i with
             | Some r, Some r' => phase (inp r') = phase (inp r) | None, None => True | _, _ => False end).
Proof.
  induction l as [|i l IH]; intros s a res s' a' Hinv Hc Hd Hnd Hl; cbn [process_dllm_staging_reqs].
  { intros [= <- <- <-]. split; [done|]. split; [done|]. intros i. by destruct (objs s !! i). }
  apply NoDup_cons in Hnd as [Hi Hnd]. destruct (Hl i ltac:(by left)) as (Hic & Hiw & r & Hr & Hy).
  rewrite (lookup_total_correct _ _ _ Hr).
  destruct (add_dllm_staging_req _ _ r a) as [[[res1 r1] a1]|] eqn:Hadd; [|done].
  step_ok.
  destruct (soft_lookup_r _ _ _ _ (c_soft _ _ _ _ _ Hc) Hr) as (r0 & Hr0 & Hsr).
  assert (Hrid : rid (info r) = i).
  { destruct Hsr as (_ & -> & _). by apply (i_base _ _ Hinv i). }
  assert (Hlenp : len (prefix_indices (inp r)) = seqlen r).
  { rewrite (y_prefix _ _ Hy). destruct (owned_length (smem s0) r (vals (objs s)) slots) as [Hlen _]; try done.
    - apply (holds_soft _ _ (objs s0)); [apply Hc|apply Hinv].
    - apply elem_of_vals. by exists i.
    - apply Hy.
    - destruct Hsr as (H1 & H2 & H3). apply (base_ext _ r0); try done. by apply (i_base _ _ Hinv i). }
  assert (Hstep : choosing slots DLLM_EXTEND s0 (set_objs s (<[i := r1]> (objs s))) (can_run_list a1) /\
    dllm a1 = Some (cfg se) /\ phase (inp r1) = phase (inp r) /\
    (forall j, j ∈ l -> j ∉ can_run_list a1)).
  { apply staging_result in Hadd as [[-> ->]|(Hcan & Hd1 & Hsame & Hph & Hpf & Hex & Hfi)]; [..|done].
    - split; [|split; [done|split; [done|]]].
      + by apply (choosing_touch _ _ _ _ _ _ r).
      + intros j Hj. by apply Hl; right.
    - split; [|split; [done|split; [done|]]].
      + rewrite Hcan, Hrid. apply (choosing_add _ _ _ _ _ _ r); try done. by apply (chosen_block _ r).
      + intros j Hj. rewrite Hcan, Hrid. apply not_elem_of_app. split; [by apply Hl; right|].
        intros Hji%list_elem_of_singleton. by subst j. }
  destruct Hstep as (Hc1 & Hd1 & Hph1 & Hl1).
  assert (Hphs : forall k, match objs s !! k, <[i := r1]> (objs s) !! k with
     | Some r, Some r' => phase (inp r') = phase (inp r) | None, None => True | _, _ => False end).
  { intros k. destruct (decide (i = k)) as [->|Hne].
    - by rewrite Hr, lookup_insert_eq.
    - rewrite lookup_insert_ne by done. by destruct (objs s !! k). }
  assert (Hgo : process_dllm_staging_reqs se l (set_objs s (<[i := r1]> (objs s))) a1 = Ok (res, s', a') ->
    choosing slots DLLM_EXTEND s0 s' (can_run_list a') /\ dllm a' = Some (cfg se) /\
    (forall i, match objs s !! i, objs s' !! i with
             | Some r, Some r' => phase (inp r') = phase (inp r) | None, None => True | _, _ => False end)).
  { intros Hrun. apply (IH _ _ _ _ _ Hinv) in Hrun as (? & ? & Hph'); try done.
    - split; [done|]. split; [done|]. intros k. specialize (Hphs k). specialize (Hph' k). cbn in Hph'.
      destruct (objs s !! k), (<[i := r1]> (objs s) !! k), (objs s' !! k); try done. congruence.
    - intros j Hj. destruct (Hl j ltac:(by right)) as (_ & Hjw & rj & Hrj & Hyj).
      split; [by apply Hl1|]. split; [done|]. exists rj. cbn. rewrite lookup_insert_ne by (by intros ->). done. }
  destruct res1; [exact Hgo| |exact Hgo].
  intros [= <- <- <-]. split; [done|]. split; [done|]. exact Hphs.
Qed.

Lemma choosing_start slots mode s : sinv slots s -> choosing slots mode s s [].
Proof.
  intros Hinv. split; [done|done| | |].
  - split; [constructor|]. by intros i ?%not_elem_of_nil.
  - by intros i ?%not_elem_of_nil.
  - intros i r _ _ Hr. by exists r.
Qed.

Lemma filter_none {A} (P : A -> Prop) `{!forall x, Decision (P x)} (l : list A) :
  (forall x, x ∈ l -> ~ P x) -> filter P l = [].
Proof.
  induction l as [|x l IH]; intros Hn; [done|]. rewrite filter_cons, decide_False by (apply Hn; by left).
  apply IH. intros y Hy. apply Hn. by right.
Qed.

Lemma choose_batch slots s0 mode s a :
  sinv slots s0 -> live s0 -> staging (mgr s0) = [] ->
  process_dllm_batches se s0 (create_dllm_prefill_adder se) = Ok (mode, s, a) ->
  choosing slots mode s0 s (can_run_list a).
Proof.
  intros Hinv Hlive Hst. unfold process_dllm_batches. cbn zeta.
  assert (Hobj : forall i, i ∈ waiting (mgr s0) -> exists r, objs s0 !! i = Some r /\
    (fresh r \/ ready (req_to_token (rows (smem s0))) r)).
  { intros i Hi. destruct (i_dom _ _ Hinv i) as [r Hr]; [apply elem_of_app; by right|]. exists r. split; [done|].
    destruct (i_wait _ _ Hinv i r Hi) as [Hf|?]; [rewrite Hst; apply not_elem_of_nil|done| |done].
    rewrite (Hlive i r Hi Hr) in Hf. done. }
  assert (Hndw : NoDup (waiting (mgr s0))) by (pose proof (i_nodup _ _ Hinv) as Hn; by apply NoDup_app in Hn as (_ & _ & Hn)).
  assert (Hph : forall p i, i ∈ filter (fun i => has_phase (objs s0) p i = true) (waiting (mgr s0)) ->
    i ∈ waiting (mgr s0) /\ exists r, objs s0 !! i = Some r /\ phase (inp r) = Some p).
  { intros p i Hi. apply list_elem_of_filter in Hi as [Hp Hi]. split; [done|].
    destruct (Hobj i Hi) as (r & Hr & _). exists r. split; [done|]. unfold has_phase in Hp.
    rewrite (lookup_total_correct _ _ _ Hr) in Hp. by apply bool_decide_eq_true in Hp. }
  destruct (filter (fun i => has_phase (objs s0) INCOMING_PREFILL i = true) (waiting (mgr s0))) as [|i0 l0] eqn:Hinc.
  2: { destruct (process_incoming_prefill_reqs se (i0 :: l0) s0 (create_dllm_prefill_adder se)) as [s1 a1] eqn:Hrun.
       intros [= <- <- <-]. eapply choose_prompts; [| | | |exact Hrun].
       - intros i r Hr. by apply (i_base _ _ Hinv i).
       - by apply choosing_start.
       - rewrite <- Hinc. by apply NoDup_filter.
       - intros i Hi. rewrite <- Hinc in Hi. destruct (Hph _ _ Hi) as (Hiw & r & Hr & Hp).
         split; [apply not_elem_of_nil|]. split; [done|]. exists r. split; [done|].
         destruct (Hobj i Hiw) as (r' & Hr' & [?|[_ Hp' _ _ _]]); rewrite Hr in Hr'; injection Hr' as <-; [done|].
         congruence. }
  assert (Hready : forall i, i ∈ waiting (mgr s0) -> exists r, objs s0 !! i = Some r /\
    ready (req_to_token (rows (smem s0))) r).
  { intros i Hi. destruct (Hobj i Hi) as (r & Hr & [[Hp _ _ _ _]|Hy]); [|by exists r]. exfalso.
    assert (Hin : i ∈ ([] : list Z)).
    { rewrite <- Hinc. apply list_elem_of_filter. split; [|done]. unfold has_phase.
      rewrite (lookup_total_correct _ _ _ Hr), Hp. done. }
    by apply not_elem_of_nil in Hin. }
  assert (Hpre : get_prefill_requests (objs s0) (mgr s0) = []).
  { unfold get_prefill_requests. apply filter_none. intros i Hi. destruct (Hready i Hi) as (r & Hr & Hy).
    unfold is_prefill, is_dllm_prefill. rewrite (lookup_total_correct _ _ _ Hr), (y_phase _ _ Hy).
    intros Hb%bool_decide_eq_true. apply elem_of_cons in Hb as [?|Hb]; [done|].
    apply elem_of_cons in Hb as [?|Hb]; [done|]. by apply not_elem_of_nil in Hb. }
  rewrite Hpre. unfold process_batch_by_phase. cbn zeta.
  destruct (process_dllm_staging_reqs _ _ _ _) as [[[res s1] a1]|] eqn:Hrun; [|done].
  step_ok.
  apply (choose_blocks slots s0) in Hrun as (Hc & Hd & Hphase); [|done|by apply choosing_start|done|..].
  - assert (Hnone : filter (fun i => has_phase (objs s1) INCOMING_DECODE i = true)
      (get_decode_requests (objs s0) (mgr s0)) = []).
    { apply filter_none. intros i Hi. apply list_elem_of_filter in Hi as [_ Hi].
      destruct (Hready i Hi) as (r & Hr & Hy). specialize (Hphase i). rewrite Hr in Hphase.
      destruct (objs s1 !! i) as [r1|] eqn:Hr1; [|done]. unfold has_phase.
      rewrite (lookup_total_correct _ _ _ Hr1), Hphase, (y_phase _ _ Hy). done. }
    rewrite Hnone. destruct res; cbn [process_dllm_incoming_reqs]; change (Ok ?x ≫= ?f) with (f x); cbn beta iota;
      by intros [= <- <- <-].
  - apply NoDup_filter, NoDup_filter. exact Hndw.
  - intros i Hi. apply list_elem_of_filter in Hi as [_ Hi]. apply list_elem_of_filter in Hi as [_ Hi].
    split; [apply not_elem_of_nil|]. split; [done|]. by apply Hready.
Qed.

(** *** The batch in flight *)

Lemma chosen_chunked table mode r k : chosen table mode r -> chosen table mode (set_is_chunked r k).
Proof.
  unfold chosen. destruct mode.
  - intros (Hf & H2). split; [by apply (fresh_ext r)|done].
  - intros (Ha & H2 & H3 & H4 & H5). split; [by apply (active_ext r)|]. split; [done|]. split; [done|].
    split; [done|]. intros He. destruct (H5 He) as [Y1 Y2 Y3 Y4 Y5]. split; try done. by apply (active_ext r).
Qed.

Lemma increment_spec (c : list Z) : forall (o : store),
  NoDup c -> (forall i, i ∈ c -> is_Some (o !! i)) ->
  let o' := foldl (fun o i => <[i := set_is_chunked (o !!! i) (is_chunked (inp (o !!! i)) + 1)]> o) o c in
  (forall i r, i ∈ c -> o !! i = Some r -> exists k, o' !! i = Some (set_is_chunked r k)) /\
  (forall i, i ∉ c -> o' !! i = o !! i).
Proof.
  induction c as [|i c IH]; intros o Hnd Hin; cbn zeta; [split; [by intros i r ?%not_elem_of_nil|done]|].
  apply NoDup_cons in Hnd as [Hi Hnd]. destruct (Hin i ltac:(by left)) as [r Hr]. cbn [foldl].
  destruct (IH (<[i := set_is_chunked (o !!! i) (is_chunked (inp (o !!! i)) + 1)]> o) Hnd) as [H1 H2].
  { intros j Hj. rewrite lookup_insert_ne by (by intros ->). apply Hin. by right. }
  split.
  - intros j rj [->|Hj]%elem_of_cons Hrj.
    + rewrite H2 by done. rewrite lookup_insert_eq, (lookup_total_correct _ _ _ Hr).
      rewrite Hr in Hrj. injection Hrj as <-. by eexists.
    + apply H1; [done|]. by rewrite lookup_insert_ne by (by intros ->).
  - intros j Hj. apply not_elem_of_cons in Hj as [Hne Hj]. rewrite H2 by done. by rewrite lookup_insert_ne by done.
Qed.

(** Between the creation of a batch and the processing of its result. *)
Record inflight (slots : list Z) (mode : forward_mode) (s : @sched T) (c : list Z) (eb : extend_batch) : Prop := Inflight {
  n_holds : holds slots (smem s) (eb_reqs eb ++ others (objs s) c);
  n_group : is_not_in_free_group (kv (smem s)) = true;
  n_nodup : NoDup (waiting_queue s ++ waiting (mgr s));
  n_dom i : i ∈ waiting_queue s ++ waiting (mgr s) -> is_Some (objs s !! i);
  n_staging : staging (mgr s) = c;
  n_ids : c <> [] /\ NoDup c /\ forall i, i ∈ c -> i ∈ waiting (mgr s);
  n_len : length (eb_reqs eb) = length c;
  n_lens : length (eb_req_pool_indices eb) = length c /\ length (eb_prefix_lens eb) = length c /\
    length (eb_seq_lens eb) = length c;
  n_req b i : c !! b = Some i -> exists r r0 j row,
    eb_reqs eb !! b = Some r /\ objs s !! i = Some r /\
    r = set_kv_lens (set_pool_idx r0 (Some j)) (len (fill_ids (inp r0))) (len (fill_ids (inp r0))) /\
    rid (info r) = i /\ base (max_context_len (rows (smem s))) r0 /\
    (req_pool_idx (kvs r0) = None \/ req_pool_idx (kvs r0) = Some j) /\
    (exists table, chosen table mode r0 /\ len (prefix_indices (inp r0)) = (if mode then 0 else seqlen r0)) /\
    req_to_token (rows (smem s)) !! j = Some row /\ length row = max_context_len (rows (smem s)) /\
    eb_prefix_lens eb !! b = Some (len (prefix_indices (inp r0))) /\
    eb_extend_lens eb !! b = Some (extend_input_len (inp r0)) /\
    eb_req_pool_indices eb !! b = Some j;
  n_rest i r : i ∉ c -> objs s !! i = Some r ->
    rid (info r) = i /\ base (max_context_len (rows (smem s))) r /\
    (i ∈ waiting_queue s -> fresh r) /\
    (i ∈ waiting (mgr s) -> fresh r \/ ready (req_to_token (rows (smem s))) r);
  n_input : eb_input_ids eb = concat ((fun i => slice_from (fill_ids (inp (objs s !!! i)))
      (len (prefix_indices (inp (objs s !!! i))))) <$> c);
  n_loc : eb_out_cache_loc eb = seq 0 (length c) ≫= (fun b =>
     take (Z.to_nat (eb_extend_lens eb !!! b)) (drop (Z.to_nat (eb_prefix_lens eb !!! b))
          (req_to_token (rows (smem s)) !!! (eb_req_pool_indices eb !!! b))));
}.

Lemma chosen_extend_ready slots (m : mem T) rs mode r :
  holds slots m rs -> r ∈ rs -> base (max_context_len (rows m)) r ->
  chosen (req_to_token (rows m)) mode r ->
  extend_ready m r /\ len (prefix_indices (inp r)) = (if mode then 0 else seqlen r).
Proof.
  intros Hh Hr Hb. unfold chosen, extend_ready. destruct mode.
  - intros ([_ Hidx Hout _ _] & Hf & Hp & He). rewrite Hp, Hf, He. split; [|done].
    destruct Hb as [? Hctx Ho _ _ _ _]. unfold owned. rewrite Hidx. split; [done|].
    split; [rewrite len_nil; lia|]. split; [lia|]. split; [lia|]. by right; right.
  - intros (Ha & Hp & Hl & [He _] & _). destruct (owned_length m r rs slots Hh Hr Ha Hb width_ge) as [Hlo Hctx].
    rewrite Hp in *. rewrite Hlo in *. split; [|done]. split; [done|]. split; [done|]. split; [lia|].
    split; [lia|]. right. left. destruct Ha as [_ [-> _] _ _]. destruct Hb as [_ _ Ho _ _ _ _].
    unfold seqlen. pose proof (len_nonneg (output_ids (out r))). lia.
Qed.

(** The store once the chosen requests are staged: the chosen ones are ready to
    extend, the others as they were. *)
Record staged (slots : list Z) (mode : forward_mode) (s0 : @sched T) (o : store) (c : list Z) : Prop := {
  g_soft : soft (objs s0) o;
  g_holds : holds slots (smem s0) (((fun i => o !!! i) <$> c) ++ others o c);
  g_req b i : c !! b = Some i -> exists r, ((fun i => o !!! i) <$> c) !! b = Some r /\ o !! i = Some r /\
    rid (info r) = i /\ base (max_context_len (rows (smem s0))) r /\ chosen (req_to_token (rows (smem s0))) mode r /\
    extend_ready (smem s0) r /\ len (prefix_indices (inp r)) = (if mode then 0 else seqlen r);
  g_rest i r : i ∉ c -> o !! i = Some r ->
    rid (info r) = i /\ base (max_context_len (rows (smem s0))) r /\ (i ∈ waiting_queue s0 -> fresh r) /\
    (i ∈ waiting (mgr s0) -> fresh r \/ ready (req_to_token (rows (smem s0))) r);
}.

(** A request that was not chosen is still fresh or ready. *)
Lemma unchosen_rest slots s0 mode s c i r :
  sinv slots s0 -> live s0 -> staging (mgr s0) = [] -> choosing slots mode s0 s c ->
  i ∉ c -> objs s !! i = Some r ->
  (i ∈ waiting_queue s0 -> fresh r) /\ (i ∈ waiting (mgr s0) -> fresh r \/ ready (req_to_token (rows (smem s0))) r).
Proof.
  intros Hinv Hlive Hst Hc Hi Hr. split.
  - intros Hq. destruct (c_rest _ _ _ _ _ Hc i r Hi) as (r0' & Hr0' & Hf & _); [apply elem_of_app; by left|done|].
    apply Hf. by apply (i_queue _ _ Hinv i).
  - intros Hw. destruct (c_rest _ _ _ _ _ Hc i r Hi) as (r0' & Hr0' & Hf & Hy); [apply elem_of_app; by right|done|].
    destruct (i_wait _ _ Hinv i r0' Hw) as [Hfin|[Hfr|Hrd]]; [rewrite Hst; apply not_elem_of_nil|done|..].
    + rewrite (Hlive i r0' Hw Hr0') in Hfin. done.
    + left. by apply Hf.
    + right. by apply Hy.
Qed.

Lemma update_staged slots s0 mode s c :
  sinv slots s0 -> live s0 -> staging (mgr s0) = [] -> choosing slots mode s0 s c ->
  let s1 := update_state_for_batch c s in
  staged slots mode s0 (objs s1) c /\ smem s1 = smem s0 /\ mgr s1 = Manager (waiting (mgr s0)) c /\
  waiting_queue s1 = waiting_queue s0.
Proof.
  intros Hinv Hlive Hst Hc s1.
  destruct (c_same _ _ _ _ _ Hc) as (Hsm & Hmg & Hwq). destruct (c_sub _ _ _ _ _ Hc) as [Hnd Hsub].
  assert (Hstag : staging (add_staging_reqs c (mgr s)) = c) by (cbn; by rewrite Hmg, Hst).
  destruct (increment_spec c (objs s) Hnd) as [Hinc1 Hinc2].
  { intros i Hi. destruct (c_chosen _ _ _ _ _ Hc i Hi) as (r & Hr & _). by eexists. }
  assert (Ho1 : objs s1 = foldl (fun o i => <[i := set_is_chunked (o !!! i) (is_chunked (inp (o !!! i)) + 1)]> o) (objs s) c).
  { subst s1. unfold update_state_for_batch. cbn [set_mgr set_objs objs]. unfold increment_chunked_count. by rewrite Hstag. }
  set (o1 := objs s1) in *. rewrite <- Ho1 in Hinc1, Hinc2.
  assert (Hsoft : soft (objs s0) o1).
  { etransitivity; [apply Hc|]. intros i. destruct (decide (i ∈ c)) as [Hi|Hi].
    - destruct (c_chosen _ _ _ _ _ Hc i Hi) as (r & Hr & _). destruct (Hinc1 i r Hi Hr) as (k & Hk). by rewrite Hr, Hk.
    - rewrite Hinc2 by done. by destruct (objs s !! i). }
  assert (Hbase : forall i r, o1 !! i = Some r -> rid (info r) = i /\ base (max_context_len (rows (smem s0))) r).
  { intros i r Hr. destruct (soft_lookup_r _ _ _ _ Hsoft Hr) as (r0 & Hr0 & (H1 & H2 & H3)).
    destruct (i_base _ _ Hinv i r0 Hr0) as [Hrid Hb]. split; [by rewrite H2|by apply (base_ext _ r0)]. }
  assert (Hcho : forall i, i ∈ c -> exists r, o1 !! i = Some r /\ chosen (req_to_token (rows (smem s0))) mode r).
  { intros i Hi. destruct (c_chosen _ _ _ _ _ Hc i Hi) as (r & Hr & Hch). destruct (Hinc1 i r Hi Hr) as (k & Hk).
    exists (set_is_chunked r k). split; [done|by apply chosen_chunked]. }
  assert (Hh1 : holds slots (smem s0) (((fun i => o1 !!! i) <$> c) ++ others o1 c)).
  { apply (holds_perm _ _ (vals o1)); [|by apply (holds_soft _ _ (objs s0)); [|apply Hinv]].
    apply vals_split; [done|]. intros i Hi. destruct (Hcho i Hi) as (r & -> & _). by eexists. }
  split; [split; [done|done| |]|split; [exact Hsm|split; [|exact Hwq]]].
  - intros b i Hb. destruct (Hcho i) as (r & Hr & Hch); [by eapply list_elem_of_lookup_2|].
    destruct (Hbase i r Hr) as [Hrid Hbs].
    assert (Hrq : ((fun i => o1 !!! i) <$> c) !! b = Some r) by (rewrite list_lookup_fmap, Hb; cbn; by rewrite (lookup_total_correct _ _ _ Hr)).
    exists r. do 5 (split; [done|]). eapply chosen_extend_ready; [exact Hh1| |done|done].
    apply elem_of_app. left. by eapply list_elem_of_lookup_2.
  - intros i r Hi Hr. destruct (Hbase i r Hr) as [Hrid Hbs]. do 2 (split; [done|]). rewrite Hinc2 in Hr by done.
    by apply (unchosen_rest slots s0 mode s c).
  - subst s1. cbn. unfold add_staging_reqs. by rewrite Hmg, Hst.
Qed.

(** What the batch records of its request [b], the record that went in being
    [r0] and its row [j]. *)
Definition batched (mode : forward_mode) (m : mem T) (o : store) (eb : extend_batch) (b : nat) (i : Z) : Prop :=
  exists r r0 j row,
    eb_reqs eb !! b = Some r /\ o !! i = Some r /\
    r = set_kv_lens (set_pool_idx r0 (Some j)) (len (fill_ids (inp r0))) (len (fill_ids (inp r0))) /\
    rid (info r) = i /\ base (max_context_len (rows m)) r0 /\
    (req_pool_idx (kvs r0) = None \/ req_pool_idx (kvs r0) = Some j) /\
    (exists table, chosen table mode r0 /\ len (prefix_indices (inp r0)) = (if mode then 0 else seqlen r0)) /\
    req_to_token (rows m) !! j = Some row /\ length row = max_context_len (rows m) /\
    eb_prefix_lens eb !! b = Some (len (prefix_indices (inp r0))) /\
    eb_extend_lens eb !! b = Some (extend_input_len (inp r0)) /\
    eb_req_pool_indices eb !! b = Some j.

(** A batch prepared from a staged store. *)
Lemma prepared_batch slots mode s0 o1 c eb m' :
  staged slots mode s0 o1 c -> NoDup c ->
  prepare_for_extend 1 masked oob empty ((fun i => o1 !!! i) <$> c) (smem s0) = Ok (eb, m') ->
  let o' := write_back c (eb_reqs eb) o1 in
  holds slots m' (eb_reqs eb ++ others o' c) /\ length (eb_reqs eb) = length c /\
  is_not_in_free_group (kv m') = is_not_in_free_group (kv (smem s0)) /\
  max_context_len (rows m') = max_context_len (rows (smem s0)) /\
  (length (eb_req_pool_indices eb) = length c /\ length (eb_prefix_lens eb) = length c /\ length (eb_seq_lens eb) = length c) /\
  (forall b i, c !! b = Some i -> batched mode m' o' eb b i) /\ (forall i, i ∉ c -> o' !! i = o1 !! i) /\
  (forall r, r ∈ others o1 c -> owned (req_to_token (rows m')) r = owned (req_to_token (rows (smem s0))) r) /\
  eb_input_ids eb = concat ((fun i => slice_from (fill_ids (inp (o' !!! i))) (len (prefix_indices (inp (o' !!! i))))) <$> c) /\
  eb_out_cache_loc eb = seq 0 (length c) ≫= (fun b =>
     take (Z.to_nat (eb_extend_lens eb !!! b)) (drop (Z.to_nat (eb_prefix_lens eb !!! b))
          (req_to_token (rows m') !!! (eb_req_pool_indices eb !!! b)))).
Proof.
  intros Hs Hnd Hprep o'. set (reqs := (fun i => o1 !!! i) <$> c) in *.
  assert (Hlr : length reqs = length c) by (unfold reqs; by rewrite length_fmap).
  destruct (prepare_fields _ _ _ _ _ _ _ _ Hprep) as (Hin & Hpl & Hel & Hpi & Hsq).
  apply (prepare_spec masked oob empty slots (smem s0) reqs (others o1 c)) in Hprep
    as (Hh' & (Hlen & Hrows & Hloc) & Hoth & Hg' & Hctx'); [|apply Hs|].
  2: { intros r (b & Hb)%list_elem_of_lookup. destruct (lookup_lt_is_Some_2 c b) as [i Hi].
       { apply lookup_lt_Some in Hb. lia. }
       destruct (g_req _ _ _ _ _ Hs b i Hi) as (r' & Hr' & _ & _ & _ & _ & He & _). fold reqs in Hr'. rewrite Hb in Hr'. by injection Hr' as <-. }
  assert (Hlc : length (eb_reqs eb) = length c) by lia.
  destruct (write_back_lookup c (eb_reqs eb) o1 Hnd Hlc) as [Hwb1 Hwb2]. fold o' in Hwb1, Hwb2.
  assert (Hfact : forall b i, c !! b = Some i -> batched mode m' o' eb b i).
  { intros b i Hb. destruct (g_req _ _ _ _ _ Hs b i Hb) as (r0 & Hr0 & _ & Hrid & Hbase & Hch & _ & Hpre).
    destruct (Hrows b r0 Hr0) as (j & row & Hr & Hor & Hrow & Hwd & _).
    exists (set_kv_lens (set_pool_idx r0 (Some j)) (len (fill_ids (inp r0))) (len (fill_ids (inp r0)))), r0, j, row.
    split; [done|]. split; [by apply (Hwb1 b)|]. split; [done|]. split; [done|]. split; [by rewrite Hctx'|].
    split; [done|]. split; [by eexists|]. split; [done|]. split; [done|].
    fold reqs in Hr0. rewrite Hpl, Hel, Hpi, !list_lookup_fmap, Hr0, Hr. done. }
  split_and!; try done.
  - by rewrite (others_ext o1 o').
  - by rewrite Hpi, length_fmap.
  - by rewrite Hpl, length_fmap.
  - by rewrite Hsq, length_fmap.
  - rewrite Hin. f_equal. unfold reqs. rewrite <- list_fmap_compose. apply Forall_fmap_ext_1, Forall_forall.
    intros i (b & Hb)%list_elem_of_lookup.
    destruct (g_req _ _ _ _ _ Hs b i Hb) as (r0' & Hr0' & Ho0 & _). destruct (Hrows b r0' Hr0') as (j' & row' & Hr' & _).
    rewrite (lookup_total_correct _ _ _ (Hwb1 b i _ Hb Hr')). cbn. by rewrite (lookup_total_correct _ _ _ Ho0).
  - rewrite Hloc, Hlr. apply bind_ext_seq. intros b Hb. destruct (lookup_lt_is_Some_2 c b Hb) as [i Hi].
    destruct (g_req _ _ _ _ _ Hs b i Hi) as (r0 & Hr0 & _). destruct (Hrows b r0 Hr0) as (j & row & Hr & _).
    rewrite (list_lookup_total_correct _ _ _ Hr0), (list_lookup_total_correct _ _ _ Hr).
    rewrite Hel, Hpl, Hpi. rewrite !total_fmap by lia.
    rewrite (list_lookup_total_correct _ _ _ Hr0), (list_lookup_total_correct _ _ _ Hr).
    unfold len. by rewrite Nat2Z.id.
Qed.

Lemma create_inflight slots s0 mode s c s4 eb :
  sinv slots s0 -> live s0 -> staging (mgr s0) = [] -> page se = 1 -> c <> [] ->
  choosing slots mode s0 s c ->
  create_dllm_batch se masked oob empty c (update_state_for_batch c s) = Ok (eb, s4) ->
  inflight slots mode s4 c eb.
Proof.
  intros Hinv Hlive Hst Hpage Hne Hc. destruct (c_sub _ _ _ _ _ Hc) as [Hnd Hsub].
  destruct (update_staged slots s0 mode s c Hinv Hlive Hst Hc) as (Hs & Hsm & Hmg & Hwq).
  unfold create_dllm_batch. rewrite Hpage. set (s1 := update_state_for_batch c s) in *. rewrite Hsm.
  destruct (prepare_for_extend _ _ _ _ _ _) as [[eb' m']|] eqn:Hprep; [|discriminate]. step_ok. intros [= -> <-].
  destruct (prepared_batch slots mode s0 (objs s1) c eb m' Hs Hnd Hprep)
    as (Hh & Hlc & Hg & Hctx & Hls & Hfact & Hwb & Hoth & Hin & Hloc).
  split; cbn [set_mem set_objs objs smem mgr waiting_queue]; rewrite ?Hmg, ?Hwq; cbn [waiting staging]; try done.
  - rewrite Hg. apply Hinv.
  - apply Hinv.
  - intros i Hi. destruct (i_dom _ _ Hinv i Hi) as [r Hr]. destruct (soft_lookup _ _ _ _ (g_soft _ _ _ _ _ Hs) Hr) as (r' & Hr' & _).
    destruct (decide (i ∈ c)) as [Hic|Hic]; [|rewrite Hwb by done; by eexists].
    apply list_elem_of_lookup in Hic as (b & Hb). destruct (Hfact b i Hb) as (r1 & ? & ? & ? & _ & Hr1 & _). by eexists.
  - intros i r Hi Hr. rewrite Hwb in Hr by done. destruct (g_rest _ _ _ _ _ Hs i r Hi Hr) as (Hrid & Hb & Hq & Hw).
    rewrite Hctx. do 3 (split; [done|]). intros [?|[Y1 Y2 Y3 Y4 Y5]]%Hw; [by left|]. right. split; try done.
    rewrite Y3. symmetry. apply Hoth, elem_of_others. by exists i.
Qed.

(** *** Processing results *)

Lemma holds_kvs slots (m : mem T) r r' rs :
  kvs r' = kvs r -> holds slots m (r :: rs) -> holds slots m (r' :: rs).
Proof.
  intros Hk [H1 H2 H3 H4 H5]. split; try done.
  - rewrite bind_cons in *. by rewrite (owned_ext _ r r' Hk).
  - rewrite bind_cons in *. unfold idx_of at 1 in H2. unfold idx_of at 1. by rewrite Hk.
Qed.

(** The slots a request still holds when the algorithm returns. *)
Definition left_len (r : req) (n : Z) : Z :=
  kv_committed_len (kvs r) - bs + (if tidar_manages_kv se then n else bs).

Lemma drop_rejected_spec slots (m : mem T) r rs n :
  holds slots m (set_kv_lens r (left_len r n) (left_len r n) :: rs) -> is_Some (req_pool_idx (kvs r)) ->
  0 <= n <= bs -> bs <= kv_committed_len (kvs r) <= Z.of_nat (max_context_len (rows m)) ->
  let '(r', m') := drop_rejected se (bs - n) r m in
  holds slots m' (r' :: rs) /\ r' = set_kv_lens r (kv_committed_len (kvs r) - bs + n) (kv_committed_len (kvs r) - bs + n) /\
  rows m' = rows m /\ is_not_in_free_group (kv m') = is_not_in_free_group (kv m).
Proof.
  intros Hh [j Hj] Hn Hc. unfold drop_rejected, left_len in *. destruct m as [a p t]. cbn [rows kv tree] in *.
  replace (kv_committed_len (kvs r) - (bs - n)) with (kv_committed_len (kvs r) - bs + n) by lia.
  destruct (tidar_manages_kv se).
  - split; [|done]. exact Hh.
  - split; [|split; [done|split; [done|apply Token.free_group_flag]]].
    replace (kv_committed_len (kvs r) - bs + bs) with (kv_committed_len (kvs r)) in Hh by lia.
    apply (holds_trim _ _ _ _ _ _ j (kv_committed_len (kvs r) - bs + n)) in Hh; cbn; [|done|lia|lia].
    unfold pool_idx. rewrite Hj. exact Hh.
Qed.

Lemma extend_logprobs_frame lps idx toks r r' :
  extend_logprobs lps idx toks r = Ok r' ->
  kvs r' = kvs r /\ info r' = info r /\ output_ids (out r') = output_ids (out r) /\
  finished_reason (out r') = finished_reason (out r).
Proof.
  unfold extend_logprobs. destruct (next_token_logprobs lps) as [l|]; [|by intros [= <-]].
  destruct (return_logprob (info r)); [|by intros [= <-]]. intros H. apply res_bind_Ok in H as (x & _ & H).
  destruct (_ =? _); [|done]. apply res_bind_Ok in H as (? & _ & H). apply res_bind_Ok in H as (? & _ & H).
  by injection H as <-.
Qed.

Lemma round_frame r :
  kvs (round_finished_len se r) = kvs r /\ info (round_finished_len se r) = info r /\
  output_ids (out (round_finished_len se r)) = output_ids (out r) /\
  finished (round_finished_len se r) = finished r.
Proof.
  unfold round_finished_len. destruct (finished_len (out r)); [|done].
  destruct (finished r && emit_full_blocks (cfg se)); done.
Qed.

Lemma finished_reason_false r : finished r = false <-> finished_reason (out r) = None.
Proof. unfold finished. rewrite bool_decide_eq_false. destruct (finished_reason (out r)); naive_solver. Qed.

Lemma base_grow ctx r r' :
  info r' = info r -> cache_protected_len (kvs r') = cache_protected_len (kvs r) ->
  (finished r' = false -> len (output_ids (out r')) <= max_new_tokens (sampling (info r))) ->
  (finished r' = true -> req_pool_idx (kvs r') = None) -> base ctx r -> base ctx r'.
Proof. intros Hi Hp Ho Hd [H1 H2 H3 H4 H5 H6 H7]. split; rewrite ?Hi, ?Hp; done. Qed.

(** One request of a block batch: what it commits stays, the rest goes back. *)
Lemma process_one_spec slots (m : mem T) r rs toks lps idx r' m' :
  page se = 1 -> strip_thinking se = false ->
  holds slots m (set_kv_lens r (left_len r (len toks)) (left_len r (len toks)) :: rs) ->
  is_Some (req_pool_idx (kvs r)) -> len toks <= bs ->
  kv_committed_len (kvs r) = seqlen r + bs -> kv_allocated_len (kvs r) = kv_committed_len (kvs r) ->
  kv_committed_freed (kvs r) = false -> kv_overallocated_freed (kvs r) = false -> finished r = false ->
  seqlen r + bs <= Z.of_nat (max_context_len (rows m)) -> base (max_context_len (rows m)) r ->
  process_one se toks lps idx r m = Ok (r', m') ->
  holds slots m' (r' :: rs) /\ (finished r' = true \/ active r') /\ info r' = info r /\
  base (max_context_len (rows m)) r' /\ req_to_token (rows m') = req_to_token (rows m) /\
  max_context_len (rows m') = max_context_len (rows m) /\
  is_not_in_free_group (kv m') = is_not_in_free_group (kv m) /\
  len (output_ids (out r')) = len (output_ids (out r)) + len toks.
Proof.
  intros Hpage Hstrip Hh Hidx Htoks Hc Hal Hcf Hof Hfin Hctx Hbase. unfold process_one. cbn zeta.
  pose proof (len_nonneg toks) as Hn0.
  assert (Hsl0 : 0 <= seqlen r) by (unfold seqlen, len; lia).
  destruct (Z.eqb_spec (len toks) 0) as [H0|H0].
  { destruct (drop_rejected se bs r m) as [r0 m0] eqn:Hd. intros [= <- <-].
    pose proof (drop_rejected_spec slots m r rs 0) as Hs. rewrite Z.sub_0_r, Hd in Hs.
    rewrite H0 in Hh. destruct Hs as (Hh' & -> & Hrows & Hg); [done|done|lia|lia|].
    split; [done|]. split; [right|].
    - split; cbn; try done. unfold seqlen in *. cbn. lia.
    - split; [done|]. split; [|rewrite Hrows, H0; split; [done|split; [done|split; [done|cbn; lia]]]]. apply (base_grow _ r); try done; cbn.
      + intros _. apply Hbase. done.
      + unfold finished in *. cbn. by rewrite Hfin. }
  set (r1 := extend_output toks (set_fill_ids r (assign_tail (fill_ids (inp r)) toks))).
  destruct (extend_logprobs lps idx toks r1) as [r2|] eqn:Hlp; [|done].
  step_ok.
  destruct (extend_logprobs_frame _ _ _ _ _ Hlp) as (Hk2 & Hi2 & Ho2 & Hr2).
  change (kvs r1) with (kvs r) in Hk2. change (info r1) with (info r) in Hi2.
  change (output_ids (out r1)) with (output_ids (out r) ++ toks) in Ho2.
  change (finished_reason (out r1)) with (finished_reason (out r)) in Hr2.
  destruct (if len toks <? bs then drop_rejected se (bs - len toks) r2 m else (r2, m)) as [r3 m3] eqn:Hd.
  assert (H3 : holds slots m3 (r3 :: rs) /\ info r3 = info r /\ out r3 = out r2 /\
    kvs r3 = kvs (set_kv_lens r (seqlen r + len toks) (seqlen r + len toks)) /\
    rows m3 = rows m /\ is_not_in_free_group (kv m3) = is_not_in_free_group (kv m)).
  { assert (Hh2 : holds slots m (set_kv_lens r2 (left_len r2 (len toks)) (left_len r2 (len toks)) :: rs)).
    { revert Hh. apply holds_kvs. unfold left_len. cbn. by rewrite Hk2. }
    destruct (Z.ltb_spec (len toks) bs) as [Hlt|Hge].
    - pose proof (drop_rejected_spec slots m r2 rs (len toks)) as Hs. rewrite Hd in Hs.
      destruct Hs as (Hh' & -> & Hrows & Hg); [done|by rewrite Hk2|lia|rewrite Hk2; lia|].
      split; [done|]. split; [done|]. split; [done|]. split; [|done]. cbn. rewrite Hk2, Hc. f_equal; lia.
    - injection Hd as <- <-. assert (Hb : len toks = bs) by lia. split; [|split; [done|split; [done|split; [|done]]]].
      + revert Hh2. apply holds_kvs. unfold left_len. cbn. rewrite Hk2, Hb.
        destruct (kvs r) as [? ? ? ? ? ?]; cbn in *. destruct (tidar_manages_kv se); f_equal; lia.
      + rewrite Hk2, Hb. cbn. destruct (kvs r) as [? ? ? ? ? ?]; cbn in *. f_equal; lia. }
  destruct H3 as (Hh3 & Hi3 & Ho3 & Hk3 & Hrows3 & Hg3). clear Hd.
  assert (Hf3 : finished r3 = false) by (apply finished_reason_false; rewrite Ho3, Hr2; by apply finished_reason_false).
  destruct (check_finished_frame (str_finish se) (grammar_terminated se) (len toks) r3)
    as (Hk4 & Hi4 & _ & Hl4 & Hgo).
  set (r4 := check_finished _ _ _ r3) in *. clearbody r4.
  destruct (round_frame r4) as (Hk5 & Hi5 & Ho5 & Hf5).
  set (r5 := round_finished_len se r4) in *. clearbody r5.
  assert (Hkv5 : kvs r5 = kvs (set_kv_lens r (seqlen r + len toks) (seqlen r + len toks))) by congruence.
  assert (Hlen5 : len (output_ids (out r5)) = len (output_ids (out r)) + len toks)
    by (rewrite Ho5, Hl4, Ho3, Ho2, len_app; done).
  assert (Hinfo5 : info r5 = info r) by congruence.
  assert (Hsl5 : seqlen r5 = seqlen r + len toks) by (unfold seqlen; rewrite Hinfo5, Hlen5; lia).
  assert (Hh5 : holds slots m3 (r5 :: rs)) by (revert Hh3; apply holds_kvs; congruence).
  assert (Hbase5 : (finished r5 = true -> False) -> base (max_context_len (rows m)) r5).
  { intros Hnf. apply (base_grow _ r); [done|by rewrite Hkv5| |done|done]. intros Hf.
    rewrite Hf5 in Hf. destruct (Hgo Hf) as [-> Hlt]. rewrite Hlen5. rewrite Hi3 in Hlt.
    rewrite Ho3, Ho2, len_app in Hlt. lia. }
  destruct (finished r5) eqn:Hfin5.
  - rewrite Hpage, Hstrip. intros Hrel.
    destruct (holds_release 1 slots m3 r5 rs) as (r6 & m6 & Hrel' & Hh6 & Hidx6 & Hi6 & Ho6 & _ & Hg6 & Hc6 & Ht6 & Hp6);
      [done|by rewrite Hkv5|lia|by rewrite Hkv5|by rewrite Hkv5|rewrite Hkv5; apply Hbase
      |rewrite Hkv5, Hsl5; done|by rewrite Hkv5|].
    rewrite Hrel' in Hrel. injection Hrel as -> ->.
    assert (Hfin6 : finished r' = true) by (unfold finished in *; by rewrite Ho6).
    split; [done|]. split; [by left|]. split; [congruence|].
    split; [|rewrite Ht6, Hc6, Hg6, Hrows3, Ho6; done].
    apply (base_grow _ r); [congruence|by rewrite Hp6, Hkv5|by rewrite Hfin6|done|done].
  - intros [= <- <-]. split; [done|]. split; [right|split; [done|split; [by apply Hbase5|by rewrite Hrows3]]].
    split; try done; rewrite ?Hkv5; try done.
Qed.

Lemma holds_begin slots (m : mem T) rs :
  is_not_in_free_group (kv m) = true -> holds slots m rs ->
  holds slots (Mem (free_group_begin (kv m)) (rows m) (tree m)) rs.
Proof.
  intros Hg [H1 H2 H3 H4 H5]. split; try done. cbn [kv rows tree]. rewrite <- H1. unfold Token.pool at 1 2.
  rewrite Hg. done.
Qed.

Lemma holds_end slots (m : mem T) rs :
  is_not_in_free_group (kv m) = false -> holds slots m rs ->
  holds slots (Mem (Token.free_group_end (kv m)) (rows m) (tree m)) rs /\
  is_not_in_free_group (Token.free_group_end (kv m)) = true.
Proof.
  intros Hg [H1 H2 H3 H4 H5]. split.
  - split; try done; cbn [kv rows tree]; [|by apply Token.group_end_wf].
    by rewrite Token.group_end_pool.
  - unfold Token.free_group_end. destruct (bool_decide _); [done|]. by rewrite Token.free_group_flag.
Qed.

(** Request [b] of the batch while the results of the first [k] have been
    processed. *)
Definition at_step (c : list Z) (v : nat -> req) (o : store) (k b : nat) : req :=
  if decide (b < k)%nat then o !!! (c !!! b) else v b.

Lemma at_step_split c v o k n :
  (k < n)%nat ->
  at_step c v o k <$> seq 0 n ≡ₚ v k :: ((at_step c v o k <$> seq 0 k) ++ (at_step c v o k <$> seq (S k) (n - k - 1))).
Proof.
  intros Hk. replace n with (k + S (n - k - 1))%nat at 1 by lia.
  rewrite seq_app, fmap_app. cbn [seq plus]. rewrite fmap_cons.
  assert (Hv : at_step c v o k k = v k) by (unfold at_step; by rewrite decide_False by lia).
  rewrite Hv. symmetry. apply Permutation_middle.
Qed.

Lemma at_step_next c v o k n i r :
  (k < n)%nat -> n = length c -> NoDup c -> c !! k = Some i ->
  at_step c v (<[i := r]> o) (S k) <$> seq 0 n
  ≡ₚ r :: ((at_step c v o k <$> seq 0 k) ++ (at_step c v o k <$> seq (S k) (n - k - 1))).
Proof.
  intros Hk Hn Hnd Hi. replace n with (k + S (n - k - 1))%nat at 1 by lia.
  rewrite seq_app, fmap_app. cbn [seq plus]. rewrite fmap_cons.
  assert (Hother : forall b, (b < n)%nat -> b <> k -> <[i := r]> o !!! (c !!! b) = o !!! (c !!! b)).
  { intros b Hb Hne. apply lookup_total_insert_ne. intros Heq. apply Hne.
    apply (NoDup_lookup c b k i Hnd); [|done]. rewrite Heq. apply list_lookup_lookup_total_lt. lia. }
  assert (Hk' : at_step c v (<[i := r]> o) (S k) k = r).
  { unfold at_step. rewrite decide_True by lia. rewrite (list_lookup_total_correct _ _ _ Hi).
    by rewrite lookup_total_insert_eq. }
  assert (HA : at_step c v (<[i := r]> o) (S k) <$> seq 0 k = at_step c v o k <$> seq 0 k).
  { apply list_fmap_ext. intros b x Hx. apply lookup_seq in Hx as [-> Hlt]. unfold at_step.
    rewrite !decide_True by lia. apply Hother; lia. }
  assert (HB : at_step c v (<[i := r]> o) (S k) <$> seq (S k) (n - k - 1)
    = at_step c v o k <$> seq (S k) (n - k - 1)).
  { apply list_fmap_ext. intros b x Hx. apply lookup_seq in Hx as [-> Hlt]. unfold at_step.
    by rewrite !decide_False by lia. }
  rewrite Hk', HA, HB. symmetry. apply Permutation_middle.
Qed.

(** A request whose block has just been decoded. *)
Record decoded (ctx : nat) (r : req) : Prop := Decoded {
  d_idx : is_Some (req_pool_idx (kvs r));
  d_len : kv_committed_len (kvs r) = seqlen r + bs /\ kv_allocated_len (kvs r) = kv_committed_len (kvs r);
  d_kv : kv_committed_freed (kvs r) = false /\ kv_overallocated_freed (kvs r) = false;
  d_fin : finished r = false;
  d_ctx : seqlen r + bs <= Z.of_nat ctx;
  d_base : base ctx r;
}.

(** What has been established after the first [k] requests. *)
Record processed (slots : list Z) (c : list Z) (outs : list (list Z)) (v : nat -> req) (rest : list req)
    (s0 s : @sched T) (k : nat) : Prop := Processed {
  p_holds : holds slots (smem s) ((at_step c v (objs s) k <$> seq 0 (length c)) ++ rest);
  p_out i : i ∉ c -> objs s !! i = objs s0 !! i;
  p_todo b i : (k <= b)%nat -> c !! b = Some i -> objs s !! i = objs s0 !! i;
  p_done b i : (b < k)%nat -> c !! b = Some i -> exists r, objs s !! i = Some r /\ rid (info r) = i /\
    base (max_context_len (rows (smem s0))) r /\ (finished r = true \/ active r) /\
    exists r0 toks, objs s0 !! i = Some r0 /\ outs !! b = Some toks /\ info r = info r0 /\ finished r0 = false /\
      len (output_ids (out r)) = len (output_ids (out r0)) + len toks;
  p_same : mgr s = mgr s0 /\ waiting_queue s = waiting_queue s0 /\
    req_to_token (rows (smem s)) = req_to_token (rows (smem s0)) /\
    max_context_len (rows (smem s)) = max_context_len (rows (smem s0)) /\
    is_not_in_free_group (kv (smem s)) = is_not_in_free_group (kv (smem s0));
}.

Lemma process_loop slots c (outs : list (list Z)) (lps : lp_result) v rest s0 :
  page se = 1 -> strip_thinking se = false -> NoDup c ->
  (forall b toks, outs !! b = Some toks -> len toks <= bs) ->
  (forall b i, c !! b = Some i -> exists r toks, objs s0 !! i = Some r /\ rid (info r) = i /\
     decoded (max_context_len (rows (smem s0))) r /\ outs !! b = Some toks /\
     v b = set_kv_lens r (left_len r (len toks)) (left_len r (len toks))) ->
  holds slots (smem s0) ((at_step c v (objs s0) 0 <$> seq 0 (length c)) ++ rest) ->
  forall k s, (k <= length c)%nat ->
  foldM (fun s idx =>
      let i := c !!! idx in
      toks ← of_option IndexError (outs !! idx);
      '(r, m) ← process_one se toks lps idx (objs s !!! i) (smem s);
      Ok (Sched (<[i := r]> (objs s)) (waiting_queue s) (mgr s) (batch_is_full s) m
            (num_generated_tokens s + len toks))) s0 (seq 0 k) = Ok s ->
  processed slots c outs v rest s0 s k.
Proof.
  intros Hpage Hstrip Hnd Houts Hreq Hh0. induction k as [|k IH]; intros s Hk.
  { intros [= <-]. split; try done. lia. }
  rewrite seq_S, foldM_app. destruct (foldM _ s0 (seq 0 k)) as [s1|] eqn:Hf; [|done].
  change (Ok ?x ≫= ?f) with (f x). cbn [foldM plus]. cbn zeta.
  specialize (IH s1 ltac:(lia) eq_refl). destruct IH as [Ph Po Pt Pd (Pm & Pw & Ptab & Pctx & Pg)].
  destruct (lookup_lt_is_Some_2 c k ltac:(lia)) as [i Hi]. rewrite (list_lookup_total_correct _ _ _ Hi).
  destruct (Hreq k i Hi) as (r & toks & Hr & Hrid & Hdec & Htoks & Hv). rewrite Htoks. cbn [of_option].
  step_ok.
  assert (Hr1 : objs s1 !! i = Some r) by (rewrite (Pt k i); [done|lia|done]).
  rewrite (lookup_total_correct _ _ _ Hr1).
  destruct (process_one _ _ _ _ _ _) as [[r' m']|] eqn:Hone; [|done].
  step_ok. step_ok. intros [= <-].
  rewrite (at_step_split c v (objs s1) k (length c)), Hv in Ph by lia. cbn [app] in Ph.
  destruct Hdec as [D1 [D2 D3] [D4 D5] D6 D7 D8].
  eapply process_one_spec in Hone as (Hh' & Hst' & Hinf' & Hb' & Ht' & Hc' & Hg' & Hgrow);
    [|done|done|exact Ph|done|by eapply Houts|done|done|done|done|done|by rewrite Pctx|by rewrite Pctx].
  split; cbn [objs smem mgr waiting_queue].
  - rewrite (at_step_next c v (objs s1) k (length c) i r') by (done || lia). exact Hh'.
  - intros j Hj. rewrite lookup_insert_ne; [by apply Po|]. intros ->. apply Hj. by eapply list_elem_of_lookup_2.
  - intros b j Hb Hj. rewrite lookup_insert_ne; [apply (Pt b); [lia|done]|]. intros ->.
    assert (b = k) by (by eapply NoDup_lookup). lia.
  - intros b j Hb Hj. destruct (decide (b = k)) as [->|Hne].
    + rewrite Hi in Hj. injection Hj as <-. exists r'. rewrite lookup_insert_eq. split; [done|].
      split; [congruence|]. rewrite Pctx in Hb'. split; [done|]. split; [done|]. by exists r, toks.
    + rewrite lookup_insert_ne; [apply (Pd b); [lia|done]|]. intros ->. apply Hne. by eapply NoDup_lookup.
  - split; [done|]. split; [done|]. split; [congruence|]. split; congruence.
Qed.

Lemma clear_soft (l : list Z) (o : store) :
  NoDup l -> (forall i, i ∈ l -> is_Some (o !! i)) ->
  soft o (foldl (fun o i => <[i := set_fill_ids (o !!! i) []]> o) o l).
Proof.
  revert o. induction l as [|i l IH]; intros o Hnd Hin; [done|]. apply NoDup_cons in Hnd as [Hi Hnd].
  destruct (Hin i ltac:(by left)) as [r Hr]. cbn [foldl]. rewrite (lookup_total_correct _ _ _ Hr).
  etransitivity; [apply (soft_insert o i r (set_fill_ids r [])); [done|by repeat split]|]. apply IH; [done|].
  intros j Hj. rewrite lookup_insert_ne by (by intros ->). apply Hin. by right.
Qed.

(** The prompt pass leaves the batch staged, each request with its prompt's
    slots. *)
Lemma finish_prompts slots s c eb :
  inflight slots EXTEND s c eb ->
  sinv slots (set_objs s (foldl (fun o i => <[i := set_fill_ids (o !!! i) []]> o) (objs s) c)).
Proof.
  intros [Nh Ng Nn Nd Ns (Nne & Nnd & Nsub) Nl _ Nr Nrest _ _].
  assert (Hget : forall i, i ∈ c -> exists r, objs s !! i = Some r /\ rid (info r) = i /\
    base (max_context_len (rows (smem s))) r /\ active r).
  { intros i (b & Hb)%list_elem_of_lookup. destruct (Nr b i Hb) as (r & r0 & j & row & _ & Hr & -> & Hrid & Hb0 & _ &
      (table & (Hf & Hfi & Hpf & He) & _) & _).
    eexists. split; [exact Hr|]. split; [done|]. destruct Hf as [F1 F2 F3 F4 F5]. split.
    - apply (base_grow _ r0); [done|done| | |done].
      + intros _. change (len (output_ids (out r0)) <= max_new_tokens (sampling (info r0))). rewrite F3, len_nil. apply Hb0.
      + intros Hx. change (finished r0 = true) in Hx. congruence.
    - split; cbn; try done.
      unfold seqlen. cbn. rewrite Hfi, F3, len_nil. lia. }
  assert (Hsoft := clear_soft c (objs s) Nnd ltac:(intros i Hi; destruct (Hget i Hi) as (r & -> & _); by eexists)).
  assert (Hout : forall l (o : store) j, j ∉ l -> foldl (fun o i => <[i := set_fill_ids (o !!! i) []]> o) o l !! j = o !! j).
  { induction l as [|i l IH]; intros o j Hj; [done|]. apply not_elem_of_cons in Hj as [Hne Hj]. cbn [foldl].
    rewrite IH by done. by rewrite lookup_insert_ne by done. }
  specialize (Hout c (objs s)). set (o' := foldl _ _ c) in *.
  assert (Hvals : vals (objs s) ≡ₚ eb_reqs eb ++ others (objs s) c).
  { rewrite (vals_split (objs s) c Nnd) by (intros i Hi; destruct (Hget i Hi) as (r & -> & _); by eexists).
    assert (He : (fun i => objs s !!! i) <$> c = eb_reqs eb); [|by rewrite He].
    apply list_eq. intros b. rewrite list_lookup_fmap.
    destruct (c !! b) as [i|] eqn:Hb; cbn.
    - destruct (Nr b i Hb) as (r & r0 & j & row & -> & Hr & _). by rewrite (lookup_total_correct _ _ _ Hr).
    - symmetry. apply lookup_ge_None_2. rewrite Nl. by apply lookup_ge_None_1. }
  split; cbn [set_objs objs smem mgr waiting_queue].
  - apply (holds_soft _ _ (objs s)); [done|]. by rewrite Hvals.
  - done.
  - done.
  - intros i Hi. destruct (Nd i Hi) as [r Hr]. destruct (soft_lookup _ _ _ _ Hsoft Hr) as (r' & Hr' & _). by eexists.
  - rewrite Ns. by split.
  - intros i r' Hr'. destruct (soft_lookup_r _ _ _ _ Hsoft Hr') as (r & Hr & (Hk & Hinf & Ho)).
    rewrite Hinf. destruct (decide (i ∈ c)) as [Hi|Hi].
    + destruct (Hget i Hi) as (r1 & Hr1 & Hrid & Hb & _). rewrite Hr in Hr1. injection Hr1 as <-.
      split; [done|]. by apply (base_ext _ r).
    + destruct (Nrest i r Hi Hr) as (Hrid & Hb & _). split; [done|]. by apply (base_ext _ r).
  - intros i r Hi Hr. assert (Hic : i ∉ c).
    { intros Hic%Nsub. apply NoDup_app in Nn as (_ & Hdis & _). by apply (Hdis i). }
    rewrite Hout in Hr by done. by apply (Nrest i r Hic Hr).
  - intros i r Hi Hns Hr. rewrite Ns in Hns. rewrite Hout in Hr by done. right. by apply (Nrest i r Hns Hr).
  - intros i r' Hi Hr'. rewrite Ns in Hi. right. destruct (soft_lookup_r _ _ _ _ Hsoft Hr') as (r & Hr & (Hk & Hinf & Ho)).
    destruct (Hget i Hi) as (r1 & Hr1 & _ & _ & Ha). rewrite Hr in Hr1. injection Hr1 as <-. by apply (active_ext r).
Qed.
End invariant.

(** ** A block cut for lack of memory *)

Section truncated.
Context {T : Type} `{!PrefixCache T} (se : @settings T).
Local Notation bs := (block_size (cfg se)).

(** Releasing a request's memory takes its row. *)
Lemma release_drops_row ps strip ins r (m : mem T) r' m' :
  release_kv_cache ps strip ins r m = Ok (r', m') -> req_pool_idx (kvs r') = None.
Proof.
  unfold release_kv_cache. destruct (req_pool_idx (kvs r)); [|done].
  intros (row & _ & H)%res_bind_Ok. apply res_bind_Ok in H as ([r1 [t a]] & _ & H).
  apply res_bind_Ok in H as ([[sp ep] r2] & _ & H). apply res_bind_Ok in H as (u & _ & H).
  apply res_bind_Ok in H as ([r3 p] & Hp & [= <- _]). unfold pool_free in Hp.
  destruct (req_pool_idx (kvs r2)); [|done]. by injection Hp as <- _.
Qed.

(** A truncated block makes the scheduler free slots of tokens it keeps.
    When memory runs short a block of a request is cut to [e] of its [bs]
    positions; an algorithm that accepts such a block (JointThreshold does) and
    leaves memory to the scheduler returns at most [e] tokens.  The scheduler
    counts the rejected positions from [bs]: if the request keeps its row, it has
    freed, beyond the rejected slots, the slots of the last [bs - e] tokens of
    the request, which now holds that many slots fewer than it has tokens. *)
Theorem truncated_block_overfrees (m : mem T) r toks lps idx r' m' j e :
  tidar_manages_kv se = false -> req_pool_idx (kvs r) = Some j ->
  kv_committed_len (kvs r) = seqlen r + e ->
  0 < len toks <= e -> e < bs -> bs - e <= seqlen r + len toks ->
  process_one se toks lps idx r m = Ok (r', m') -> is_Some (req_pool_idx (kvs r')) ->
  seqlen r' = seqlen r + len toks /\
  kv_committed_len (kvs r') = seqlen r' - (bs - e) /\ rows m' = rows m /\
  Token.pool (kv m') ≡ₚ slice (req_to_token (rows m) !!! j) (seqlen r' - (bs - e)) (seqlen r + e) ++ Token.pool (kv m).
Proof.
  intros Htidar Hj Hc Hk He Hlo. unfold process_one. cbn zeta.
  rewrite (proj2 (Z.eqb_neq _ _)) by lia.
  set (r1 := extend_output toks _). destruct (extend_logprobs lps idx toks r1) as [r2|] eqn:Hlp; [|done]. step_ok.
  destruct (extend_logprobs_frame _ _ _ _ _ Hlp) as (Hk2 & Hi2 & Ho2 & _).
  change (kvs r1) with (kvs r) in Hk2. change (info r1) with (info r) in Hi2.
  change (output_ids (out r1)) with (output_ids (out r) ++ toks) in Ho2.
  rewrite (proj2 (Z.ltb_lt _ _)) by lia. unfold drop_rejected. rewrite Htidar.
  set (r3 := set_kv_lens r2 _ _).
  destruct (check_finished_frame (str_finish se) (grammar_terminated se) (len toks) r3) as (Hk4 & Hi4 & _ & Hl4 & _).
  set (r4 := check_finished _ _ _ r3) in *. clearbody r4.
  destruct (round_frame se r4) as (Hk5 & Hi5 & Ho5 & _). set (r5 := round_finished_len se r4) in *. clearbody r5.
  destruct (finished r5) eqn:Hf5.
  { intros Hrel [k Hx]. rewrite (release_drops_row _ _ _ _ _ _ _ Hrel) in Hx. done. }
  intros [= <- <-] _. assert (Hkv : kvs r5 = kvs r3) by congruence.
  assert (Hs5 : seqlen r5 = seqlen r + len toks).
  { unfold seqlen. rewrite Hi5, Hi4, Ho5, Hl4. change (info r3) with (info r2). change (out r3) with (out r2).
    rewrite Hi2, Ho2, len_app. lia. }
  rewrite Hkv, Hs5. cbn [r3 set_kv_lens kvs set_kvs kv_committed_len kv rows]. rewrite Hk2, Hc.
  split; [done|]. split; [lia|]. split; [done|]. rewrite Token.free_pool. unfold pool_idx.
  rewrite Hk2, Hj. cbn [default]. replace (seqlen r + len toks - (bs - e)) with (seqlen r + e - (bs - len toks)) by lia. done.
Qed.
End truncated.
