(* ===== verification/DllmService.v ===== *)
(** * The diffusion server's loop

    The rounds of the scheduler's event loop as a step relation: requests
    arrive, a batch is formed (get_next_batch_to_run), the decoding algorithm
    runs on it, and its result is processed (process_batch_result_dllm).  The
    theorems hold for every prefix cache and every algorithm that satisfy their
    interfaces, over every sequence of rounds, on a server with pages of one slot
    and without strip_thinking.  A request that arrives ([base]) has a nonempty
    prompt without mask tokens and room in a row of the table for its prompt,
    its output limit and the [width] slots that the algorithm writes past them;
    the server does not check the last, and Tidar.v shows what a shorter row
    loses.  Batches are those the scheduler forms: one whose blocks were cut for
    lack of memory makes an algorithm of the interface raise, and no round
    results ([truncated_block_overfrees] is what happens otherwise). *)

From S2P Require Import Prelude Allocator DllmReq PrefillAdder MemCommon KvAccounting DllmScheduler DllmSchedulerProofs.

Section service.
Context {T : Type} `{!PrefixCache T} (se : @settings T) (masked : lanes) (oob : Z -> Z) (empty : Z -> list Z).
Local Notation bs := (block_size (cfg se)).
Local Notation mask := (mask_id (cfg se)).
Context `{!DllmAlgorithm (Z.to_nat bs) mask (tidar_manages_kv se)}.
Local Notation width := (alg_width (bs := Z.to_nat bs) (mask := mask) (manages_kv := tidar_manages_kv se)).

Hypothesis bs_pos : 0 < bs.

(** *** A block batch in flight *)

(** What the request at position [b] adds to a block batch: mask tokens, at
    least one and at most a block. *)
Lemma block_extension slots s c eb :
  inflight se width slots DLLM_EXTEND s c eb ->
  forall b i, c !! b = Some i -> exists e, eb_extend_lens eb !! b = Some e /\ 0 < e <= bs /\
    slice_from (fill_ids (inp (objs s !!! i))) (len (prefix_indices (inp (objs s !!! i)))) = replicate (Z.to_nat e) mask.
Proof.
  intros Hin b i Hb. destruct (n_req _ _ _ _ _ _ _ Hin b i Hb) as
    (r & r0 & j & row & _ & Ho & -> & _ & _ & _ & (table & (_ & _ & _ & [He Hf] & _) & Hpl) & _ & _ & _ & Hext & _).
  eexists. split; [exact Hext|]. split; [done|]. rewrite (lookup_total_correct _ _ _ Ho). cbn.
  assert (0 <= seqlen r0) by (unfold seqlen, len; lia).
  rewrite Hpl, Hf, slice_from_drop, app_assoc by done.
  rewrite drop_app_ge; [|rewrite length_app; unfold seqlen, len; lia].
  replace (_ - _)%nat with 0%nat by (rewrite length_app; unfold seqlen, len; lia). by rewrite drop_0.
Qed.

(** So a block batch is made of masks, and is not empty. *)
Lemma block_masks slots s c eb :
  inflight se width slots DLLM_EXTEND s c eb -> Forall (fun x => x = mask) (eb_input_ids eb) /\ mask ∈ eb_input_ids eb.
Proof.
  intros Hin. rewrite (n_input _ _ _ _ _ _ _ Hin). pose proof (block_extension _ _ _ _ Hin) as Hext. split.
  - apply Forall_concat, Forall_fmap, Forall_lookup. intros b i Hb. destruct (Hext b i Hb) as (e & _ & _ & Hs).
    cbn. rewrite Hs. by apply Forall_replicate.
  - destruct (n_ids _ _ _ _ _ _ _ Hin) as (Hne & _ & _). destruct c as [|i c]; [done|].
    destruct (Hext 0%nat i eq_refl) as (e & _ & He & Hs). cbn [fmap list_fmap concat]. apply elem_of_app. left.
    rewrite Hs. destruct (Z.to_nat e) eqn:E; [lia|]. by left.
Qed.

(** Blocks of [bs] tokens each. *)
Definition whole (c : list Z) (eb : extend_batch) : Prop :=
  forall b, (b < length c)%nat -> eb_extend_lens eb !! b = Some bs.

(** Lists of at most [n] elements each that make up [n] times their number. *)
Lemma concat_full {A} (n : nat) (ls : list (list A)) :
  Forall (fun l => length l <= n)%nat ls -> (length ls * n <= length (concat ls))%nat ->
  Forall (fun l => length l = n) ls.
Proof.
  assert (Hle : forall ls : list (list A), Forall (fun l => length l <= n)%nat ls -> (length (concat ls) <= length ls * n)%nat).
  { intros l0. induction 1 as [|l l0 Hl _ IH]; [done|]. cbn [concat length]. rewrite length_app. lia. }
  induction 1 as [|l ls Hl Hls IH]; [constructor|]. cbn [concat length]. rewrite length_app. intros Hs.
  specialize (Hle ls Hls). constructor; [lia|]. apply IH. lia.
Qed.

(** A batch on which the algorithm succeeds has whole blocks: one that was cut
    because memory ran short makes it raise. *)
Lemma run_whole slots s c eb mode g a t outs g' a' t' :
  inflight se width slots DLLM_EXTEND s c eb ->
  alg_run mode eb g a t = Ok (outs, g', a', t') -> whole c eb.
Proof.
  intros Hin Hrun. destruct (block_masks _ _ _ _ Hin) as [_ Hm].
  pose proof (alg_whole _ _ _ _ _ _ _ _ _ Hm Hrun) as Hw.
  destruct (n_lens _ _ _ _ _ _ _ Hin) as (_ & _ & Hls). rewrite (n_input _ _ _ _ _ _ _ Hin), Hls in Hw.
  pose proof (block_extension _ _ _ _ Hin) as Hext.
  intros b Hb. destruct (lookup_lt_is_Some_2 c b Hb) as [i Hi]. destruct (Hext b i Hi) as (e & He & Hbd & Hs).
  rewrite He. f_equal.
  assert (HF : Forall (fun l : list Z => length l <= Z.to_nat bs)%nat ((fun i => slice_from (fill_ids (inp (objs s !!! i)))
    (len (prefix_indices (inp (objs s !!! i))))) <$> c)).
  { apply Forall_fmap, Forall_lookup. intros b' i' Hb'. destruct (Hext b' i' Hb') as (e' & _ & ? & Hs'). cbn.
    rewrite Hs', length_replicate. lia. }
  apply concat_full in HF; [|rewrite length_fmap; exact Hw].
  apply Forall_fmap in HF. apply (Forall_lookup_1 _ _ _ _ HF) in Hi. cbn in Hi. rewrite Hs, length_replicate in Hi. lia.
Qed.

(** Request [b] of an untruncated block batch. *)
Lemma block_facts slots s c eb :
  inflight se width slots DLLM_EXTEND s c eb -> whole c eb ->
  forall b i, c !! b = Some i -> exists r j row,
    eb_reqs eb !! b = Some r /\ objs s !! i = Some r /\ rid (info r) = i /\
    req_pool_idx (kvs r) = Some j /\ eb_req_pool_indices eb !! b = Some j /\
    eb_prefix_lens eb !! b = Some (seqlen r) /\
    req_to_token (rows (smem s)) !! j = Some row /\ length row = max_context_len (rows (smem s)) /\
    decoded se width (max_context_len (rows (smem s))) r /\
    slice_from (fill_ids (inp r)) (len (prefix_indices (inp r))) = replicate (Z.to_nat bs) mask /\
    seqlen r + Z.of_nat width <= Z.of_nat (max_context_len (rows (smem s))).
Proof.
  intros Hin Hall b i Hb.
  destruct (n_req _ _ _ _ _ _ _ Hin b i Hb) as
    (r & r0 & j & row & Hr & Ho & Hre & Hrid & Hbase & _ & (table & (Ha & Hp & Hl & _ & Hy) & Hpl) & Hrow & Hw & Hpre & Hext & Hidx).
  assert (He : extend_input_len (inp r0) = bs).
  { apply lookup_lt_Some in Hb as Hlt. specialize (Hall b Hlt). congruence. }
  specialize (Hy He). destruct Hy as [_ _ _ Yf _]. rewrite He, Hpl in Hl.
  destruct Ha as [_ _ Akv Afin].
  assert (Hsl : 0 <= seqlen r0) by (unfold seqlen, len; lia).
  pose proof Hbase as [Bm Bc Bo _ _ Bout _]. specialize (Bout Afin).
  assert (Hctx : seqlen r0 + Z.of_nat width <= Z.of_nat (max_context_len (rows (smem s)))) by (unfold seqlen; lia).
  pose proof (alg_width_ge (bs := Z.to_nat bs) (mask := mask) (manages_kv := tidar_manages_kv se)) as Hwge.
  exists r, j, row. rewrite Hre in *.
  split; [done|]. split; [done|]. split; [done|]. split; [done|]. split; [done|]. split; [by rewrite Hpre, Hpl|].
  split; [done|]. split; [done|].
  split; [|split; [|done]].
  - split; cbn; try done.
    + change (seqlen r0 + bs <= Z.of_nat (max_context_len (rows (smem s)))). lia.
    + apply (base_grow _ _ _ r0); [done|done|done| |done]. intros Hx. change (finished r0 = true) in Hx. congruence.
  - cbn. rewrite Hpl, Yf, slice_from_drop, app_assoc by done.
    rewrite drop_app_ge; [|rewrite length_app; unfold seqlen, len; lia].
    replace (_ - _)%nat with 0%nat by (rewrite length_app; unfold seqlen, len; lia). by rewrite drop_0.
Qed.

Lemma block_indices slots s c eb :
  inflight se width slots DLLM_EXTEND s c eb -> whole c eb ->
  eb_reqs eb ≫= idx_of = eb_req_pool_indices eb /\ NoDup (eb_req_pool_indices eb) /\
  forall r j, r ∈ others (objs s) c -> req_pool_idx (kvs r) = Some j -> j ∉ eb_req_pool_indices eb.
Proof.
  intros Hin Hall. pose proof (n_len _ _ _ _ _ _ _ Hin) as Hl. destruct (n_lens _ _ _ _ _ _ _ Hin) as (Hli & _).
  assert (He : eb_reqs eb ≫= idx_of = eb_req_pool_indices eb).
  { assert (Hf : forall b, idx_of <$> eb_reqs eb !! b = (fun j => [j]) <$> eb_req_pool_indices eb !! b).
    { intros b. destruct (c !! b) as [i|] eqn:Hb.
      - destruct (block_facts _ _ _ _ Hin Hall b i Hb) as (r & j & row & -> & _ & _ & Hj & -> & _). cbn.
        unfold idx_of. by rewrite Hj.
      - apply lookup_ge_None_1 in Hb. rewrite !lookup_ge_None_2 by lia. done. }
    clear -Hf. revert Hf. generalize (eb_req_pool_indices eb). induction (eb_reqs eb) as [|r l IH]; intros [|j k] Hf.
    - done.
    - by specialize (Hf 0%nat).
    - by specialize (Hf 0%nat).
    - rewrite bind_cons. pose proof (Hf 0%nat) as H0. cbn in H0. injection H0 as ->. cbn [app]. f_equal.
      apply IH. intros b. exact (Hf (S b)). }
  pose proof (h_rows _ _ _ (n_holds _ _ _ _ _ _ _ Hin)) as Hr. rewrite bind_app, He in Hr.
  pose proof (NoDup_seq 0 (pool_size (rows (smem s)))) as Hnd. rewrite <- Hr in Hnd.
  apply NoDup_app in Hnd as (_ & _ & Hnd). apply NoDup_app in Hnd as (Hnd & Hdis & _).
  split; [done|]. split; [done|]. intros r j Hro Hj Hji. apply (Hdis j Hji). apply list_elem_of_bind.
  exists r. split; [|done]. unfold idx_of. rewrite Hj. by left.
Qed.

Lemma block_shape slots s c eb :
  inflight se width slots DLLM_EXTEND s c eb -> whole c eb ->
  block_batch (Z.to_nat bs) width eb (req_to_token (rows (smem s))).
Proof.
  intros Hin Hall. destruct (n_lens _ _ _ _ _ _ _ Hin) as (Hli & Hlp & Hlq).
  destruct (block_indices _ _ _ _ Hin Hall) as (_ & Hnd & _).
  split; [done|congruence|congruence|..].
  - rewrite Hli. destruct (n_ids _ _ _ _ _ _ _ Hin) as (Hne & _). destruct c; [done|cbn; lia].
  - rewrite (n_input _ _ _ _ _ _ _ Hin), Hli. pose proof (block_facts _ _ _ _ Hin Hall) as Hbf.
    clear -Hbf. rewrite <- (length_fmap (fun i => slice_from (fill_ids (inp (objs s !!! i)))
      (len (prefix_indices (inp (objs s !!! i))))) c).
    assert (Hl : Forall (fun l => length l = Z.to_nat bs) ((fun i => slice_from (fill_ids (inp (objs s !!! i)))
      (len (prefix_indices (inp (objs s !!! i))))) <$> c)).
    { apply Forall_fmap, Forall_lookup. intros b i Hb. destruct (Hbf b i Hb) as (r & ? & ? & _ & Ho & _ & _ & _ & _ & _ & _ & _ & Hsl & _).
      cbn. by rewrite (lookup_total_correct _ _ _ Ho), Hsl, length_replicate. }
    induction Hl as [|l ls Hl _ IH]; [done|]. cbn [concat length]. rewrite length_app, IH, Hl. lia.
  - intros b Hb. rewrite Hli in Hb. destruct (lookup_lt_is_Some_2 c b Hb) as [i Hi].
    destruct (block_facts _ _ _ _ Hin Hall b i Hi) as (r & j & row & _ & _ & _ & _ & Hj & Hp & Hrow & Hl & _ & _ & Hw).
    rewrite (list_lookup_total_correct _ _ _ Hj), (list_lookup_total_correct _ _ _ Hp).
    assert (0 <= seqlen r) by (unfold seqlen, len; lia). exists row. split; [done|]. split; [done|]. lia.
  - apply (rectangular_of (max_context_len (rows (smem s)))). apply (h_width _ _ _ (n_holds _ _ _ _ _ _ _ Hin)).
  - rewrite (n_loc _ _ _ _ _ _ _ Hin), Hli. apply bind_ext_seq. intros b Hb.
    destruct (lookup_lt_is_Some_2 c b Hb) as [i Hi].
    destruct (n_req _ _ _ _ _ _ _ Hin b i Hi) as (? & r0 & ? & ? & _ & _ & _ & _ & _ & _ & _ & _ & _ & _ & He & _).
    rewrite (Hall b Hb) in He. injection He as He. rewrite (list_lookup_total_correct _ _ _ (Hall b Hb)). done.
Qed.

(** *** The algorithm's effect on memory *)

Definition with_memory (s : @sched T) (a : allocator) (t : list (list Z)) : sched :=
  set_mem s (Mem a (set_table (rows (smem s)) t) (tree (smem s))).

(** Request [b] as the algorithm leaves it. *)
Definition left_req (s : @sched T) (c : list Z) (outs : list (list Z)) (b : nat) : req :=
  let r := objs s !!! (c !!! b) in
  let n := left_len se r (len (outs !!! b)) in set_kv_lens r n n.

(** A recorded range, split at the prefix. *)
Lemma owned_split t r j p k :
  req_pool_idx (kvs r) = Some j -> 0 <= p -> 0 <= k ->
  owned t (set_kv_lens r (p + k) (p + k)) =
  take (Z.to_nat p) (t !!! j) ++ take (Z.to_nat k) (drop (Z.to_nat p) (t !!! j)).
Proof.
  intros Hj Hp Hk. unfold owned. cbn. rewrite Hj, Z2Nat.inj_add, take_take_drop by done. done.
Qed.

Lemma run_holds slots s c eb mode g outs g' a' t' :
  inflight se width slots DLLM_EXTEND s c eb -> whole c eb ->
  alg_run mode eb g (kv (smem s)) (req_to_token (rows (smem s))) = Ok (outs, g', a', t') ->
  length outs = length c /\ (forall b toks, outs !! b = Some toks -> len toks <= bs) /\
  holds slots (smem (with_memory s a' t')) ((left_req s c outs <$> seq 0 (length c)) ++ others (objs s) c) /\
  is_not_in_free_group a' = true /\
  (forall r, r ∈ others (objs s) c -> owned t' r = owned (req_to_token (rows (smem s))) r).
Proof.
  intros Hin Hall Hrun.
  pose proof (n_holds _ _ _ _ _ _ _ Hin) as Hh. destruct (n_lens _ _ _ _ _ _ _ Hin) as (Hli & _).
  destruct (block_indices _ _ _ _ Hin Hall) as (Hidx & Hnd & Hoth).
  pose proof (block_facts _ _ _ _ Hin Hall) as Hbf.
  destruct (alg_block _ _ _ _ _ _ _ _ _ (block_shape _ _ _ _ Hin Hall) (h_wf _ _ _ Hh) (n_group _ _ _ _ _ _ _ Hin)
    (proj2 (block_masks _ _ _ _ Hin)) Hrun) as (Hlen & Hout & Hpool & Hwf & Hg & Hlt & Hrows & Hne).
  set (t := req_to_token (rows (smem s))) in *. rewrite Hli in *.
  assert (Hle : forall b toks, outs !! b = Some toks -> len toks <= bs).
  { intros b toks Hb. specialize (Hout b toks Hb). unfold len. lia. }
  assert (Hkeep : forall r, r ∈ others (objs s) c -> owned t' r = owned t r).
  { intros r Hr. unfold owned. destruct (req_pool_idx (kvs r)) as [j|] eqn:Hj; [|done].
    rewrite !list_lookup_total_alt, Hne; [done|]. by apply (Hoth r). }
  split; [done|]. split; [done|]. split; [|done]. unfold with_memory. cbn [smem set_mem].
  assert (Hobj : forall b, (b < length c)%nat -> exists r j toks,
    objs s !!! (c !!! b) = r /\ eb_reqs eb !!! b = r /\ outs !!! b = toks /\ 0 <= len toks <= bs /\
    req_pool_idx (kvs r) = Some j /\ eb_req_pool_indices eb !!! b = j /\ eb_prefix_lens eb !!! b = seqlen r /\
    0 <= seqlen r /\ kv_committed_len (kvs r) = seqlen r + bs /\ kv_allocated_len (kvs r) = kv_committed_len (kvs r)).
  { intros b Hb. destruct (lookup_lt_is_Some_2 c b Hb) as [i Hi]. destruct (lookup_lt_is_Some_2 outs b) as [toks Ht]; [lia|].
    destruct (Hbf b i Hi) as (r & j & row & Hr & Ho & _ & Hj & Hji & Hp & _ & _ & [_ [Hd1 Hd2] _ _ _ _] & _).
    exists r, j, toks.
    rewrite (list_lookup_total_correct _ _ _ Hi), (lookup_total_correct _ _ _ Ho), (list_lookup_total_correct _ _ _ Hr),
      (list_lookup_total_correct _ _ _ Ht), (list_lookup_total_correct _ _ _ Hji), (list_lookup_total_correct _ _ _ Hp).
    specialize (Hle b toks Ht). pose proof (len_nonneg toks). repeat split; try done. unfold seqlen, len; lia. }
  assert (Hafter : (left_req s c outs <$> seq 0 (length c)) ≫= owned t' =
    seq 0 (length c) ≫= (fun b => take (Z.to_nat (eb_prefix_lens eb !!! b)) (t !!! (eb_req_pool_indices eb !!! b)) ++
      take (if tidar_manages_kv se then length (outs !!! b) else Z.to_nat bs)
        (drop (Z.to_nat (eb_prefix_lens eb !!! b)) (t' !!! (eb_req_pool_indices eb !!! b))))).
  { rewrite list_fmap_bind. apply bind_ext_seq. intros b Hb. unfold compose, left_req.
    destruct (Hrows b Hb) as [_ Ht']. destruct (Hobj b Hb) as (r & j & toks & -> & _ & Ho & Hto & Hj & Hji & Hp & Hs0 & Hcl & _).
    rewrite Ho, Hji, Hp in *. unfold left_len. rewrite Hcl. replace (seqlen r + bs - bs) with (seqlen r) by lia.
    rewrite (owned_split t' r j) by (done || (destruct (tidar_manages_kv se); lia)). rewrite Ht'. f_equal. f_equal.
    destruct (tidar_manages_kv se); [|done]. unfold len. lia. }
  assert (Hbefore : eb_reqs eb ≫= owned t =
    seq 0 (length c) ≫= (fun b => take (Z.to_nat (eb_prefix_lens eb !!! b)) (t !!! (eb_req_pool_indices eb !!! b)) ++
      take (Z.to_nat bs) (drop (Z.to_nat (eb_prefix_lens eb !!! b)) (t !!! (eb_req_pool_indices eb !!! b))))).
  { rewrite bind_seq_total, (n_len _ _ _ _ _ _ _ Hin). apply bind_ext_seq. intros b Hb.
    destruct (Hobj b Hb) as (r & j & toks & _ & -> & _ & _ & Hj & -> & -> & Hs0 & Hcl & Hal).
    rewrite <- (owned_split t r j) by (done || lia). unfold owned. cbn. by rewrite Hj, Hcl. }
  destruct Hh as [H1 H2 H3 H4 H5 H6]. fold t in H1, H3, H4. split; cbn [kv rows tree set_table req_to_token free_slots pool_size max_context_len].
  - rewrite <- H1, !bind_app, Hafter, Hbefore, !bind_app_perm.
    assert (Hoo : others (objs s) c ≫= owned t' ≡ₚ others (objs s) c ≫= owned t)
      by (apply bind_perm_ext; intros r Hr; by rewrite Hkeep).
    rewrite Hoo. unfold block_slots in Hpool. rewrite Hli in Hpool. cbn zeta in Hpool.
    set (B' := seq 0 (length c) ≫= (fun b => take (if tidar_manages_kv se then length (outs !!! b) else Z.to_nat bs) _)) in *.
    set (B := seq 0 (length c) ≫= (fun b => take (Z.to_nat bs) _)) in *. set (P := seq 0 (length c) ≫= _).
    transitivity ((Token.pool a' ++ B') ++ cached (tree (smem s)) ++ P ++ (others (objs s) c ≫= owned t));
      [solve_Permutation|]. rewrite Hpool. solve_Permutation.
  - rewrite <- H2, !bind_app. f_equiv. f_equiv. rewrite list_fmap_bind, (bind_seq_total _ (eb_reqs eb)), (n_len _ _ _ _ _ _ _ Hin).
    apply bind_perm_ext. intros b Hb%elem_of_seq.
    destruct (Hobj b) as (r & j & toks & Ho & -> & _); [lia|]. unfold compose, left_req. rewrite Ho. done.
  - by rewrite Hlt.
  - intros j row Hj. destruct (decide (j ∈ eb_req_pool_indices eb)) as [Hji|Hji]; [|rewrite Hne in Hj by done; by apply (H4 j)].
    apply list_elem_of_lookup in Hji as (b & Hb). assert (Hlb : (b < length c)%nat) by (rewrite <- Hli; by eapply lookup_lt_Some).
    destruct (Hrows b Hlb) as [Hw _]. rewrite (list_lookup_total_correct _ _ _ Hb) in Hw.
    rewrite (list_lookup_total_correct _ _ _ Hj) in Hw. rewrite Hw.
    destruct (lookup_lt_is_Some_2 t j) as [row' Hr']; [rewrite <- Hlt; by eapply lookup_lt_Some|].
    rewrite (list_lookup_total_correct _ _ _ Hr'). by apply (H4 j).
  - done.
  - exact H6.
Qed.

Hypothesis page_one : page se = 1.
Hypothesis no_strip : strip_thinking se = false.

(** The result of a block batch, processed: every request is finished and
    released, or holds exactly its committed tokens' slots. *)
Lemma finish_blocks slots s c eb mode g outs g' a' t' lps s' :
  inflight se width slots DLLM_EXTEND s c eb -> whole c eb ->
  alg_run mode eb g (kv (smem s)) (req_to_token (rows (smem s))) = Ok (outs, g', a', t') ->
  process_batch_result_dllm se c DLLM_EXTEND outs lps (with_memory s a' t') = Ok s' ->
  sinv se width slots s' /\ (forall i, i ∉ c -> objs s' !! i = objs s !! i) /\
  forall b i, c !! b = Some i -> exists r r' toks, objs s !! i = Some r /\ objs s' !! i = Some r' /\
    outs !! b = Some toks /\ info r' = info r /\ finished r = false /\
    len (output_ids (out r')) = len (output_ids (out r)) + len toks /\
    (finished r' = true \/ is_Some (req_pool_idx (kvs r'))).
Proof.
  intros Hin Hall Hrun. destruct (run_holds _ _ _ _ _ _ _ _ _ _ Hin Hall Hrun) as (Hlen & Hle & Hh & Hg & Hkeep).
  pose proof Hin as [_ _ Nn Nd Ns (Nne & Nnd & Nsub) _ _ _ Nrest _ _].
  unfold process_batch_result_dllm. destruct outs as [|o0 outs']; [destruct c; done|].
  set (outs := o0 :: outs') in *. clearbody outs. cbn zeta.
  set (s0 := set_mem (with_memory s a' t') _).
  assert (Hh0 : holds slots (smem s0)
    ((at_step c (left_req s c outs) (objs s0) 0 <$> seq 0 (length c)) ++ others (objs s) c)).
  { apply (holds_begin slots (smem (with_memory s a' t'))); [done|]. exact Hh. }
  destruct (foldM _ s0 (seq 0 (length c))) as [s1|] eqn:Hf; [|done].
  step_ok. intros [= <-].
  apply (process_loop se width bs_pos (alg_width_ge (DllmAlgorithm := DllmAlgorithm0)) slots c outs lps (left_req s c outs) (others (objs s) c) s0
    page_one no_strip Nnd Hle) in Hf as [Ph Po _ Pd (Pm & Pw & Pt & Pc & Pg)]; [| |done|done].
  2: { intros b i Hb. destruct (block_facts _ _ _ _ Hin Hall b i Hb) as (r & j & row & _ & Ho & Hrid & _ & _ & _ & _ & _ & Hdec & _).
       destruct (lookup_lt_is_Some_2 outs b) as [toks Ht]; [rewrite Hlen; by eapply lookup_lt_Some|].
       exists r, toks. split; [done|]. split; [done|]. split; [done|]. split; [done|].
       unfold left_req. by rewrite (list_lookup_total_correct _ _ _ Hb), (lookup_total_correct _ _ _ Ho),
         (list_lookup_total_correct _ _ _ Ht). }
  change (mgr s0) with (mgr s) in Pm. change (waiting_queue s0) with (waiting_queue s) in Pw.
  change (is_not_in_free_group (kv (smem s0))) with false in Pg.
  assert (Hdone : forall i, i ∈ c -> exists r, objs s1 !! i = Some r /\ rid (info r) = i /\
    base se width (max_context_len (rows (smem s1))) r /\ (finished r = true \/ active r)).
  { intros i (b & Hb)%list_elem_of_lookup. rewrite Pc. destruct (Pd b i) as (r & ? & ? & ? & ? & _); [by eapply lookup_lt_Some|done|].
    by exists r. }
  assert (Hvals : vals (objs s1) ≡ₚ
    (at_step c (left_req s c outs) (objs s1) (length c) <$> seq 0 (length c)) ++ others (objs s) c).
  { rewrite (vals_split (objs s1) c Nnd) by (intros i Hi; destruct (Hdone i Hi) as (r & -> & _); by eexists).
    rewrite (others_ext (objs s) (objs s1) c Po). f_equiv.
    assert (He : (fun i => objs s1 !!! i) <$> c = at_step c (left_req s c outs) (objs s1) (length c) <$> seq 0 (length c));
      [|by rewrite He].
    apply list_eq. intros b. rewrite !list_lookup_fmap. destruct (c !! b) as [i|] eqn:Hb.
    - pose proof (lookup_lt_Some _ _ _ Hb). rewrite lookup_seq_lt by done. cbn. unfold at_step.
      rewrite decide_True by done. by rewrite (list_lookup_total_correct _ _ _ Hb).
    - apply lookup_ge_None_1 in Hb. rewrite lookup_seq_ge by done. done. }
  rewrite <- Hvals in Ph. destruct (holds_end slots (smem s1) _ Pg Ph) as [Hend Hflag].
  split; [|split; [done|]].
  2: { intros b i Hb. destruct (Pd b i) as (r & Hr & _ & _ & Hst & r0 & toks & H0 & Ht & Hinf & Hnf & Hg0);
         [by eapply lookup_lt_Some|done|]. exists r0, r, toks. split; [done|]. split; [done|]. split; [done|].
       split; [done|]. split; [done|]. split; [done|]. destruct Hst as [?|[? _ _ _]]; [by left|by right]. }
  split; cbn [set_mem objs waiting_queue mgr smem rows kv]; rewrite ?Pm, ?Pw; try done.
  - intros i Hi. destruct (decide (i ∈ c)) as [Hc|Hc]; [destruct (Hdone i Hc) as (r & -> & _); by eexists|].
    rewrite Po by done. by apply Nd.
  - rewrite Ns. done.
  - intros i r Hr. destruct (decide (i ∈ c)) as [Hc|Hc].
    + destruct (Hdone i Hc) as (r' & Hr' & ? & ? & _). rewrite Hr in Hr'. by injection Hr' as <-.
    + rewrite Po in Hr by done. destruct (Nrest i r Hc Hr) as (? & ? & _). rewrite Pc. done.
  - intros i r Hi Hr. assert (Hic : i ∉ c).
    { intros Hic%Nsub. apply NoDup_app in Nn as (_ & Hdis & _). by apply (Hdis i). }
    rewrite Po in Hr by done. by apply (Nrest i r Hic Hr).
  - intros i r Hi Hns Hr. rewrite Ns in Hns. rewrite Po in Hr by done.
    destruct (Nrest i r Hns Hr) as (_ & _ & _ & Hw). destruct (Hw Hi) as [?|[Y1 Y2 Y3 Y4 Y5]]; [by right; left|].
    right; right. split; try done. rewrite Y3, Pt. symmetry. apply Hkeep. apply elem_of_others. by exists i.
  - intros i r Hi Hr. rewrite Ns in Hi. destruct (Hdone i Hi) as (r' & Hr' & _ & _ & ?). rewrite Hr in Hr'. by injection Hr' as <-.
Qed.

Hypothesis priority_perm : forall o q, calc_priority se o q ≡ₚ q.
Local Notation width_ge := (alg_width_ge (DllmAlgorithm := DllmAlgorithm0)).

(** *** The table's dimensions never change *)

Local Notation rows_of s := (pool_size (rows (smem s))).

Lemma prepare_size reqs (m : mem T) eb m' :
  prepare_for_extend (page se) masked oob empty reqs m = Ok (eb, m') -> pool_size (rows m') = pool_size (rows m).
Proof.
  intros H. apply res_bind_Ok in H as ([[loc rs] m1] & Ha & H). apply res_bind_Ok in H as (rs' & _ & [= _ <-]).
  apply res_bind_Ok in Ha as ([rs1 p] & Hs & Ha). apply res_bind_Ok in Ha as ([loc' [t a]] & _ & [= _ _ <-]).
  apply res_bind_Ok in Hs as (o & Hp & Hs). apply res_bind_Ok in Hp as (_ & _ & Hp). cbn zeta in Hp.
  destruct (_ <? _)%nat; injection Hp as <-; [done|]. injection Hs as _ <-. done.
Qed.

Lemma prepare_reqs reqs (m : mem T) eb m' b r :
  prepare_for_extend (page se) masked oob empty reqs m = Ok (eb, m') -> reqs !! b = Some r ->
  exists j, eb_reqs eb !! b =
    Some (set_kv_lens (set_pool_idx r (Some j)) (len (fill_ids (inp r))) (len (fill_ids (inp r)))).
Proof.
  intros H Hb. apply res_bind_Ok in H as ([[loc rs] m1] & Ha & H). apply res_bind_Ok in H as (rs' & Hm & [= <- _]).
  apply res_bind_Ok in Ha as ([rs1 p] & Hs & Ha). apply res_bind_Ok in Ha as ([loc' [t a]] & _ & [= _ <- _]).
  apply res_bind_Ok in Hs as (o & Hp & Hs). apply res_bind_Ok in Hp as (_ & _ & Hp). cbn zeta in Hp.
  destruct (Nat.ltb_spec (length (free_slots (rows m))) (length (filter (fun r => needs_slot r = true) reqs)));
    injection Hp as <-; [done|]. injection Hs as <- _.
  destruct (take_slots_spec reqs (take (length (filter (fun r => needs_slot r = true) reqs)) (free_slots (rows m))))
    as [_ Hlk]; [rewrite length_take; lia|].
  destruct (Hlk b r Hb) as (j & Hj & _). exists j. cbn. apply mapM_commit in Hm as ->.
  by rewrite list_lookup_fmap, Hj.
Qed.

Lemma process_one_size toks lps idx r (m : mem T) r' m' :
  process_one se toks lps idx r m = Ok (r', m') -> pool_size (rows m') = pool_size (rows m).
Proof.
  unfold process_one. cbn zeta. destruct (_ =? 0).
  { unfold drop_rejected. destruct (tidar_manages_kv se); by intros [= _ <-]. }
  intros H. apply res_bind_Ok in H as (r2 & _ & H).
  destruct (if len toks <? bs then drop_rejected se (bs - len toks) r2 m else (r2, m)) as [r3 m3] eqn:Hd.
  assert (H3 : pool_size (rows m3) = pool_size (rows m)).
  { unfold drop_rejected in Hd. destruct (len toks <? _), (tidar_manages_kv se); by injection Hd as _ <-. }
  destruct (finished _); [|by injection H as _ <-]. rewrite <- H3. revert H. unfold release_kv_cache.
  destruct (req_pool_idx _); [|done]. intros H. apply res_bind_Ok in H as (row & _ & H).
  apply res_bind_Ok in H as ([r4 [t a]] & _ & H). apply res_bind_Ok in H as ([[x y] r5] & _ & H).
  apply res_bind_Ok in H as (_ & _ & H). cbn zeta in H. apply res_bind_Ok in H as ([r6 p] & Hp & [= _ <-]).
  unfold pool_free in Hp. destruct (req_pool_idx _); [|done]. by injection Hp as _ <-.
Qed.

Lemma result_size c mode outs lps s s' :
  process_batch_result_dllm se c mode outs lps s = Ok s' -> rows_of s' = rows_of s.
Proof.
  unfold process_batch_result_dllm. destruct mode; [by intros [= <-]|]. destruct outs as [|o outs']; [by intros [= <-]|].
  set (outs := o :: outs'). clearbody outs. cbn zeta. intros H. apply res_bind_Ok in H as (s1 & H & [= <-]).
  cbn [set_mem smem rows].
  change (rows_of s) with (rows_of (set_mem s (Mem (free_group_begin (kv (smem s))) (rows (smem s)) (tree (smem s))))).
  revert H. generalize (set_mem s (Mem (free_group_begin (kv (smem s))) (rows (smem s)) (tree (smem s)))).
  generalize (seq 0 (length c)). clear s. induction l as [|k l IH]; intros s; [by intros [= <-]|].
  intros H. apply res_bind_Ok in H as (s2 & H & Hl). apply IH in Hl. rewrite Hl. clear Hl.
  apply res_bind_Ok in H as (toks & _ & H). apply res_bind_Ok in H as ([r m] & Hp & [= <-]).
  exact (process_one_size _ _ _ _ _ _ _ Hp).
Qed.

(** *** The next batch *)

(** Looking for a batch and finding none changes nothing that matters. *)
Lemma choosing_idle slots mode s0 s :
  sinv se width slots s0 -> live s0 -> staging (mgr s0) = [] ->
  choosing se slots mode s0 s [] -> sinv se width slots s.
Proof.
  intros Hinv Hlive Hst [Csoft (Csm & Cmg & Cwq) _ _ Crest]. pose proof Hinv as [Ih Ig In Id Is Ib Iq Iw Ia].
  assert (Hb : forall i r, objs s !! i = Some r -> exists r0, objs s0 !! i = Some r0 /\ same_req r0 r)
    by (intros i r Hr; by apply (soft_lookup_r (objs s0) (objs s))).
  split; rewrite ?Csm, ?Cmg, ?Cwq; try done.
  - by apply (holds_soft _ _ (objs s0)).
  - intros i Hi. destruct (Id i Hi) as [r Hr]. destruct (soft_lookup _ _ _ _ Csoft Hr) as (r' & -> & _). by eexists.
  - intros i r Hr. destruct (Hb i r Hr) as (r0 & Hr0 & (H1 & H2 & H3)). destruct (Ib i r0 Hr0) as [Hrid Hbase].
    split; [by rewrite H2|]. by apply (base_ext _ _ _ r0).
  - intros i r Hi Hr. destruct (Crest i r) as (r0 & Hr0 & Hf & _); [apply not_elem_of_nil|apply elem_of_app; by left|done|].
    apply Hf. by apply (Iq i).
  - intros i r Hi Hns Hr.
    destruct (Crest i r) as (r0 & Hr0 & Hf & Hy); [apply not_elem_of_nil|apply elem_of_app; by right|done|].
    destruct (Iw i r0 Hi Hns Hr0) as [Hfin|[Hfr|Hrd]]; [by rewrite (Hlive i r0 Hi Hr0) in Hfin| |].
    + right; left. by apply Hf.
    + right; right. by apply Hy.
  - rewrite Hst. by intros i r ?%not_elem_of_nil.
Qed.

Lemma full_inv slots s b : sinv se width slots s -> sinv se width slots (set_full s b).
Proof. by intros [H1 H2 H3 H4 H5 H6 H7 H8 H9]. Qed.

(** What forming a batch leaves of every request. *)
Definition carried (o o' : store) : Prop :=
  forall i, match o !! i, o' !! i with
            | Some r, Some r' => info r' = info r /\ out r' = out r /\
                (req_pool_idx (kvs r') = None -> req_pool_idx (kvs r) = None)
            | None, None => True
            | _, _ => False
            end.

Lemma soft_carried o o' : soft o o' -> carried o o'.
Proof.
  intros Hs i. specialize (Hs i). destruct (o !! i), (o' !! i); try done.
  destruct Hs as (Hk & Hi & Ho). by rewrite Hk.
Qed.

#[export] Instance carried_trans : Transitive carried.
Proof.
  intros o1 o2 o3 H1 H2 i. specialize (H1 i). specialize (H2 i).
  destruct (o1 !! i), (o2 !! i), (o3 !! i); try done.
  destruct H1 as (? & ? & ?), H2 as (? & ? & ?). split; [congruence|]. split; [congruence|]. auto.
Qed.

Lemma create_carried slots mode s0 s c s4 eb :
  choosing se slots mode s0 s c ->
  create_dllm_batch se masked oob empty c (update_state_for_batch c s) = Ok (eb, s4) ->
  inflight se width slots mode s4 c eb -> staging (mgr s0) = [] -> carried (objs s) (objs s4).
Proof.
  intros Hc Hcr Hin Hst. destruct (c_same _ _ _ _ _ _ Hc) as (_ & Hmg & _). destruct (c_sub _ _ _ _ _ _ Hc) as [Hnd _].
  destruct (increment_spec c (objs s) Hnd) as [Hinc1 Hinc2].
  { intros i Hi. destruct (c_chosen _ _ _ _ _ _ Hc i Hi) as (r & Hr & _). by eexists. }
  unfold create_dllm_batch in Hcr. apply res_bind_Ok in Hcr as ([eb' m'] & Hp & [= -> <-]).
  change (objs (update_state_for_batch c s)) with (increment_chunked_count (objs s) (add_staging_reqs c (mgr s))) in *.
  set (o1 := increment_chunked_count (objs s) (add_staging_reqs c (mgr s))) in *.
  assert (Ho1 : o1 = foldl (fun o i => <[i := set_is_chunked (o !!! i) (is_chunked (inp (o !!! i)) + 1)]> o) (objs s) c).
  { subst o1. unfold increment_chunked_count. cbn. by rewrite Hmg, Hst. }
  rewrite <- Ho1 in Hinc1, Hinc2. clearbody o1.
  destruct (write_back_lookup c (eb_reqs eb) o1 Hnd (n_len _ _ _ _ _ _ _ Hin)) as [_ Hwb].
  intros i. destruct (decide (i ∈ c)) as [Hi|Hi].
  - apply list_elem_of_lookup in Hi as (b & Hb). destruct (c_chosen _ _ _ _ _ _ Hc i) as (r1 & Hr1 & _); [by eapply list_elem_of_lookup_2|].
    destruct (n_req _ _ _ _ _ _ _ Hin b i Hb) as (r & r0 & j & row & Her & Ho & -> & _).
    destruct (Hinc1 i r1) as (k & Hk); [by eapply list_elem_of_lookup_2|done|].
    rewrite Hr1, Ho. apply (prepare_reqs _ _ _ _ b) with (r := set_is_chunked r1 k) in Hp as (j' & Hp').
    + rewrite Her in Hp'. apply (f_equal (fun x => (fun r => (info r, out r)) <$> x)) in Hp'. cbn in Hp'.
      cbn. injection Hp' as -> ->. done.
    + rewrite list_lookup_fmap, Hb. cbn. by rewrite (lookup_total_correct _ _ _ Hk).
  - cbn [set_mem set_objs objs]. rewrite Hwb, Hinc2 by done. by destruct (objs s !! i).
Qed.

Lemma next_inv slots b s o s' :
  sinv se width slots s ->
  get_next_batch_to_run se masked oob empty b s = Ok (o, s') ->
  rows_of s' = rows_of s /\ carried (objs s) (objs s') /\
  match o with
  | None => sinv se width slots s'
  | Some (c, eb, mode) => inflight se width slots mode s' c eb /\
      (mode = EXTEND -> forall i, i ∈ c -> exists r, objs s !! i = Some r /\
         req_pool_idx (kvs r) = None /\ finished r = false)
  end.
Proof.
  intros Hinv. unfold get_next_batch_to_run. destruct (filter_inv se width slots s Hinv) as [Hf Hlf]. cbn zeta in Hf, Hlf.
  set (sf := set_mgr s _) in *. cbn zeta. set (N := rows_of s). set (o0 := objs s).
  assert (H1 : sinv se width slots (if b then set_full sf false else sf) /\
    live (if b then set_full sf false else sf) /\ rows_of (if b then set_full sf false else sf) = N /\
    objs (if b then set_full sf false else sf) = o0)
    by (destruct b; split; try done; by apply full_inv).
  clearbody N o0. revert H1. generalize (if b then set_full sf false else sf). clear s Hinv sf Hf Hlf.
  intros s (Hinv & Hlive & HN & Ho0).
  unfold get_new_batch_dllm.
  assert (Hskip : exists k, (snd (should_skip_prefill se s) = s \/ snd (should_skip_prefill se s) = set_full s true) /\
    should_skip_prefill se s = (k, snd (should_skip_prefill se s))).
  { unfold should_skip_prefill. destruct (_ && _); [by exists true; split; [left|]|].
    destruct (_ && _); [by exists true; split; [right|]|by exists false; split; [left|]]. }
  destruct Hskip as (k & Hs2 & ->). set (s2 := snd (should_skip_prefill se s)) in *. clearbody s2.
  assert (H2 : sinv se width slots s2 /\ live s2 /\ rows_of s2 = N /\ objs s2 = o0)
    by (destruct Hs2 as [-> | ->]; split; try done; by apply full_inv).
  clear s Hinv Hlive Hs2 HN Ho0. destruct H2 as (Hinv & Hlive & HN & Ho0).
  destruct k; [intros [= <- <-]; rewrite <- Ho0; split; [done|]; split; [by apply soft_carried|done]|].
  set (s3 := set_queue s2 _). assert (Hi3 : sinv se width slots s3) by (by apply queue_inv).
  destruct (prepare_inv se width bs_pos width_ge slots s3 Hi3 Hlive) as (s4 & -> & Hi4 & Hl4 & Hst4 & Hm4 & Hsf4 & _).
  step_ok.
  destruct (fetch_inv se width slots s4 Hi4 Hl4 Hst4) as (s5 & -> & Hi5 & Hl5 & Hst5 & Hm5 & Hob5 & _).
  step_ok.
  destruct (process_dllm_batches se s5 (create_dllm_prefill_adder se)) as [[[mode s6] a]|] eqn:Hch; [|done].
  step_ok.
  apply (choose_batch se width bs_pos width_ge slots) in Hch; [|done..].
  destruct (c_same _ _ _ _ _ _ Hch) as (Hsm & _).
  assert (HN6 : rows_of s6 = N) by (rewrite Hsm, Hm5, Hm4; exact HN).
  assert (Hca : carried o0 (objs s6)).
  { apply soft_carried. rewrite <- Ho0. change (objs s2) with (objs s3). rewrite Hsf4, <- Hob5. apply Hch. }
  destruct (can_run_list a) as [|i0 l0] eqn:Hcan;
    [intros [= <- <-]; split; [done|split; [done|by eapply choosing_idle]]|].
  rewrite <- Hcan in *. assert (Hne : can_run_list a <> []) by (by rewrite Hcan). clear Hcan i0 l0.
  destruct (create_dllm_batch _ _ _ _ _ _) as [[eb s7]|] eqn:Hcr; [|done].
  step_ok. intros [= <- <-].
  pose proof (create_inflight se masked oob empty width bs_pos width_ge _ _ _ _ _ _ _ Hi5 Hl5 Hst5 page_one Hne Hch Hcr) as Hin.
  split; [|split; [|split; [exact Hin|]]].
  3: { intros -> i Hi. destruct (c_chosen _ _ _ _ _ _ Hch i Hi) as (r6 & Hr6 & ([_ Hx _ _ Hfin] & _)).
       assert (Hsf : soft o0 (objs s6)).
       { rewrite <- Ho0. change (objs s2) with (objs s3). rewrite Hsf4, <- Hob5. apply Hch. }
       destruct (soft_lookup_r _ _ _ _ Hsf Hr6) as (r & Hr & (Hk & _ & Hout)). exists r. split; [done|].
       rewrite <- Hk. split; [done|]. unfold finished in *. by rewrite <- Hout. }
  - apply res_bind_Ok in Hcr as ([eb' m'] & Hp & [= _ <-]). apply prepare_size in Hp. cbn [set_mem smem].
    rewrite Hp. exact HN6.
  - etransitivity; [exact Hca|]. by eapply (create_carried slots).
Qed.

Lemma prompt_input slots s c eb :
  inflight se width slots EXTEND s c eb -> mask ∉ eb_input_ids eb.
Proof.
  intros Hin. rewrite (n_input _ _ _ _ _ _ _ Hin). intros (l & Hm & Hl)%list_elem_of_In%in_concat.
  apply list_elem_of_In in Hl. apply list_elem_of_In, list_elem_of_fmap in Hm as (i & -> & (b & Hb)%list_elem_of_lookup).
  destruct (n_req _ _ _ _ _ _ _ Hin b i Hb) as (r & r0 & j & row & _ & Hr & -> & _ & Hbase & _ & (tb & (_ & Hf & Hp & _) & _) & _).
  rewrite (lookup_total_correct _ _ _ Hr) in Hl. cbn in Hl. rewrite Hf, Hp, len_nil, slice_from_drop, drop_0 in Hl by done.
  by apply Hbase in Hl.
Qed.

(** *** Rounds *)

(** _add_request_to_queue *)
Definition add_request_to_queue (r : req) (s : @sched T) : sched :=
  Sched (<[rid (info r) := r]> (objs s)) (waiting_queue s ++ [rid (info r)]) (mgr s) (batch_is_full s)
    (smem s) (num_generated_tokens s).

Definition init_server (slots : Z) (sort : bool) (size ctx : nat) (t : T) : @sched T :=
  Sched ∅ [] (Manager [] []) false (Mem (Token.init slots sort) (pool_init size ctx) t) 0.

(** One turn of the event loop.  [Arrive]: a new request with room in a row of
    the table ([base]).  [Idle]: no batch.  [Round]: a batch is formed, the
    algorithm runs, its result is processed. *)
Inductive step : @sched T * alg_state -> @sched T * alg_state -> Prop :=
  | Arrive s g r :
      objs s !! rid (info r) = None -> fresh r -> base se width (max_context_len (rows (smem s))) r ->
      step (s, g) (add_request_to_queue r s, g)
  | Idle s g b s' :
      get_next_batch_to_run se masked oob empty b s = Ok (None, s') -> step (s, g) (s', g)
  | Round s g b c eb mode s1 outs g' a' t' lps s' :
      get_next_batch_to_run se masked oob empty b s = Ok (Some (c, eb, mode), s1) ->
      alg_run mode eb g (kv (smem s1)) (req_to_token (rows (smem s1))) = Ok (outs, g', a', t') ->
      process_batch_result_dllm se c mode outs lps (with_memory s1 a' t') = Ok s' ->
      step (s, g) (s', g').

(** The body of event_loop_normal between arrivals; [b] tells whether the last
    turn ran a batch. *)
Definition event_loop_turn (b : bool) (lps : lp_result) (p : @sched T * alg_state) : res (@sched T * alg_state) :=
  '(o, s) ← get_next_batch_to_run se masked oob empty b (fst p);
  match o with
  | None => Ok (s, snd p)
  | Some (c, eb, mode) =>
      '(outs, g, a, t) ← alg_run mode eb (snd p) (kv (smem s)) (req_to_token (rows (smem s)));
      s ← process_batch_result_dllm se c mode outs lps (with_memory s a t);
      Ok (s, g)
  end.

Lemma turn_step b lps p q :
  event_loop_turn b lps p = Ok q -> step p q.
Proof.
  destruct p as [s g], q as [s' g']. unfold event_loop_turn. cbn [fst snd].
  destruct (get_next_batch_to_run _ _ _ _ b s) as [[[[[c eb] mode]|] s1]|] eqn:Hn; [| |done].
  - intros H. change (Ok ?x ≫= ?f) with (f x) in H. cbn beta iota in H.
    apply res_bind_Ok in H as ([[[outs g1] a] t] & Hrun & H). apply res_bind_Ok in H as (s2 & Hres & [= <- <-]).
    by eapply Round.
  - intros [= <- <-]. by eapply Idle.
Qed.

Lemma arrive_inv slots s r :
  sinv se width slots s -> objs s !! rid (info r) = None -> fresh r ->
  base se width (max_context_len (rows (smem s))) r -> sinv se width slots (add_request_to_queue r s).
Proof.
  intros [Ih Ig In Id Is Ib Iq Iw Ia] Hnew Hf Hb.
  assert (Hni : rid (info r) ∉ waiting_queue s ++ waiting (mgr s))
    by (intros Hi%Id; rewrite Hnew in Hi; by destruct Hi).
  assert (Hne : forall i, i ∈ waiting_queue s ++ waiting (mgr s) -> <[rid (info r) := r]> (objs s) !! i = objs s !! i)
    by (intros i Hi; apply lookup_insert_ne; by intros <-).
  assert (Hq : forall i, i ∈ waiting (mgr s) -> i ∈ waiting_queue s ++ waiting (mgr s)) by (intros; apply elem_of_app; by right).
  split; cbn [add_request_to_queue objs waiting_queue mgr smem]; try done.
  - destruct Ih as [H1 H2 H3 H4 H5]. assert (Hv : vals (<[rid (info r) := r]> (objs s)) ≡ₚ r :: vals (objs s)).
    { unfold vals. by rewrite map_to_list_insert. }
    split; try done; rewrite Hv, bind_cons.
    + unfold owned at 1. by rewrite (f_idx _ Hf).
    + unfold idx_of at 1. by rewrite (f_idx _ Hf).
  - rewrite <- app_assoc. apply NoDup_app in In as (N1 & N2 & N3). apply not_elem_of_app in Hni as [Hn1 Hn2].
    apply NoDup_app. split; [done|]. split; [|by apply NoDup_cons].
    intros i Hi [->|Hi']%elem_of_cons; [done|by apply (N2 i)].
  - intros i. rewrite <- app_assoc, elem_of_app. intros [Hi|Hi]; [rewrite Hne by (apply elem_of_app; by left); apply Id; apply elem_of_app; by left|].
    apply elem_of_cons in Hi as [->|Hi]; [rewrite lookup_insert_eq; by eexists|]. rewrite Hne by auto. by apply Id; auto.
  - intros i r'. destruct (decide (rid (info r) = i)) as [<-|Hri].
    + rewrite lookup_insert_eq. by intros [= <-].
    + rewrite lookup_insert_ne by done. apply Ib.
  - intros i r' [Hi|Hi]%elem_of_app.
    + rewrite Hne by (apply elem_of_app; by left). by apply Iq.
    + apply list_elem_of_singleton in Hi as ->. rewrite lookup_insert_eq. by intros [= <-].
  - intros i r' Hi. rewrite Hne by auto. by apply Iw.
  - intros i r' Hi. rewrite Hne by (apply Hq, Is, Hi). by apply Ia.
Qed.

Lemma step_inv slots s g s' g' :
  step (s, g) (s', g') -> sinv se width slots s -> sinv se width slots s' /\ rows_of s' = rows_of s.
Proof.
  intros Hstep Hinv. inversion Hstep as [? ? r Hnew Hf Hb|? ? b ? Hn|? ? b c eb mode s1 outs ? a' t' lps ? Hn Hrun Hres]; subst.
  - split; [by apply arrive_inv|done].
  - destruct (next_inv slots b s None s' Hinv Hn) as (? & _ & ?). by split.
  - destruct (next_inv slots b s _ s1 Hinv Hn) as (HN & _ & Hin & _).
    split; [|apply result_size in Hres; rewrite Hres; exact HN]. destruct mode.
    + destruct (alg_prompt _ _ _ _ _ _ _ _ _ (prompt_input _ _ _ _ Hin) Hrun) as [-> ->].
      assert (Hw : with_memory s1 (kv (smem s1)) (req_to_token (rows (smem s1))) = s1)
        by (destruct s1 as [? ? ? ? [? [] ?] ?]; done).
      rewrite Hw in Hres. injection Hres as <-. by eapply (finish_prompts se width width_ge).
    + eapply (finish_blocks slots s1 c eb); [done| |done|done]. by eapply run_whole.
Qed.

Lemma reachable_inv slots sort size ctx t g s g' :
  cache_ok t -> cached t = [] -> rtc step (init_server slots sort size ctx t, g) (s, g') ->
  sinv se width (range 1 (slots + 1)) s /\ rows_of s = size.
Proof.
  intros Hck Ht Hr. remember (init_server slots sort size ctx t, g) as p eqn:Hp. remember (s, g') as q eqn:Hq.
  assert (Hinv : sinv se width (range 1 (slots + 1)) (fst p) /\ rows_of (fst p) = size).
  { subst p. split; [|done]. split; cbn [fst init_server objs waiting_queue mgr smem waiting staging app]; try done.
    - split; cbn [kv rows tree pool_init req_to_token free_slots pool_size max_context_len]; rewrite ?Ht.
      + unfold vals. rewrite map_to_list_empty, Token.init_pool. cbn. by rewrite app_nil_r.
      + unfold vals. rewrite map_to_list_empty. cbn. by rewrite app_nil_r.
      + apply length_replicate.
      + intros i row Hi. apply lookup_replicate in Hi as [-> _]. apply length_replicate.
      + by intros _.
      + done.
    - constructor.
    - by intros i ?%not_elem_of_nil.
    - split; [constructor|by intros i ?%not_elem_of_nil]. }
  clear Hp. revert s g' Hq. induction Hr as [[s0 g0]|[s0 g0] [s1 g1] q' Hstep Hr IH]; intros s g' Hq.
  - by injection Hq as -> ->.
  - eapply IH; [|done]. destruct Hinv as [Hi HN]. destruct (step_inv _ _ _ _ _ Hstep Hi) as [? He]. split; [done|].
    cbn [fst] in *. congruence.
Qed.

(** *** Theorems *)

(** C1: the scheduler never loses, duplicates or shares memory.  With pages of
    one slot and no strip_thinking, whatever requests arrive that have room in a
    row (nonempty prompts without mask tokens, prompt + output limit +
    [alg_width] within the row), whatever batches are formed and whatever an
    algorithm that raises on cut blocks commits, between rounds every KV slot is
    free, cached, or recorded for exactly one request, every row of the table is
    free or belongs to exactly one request, and two requests never hold the same
    slot. *)
Theorem service_conserves slots sort size ctx t g s g' :
  cache_ok t -> cached t = [] -> rtc step (init_server slots sort size ctx t, g) (s, g') ->
  Token.pool (kv (smem s)) ++ cached (tree (smem s)) ++ (vals (objs s) ≫= owned (req_to_token (rows (smem s))))
    ≡ₚ range 1 (slots + 1) /\
  free_slots (rows (smem s)) ++ (vals (objs s) ≫= idx_of) ≡ₚ seq 0 size /\
  forall i j r r' x, objs s !! i = Some r -> objs s !! j = Some r' -> i <> j ->
    x ∈ owned (req_to_token (rows (smem s))) r -> x ∉ owned (req_to_token (rows (smem s))) r'.
Proof.
  intros Hck Ht Hr. destruct (reachable_inv _ _ _ _ _ _ _ _ Hck Ht Hr) as [[[H1 H2 _ _ _ _] _ _ _ _ _ _ _ _] HN].
  split; [done|]. split; [by rewrite H2, HN|]. intros i j r r' x Hi Hj Hne Hx Hx'.
  pose proof (NoDup_range 1 (slots + 1)) as Hnd. rewrite <- H1 in Hnd. apply NoDup_app in Hnd as (_ & _ & Hnd).
  apply NoDup_app in Hnd as (_ & _ & Hnd).
  rewrite (vals_split (objs s) [i; j]) in Hnd.
  - rewrite fmap_cons, fmap_cons, (lookup_total_correct _ _ _ Hi), (lookup_total_correct _ _ _ Hj) in Hnd.
    cbn [app] in Hnd. rewrite !bind_cons in Hnd. apply NoDup_app in Hnd as (_ & Hd & _). apply (Hd x Hx).
    apply elem_of_app. by left.
  - apply NoDup_cons. split; [by intros ?%list_elem_of_singleton|apply NoDup_singleton].
  - intros k [->|Hk]%elem_of_cons; [by eexists|]. apply list_elem_of_singleton in Hk as ->. by eexists.
Qed.

(** C2: a drained server has everything back.  On the servers of this file (pages of one
    slot, no strip_thinking, requests with room in a row, an algorithm that
    raises on cut blocks), when every request has finished, all KV slots are
    free or cached and all rows of the table are free. *)
Theorem service_drains slots sort size ctx t g s g' :
  cache_ok t -> cached t = [] -> rtc step (init_server slots sort size ctx t, g) (s, g') ->
  (forall i r, objs s !! i = Some r -> finished r = true) ->
  Token.pool (kv (smem s)) ++ cached (tree (smem s)) ≡ₚ range 1 (slots + 1) /\
  free_slots (rows (smem s)) ≡ₚ seq 0 size.
Proof.
  intros Hck Ht Hr Hfin. destruct (reachable_inv _ _ _ _ _ _ _ _ Hck Ht Hr) as [[[H1 H2 _ _ _ _] _ _ _ _ Hb _ _ _] HN].
  assert (Hno : forall r, r ∈ vals (objs s) -> req_pool_idx (kvs r) = None).
  { intros r (i & Hi)%elem_of_vals. apply (Hb i r Hi). by apply (Hfin i). }
  assert (Hnil : forall {X} (f : req -> list X) l, (forall r, r ∈ l -> f r = []) -> l ≫= f = []).
  { intros X f l. induction l as [|r l IH]; intros Hl; [done|]. rewrite bind_cons, Hl by (by left).
    apply IH. intros; apply Hl; by right. }
  rewrite (Hnil _ (owned _)) in H1 by (intros r Hv; unfold owned; by rewrite Hno).
  rewrite (Hnil _ idx_of) in H2 by (intros r Hv; unfold idx_of; by rewrite Hno).
  rewrite !app_nil_r in *. rewrite HN in H2. by split.
Qed.

End service.
