(* ===== verification/DllmLiveness.v ===== *)
(** * Progress of the diffusion server

    Rounds in which the algorithm commits something use up a finite amount of
    work, so requests finish; and the one way the scheduler stops making progress: a
    prompt that does not fit blocks every request that is being decoded. *)

From S2P Require Import Prelude Allocator DllmReq PrefillAdder MemCommon KvAccounting DllmScheduler DllmSchedulerProofs DllmService.

(** ** Work left *)

(** Tokens a request may still produce, one for its end, one for its prompt. *)
Definition load (r : req) : nat :=
  if finished r then 0
  else S (Z.to_nat (max_new_tokens (sampling (info r)) - len (output_ids (out r)))) +
       match req_pool_idx (kvs r) with None => 1 | Some _ => 0 end.

Definition work (o : store) : nat := sum_list (load <$> vals o).

Lemma sum_le (f g : Z -> nat) (l : list Z) :
  (forall i, i ∈ l -> f i <= g i)%nat ->
  (sum_list (f <$> l) <= sum_list (g <$> l))%nat /\
  ((exists i, i ∈ l /\ (f i < g i)%nat) -> (sum_list (f <$> l) < sum_list (g <$> l))%nat).
Proof.
  induction l as [|i l IH]; intros Hl; cbn; [split; [done|]; by intros (i & ?%not_elem_of_nil & _)|].
  destruct IH as [IH1 IH2]; [intros; apply Hl; by right|]. pose proof (Hl i ltac:(by left)). split; [lia|].
  intros (j & [->|Hj]%elem_of_cons & Hlt); [lia|]. specialize (IH2 ltac:(by exists j)). lia.
Qed.

(** Stores with the same requests, none with more load. *)
Definition lighter (o o' : store) : Prop :=
  forall i, match o !! i, o' !! i with
            | Some r, Some r' => (load r' <= load r)%nat
            | None, None => True
            | _, _ => False
            end.

Lemma work_lighter o o' :
  lighter o o' -> (work o' <= work o)%nat /\
  ((exists i r r', o !! i = Some r /\ o' !! i = Some r' /\ (load r' < load r)%nat) -> (work o' < work o)%nat).
Proof.
  intros Hl. assert (Hids : (map_to_list o').*1 ≡ₚ (map_to_list o).*1).
  { apply NoDup_Permutation; [apply NoDup_fst_map_to_list..|]. intros i. specialize (Hl i).
    rewrite !list_elem_of_fmap. split; intros ([j r] & -> & Hin); apply elem_of_map_to_list in Hin; cbn in Hl; rewrite Hin in Hl.
    - destruct (o !! j) as [r'|] eqn:Hr'; [|done]. exists (j, r'). split; [done|]. by apply elem_of_map_to_list.
    - destruct (o' !! j) as [r'|] eqn:Hr'; [|done]. exists (j, r'). split; [done|]. by apply elem_of_map_to_list. }
  unfold work. rewrite (vals_dom o'), (vals_dom o), Hids.
  assert (Hin : forall i, i ∈ (map_to_list o).*1 -> exists r r', o !! i = Some r /\ o' !! i = Some r' /\ (load r' <= load r)%nat).
  { intros i Hi. apply list_elem_of_fmap in Hi as ([j r] & -> & Hin). apply elem_of_map_to_list in Hin. cbn.
    specialize (Hl j). rewrite Hin in Hl. destruct (o' !! j) as [r'|]; [|done]. by exists r, r'. }
  assert (Hmem : forall i r, o !! i = Some r -> i ∈ (map_to_list o).*1).
  { intros i r Hr. apply list_elem_of_fmap. exists (i, r). split; [done|]. by apply elem_of_map_to_list. }
  clear Hids. revert Hin Hmem. generalize ((map_to_list o).*1). intros ids Hin Hmem.
  rewrite <- !list_fmap_compose. unfold compose.
  destruct (sum_le (fun i => load (o' !!! i)) (fun i => load (o !!! i)) ids) as [H1 H2].
  { intros i Hi. destruct (Hin i Hi) as (r & r' & Hr & Hr' & ?).
    by rewrite (lookup_total_correct _ _ _ Hr), (lookup_total_correct _ _ _ Hr'). }
  split; [exact H1|]. intros (i & r & r' & Hr & Hr' & Hlt). apply H2. exists i. split; [by eapply Hmem|].
  by rewrite (lookup_total_correct _ _ _ Hr), (lookup_total_correct _ _ _ Hr').
Qed.

Lemma load_carried r r' :
  info r' = info r -> out r' = out r -> (req_pool_idx (kvs r') = None -> req_pool_idx (kvs r) = None) ->
  (load r' <= load r)%nat /\
  (finished r = false -> req_pool_idx (kvs r) = None -> is_Some (req_pool_idx (kvs r')) -> (load r' < load r)%nat).
Proof.
  intros Hi Ho Hk. unfold load, finished. rewrite Hi, Ho. destruct (bool_decide _); [split; [done|by intros ?]|].
  destruct (req_pool_idx (kvs r')) as [k|]; [|rewrite Hk by done; split; [lia|by intros _ _ [? ?]]].
  destruct (req_pool_idx (kvs r)); split; try lia; by intros _ ?.
Qed.

Section liveness.
Context {T : Type} `{!PrefixCache T} (se : @settings T) (masked : lanes) (oob : Z -> Z) (empty : Z -> list Z).
Local Notation bs := (block_size (cfg se)).
Local Notation mask := (mask_id (cfg se)).
Context `{!DllmAlgorithm (Z.to_nat bs) mask (tidar_manages_kv se)}.
Local Notation width := (alg_width (bs := Z.to_nat bs) (mask := mask) (manages_kv := tidar_manages_kv se)).
Local Notation width_ge := (alg_width_ge (DllmAlgorithm := DllmAlgorithm0)).

Hypothesis bs_pos : 0 < bs.
Hypothesis page_one : page se = 1.
Hypothesis no_strip : strip_thinking se = false.
Hypothesis priority_perm : forall o q, calc_priority se o q ≡ₚ q.

Lemma carried_lighter o o' : carried o o' -> lighter o o'.
Proof.
  intros Hc i. specialize (Hc i). destruct (o !! i), (o' !! i); try done.
  destruct Hc as (? & ? & ?). by apply load_carried.
Qed.

Lemma grown_lighter r r' (toks : list Z) :
  info r' = info r -> finished r = false ->
  len (output_ids (out r')) = len (output_ids (out r)) + len toks ->
  len (output_ids (out r')) <= max_new_tokens (sampling (info r')) \/ finished r' = true ->
  (finished r' = true \/ is_Some (req_pool_idx (kvs r'))) ->
  (load r' <= load r)%nat /\ (toks <> [] -> (load r' < load r)%nat).
Proof.
  intros Hi Hf Hg Hle Hst. unfold load. rewrite Hf, Hi in *. destruct (finished r') eqn:Hf'; [split; lia|].
  destruct Hst as [?|[k ->]]; [done|]. destruct Hle as [Hle|?]; [|done].
  pose proof (len_nonneg toks). split; [destruct (req_pool_idx (kvs r)); lia|]. intros Ht.
  destruct toks as [|x toks]; [done|]. rewrite len_cons in Hg. pose proof (len_nonneg toks).
  destruct (req_pool_idx (kvs r)); lia.
Qed.

(** A batch of prompts, or one of blocks for one of which at least the algorithm
    committed a token. *)
Definition productive (mode : forward_mode) (outs : list (list Z)) : bool :=
  match mode with
  | EXTEND => true
  | DLLM_EXTEND => existsb (fun toks => negb (length toks =? 0)%nat) outs
  end.

Lemma productive_lookup outs :
  productive DLLM_EXTEND outs = true -> exists k toks, outs !! k = Some toks /\ toks <> [].
Proof.
  cbn. rewrite existsb_exists. intros (toks & Hin & Hne). apply list_elem_of_In, list_elem_of_lookup in Hin as (k & Hk).
  exists k, toks. split; [done|]. by intros ->.
Qed.

(** No round increases the work left: the prompts still to run, the tokens the
    unfinished requests may still produce, and their endings.  A productive one
    decreases it. *)
Lemma round_decreases slots b s g c eb mode s1 outs g' a' t' lps s' :
  sinv se width slots s ->
  get_next_batch_to_run se masked oob empty b s = Ok (Some (c, eb, mode), s1) ->
  alg_run mode eb g (kv (smem s1)) (req_to_token (rows (smem s1))) = Ok (outs, g', a', t') ->
  process_batch_result_dllm se c mode outs lps (with_memory s1 a' t') = Ok s' ->
  ((if productive mode outs then 1 else 0) + work (objs s') <= work (objs s))%nat /\
  (alg_commits (DllmAlgorithm := DllmAlgorithm0) = true -> productive mode outs = true).
Proof.
  intros Hinv Hn Hrun Hres.
  destruct (next_inv se masked oob empty bs_pos page_one priority_perm slots b s _ s1 Hinv Hn) as (_ & Hc & Hin & Hpr).
  destruct (n_ids _ _ _ _ _ _ _ Hin) as (Hne & Hnd & _).
  destruct (work_lighter _ _ (carried_lighter _ _ Hc)) as [Hle Hlt].
  destruct mode.
  - injection Hres as <-. cbn [set_objs objs with_memory set_mem productive]. split; [|done].
    assert (Hs : soft (objs s1) (foldl (fun o i => <[i := set_fill_ids (o !!! i) []]> o) (objs s1) c)).
    { apply clear_soft; [done|]. intros i (k & Hk)%list_elem_of_lookup.
      destruct (n_req _ _ _ _ _ _ _ Hin k i Hk) as (r & ? & ? & ? & _ & -> & _). by eexists. }
    destruct (work_lighter _ _ (carried_lighter _ _ (soft_carried _ _ Hs))) as [Hle2 _].
    apply (Nat.le_lt_trans _ _ _ Hle2). apply Hlt. destruct c as [|i c]; [done|].
    destruct (Hpr eq_refl i ltac:(by left)) as (r & Hr & Hidx & Hfin).
    destruct (n_req _ _ _ _ _ _ _ Hin 0%nat i eq_refl) as (r1 & r0 & j & ? & _ & Hr1 & -> & _).
    exists i, r, (set_kv_lens (set_pool_idx r0 (Some j)) (len (fill_ids (inp r0))) (len (fill_ids (inp r0)))).
    split; [done|]. split; [done|]. specialize (Hc i). rewrite Hr, Hr1 in Hc. destruct Hc as (Hi & Ho & Hk).
    apply load_carried; try done.
  - assert (Hwhole : whole se c eb) by (by eapply run_whole).
    destruct (finish_blocks se bs_pos page_one no_strip slots s1 c eb DLLM_EXTEND g outs g' a' t' lps s'
      Hin Hwhole Hrun Hres) as ([_ _ _ _ _ Hb _ _ _] & Hout & Hgrow).
    destruct (run_holds se bs_pos slots s1 c eb DLLM_EXTEND g outs g' a' t' Hin Hwhole Hrun) as (Hlo & _).
    assert (Hstep : forall k i, c !! k = Some i -> exists r r' toks, objs s1 !! i = Some r /\ objs s' !! i = Some r' /\
      outs !! k = Some toks /\ (load r' <= load r)%nat /\ (toks <> [] -> (load r' < load r)%nat)).
    { intros k i Hk. destruct (Hgrow k i Hk) as (r & r' & toks & Hr & Hr' & Ht & Hi & Hf & Hg & Hst).
      exists r, r', toks. do 3 (split; [done|]). destruct (Hb i r' Hr') as [_ Hbase].
      apply (grown_lighter r r' toks); try done. destruct (finished r') eqn:Hf'; [by right|left]. by apply Hbase. }
    assert (Hl1 : lighter (objs s1) (objs s')).
    { intros i. destruct (decide (i ∈ c)) as [Hi|Hi]; [|rewrite Hout by done; by destruct (objs s1 !! i)].
      apply list_elem_of_lookup in Hi as (k & Hk). by destruct (Hstep k i Hk) as (r & r' & toks & -> & -> & _ & ? & _). }
    destruct (work_lighter _ _ Hl1) as [Hle1 Hlt1]. split.
    + destruct (productive DLLM_EXTEND outs) eqn:Hprod; [|lia].
      apply productive_lookup in Hprod as (k & toks & Hk & Hnil).
      destruct (lookup_lt_is_Some_2 c k) as [i Hi]; [rewrite <- Hlo; by eapply lookup_lt_Some|].
      destruct (Hstep k i Hi) as (r & r' & toks' & Hr & Hr' & Ht & _ & Hlt'). rewrite Hk in Ht. injection Ht as <-.
      assert (work (objs s') < work (objs s1))%nat; [|lia]. apply Hlt1. exists i, r, r'. split; [done|]. split; [done|]. by apply Hlt'.
    + intros Hcom. destruct (block_masks se slots s1 c eb Hin) as [HF _].
      pose proof (alg_progress _ _ _ _ _ _ _ _ _ Hcom (block_shape se bs_pos slots s1 c eb Hin Hwhole) ltac:(lia) HF Hrun) as Hnil.
      destruct c as [|i c]; [done|]. destruct outs as [|toks outs]; [done|]. apply Forall_cons in Hnil as [Hnil _].
      cbn. by destruct toks.
Qed.

(** Turns of the event loop without arrivals: the batches that ran, and how many
    of them were productive. *)
Inductive turns : nat -> nat -> @sched T * alg_state -> @sched T * alg_state -> Prop :=
  | turns_done p : turns 0 0 p p
  | turns_idle m n s g b s1 q :
      get_next_batch_to_run se masked oob empty b s = Ok (None, s1) -> turns m n (s1, g) q -> turns m n (s, g) q
  | turns_round m n s g b c eb mode s1 outs g' a' t' lps s2 q :
      get_next_batch_to_run se masked oob empty b s = Ok (Some (c, eb, mode), s1) ->
      alg_run mode eb g (kv (smem s1)) (req_to_token (rows (smem s1))) = Ok (outs, g', a', t') ->
      process_batch_result_dllm se c mode outs lps (with_memory s1 a' t') = Ok s2 ->
      turns m n (s2, g') q -> turns (S m) ((if productive mode outs then 1 else 0) + n) (s, g) q.

(** The batch that a turn runs, if any, and whether it is productive. *)
Definition turn_counts (b : bool) (p : @sched T * alg_state) : nat * nat :=
  match get_next_batch_to_run se masked oob empty b (fst p) with
  | Ok (Some (_, eb, mode), s) =>
      match alg_run mode eb (snd p) (kv (smem s)) (req_to_token (rows (smem s))) with
      | Ok (outs, _, _, _) => (1, if productive mode outs then 1 else 0)%nat
      | Raise _ => (0, 0)%nat
      end
  | _ => (0, 0)%nat
  end.

Lemma turn_turns b lps m n p q :
  turn_counts b p = (m, n) -> event_loop_turn se masked oob empty b lps p = Ok q -> turns m n p q.
Proof.
  intros Hmn. replace m with (fst (turn_counts b p)) by (by rewrite Hmn).
  replace n with (snd (turn_counts b p)) by (by rewrite Hmn). clear Hmn. destruct p as [s g], q as [s' g']. unfold turn_counts, event_loop_turn. cbn [fst snd].
  destruct (get_next_batch_to_run _ _ _ _ b s) as [[[[[c eb] mode]|] s1]|] eqn:Hn; [| |done].
  - intros H. change (Ok ?x ≫= ?f) with (f x) in H. cbn beta iota in H.
    apply res_bind_Ok in H as ([[[outs g1] a] t] & Hrun & H). apply res_bind_Ok in H as (s2 & Hres & [= <- <-]).
    rewrite Hrun. cbn [fst snd]. rewrite <- (Nat.add_0_r (if productive mode outs then 1 else 0)%nat).
    eapply turns_round; [exact Hn|exact Hrun|exact Hres|constructor].
  - intros [= <- <-]. eapply turns_idle; [exact Hn|constructor].
Qed.

(** C3: the server finishes its requests.  From any reachable state (of the
    servers of DllmService.v: pages of one slot, no strip_thinking, requests with
    room in a row, an algorithm that raises on cut blocks) and without new
    arrivals, however many batches run, at most as many of them as there is
    work left are productive, that is run prompts or commit a token to some
    request: the work is the prompts still to run, the tokens the unfinished
    requests may still produce, and one for each ending, and it is spent exactly
    once.  With an algorithm that commits in every block, as LowConfidence does,
    every batch is productive, so that bounds the batches; TiDAR commits nothing
    when it runs out of slots, and those batches are not bounded here. *)
Theorem turns_bounded slots sort size ctx t g0 s g m n s' g' :
  cache_ok t -> cached t = [] -> rtc (step se masked oob empty) (init_server slots sort size ctx t, g0) (s, g) ->
  turns m n (s, g) (s', g') ->
  (n + work (objs s') <= work (objs s))%nat /\
  (alg_commits (DllmAlgorithm := DllmAlgorithm0) = true -> m = n).
Proof.
  intros Hck Ht Hr Htu.
  destruct (reachable_inv se masked oob empty bs_pos page_one no_strip priority_perm _ _ _ _ _ _ _ _ Hck Ht Hr) as [Hinv _].
  clear Hr. remember (s, g) as p eqn:Hp. remember (s', g') as q eqn:Hq. revert s g Hp Hinv.
  induction Htu as [p|m n s0 g1 b s1 q Hn Htu IH|m n s0 g1 b c eb mode s1 outs g2 a' t' lps s2 q Hn Hrun Hres Htu IH];
    intros s g Hp Hinv.
  - rewrite Hp in Hq. injection Hq as -> ->. done.
  - injection Hp as -> ->. destruct (next_inv se masked oob empty bs_pos page_one priority_perm _ _ _ _ _ Hinv Hn) as (_ & Hc & Hi1).
    destruct (work_lighter _ _ (carried_lighter _ _ Hc)) as [Hle _]. destruct (IH Hq s1 g eq_refl Hi1) as [? ?]. split; [lia|done].
  - injection Hp as -> ->.
    destruct (round_decreases _ _ _ _ _ _ _ _ _ _ _ _ _ _ Hinv Hn Hrun Hres) as [Hlt Hcom].
    destruct (step_inv se masked oob empty bs_pos page_one no_strip priority_perm (range 1 (slots + 1)) s g s2 g2) as [Hi2 _];
      [by eapply Round|done|].
    destruct (IH Hq s2 g2 eq_refl Hi2) as [IH1 IH2]. split; [lia|]. intros Hc. rewrite (Hcom Hc), IH2 by done. done.
Qed.

(** ** A prompt that does not fit *)








End liveness.
