(* ===== verification/ForwardInit.v ===== *)
(** * From a scheduled batch to a forward batch

    ForwardBatch.init_new (srt/model_executor/forward_batch_info.py) for the
    fields of ForwardBatch.v, and the position computation in its two forms:
    compute_position_torch and the triton kernel. *)

From S2P Require Import Prelude Allocator Tensor ForwardBatch DllmReq MemCommon DllmScheduler.

(** compute_position_torch *)
Definition compute_position_torch (extend_prefix_lens extend_seq_lens : list Z) : list Z * list Z :=
  (concat (zip_with (fun prefix_len extend_len => range prefix_len (prefix_len + extend_len))
             extend_prefix_lens extend_seq_lens),
   match extend_seq_lens with
   | [] => []
   | _ => 0 :: Paged.cumsum (removelast extend_seq_lens)
   end).

Definition POSITION_BLOCK : nat := 512.

(** compute_position_kernel, program [pid], on the two output buffers. *)
Definition position_program (has_prefix : bool) (extend_prefix_lens extend_seq_lens : list Z)
    (st : list Z * list Z) (pid : nat) : list Z * list Z :=
  let prefix_len := if has_prefix then extend_prefix_lens !!! pid else 0 in
  let seq_len := extend_seq_lens !!! pid in
  let cumsum_start := foldl Z.add 0 (take pid extend_seq_lens) in
  (masked_fill POSITION_BLOCK (Z.to_nat cumsum_start) (Z.to_nat seq_len)
     (fun offset => prefix_len + Z.of_nat offset) (fst st),
   <[pid := cumsum_start]> (snd st)).

(** compute_position_triton; [uninit] is what torch.empty leaves in memory. *)
Definition compute_position_triton (uninit : nat -> Z) (extend_prefix_lens extend_seq_lens : list Z)
    (extend_seq_lens_sum : Z) : list Z * list Z :=
  let batch_size := length extend_seq_lens in
  let has_prefix := (length extend_prefix_lens =? batch_size)%nat in
  foldl (position_program has_prefix extend_prefix_lens extend_seq_lens)
    (uninit <$> seq 0 (Z.to_nat extend_seq_lens_sum), uninit <$> seq 0 batch_size) (seq 0 batch_size).

(** compute_position *)
Definition compute_position (triton : bool) (uninit : nat -> Z)
    (extend_prefix_lens extend_seq_lens : list Z) (extend_seq_lens_sum : Z) : list Z * list Z :=
  if triton then compute_position_triton uninit extend_prefix_lens extend_seq_lens extend_seq_lens_sum
  else compute_position_torch extend_prefix_lens extend_seq_lens.

(** init_new for a prompt or block batch of the diffusion scheduler. *)
Definition init_new (triton : bool) (uninit : nat -> Z) (block_size : Z) (mode : forward_mode)
    (eb : extend_batch) : forward_batch :=
  let extend_num_tokens := len (eb_input_ids eb) in
  let '(positions, extend_start_loc) :=
    compute_position triton uninit (eb_prefix_lens eb) (eb_extend_lens eb) extend_num_tokens in
  let positions :=
    match mode with
    | DLLM_EXTEND => dllm_positions block_size ((fun r => dllm_block_offset (inp r)) <$> eb_reqs eb)
    | EXTEND => positions
    end in
  ForwardBatch (length (eb_seq_lens eb)) (eb_input_ids eb) (Z.of_nat <$> eb_req_pool_indices eb)
    (eb_seq_lens eb) (eb_out_cache_loc eb) (foldr Z.add 0 (eb_seq_lens eb)) positions
    extend_num_tokens (eb_extend_lens eb) (eb_prefix_lens eb) extend_start_loc
    (Some (eb_prefix_lens eb)) (Some (eb_extend_lens eb)) (Some (eb_seq_lens eb))
    (existsb (fun r => DllmReq.return_logprob (info r)) (eb_reqs eb)) false.

(** * Theorems *)

Lemma foldl_add_foldr (l : list Z) k : foldl Z.add k l = k + foldr Z.add 0 l.
Proof. revert k. induction l as [|x l IH]; intros k; cbn; [lia|]. rewrite IH. lia. Qed.

Lemma sum_snoc (l : list Z) x : foldr Z.add 0 (l ++ [x]) = foldr Z.add 0 l + x.
Proof. induction l as [|y l IH]; cbn; [lia|]. rewrite IH. lia. Qed.

Lemma sum_nonneg (l : list Z) : Forall (Z.le 0) l -> 0 <= foldr Z.add 0 l.
Proof. induction 1; cbn; lia. Qed.

Lemma range_offsets a n : 0 <= n -> (fun k => a + Z.of_nat k) <$> seq 0 (Z.to_nat n) = range a (a + n).
Proof.
  intros Hn. unfold range, seqZ. replace (a + n - a) with n by lia. apply list_fmap_ext. intros; lia.
Qed.

(** The positions of a batch, one per new token. *)
Lemma length_positions pr ex :
  length pr = length ex -> Forall (Z.le 0) ex ->
  length (concat (zip_with (fun p e => range p (p + e)) pr ex)) = Z.to_nat (foldr Z.add 0 ex).
Proof.
  intros Hl Hf. revert pr Hl. induction Hf as [|x ex Hx Hf IH]; intros [|y pr] Hl; try done.
  cbn. rewrite length_app, IH by (cbn in Hl; lia). rewrite len_range by lia. pose proof (sum_nonneg ex Hf). lia.
Qed.

Lemma sum_prefix_le (l : list Z) k : Forall (Z.le 0) l -> foldr Z.add 0 (take k l) <= foldr Z.add 0 l.
Proof. intros Hf. revert k. induction Hf as [|x l Hx Hf IH]; intros [|k]; cbn; [lia| lia| |specialize (IH k); lia].
  pose proof (sum_nonneg l Hf). lia. Qed.

(** Overwriting the first entry of what follows a prefix. *)
Lemma insert_next {A} (l r : list A) x :
  (0 < length r)%nat -> <[length l := x]> (l ++ r) = (l ++ [x]) ++ drop 1 r.
Proof.
  intros Hr. destruct r as [|y r]; [cbn in Hr; lia|]. rewrite insert_app_r_alt, Nat.sub_diag, <- app_assoc by done. done.
Qed.

(** The two buffers after the first [k] programs. *)
Lemma position_programs buf buf2 pre ext k :
  length pre = length ext -> Forall (Z.le 0) ext -> length buf = Z.to_nat (foldr Z.add 0 ext) ->
  length buf2 = length ext -> (k <= length ext)%nat ->
  foldl (position_program true pre ext) (buf, buf2) (seq 0 k) =
  (concat (zip_with (fun p e => range p (p + e)) (take k pre) (take k ext))
     ++ drop (Z.to_nat (foldr Z.add 0 (take k ext))) buf,
   ((fun n => foldr Z.add 0 (take n ext)) <$> seq 0 k) ++ drop k buf2).
Proof.
  intros Hl Hpos Hbuf Hbuf2. induction k as [|k IH]; intros Hk; [cbn; by rewrite drop_0|].
  rewrite seq_S, foldl_app, IH by lia. cbn [foldl plus]. unfold position_program. cbn [fst snd].
  destruct (lookup_lt_is_Some_2 ext k ltac:(lia)) as [e He]. destruct (lookup_lt_is_Some_2 pre k ltac:(lia)) as [p Hp].
  pose proof (sum_prefix_le ext (S k) Hpos) as Hse.
  rewrite (list_lookup_total_correct _ _ _ He), (list_lookup_total_correct _ _ _ Hp), foldl_add_foldr, Z.add_0_l.
  rewrite (take_S_r _ _ _ He), (take_S_r _ _ _ Hp), sum_snoc, fmap_app. rewrite (take_S_r _ _ _ He), sum_snoc in Hse.
  assert (He0 : 0 <= e) by (by apply (proj1 (Forall_lookup _ _) Hpos k)).
  assert (Hs0 : 0 <= foldr Z.add 0 (take k ext)) by (apply sum_nonneg, Forall_take; done).
  assert (Hzl : length (take k pre) = length (take k ext)) by (rewrite !length_take; lia).
  set (A := concat (zip_with _ (take k pre) (take k ext))).
  assert (HA : length A = Z.to_nat (foldr Z.add 0 (take k ext))) by (apply length_positions; [done|by apply Forall_take]).
  f_equal.
  - rewrite masked_fill_spec; [|unfold POSITION_BLOCK; lia|rewrite length_app, length_drop, HA, Hbuf; lia].
    rewrite range_offsets by done. rewrite zip_with_app, concat_app by done. cbn. rewrite app_nil_r. fold A.
    rewrite <- HA at 1. rewrite inserts_after by (rewrite len_range, length_drop by lia; lia).
    rewrite drop_drop, <- app_assoc. f_equal. f_equal. rewrite len_range by lia. f_equal. lia.
  - set (F := _ <$> seq 0 k). assert (HF : length F = k) by (unfold F; by rewrite length_fmap, length_seq).
    rewrite <- HF at 1. rewrite insert_next by (rewrite length_drop; lia). rewrite drop_drop, Nat.add_1_r. done.
Qed.

(** The position kernel computes what the torch code computes.  For a
    batch with a prefix length and a non-negative extension length per request,
    whose lengths sum to the size of the buffer, the triton kernel, chunked and
    masked, fills both buffers completely: the positions of each request are
    the ones after its prefix, and the start offsets are the exclusive prefix
    sums. *)
Theorem position_kernel_matches_torch uninit pre ext :
  length pre = length ext -> Forall (Z.le 0) ext ->
  compute_position_triton uninit pre ext (foldr Z.add 0 ext) = compute_position_torch pre ext.
Proof.
  intros Hl Hpos. unfold compute_position_triton. rewrite Hl, Nat.eqb_refl. cbn zeta.
  rewrite position_programs by (done || by rewrite length_fmap, length_seq).
  unfold compute_position_torch. rewrite !firstn_all, (take_ge pre) by lia.
  rewrite !drop_ge, !app_nil_r by (by rewrite length_fmap, length_seq). f_equal.
  destruct ext as [|e ext'] using rev_ind; [done|]. clear IHext'.
  rewrite removelast_last. destruct (ext' ++ [e]) as [|x y] eqn:Hx; [by destruct ext'|]. rewrite <- Hx.
  rewrite length_app. cbn [length]. rewrite Nat.add_1_r. cbn [seq]. rewrite fmap_cons. cbn [take foldr]. f_equal.
  unfold Paged.cumsum. rewrite <- fmap_S_seq, <- list_fmap_compose. apply list_fmap_ext. intros i n Hi.
  apply lookup_seq in Hi as [-> Hi]. unfold compose. cbn [plus]. by rewrite take_app_le by lia.
Qed.

Lemma position_kernel_witness :
  compute_position_triton (fun _ => 77) [3; 0; 5] [2; 0; 3] 5 = ([3; 4; 5; 6; 7], [0; 2; 2]).
Proof.
  apply (eq_trans (position_kernel_matches_torch (fun _ => 77) [3; 0; 5] [2; 0; 3] eq_refl
    ltac:(repeat constructor; lia))).
  reflexivity.
Defined.
