(* ===== verification/DllmInstances.v ===== *)
(** * Algorithms behind the scheduler

    LowConfidence and TiDAR as instances of the interface the scheduler relies
    on: one leaves memory to the scheduler, the other manages its own slots.
    Each run gets the forward batch that ForwardBatch.init_new builds from the
    scheduled batch. *)

From S2P Require Import Prelude Allocator Tensor ForwardBatch DllmReq MemCommon KvAccounting DllmScheduler DllmSchedulerProofs ForwardInit LowConfidence TidarInput Tidar.

Section low_confidence_instance.
Context `{Softmax} `{TopK} (bs : nat) (mask : Z) (threshold : score) (model : model_runner)
  (triton : bool) (uninit : nat -> Z).
Hypothesis bs_pos : (0 < bs)%nat.
Hypothesis model_ok : shaped_logits model.

Definition low_confidence_alg_run (mode : forward_mode) (eb : extend_batch) (log : fwd_log) (a : allocator)
    (t : list (list Z)) : res (list (list Z) * fwd_log * allocator * list (list Z)) :=
  '(out, outs, fb, log) ← LowConfidence.run bs mask threshold model
    (init_new triton uninit (Z.of_nat bs) mode eb) log;
  Ok (outs, log, a, t).

Lemma init_new_shape mode eb :
  let fb := init_new triton uninit (Z.of_nat bs) mode eb in
  input_ids fb = eb_input_ids eb /\ batch_size fb = length (eb_seq_lens eb).
Proof. cbn zeta. unfold init_new. by destruct (compute_position _ _ _ _ _). Qed.

(** The outputs on a batch of whole blocks: what the denoising made of each
    block, from its first mask on. *)
Lemma low_confidence_outs mode eb log outs log' a t a' t' table width :
  block_batch bs width eb table -> mask ∈ eb_input_ids eb ->
  low_confidence_alg_run mode eb log a t = Ok (outs, log', a', t') ->
  a' = a /\ t' = t /\ length outs = length (eb_req_pool_indices eb) /\
  forall b toks, outs !! b = Some toks -> exists blk, length blk = bs /\
    toks = drop (start_of bs mask (eb_input_ids eb) b) blk.
Proof.
  intros Hbb Hin Hrun. apply res_bind_Ok in Hrun as ([[[out outs'] fb'] log1] & Hrun & [= <- <- <- <-]).
  split; [done|]. split; [done|]. destruct (init_new_shape mode eb) as [Hids Hbsz]. rewrite (bb_seq _ _ _ _ Hbb) in Hbsz.
  set (fb := init_new _ _ _ _ _) in *. clearbody fb. revert Hrun. unfold LowConfidence.run.
  destruct (Nat.eqb_spec (num_masks mask (input_ids fb)) 0) as [Hz|_]; [apply num_masks_0 in Hz; congruence|].
  assert (Hl : length (input_ids fb) = (batch_size fb * bs)%nat) by (rewrite Hids, Hbsz; apply (bb_input _ _ _ _ Hbb)).
  destruct (low_denoise_spec bs mask threshold model (batch_size fb) model_ok bs fb log)
    as (ids' & log2 & -> & [Hk _] & _); [done|done|done|].
  step_ok. unfold forward. cbn beta iota.
  rewrite (reshape_blocks _ bs) by (cbn; first [rewrite Hbsz; apply (bb_some _ _ _ _ Hbb)|congruence]).
  step_ok. intros [= _ <- _ _]. cbn [with_input_ids batch_size input_ids]. rewrite Hids.
  unfold blocks. rewrite length_zip_with, !length_fmap, length_seq, <- Hbsz. split; [lia|].
  intros b toks. rewrite lookup_zip_with, !list_lookup_fmap. destruct (seq _ _ !! b) as [b'|] eqn:Hb; [|done].
  apply lookup_seq in Hb as [-> Hb]. cbn. intros [= <-]. eexists. split; [|reflexivity].
  apply (length_get_block _ _ (batch_size fb)); [congruence|done].
Qed.

(** LowConfidence asserts that the batch has as many blocks as requests. *)
Lemma low_confidence_whole mode eb log a t outs log' a' t' :
  mask ∈ eb_input_ids eb -> low_confidence_alg_run mode eb log a t = Ok (outs, log', a', t') ->
  (length (eb_seq_lens eb) * bs <= length (eb_input_ids eb))%nat.
Proof.
  intros Hin Hrun. apply res_bind_Ok in Hrun as ([[[out outs'] fb'] log1] & Hrun & _).
  destruct (init_new_shape mode eb) as [Hids Hbsz].
  set (fb := init_new _ _ _ _ _) in *. clearbody fb. revert Hrun. unfold LowConfidence.run.
  destruct (Nat.eqb_spec (num_masks mask (input_ids fb)) 0) as [Hz|Hnz]; [apply num_masks_0 in Hz; congruence|].
  intros (x & Hd & _)%res_bind_Ok. destruct bs as [|k] eqn:Hk; [lia|]. cbn [denoise] in Hd.
  rewrite (proj2 (Nat.eqb_neq _ _) Hnz) in Hd. unfold forward in Hd. apply res_bind_Ok in Hd as (u & Ha & _).
  unfold py_assert in Ha. destruct (Nat.eqb_spec (batch_size fb) (length (input_ids fb) / S k)) as [He|]; [|done].
  rewrite <- Hids, <- Hbsz, He, Nat.mul_comm. apply Nat.Div0.mul_div_le.
Qed.

(** On blocks of masks every request gets its whole block. *)
Lemma low_confidence_commits mode eb log a t outs log' a' t' table width :
  block_batch bs width eb table -> Forall (fun x => x = mask) (eb_input_ids eb) ->
  low_confidence_alg_run mode eb log a t = Ok (outs, log', a', t') -> Forall (fun toks => toks <> []) outs.
Proof.
  intros Hbb HF Hrun.
  assert (Hin : mask ∈ eb_input_ids eb).
  { pose proof (bb_input _ _ _ _ Hbb) as Hl. pose proof (bb_some _ _ _ _ Hbb) as Hs.
    destruct (eb_input_ids eb) as [|x ids]; [cbn in Hl; nia|]. apply Forall_cons in HF as [-> _]. by left. }
  destruct (low_confidence_outs _ _ _ _ _ _ _ _ _ _ _ Hbb Hin Hrun) as (_ & _ & Hlo & Ho).
  apply Forall_lookup. intros b toks Hb. destruct (Ho b toks Hb) as (blk & Hl & ->). intros Hnil.
  apply (f_equal length) in Hnil. rewrite length_drop in Hnil. cbn in Hnil. unfold start_of in Hnil.
  assert (Hm : num_masks mask (get_block bs b (eb_input_ids eb)) = bs).
  { apply lookup_lt_Some in Hb. rewrite Hlo in Hb. set (blk' := get_block bs b (eb_input_ids eb)).
    assert (Hlb : length blk' = bs) by (by apply (length_get_block _ _ (length (eb_req_pool_indices eb))); [apply (bb_input _ _ _ _ Hbb)|]).
    assert (HFb : Forall (fun x => x = mask) blk') by (by apply Forall_take, Forall_drop).
    rewrite <- Hlb. clear -HFb. unfold num_masks, eq_mask. induction HFb as [|x l -> _ IH]; [done|].
    rewrite fmap_cons, Z.eqb_refl. unfold count in *. rewrite filter_cons_True by done. cbn [length]. by rewrite IH. }
  lia.
Qed.

(** LowConfidence behind the scheduler. *)
#[program] Definition low_confidence_algorithm : DllmAlgorithm bs mask false := {|
  alg_width := bs;
  alg_state := fwd_log;
  alg_run := low_confidence_alg_run;
  alg_commits := true;
|}.
Next Obligation. done. Qed.
Next Obligation.
  intros mode eb g a t outs g' a' t' _ Hrun. apply res_bind_Ok in Hrun as ([[[out outs'] fb'] log1] & _ & [= _ _ <- <-]). done.
Qed.
Next Obligation. intros. by eapply low_confidence_whole. Qed.
Next Obligation. intros mode eb g a t outs g' a' t' _ Hbb _ HF Hrun. by eapply low_confidence_commits. Qed.
Next Obligation.
  intros mode eb g a t outs g' a' t' Hbb Hwf Hg Hm Hrun. cbn zeta.
  destruct (low_confidence_outs _ _ _ _ _ _ _ _ _ _ _ Hbb Hm Hrun) as (-> & -> & Hl & Ho).
  split; [done|]. split; [|done]. intros b toks Hb. destruct (Ho b toks Hb) as (blk & Hlb & ->).
  rewrite length_drop. lia.
Qed.
End low_confidence_instance.

(** Cutting a list in blocks adds nothing. *)
Lemma length_blocks_le {A} (W n : nat) (l : list A) :
  (length (concat ((fun b => get_block W b l) <$> seq 0 n)) <= length l)%nat.
Proof.
  assert (Hle : (length (concat ((fun b => get_block W b l) <$> seq 0 n)) <= length (take (n * W) l))%nat);
    [|rewrite length_take in Hle; lia].
  induction n as [|n IH]; [done|]. rewrite seq_S, fmap_app, concat_app, length_app. cbn [fmap list_fmap concat].
  rewrite app_nil_r. unfold get_block at 2. rewrite length_take, length_drop in *. rewrite length_take in *. cbn. lia.
Qed.

Section tidar_instance.
Context `{Softmax} (self : tidar) (models : nat -> tmodel) (triton : bool) (uninit : nat -> Z).
Local Notation bs := (Tidar.block_size self).
Local Notation mask := (Z.of_nat (Tidar.mask_id self)).
Hypothesis bs_pos : (0 < bs)%nat.
Hypothesis iters_pos : (0 < max_quad_iters self)%nat.
Hypothesis model_ok : forall k fb, length (full_logits (models k 0%nat (DllmExtend fb))) = length (input_ids fb).

(** Run [k] sees model [models k]; the buffers persist. *)
Definition tidar_alg_run (mode : forward_mode) (eb : extend_batch) (g : nat * tpool) (a : allocator)
    (t : list (list Z)) : res (list (list Z) * (nat * tpool) * allocator * list (list Z)) :=
  '(_, outs, _, w, _) ← Tidar.run self (models (fst g)) uninit
    (init_new triton uninit (Z.of_nat bs) mode eb) (TWorld a t (snd g));
  Ok (outs, (S (fst g), bufs w), Tidar.kv w, Tidar.req_to_token w).

Lemma init_new_fields mode eb :
  let fb := init_new triton uninit (Z.of_nat bs) mode eb in
  input_ids fb = eb_input_ids eb /\ batch_size fb = length (eb_seq_lens eb) /\
  req_pool_indices fb = Z.of_nat <$> eb_req_pool_indices eb /\ out_cache_loc fb = eb_out_cache_loc eb /\
  extend_prefix_lens fb = eb_prefix_lens eb.
Proof. cbn zeta. unfold init_new. by destruct (compute_position _ _ _ _ _). Qed.

Lemma tidar_run_pre mode eb g a t :
  block_batch bs (bs + quad bs) eb t -> Token.wf a -> is_not_in_free_group a = true -> mask ∈ eb_input_ids eb ->
  let fb := init_new triton uninit (Z.of_nat bs) mode eb in
  run_pre self (models g) fb (TWorld a t (snd (g, TPool [] [] [] 0))) /\
  (forall b, (b < length (eb_req_pool_indices eb))%nat ->
     row_of fb b = eb_req_pool_indices eb !!! b /\ prefixes_of fb !!! b = Z.to_nat (eb_prefix_lens eb !!! b)).
Proof.
  intros Hbb Hwf Hg Hm. destruct (init_new_fields mode eb) as (F1 & F2 & F3 & F4 & F5). cbn zeta.
  set (fb := init_new _ _ _ _ _) in *. clearbody fb. pose proof (bb_seq _ _ _ _ Hbb) as Hsq.
  assert (Hrow : forall b, (b < length (eb_req_pool_indices eb))%nat ->
     row_of fb b = eb_req_pool_indices eb !!! b /\ prefixes_of fb !!! b = Z.to_nat (eb_prefix_lens eb !!! b)).
  { intros b Hb. unfold row_of, prefixes_of. rewrite F3, (total_fmap Z.of_nat), Nat2Z.id by done. split; [done|].
    rewrite F2, F5, Hsq. apply list_lookup_total_correct. rewrite list_lookup_fmap, lookup_seq_lt by done. done. }
  split; [|exact Hrow]. unfold run_pre.
  split; [done|]. split; [rewrite F2, Hsq; apply (bb_some _ _ _ _ Hbb)|].
  split; [by rewrite F3, length_fmap, F2|].
  split.
  { destruct (any (eq_mask mask (input_ids fb))) eqn:Hany; [done|]. apply any_eq_mask_false in Hany.
    rewrite F1 in Hany. done. }
  split; [rewrite model_ok, F1, F2, Hsq; apply (bb_input _ _ _ _ Hbb)|].
  split; [|done]. cbn [Tidar.req_to_token]. unfold rows_ok.
  assert (Hn : length (req_pool_indices fb) = length (eb_req_pool_indices eb)) by (by rewrite F3, length_fmap).
  rewrite Hn. split; [apply (bb_rect _ _ _ _ Hbb)|]. split; [unfold prefixes_of; by rewrite length_fmap, length_seq, F2|]. split.
  - intros b c Hb Hc. rewrite (proj1 (Hrow b Hb)), (proj1 (Hrow c Hc)). intros Heq.
    apply (NoDup_lookup _ b c (eb_req_pool_indices eb !!! b) (bb_idx _ _ _ _ Hbb)).
    + by apply list_lookup_lookup_total_lt.
    + rewrite Heq. by apply list_lookup_lookup_total_lt.
  - intros b Hb. destruct (Hrow b Hb) as [-> ->]. destruct (bb_row _ _ _ _ Hbb b Hb) as (row & Hr & Hp & Hw).
    exists row. split; [done|]. lia.
Qed.

(** The pooled builder refuses a draft that is not a whole block per request,
    before anything is allocated. *)
Lemma pooled_whole seq_lens drafts offs mask_rows p d m x :
  build_tidar_decode_inputs_pooled seq_lens seq_lens bs mask drafts offs mask_rows p d m = Ok x ->
  length drafts = (length seq_lens * bs)%nat.
Proof.
  unfold build_tidar_decode_inputs_pooled. cbn zeta. destruct (negb (can_view _ _ p)); [done|].
  destruct (Nat.eqb_spec (length drafts) (length seq_lens * bs)) as [|]; [done|]. by rewrite orb_true_r.
Qed.

(** TiDAR raises on a batch that holds fewer tokens than whole blocks. *)
Lemma tidar_whole mode eb g a t outs g' a' t' :
  mask ∈ eb_input_ids eb -> tidar_alg_run mode eb g a t = Ok (outs, g', a', t') ->
  (length (eb_seq_lens eb) * bs <= length (eb_input_ids eb))%nat.
Proof.
  intros Hm Hrun. apply res_bind_Ok in Hrun as ([[[[o outs'] c] w] lg] & Hrun & _).
  destruct (init_new_fields mode eb) as (F1 & F2 & _). set (fb := init_new _ _ _ _ _) in *. clearbody fb.
  revert Hrun. unfold Tidar.run. cbn zeta.
  destruct (any (eq_mask mask (input_ids fb))) eqn:Hany.
  2: { apply any_eq_mask_false in Hany. congruence. }
  cbn [negb]. unfold tforward. intros (st & Hl & _)%res_bind_Ok.
  destruct (max_quad_iters self) as [|k] eqn:Hk; [lia|]. cbn [quad_loop reqs] in Hl.
  destruct (Nat.eq_dec (length (eb_seq_lens eb)) 0%nat) as [->|Hn0]; [lia|].
  destruct (forallb _ _) eqn:Hall in Hl.
  { rewrite F2 in Hall. destruct (length (eb_seq_lens eb)); [done|]. cbn in Hall. destruct bs; [lia|done]. }
  apply res_bind_Ok in Hl as ([st1 c1] & Hq & _). unfold quad_step in Hq. cbn [world reqs] in Hq.
  apply res_bind_Ok in Hq as ([[[ids pos] cm] [[d1 p1] c2]] & Hp & _). apply pooled_whole in Hp.
  rewrite <- !list_fmap_compose, length_fmap, length_seq in Hp. unfold compose in Hp. cbn [draft] in Hp.
  pose proof (length_blocks_le bs (batch_size fb) (initial_draft self (full_logits (models (fst g) 0%nat (DllmExtend fb))))) as Hle.
  cbn [length] in Hp. rewrite Hp in Hle. unfold initial_draft in Hle. rewrite length_fmap, model_ok, F1, F2 in Hle. exact Hle.
Qed.

(** TiDAR behind the scheduler. *)
#[program] Definition tidar_algorithm : DllmAlgorithm bs mask true := {|
  alg_width := bs + quad bs;
  alg_state := nat * tpool;
  alg_run := tidar_alg_run;
  alg_commits := false;
|}.
Next Obligation. lia. Qed.
Next Obligation.
  intros mode eb g a t outs g' a' t' Hm Hrun. apply res_bind_Ok in Hrun as ([[[[o outs'] c] w] lg] & Hrun & [= _ _ <- <-]).
  revert Hrun. unfold Tidar.run. cbn zeta. destruct (init_new_fields mode eb) as (-> & _).
  rewrite (proj2 (any_eq_mask_false _ _) Hm). cbn [negb].
  destruct (_ <? _)%nat, (_ =? _)%nat; by intros [= _ _ _ <- _].
Qed.
Next Obligation. intros. by eapply tidar_whole. Qed.
Next Obligation. done. Qed.
Next Obligation.
  intros mode eb [k p] a t outs g' a' t' Hbb Hwf Hg Hm Hrun. cbn zeta.
  apply res_bind_Ok in Hrun as ([[[[o outs'] c] w] lg] & Hrun & [= <- _ <- <-]). cbn [fst snd] in Hrun.
  destruct (tidar_run_pre mode eb k a t Hbb Hwf Hg Hm) as [Hpre Hrow].
  destruct (init_new_fields mode eb) as (F1 & F2 & F3 & F4 & F5).
  set (fb := init_new _ _ _ _ _) in *. clearbody fb.
  assert (Hpre' : run_pre self (models k) fb (TWorld a t p)) by exact Hpre. clear Hpre.
  rewrite (run_unfold self (models k) uninit fb _ Hpre') in Hrun.
  apply res_bind_Ok in Hrun as (st & Hl & [= _ <- _ <- _]).
  pose proof (start_inv self (models k) uninit fb _ Hpre') as Hinv0.
  destruct Hpre' as (_ & _ & Hids & _ & _ & Hrows & _ & _).
  pose proof (quad_loop_inv self (models k) fb _ _ _ _ _ _ Hrows bs_pos Hinv0 Hl) as Hinv.
  assert (Hn : length (req_pool_indices fb) = length (eb_req_pool_indices eb)) by (by rewrite F3, length_fmap).
  pose proof (inv_len _ _ _ _ _ _ Hinv) as Hlen. rewrite Hn in Hlen.
  destruct (inv_table _ _ _ _ _ _ Hinv) as (Ht1 & Ht2 & Ht3). cbn [Tidar.req_to_token] in *.
  split; [by rewrite length_fmap|]. split.
  { intros b toks. rewrite list_lookup_fmap, fmap_Some. intros (r & Hr & ->).
    destruct (inv_req _ _ _ _ _ _ Hinv b r Hr) as [(_ & ? & _) _]. done. }
  split.
  { pose proof (inv_pool _ _ _ _ _ _ Hinv) as Hp. cbn [Tidar.kv] in Hp. rewrite F4, (bb_loc _ _ _ _ Hbb) in Hp.
    assert (Hk : kept fb (prefixes_of fb) (Tidar.req_to_token (world st)) (committed <$> reqs st) =
      block_slots eb (Tidar.req_to_token (world st)) (fun b => length ((committed <$> reqs st) !!! b))).
    { unfold kept, block_slots, kept_of. rewrite Hn. apply bind_ext_seq. intros b Hb.
      by destruct (Hrow b Hb) as [-> ->]. }
    rewrite <- Hk. exact Hp. }
  split; [apply (inv_wf _ _ _ _ _ _ Hinv)|]. split; [apply (inv_group _ _ _ _ _ _ Hinv)|].
  split; [done|]. split.
  - intros b Hb. destruct (Ht2 b) as [H1 H2]; [by rewrite Hn|]. destruct (Hrow b Hb) as [E1 E2].
    rewrite E1 in H1. rewrite E1, E2 in H2. done.
  - intros j Hj. apply Ht3. intros b Hb. rewrite Hn in Hb. rewrite (proj1 (Hrow b Hb)). intros <-. apply Hj.
    apply (list_elem_of_lookup_2 _ b). by apply list_lookup_lookup_total_lt.
Qed.
End tidar_instance.
