(* ===== verification/DllmChannels.v ===== *)
(** * The per-token channels of a request

    process_batch_result_dllm extends the logprob, reveal-step and entropy
    channels beside the output; they stay one entry per output token. *)

From S2P Require Import Prelude Allocator DllmReq MemCommon DllmScheduler DllmSchedulerProofs.

(** One entry per output token in every channel the request keeps. *)
Definition aligned (r : req) : Prop :=
  let n := length (output_ids (out r)) in
  let c := channels (out r) in
  return_logprob (info r) = true ->
  length (output_token_logprobs_val c) = n /\ length (output_token_logprobs_idx c) = n /\
  (forall l, output_token_reveal_steps c = Some l -> length l = n) /\
  (forall l, output_token_entropy_val c = Some l -> length l = n) /\
  (wants_top_logprobs (info r) = true ->
     length (output_top_logprobs_val c) = n /\ length (output_top_logprobs_idx c) = n) /\
  (wants_token_ids_logprob (info r) = true ->
     length (output_token_ids_logprobs_val c) = n /\ length (output_token_ids_logprobs_idx c) = n).

(** The algorithm attached what the request keeps: logprobs, and one entry per
    committed token for each optional channel. *)
Definition covers (lps : lp_result) (idx : nat) (toks : list Z) (r : req) : Prop :=
  let c := channels (out r) in
  is_Some (next_token_logprobs lps) /\
  (is_Some (output_token_reveal_steps c) ->
     exists l x, next_token_reveal_steps lps = Some l /\ l !! idx = Some x /\ length x = length toks) /\
  (is_Some (output_token_entropy_val c) ->
     exists l x, next_token_entropy lps = Some l /\ l !! idx = Some x /\ length x = length toks).

Lemma aligned_ext r r' :
  info r' = info r -> channels (out r') = channels (out r) ->
  length (output_ids (out r')) = length (output_ids (out r)) -> aligned r -> aligned r'.
Proof. intros Hi Hc Hl. unfold aligned. by rewrite Hi, Hc, Hl. Qed.

Lemma check_finished_channels str grammar n r :
  channels (out (check_finished str grammar n r)) = channels (out r).
Proof.
  unfold check_finished, check_token_based_finish, check_vocab_boundary_finish.
  destruct (finished r); [done|]. destruct (to_finish (out r)); [done|]. destruct (_ <=? _); [done|].
  destruct (grammar r); [done|]. destruct (ignore_eos _).
  - destruct (list_find _ _) as [[i t]|]; [done|]. by destruct (str r).
  - destruct (list_find _ _) as [[i t]|]; [done|]. destruct (list_find _ _) as [[i t]|]; [done|]. by destruct (str r).
Qed.

Lemma extend_optional_length attached idx channel n m channel' :
  extend_optional attached idx channel = Ok channel' ->
  (forall l, channel = Some l -> length l = n) ->
  (is_Some channel -> exists l x, attached = Some l /\ l !! idx = Some x /\ length x = m) ->
  forall l, channel' = Some l -> length l = (n + m)%nat.
Proof.
  intros He Hn Hc. destruct channel as [c|].
  - destruct (Hc ltac:(by eexists)) as (l0 & x & -> & Hx & Hm). cbn in He. rewrite Hx in He. cbn in He.
    injection He as <-. intros l [= <-]. rewrite length_app, (Hn c eq_refl), Hm. done.
  - destruct attached; injection He as <-; done.
Qed.

Section channels.
Context {T : Type} `{!PrefixCache T} (se : @settings T).

Lemma release_keeps ps strip r (m : mem T) r' m' :
  release_kv_cache ps strip false r m = Ok (r', m') -> info r' = info r /\ out r' = out r.
Proof.
  unfold release_kv_cache. destruct (req_pool_idx (kvs r)); [|done]. intros H. apply res_bind_Ok in H as (row & _ & H).
  apply res_bind_Ok in H as ([r1 [t a]] & Hf & H). apply finished_req in Hf as [_ ->].
  apply res_bind_Ok in H as ([[x y] r5] & Hp & H). apply res_bind_Ok in Hp as (? & _ & [= _ _ <-]).
  apply res_bind_Ok in H as (_ & _ & H). cbn zeta in H. apply res_bind_Ok in H as ([r6 p] & Hf & [= <- _]).
  unfold pool_free in Hf. destruct (req_pool_idx _); [|done]. by injection Hf as <- _.
Qed.

Lemma extend_aligned lps idx toks r r' :
  aligned r -> (return_logprob (info r) = true -> covers lps idx toks r) ->
  extend_logprobs lps idx toks (extend_output toks r) = Ok r' -> aligned r'.
Proof.
  intros Ha Hc He. destruct (extend_logprobs_frame _ _ _ _ _ He) as (_ & Hi & Ho & _).
  unfold aligned. rewrite Hi, Ho. intros Hlp. change (return_logprob (info r) = true) in Hlp.
  destruct (Ha Hlp) as (A1 & A2 & A3 & A4 & A5 & A6). destruct (Hc Hlp) as ([l Hl] & C2 & C3).
  unfold extend_logprobs in He. rewrite Hl in He. change (info (extend_output toks r)) with (info r) in *.
  rewrite Hlp in He. apply res_bind_Ok in He as (x & _ & He).
  destruct (Z.eqb_spec (len x) (len toks)) as [Hx|]; [|done].
  apply res_bind_Ok in He as (reveal & Hr & He). apply res_bind_Ok in He as (entropy & Hen & He). injection He as <-.
  change (channels (out (extend_output toks r))) with (channels (out r)) in *.
  change (output_ids (out (extend_output toks r))) with (output_ids (out r) ++ toks).
  rewrite length_app. cbn [out set_out channels output_token_logprobs_val output_token_logprobs_idx
    output_token_reveal_steps output_token_entropy_val output_top_logprobs_val output_top_logprobs_idx
    output_token_ids_logprobs_val output_token_ids_logprobs_idx].
  unfold len in Hx. split; [rewrite length_app; lia|]. split; [rewrite length_app; lia|].
  split; [by eapply extend_optional_length|]. split; [by eapply extend_optional_length|].
  split; intros Hw; rewrite Hw, !length_app, length_replicate.
  - destruct (A5 Hw). lia.
  - destruct (A6 Hw). lia.
Qed.

(** The channels stay aligned with the output.  Processing the tokens an
    algorithm committed for a request, whether the request ends or not, keeps
    every logprob, reveal-step and entropy channel the request asked for at
    one entry per output token. *)
Theorem channels_stay_aligned toks lps idx r (m : mem T) r' m' :
  aligned r -> (return_logprob (info r) = true -> toks <> [] -> covers lps idx toks r) ->
  process_one se toks lps idx r m = Ok (r', m') -> aligned r'.
Proof.
  intros Ha Hc. unfold process_one. cbn zeta. destruct (Z.eqb_spec (len toks) 0) as [H0|H0].
  { intros H. assert (Hr : info r' = info r /\ out r' = out r).
    { unfold drop_rejected in H. destruct (tidar_manages_kv se); by injection H as <- _. }
    destruct Hr as [Hi Ho]. by apply (aligned_ext r); rewrite ?Ho. }
  assert (Hne : toks <> []) by (intros ->; by apply H0).
  intros H. apply res_bind_Ok in H as (r2 & Hlp & H).
  assert (Ha2 : aligned r2).
  { eapply extend_aligned; [| |exact Hlp].
    - by apply (aligned_ext r).
    - intros Hret. by apply Hc. }
  destruct (if len toks <? block_size (cfg se) then _ else _) as [r3 m3] eqn:Hd.
  assert (Hr3 : info r3 = info r2 /\ out r3 = out r2).
  { unfold drop_rejected in Hd. destruct (_ <? _), (tidar_manages_kv se); by injection Hd as <- _. }
  destruct Hr3 as [Hi3 Ho3].
  set (r4 := check_finished _ _ _ r3) in *.
  destruct (check_finished_frame (str_finish se) (grammar_terminated se) (len toks) r3) as (_ & Hi4 & _ & Hl4 & _).
  fold r4 in Hi4, Hl4.
  assert (Hc4 : channels (out r4) = channels (out r3)) by apply check_finished_channels. clearbody r4.
  destruct (round_frame se r4) as (_ & Hi5 & Ho5 & _).
  assert (Hc5 : channels (out (round_finished_len se r4)) = channels (out r4)).
  { unfold round_finished_len. destruct (finished_len (out r4)); [|done]. by destruct (_ && _). }
  set (r5 := round_finished_len se r4) in *. clearbody r5.
  assert (Ha5 : aligned r5).
  { apply (aligned_ext r2); [congruence|congruence| |done]. rewrite Ho5. unfold len in Hl4. rewrite Ho3 in Hl4. lia. }
  destruct (finished r5); [|by injection H as <- _].
  apply release_keeps in H as [Hi6 Ho6]. apply (aligned_ext r5); try done; by rewrite Ho6.
Qed.
End channels.

(** A request that wants reveal steps, and a result that carries them. *)
Definition channel_req : req :=
  Req (ReqInfo 1 [5; 6] (SamplingParams 9 false []) [7] None 100 true (-1) true false)
      (ReqOut [3] (LpChannels [30] [3] (Some [0]) None [[]] [[]] [] []) None None None)
      (ReqKV (Some 0%nat) 5 5 false false 0) (ReqIn [5; 6; 3; 9; 9] [1; 2; 3] 2 0 1 (Some STAGING_DECODE) 3).
Definition channel_se : @settings unit :=
  Settings (DllmConfig "FastDiffuser" 2 9 2 2 false true) 4096 8 1000 None 1 false (fun _ q => q)
    (fun _ _ => ([], None)) (fun _ => None) (fun _ => false).
Definition channel_mem : mem unit := Mem (Token.init 20 false) (pool_init 2 12) tt.

Lemma channels_stay_aligned_witness :
  exists r' m', process_one channel_se [4; 8] (LpResult (Some [[40; 80]]) (Some [[1; 0]]) None) 0 channel_req channel_mem
    = Ok (r', m') /\ aligned r' /\ output_token_reveal_steps (channels (out r')) = Some [0; 1; 0].
Proof.
  do 2 eexists. split; [vm_compute; reflexivity|]. split; [|reflexivity].
  refine (channels_stay_aligned channel_se [4; 8] (LpResult (Some [[40; 80]]) (Some [[1; 0]]) None) 0 channel_req
    channel_mem _ _ _ _ ltac:(vm_compute; reflexivity)).
  - intros _. repeat split; try done; by intros l [= <-].
  - intros _ _. split; [by eexists|]. split.
    + intros _. by do 2 eexists.
    + by intros [? ?].
Defined.
