(* ===== verification/DllmExamples.v ===== *)
(** * A server that runs

    LowConfidence on the chunk cache: a server of thirty slots, two rows and
    blocks of two tokens, serving one request to its end; the theorems about
    servers applied to it. *)

From S2P Require Import Prelude Allocator Tensor ForwardBatch LowConfidence JointThreshold DllmReq MemCommon KvAccounting DllmScheduler DllmSchedulerProofs DllmService DllmLiveness ForwardInit DllmInstances.

Definition demo_se : @settings unit :=
  Settings (DllmConfig "LowConfidence" 2 9 2 2 false false) 4096 8 1000 None 1 false (fun _ q => q)
    (fun _ _ => ([], None)) (fun _ => None) (fun _ => false).

Definition demo_alg : DllmAlgorithm 2 9 false :=
  low_confidence_algorithm 2 9 (Fin 0) demo_model true (fun _ => 0) ltac:(lia) demo_model_ok.
#[local] Instance demo_algorithm :
  DllmAlgorithm (Z.to_nat (block_size (cfg demo_se))) (mask_id (cfg demo_se)) (tidar_manages_kv demo_se) := demo_alg.

Definition demo_arrival (id limit : Z) : req :=
  Req (ReqInfo id [1; 3] (SamplingParams limit false []) [] None 100 false (-1) false false)
      (ReqOut [] no_channels None None None) (ReqKV None 0 0 false false 0)
      (ReqIn [] [] 0 0 0 (Some INCOMING_PREFILL) 0).

Definition no_lps : lp_result := LpResult None None None.
Definition demo_state : Type := @sched unit * fwd_log.

(** Turns of the event loop. *)
Section turns.
Context {T : Type} `{!PrefixCache T} (se : @settings T).
Context `{!DllmAlgorithm (Z.to_nat (block_size (cfg se))) (mask_id (cfg se)) (tidar_manages_kv se)}.

Fixpoint run_turns (n : nat) (p : @sched T * alg_state) : res (@sched T * alg_state) :=
  match n with
  | O => Ok p
  | S n =>
      p ← event_loop_turn se zero_lanes (fun _ => 0) (fun _ => []) true no_lps p;
      run_turns n p
  end.

Lemma run_turns_rtc n p q :
  run_turns n p = Ok q -> rtc (step se zero_lanes (fun _ => 0) (fun _ => [])) p q.
Proof.
  revert p. induction n as [|n IH]; intros p; cbn [run_turns]; [intros [= <-]; constructor|].
  intros H. apply res_bind_Ok in H as (p' & Ht & H).
  econstructor; [by eapply turn_step|by apply IH].
Qed.
End turns.

Definition demo_turns (n : nat) (p : demo_state) : res demo_state := run_turns demo_se n p.

Lemma demo_turns_rtc n (p q : demo_state) :
  demo_turns n p = Ok q -> rtc (step demo_se zero_lanes (fun _ => 0) (fun _ => [])) p q.
Proof. exact (run_turns_rtc (T := unit) demo_se n p q). Qed.

Definition demo_init (slots : Z) : @sched unit := init_server slots false 2 16 tt.
Definition demo_log : fwd_log := [].
Definition demo_start (limit : Z) : demo_state :=
  (add_request_to_queue (demo_arrival 7 limit) (demo_init 30), demo_log).
Definition demo_after (n : nat) (limit : Z) : demo_state :=
  match demo_turns n (demo_start limit) with Ok p => p | Raise _ => demo_start limit end.

Definition succeeds {A} (x : res A) : bool := match x with Ok _ => true | Raise _ => false end.

Lemma demo_base id limit : 0 <= limit <= 12 -> base demo_se 2 16 (demo_arrival id limit).
Proof.
  intros Hl. split; try done; cbn; try (unfold len; cbn; lia).
  intros [?|[?|?%not_elem_of_nil]%elem_of_cons]%elem_of_cons; done.
Qed.

Lemma demo_reach n limit :
  0 <= limit <= 12 -> succeeds (demo_turns n (demo_start limit)) = true ->
  rtc (step demo_se zero_lanes (fun _ => 0) (fun _ => [])) (demo_init 30, demo_log)
    (fst (demo_after n limit), snd (demo_after n limit)).
Proof.
  intros Hl Hs. assert (Ht : demo_turns n (demo_start limit) = Ok (demo_after n limit))
    by (unfold demo_after; by destruct (demo_turns n (demo_start limit))).
  eapply rtc_l; [|rewrite <- surjective_pairing; by apply (demo_turns_rtc n)].
  apply Arrive; [done|by split|by apply demo_base].
Qed.

Local Notation perm := (fun _ (q : list Z) => Permutation_refl q).

(** Three turns: the prompt and two blocks; the request has finished. *)
Lemma service_drains_witness :
  Token.pool (kv (smem (fst (demo_after 3 3)))) ++ [] ≡ₚ range 1 31 /\
  free_slots (rows (smem (fst (demo_after 3 3)))) ≡ₚ seq 0 2.
Proof.
  refine (service_drains demo_se zero_lanes (fun _ => 0) (fun _ => []) ltac:(reflexivity) eq_refl eq_refl perm
    30 false 2 16 tt demo_log (fst (demo_after 3 3)) (snd (demo_after 3 3)) I eq_refl
    (demo_reach 3 3 ltac:(lia) ltac:(vm_compute; reflexivity)) _).
  intros i r Hr. assert (Hv : Forall (fun p => finished p.2 = true) (map_to_list (objs (fst (demo_after 3 3)))))
    by (vm_compute; repeat constructor).
  exact (proj1 (Forall_forall _ _) Hv (i, r) (proj2 (elem_of_map_to_list _ _ _) Hr)).
Defined.

(** After one block the request holds the slots of its prompt and the block. *)
Lemma service_conserves_witness :
  Token.pool (kv (smem (fst (demo_after 2 3)))) ++ [] ++
    (vals (objs (fst (demo_after 2 3))) ≫= owned (req_to_token (rows (smem (fst (demo_after 2 3))))))
    ≡ₚ range 1 31 /\
  (vals (objs (fst (demo_after 2 3))) ≫= owned (req_to_token (rows (smem (fst (demo_after 2 3)))))) = [1; 2; 3; 4].
Proof.
  split; [|vm_compute; reflexivity].
  exact (proj1 (service_conserves demo_se zero_lanes (fun _ => 0) (fun _ => []) ltac:(reflexivity) eq_refl eq_refl perm
    30 false 2 16 tt demo_log (fst (demo_after 2 3)) (snd (demo_after 2 3)) I eq_refl
    (demo_reach 2 3 ltac:(lia) ltac:(vm_compute; reflexivity)))).
Defined.


(** One block from the state after the prompt. *)
Lemma turns_bounded_witness :
  (1 + work (objs (fst (demo_after 2 3))) <= work (objs (fst (demo_after 1 3))))%nat.
Proof.
  refine (proj1 (turns_bounded demo_se zero_lanes (fun _ => 0) (fun _ => []) ltac:(reflexivity) eq_refl eq_refl perm
    30 false 2 16 tt demo_log (fst (demo_after 1 3)) (snd (demo_after 1 3)) 1 1
    (fst (demo_after 2 3)) (snd (demo_after 2 3)) I eq_refl
    (demo_reach 1 3 ltac:(lia) ltac:(vm_compute; reflexivity)) _)).
  apply (turn_turns demo_se zero_lanes (fun _ => 0) (fun _ => []) true no_lps); vm_compute; reflexivity.
Defined.




(** ** A block cut to one position

    A request with two prompt tokens and a block of two, cut to one: its row
    records slots 1, 2 and 3. *)
Definition cut_req : req := set_kv_lens (set_pool_idx (demo_arrival 7 8) (Some 0%nat)) 3 3.
Definition cut_mem : mem unit :=
  Mem (Token.init 30 false) (set_table (pool_init 2 16) [[1; 2; 3] ++ replicate 13 0; replicate 16 0]) tt.

(** The request keeps three tokens and two slots: the slot of the token just
    committed is free. *)
Lemma truncated_block_overfrees_witness :
  exists r' m', process_one demo_se [2] no_lps 0 cut_req cut_mem = Ok (r', m') /\
    seqlen r' = 3 /\ kv_committed_len (kvs r') = 2 /\ Token.pool (kv m') ≡ₚ [3] ++ Token.pool (kv cut_mem).
Proof.
  eexists _, _. split; [reflexivity|].
  edestruct (truncated_block_overfrees demo_se cut_mem cut_req [2] no_lps 0) as (H1 & H2 & _ & H4);
    [reflexivity|reflexivity|instantiate (1 := 1); reflexivity|by vm_compute|by vm_compute|by vm_compute|reflexivity|by eexists|].
  split; [exact H1|]. split; [exact H2|exact H4].
Defined.

(** JointThreshold accepts such a block: reshaping one request's tokens never
    fails. *)
Example joint_accepts_a_cut_block :
  exists out fb log, joint_run 3 3 (Fin 5) (Fin 0) 2 true (fun s => s) demo_joint_model
    (with_input_ids demo_batch [3; 3]) [] = Ok (out, [[2; 2]], fb, log).
Proof. do 3 eexists. vm_compute. reflexivity. Qed.
