(* ===== verification/DllmStops.v ===== *)
(** * Stop strings and diffusion blocks

    The diffusion scheduler adds a block of tokens to a request and then checks
    once whether it has finished; the check looks for stop strings in the last
    tokens only.  A block in which a stop string is missed. *)

From S2P Require Import Prelude Allocator DllmReq StopStrings SamplingParams MemCommon DllmScheduler DllmService DllmExamples.
Import Stops Sampling.
#[local] Open Scope Z_scope.

(** A server with blocks of this size, whose tokenizer has a token for the word
    END. *)
Definition stop_se (block : Z) : @settings unit :=
  Settings (DllmConfig "LowConfidence" block 9 2 2 false false) 4096 8 1000 None 1 false (fun _ q => q)
    (fun _ _ => ([], None)) word_check (fun _ => false).

(** The blocks of a request, until it has finished. *)
Fixpoint take_blocks (block : Z) (bs : list (list Z)) (r : req) (m : mem unit) : res req :=
  match bs with
  | [] => Ok r
  | toks :: bs =>
      if finished r then Ok r else
      '(r, m) ← process_one (stop_se block) toks no_lps 0 r m;
      take_blocks block bs r m
  end.

(** What came out, as text, and why it ended. *)
Definition ended (block : Z) (bs : list (list Z)) : res (text * option finish_reason) :=
  r ← take_blocks block bs (word_req []) (smem (demo_init 30));
  Ok (word_decode (output_ids (out r)), finished_reason (out r)).

(** The same tokens finish the request with the stop string END when they come
    one or two at a time, and do not when they come in blocks of four. *)
Example block_size_decides :
  ended 1 [[300]; [65]; [66]; [67]; [68]; [69]; [70]; [71]] = Ok (text_of "END", Some (FINISH_MATCHED_STR word)) /\
  ended 2 [[300; 65]; [66; 67]; [68; 69]; [70; 71]] = Ok (text_of "ENDA", Some (FINISH_MATCHED_STR word)) /\
  ended 4 [[300; 65; 66; 67]; [68; 69; 70; 71]] = Ok (text_of "ENDABCDEFG", None).
Proof. split; [|split]; vm_compute; reflexivity. Qed.

(** ** Any block *)

Section missed.
Context {T : Type} `{!PrefixCache T} (se : @settings T).
Context (decode : list Z -> text) (search : text -> text -> bool) (decoded_text : text) (st : stops).
Hypothesis checks : str_finish se = check_str_based_finish decode search decoded_text st.

(** The tokens of a check that found nothing. *)
Lemma find_none (P : Z -> bool) (l : list Z) : Forall (fun t => P t = false) l -> list_find (fun t => P t = true) l = None.
Proof.
  intros HF. apply list_find_None. eapply Forall_impl; [exact HF|]. intros t Ht Ht'. cbn in Ht, Ht'. congruence.
Qed.

(** C17: a stop string inside a block is missed.  The check after a block looks
    at the last [max_len_tail_str] tokens only.  When a request takes a whole
    block [a ++ w] whose last tokens [w] fill that window and show no stop
    string, and nothing else ends the request (its limit, a stop token, a token
    out of the vocabulary, a grammar), it goes on, although its output contains
    a stop string whose tokens are in [a]. *)
Theorem block_stop_string_missed (r : req) (m : mem T) lps idx a w stop :
  finished r = false -> to_finish (out r) = None -> return_logprob (info r) = false ->
  (forall r, grammar_terminated se r = false) ->
  len (output_ids (out r) ++ a ++ w) < DllmReq.max_new_tokens (sampling (info r)) ->
  Forall (fun t => is_stop_token r t = false /\ out_of_vocab r t = false) (a ++ w) ->
  len (a ++ w) = block_size (cfg se) -> 0 < len w -> len w = max_len_tail_str st -> Stops.stop_regex_strs st = [] ->
  Forall (fun x => contains x (decode w) = false /\ contains x decoded_text = false) (Stops.stop_strs st) ->
  stop ∈ Stops.stop_strs st -> contains stop (decode (output_ids (out r) ++ a ++ w)) = true ->
  exists r', process_one se (a ++ w) lps idx r m = Ok (r', m) /\ finished r' = false /\
    output_ids (out r') = output_ids (out r) ++ a ++ w /\ contains stop (decode (output_ids (out r'))) = true.
Proof.
  intros Hfin Hto Hlp Hg Hlim HF Hbs Hw0 Hw Hre Hno Hstop Hc. pose proof (len_nonneg a) as Ha.
  rewrite len_app in Hbs. unfold process_one. cbn zeta. rewrite !len_app.
  rewrite (proj2 (Z.eqb_neq _ _)), (proj2 (Z.ltb_ge _ _)) by lia.
  set (r1 := extend_output (a ++ w) _).
  assert (Hex : extend_logprobs lps idx (a ++ w) r1 = Ok r1).
  { unfold extend_logprobs. destruct (next_token_logprobs lps); [|done]. change (info r1) with (info r). by rewrite Hlp. }
  rewrite Hex. step_ok.
  assert (Ho : output_ids (out r1) = (output_ids (out r) ++ a) ++ w) by (cbn; by rewrite <- app_assoc).
  assert (Hf1 : finished r1 = false) by exact Hfin.
  assert (Hnew : slice_from (output_ids (out r1)) (- (len a + len w)) = a ++ w).
  { unfold r1. cbn [extend_output set_out out output_ids set_fill_ids set_inp]. unfold slice_from, clamp.
    rewrite (proj2 (Z.ltb_lt _ _)) by lia. replace (Z.to_nat _) with (length (output_ids (out r))); [apply drop_app_length|].
    rewrite !len_app. unfold len in *. lia. }
  assert (Hchk : check_finished (str_finish se) (grammar_terminated se) (len a + len w) r1 = r1).
  { unfold check_finished. rewrite Hf1. change (to_finish (out r1)) with (to_finish (out r)).
    rewrite Hto, (proj2 (Z.leb_gt _ _)), Hg, Hnew by exact Hlim. unfold check_token_based_finish, check_vocab_boundary_finish.
    rewrite !find_none by (eapply Forall_impl; [exact HF|]; intros t [? ?]; done). rewrite checks.
    rewrite (not_seen_in_window decode search decoded_text st r1 _ w Ho) by (done || lia). by destruct (DllmReq.ignore_eos _). }
  rewrite Hchk. assert (Hrd : round_finished_len se r1 = r1).
  { unfold round_finished_len. rewrite Hf1. by destruct (finished_len (out r1)). }
  rewrite Hrd, Hf1. exists r1. split; [done|]. split; [exact Hfin|]. split; [done|exact Hc].
Qed.
End missed.

(** A block of four whose first token is the stop string. *)
Lemma block_stop_string_missed_witness :
  exists r', process_one (stop_se 4) [300; 65; 66; 67] no_lps 0 (word_req []) (smem (demo_init 30)) = Ok (r', smem (demo_init 30)) /\
    finished r' = false /\ contains word (word_decode (output_ids (out r'))) = true.
Proof.
  destruct (block_stop_string_missed (stop_se 4) word_decode (fun _ _ => false) [] word_stops eq_refl
    (word_req []) (smem (demo_init 30)) no_lps 0 [300; 65] [66; 67] word) as (r' & H1 & H2 & _ & H4);
    [reflexivity|reflexivity|reflexivity|reflexivity|reflexivity| |reflexivity|reflexivity|reflexivity|reflexivity| | |reflexivity|].
  - repeat constructor.
  - repeat constructor.
  - by left.
  - by exists r'.
Defined.
