(* ===== verification/RadixKey.v ===== *)
(** * Radix keys

    [RadixKey] of [mem_cache/radix_cache.py]: a token sequence, read either
    token by token or as overlapping pairs (the bigram view of EAGLE), in a
    namespace [extra_key].  The view keeps the raw tokens and slices them with
    one token of overlap; the file shows that every operation is the plain list
    operation on the logical units the key iterates over. *)

From S2P Require Import Prelude.

Record radix_key := RadixKey {
  token_ids : list Z;
  extra_key : option string;
  is_bigram : bool;
}.

(** ** Operations *)

(** [__len__] *)
Definition key_len (k : radix_key) : nat :=
  if is_bigram k then (length (token_ids k) - 1)%nat else length (token_ids k).

(** [__iter__]: the logical units, a token as [[t]] and a bigram as [[t; u]] *)
Definition key_iter (k : radix_key) : list (list Z) :=
  let t := token_ids k in
  if is_bigram k then zip_with (fun a b => [a; b]) t (tail t) else (fun a => [a]) <$> t.

(** One bound of [slice.indices(n)], [dflt] when it is left out. *)
Definition slice_index (n dflt : nat) (i : option Z) : nat :=
  match i with
  | None => dflt
  | Some i => if i <? 0 then Z.to_nat (i + Z.of_nat n) else Nat.min (Z.to_nat i) n
  end.

(** [self[start:stop]] *)
Definition getitem (k : radix_key) (start stop : option Z) : radix_key :=
  let n := key_len k in
  let a := slice_index n 0 start in
  let b := slice_index n n stop in
  if is_bigram k then
    RadixKey (if (a <? b)%nat then take (S b - a) (drop a (token_ids k)) else []) (extra_key k) true
  else RadixKey (take (b - a) (drop a (token_ids k))) (extra_key k) false.

(** [self[idx]] *)
Definition getitem_int (k : radix_key) (idx : Z) : res radix_key :=
  let n := Z.of_nat (key_len k) in
  let idx := if idx <? 0 then idx + n else idx in
  if (idx <? 0) || (n <=? idx) then Raise IndexError
  else Ok (getitem k (Some idx) (Some (idx + 1))).

Definition key_to (k : radix_key) (n : nat) : radix_key := getitem k None (Some (Z.of_nat n)).
Definition key_from (k : radix_key) (n : nat) : radix_key := getitem k (Some (Z.of_nat n)) None.

Definition page_aligned (page_size : nat) (k : radix_key) : radix_key :=
  if (page_size =? 1)%nat then k else key_to k (key_len k / page_size * page_size).

(** The flag flips; a value paired with the raw tokens is cut to the units. *)
Definition maybe_to_bigram_view (is_eagle : bool) (k : radix_key) (value : option (list Z))
    : radix_key * option (list Z) :=
  if is_eagle && negb (is_bigram k) then
    let k := RadixKey (token_ids k) (extra_key k) true in
    (k, take (key_len k) <$> value)
  else (k, value).

(** The [for a, b in zip(t0, t1)] loop of [match]. *)
Fixpoint common (t0 t1 : list Z) : nat :=
  match t0, t1 with
  | a :: t0, b :: t1 => if a =? b then S (common t0 t1) else 0%nat
  | _, _ => 0%nat
  end.

(** [while i < min_len], comparing a page at a time; [fuel] bounds the pages. *)
Fixpoint page_loop (fuel page_size min_len i : nat) (t0 t1 : list Z) : nat :=
  match fuel with
  | O => i
  | S fuel =>
      if (i <? min_len)%nat then
        if bool_decide (take page_size (drop i t0) = take page_size (drop i t1))
        then page_loop fuel page_size min_len (i + page_size) t0 t1 else i
      else i
  end.

Definition key_match (k other : radix_key) (page_size : nat) : res nat :=
  if negb (bool_decide (extra_key k = extra_key other)) then Raise ValueError else
  let t0 := token_ids k in
  let t1 := token_ids other in
  if is_bigram k then
    let i := common t0 t1 in
    let matched := Nat.min (i - 1) (Nat.min (key_len k) (key_len other)) in
    Ok (if (1 <? page_size)%nat then matched / page_size * page_size else matched)%nat
  else if (page_size =? 1)%nat then Ok (common t0 t1)
  else
    let min_len := Nat.min (key_len k) (key_len other) in
    Ok (page_loop min_len page_size min_len 0 t0 t1).

(** The key of a child in its parent's dict: the first page of units under the
    namespace. *)
Notation ckey := (option string * list (list Z))%type.

Definition child_key (k : radix_key) (page_size : nat) : res ckey :=
  let t := token_ids k in
  if is_bigram k then
    if (length t <? S page_size)%nat then Raise IndexError
    else Ok (extra_key k, take page_size (key_iter k))
  else if (page_size =? 1)%nat then
    match t with
    | [] => Raise IndexError
    | a :: _ => Ok (extra_key k, [[a]])
    end
  else Ok (extra_key k, (fun a => [a]) <$> take page_size t).

(** ** The logical view *)

(** Longest common prefix of two lists of units. *)
Fixpoint lcp (l k : list (list Z)) : nat :=
  match l, k with
  | a :: l, b :: k => if bool_decide (a = b) then S (lcp l k) else 0%nat
  | _, _ => 0%nat
  end.

Lemma length_key_iter k : length (key_iter k) = key_len k.
Proof.
  unfold key_iter, key_len. destruct (is_bigram k); [|by rewrite length_fmap].
  rewrite length_zip_with. destruct (token_ids k); cbn [length tail]; lia.
Qed.

Lemma pairs_drop (t : list Z) a :
  zip_with (fun x y => [x; y]) (drop a t) (tail (drop a t)) =
  drop a (zip_with (fun x y => [x; y]) t (tail t)).
Proof.
  revert t. induction a as [|a IH]; intros t; [done|]. destruct t as [|x t]; [done|]. cbn [drop tail].
  rewrite IH. destruct t as [|y t]; cbn; [by rewrite drop_nil|done].
Qed.

Lemma pairs_take (t : list Z) n :
  zip_with (fun x y => [x; y]) (take (S n) t) (tail (take (S n) t)) =
  take n (zip_with (fun x y => [x; y]) t (tail t)).
Proof.
  revert t. induction n as [|n IH]; intros t; [destruct t as [|x [|]]; done|].
  destruct t as [|x [|y t]]; [done|done|]. specialize (IH (y :: t)). cbn in *. by rewrite IH.
Qed.

(** Slicing the view slices the units. *)
Lemma key_iter_getitem k start stop :
  let a := slice_index (key_len k) 0 start in
  let b := slice_index (key_len k) (key_len k) stop in
  key_iter (getitem k start stop) = take (b - a) (drop a (key_iter k)).
Proof.
  cbv zeta. set (a := slice_index _ 0 _). set (b := slice_index _ _ stop). unfold key_iter, getitem.
  fold a b. destruct (is_bigram k) eqn:Hb; cbn [is_bigram token_ids].
  - case_match eqn:Hab; [apply Nat.ltb_lt in Hab|apply Nat.ltb_ge in Hab].
    + replace (S b - a)%nat with (S (b - a)) by lia. by rewrite pairs_take, pairs_drop.
    + replace (b - a)%nat with 0%nat by lia. done.
  - by rewrite fmap_take, fmap_drop.
Qed.

Lemma key_iter_to k n : (n <= key_len k)%nat -> key_iter (key_to k n) = take n (key_iter k).
Proof.
  intros Hn. unfold key_to. rewrite key_iter_getitem. cbn [slice_index].
  destruct (Z.ltb_spec (Z.of_nat n) 0); [lia|]. rewrite drop_0. f_equal. lia.
Qed.

Lemma key_iter_from k n : (n <= key_len k)%nat -> key_iter (key_from k n) = drop n (key_iter k).
Proof.
  intros Hn. unfold key_from. rewrite key_iter_getitem. cbn [slice_index].
  destruct (Z.ltb_spec (Z.of_nat n) 0); [lia|]. rewrite take_ge; [f_equal; lia|].
  rewrite length_drop, length_key_iter. lia.
Qed.

Lemma key_fields k start stop :
  extra_key (getitem k start stop) = extra_key k /\ is_bigram (getitem k start stop) = is_bigram k.
Proof. unfold getitem. by destruct (is_bigram k). Qed.

Lemma key_from_fields k n :
  extra_key (key_from k n) = extra_key k /\ is_bigram (key_from k n) = is_bigram k.
Proof. apply key_fields. Qed.

Lemma key_len_to k n : (n <= key_len k)%nat -> key_len (key_to k n) = n.
Proof. intros Hn. rewrite <- length_key_iter, key_iter_to, length_take, length_key_iter by done. lia. Qed.

Lemma key_len_from k n : (n <= key_len k)%nat -> key_len (key_from k n) = (key_len k - n)%nat.
Proof. intros Hn. rewrite <- length_key_iter, key_iter_from, length_drop, length_key_iter by done. lia. Qed.

(** *** Common prefixes *)

Lemma lcp_le l k : (lcp l k <= length l /\ lcp l k <= length k)%nat.
Proof.
  revert k. induction l as [|a l IH]; intros [|b k]; cbn; [lia..|]. case_bool_decide; [|lia].
  specialize (IH k). lia.
Qed.

Lemma lcp_prefix l k : take (lcp l k) l = take (lcp l k) k.
Proof.
  revert k. induction l as [|a l IH]; intros [|b k]; cbn; [done..|]. case_bool_decide as Hab; [|done].
  cbn. by rewrite Hab, IH.
Qed.

Lemma lcp_max l k n : (n <= length l)%nat -> take n l = take n k -> (n <= length k)%nat -> (n <= lcp l k)%nat.
Proof.
  revert k n. induction l as [|a l IH]; intros [|b k] [|n]; cbn; try lia. intros Hl [= -> Ht] Hk.
  rewrite bool_decide_true by done. specialize (IH k n). assert (n <= lcp l k)%nat; [|lia].
  apply IH; [lia|done|lia].
Qed.

Lemma lcp_tokens t0 t1 : lcp ((fun a => [a]) <$> t0) ((fun a => [a]) <$> t1) = common t0 t1.
Proof.
  revert t1. induction t0 as [|a t0 IH]; intros [|b t1]; cbn; try done. destruct (Z.eqb_spec a b) as [->|Hne].
  - rewrite bool_decide_true by done. f_equal. apply IH.
  - rewrite bool_decide_false; [done|]. congruence.
Qed.

Lemma lcp_pairs t0 t1 :
  lcp (zip_with (fun x y => [x; y]) t0 (tail t0)) (zip_with (fun x y => [x; y]) t1 (tail t1)) =
  (common t0 t1 - 1)%nat.
Proof.
  revert t1. induction t0 as [|a t0 IH]; intros [|b t1]; [done..| |].
  - cbn. by destruct t0.
  - destruct t0 as [|a' t0], t1 as [|b' t1]; cbn.
    + by destruct (a =? b).
    + by destruct (a =? b).
    + by destruct (a =? b).
    + specialize (IH (b' :: t1)). cbn in IH. rewrite IH. destruct (Z.eqb_spec a b) as [->|Hne].
      * destruct (Z.eqb_spec b' a') as [->|Hne']; [destruct (Z.eqb_spec a' a'); [|done]|].
        -- rewrite bool_decide_true by done. cbn. lia.
        -- destruct (Z.eqb_spec a' b'); [congruence|]. rewrite bool_decide_false by congruence. done.
      * rewrite bool_decide_false by congruence. done.
Qed.

Lemma page_loop_spec fuel ps m i t0 t1 :
  (0 < ps)%nat -> (m <= length t0)%nat -> (m <= length t1)%nat ->
  (i <= m)%nat -> (Nat.divide ps (m - i)) -> (m - i <= fuel)%nat -> take i t0 = take i t1 ->
  let r := page_loop fuel ps m i t0 t1 in
  (i <= r <= m)%nat /\ Nat.divide ps (r - i) /\ take r t0 = take r t1 /\
  ((r < m)%nat -> take (r + ps) t0 <> take (r + ps) t1).
Proof.
  intros Hps H0 H1. revert i. induction fuel as [|fuel IH]; intros i Hi Hd Hf Ht; cbn [page_loop]; cbv zeta.
  - replace (i - i)%nat with 0%nat by lia. split; [lia|]. split; [by exists 0%nat|]. split; [done|lia].
  - destruct (Nat.ltb_spec i m) as [Hlt|Hge].
    2:{ replace (i - i)%nat with 0%nat by lia. split; [lia|]. split; [by exists 0%nat|]. split; [done|lia]. }
    destruct Hd as [q Hq]. assert (1 <= q)%nat by (destruct q; lia).
    assert (Hjoin : forall t : list Z, take (i + ps) t = take i t ++ take ps (drop i t)).
    { intros t. symmetry. apply take_take_drop. }
    case_bool_decide as Heq.
    + destruct (IH (i + ps)%nat) as (Hr & [d Hd] & Htr & Hmax).
      * nia.
      * exists (q - 1)%nat. nia.
      * lia.
      * by rewrite !Hjoin, Ht, Heq.
      * split; [lia|]. split; [exists (S d); lia|]. done.
    + replace (i - i)%nat with 0%nat by lia. split; [lia|]. split; [by exists 0%nat|]. split; [done|].
      intros _. rewrite !Hjoin, Ht. intros ?%app_inv_head. done.
Qed.

Lemma mult_floor n ps r : (0 < ps)%nat -> Nat.divide ps r -> (r <= n)%nat -> (n < r + ps)%nat -> (n / ps * ps = r)%nat.
Proof.
  intros Hp [q ->] H1 H2. assert (n / ps = q)%nat as ->; [|done].
  symmetry. apply (Nat.div_unique n ps q (n - q * ps)); lia.
Qed.

(** [match] counts the whole pages two compatible keys share. *)
Lemma key_match_spec k o ps :
  (0 < ps)%nat -> extra_key k = extra_key o -> is_bigram k = is_bigram o ->
  Nat.divide ps (key_len k) -> Nat.divide ps (key_len o) ->
  key_match k o ps = Ok (lcp (key_iter k) (key_iter o) / ps * ps)%nat.
Proof.
  intros Hps He Hb Hk Ho. unfold key_match. rewrite bool_decide_true by done. cbn [negb].
  pose proof (lcp_le (key_iter k) (key_iter o)) as [Hl1 Hl2]. rewrite !length_key_iter in Hl1, Hl2.
  pose proof (lcp_prefix (key_iter k) (key_iter o)) as Hpre.
  pose proof (lcp_max (key_iter k) (key_iter o)) as Hmax. rewrite !length_key_iter in Hmax.
  revert Hl1 Hl2 Hpre Hmax Hk Ho. unfold key_iter, key_len. rewrite <- Hb.
  destruct (is_bigram k); intros Hl1 Hl2 Hpre Hmax Hk Ho.
  - rewrite lcp_pairs in *. f_equal.
    rewrite Nat.min_l by lia. destruct (Nat.ltb_spec 1 ps); [done|]. replace ps with 1%nat by lia.
    rewrite Nat.div_1_r. lia.
  - rewrite lcp_tokens in *. destruct (Nat.eqb_spec ps 1) as [->|Hne].
    { f_equal. rewrite Nat.div_1_r. lia. }
    f_equal. symmetry. set (m := Nat.min _ _).
    assert (Hdm : Nat.divide ps (m - 0)).
    { rewrite Nat.sub_0_r. unfold m. destruct (Nat.min_dec (length (token_ids k)) (length (token_ids o))) as [->| ->]; done. }
    destruct (page_loop_spec m ps m 0 (token_ids k) (token_ids o)) as (Hr & Hd & Ht & Hstop);
      [done|lia..|done|lia|done|].
    set (r := page_loop _ _ _ _ _ _) in *. rewrite Nat.sub_0_r in Hd.
    assert (Hinj : forall n, take n ((fun a => [a]) <$> token_ids k) = take n ((fun a => [a]) <$> token_ids o) <->
                             take n (token_ids k) = take n (token_ids o)).
    { intros n. rewrite <- !fmap_take. split; [|by intros ->]. apply (inj (fmap (fun a : Z => [a]))). }
    apply mult_floor; [done|done|..].
    + apply Hmax; [lia|by apply Hinj|lia].
    + destruct (decide (r < m)%nat) as [Hlt|Hge]; [|lia].
      destruct (decide (common (token_ids k) (token_ids o) < r + ps)%nat); [done|].
      exfalso. apply (Hstop Hlt). apply Hinj in Hpre.
      apply (f_equal (take (r + ps))) in Hpre. rewrite !take_take in Hpre.
      by rewrite Nat.min_l in Hpre by lia.
Qed.

Lemma child_key_spec k ps :
  (0 < ps)%nat -> (ps <= key_len k)%nat -> child_key k ps = Ok (extra_key k, take ps (key_iter k)).
Proof.
  intros Hps Hl. unfold child_key, key_len, key_iter in *. destruct (is_bigram k).
  - destruct (Nat.ltb_spec (length (token_ids k)) (S ps)); [lia|done].
  - destruct (Nat.eqb_spec ps 1) as [->|Hne]; [|by rewrite fmap_take].
    destruct (token_ids k); [cbn in *; lia|done].
Qed.

Lemma page_aligned_spec k ps :
  (0 < ps)%nat ->
  key_iter (page_aligned ps k) = take (key_len k / ps * ps) (key_iter k) /\
  extra_key (page_aligned ps k) = extra_key k /\ is_bigram (page_aligned ps k) = is_bigram k /\
  Nat.divide ps (key_len (page_aligned ps k)).
Proof.
  intros Hps. pose proof (Nat.Div0.mul_div_le (key_len k) ps) as Hle. unfold page_aligned.
  destruct (Nat.eqb_spec ps 1) as [->|Hne].
  - rewrite Nat.div_1_r, Nat.mul_1_r, take_ge by (by rewrite length_key_iter).
    do 3 (split; [done|]). exists (key_len k). lia.
  - rewrite key_iter_to by lia. split; [done|]. split; [apply key_fields|]. split; [apply key_fields|].
    rewrite key_len_to by lia. by exists (key_len k / ps)%nat.
Qed.

(** A radix key behaves as the list of its logical units, tokens or
    overlapping bigrams, although it stores raw tokens: its length, slices and
    page alignment are those of that list; two page-aligned keys of one
    namespace and view match exactly on the whole pages their units share; and
    the dict key of a child is the namespace with the first page of units. *)
Theorem radix_key_view (k o : radix_key) (ps start stop : nat) :
  (0 < ps)%nat ->
  length (key_iter k) = key_len k /\
  key_iter (getitem k (Some (Z.of_nat start)) (Some (Z.of_nat stop))) = take (stop - start) (drop start (key_iter k)) /\
  key_iter (page_aligned ps k) = take (key_len k / ps * ps) (key_iter k) /\
  (extra_key k = extra_key o -> is_bigram k = is_bigram o ->
   Nat.divide ps (key_len k) -> Nat.divide ps (key_len o) ->
   key_match k o ps = Ok (lcp (key_iter k) (key_iter o) / ps * ps)%nat) /\
  (extra_key k <> extra_key o -> key_match k o ps = Raise ValueError) /\
  ((ps <= key_len k)%nat -> child_key k ps = Ok (extra_key k, take ps (key_iter k))).
Proof.
  intros Hps. split; [apply length_key_iter|]. split.
  - rewrite key_iter_getitem. cbn [slice_index].
    destruct (Z.ltb_spec (Z.of_nat start) 0), (Z.ltb_spec (Z.of_nat stop) 0); try lia.
    rewrite !Nat2Z.id, <- length_key_iter.
    destruct (decide (start <= length (key_iter k))%nat) as [Hs|Hs].
    + rewrite (Nat.min_l start) by done. destruct (decide (stop <= length (key_iter k))%nat).
      * by rewrite Nat.min_l by done.
      * rewrite Nat.min_r, !take_ge by (rewrite ?length_drop; lia). done.
    + rewrite (drop_ge _ start), take_nil by lia. rewrite (Nat.min_r start), drop_ge, take_nil by lia. done.
  - split; [by apply page_aligned_spec|]. split; [by apply key_match_spec|].
    split; [|by apply child_key_spec]. intros Hne. unfold key_match. by rewrite bool_decide_false.
Qed.

Lemma radix_key_view_witness :
  let k := RadixKey [1; 2; 3; 4; 5] None true in
  let o := RadixKey [1; 2; 3; 9; 5] None true in
  key_match k o 2 = Ok 2%nat /\ child_key k 2 = Ok (None, [[1; 2]; [2; 3]]) /\
  key_iter (getitem k (Some 1) (Some 3)) = [[2; 3]; [3; 4]].
Proof.
  pose proof (radix_key_view (RadixKey [1; 2; 3; 4; 5] None true) (RadixKey [1; 2; 3; 9; 5] None true)
    2 1 3 ltac:(lia)) as (_ & Hs & _ & Hm & _ & Hc).
  cbv zeta. rewrite Hm; [|done|done|by exists 2%nat|by exists 2%nat]. rewrite Hc by (cbn; lia).
  split; [reflexivity|]. split; [reflexivity|exact Hs].
Defined.
