(* ===== verification/RadixCache.v ===== *)
(** * The radix cache

    [RadixCache] of [mem_cache/radix_cache.py] and the eviction strategies of
    [mem_cache/evict_policy.py]: a tree of nodes with identity, linked both
    ways, held in a store; requests keep references to nodes and lock the path
    above them.  Hierarchical (host) storage and the KV event queue, which is
    off by default, are not modelled, so a node of the tree always has a value
    ([evicted] is false); a node leaves the store when the tree drops it. *)

From S2P Require Import Prelude Allocator DllmReq MemCommon RadixKey.

Module Radix.

(** ** Nodes and the tree *)

Record tree_node := TreeNode {
  children : gmap ckey nat;
  parent : option nat;
  key : radix_key;
  value : list Z;
  lock_ref : Z;
  last_access_time : Z;
  creation_time : Z;
  hit_count : Z;
  priority : Z;
}.

Record radix := RadixTree {
  nodes : gmap nat tree_node;
  root_node : nat;
  counter : nat;                    (* TreeNode.counter *)
  evictable_size_ : Z;
  protected_size_ : Z;
  evictable_leaves : gset nat;
  clock : nat;                      (* readings of time.monotonic() so far *)
}.

#[global] Instance tree_node_inhabited : Inhabited tree_node :=
  populate (TreeNode ∅ None (RadixKey [] None false) [] 0 0 0 0 0).

Definition set_nodes (st : radix) (m : gmap nat tree_node) : radix :=
  RadixTree m (root_node st) (counter st) (evictable_size_ st) (protected_size_ st)
    (evictable_leaves st) (clock st).
Definition set_sizes (st : radix) (e p : Z) : radix :=
  RadixTree (nodes st) (root_node st) (counter st) e p (evictable_leaves st) (clock st).
Definition set_leaves (st : radix) (l : gset nat) : radix :=
  RadixTree (nodes st) (root_node st) (counter st) (evictable_size_ st) (protected_size_ st) l (clock st).
Definition set_clock (st : radix) (c : nat) : radix :=
  RadixTree (nodes st) (root_node st) (counter st) (evictable_size_ st) (protected_size_ st)
    (evictable_leaves st) c.
Definition set_counter (st : radix) (c : nat) : radix :=
  RadixTree (nodes st) (root_node st) c (evictable_size_ st) (protected_size_ st)
    (evictable_leaves st) (clock st).

Definition set_children (nd : tree_node) (c : gmap ckey nat) : tree_node :=
  TreeNode c (parent nd) (key nd) (value nd) (lock_ref nd) (last_access_time nd)
    (creation_time nd) (hit_count nd) (priority nd).
Definition set_lock (nd : tree_node) (n : Z) : tree_node :=
  TreeNode (children nd) (parent nd) (key nd) (value nd) n (last_access_time nd)
    (creation_time nd) (hit_count nd) (priority nd).
(** The bookkeeping fields: access time, hit count and priority. *)
Definition set_stats (nd : tree_node) (access hits prio : Z) : tree_node :=
  TreeNode (children nd) (parent nd) (key nd) (value nd) (lock_ref nd) access
    (creation_time nd) hits prio.

(** Dereferencing a node a caller holds. *)
Definition deref (st : radix) (n : nat) : res tree_node := of_option AttributeError (nodes st !! n).

(** ** Eviction strategies *)

Inductive strategy := LRU | LFU | FIFO | MRU | FILO | Priority | SLRU (protected_threshold : Z).

(** The sort key of a node, a float as a one-element tuple. *)
Definition get_priority (s : strategy) (nd : tree_node) : list Z :=
  match s with
  | LRU => [last_access_time nd]
  | LFU => [hit_count nd; last_access_time nd]
  | FIFO => [creation_time nd]
  | MRU => [- last_access_time nd]
  | FILO => [- creation_time nd]
  | Priority => [priority nd; last_access_time nd]
  | SLRU t => [if t <=? hit_count nd then 1 else 0; last_access_time nd]
  end.

(** The policy names [RadixCache.__init__] accepts, after [lower()]. *)
Definition strategy_of (policy : string) : res strategy :=
  if String.eqb policy "lru" then Ok LRU
  else if String.eqb policy "lfu" then Ok LFU
  else if String.eqb policy "fifo" then Ok FIFO
  else if String.eqb policy "mru" then Ok MRU
  else if String.eqb policy "filo" then Ok FILO
  else if String.eqb policy "priority" then Ok Priority
  else if String.eqb policy "slru" then Ok (SLRU 2)
  else Raise ValueError.

(** An entry of the eviction heap: the priority, and the node with the access
    time its [__lt__] compares. *)
Record heap_item := HeapItem { hi_priority : list Z; hi_access : Z; hi_node : nat }.

(** Tuple comparison [<]. *)
Fixpoint tuple_lt (a b : list Z) : bool :=
  match a, b with
  | [], _ :: _ => true
  | x :: a, y :: b => (x <? y) || ((x =? y) && tuple_lt a b)
  | _, _ => false
  end.

Definition item_lt (a b : heap_item) : bool :=
  if bool_decide (hi_priority a = hi_priority b) then hi_access a <? hi_access b
  else tuple_lt (hi_priority a) (hi_priority b).

(** [heapq], by what it documents: [heappop] removes an entry no other is
    smaller than.  Which one, among equals, depends on the layout of the heap
    and on the iteration order of the set it was built from. *)
Class HeapQ := {
  heappop : list heap_item -> option (heap_item * list heap_item);
  heappop_none l : heappop l = None -> l = [];
  heappop_perm l x l' : heappop l = Some (x, l') -> l ≡ₚ x :: l';
  heappop_min l x l' y : heappop l = Some (x, l') -> y ∈ l -> item_lt y x = false;
}.

Section cache.
Context `{!HeapQ}.
(** Successive readings of [time.monotonic()], and the allocator's [free]. *)
Context (time : nat -> Z) (allocator_free : list Z -> allocator -> allocator).
Context (disable : bool) (page_size : nat) (is_eagle disable_finished_insert : bool)
  (eviction_strategy : strategy).

(** [reset], [smallest] being the root's priority [-sys.maxsize]; [id] the
    value of the node counter. *)
Definition smallest : Z := -9223372036854775807.

Definition reset (id clk : nat) : radix :=
  RadixTree {[id := TreeNode ∅ None (RadixKey [] None false) [] 1 (time clk) (time (S clk)) 0 smallest]}
    id (S id) 0 0 ∅ (S (S clk)).

(** ** Internal helpers *)

Definition update_leaf_status (n : nat) (st : radix) : radix :=
  let nd := nodes st !!! n in
  if 0 <? lock_ref nd then set_leaves st (evictable_leaves st ∖ {[n]})
  else if bool_decide (children nd = ∅) then set_leaves st ({[n]} ∪ evictable_leaves st)
  else set_leaves st (evictable_leaves st ∖ {[n]}).

(** [_split_node]: a new node takes the first [split_len] units of [child],
    which keeps its identity and the rest. *)
Definition split_node (k : radix_key) (child split_len : nat) (st : radix) : res (nat * radix) :=
  c ← deref st child;
  below ← child_key (key_from k split_len) page_size;
  p ← of_option AttributeError (parent c);
  above ← child_key k page_size;
  let new := counter st in
  let new_node :=
    TreeNode {[below := child]} (Some p) (key_to (key c) split_len) (take split_len (value c))
      (lock_ref c) (time (clock st)) (time (S (clock st))) (hit_count c) (priority c) in
  let child_node :=
    TreeNode (children c) (Some new) (key_from (key c) split_len) (drop split_len (value c))
      (lock_ref c) (last_access_time c) (creation_time c) (hit_count c) (priority c) in
  let m := <[child := child_node]> (<[new := new_node]> (nodes st)) in
  let m := alter (fun pd => set_children pd (<[above := new]> (children pd))) p m in
  Ok (new, set_clock (set_counter (set_nodes st m) (S new)) (S (S (clock st)))).

(** [child.last_access_time = access_time] *)
Definition touch (n : nat) (access : Z) (st : radix) : radix :=
  set_nodes st (alter (fun nd => set_stats nd access (hit_count nd) (priority nd)) n (nodes st)).

(** The loop of [_match_prefix_helper]; a turn consumes a unit of the key. *)
Fixpoint match_loop (fuel : nat) (node : nat) (k : radix_key) (acc : list Z) (access : Z) (st : radix)
    : res (list Z * nat * radix) :=
  match fuel with
  | O => Ok (acc, node, st)
  | S fuel =>
      if (key_len k =? 0)%nat then Ok (acc, node, st) else
      ck ← child_key k page_size;
      nd ← deref st node;
      match children nd !! ck with
      | None => Ok (acc, node, st)
      | Some child =>
          let st := touch child access st in
          c ← deref st child;
          prefix_len ← key_match (key c) k page_size;
          if (prefix_len <? key_len (key c))%nat then
            '(new, st) ← split_node (key c) child prefix_len st;
            Ok (acc ++ value (nodes st !!! new), new, st)
          else match_loop fuel child (key_from k prefix_len) (acc ++ value c) access st
      end
  end.

Definition match_prefix_helper (node : nat) (k : radix_key) (st : radix) : res (list Z * nat * radix) :=
  let access := time (clock st) in
  let st := touch node access (set_clock st (S (clock st))) in
  match_loop (key_len k) node k [] access st.

Definition match_prefix (k : radix_key) (st : radix) : res (list Z * nat * radix) :=
  let '(k, _) := maybe_to_bigram_view is_eagle k None in
  if disable || (key_len k =? 0)%nat then Ok ([], root_node st, st) else
  let k := page_aligned page_size k in
  if (key_len k =? 0)%nat then Ok ([], root_node st, st)
  else match_prefix_helper (root_node st) k st.

(** Raising a node's priority and counting the hit, unless the request is
    chunked. *)
Definition visit (n : nat) (prio : Z) (chunked : bool) (st : radix) : radix :=
  set_nodes st (alter (fun nd =>
    set_stats nd (last_access_time nd) (if chunked then hit_count nd else hit_count nd + 1)
      (Z.max (priority nd) prio)) n (nodes st)).

(** The loop of [_insert_helper]: where it stops, what is left of the key and
    the value, and the length matched. *)
Fixpoint insert_loop (fuel : nat) (node : nat) (k : radix_key) (v : list Z) (total : nat)
    (prio : Z) (chunked : bool) (access : Z) (st : radix)
    : res (nat * radix_key * list Z * nat * radix) :=
  match fuel with
  | O => Ok (node, k, v, total, st)
  | S fuel =>
      if (key_len k =? 0)%nat then Ok (node, k, v, total, st) else
      ck ← child_key k page_size;
      nd ← deref st node;
      match children nd !! ck with
      | None => Ok (node, k, v, total, st)
      | Some child =>
          let st := touch child access st in
          c ← deref st child;
          prefix_len ← key_match (key c) k page_size;
          let k := key_from k prefix_len in
          let v := drop prefix_len v in
          if (prefix_len <? key_len (key c))%nat then
            '(new, st) ← split_node (key c) child prefix_len st;
            insert_loop fuel new k v (total + prefix_len) prio chunked access (visit new prio chunked st)
          else
            insert_loop fuel child k v (total + prefix_len) prio chunked access
              (visit child prio chunked st)
      end
  end.

(** The new leaf [_insert_helper] ends with. *)
Definition add_leaf (node : nat) (k : radix_key) (v : list Z) (prio : Z) (chunked : bool) (st : radix)
    : res radix :=
  ck ← child_key k page_size;
  let new := counter st in
  let nd := TreeNode ∅ (Some node) k v 0 (time (clock st)) (time (S (clock st)))
              (if chunked then 0 else 1) prio in
  let m := alter (fun pd => set_children pd (<[ck := new]> (children pd))) node (<[new := nd]> (nodes st)) in
  let st := set_clock (set_counter (set_nodes st m) (S new)) (S (S (clock st))) in
  let st := set_sizes st (evictable_size_ st + Z.of_nat (key_len k)) (protected_size_ st) in
  Ok (update_leaf_status new (update_leaf_status node st)).

Definition insert_helper (node : nat) (k : radix_key) (v : list Z) (prio : option Z) (chunked : bool)
    (st : radix) : res (nat * radix) :=
  let prio := default 0 prio in
  let access := time (clock st) in
  let st := set_clock st (S (clock st)) in
  let st := set_nodes st (alter (fun nd =>
    set_stats nd access (hit_count nd) (Z.max (priority nd) prio)) node (nodes st)) in
  if (key_len k =? 0)%nat then Ok (0%nat, st) else
  '(node, k, v, total, st) ← insert_loop (key_len k) node k v 0 prio chunked access st;
  if (key_len k =? 0)%nat then Ok (total, st)
  else st ← add_leaf node k v prio chunked st; Ok (total, st).

Definition insert (k : radix_key) (v : option (list Z)) (prio : option Z) (chunked : bool) (st : radix)
    : res (nat * radix) :=
  if disable then Ok (0%nat, st) else
  let '(k, v) := maybe_to_bigram_view is_eagle k v in
  let k := page_aligned page_size k in
  let v := match v with
           | Some v => take (key_len k) v
           | None => take (key_len k) (token_ids k)
           end in
  insert_helper (root_node st) k v prio chunked st.

(** ** Locks

    [while node != self.root_node]; the path to the root is shorter than the
    number of nodes. *)
Fixpoint inc_loop (fuel node : nat) (delta : Z) (st : radix) : res (Z * radix) :=
  match fuel with
  | O => Ok (delta, st)
  | S fuel =>
      if (node =? root_node st)%nat then Ok (delta, st) else
      nd ← deref st node;
      let n := Z.of_nat (key_len (key nd)) in
      let '(delta, st) :=
        if lock_ref nd =? 0
        then (delta - n, set_sizes st (evictable_size_ st - n) (protected_size_ st + n))
        else (delta, st) in
      let st := set_nodes st (<[node := set_lock nd (lock_ref nd + 1)]> (nodes st)) in
      let st := update_leaf_status node st in
      p ← of_option AttributeError (parent nd);
      inc_loop fuel p delta st
  end.

Definition inc_lock_ref (node : nat) (st : radix) : res (Z * radix) :=
  if disable then Ok (0, st) else inc_loop (base.size (nodes st)) node 0 st.

Fixpoint dec_loop (fuel node : nat) (delta : Z) (st : radix) : res (Z * radix) :=
  match fuel with
  | O => Ok (delta, st)
  | S fuel =>
      if (node =? root_node st)%nat then Ok (delta, st) else
      nd ← deref st node;
      let n := Z.of_nat (key_len (key nd)) in
      let '(delta, st) :=
        if lock_ref nd =? 1
        then (delta + n, set_sizes st (evictable_size_ st + n) (protected_size_ st - n))
        else (delta, st) in
      let st := set_nodes st (<[node := set_lock nd (lock_ref nd - 1)]> (nodes st)) in
      let st := update_leaf_status node st in
      (* [if node.parent is None: assert node is self.root_node] *)
      p ← of_option AssertionError (parent nd);
      dec_loop fuel p delta st
  end.

Definition dec_lock_ref (node : nat) (st : radix) : res (Z * radix) :=
  if disable then Ok (0, st) else dec_loop (base.size (nodes st)) node 0 st.

(** ** Eviction *)

Definition delete_leaf (n : nat) (st : radix) : res radix :=
  nd ← deref st n;
  ck ← child_key (key nd) page_size;
  p ← of_option AttributeError (parent nd);
  pd ← deref st p;
  _ ← py_assert (bool_decide (children pd !! ck = Some n));
  let m := delete n (<[p := set_children pd (delete ck (children pd))]> (nodes st)) in
  let st := set_nodes st m in
  let st := set_sizes st (evictable_size_ st - Z.of_nat (key_len (key nd))) (protected_size_ st) in
  let st := set_leaves st (evictable_leaves st ∖ {[n]}) in
  Ok (update_leaf_status p st).

Definition item_of (st : radix) (n : nat) : heap_item :=
  let nd := nodes st !!! n in
  HeapItem (get_priority eviction_strategy nd) (last_access_time nd) n.

(** [while num_evicted < num_tokens and len(eviction_heap)] *)
Fixpoint evict_loop (fuel : nat) (num_tokens num_evicted : Z) (heap : list heap_item)
    (st : radix) (a : allocator) : res (Z * radix * allocator) :=
  match fuel with
  | O => Ok (num_evicted, st, a)
  | S fuel =>
      if negb (num_evicted <? num_tokens) then Ok (num_evicted, st, a) else
      match heappop heap with
      | None => Ok (num_evicted, st, a)
      | Some (x, heap) =>
          nd ← deref st (hi_node x);
          let a := allocator_free (value nd) a in
          st ← delete_leaf (hi_node x) st;
          p ← of_option AttributeError (parent nd);
          pd ← deref st p;
          let heap := if bool_decide (children pd = ∅) && (lock_ref pd =? 0)
                      then item_of st p :: heap else heap in
          evict_loop fuel num_tokens (num_evicted + len (value nd)) heap st a
      end
  end.

Definition evict (num_tokens : Z) (st : radix) (a : allocator) : res (Z * radix * allocator) :=
  if disable then Ok (0, st, a) else
  evict_loop (base.size (nodes st)) num_tokens 0 (item_of st <$> elements (evictable_leaves st)) st a.

(** ** Caching requests *)

(** A request with what the radix cache keeps on it. *)
Record cache_req := CacheReq {
  creq : req;
  creq_extra_key : option string;
  creq_priority : option Z;
  last_node : nat;
}.

(** [getattr(req, "priority", 0) or 0] *)
Definition priority_of (q : cache_req) : Z := default 0 (creq_priority q).

Definition set_protected_len (r : req) (n : Z) : req :=
  let k := kvs r in
  set_kvs r (ReqKV (req_pool_idx k) (kv_committed_len k) (kv_allocated_len k) (kv_committed_freed k)
    (kv_overallocated_freed k) n).

(** [row] is the request's row of the request table. *)
Definition cache_finished_req (is_insert strip : bool) (row : list Z) (q : cache_req) (st : radix)
    (a : allocator) : res (cache_req * radix * allocator) :=
  let is_insert := if disable_finished_insert then false else is_insert in
  '(kv_committed_len, r) ← pop_committed_kv_cache strip (creq q);
  let q := CacheReq r (creq_extra_key q) (creq_priority q) (last_node q) in
  if disable then Ok (q, st, allocator_free (slice_to row kv_committed_len) a) else
  let token_ids := slice_to (origin_input_ids (info r) ++ output_ids (out r)) kv_committed_len in
  let kv_indices := take (length token_ids) row in
  let radix_key := page_aligned page_size (RadixKey token_ids (creq_extra_key q) is_eagle) in
  let key_len := key_len radix_key in
  let values := take key_len kv_indices in
  '(st, a) ←
    (if is_insert : bool then
       '(new_prefix_len, st) ← insert radix_key (Some values) (Some (priority_of q)) false st;
       Ok (st, allocator_free (slice kv_indices (cache_protected_len (kvs r)) (Z.of_nat new_prefix_len)) a)
     else Ok (st, allocator_free (slice kv_indices (cache_protected_len (kvs r)) (Z.of_nat key_len)) a));
  let a := allocator_free (drop key_len kv_indices) a in
  '(_, st) ← dec_lock_ref (last_node q) st;
  Ok (q, st, a).

Definition cache_unfinished_req (chunked : bool) (row : list Z) (q : cache_req) (st : radix)
    (a : allocator) : res (cache_req * list Z * radix * allocator) :=
  if disable then Ok (q, row, st, a) else
  let r := creq q in
  let token_ids := fill_ids (inp r) in
  let kv_indices := take (length token_ids) row in
  let radix_key := page_aligned page_size (RadixKey token_ids (creq_extra_key q) is_eagle) in
  let values := take (key_len radix_key) kv_indices in
  '(new_prefix_len, st) ← insert radix_key (Some values) (Some (priority_of q)) chunked st;
  let protected := cache_protected_len (kvs r) in
  let a := allocator_free (slice kv_indices protected (Z.of_nat new_prefix_len)) a in
  '(new_indices, new_last_node, st) ← match_prefix radix_key st;
  _ ← py_assert (length new_indices =? key_len radix_key)%nat;
  row ← assign_slice (Z.to_nat protected) (length new_indices) (drop (Z.to_nat protected) new_indices) row;
  let r := set_protected_len r (len new_indices) in
  '(_, st) ← dec_lock_ref (last_node q) st;
  '(_, st) ← inc_lock_ref new_last_node st;
  let kv_indices := take (length token_ids) row in
  let r := set_prefix_indices r
    (if (length new_indices <? length kv_indices)%nat
     then new_indices ++ drop (length new_indices) kv_indices else new_indices) in
  Ok (CacheReq r (creq_extra_key q) (creq_priority q) new_last_node, row, st, a).
End cache.

End Radix.
