(* ===== verification/RadixCacheProofs.v ===== *)
(** * The radix cache is a trie of cached prefixes

    The invariant of the tree (links, sizes, evictable leaves, lock counts) and
    its preservation by every operation of [RadixCache.v]; what the tree means
    (for each namespace, a set of token prefixes with their KV slots) and what
    matching, inserting, locking and evicting do to that meaning. *)

From S2P Require Import Prelude Allocator DllmReq MemCommon RadixKey RadixCache.
Import Radix.

Lemma deref_ok st n nd : nodes st !! n = Some nd -> deref st n = Ok nd.
Proof. intros Hn. unfold deref. by rewrite Hn. Qed.

(** ** Sums and concatenations over a finite map *)

Definition msum {A} (f : A -> Z) (m : gmap nat A) : Z :=
  foldr Z.add 0 (f <$> (map_to_list m).*2).
Definition mcat {A B} (f : A -> list B) (m : gmap nat A) : list B := (map_to_list m).*2 ≫= f.

Section maps.
Context {A B : Type}.
Implicit Types (m : gmap nat A) (f : A -> Z) (g : A -> list B).

#[local] Instance zsum_perm : Proper ((≡ₚ) ==> eq) (foldr Z.add 0).
Proof. intros l k H. induction H; cbn; lia. Qed.

Lemma msum_insert f m i x : m !! i = None -> msum f (<[i := x]> m) = f x + msum f m.
Proof. intros Hi. unfold msum. by rewrite map_to_list_insert. Qed.
Lemma msum_delete f m i x : m !! i = Some x -> msum f m = f x + msum f (delete i m).
Proof. intros Hi. unfold msum. by rewrite <- (map_to_list_delete m i x Hi). Qed.
Lemma msum_update f m i x y : m !! i = Some x -> msum f (<[i := y]> m) = msum f m - f x + f y.
Proof.
  intros Hi. rewrite (msum_delete f m i x) by done. rewrite (msum_delete f (<[i := y]> m) i y) by apply lookup_insert_eq.
  rewrite delete_insert_eq. lia.
Qed.

Lemma mcat_insert g m i x : m !! i = None -> mcat g (<[i := x]> m) ≡ₚ g x ++ mcat g m.
Proof. intros Hi. unfold mcat. by rewrite map_to_list_insert. Qed.
Lemma mcat_delete g m i x : m !! i = Some x -> mcat g m ≡ₚ g x ++ mcat g (delete i m).
Proof. intros Hi. unfold mcat. by rewrite <- (map_to_list_delete m i x Hi). Qed.
Lemma mcat_update g m i x y z : m !! i = Some x -> g x ≡ₚ g y ++ z ->
  mcat g m ≡ₚ z ++ mcat g (<[i := y]> m).
Proof.
  intros Hi Hg. rewrite (mcat_delete g m i x) by done. rewrite (mcat_delete g (<[i := y]> m) i y) by apply lookup_insert_eq.
  rewrite delete_insert_eq, Hg. rewrite (app_assoc z), (Permutation_app_comm z). by rewrite <- app_assoc.
Qed.

Lemma alter_lookup (h : A -> A) m i x : m !! i = Some x -> alter h i m = <[i := h x]> m.
Proof.
  intros Hi. apply map_eq. intros j. destruct (decide (i = j)) as [<-|Hne].
  - by rewrite lookup_alter_eq, lookup_insert_eq, Hi.
  - by rewrite lookup_alter_ne, lookup_insert_ne.
Qed.
End maps.

(** ** The invariant *)

Section invariant.
Context (page_size : nat) (is_eagle : bool).
Context (page_pos : (0 < page_size)%nat).

Definition units (nd : tree_node) : list (list Z) := key_iter (key nd).
Definition seg (nd : tree_node) : list (list Z * Z) := zip (units nd) (value nd).
Definition ck (k : radix_key) : ckey := (extra_key k, take page_size (key_iter k)).

Definition key_good (k : radix_key) : Prop :=
  is_bigram k = is_eagle /\ (0 < key_len k)%nat /\ Nat.divide page_size (key_len k).

(** The tree is linked both ways: [P n] is the path from below the root to
    [n], [lk n] the number of locks on [n]. *)
Record node_ok (P : nat -> list nat) (st : radix) (n : nat) (nd : tree_node) (p : nat) (pd : tree_node) : Prop := {
  no_parent : parent nd = Some p;
  no_lookup : nodes st !! p = Some pd;
  no_path : P n = P p ++ [n];
  no_link : children pd !! ck (key nd) = Some n;
  no_space : p = root_node st \/ extra_key (key pd) = extra_key (key nd);
  no_key : key_good (key nd);
  no_value : length (value nd) = key_len (key nd);
}.

Record tree_ok (P : nat -> list nat) (lk : nat -> Z) (st : radix) : Prop := TreeOk {
  ok_root : exists rd, nodes st !! root_node st = Some rd /\ parent rd = None /\ lock_ref rd = 1 /\
    key_len (key rd) = 0%nat /\ value rd = [];
  ok_top : P (root_node st) = [];
  ok_node n nd : nodes st !! n = Some nd -> n <> root_node st -> exists p pd, node_ok P st n nd p pd;
  ok_child p pd k c : nodes st !! p = Some pd -> children pd !! k = Some c ->
    exists cd, nodes st !! c = Some cd /\ c <> root_node st /\ parent cd = Some p /\ k = ck (key cd);
  ok_fresh n : is_Some (nodes st !! n) -> (n < counter st)%nat;
  ok_lock n nd : nodes st !! n = Some nd -> n <> root_node st -> lock_ref nd = lk n /\ 0 <= lk n;
  ok_leaves n : n ∈ evictable_leaves st <->
    exists nd, nodes st !! n = Some nd /\ lock_ref nd = 0 /\ children nd = ∅;
  ok_evictable : evictable_size_ st =
    msum (fun nd => if lock_ref nd =? 0 then Z.of_nat (key_len (key nd)) else 0) (nodes st);
  ok_protected : protected_size_ st =
    msum (fun nd => if lock_ref nd =? 0 then 0 else Z.of_nat (key_len (key nd))) (nodes st);
}.

Lemma parent_ne P st n nd p pd : node_ok P st n nd p pd -> p <> n.
Proof.
  intros [_ _ HP _ _ _ _] ->. apply (f_equal length) in HP. rewrite length_app in HP. cbn in HP. lia.
Qed.

(** *** Paths *)

Section paths.
Context (P : nat -> list nat) (lk : nat -> Z) (st : radix) (Hok : tree_ok P lk st).

Lemma path_nonroot n nd : nodes st !! n = Some nd -> n <> root_node st -> n ∈ P n.
Proof.
  intros Hn Hr. destruct (ok_node _ _ _ Hok n nd Hn Hr) as (p & pd & [_ _ -> _ _ _ _]).
  apply elem_of_app. right. by left.
Qed.

Lemma path_mem n nd x :
  nodes st !! n = Some nd -> x ∈ P n ->
  exists xd rest, nodes st !! x = Some xd /\ x <> root_node st /\ P n = P x ++ rest.
Proof.
  remember (length (P n)) as N eqn:HN. revert n nd HN. induction N as [N IH] using lt_wf_ind.
  intros n nd HN Hn Hx. destruct (decide (n = root_node st)) as [->|Hr].
  { rewrite (ok_top _ _ _ Hok) in Hx. by apply elem_of_nil in Hx. }
  destruct (ok_node _ _ _ Hok n nd Hn Hr) as (p & pd & [_ Hp HP _ _ _ _]).
  rewrite HP in Hx. apply elem_of_app in Hx as [Hx|Hx%list_elem_of_singleton].
  - destruct (IH (length (P p))) with (n := p) (nd := pd) as (xd & rest & ? & ? & Hrest); try done.
    { rewrite HN, HP, length_app. cbn. lia. }
    exists xd, (rest ++ [n]). rewrite HP, Hrest, app_assoc. done.
  - subst x. exists nd, []. rewrite app_nil_r. done.
Qed.

Lemma path_NoDup n nd : nodes st !! n = Some nd -> NoDup (P n).
Proof.
  remember (length (P n)) as N eqn:HN. revert n nd HN. induction N as [N IH] using lt_wf_ind.
  intros n nd HN Hn. destruct (decide (n = root_node st)) as [->|Hr].
  { rewrite (ok_top _ _ _ Hok). constructor. }
  destruct (ok_node _ _ _ Hok n nd Hn Hr) as (p & pd & [_ Hp HP _ _ _ _]). rewrite HP.
  apply NoDup_app. split; [|split].
  - apply (IH (length (P p))) with (nd := pd); [|done|done]. rewrite HN, HP, length_app. cbn. lia.
  - intros x Hx ->%list_elem_of_singleton. destruct (path_mem p pd n Hp Hx) as (_ & rest & _ & _ & Hrest).
    apply (f_equal length) in HP. rewrite length_app in HP. rewrite Hrest, length_app in HP. cbn in HP. lia.
  - apply NoDup_singleton.
Qed.

(** The first step from [cur] towards a node below it. *)
Lemma path_below h hd cur :
  nodes st !! h = Some hd -> cur = root_node st \/ cur ∈ P h -> h <> cur ->
  exists x xd rest, nodes st !! x = Some xd /\ x <> root_node st /\ parent xd = Some cur /\
    P h = P cur ++ x :: rest /\ extra_key (key xd) = extra_key (key hd).
Proof.
  remember (length (P h)) as N eqn:HN. revert h hd HN. induction N as [N IH] using lt_wf_ind.
  intros h hd HN Hh Hcur Hne. destruct (decide (h = root_node st)) as [->|Hr].
  { rewrite (ok_top _ _ _ Hok) in Hcur. destruct Hcur as [->|?%elem_of_nil]; done. }
  destruct (ok_node _ _ _ Hok h hd Hh Hr) as (p & pd & [Hpar Hp HP _ Hsp _ _]).
  destruct (decide (p = cur)) as [->|Hpc].
  { exists h, hd, []. split; [done|]. split; [done|]. split; [done|]. split; [done|done]. }
  assert (Hcur' : cur = root_node st \/ cur ∈ P p).
  { destruct Hcur as [?|Hc]; [by left|]. right. rewrite HP in Hc.
    apply elem_of_app in Hc as [?|?%list_elem_of_singleton]; [done|congruence]. }
  assert (Hproot : p <> root_node st).
  { intros ->. rewrite (ok_top _ _ _ Hok) in Hcur'. destruct Hcur' as [->|?%elem_of_nil]; done. }
  destruct (IH (length (P p))) with (h := p) (hd := pd) as (x & xd & rest & Hx & Hxr & Hxp & HPx & Hxe); try done.
  { rewrite HN, HP, length_app. cbn. lia. }
  exists x, xd, (rest ++ [h]). split; [done|]. split; [done|]. split; [done|].
  split; [by rewrite HP, HPx, <- app_assoc|]. destruct Hsp as [?|<-]; done.
Qed.
End paths.

(** *** What the tree means *)

(** The cached prefix that ends at a node: its units, each with its slot. *)
Definition ents (P : nat -> list nat) (st : radix) (n : nat) : list (list Z * Z) :=
  P n ≫= (fun x => seg (nodes st !!! x)).

(** The slots the cache holds. *)
Definition tree_slots (st : radix) : list Z := mcat value (nodes st).

Lemma ents_child P st n nd p pd :
  node_ok P st n nd p pd -> nodes st !! n = Some nd -> ents P st n = ents P st p ++ seg nd.
Proof.
  intros [_ _ HP _ _ _ _] Hn. unfold ents. rewrite HP, bind_app. f_equal.
  change ([n] ≫= ?f) with (f n ++ []). by rewrite app_nil_r, (lookup_total_correct _ _ _ Hn).
Qed.

Lemma seg_units nd : length (value nd) = key_len (key nd) -> (seg nd).*1 = units nd /\ (seg nd).*2 = value nd.
Proof.
  intros Hl. unfold seg, units. split; [rewrite fst_zip|rewrite snd_zip]; rewrite ?length_key_iter; try done; lia.
Qed.

(** *** Changes of the bookkeeping fields only *)

Definition shape (nd : tree_node) : tree_node :=
  TreeNode (children nd) (parent nd) (key nd) (value nd) (lock_ref nd) 0 0 0 0.

Record sim (st st' : radix) : Prop := {
  sim_nodes : shape <$> nodes st = shape <$> nodes st';
  sim_root : root_node st = root_node st';
  sim_counter : counter st = counter st';
  sim_evictable : evictable_size_ st = evictable_size_ st';
  sim_protected : protected_size_ st = protected_size_ st';
  sim_leaves : evictable_leaves st = evictable_leaves st';
}.

#[global] Instance sim_equiv : Equivalence sim.
Proof.
  split.
  - by intros st.
  - intros st st' []. by split.
  - intros st1 st2 st3 [] []. split; congruence.
Qed.

Lemma sim_lookup st st' n nd :
  sim st st' -> nodes st !! n = Some nd -> exists nd', nodes st' !! n = Some nd' /\ shape nd = shape nd'.
Proof.
  intros [Hs _ _ _ _ _] Hn. apply (f_equal (lookup n)) in Hs. rewrite !lookup_fmap, Hn in Hs.
  destruct (nodes st' !! n) as [nd'|]; [|done]. injection Hs as ?. exists nd'. split; [done|].
  unfold shape in *. congruence.
Qed.

Lemma sim_ents P st st' n : sim st st' -> ents P st n = ents P st' n.
Proof.
  intros [Hs _ _ _ _ _]. unfold ents. apply list_bind_ext; [|done]. intros x.
  apply (f_equal (lookup x)) in Hs. rewrite !lookup_fmap in Hs. rewrite !lookup_total_alt.
  destruct (nodes st !! x) as [nd|], (nodes st' !! x) as [nd'|]; try done.
  injection Hs as ?. unfold seg, units. cbn. congruence.
Qed.

Lemma msum_shape f m m' :
  (forall nd, f (shape nd) = f nd) -> shape <$> m = shape <$> m' -> msum f m = msum f m'.
Proof.
  intros Hf Hm. assert (He : forall x : gmap nat tree_node, msum f x = msum f (shape <$> x)).
  { intros x. unfold msum. rewrite map_to_list_fmap. f_equal. rewrite <- !list_fmap_compose.
    apply list_fmap_ext. intros ? [? nd] _. cbn. by rewrite Hf. }
  by rewrite He, Hm, <- He.
Qed.

Lemma mcat_shape m m' : shape <$> m = shape <$> m' -> mcat value m = mcat value m'.
Proof.
  intros Hm. assert (He : forall x : gmap nat tree_node, mcat value x = mcat value (shape <$> x)).
  { intros x. unfold mcat. rewrite map_to_list_fmap, <- !list_fmap_compose.
    rewrite !list_fmap_bind. apply list_bind_ext; [|done]. by intros [? nd]. }
  by rewrite He, Hm, <- He.
Qed.

Lemma tree_ok_sim P lk st st' : sim st st' -> tree_ok P lk st -> tree_ok P lk st'.
Proof.
  intros Hsim [Hr Ht Hn Hc Hf Hl Hle He Hp]. pose proof (symmetry Hsim) as Hsym.
  assert (Hfields : forall nd nd', shape nd = shape nd' -> children nd = children nd' /\ parent nd = parent nd' /\
            key nd = key nd' /\ value nd = value nd' /\ lock_ref nd = lock_ref nd').
  { unfold shape. intros nd nd' [= -> -> -> -> ->]. done. }
  destruct Hsim as [Hs Hsr Hsc Hse Hsp Hsl]. split.
  - destruct Hr as (rd & Hrd & ?). destruct (sim_lookup _ _ _ _ (symmetry Hsym) Hrd) as (rd' & ? & Hsh%Hfields).
    exists rd'. rewrite <- Hsr. destruct Hsh as (_ & <- & <- & <- & <-). done.
  - by rewrite <- Hsr.
  - intros n nd' Hn' Hne. destruct (sim_lookup _ _ _ _ Hsym Hn') as (nd & Hnd & Hsh%Hfields).
    rewrite <- Hsr in Hne. destruct (Hn n nd Hnd Hne) as (p & pd & [? Hpd ? ? ? ? ?]).
    destruct (sim_lookup _ _ _ _ (symmetry Hsym) Hpd) as (pd' & ? & Hsh'%Hfields).
    destruct Hsh as (_ & H1 & H2 & H3 & _), Hsh' as (Hc1 & _ & Hc2 & _ & _).
    exists p, pd'. split; rewrite ?H2, ?H3, <- ?Hsr, <- ?Hc1, <- ?Hc2; congruence.
  - intros p pd' k c Hpd' Hk. destruct (sim_lookup _ _ _ _ Hsym Hpd') as (pd & Hpd & Hsh%Hfields).
    destruct Hsh as (Hch & _). rewrite Hch in Hk. destruct (Hc p pd k c Hpd Hk) as (cd & Hcd & ? & ? & ?).
    destruct (sim_lookup _ _ _ _ (symmetry Hsym) Hcd) as (cd' & ? & Hsh'%Hfields). exists cd'.
    destruct Hsh' as (_ & <- & <- & _). by rewrite <- Hsr.
  - intros n [nd' Hn']. destruct (sim_lookup _ _ _ _ Hsym Hn') as (nd & Hnd & _). rewrite <- Hsc. apply Hf. by exists nd.
  - intros n nd' Hn' Hne. destruct (sim_lookup _ _ _ _ Hsym Hn') as (nd & Hnd & Hsh%Hfields).
    rewrite <- Hsr in Hne. destruct (Hl n nd Hnd Hne) as [? ?]. destruct Hsh as (_ & _ & _ & _ & ->). done.
  - intros n. rewrite <- Hsl, Hle. split; intros (nd & Hnd & H1 & H2).
    + destruct (sim_lookup _ _ _ _ (symmetry Hsym) Hnd) as (nd' & ? & Hsh%Hfields). exists nd'.
      destruct Hsh as (<- & _ & _ & _ & <-). done.
    + destruct (sim_lookup _ _ _ _ Hsym Hnd) as (nd' & ? & Hsh%Hfields). exists nd'.
      destruct Hsh as (<- & _ & _ & _ & <-). done.
  - rewrite <- Hse, He. by apply msum_shape.
  - rewrite <- Hsp, Hp. by apply msum_shape.
Qed.

(** *** Restructurings that keep the meaning *)

Record refines (P : nat -> list nat) (st : radix) (P' : nat -> list nat) (st' : radix) : Prop := {
  rf_root : root_node st' = root_node st;
  rf_keep n nd : nodes st !! n = Some nd -> exists nd', nodes st' !! n = Some nd' /\
    extra_key (key nd') = extra_key (key nd) /\ ents P' st' n = ents P st n;
  rf_back n' nd' : nodes st' !! n' = Some nd' -> n' <> root_node st -> exists n nd, nodes st !! n = Some nd /\
    n <> root_node st /\ extra_key (key nd) = extra_key (key nd') /\ ents P' st' n' `prefix_of` ents P st n;
  rf_slots : tree_slots st' ≡ₚ tree_slots st;
}.

Lemma refines_self P st : refines P st P st.
Proof.
  split; [done| | |done].
  - intros n nd Hn. by exists nd.
  - intros n nd Hn Hne. by exists n, nd.
Qed.

Lemma refines_trans P1 st1 P2 st2 P3 st3 :
  refines P1 st1 P2 st2 -> refines P2 st2 P3 st3 -> refines P1 st1 P3 st3.
Proof.
  intros [Hr1 Hk1 Hb1 Hs1] [Hr2 Hk2 Hb2 Hs2]. split.
  - congruence.
  - intros n nd Hn. destruct (Hk1 n nd Hn) as (nd' & Hn' & He' & Hp'). destruct (Hk2 n nd' Hn') as (nd'' & ? & ? & ?).
    exists nd''. split; [done|]. split; congruence.
  - intros n nd Hn Hne. destruct (Hb2 n nd Hn) as (n' & nd' & Hn' & Hne' & He' & Hp'); [congruence|].
    destruct (Hb1 n' nd' Hn') as (n'' & nd'' & ? & ? & ? & ?); [congruence|].
    exists n'', nd''. split; [done|]. split; [done|]. split; [congruence|]. by etransitivity.
  - by etransitivity.
Qed.

Lemma sim_refines P st st' : sim st st' -> refines P st P st'.
Proof.
  intros Hs. split.
  - symmetry. apply Hs.
  - intros n nd Hn. destruct (sim_lookup _ _ _ _ Hs Hn) as (nd' & ? & Hsh). exists nd'. split; [done|].
    split; [unfold shape in Hsh; congruence|]. symmetry. by apply sim_ents.
  - intros n nd Hn Hne. destruct (sim_lookup _ _ _ _ (symmetry Hs) Hn) as (nd' & ? & Hsh). exists n, nd'.
    split; [done|]. split; [done|]. split; [unfold shape in Hsh; congruence|].
    by rewrite (sim_ents P st st').
  - unfold tree_slots. rewrite (mcat_shape (nodes st') (nodes st)); [done|]. symmetry. apply Hs.
Qed.

(** The locks clients hold: a list of nodes, each locking its path. *)
Definition locks_on (P : nat -> list nat) (L : list nat) (n : nat) : Z :=
  Z.of_nat (length (filter (fun h => n ∈ P h) L)).

Definition inv (P : nat -> list nat) (L : list nat) (st : radix) : Prop :=
  tree_ok P (locks_on P L) st /\ forall h, h ∈ L -> is_Some (nodes st !! h).

Lemma locks_on_ext P P' L n n' :
  (forall h, h ∈ L -> (n' ∈ P' h <-> n ∈ P h)) -> locks_on P' L n' = locks_on P L n.
Proof.
  intros He. unfold locks_on. f_equal. induction L as [|h L IH]; [done|].
  assert (Hh : n' ∈ P' h <-> n ∈ P h) by (apply He; by left).
  rewrite !filter_cons. destruct (decide (n' ∈ P' h)), (decide (n ∈ P h)); try tauto; cbn [length].
  - f_equal. apply IH. intros; apply He; by right.
  - apply IH. intros; apply He; by right.
Qed.

Lemma inv_sim P L st st' : sim st st' -> inv P L st -> inv P L st'.
Proof.
  intros Hs [Ht Hl]. split; [by apply (tree_ok_sim _ _ st)|]. intros h Hh. destruct (Hl h Hh) as [nd Hn].
  destruct (sim_lookup _ _ _ _ Hs Hn) as (nd' & ? & _). by exists nd'.
Qed.

Lemma fresh_id P L st h hd : inv P L st -> nodes st !! h = Some hd -> h <> counter st.
Proof. intros [Hok _] Hh ->. pose proof (ok_fresh _ _ _ Hok (counter st) ltac:(by exists hd)). lia. Qed.

(** *** Splitting a node *)

Lemma page_le n : (0 < n)%nat -> Nat.divide page_size n -> (page_size <= n)%nat.
Proof. intros Hp [d ->]. destruct d; lia. Qed.


Section split.
Context (time : nat -> Z) (P : nat -> list nat) (L : list nat) (st : radix) (Hinv : inv P L st).
Context (child : nat) (c : tree_node) (p : nat) (pd : tree_node) (q : nat).
Context (Hc : nodes st !! child = Some c) (Hcr : child <> root_node st) (Hno : node_ok P st child c p pd).
Context (Hq : (0 < q < key_len (key c))%nat) (Hqd : Nat.divide page_size q).

Let new : nat := counter st.
Let new_node : tree_node :=
  TreeNode {[ck (key_from (key c) q) := child]} (Some p) (key_to (key c) q) (take q (value c))
    (lock_ref c) (time (clock st)) (time (S (clock st))) (hit_count c) (priority c).
Let child_node : tree_node :=
  TreeNode (children c) (Some new) (key_from (key c) q) (drop q (value c))
    (lock_ref c) (last_access_time c) (creation_time c) (hit_count c) (priority c).
Let parent_node : tree_node := set_children pd (<[ck (key c) := new]> (children pd)).

Definition split_nodes : gmap nat tree_node :=
  <[p := parent_node]> (<[child := child_node]> (<[new := new_node]> (nodes st))).
Definition split_state : radix :=
  set_clock (set_counter (set_nodes st split_nodes) (S new)) (S (S (clock st))).
Definition split_path (h : nat) : list nat :=
  if decide (h = new) then P p ++ [new]
  else P h ≫= (fun x => if decide (x = child) then [new; child] else [x]).

Lemma split_keys :
  key_iter (key_to (key c) q) = take q (units c) /\ key_iter (key_from (key c) q) = drop q (units c) /\
  key_len (key_to (key c) q) = q /\ key_len (key_from (key c) q) = (key_len (key c) - q)%nat /\
  ck (key_to (key c) q) = ck (key c) /\ key_good (key_to (key c) q) /\ key_good (key_from (key c) q) /\
  extra_key (key_from (key c) q) = extra_key (key c).
Proof.
  destruct Hno as [_ _ _ _ _ (Hb & Hpos & Hd) _]. pose proof (page_le q ltac:(lia) Hqd) as Hle.
  unfold units, ck, key_good. rewrite key_iter_to, key_iter_from, key_len_to, key_len_from by lia.
  destruct (key_fields (key c) None (Some (Z.of_nat q))) as [He1 Hb1].
  destruct (key_fields (key c) (Some (Z.of_nat q)) None) as [He2 Hb2].
  unfold key_to, key_from. rewrite He1, Hb1, He2, Hb2, take_take, Nat.min_l by lia.
  do 5 (split; [done|]). split; [split; [done|]; split; [lia|done]|]. split; [|done].
  split; [done|]. split; [lia|]. by apply Nat.divide_sub_r.
Qed.

Lemma split_distinct : p <> child /\ p <> new /\ child <> new.
Proof.
  destruct Hinv as [Hok _]. pose proof (no_lookup _ _ _ _ _ _ Hno) as Hpd. split; [|split].
  - exact (parent_ne P st child c p pd Hno).
  - assert (p < counter st)%nat by (apply (ok_fresh _ _ _ Hok); by exists pd). unfold new. lia.
  - assert (child < counter st)%nat by (apply (ok_fresh _ _ _ Hok); by exists c). unfold new. lia.
Qed.

Lemma split_run : split_node time page_size (key c) child q st = Ok (new, split_state).
Proof.
  destruct split_keys as (_ & _ & _ & Hlf & _ & (_ & Hpos & Hdv) & (_ & Hpos' & Hdv') & _).
  destruct Hno as [Hpar Hpd _ _ _ (_ & Hkpos & Hkd) _]. unfold split_node, deref. rewrite Hc. cbn [of_option].
  step_ok.
  rewrite child_key_spec; [|done|by apply page_le]. step_ok.
  rewrite Hpar. cbn [of_option]. step_ok.
  rewrite child_key_spec; [|done|by apply page_le]. step_ok.
  destruct split_distinct as (Hn1 & Hn2 & Hn3).
  rewrite (alter_lookup _ _ p pd) by (by rewrite !lookup_insert_ne).
  reflexivity.
Qed.

Lemma split_lookup n :
  nodes split_state !! n =
    if decide (n = p) then Some parent_node else if decide (n = child) then Some child_node
    else if decide (n = new) then Some new_node else nodes st !! n.
Proof.
  change (split_nodes !! n = if decide (n = p) then Some parent_node else if decide (n = child) then Some child_node
    else if decide (n = new) then Some new_node else nodes st !! n). unfold split_nodes.
  destruct (decide (n = p)) as [->|]; [by rewrite lookup_insert_eq|]. rewrite lookup_insert_ne by done.
  destruct (decide (n = child)) as [->|]; [by rewrite lookup_insert_eq|]. rewrite lookup_insert_ne by done.
  destruct (decide (n = new)) as [->|]; [by rewrite lookup_insert_eq|]. by rewrite lookup_insert_ne.
Qed.

Lemma old_not_new h hd : nodes st !! h = Some hd -> h <> new.
Proof.
  exact (fresh_id P L st h hd Hinv).
Qed.

Lemma new_not_in h hd : nodes st !! h = Some hd -> new ∉ P h.
Proof.
  intros Hh Hin. destruct Hinv as [Hok _]. destruct (path_mem _ _ _ Hok h hd new Hh Hin) as (xd & _ & Hx & _).
  by apply (old_not_new new xd).
Qed.

Lemma split_path_old h : h <> new ->
  split_path h = P h ≫= (fun x => if decide (x = child) then [new; child] else [x]).
Proof. intros Hne. unfold split_path. by rewrite decide_False. Qed.

Lemma split_path_id h : child ∉ P h -> h <> new -> split_path h = P h.
Proof.
  intros Hin Hne. rewrite split_path_old by done. induction (P h) as [|x l IH]; [done|].
  apply not_elem_of_cons in Hin as [Hx Hl]. rewrite bind_cons, decide_False by congruence.
  cbn [app]. f_equal. by apply IH.
Qed.

Lemma split_path_parent : split_path p = P p.
Proof.
  destruct split_distinct as (_ & Hn & _). apply split_path_id; [|done]. destruct Hinv as [Hok _].
  pose proof (path_NoDup _ _ _ Hok child c Hc) as Hnd. destruct Hno as [_ _ HP _ _ _ _]. rewrite HP in Hnd.
  apply NoDup_app in Hnd as (_ & Hnd & _). intros Hin. apply (Hnd child Hin). by left.
Qed.

Lemma split_path_new : split_path new = P p ++ [new].
Proof. unfold split_path. by rewrite decide_True. Qed.

Lemma split_path_mem h hd x :
  nodes st !! h = Some hd -> x ∈ split_path h <-> x ∈ P h \/ (x = new /\ child ∈ P h).
Proof.
  intros Hh. pose proof (old_not_new h hd Hh) as Hne.
  rewrite split_path_old, list_elem_of_bind by done. split.
  - intros (y & Hy & Hin). case_decide as Hd; [subst y|].
    + apply elem_of_cons in Hy as [->|Hy]; [by right|]. apply list_elem_of_singleton in Hy as ->. by left.
    + apply list_elem_of_singleton in Hy as ->. by left.
  - intros [Hin|[-> Hin]].
    + exists x. case_decide; [subst|]; split; try done; [right; by left|by left].
    + exists child. rewrite decide_True by done. split; [by left|done].
Qed.

Lemma split_path_child h hd p' : nodes st !! h = Some hd -> h <> child -> P h = P p' ++ [h] -> p' <> new ->
  split_path h = split_path p' ++ [h].
Proof.
  intros Hh Hne HP Hp'. pose proof (old_not_new h hd Hh).
  rewrite !split_path_old by done. rewrite HP, bind_app. f_equal. cbn. by rewrite decide_False.
Qed.

Lemma split_seg :
  seg new_node ++ seg child_node = seg c /\ seg new_node = take q (seg c) /\ seg parent_node = seg pd.
Proof.
  destruct split_keys as (Ht & Hd & _). unfold seg, units in *. cbn [key value new_node child_node parent_node set_children].
  rewrite Ht, Hd. split; [|split]; [|by rewrite zip_with_take|done].
  rewrite <- zip_with_take, <- zip_with_drop. apply take_drop.
Qed.

Lemma split_ents h hd : nodes st !! h = Some hd -> ents split_path split_state h = ents P st h.
Proof.
  intros Hh. pose proof (old_not_new h hd Hh) as Hne.
  destruct split_distinct as (Hpc & Hpn & Hcn). destruct split_seg as (Hs & _ & Hsp).
  unfold ents. rewrite split_path_old, bind_bind by done. apply bind_ext_in. intros x Hx.
  assert (Hxn : x <> new) by (intros ->; by apply (new_not_in h hd)).
  case_decide as Hxc; [subst x|].
  - cbn. rewrite !lookup_total_alt, !split_lookup. rewrite (decide_False (P := new = p)) by congruence.
    rewrite (decide_False (P := new = child)), (decide_True (P := new = new)) by congruence.
    rewrite (decide_False (P := child = p)), (decide_True (P := child = child)) by congruence.
    rewrite Hc. cbn [default]. by rewrite app_nil_r.
  - cbn. rewrite app_nil_r, !lookup_total_alt, !split_lookup. case_decide as Hxp; [subst x|].
    + destruct Hno as [_ -> _ _ _ _ _]. cbn [default]. done.
    + by rewrite !decide_False by done.
Qed.

(** Every node but the new one was there before. *)
Lemma split_cases n nd :
  nodes split_state !! n = Some nd ->
  (n = new /\ nd = new_node) \/
  (n <> new /\ exists od, nodes st !! n = Some od /\ lock_ref nd = lock_ref od /\
     extra_key (key nd) = extra_key (key od) /\ (children nd = ∅ <-> children od = ∅) /\
     (n = child \/ (n <> child /\ key nd = key od /\ value nd = value od /\ parent nd = parent od)) /\
     (n = p \/ children nd = children od)).
Proof.
  destruct split_distinct as (Hpc & Hpn & Hcn). destruct split_keys as (_ & _ & _ & _ & _ & _ & _ & Hek).
  destruct Hno as [_ Hpd _ Hlink _ _ _]. rewrite split_lookup. case_decide as H1; [subst n|]; [|case_decide as H2; [subst n|]].
  - intros [= <-]. right. split; [done|]. exists pd. split; [done|]. split; [done|]. split; [done|].
    split; [|split; [by right|by left]]. cbn. split; intros He.
    + exfalso. by apply (insert_non_empty (children pd) (ck (key c)) new).
    + rewrite He in Hlink. by rewrite lookup_empty in Hlink.
  - intros [= <-]. right. split; [done|]. exists c. split; [done|]. split; [done|]. split; [done|].
    split; [done|]. split; [by left|by right].
  - case_decide as H3; [subst n|]; intros Hn; [left; split; congruence|]. right. split; [done|].
    exists nd. split; [done|]. split; [done|]. split; [done|]. split; [done|]. split; by right.
Qed.

Lemma split_locks n : n <> new -> locks_on split_path L n = locks_on P L n.
Proof.
  intros Hne. destruct Hinv as [_ Hl]. apply locks_on_ext. intros h Hh. destruct (Hl h Hh) as [hd Hhd].
  rewrite (split_path_mem h hd n Hhd). naive_solver.
Qed.

Lemma split_locks_new : locks_on split_path L new = locks_on P L child.
Proof.
  destruct Hinv as [_ Hl]. apply locks_on_ext. intros h Hh. destruct (Hl h Hh) as [hd Hhd].
  rewrite (split_path_mem h hd new Hhd). split; [|by right].
  intros [Hin|[_ ?]]; [|done]. by apply (new_not_in h hd) in Hin.
Qed.

(** A node that is not the split one keeps its parent. *)
Lemma split_node_ok_old n nd od p' pd' :
  nodes split_state !! n = Some nd -> nodes st !! n = Some od -> n <> child -> n <> new ->
  key nd = key od -> value nd = value od -> parent nd = parent od ->
  node_ok P st n od p' pd' -> exists pd'', node_ok split_path split_state n nd p' pd''.
Proof.
  intros Hn Ho Hnc Hnn Hk Hv Hp [Hpar Hpd' HP Hl Hsp Hkg Hvl].
  destruct split_distinct as (Hpc & Hpn & Hcn). pose proof (old_not_new p' pd' Hpd') as Hp'n.
  destruct split_keys as (_ & _ & _ & _ & _ & _ & _ & Hek).
  assert (Hpath : split_path n = split_path p' ++ [n]) by (by apply (split_path_child n od)).
  destruct Hno as [_ Hpdl _ Hlink _ _ _].
  destruct (decide (p' = p)) as [->|Hne]; [|destruct (decide (p' = child)) as [->|Hne']].
  - assert (pd' = pd) as -> by congruence. exists parent_node.
    split; rewrite ?Hk, ?Hv, ?Hp; try done.
    + rewrite split_lookup, decide_True by done. done.
    + unfold parent_node. cbn [children set_children]. rewrite lookup_insert_ne; [done|].
      intros He. rewrite <- He, Hlink in Hl. congruence.
  - assert (pd' = c) as -> by congruence. exists child_node. split; rewrite ?Hk, ?Hv, ?Hp; try done.
    + rewrite split_lookup, decide_False, decide_True by done. done.
    + cbn. rewrite Hek. done.
  - exists pd'. split; rewrite ?Hk, ?Hv, ?Hp; try done. by rewrite split_lookup, !decide_False.
Qed.

Lemma split_node_ok n nd :
  nodes split_state !! n = Some nd -> n <> root_node st -> exists p' pd', node_ok split_path split_state n nd p' pd'.
Proof.
  intros Hn Hr. destruct split_distinct as (Hpc & Hpn & Hcn). destruct Hinv as [Hok _].
  destruct split_keys as (_ & _ & Hl1 & Hl2 & Hck & Hg1 & Hg2 & Hek). destruct Hno as [_ Hpdl HP Hlink Hsp Hg Hv].
  destruct (key_fields (key c) None (Some (Z.of_nat q))) as [He1 _].
  assert (Hnew : nodes split_state !! new = Some new_node) by (rewrite split_lookup, decide_False, decide_False, decide_True by done; done).
  destruct (split_cases n nd Hn) as [[-> ->]|(Hnn & od & Ho & _ & _ & _ & [->|(Hnc & Hk & Hvv & Hpp)] & _)].
  - exists p, parent_node. split; try done.
    + by rewrite split_lookup, decide_True.
    + by rewrite split_path_new, split_path_parent.
    + cbn [key new_node children parent_node set_children]. by rewrite Hck, lookup_insert_eq.
    + cbn [key new_node parent_node set_children]. unfold key_to. rewrite He1. done.
    + cbn [key value new_node]. rewrite length_take. lia.
  - rewrite split_lookup, decide_False, decide_True in Hn by done. injection Hn as <-.
    exists new, new_node. split; try done.
    + rewrite split_path_new, split_path_old, HP, bind_app by done.
      rewrite <- split_path_old, split_path_parent by done. cbn. rewrite decide_True by done. by rewrite <- app_assoc.
    + cbn [key child_node children new_node]. by rewrite lookup_singleton_eq.
    + right. cbn [key new_node child_node]. rewrite Hek. unfold key_to. by rewrite He1.
    + cbn [key value child_node]. rewrite length_drop. lia.
  - destruct (ok_node _ _ _ Hok n od Ho Hr) as (p' & pd' & Hno'). exists p'.
    by apply (split_node_ok_old n nd od p' pd').
Qed.

Lemma split_child_ok n nd k x :
  nodes split_state !! n = Some nd -> children nd !! k = Some x ->
  exists cd, nodes split_state !! x = Some cd /\ x <> root_node st /\ parent cd = Some n /\ k = ck (key cd).
Proof.
  intros Hn Hk. destruct split_distinct as (Hpc & Hpn & Hcn). destruct Hinv as [Hok _].
  destruct split_keys as (_ & _ & _ & _ & Hck & _). destruct Hno as [Hpar Hpdl _ Hlink _ _ _].
  assert (Hnr : new <> root_node st).
  { destruct (ok_root _ _ _ Hok) as (rd & Hrd & _). intros He. by apply (old_not_new _ _ Hrd). }
  assert (Hold : forall m md, nodes st !! m = Some md -> children md !! k = Some x -> n = m -> k <> ck (key c) \/ m <> p ->
    exists cd, nodes split_state !! x = Some cd /\ x <> root_node st /\ parent cd = Some n /\ k = ck (key cd)).
  { intros m md Hm Hmk -> Hd. destruct (ok_child _ _ _ Hok m md k x Hm Hmk) as (cd & Hcd & Hxr & Hxp & Hxk).
    assert (Hxc : x <> child).
    { intros ->. assert (cd = c) as -> by congruence. rewrite Hpar in Hxp. injection Hxp as <-. naive_solver. }
    pose proof (old_not_new x cd Hcd). destruct (decide (x = p)) as [->|Hxp'].
    - exists parent_node. assert (cd = pd) as -> by congruence. by rewrite split_lookup, decide_True.
    - exists cd. by rewrite split_lookup, !decide_False. }
  destruct (split_cases n nd Hn) as [[-> ->]|(Hnn & od & Ho & _ & _ & _ & _ & [->|Hch])].
  - cbn in Hk. apply lookup_singleton_Some in Hk as [<- <-]. exists child_node.
    by rewrite split_lookup, decide_False, decide_True by done.
  - rewrite split_lookup, decide_True in Hn by done. injection Hn as <-. cbn in Hk.
    apply lookup_insert_Some in Hk as [[<- <-]|[Hne Hk]].
    + exists new_node. rewrite split_lookup, decide_False, decide_False, decide_True by done.
      split; [done|]. split; [done|]. split; [done|]. cbn [key new_node]. by rewrite Hck.
    + apply (Hold p pd); try done. left. congruence.
  - destruct (decide (n = p)) as [->|Hne].
    { rewrite split_lookup, decide_True in Hn by done. injection Hn as <-. cbn in Hch.
      apply (f_equal (lookup (ck (key c)))) in Hch. assert (od = pd) as -> by congruence.
      rewrite lookup_insert_eq, Hlink in Hch. congruence. }
    rewrite Hch in Hk. apply (Hold n od); try done. by right.
Qed.

Lemma split_sums f :
  (forall nd nd', lock_ref nd = lock_ref nd' -> key nd = key nd' -> f nd = f nd') ->
  (forall nd, key nd = key_to (key c) q -> lock_ref nd = lock_ref c -> f nd + f child_node = f c) ->
  msum f (nodes split_state) = msum f (nodes st).
Proof.
  intros Hext Hsplit. destruct split_distinct as (Hpc & Hpn & Hcn). destruct Hno as [_ Hpdl _ _ _ _ _].
  change (msum f split_nodes = msum f (nodes st)). unfold split_nodes.
  assert (Hnew : nodes st !! new = None).
  { destruct (nodes st !! new) as [x|] eqn:Hx; [|done]. by apply old_not_new in Hx. }
  rewrite (msum_update f _ p pd) by (by rewrite !lookup_insert_ne).
  rewrite (msum_update f _ child c) by (by rewrite lookup_insert_ne).
  rewrite msum_insert by done. rewrite (Hext parent_node pd) by done.
  pose proof (Hsplit new_node eq_refl eq_refl). lia.
Qed.

Lemma split_inv : inv split_path L split_state.
Proof.
  destruct split_distinct as (Hpc & Hpn & Hcn). pose proof Hinv as [Hok HL].
  destruct split_keys as (_ & _ & Hl1 & Hl2 & _). destruct Hno as [_ Hpdl _ Hlink _ _ _]. split; [split|].
  - destruct (ok_root _ _ _ Hok) as (rd & Hrd & Hrp & Hrl & Hrk & Hrv). change (root_node split_state) with (root_node st).
    destruct (decide (root_node st = p)) as [He|Hne].
    + exists parent_node. rewrite split_lookup, decide_True by done. assert (rd = pd) as -> by congruence. done.
    + exists rd. rewrite split_lookup, decide_False, decide_False, decide_False; try done.
      apply (old_not_new _ rd Hrd).
  - change (root_node split_state) with (root_node st). destruct (ok_root _ _ _ Hok) as (rd & Hrd & _).
    rewrite split_path_old, (ok_top _ _ _ Hok) by (by apply (old_not_new _ rd)). done.
  - apply split_node_ok.
  - apply split_child_ok.
  - intros n [nd Hn]. change (counter split_state) with (S new).
    destruct (split_cases n nd Hn) as [[-> _]|(_ & od & Ho & _)]; [lia|].
    pose proof (ok_fresh _ _ _ Hok n ltac:(by exists od)). unfold new. lia.
  - intros n nd Hn Hr. destruct (split_cases n nd Hn) as [[-> ->]|(Hnn & od & Ho & -> & _)].
    + rewrite split_locks_new. by apply (ok_lock _ _ _ Hok child c).
    + rewrite split_locks by done. by apply (ok_lock _ _ _ Hok n od).
  - intros n. change (evictable_leaves split_state) with (evictable_leaves st). rewrite (ok_leaves _ _ _ Hok). split.
    + intros (od & Ho & Hlk & Hch). pose proof (old_not_new n od Ho) as Hnn.
      destruct (nodes split_state !! n) as [nd|] eqn:Hn.
      * destruct (split_cases n nd Hn) as [[-> _]|(_ & od' & Ho' & Hlk' & _ & Hch' & _)]; [done|].
        assert (od' = od) as -> by congruence. exists nd. split; [done|]. split; [congruence|by apply Hch'].
      * exfalso. rewrite split_lookup in Hn. repeat case_decide; congruence.
    + intros (nd & Hn & Hlk & Hch). destruct (split_cases n nd Hn) as [[-> ->]|(_ & od & Ho & Hlk' & _ & Hch' & _)].
      * exfalso. cbn in Hch. by apply (map_non_empty_singleton _ _ Hch).
      * exists od. split; [done|]. split; [congruence|by apply Hch'].
  - change (evictable_size_ split_state) with (evictable_size_ st). rewrite (ok_evictable _ _ _ Hok).
    symmetry. apply split_sums; [by intros ? ? -> ->|]. intros nd -> ->. cbn [lock_ref key child_node].
    rewrite Hl1, Hl2. case_match; lia.
  - change (protected_size_ split_state) with (protected_size_ st). rewrite (ok_protected _ _ _ Hok).
    symmetry. apply split_sums; [by intros ? ? -> ->|]. intros nd -> ->. cbn [lock_ref key child_node].
    rewrite Hl1, Hl2. case_match; lia.
  - intros h Hh. destruct (HL h Hh) as [hd Hhd]. rewrite split_lookup. repeat case_decide; by eexists.
Qed.

(** The new node, seen from outside. *)
Lemma split_new : exists nd, nodes split_state !! new = Some nd /\ value nd = take q (value c) /\
  extra_key (key nd) = extra_key (key c) /\ ents split_path split_state new = ents P st p ++ take q (seg c).
Proof.
  destruct split_distinct as (Hpc & Hpn & Hcn). destruct split_seg as (_ & Hs & _).
  assert (Hnew : nodes split_state !! new = Some new_node)
    by (rewrite split_lookup, decide_False, decide_False, decide_True by done; done).
  exists new_node. split; [done|]. split; [done|].
  split; [cbn; unfold key_to; by rewrite (proj1 (key_fields _ _ _))|].
  unfold ents at 1. rewrite split_path_new, bind_app. rewrite <- split_path_parent at 1.
  change (split_path p ≫= _) with (ents split_path split_state p).
  rewrite (split_ents p pd) by apply Hno. f_equal. cbn. by rewrite app_nil_r, (lookup_total_correct _ _ _ Hnew).
Qed.

Lemma split_refines : refines P st split_path split_state.
Proof.
  destruct split_distinct as (Hpc & Hpn & Hcn). pose proof Hinv as [Hok _].
  destruct split_keys as (_ & _ & _ & _ & _ & _ & _ & Hek).
  pose proof (ents_child _ _ _ _ _ _ Hno Hc) as Hce. destruct Hno as [_ Hpdl _ _ _ _ _]. split.
  - done.
  - intros n nd Hn. pose proof (old_not_new n nd Hn). pose proof (split_ents n nd Hn) as He.
    rewrite split_lookup. case_decide; [|case_decide; [|rewrite decide_False by done]].
    + exists parent_node. subst n. split; [done|]. by assert (nd = pd) as -> by congruence.
    + exists child_node. subst n. split; [done|]. assert (nd = c) as -> by congruence. split; [done|done].
    + by exists nd.
  - intros n' nd' Hn' Hr. destruct (split_cases n' nd' Hn') as [[-> ->]|(_ & od & Ho & _ & He & _)].
    + destruct split_new as (nd & Hnd & _ & Hne & He). rewrite Hn' in Hnd. injection Hnd as <-.
      exists child, c. split; [done|]. split; [done|]. split; [done|]. rewrite He, Hce.
      apply prefix_app. exists (drop q (seg c)). symmetry. apply take_drop.
    + exists n', od. split; [done|]. split; [done|]. split; [done|]. by rewrite (split_ents n' od).
  - unfold tree_slots. change (nodes split_state) with split_nodes. unfold split_nodes.
    assert (Hnew : nodes st !! new = None).
    { destruct (nodes st !! new) as [x|] eqn:Hx; [|done]. by apply old_not_new in Hx. }
    rewrite (mcat_update value (nodes st) child c child_node (take q (value c))); [|done|].
    2:{ cbn. rewrite Permutation_app_comm. by rewrite take_drop. }
    etransitivity.
    { symmetry. apply (mcat_update value (<[child := child_node]> (<[new := new_node]> (nodes st))) p pd parent_node []);
        [by rewrite !lookup_insert_ne|by rewrite app_nil_r]. }
    rewrite (insert_insert_ne _ child new) by done. by rewrite mcat_insert by (by rewrite lookup_insert_ne).
Qed.
End split.

(** ** Walking down the tree *)

Lemma lcp_app_short a r k : (lcp a k < length a)%nat -> lcp (a ++ r) k = lcp a k.
Proof.
  revert k. induction a as [|x a IH]; intros [|y k]; cbn; try lia. case_bool_decide; [|done].
  intros Hl. rewrite IH; [done|lia].
Qed.

Lemma lcp_app_same a r k : lcp (a ++ r) (a ++ k) = (length a + lcp r k)%nat.
Proof. induction a as [|x a IH]; [done|]. cbn. rewrite bool_decide_true by done. by rewrite IH. Qed.

Lemma lcp_full a k : lcp a k = length a -> k = a ++ drop (length a) k.
Proof.
  intros Hl. rewrite <- (take_drop (length a) k) at 1. f_equal.
  pose proof (lcp_prefix a k) as Hp. rewrite Hl in Hp. rewrite <- Hp. by apply take_ge.
Qed.

Lemma floor_small n : (n < page_size)%nat -> (n / page_size * page_size = 0)%nat.
Proof. intros Hn. by rewrite Nat.div_small. Qed.

Lemma floor_add a n : Nat.divide page_size a -> ((a + n) / page_size * page_size = a + n / page_size * page_size)%nat.
Proof. intros [d ->]. rewrite Nat.add_comm, Nat.div_add by lia. lia. Qed.

Definition key_aligned (k : radix_key) : Prop :=
  is_bigram k = is_eagle /\ Nat.divide page_size (key_len k).

Definition in_space (st : radix) (n : nat) (nd : tree_node) (e : option string) : Prop :=
  n = root_node st \/ extra_key (key nd) = e.

(** The walk from [cur] along [k] ended at [n'], having matched [m] units whose
    entries are [g]; no node below [cur] shares more whole pages with [k]. *)
Record walked (P : nat -> list nat) (L : list nat) (st : radix) (cur : nat) (k : radix_key)
    (P' : nat -> list nat) (st' : radix) (n' m : nat) (g : list (list Z * Z)) : Prop := {
  wk_inv : inv P' L st';
  wk_refines : refines P st P' st';
  wk_node : exists nd', nodes st' !! n' = Some nd' /\ in_space st' n' nd' (extra_key k);
  wk_ents : ents P' st' n' = ents P st cur ++ g;
  wk_units : g.*1 = take m (key_iter k);
  wk_len : (m <= key_len k)%nat /\ Nat.divide page_size m;
  wk_longest h hd F : nodes st !! h = Some hd -> in_space st h hd (extra_key k) ->
    cur = root_node st \/ cur ∈ P h -> (ents P st h).*1 = (ents P st cur).*1 ++ F ->
    (lcp F (key_iter k) / page_size * page_size <= m)%nat;
}.

Section walk.
Context (L : list nat).

(** The next node towards [h] shares a page with the key only if it is the
    child the walk looks up. *)
Lemma next_page P st cur cd k h hd F :
  inv P L st -> nodes st !! cur = Some cd -> nodes st !! h = Some hd -> in_space st h hd (extra_key k) ->
  cur = root_node st \/ cur ∈ P h -> (ents P st h).*1 = (ents P st cur).*1 ++ F ->
  (page_size <= lcp F (key_iter k))%nat ->
  exists x xd F2, nodes st !! x = Some xd /\ node_ok P st x xd cur cd /\ children cd !! ck k = Some x /\
    F = units xd ++ F2 /\ x ∈ P h /\ (ents P st h).*1 = (ents P st x).*1 ++ F2.
Proof.
  intros [Hok _] Hcur Hh Hsp Hbelow HF Hlcp. destruct (decide (h = cur)) as [->|Hne].
  { exfalso. rewrite <- (app_nil_r (ents P st cur).*1) in HF at 1. apply app_inv_head in HF. subst F.
    cbn in Hlcp. lia. }
  destruct (path_below _ _ _ Hok h hd cur Hh Hbelow Hne) as (x & xd & rest & Hx & Hxr & Hxp & HP & Hxe).
  destruct (ok_node _ _ _ Hok x xd Hx Hxr) as (p' & pd' & Hno). pose proof (no_parent _ _ _ _ _ _ Hno) as Hpar.
  rewrite Hxp in Hpar. injection Hpar as <-. pose proof (no_lookup _ _ _ _ _ _ Hno) as Hpd.
  rewrite Hcur in Hpd. injection Hpd as <-.
  pose proof (ents_child _ _ _ _ _ _ Hno Hx) as Hex. destruct (seg_units xd (no_value _ _ _ _ _ _ Hno)) as [Hu _].
  set (G2 := rest ≫= (fun y => seg (nodes st !!! y))).
  assert (Heh : ents P st h = ents P st x ++ G2).
  { unfold ents at 1. rewrite HP, bind_app, bind_cons, (lookup_total_correct _ _ _ Hx), app_assoc. by rewrite Hex. }
  rewrite Heh, Hex, !fmap_app, <- app_assoc, Hu in HF. apply app_inv_head in HF.
  assert (Hck : ck k = ck (key xd)).
  { assert (Hhr : h <> root_node st).
    { intros ->. rewrite (ok_top _ _ _ Hok) in HP. by destruct (P cur). }
    unfold ck. destruct Hsp as [?|Hhe]; [done|]. f_equal; [congruence|].
    destruct (no_key _ _ _ _ _ _ Hno) as (_ & Hpos & Hd). pose proof (page_le _ Hpos Hd) as Hle.
    pose proof (lcp_prefix F (key_iter k)) as Hpre. apply (f_equal (take page_size)) in Hpre.
    rewrite !take_take, Nat.min_l in Hpre by done. rewrite <- Hpre, <- HF.
    rewrite take_app_le; [done|]. unfold units. by rewrite length_key_iter. }
  exists x, xd, G2.*1. split; [done|]. split; [done|]. split; [rewrite Hck; apply Hno|]. split; [done|].
  split; [rewrite HP; apply elem_of_app; right; by left|]. by rewrite Heh, fmap_app.
Qed.

Lemma walk_stop P st cur cd k :
  inv P L st -> nodes st !! cur = Some cd -> in_space st cur cd (extra_key k) ->
  key_len k = 0%nat \/ children cd !! ck k = None -> walked P L st cur k P st cur 0 [].
Proof.
  intros Hinv Hcur Hsp Hstop. split; try done.
  - apply refines_self.
  - by exists cd.
  - by rewrite app_nil_r.
  - split; [lia|]. by exists 0%nat.
  - intros h hd F Hh Hhs Hb HF. rewrite floor_small; [done|].
    destruct (decide (page_size <= lcp F (key_iter k))%nat) as [Hle|]; [|lia].
    destruct Hstop as [H0|Hnone].
    + pose proof (lcp_le F (key_iter k)) as [_ Hl]. rewrite length_key_iter in Hl. lia.
    + destruct (next_page P st cur cd k h hd F Hinv Hcur Hh Hhs Hb HF Hle) as (x & _ & _ & _ & _ & Hx & _). congruence.
Qed.

(** What the lookup of a child tells. *)
Lemma found_child P st cur cd k child :
  inv P L st -> nodes st !! cur = Some cd -> key_aligned k -> (0 < key_len k)%nat ->
  children cd !! ck k = Some child ->
  exists c, nodes st !! child = Some c /\ child <> root_node st /\ node_ok P st child c cur cd /\
    extra_key (key c) = extra_key k /\
    let q := (lcp (units c) (key_iter k) / page_size * page_size)%nat in
    key_match (key c) k page_size = Ok q /\ (0 < q)%nat /\ Nat.divide page_size q /\
    (q <= key_len (key c) /\ q <= key_len k)%nat.
Proof.
  intros [Hok _] Hcur [Hkb Hkd] Hk0 Hch. destruct (ok_child _ _ _ Hok cur cd _ _ Hcur Hch) as (c & Hc & Hr & Hp & Hck).
  destruct (ok_node _ _ _ Hok child c Hc Hr) as (p' & pd' & Hno). pose proof (no_parent _ _ _ _ _ _ Hno) as Hpar.
  rewrite Hp in Hpar. injection Hpar as <-. pose proof (no_lookup _ _ _ _ _ _ Hno) as Hpd.
  rewrite Hcur in Hpd. injection Hpd as <-. destruct (no_key _ _ _ _ _ _ Hno) as (Hcb & Hcpos & Hcd).
  injection Hck as Hce Hct. exists c. split; [done|]. split; [done|]. split; [done|]. split; [done|]. cbv zeta.
  pose proof (page_le _ Hk0 Hkd) as Hle1. pose proof (page_le _ Hcpos Hcd) as Hle2.
  assert (Hlcp : (page_size <= lcp (units c) (key_iter k))%nat).
  { apply lcp_max; [unfold units; by rewrite length_key_iter|done|by rewrite length_key_iter]. }
  pose proof (lcp_le (units c) (key_iter k)) as [Hl1 Hl2]. unfold units in Hl1. rewrite length_key_iter in Hl1, Hl2.
  fold (units c) in Hl1. set (l := lcp (units c) (key_iter k)) in *.
  pose proof (Nat.Div0.mul_div_le l page_size) as Hfl.
  assert (1 <= l / page_size)%nat by (apply Nat.div_le_lower_bound; lia).
  split; [apply key_match_spec; first [done|congruence]|]. split; [nia|]. split; [by exists (l / page_size)%nat|]. lia.
Qed.

Lemma walk_split time P st cur cd k child c :
  inv P L st -> nodes st !! cur = Some cd -> key_aligned k -> (0 < key_len k)%nat ->
  children cd !! ck k = Some child -> nodes st !! child = Some c ->
  let q := (lcp (units c) (key_iter k) / page_size * page_size)%nat in
  (q < key_len (key c))%nat ->
  exists P' st', split_node time page_size (key c) child q st = Ok (counter st, st') /\
    value (nodes st' !!! counter st) = take q (value c) /\
    walked P L st cur k P' st' (counter st) q (take q (seg c)).
Proof.
  intros Hinv Hcur Hka Hk0 Hch Hc q Hq.
  destruct (found_child P st cur cd k child Hinv Hcur Hka Hk0 Hch) as (c' & Hc' & Hr & Hno & He & Hm & Hq0 & Hqd & Hqk).
  assert (c' = c) as -> by congruence. cbv zeta in *. fold q in Hm, Hq0, Hqd, Hqk.
  assert (Hqq : (0 < q < key_len (key c))%nat) by lia.
  set (st' := split_state time st child c cur cd q). set (P' := split_path P st child cur).
  destruct (split_new time P L st Hinv child c cur cd q Hc Hr Hno Hqq Hqd) as (nd & Hnd & Hnv & Hne & Hen).
  exists P', st'. split; [by apply (split_run time P L)|]. split.
  { by rewrite (lookup_total_correct _ _ _ Hnd). }
  pose proof (split_refines time P L st Hinv child c cur cd q Hc Hr Hno Hqq Hqd) as Href.
  destruct (seg_units c (no_value _ _ _ _ _ _ Hno)) as [Hu _]. split.
  - by apply split_inv.
  - done.
  - exists nd. split; [done|]. right. congruence.
  - done.
  - rewrite fmap_take, Hu. unfold q. pose proof (lcp_prefix (units c) (key_iter k)) as Hpre.
    set (l := lcp _ _) in *. apply (f_equal (take (l / page_size * page_size))) in Hpre. rewrite !take_take in Hpre.
    pose proof (Nat.Div0.mul_div_le l page_size). by rewrite Nat.min_l in Hpre by lia.
  - split; [lia|done].
  - intros h hd F Hh Hhs Hb HF. destruct (decide (page_size <= lcp F (key_iter k))%nat) as [Hle|Hlt].
    2:{ rewrite floor_small; lia. }
    destruct (next_page P st cur cd k h hd F Hinv Hcur Hh Hhs Hb HF Hle) as (x & xd & F2 & Hx & _ & Hxk & -> & _).
    rewrite Hch in Hxk. injection Hxk as <-. assert (xd = c) as -> by congruence.
    rewrite lcp_app_short; [done|]. unfold units at 2. rewrite length_key_iter.
    pose proof (lcp_le (units c) (key_iter k)) as [Hl _]. unfold units in Hl at 2. rewrite length_key_iter in Hl.
    destruct (decide (lcp (units c) (key_iter k) = key_len (key c))) as [Heq|]; [|lia].
    exfalso. unfold q in Hq. rewrite Heq in Hq. destruct (no_key _ _ _ _ _ _ Hno) as (_ & _ & [d Hd]).
    rewrite Hd, Nat.div_mul in Hq by lia. lia.
Qed.

Lemma walk_step P st cur cd k child c P' st' n' m g :
  inv P L st -> nodes st !! cur = Some cd -> key_aligned k -> (0 < key_len k)%nat ->
  children cd !! ck k = Some child -> nodes st !! child = Some c ->
  (lcp (units c) (key_iter k) / page_size * page_size = key_len (key c))%nat ->
  walked P L st child (key_from k (key_len (key c))) P' st' n' m g ->
  walked P L st cur k P' st' n' (key_len (key c) + m) (seg c ++ g).
Proof.
  intros Hinv Hcur Hka Hk0 Hch Hc Hq [Hi Hrf (nd' & Hnd' & Hsp') He Hu [Hm Hmd] Hlong].
  destruct (found_child P st cur cd k child Hinv Hcur Hka Hk0 Hch) as (c' & Hc' & Hr & Hno & Hek & Hmt & Hq0 & Hqd & Hqk).
  assert (c' = c) as -> by congruence. cbv zeta in *. rewrite Hq in *.
  destruct (seg_units c (no_value _ _ _ _ _ _ Hno)) as [Hsu _].
  assert (Hfull : lcp (units c) (key_iter k) = length (units c)).
  { pose proof (lcp_le (units c) (key_iter k)) as [Hl _]. pose proof (Nat.Div0.mul_div_le (lcp (units c) (key_iter k)) page_size).
    unfold units in *. rewrite length_key_iter in *. lia. }
  assert (Hlu : length (units c) = key_len (key c)) by (unfold units; apply length_key_iter).
  pose proof (lcp_full _ _ Hfull) as Hk. rewrite Hlu in Hk.
  assert (Hkf : key_iter (key_from k (key_len (key c))) = drop (key_len (key c)) (key_iter k)) by (apply key_iter_from; lia).
  rewrite key_len_from in Hm by lia. split; try done.
  - exists nd'. split; [done|]. destruct Hsp' as [?|Hx]; [by left|right]. rewrite Hx. apply key_fields.
  - by rewrite He, (ents_child _ _ _ _ _ _ Hno Hc), <- app_assoc.
  - rewrite fmap_app, Hsu, Hu, Hkf. rewrite <- take_take_drop. f_equal.
    pose proof (lcp_prefix (units c) (key_iter k)) as Hpre. rewrite Hfull, Hlu in Hpre. rewrite <- Hpre.
    symmetry. apply take_ge. lia.
  - split; [lia|]. by apply Nat.divide_add_r.
  - intros h hd F Hh Hhs Hb HF. destruct (decide (page_size <= lcp F (key_iter k))%nat) as [Hle|Hlt].
    2:{ rewrite floor_small; lia. }
    destruct (next_page P st cur cd k h hd F Hinv Hcur Hh Hhs Hb HF Hle) as (x & xd & F2 & Hx & _ & Hxk & -> & Hxin & Heh).
    rewrite Hch in Hxk. injection Hxk as <-. assert (xd = c) as -> by congruence.
    rewrite Hk, lcp_app_same, Hlu, floor_add by done. apply Nat.add_le_mono_l. rewrite <- Hkf.
    apply (Hlong h hd F2); try done; [|by right]. destruct Hhs as [?|Hx']; [by left|right]. rewrite Hx'.
    symmetry. apply key_fields.
Qed.

Lemma walk_sim P st0 st cur k P' st' n' m g :
  sim st0 st -> walked P L st cur k P' st' n' m g -> walked P L st0 cur k P' st' n' m g.
Proof.
  intros Hs [Hi Hrf Hn He Hu Hm Hlong]. split; try done.
  - eapply refines_trans; [by apply sim_refines|done].
  - by rewrite He, (sim_ents P st0 st).
  - intros h hd F Hh Hhs Hb HF. destruct (sim_lookup _ _ _ _ Hs Hh) as (hd' & Hh' & Hsh).
    apply (Hlong h hd' F); [done|..|by rewrite <- !(sim_ents P st0 st)].
    + unfold in_space in *. rewrite <- (sim_root _ _ Hs). unfold shape in Hsh. injection Hsh as _ _ Hke _ _.
      by rewrite <- Hke.
    + by rewrite <- (sim_root _ _ Hs).
Qed.

Lemma walk_sim_r P st cur k P' st' st'' n' m g :
  sim st' st'' -> walked P L st cur k P' st' n' m g -> walked P L st cur k P' st'' n' m g.
Proof.
  intros Hs [Hi Hrf (nd & Hnd & Hsp) He Hu Hm Hlong]. split; try done.
  - by apply (inv_sim _ _ st').
  - eapply refines_trans; [done|by apply sim_refines].
  - destruct (sim_lookup _ _ _ _ Hs Hnd) as (nd' & ? & Hsh). exists nd'. split; [done|].
    unfold in_space in *. rewrite <- (sim_root _ _ Hs). unfold shape in Hsh. injection Hsh as _ _ Hke _ _. by rewrite <- Hke.
  - by rewrite <- (sim_ents P' st' st'').
Qed.

Lemma walk_compose P st cur k P1 st1 n1 q g1 P2 st2 n2 m2 g2 :
  walked P L st cur k P1 st1 n1 q g1 -> walked P1 L st1 n1 (key_from k q) P2 st2 n2 m2 g2 ->
  walked P L st cur k P2 st2 n2 (q + m2) (g1 ++ g2).
Proof.
  intros [_ Hr1 _ He1 Hu1 [Hq Hqd] Hl1] [Hi Hr2 (nd & Hnd & Hsp) He2 Hu2 [Hm Hmd] _].
  rewrite key_len_from in Hm by done. split; try done.
  - by eapply refines_trans.
  - exists nd. split; [done|]. destruct Hsp as [?|Hx]; [by left|right]. rewrite Hx. apply key_fields.
  - by rewrite He2, He1, <- app_assoc.
  - rewrite fmap_app, Hu1, Hu2, key_iter_from by done. by rewrite take_take_drop.
  - split; [lia|]. by apply Nat.divide_add_r.
  - intros h hd F Hh Hhs Hb HF. specialize (Hl1 h hd F Hh Hhs Hb HF). lia.
Qed.

(** *** The two loops *)

Lemma stats_sim st n f :
  (forall nd, shape (f nd) = shape nd) -> sim st (set_nodes st (alter f n (nodes st))).
Proof.
  intros Hf. split; try done. cbn. apply map_eq. intros i. rewrite !lookup_fmap.
  destruct (decide (n = i)) as [->|Hne].
  - rewrite lookup_alter_eq. destruct (nodes st !! i); [cbn; by rewrite Hf|done].
  - by rewrite lookup_alter_ne.
Qed.

Lemma touch_sim st n t : sim st (touch n t st).
Proof. by apply stats_sim. Qed.
Lemma visit_sim st n prio chunked : sim st (visit n prio chunked st).
Proof. by apply stats_sim. Qed.
Lemma clock_sim st c : sim st (set_clock st c).
Proof. by split. Qed.

(** After a sim step the child the walk found is still there, alike. *)
Lemma sim_child st st' cur cd k child c :
  sim st st' -> nodes st !! cur = Some cd -> children cd !! k = Some child -> nodes st !! child = Some c ->
  exists cd' c', nodes st' !! cur = Some cd' /\ children cd' !! k = Some child /\ nodes st' !! child = Some c' /\
    key c' = key c /\ value c' = value c.
Proof.
  intros Hs Hcur Hk Hc. destruct (sim_lookup _ _ _ _ Hs Hcur) as (cd' & ? & [= Hch _ _ _ _]).
  destruct (sim_lookup _ _ _ _ Hs Hc) as (c' & ? & [= _ _ Hkc Hv _]). exists cd', c'.
  split; [done|]. split; [congruence|]. by split.
Qed.

Lemma key_from_aligned k q : key_aligned k -> (q <= key_len k)%nat -> Nat.divide page_size q ->
  key_aligned (key_from k q).
Proof.
  intros [Hb Hd] Hq Hqd. split; [by rewrite (proj2 (key_from_fields _ _))|].
  rewrite key_len_from by done. by apply Nat.divide_sub_r.
Qed.

Lemma match_loop_spec time fuel access : forall P st cur cd k acc,
  inv P L st -> nodes st !! cur = Some cd -> in_space st cur cd (extra_key k) -> key_aligned k ->
  (key_len k <= fuel)%nat ->
  exists P' st' n' m g, match_loop time page_size fuel cur k acc access st = Ok (acc ++ g.*2, n', st') /\
    walked P L st cur k P' st' n' m g.
Proof.
  induction fuel as [|fuel IH]; intros P st cur cd k acc Hinv Hcur Hsp Hka Hf; cbn [match_loop].
  { exists P, st, cur, 0%nat, []. rewrite app_nil_r. split; [done|]. apply (walk_stop P st cur cd); auto with lia. }
  destruct (Nat.eqb_spec (key_len k) 0) as [H0|H0].
  { exists P, st, cur, 0%nat, []. rewrite app_nil_r. split; [done|]. apply (walk_stop P st cur cd); auto with lia. }
  assert (Hpos : (0 < key_len k)%nat) by lia. pose proof (page_le _ Hpos (proj2 Hka)) as Hple.
  rewrite child_key_spec by done. step_ok. change (extra_key k, take page_size (key_iter k)) with (ck k).
  rewrite (deref_ok _ _ _ Hcur). step_ok. destruct (children cd !! ck k) as [child|] eqn:Hch.
  2:{ exists P, st, cur, 0%nat, []. rewrite app_nil_r. split; [done|]. apply (walk_stop P st cur cd); auto. }
  destruct (found_child P st cur cd k child Hinv Hcur Hka Hpos Hch) as (c0 & Hc0 & _ & _ & _ & _).
  set (st1 := touch child access st). pose proof (touch_sim st child access : sim st st1) as Hs.
  destruct (sim_child _ _ _ _ _ _ _ Hs Hcur Hch Hc0) as (cd1 & c & Hcur1 & Hch1 & Hc & Hkc & Hvc).
  pose proof (inv_sim _ _ _ _ Hs Hinv) as Hinv1.
  destruct (found_child P st1 cur cd1 k child Hinv1 Hcur1 Hka Hpos Hch1)
    as (c' & Hc' & Hr & Hno & He & Hm & Hq0 & Hqd & Hqk). assert (c' = c) as -> by congruence.
  rewrite (deref_ok _ _ _ Hc). step_ok. rewrite Hm. step_ok.
  destruct (seg_units c (no_value _ _ _ _ _ _ Hno)) as [_ Hv2].
  destruct (Nat.ltb_spec (lcp (units c) (key_iter k) / page_size * page_size) (key_len (key c))) as [Hlt|Hge].
  - destruct (walk_split time P st1 cur cd1 k child c Hinv1 Hcur1 Hka Hpos Hch1 Hc Hlt) as (P' & st' & Hrun & Hval & Hw).
    rewrite Hrun. step_ok. rewrite Hval. eexists P', st', _, _, _. split; [by rewrite fmap_take, Hv2|].
    by apply (walk_sim P st st1).
  - assert (Hqe : (lcp (units c) (key_iter k) / page_size * page_size = key_len (key c))%nat) by lia. rewrite Hqe.
    destruct (IH P st1 child c (key_from k (key_len (key c))) (acc ++ value c)) as (P' & st' & n' & m & g & Hrun & Hw).
    + done.
    + done.
    + right. rewrite (proj1 (key_from_fields _ _)). done.
    + apply key_from_aligned; [done|lia|by rewrite <- Hqe].
    + rewrite key_len_from by lia. lia.
    + eexists P', st', n', _, (seg c ++ g). split; [rewrite Hrun, fmap_app, Hv2, app_assoc; done|].
      apply (walk_sim P st st1); [done|]. by apply (walk_step P st1 cur cd1 k child c).
Qed.

Lemma insert_loop_spec time fuel prio chunked access : forall P st cur cd k v total,
  inv P L st -> nodes st !! cur = Some cd -> in_space st cur cd (extra_key k) -> key_aligned k ->
  (key_len k <= fuel)%nat ->
  exists P' st' n' m g k', insert_loop time page_size fuel cur k v total prio chunked access st =
      Ok (n', k', drop m v, (total + m)%nat, st') /\
    walked P L st cur k P' st' n' m g /\ key_iter k' = drop m (key_iter k) /\
    extra_key k' = extra_key k /\ key_aligned k'.
Proof.
  induction fuel as [|fuel IH]; intros P st cur cd k v total Hinv Hcur Hsp Hka Hf; cbn [insert_loop].
  { exists P, st, cur, 0%nat, [], k. rewrite Nat.add_0_r. split; [done|]. split; [|done].
    apply (walk_stop P st cur cd); auto with lia. }
  destruct (Nat.eqb_spec (key_len k) 0) as [H0|H0].
  { exists P, st, cur, 0%nat, [], k. rewrite Nat.add_0_r. split; [done|]. split; [|done].
    apply (walk_stop P st cur cd); auto with lia. }
  assert (Hpos : (0 < key_len k)%nat) by lia. pose proof (page_le _ Hpos (proj2 Hka)) as Hple.
  rewrite child_key_spec by done. step_ok. change (extra_key k, take page_size (key_iter k)) with (ck k).
  rewrite (deref_ok _ _ _ Hcur). step_ok. destruct (children cd !! ck k) as [child|] eqn:Hch.
  2:{ exists P, st, cur, 0%nat, [], k. rewrite Nat.add_0_r. split; [done|]. split; [|done].
      apply (walk_stop P st cur cd); auto. }
  destruct (found_child P st cur cd k child Hinv Hcur Hka Hpos Hch) as (c0 & Hc0 & _ & _ & _ & _).
  set (st1 := touch child access st). pose proof (touch_sim st child access : sim st st1) as Hs.
  destruct (sim_child _ _ _ _ _ _ _ Hs Hcur Hch Hc0) as (cd1 & c & Hcur1 & Hch1 & Hc & Hkc & Hvc).
  pose proof (inv_sim _ _ _ _ Hs Hinv) as Hinv1.
  destruct (found_child P st1 cur cd1 k child Hinv1 Hcur1 Hka Hpos Hch1)
    as (c' & Hc' & Hr & Hno & He & Hm & Hq0 & Hqd & Hqk). assert (c' = c) as -> by congruence.
  rewrite (deref_ok _ _ _ Hc). step_ok. rewrite Hm. step_ok.
  set (q := (lcp (units c) (key_iter k) / page_size * page_size)%nat) in *.
  assert (Hkq : key_aligned (key_from k q)) by (apply key_from_aligned; [done|lia|done]).
  assert (Hrest : forall k' m, key_iter k' = drop m (key_iter (key_from k q)) -> key_iter k' = drop (q + m) (key_iter k)).
  { intros k' m ->. rewrite key_iter_from, drop_drop by lia. done. }
  assert (Hex : extra_key (key_from k q) = extra_key k) by apply key_fields.
  destruct (Nat.ltb_spec q (key_len (key c))) as [Hlt|Hge].
  - destruct (walk_split time P st1 cur cd1 k child c Hinv1 Hcur1 Hka Hpos Hch1 Hc Hlt) as (P1 & st2 & Hrun & Hval & Hw).
    fold q in Hrun, Hw. rewrite Hrun. step_ok. apply (walk_sim_r _ _ _ _ _ _ _ _ _ _ (visit_sim st2 (counter st1) prio chunked)) in Hw.
    destruct (wk_node _ _ _ _ _ _ _ _ _ _ Hw) as (nd & Hnd & Hndsp).
    destruct (IH P1 (visit (counter st1) prio chunked st2) (counter st1) nd (key_from k q) (drop q v) (total + q)%nat)
      as (P' & st' & n' & m & g & k' & Hrun' & Hw' & Hk' & He' & Ha'); [apply Hw|exact Hnd|by rewrite Hex|done| |].
    { rewrite key_len_from by lia. lia. }
    exists P', st', n', (q + m)%nat, (take q (seg c) ++ g), k'. rewrite Hrun', drop_drop, Nat.add_assoc. split; [done|].
    split; [|split; [by apply Hrest|split; [congruence|done]]].
    apply (walk_sim P st st1); [done|]. by eapply walk_compose.
  - assert (Hqe : q = key_len (key c)) by lia.
    set (st2 := visit child prio chunked st1). pose proof (visit_sim st1 child prio chunked : sim st1 st2) as Hs2.
    destruct (sim_child _ _ _ _ _ _ _ Hs2 Hcur1 Hch1 Hc) as (cd2 & c2 & Hcur2 & Hch2 & Hc2 & Hkc2 & Hvc2).
    pose proof (inv_sim _ _ _ _ Hs2 Hinv1) as Hinv2.
    assert (Hu2 : units c2 = units c) by (unfold units; by rewrite Hkc2).
    destruct (IH P st2 child c2 (key_from k q) (drop q v) (total + q)%nat)
      as (P' & st' & n' & m & g & k' & Hrun' & Hw' & Hk' & He' & Ha'); [done|done| |done| |].
    { right. congruence. }
    { rewrite key_len_from by lia. lia. }
    exists P', st', n', (q + m)%nat, (seg c2 ++ g), k'. rewrite Hrun', drop_drop, Nat.add_assoc. split; [done|].
    split; [|split; [by apply Hrest|split; [congruence|done]]].
    apply (walk_sim P st st2); [by etransitivity|]. rewrite Hqe, <- Hkc2 in *.
    apply (walk_step P st2 cur cd2 k child c2); try done. by rewrite Hu2.
Qed.
End walk.

(** ** Adding a leaf *)

(** The leaf set is right everywhere but possibly at the nodes of [X]. *)
Definition leaves_but (X : gset nat) (m : gmap nat tree_node) (l : gset nat) : Prop :=
  forall n, n ∉ X -> n ∈ l <-> exists nd, m !! n = Some nd /\ lock_ref nd = 0 /\ children nd = ∅.

Lemma update_leaf_status_spec X n nd st :
  nodes st !! n = Some nd -> 0 <= lock_ref nd -> leaves_but X (nodes st) (evictable_leaves st) ->
  exists l, update_leaf_status n st = set_leaves st l /\ leaves_but (X ∖ {[n]}) (nodes st) l.
Proof.
  intros Hn Hlk Hl. unfold update_leaf_status. rewrite (lookup_total_correct _ _ _ Hn).
  assert (Hother : forall x, x <> n -> x ∉ X ∖ {[n]} -> x ∉ X) by set_solver.
  destruct (Z.ltb_spec 0 (lock_ref nd)) as [Hpos|Hle]; [|case_bool_decide as Hch].
  - eexists. split; [done|]. intros x Hx. destruct (decide (x = n)) as [->|Hne].
    + split; [set_solver|]. intros (nd' & Hn' & H0 & _). assert (nd' = nd) as -> by congruence. lia.
    + rewrite <- (Hl x) by auto. set_solver.
  - eexists. split; [done|]. intros x Hx. destruct (decide (x = n)) as [->|Hne].
    + split; [|set_solver]. intros _. exists nd. split; [done|]. split; [lia|done].
    + rewrite <- (Hl x) by auto. set_solver.
  - eexists. split; [done|]. intros x Hx. destruct (decide (x = n)) as [->|Hne].
    + split; [set_solver|]. intros (nd' & Hn' & _ & He). assert (nd' = nd) as -> by congruence. done.
    + rewrite <- (Hl x) by auto. set_solver.
Qed.

Section leaf.
Context (time : nat -> Z) (P : nat -> list nat) (L : list nat) (st : radix) (Hinv : inv P L st).
Context (n : nat) (nd : tree_node) (k : radix_key) (v : list Z) (prio : Z) (chunked : bool).
Context (Hn : nodes st !! n = Some nd) (Hsp : in_space st n nd (extra_key k)) (Hk : key_good k).
Context (Hfree : children nd !! ck k = None) (Hv : length v = key_len k).

Let new : nat := counter st.
Let leaf : tree_node :=
  TreeNode ∅ (Some n) k v 0 (time (clock st)) (time (S (clock st))) (if chunked then 0 else 1) prio.
Let above : tree_node := set_children nd (<[ck k := new]> (children nd)).

Definition leaf_path (h : nat) : list nat := if decide (h = new) then P n ++ [new] else P h.

Lemma leaf_distinct h hd : nodes st !! h = Some hd -> h <> new.
Proof.
  exact (fresh_id P L st h hd Hinv).
Qed.

Lemma new_fresh : nodes st !! new = None.
Proof. destruct (nodes st !! new) as [x|] eqn:Hx; [|done]. by apply leaf_distinct in Hx. Qed.

Definition leaf_nodes : gmap nat tree_node := <[n := above]> (<[new := leaf]> (nodes st)).

Lemma leaf_lookup x :
  leaf_nodes !! x = if decide (x = n) then Some above else if decide (x = new) then Some leaf else nodes st !! x.
Proof.
  unfold leaf_nodes. destruct (decide (x = n)) as [->|]; [by rewrite lookup_insert_eq|].
  rewrite lookup_insert_ne by done. destruct (decide (x = new)) as [->|]; [by rewrite lookup_insert_eq|].
  by rewrite lookup_insert_ne.
Qed.

Lemma leaf_cases x xd :
  leaf_nodes !! x = Some xd ->
  (x = new /\ xd = leaf) \/
  (x <> new /\ exists od, nodes st !! x = Some od /\ lock_ref xd = lock_ref od /\ key xd = key od /\
     value xd = value od /\ parent xd = parent od /\ (x = n /\ xd = above \/ (x <> n /\ xd = od))).
Proof.
  pose proof (leaf_distinct n nd Hn). rewrite leaf_lookup. case_decide as H1; [subst x|].
  - intros [= <-]. right. split; [done|]. exists nd. by repeat (split; [done|]); left.
  - case_decide as H2; [subst x; intros [= <-]; by left|]. intros Hx. right. split; [done|].
    exists xd. by repeat (split; [done|]); right.
Qed.

Lemma leaf_old x xd : nodes st !! x = Some xd -> exists xd', leaf_nodes !! x = Some xd' /\ key xd' = key xd /\ value xd' = value xd.
Proof.
  intros Hx. pose proof (leaf_distinct x xd Hx). rewrite leaf_lookup. case_decide; [subst x|rewrite decide_False by done].
  - exists above. assert (xd = nd) as -> by congruence. done.
  - by exists xd.
Qed.

Lemma leaf_path_old x xd : nodes st !! x = Some xd -> leaf_path x = P x.
Proof. intros Hx. unfold leaf_path. rewrite decide_False; [done|]. by apply (leaf_distinct x xd). Qed.

Lemma leaf_locks x : locks_on leaf_path L x = locks_on P L x.
Proof.
  destruct Hinv as [_ HL]. apply locks_on_ext. intros h Hh. destruct (HL h Hh) as [hd Hhd].
  by rewrite (leaf_path_old h hd).
Qed.

Lemma leaf_no_locks : locks_on P L new = 0.
Proof.
  destruct Hinv as [Hok HL]. unfold locks_on.
  destruct (filter (fun h => new ∈ P h) L) as [|h l] eqn:He; [done|exfalso].
  assert (Hin : h ∈ filter (fun h => new ∈ P h) L) by (rewrite He; by left).
  apply list_elem_of_filter in Hin as [Hin HhL]. destruct (HL h HhL) as [hd Hh].
  destruct (path_mem _ _ _ Hok h hd new Hh Hin) as (xd & _ & Hx & _). by apply (leaf_distinct new xd).
Qed.

Lemma leaf_ents st' x xd :
  nodes st' = leaf_nodes -> nodes st !! x = Some xd -> ents leaf_path st' x = ents P st x.
Proof.
  intros Hst Hx. destruct Hinv as [Hok _]. unfold ents. rewrite (leaf_path_old x xd) by done. apply bind_ext_in.
  intros y Hy. destruct (path_mem _ _ _ Hok x xd y Hx Hy) as (yd & _ & Hyd & _).
  destruct (leaf_old y yd Hyd) as (yd' & Hyd' & Hky & Hvy). rewrite Hst.
  rewrite (lookup_total_correct _ _ _ Hyd), (lookup_total_correct _ _ _ Hyd'). unfold seg, units. by rewrite Hky, Hvy.
Qed.

Lemma leaf_node_ok st' x xd :
  nodes st' = leaf_nodes -> root_node st' = root_node st -> leaf_nodes !! x = Some xd -> x <> root_node st ->
  exists p pd, node_ok leaf_path st' x xd p pd.
Proof.
  intros Hst Hroot Hx Hr. destruct Hinv as [Hok _]. destruct (leaf_cases x xd Hx) as [[-> ->]|(Hne & od & Ho & _ & Hk' & Hv' & Hp' & _)].
  - exists n, above. split; try done.
    + by rewrite Hst, leaf_lookup, decide_True.
    + unfold leaf_path at 1. rewrite decide_True by done. by rewrite (leaf_path_old n nd).
    + cbn. by rewrite lookup_insert_eq.
    + rewrite Hroot. apply Hsp.
  - destruct (ok_node _ _ _ Hok x od Ho Hr) as (p & pd & [H1 H2 H3 H4 H5 H6 H7]). exists p.
    pose proof (leaf_path_old p pd H2) as Hpp. destruct (decide (p = n)) as [->|Hpn].
    + exists above. assert (pd = nd) as -> by congruence.
      split; rewrite ?Hk', ?Hv', ?Hp', ?Hroot, ?Hpp, ?(leaf_path_old x od Ho); try done.
      * by rewrite Hst, leaf_lookup, decide_True.
      * cbn. rewrite lookup_insert_ne; [done|]. intros He. congruence.
    + exists pd. split; rewrite ?Hk', ?Hv', ?Hp', ?Hroot, ?Hpp, ?(leaf_path_old x od Ho); try done.
      rewrite Hst, leaf_lookup, decide_False, decide_False; [done|by apply (leaf_distinct p pd)|done].
Qed.

Lemma leaf_child_ok x xd k' y :
  leaf_nodes !! x = Some xd -> children xd !! k' = Some y ->
  exists yd, leaf_nodes !! y = Some yd /\ y <> root_node st /\ parent yd = Some x /\ k' = ck (key yd).
Proof.
  intros Hx Hy. pose proof Hinv as [Hok _].
  assert (Hold : forall od, nodes st !! x = Some od -> children od !! k' = Some y ->
    exists yd, leaf_nodes !! y = Some yd /\ y <> root_node st /\ parent yd = Some x /\ k' = ck (key yd)).
  { intros od Ho Hoy. destruct (ok_child _ _ _ Hok x od k' y Ho Hoy) as (yd & Hyd & ? & ? & ?).
    destruct (decide (y = n)) as [->|Hyn].
    - exists above. assert (yd = nd) as -> by congruence. by rewrite leaf_lookup, decide_True.
    - exists yd. rewrite leaf_lookup, decide_False, decide_False; [done|by apply (leaf_distinct y yd)|done]. }
  destruct (leaf_cases x xd Hx) as [[-> ->]|(Hne & od & Ho & _ & _ & _ & _ & [[-> ->]|[_ ->]])].
  - cbn in Hy. by rewrite lookup_empty in Hy.
  - cbn in Hy. apply lookup_insert_Some in Hy as [[<- <-]|[Hkk Hy]].
    + exists leaf. rewrite leaf_lookup, decide_False, decide_True; [|done|intros He; by apply (leaf_distinct n nd)].
      split; [done|]. split; [|done]. intros He. destruct (ok_root _ _ _ Hok) as (rd & Hrd & _). by apply (leaf_distinct _ rd Hrd).
    + by apply (Hold nd).
  - by apply (Hold od).
Qed.

Lemma leaf_sum f : (forall xd xd', lock_ref xd = lock_ref xd' -> key xd = key xd' -> f xd = f xd') ->
  msum f leaf_nodes = f leaf + msum f (nodes st).
Proof.
  intros Hf. unfold leaf_nodes. rewrite (msum_update f _ n nd); [|rewrite lookup_insert_ne; [done|]].
  - rewrite msum_insert by apply new_fresh. rewrite (Hf above nd) by done. lia.
  - intros He. by apply (leaf_distinct n nd).
Qed.

(** The state [add_leaf] returns. *)
Lemma leaf_run : exists l,
  let st' := RadixTree leaf_nodes (root_node st) (S new) (evictable_size_ st + Z.of_nat (key_len k))
               (protected_size_ st) l (S (S (clock st))) in
  add_leaf time page_size n k v prio chunked st = Ok st' /\ leaves_but ∅ leaf_nodes l.
Proof.
  pose proof (leaf_distinct n nd Hn) as Hnn. destruct Hinv as [Hok _].
  unfold add_leaf. rewrite child_key_spec; [|done|by apply page_le; apply Hk].
  step_ok. fold new.
  rewrite (alter_lookup _ _ n nd) by (by rewrite lookup_insert_ne). fold (ck k). fold above leaf. fold leaf_nodes.
  set (st1 := set_sizes _ _ _).
  assert (Hl0 : leaves_but ({[n]} ∪ {[new]}) (nodes st1) (evictable_leaves st1)).
  { intros x Hx. change (nodes st1) with leaf_nodes. change (evictable_leaves st1) with (evictable_leaves st).
    rewrite (ok_leaves _ _ _ Hok). rewrite leaf_lookup, decide_False, decide_False by set_solver. done. }
  assert (Hln : 0 <= lock_ref nd).
  { destruct (decide (n = root_node st)) as [Hr|Hr].
    - destruct (ok_root _ _ _ Hok) as (rd & Hrd & _ & Hl & _). rewrite <- Hr, Hn in Hrd. injection Hrd as <-. lia.
    - destruct (ok_lock _ _ _ Hok n nd Hn Hr). lia. }
  destruct (update_leaf_status_spec ({[n]} ∪ {[new]}) n above st1) as (l1 & Hu1 & Hl1); [|exact Hln|exact Hl0|].
  { change (leaf_nodes !! n = Some above). by rewrite leaf_lookup, decide_True. }
  rewrite Hu1. destruct (update_leaf_status_spec (({[n]} ∪ {[new]}) ∖ {[n]}) new leaf (set_leaves st1 l1)) as (l2 & Hu2 & Hl2); [|done|exact Hl1|].
  { change (leaf_nodes !! new = Some leaf). by rewrite leaf_lookup, decide_False, decide_True by done. }
  rewrite Hu2. exists l2. split; [done|]. intros x _. apply Hl2. set_solver.
Qed.

Lemma leaf_spec : exists st', add_leaf time page_size n k v prio chunked st = Ok st' /\
  inv leaf_path L st' /\ root_node st' = root_node st /\ nodes st' = leaf_nodes /\
  (forall x xd, nodes st !! x = Some xd -> ents leaf_path st' x = ents P st x) /\
  ents leaf_path st' new = ents P st n ++ zip (key_iter k) v /\
  tree_slots st' ≡ₚ v ++ tree_slots st.
Proof.
  destruct leaf_run as (l & Hrun & Hl). cbv zeta in Hrun. eexists. split; [exact Hrun|]. set (st' := RadixTree _ _ _ _ _ _ _).
  pose proof Hinv as [Hok HL]. pose proof (leaf_distinct n nd Hn) as Hnn.
  assert (Hleaf : leaf_nodes !! new = Some leaf) by (by rewrite leaf_lookup, decide_False, decide_True by done).
  split; [split; [split|]|].
  - destruct (ok_root _ _ _ Hok) as (rd & Hrd & H1 & H2 & H3 & H4). change (nodes st') with leaf_nodes.
    change (root_node st') with (root_node st). rewrite leaf_lookup. case_decide as Hd.
    + exists above. rewrite Hd in Hrd. assert (rd = nd) as -> by congruence. done.
    + rewrite decide_False by (by apply (leaf_distinct _ rd)). by exists rd.
  - destruct (ok_root _ _ _ Hok) as (rd & Hrd & _). change (root_node st') with (root_node st).
    rewrite (leaf_path_old _ rd) by done. apply (ok_top _ _ _ Hok).
  - intros x xd. apply (leaf_node_ok st' x xd); done.
  - apply leaf_child_ok.
  - intros x [xd Hx]. change (counter st') with (S new). destruct (leaf_cases x xd Hx) as [[-> _]|(_ & od & Ho & _)]; [lia|].
    pose proof (ok_fresh _ _ _ Hok x ltac:(by exists od)). unfold new. lia.
  - intros x xd Hx Hr. rewrite leaf_locks. destruct (leaf_cases x xd Hx) as [[-> ->]|(_ & od & Ho & -> & _)].
    + rewrite leaf_no_locks. done.
    + by apply (ok_lock _ _ _ Hok x od).
  - intros x. apply Hl. set_solver.
  - change (evictable_size_ st') with (evictable_size_ st + Z.of_nat (key_len k)). change (nodes st') with leaf_nodes.
    rewrite leaf_sum by (by intros ? ? -> ->). rewrite (ok_evictable _ _ _ Hok). cbn. lia.
  - change (protected_size_ st') with (protected_size_ st). change (nodes st') with leaf_nodes.
    rewrite leaf_sum by (by intros ? ? -> ->). rewrite (ok_protected _ _ _ Hok). cbn. lia.
  - intros h Hh. destruct (HL h Hh) as [hd Hhd]. destruct (leaf_old h hd Hhd) as (hd' & ? & _). by exists hd'.
  - split; [done|]. split; [done|]. split; [intros x xd; by apply (leaf_ents st')|]. split.
    + unfold ents at 1. unfold leaf_path at 1. rewrite decide_True, bind_app by done.
      rewrite <- (leaf_path_old n nd Hn). change (leaf_path n ≫= _) with (ents leaf_path st' n).
      rewrite (leaf_ents st' n nd) by done. f_equal. cbn. rewrite app_nil_r. by rewrite (lookup_total_correct _ _ _ Hleaf).
    + unfold tree_slots. change (nodes st') with leaf_nodes. unfold leaf_nodes. etransitivity.
      { symmetry. apply (mcat_update value (<[new := leaf]> (nodes st)) n nd above []);
          [by rewrite lookup_insert_ne|by rewrite app_nil_r]. }
      by rewrite mcat_insert by apply new_fresh.
Qed.
End leaf.

(** ** The path of a node, computed *)

Fixpoint path_loop (fuel : nat) (st : radix) (n : nat) : list nat :=
  match fuel with
  | O => []
  | S fuel =>
      if decide (n = root_node st) then [] else
      match nodes st !! n with
      | Some nd => match parent nd with Some p => path_loop fuel st p ++ [n] | None => [n] end
      | None => []
      end
  end.

(** [parent] links followed up to the root, written from the top. *)
Definition path (st : radix) (n : nat) : list nat := path_loop (base.size (nodes st)) st n.

Lemma path_short P lk st n nd : tree_ok P lk st -> nodes st !! n = Some nd -> (length (P n) < base.size (nodes st))%nat.
Proof.
  intros Hok Hn. destruct (ok_root _ _ _ Hok) as (rd & Hrd & _).
  assert (Hsub : (root_node st :: P n) ⊆+ (map_to_list (nodes st)).*1).
  { apply NoDup_submseteq.
    - apply NoDup_cons. split; [|by apply (path_NoDup P lk st Hok n nd)].
      intros Hin. destruct (path_mem _ _ _ Hok n nd _ Hn Hin) as (_ & _ & _ & Hr & _). done.
    - intros x Hx. apply list_elem_of_fmap. apply elem_of_cons in Hx as [->|Hx].
      + exists (root_node st, rd). split; [done|]. by apply elem_of_map_to_list.
      + destruct (path_mem _ _ _ Hok n nd x Hn Hx) as (xd & _ & Hxd & _). exists (x, xd). split; [done|].
        by apply elem_of_map_to_list. }
  apply submseteq_length in Hsub. rewrite length_fmap, length_map_to_list in Hsub. cbn in Hsub. lia.
Qed.

Lemma path_eq P lk st n nd : tree_ok P lk st -> nodes st !! n = Some nd -> path st n = P n.
Proof.
  intros Hok Hn. unfold path. pose proof (path_short P lk st n nd Hok Hn) as Hs.
  remember (base.size (nodes st)) as f eqn:Hf. clear Hf. revert n nd Hn Hs.
  induction f as [|f IH]; intros n nd Hn Hs; [lia|]. cbn [path_loop].
  destruct (decide (n = root_node st)) as [->|Hr]; [by rewrite (ok_top _ _ _ Hok)|].
  destruct (ok_node _ _ _ Hok n nd Hn Hr) as (p & pd & [H1 H2 H3 _ _ _ _]). rewrite Hn, H1.
  rewrite (IH p pd H2), H3; [done|]. rewrite H3, length_app in Hs. cbn in Hs. lia.
Qed.

Lemma ents_ext P P' lk st n nd : tree_ok P lk st -> (forall x xd, nodes st !! x = Some xd -> P' x = P x) ->
  nodes st !! n = Some nd -> ents P' st n = ents P st n.
Proof. intros Hok He Hn. unfold ents. by rewrite (He n nd). Qed.

Lemma inv_ext P P' L st : inv P L st -> (forall x xd, nodes st !! x = Some xd -> P' x = P x) -> inv P' L st.
Proof.
  intros [Hok HL] He. assert (Hlk : forall n, locks_on P' L n = locks_on P L n).
  { intros n. apply locks_on_ext. intros h Hh. destruct (HL h Hh) as [hd Hhd]. by rewrite (He h hd). }
  split; [|done]. destruct Hok as [H1 H2 H3 H4 H5 H6 H7 H8 H9]. split; try done.
  - destruct H1 as (rd & Hrd & _). by rewrite (He _ rd).
  - intros n nd Hn Hr. destruct (H3 n nd Hn Hr) as (p & pd & [G1 G2 G3 G4 G5 G6 G7]). exists p, pd. split; try done.
    by rewrite (He n nd), (He p pd).
  - intros n nd Hn Hr. rewrite Hlk. by apply H6.
Qed.

(** The cache is consistent and [L] lists the locks held on it. *)
Definition radix_ok (L : list nat) (st : radix) : Prop := inv (path st) L st.

Lemma radix_ok_of P L st : inv P L st -> radix_ok L st /\
  forall n nd, nodes st !! n = Some nd -> ents (path st) st n = ents P st n.
Proof.
  intros Hi. assert (He : forall x xd, nodes st !! x = Some xd -> path st x = P x).
  { intros x xd Hx. eapply path_eq; [apply Hi|done]. }
  split; [by apply (inv_ext P)|]. intros n nd Hn. eapply ents_ext; [apply Hi|done|done].
Qed.

(** The prefix a node stands for, unit by unit with its slot. *)
Definition prefix_at (st : radix) (n : nat) : list (list Z * Z) := ents (path st) st n.

(** [g] is cached in the namespace [e]. *)
Definition cached_as (st : radix) (e : option string) (g : list (list Z * Z)) : Prop :=
  exists n nd, nodes st !! n = Some nd /\ in_space st n nd e /\ g `prefix_of` prefix_at st n.

(** ** match_prefix and insert *)

Definition view (k : radix_key) : radix_key :=
  page_aligned page_size (fst (maybe_to_bigram_view is_eagle k None)).

(** A key is built either raw or already in the cache's view. *)
Definition viewable (k : radix_key) : Prop := is_bigram k = true -> is_eagle = true.

Lemma view_spec k : viewable k -> key_aligned (view k) /\ extra_key (view k) = extra_key k /\
  key_len (view k) = (key_len (fst (maybe_to_bigram_view is_eagle k None)) / page_size * page_size)%nat.
Proof.
  intros Hv. unfold view. set (k' := fst _).
  assert (Hk' : is_bigram k' = is_eagle /\ extra_key k' = extra_key k).
  { unfold k', maybe_to_bigram_view. destruct is_eagle eqn:Hee, (is_bigram k) eqn:Hb; cbn; try done.
    exfalso. specialize (Hv Hb). congruence. }
  destruct Hk' as [Hb He]. destruct (page_aligned_spec k' page_size page_pos) as (Hi & Hx & Hy & Hd).
  split; [split; [congruence|done]|]. split; [congruence|].
  rewrite <- length_key_iter, Hi, length_take, length_key_iter.
  pose proof (Nat.Div0.mul_div_le (key_len k') page_size). lia.
Qed.

Lemma walk_root_stop P L st k : inv P L st -> key_len k = 0%nat -> walked P L st (root_node st) k P st (root_node st) 0 [].
Proof.
  intros Hi H0. destruct (ok_root _ _ _ (proj1 Hi)) as (rd & Hrd & _).
  apply (walk_stop L P st _ rd); [done|done|by left|by left].
Qed.

Lemma match_prefix_spec time P L st k :
  inv P L st -> viewable k ->
  exists P' st' n' m g, match_prefix time false page_size is_eagle k st = Ok (g.*2, n', st') /\
    walked P L st (root_node st) (view k) P' st' n' m g.
Proof.
  intros Hi Hv. destruct (view_spec k Hv) as (Hka & He & Hlen). unfold match_prefix, view in *.
  destruct (maybe_to_bigram_view is_eagle k None) as [k' v'] eqn:Hk'. cbn [fst orb] in *.
  destruct (Nat.eqb_spec (key_len k') 0) as [H0|H0].
  { exists P, st, (root_node st), 0%nat, []. split; [done|]. apply walk_root_stop; [done|].
    rewrite Hlen, H0, Nat.Div0.div_0_l. done. }
  destruct (Nat.eqb_spec (key_len (page_aligned page_size k')) 0) as [H1|H1].
  { exists P, st, (root_node st), 0%nat, []. split; [done|]. by apply walk_root_stop. }
  unfold match_prefix_helper. set (st1 := touch _ _ _).
  assert (Hs : sim st st1). { etransitivity; [apply clock_sim|apply touch_sim]. }
  pose proof (inv_sim _ _ _ _ Hs Hi) as Hi1. destruct (ok_root _ _ _ (proj1 Hi1)) as (rd & Hrd & _).
  rewrite <- (sim_root _ _ Hs) in Hrd.
  destruct (match_loop_spec L time (key_len (page_aligned page_size k')) (time (clock st)) P st1 (root_node st) rd
    (page_aligned page_size k') []) as (P' & st' & n' & m & g & Hrun & Hw); try done.
  { left. symmetry. apply Hs. }
  exists P', st', n', m, g. split; [exact Hrun|]. by apply (walk_sim L P st st1).
Qed.

(** Where the walk stopped short of the key, no child continues it. *)
Lemma walked_stuck P L st k P' st' n' nd' m g k' :
  inv P L st -> walked P L st (root_node st) k P' st' n' m g -> nodes st' !! n' = Some nd' ->
  key_iter k' = drop m (key_iter k) -> extra_key k' = extra_key k -> (page_size <= key_len k')%nat ->
  children nd' !! ck k' = None.
Proof.
  intros Hi [Hi' Hrf _ He Hu [Hm Hmd] Hlong] Hn' Hk' Hx Hlen.
  destruct (children nd' !! ck k') as [x|] eqn:Hch; [exfalso|done].
  destruct (ok_child _ _ _ (proj1 Hi') n' nd' _ x Hn' Hch) as (xd & Hxd & Hxr & Hxp & Hxk).
  destruct (ok_node _ _ _ (proj1 Hi') x xd Hxd Hxr) as (p & pd & Hno). pose proof (no_parent _ _ _ _ _ _ Hno) as Hpar.
  rewrite Hxp in Hpar. injection Hpar as <-. pose proof (ents_child _ _ _ _ _ _ Hno Hxd) as Hex.
  destruct (seg_units xd (no_value _ _ _ _ _ _ Hno)) as [Hsu _]. injection Hxk as Hxe Hxt.
  rewrite (rf_root _ _ _ _ Hrf) in Hxr.
  destruct (rf_back _ _ _ _ Hrf x xd Hxd Hxr) as (h & hd & Hh & Hhr & Hhe & [G HG]).
  assert (Hroot : ents P st (root_node st) = []) by (unfold ents; by rewrite (ok_top _ _ _ (proj1 Hi))).
  rewrite Hroot in He. cbn [app] in He.
  assert (Hle : (m + page_size <= lcp (ents P st h).*1 (key_iter k))%nat).
  { apply lcp_max.
    - rewrite HG, Hex, He, !fmap_app, !length_app, Hu, Hsu, length_take, length_key_iter. unfold units.
      rewrite length_key_iter. pose proof (page_le _ (proj1 (proj2 (no_key _ _ _ _ _ _ Hno))) (proj2 (proj2 (no_key _ _ _ _ _ _ Hno)))). lia.
    - rewrite HG, Hex, He, !fmap_app, Hu, Hsu, <- app_assoc.
      rewrite take_app_add' by (rewrite length_take, length_key_iter; lia).
      rewrite <- (take_take_drop (key_iter k) m page_size). f_equal. rewrite <- Hk', Hxt.
      apply take_app_le. unfold units. rewrite length_key_iter.
      by apply page_le; apply Hno.
    - rewrite length_key_iter. rewrite <- (length_key_iter k'), Hk', length_drop, length_key_iter in Hlen. lia. }
  pose proof (Hlong h hd (ents P st h).*1 Hh) as Hl. rewrite Hroot in Hl. cbn [fmap list_fmap app] in Hl.
  assert (Hsp : in_space st h hd (extra_key k)) by (right; congruence).
  specialize (Hl Hsp (or_introl eq_refl) eq_refl).
  assert (Hfl : (m + page_size <= lcp (ents P st h).*1 (key_iter k) / page_size * page_size)%nat); [|lia].
  destruct Hmd as [d ->]. replace (d * page_size + page_size)%nat with (S d * page_size)%nat by lia.
  apply Nat.mul_le_mono_r. apply Nat.div_le_lower_bound; lia.
Qed.

(** What [insert] does to the tree: [m] units were there with the slots of
    [g]; the rest of the key is added with the rest of the value. *)
Record inserted (P : nat -> list nat) (L : list nat) (st : radix) (k : radix_key) (v : list Z)
    (P' : nat -> list nat) (st' : radix) (m : nat) (g : list (list Z * Z)) : Prop := {
  in_inv : inv P' L st';
  in_root : root_node st' = root_node st;
  in_keep n nd : nodes st !! n = Some nd -> exists nd', nodes st' !! n = Some nd' /\
    extra_key (key nd') = extra_key (key nd) /\ ents P' st' n = ents P st n;
  in_full : exists n' nd', nodes st' !! n' = Some nd' /\ in_space st' n' nd' (extra_key k) /\
    ents P' st' n' = g ++ zip (drop m (key_iter k)) (drop m v);
  in_back x xd : nodes st' !! x = Some xd -> x <> root_node st ->
    (exists n nd, nodes st !! n = Some nd /\ n <> root_node st /\ extra_key (key nd) = extra_key (key xd) /\
       ents P' st' x `prefix_of` ents P st n) \/
    (extra_key (key xd) = extra_key k /\ ents P' st' x = g ++ zip (drop m (key_iter k)) (drop m v));
  in_slots : tree_slots st' ≡ₚ drop m v ++ tree_slots st;
  in_units : g.*1 = take m (key_iter k);
  in_len : (m <= key_len k)%nat /\ Nat.divide page_size m;
  in_old : exists h hd, nodes st !! h = Some hd /\ in_space st h hd (extra_key k) /\ g `prefix_of` ents P st h;
  in_longest h hd : nodes st !! h = Some hd -> in_space st h hd (extra_key k) ->
    (lcp (ents P st h).*1 (key_iter k) / page_size * page_size <= m)%nat;
}.

(** A walk down from the root, as an insertion of nothing. *)
Lemma walked_inserted P L st k v P' st' n' m g :
  inv P L st -> walked P L st (root_node st) k P' st' n' m g -> drop m v = [] -> inserted P L st k v P' st' m g.
Proof.
  intros Hi [Hi' Hrf (nd' & Hn' & Hsp') He Hu Hm Hlong] Hv.
  assert (Hroot : ents P st (root_node st) = []) by (unfold ents; by rewrite (ok_top _ _ _ (proj1 Hi))).
  rewrite Hroot in He. cbn [app] in He.
  assert (Hz : zip (drop m (key_iter k)) (drop m v) = []) by (rewrite Hv; by destruct (drop m (key_iter k))).
  split; try done; rewrite ?Hz, ?app_nil_r.
  - apply Hrf.
  - apply Hrf.
  - by exists n', nd'.
  - intros x xd Hx Hr. left. by apply (rf_back _ _ _ _ Hrf).
  - rewrite Hv. apply Hrf.
  - destruct (decide (n' = root_node st)) as [->|Hr].
    + destruct (ok_root _ _ _ (proj1 Hi)) as (rd & Hrd & _). exists (root_node st), rd. split; [done|]. split; [by left|].
      rewrite <- He. unfold ents at 1. rewrite <- (rf_root _ _ _ _ Hrf), (ok_top _ _ _ (proj1 Hi')). apply prefix_nil.
    + destruct (rf_back _ _ _ _ Hrf n' nd' Hn' Hr) as (h & hd & Hh & Hhr & Hhe & Hpre). exists h, hd.
      split; [done|]. split; [|by rewrite <- He]. right. destruct Hsp' as [Hc|?]; [|congruence].
      rewrite (rf_root _ _ _ _ Hrf) in Hc. done.
  - intros h hd Hh Hs. apply (Hlong h hd); try done; [by left|]. by rewrite Hroot.
Qed.

Lemma insert_helper_spec time P L st k v prio chunked :
  inv P L st -> key_aligned k -> length v = key_len k ->
  exists P' st' m g, insert_helper time page_size (root_node st) k v prio chunked st = Ok (m, st') /\
    inserted P L st k v P' st' m g.
Proof.
  intros Hi Hka Hv. unfold insert_helper. set (st1 := set_nodes _ _).
  assert (Hs : sim st st1). { etransitivity; [apply clock_sim|by apply stats_sim]. }
  pose proof (inv_sim _ _ _ _ Hs Hi) as Hi1.
  destruct (Nat.eqb_spec (key_len k) 0) as [H0|H0].
  { exists P, st1, 0%nat, []. split; [done|]. apply (walked_inserted P L st k v P st1 (root_node st)); [done| |].
    - apply (walk_sim_r L P st _ _ P st); [done|]. by apply walk_root_stop.
    - apply length_zero_iff_nil. rewrite length_drop. lia. }
  destruct (ok_root _ _ _ (proj1 Hi1)) as (rd & Hrd & _). rewrite <- (sim_root _ _ Hs) in Hrd.
  destruct (insert_loop_spec L time (key_len k) (default 0 prio) chunked (time (clock st)) P st1 (root_node st) rd k v 0)
    as (P1 & st2 & n & m & g & k' & Hrun & Hw & Hk' & Hx' & Hka'); try done.
  { left. symmetry. apply Hs. }
  rewrite Hrun. step_ok. cbn [plus].
  apply (walk_sim L P st st1) in Hw; [|done].
  destruct (wk_len _ _ _ _ _ _ _ _ _ _ Hw) as [Hml Hmd].
  assert (Hlk' : key_len k' = (key_len k - m)%nat) by (by rewrite <- length_key_iter, Hk', length_drop, length_key_iter).
  destruct (Nat.eqb_spec (key_len k') 0) as [H1|H1].
  { exists P1, st2, m, g. split; [done|]. apply (walked_inserted P L st k v P1 st2 n); [done|done|].
    apply length_zero_iff_nil. rewrite length_drop. lia. }
  destruct (wk_node _ _ _ _ _ _ _ _ _ _ Hw) as (nd & Hnd & Hndsp).
  assert (Hkg : key_good k') by (split; [apply Hka'|split; [lia|apply Hka']]).
  assert (Hstuck : children nd !! ck k' = None).
  { eapply walked_stuck; [exact Hi|exact Hw|done|done|done|]. by apply page_le; apply Hkg. }
  pose proof (wk_inv _ _ _ _ _ _ _ _ _ _ Hw) as Hi2.
  destruct (leaf_spec time P1 L st2 Hi2 n nd k' (drop m v) (default 0 prio) chunked) as
    (st3 & Hadd & Hi3 & Hr3 & Hn3 & Hold & Hnew & Hslots); try done; [by rewrite Hx'|rewrite length_drop; lia|].
  rewrite Hadd. step_ok.
  exists (leaf_path P1 st2 n), st3, m, g. split; [done|].
  assert (Hbase : inserted P L st k (take m v) P1 st2 m g).
  { apply (walked_inserted P L st k _ P1 st2 n); [done|done|]. apply length_zero_iff_nil. rewrite length_drop, length_take. lia. }
  destruct Hbase as [_ Hr _ _ _ _ Hu _ Ho Hl]. pose proof (wk_refines _ _ _ _ _ _ _ _ _ _ Hw) as Hrf.
  pose proof (wk_ents _ _ _ _ _ _ _ _ _ _ Hw) as He.
  assert (Hroot : ents P st (root_node st) = []) by (unfold ents; by rewrite (ok_top _ _ _ (proj1 Hi))).
  rewrite Hroot in He. cbn [app] in He. rewrite He, Hk' in Hnew.
  pose proof (leaf_lookup time st2 n nd k' (drop m v) (default 0 prio) chunked) as Hlook. rewrite <- Hn3 in Hlook.
  assert (Hne : n <> counter st2) by (by apply (fresh_id P1 L st2 n nd)).
  split; try done.
  - congruence.
  - intros x xd Hx. destruct (rf_keep _ _ _ _ Hrf x xd Hx) as (xd' & Hxd' & Hxe & Hxp).
    pose proof (fresh_id P1 L st2 x xd' Hi2 Hxd') as Hxn. rewrite Hlook. rewrite (Hold x xd' Hxd').
    case_decide as Hd; [|rewrite decide_False by done; by exists xd'].
    eexists. split; [done|]. subst x. assert (xd' = nd) as -> by congruence. done.
  - eexists (counter st2), _. rewrite Hlook, decide_False, decide_True by done. split; [done|]. split; [by right|done].
  - intros x xd Hx Hxr. destruct (decide (x = counter st2)) as [->|Hxn].
    + right. rewrite Hlook, decide_False, decide_True in Hx by done. injection Hx as <-. by split.
    + left. assert (Hxo : exists od, nodes st2 !! x = Some od /\ key od = key xd).
      { rewrite Hlook in Hx. case_decide as Hd; [|rewrite decide_False in Hx by done; by exists xd].
        injection Hx as <-. subst x. by exists nd. }
      destruct Hxo as (od & Hod & <-). rewrite (Hold x od Hod). by apply (rf_back _ _ _ _ Hrf).
  - rewrite Hslots. f_equiv. apply Hrf.
Qed.

Lemma insert_spec time P L st k v prio chunked :
  inv P L st -> viewable k -> (key_len (view k) <= length v)%nat ->
  exists P' st' m g, insert time false page_size is_eagle k (Some v) prio chunked st = Ok (m, st') /\
    inserted P L st (view k) (take (key_len (view k)) v) P' st' m g.
Proof.
  intros Hi Hvw Hv. destruct (view_spec k Hvw) as (Hka & _ & Hlen).
  assert (Hmv : maybe_to_bigram_view is_eagle k (Some v) =
    (fst (maybe_to_bigram_view is_eagle k None),
     Some (if is_eagle && negb (is_bigram k) then take (key_len (fst (maybe_to_bigram_view is_eagle k None))) v else v))).
  { unfold maybe_to_bigram_view. by destruct (is_eagle && negb (is_bigram k)). }
  unfold insert. rewrite Hmv. fold (view k).
  assert (Ht : take (key_len (view k))
      (if is_eagle && negb (is_bigram k) then take (key_len (fst (maybe_to_bigram_view is_eagle k None))) v else v)
      = take (key_len (view k)) v).
  { destruct (is_eagle && negb (is_bigram k)); [|done]. rewrite take_take. f_equal.
    pose proof (Nat.Div0.mul_div_le (key_len (maybe_to_bigram_view is_eagle k None).1) page_size). lia. }
  rewrite Ht. apply insert_helper_spec; [done|done|]. rewrite length_take. lia.
Qed.

(** ** Locks *)

(** Only locks, sizes and the leaf set change. *)
Record lock_only (st st' : radix) : Prop := {
  lo_nodes : (fun nd => set_lock nd 0) <$> nodes st = (fun nd => set_lock nd 0) <$> nodes st';
  lo_root : root_node st = root_node st';
  lo_counter : counter st = counter st';
}.

#[global] Instance lock_only_equiv : Equivalence lock_only.
Proof.
  split.
  - by intros st.
  - intros st st' []. by split.
  - intros st1 st2 st3 [] []. split; congruence.
Qed.

Lemma lock_only_lookup st st' n nd :
  lock_only st st' -> nodes st !! n = Some nd ->
  exists nd', nodes st' !! n = Some nd' /\ children nd' = children nd /\ parent nd' = parent nd /\
    key nd' = key nd /\ value nd' = value nd.
Proof.
  intros [Hs _ _] Hn. apply (f_equal (lookup n)) in Hs. rewrite !lookup_fmap, Hn in Hs.
  destruct (nodes st' !! n) as [nd'|]; [|done]. injection Hs as ? ? ? ? ? ? ? ?. by exists nd'.
Qed.

Lemma lock_only_ents P st st' n : lock_only st st' -> ents P st' n = ents P st n.
Proof.
  intros [Hs _ _]. unfold ents. apply list_bind_ext; [|done]. intros x.
  apply (f_equal (lookup x)) in Hs. rewrite !lookup_fmap in Hs. rewrite !lookup_total_alt.
  destruct (nodes st !! x) as [nd|], (nodes st' !! x) as [nd'|]; try done.
  injection Hs as ?. unfold seg, units. cbn. congruence.
Qed.

Lemma lock_only_slots st st' : lock_only st st' -> tree_slots st' = tree_slots st.
Proof.
  intros [Hs _ _]. assert (He : forall m : gmap nat tree_node, mcat value m = mcat value ((fun nd => set_lock nd 0) <$> m)).
  { intros m. unfold mcat. rewrite map_to_list_fmap, <- !list_fmap_compose, !list_fmap_bind.
    apply list_bind_ext; [|done]. by intros [? nd]. }
  unfold tree_slots. by rewrite He, <- Hs, <- He.
Qed.

Definition evict_part (nd : tree_node) : Z := if lock_ref nd =? 0 then Z.of_nat (key_len (key nd)) else 0.
Definition lock_part (nd : tree_node) : Z := if lock_ref nd =? 0 then 0 else Z.of_nat (key_len (key nd)).

(** One turn of either loop. *)
Lemma lock_step P lk st n nd y e p' :
  tree_ok P lk st -> nodes st !! n = Some nd -> n <> root_node st -> 0 <= y ->
  e = evictable_size_ st - evict_part nd + evict_part (set_lock nd y) ->
  p' = protected_size_ st - lock_part nd + lock_part (set_lock nd y) ->
  let st' := update_leaf_status n (set_nodes (set_sizes st e p') (<[n := set_lock nd y]> (nodes st))) in
  tree_ok P (fun x => if decide (x = n) then y else lk x) st' /\ lock_only st st' /\
  evictable_size_ st' = e /\ base.size (nodes st') = base.size (nodes st).
Proof.
  intros Hok Hn Hr Hy -> -> st'. set (st1 := set_nodes _ _) in st'.
  assert (Hn1 : nodes st1 !! n = Some (set_lock nd y)) by apply lookup_insert_eq.
  assert (Hl0 : leaves_but {[n]} (nodes st1) (evictable_leaves st1)).
  { intros x Hx. change (evictable_leaves st1) with (evictable_leaves st). rewrite (ok_leaves _ _ _ Hok).
    change (nodes st1) with (<[n := set_lock nd y]> (nodes st)). rewrite lookup_insert_ne by set_solver. done. }
  destruct (update_leaf_status_spec {[n]} n _ st1 Hn1 Hy Hl0) as (l & Hu & Hl).
  assert (Hst' : st' = set_leaves st1 l) by done. rewrite Hst'. clear st' Hst' Hu.
  assert (Hlook : forall x xd, nodes (set_leaves st1 l) !! x = Some xd -> exists od, nodes st !! x = Some od /\
    children xd = children od /\ parent xd = parent od /\ key xd = key od /\ value xd = value od /\
    lock_ref xd = if decide (x = n) then y else lock_ref od).
  { intros x xd. change (nodes (set_leaves st1 l)) with (<[n := set_lock nd y]> (nodes st)). destruct (decide (x = n)) as [->|Hne].
    - rewrite lookup_insert_eq. intros [= <-]. by exists nd.
    - rewrite lookup_insert_ne by done. intros Hx. by exists xd. }
  assert (Hback : forall x od, nodes st !! x = Some od -> exists xd, nodes (set_leaves st1 l) !! x = Some xd /\
    children xd = children od /\ parent xd = parent od /\ key xd = key od /\ value xd = value od /\
    (x <> n -> xd = od)).
  { intros x od Hx. change (nodes (set_leaves st1 l)) with (<[n := set_lock nd y]> (nodes st)). destruct (decide (x = n)) as [->|Hne].
    - rewrite lookup_insert_eq. assert (od = nd) as -> by congruence. by exists (set_lock nd y).
    - rewrite lookup_insert_ne by done. by exists od. }
  split; [split|].
  - destruct (ok_root _ _ _ Hok) as (rd & Hrd & ?). destruct (Hback _ _ Hrd) as (rd' & Hrd' & _ & _ & _ & _ & He).
    exists rd'. split; [done|]. by rewrite He.
  - apply (ok_top _ _ _ Hok).
  - intros x xd Hx Hxr. destruct (Hlook x xd Hx) as (od & Ho & _ & H2 & H3 & H4 & _).
    destruct (ok_node _ _ _ Hok x od Ho Hxr) as (p & pd & [G1 G2 G3 G4 G5 G6 G7]).
    destruct (Hback p pd G2) as (pd' & Hpd' & K1 & _ & K3 & _). exists p, pd'.
    split; rewrite ?H2, ?H3, ?H4, ?K1, ?K3; done.
  - intros p pd k c Hp Hk. destruct (Hlook p pd Hp) as (od & Ho & H1 & _). rewrite H1 in Hk.
    destruct (ok_child _ _ _ Hok p od k c Ho Hk) as (cd & Hcd & ? & ? & ?).
    destruct (Hback c cd Hcd) as (cd' & ? & _ & K2 & K3 & _). exists cd'. by rewrite K2, K3.
  - intros x [xd Hx]. destruct (Hlook x xd Hx) as (od & Ho & _). apply (ok_fresh _ _ _ Hok). by exists od.
  - intros x xd Hx Hxr. destruct (Hlook x xd Hx) as (od & Ho & _ & _ & _ & _ & ->).
    case_decide; [done|]. by apply (ok_lock _ _ _ Hok x od).
  - intros x. apply Hl. set_solver.
  - change (evictable_size_ st - evict_part nd + evict_part (set_lock nd y) =
            msum evict_part (<[n := set_lock nd y]> (nodes st))).
    rewrite (msum_update _ _ n nd) by done. rewrite (ok_evictable _ _ _ Hok). done.
  - change (protected_size_ st - lock_part nd + lock_part (set_lock nd y) =
            msum lock_part (<[n := set_lock nd y]> (nodes st))).
    rewrite (msum_update _ _ n nd) by done. rewrite (ok_protected _ _ _ Hok). done.
  - split; [|split; [done|]].
    + split; try done. change (nodes (set_leaves st1 l)) with (<[n := set_lock nd y]> (nodes st)).
      apply map_eq. intros i. rewrite !lookup_fmap. destruct (decide (n = i)) as [<-|Hne].
      * by rewrite lookup_insert_eq, Hn.
      * by rewrite lookup_insert_ne.
    + apply map_size_insert_Some. by exists nd.
Qed.

Lemma set_sizes_id st : set_sizes st (evictable_size_ st) (protected_size_ st) = st.
Proof. by destruct st. Qed.

Lemma tree_ok_lk P lk lk' st : tree_ok P lk st -> (forall n, lk' n = lk n) -> tree_ok P lk' st.
Proof.
  intros [H1 H2 H3 H4 H5 H6 H7 H8 H9] He. split; try done. intros n nd Hn Hr. rewrite He. by apply H6.
Qed.

(** Locking adds one to every node on the path. *)
Lemma inc_loop_spec P fuel : forall lk st n nd delta,
  tree_ok P lk st -> nodes st !! n = Some nd -> (length (P n) <= fuel)%nat ->
  exists st', inc_loop fuel n delta st = Ok (delta + (evictable_size_ st' - evictable_size_ st), st') /\
    tree_ok P (fun x => lk x + if decide (x ∈ P n) then 1 else 0) st' /\ lock_only st st'.
Proof.
  induction fuel as [|fuel IH]; intros lk st n nd delta Hok Hn Hf; cbn [inc_loop].
  { exists st. split; [f_equal; f_equal; lia|]. split; [|done]. eapply tree_ok_lk; [done|]. intros x.
    destruct (P n); [|cbn in Hf; lia]. rewrite decide_False by apply not_elem_of_nil. lia. }
  destruct (Nat.eqb_spec n (root_node st)) as [->|Hr].
  { exists st. split; [f_equal; f_equal; lia|]. split; [|done]. eapply tree_ok_lk; [done|]. intros x.
    rewrite (ok_top _ _ _ Hok), decide_False by apply not_elem_of_nil. lia. }
  rewrite (deref_ok _ _ _ Hn). step_ok. destruct (ok_lock _ _ _ Hok n nd Hn Hr) as [Hlk Hlk0].
  destruct (ok_node _ _ _ Hok n nd Hn Hr) as (p & pd & [Hpar Hpd HP _ _ _ _]).
  pose proof (lock_step P lk st n nd (lock_ref nd + 1) _ _ Hok Hn Hr ltac:(lia) eq_refl eq_refl) as (Hok1 & Hlo1 & Hev1 & _).
  revert Hok1 Hlo1 Hev1. unfold evict_part, lock_part. cbn [lock_ref set_lock key].
  set (z := Z.of_nat (key_len (key nd))). destruct (Z.eqb_spec (lock_ref nd + 1) 0) as [?|_]; [lia|].
  intros Hok1 Hlo1 Hev1. set (st1 := update_leaf_status _ _) in *.
  set (X := if lock_ref nd =? 0 then (delta - z, set_sizes st (evictable_size_ st - z) (protected_size_ st + z))
            else (delta, st)).
  assert (HX : forall delta' s0, X = (delta', s0) -> delta' = delta + (evictable_size_ st1 - evictable_size_ st) /\
    update_leaf_status n (set_nodes s0 (<[n := set_lock nd (lock_ref nd + 1)]> (nodes s0))) = st1).
  { intros delta' s0. unfold X.
    destruct (Z.eqb_spec (lock_ref nd) 0); intros [= <- <-]; rewrite Hev1; unfold st1.
    - split; [lia|]. rewrite Z.add_0_r, Z.sub_0_r. done.
    - split; [lia|]. rewrite Z.sub_0_r, !Z.add_0_r, Z.sub_add, set_sizes_id. done. }
  destruct X as [delta' s0]. destruct (HX delta' s0 eq_refl) as [-> ->].
  rewrite Hpar. cbn [of_option]. step_ok.
  destruct (lock_only_lookup _ _ _ _ Hlo1 Hpd) as (pd1 & Hpd1 & _).
  destruct (IH _ st1 p pd1 (delta + (evictable_size_ st1 - evictable_size_ st)) Hok1 Hpd1) as (st' & Hrun & Hok' & Hlo').
  { rewrite HP, length_app in Hf. cbn in Hf. lia. }
  exists st'. rewrite Hrun. split; [f_equal; f_equal; lia|]. split; [|by etransitivity].
  eapply tree_ok_lk; [exact Hok'|]. intros x. cbn beta. rewrite HP.
  pose proof (path_NoDup P lk st Hok n nd Hn) as Hnd. rewrite HP in Hnd. apply NoDup_app in Hnd as (_ & Hnd & _).
  destruct (decide (x = n)) as [->|Hne].
  - rewrite decide_True by (apply elem_of_app; right; by left). rewrite decide_False; [lia|].
    intros Hin. apply (Hnd n Hin). by left.
  - destruct (decide (x ∈ P p)) as [Hin|Hin].
    + rewrite decide_True by (apply elem_of_app; by left). lia.
    + rewrite decide_False; [lia|]. intros [?|?%list_elem_of_singleton]%elem_of_app; done.
Qed.

(** Unlocking takes it off again. *)
Lemma dec_loop_spec P fuel : forall lk st n nd delta,
  tree_ok P lk st -> nodes st !! n = Some nd -> (length (P n) <= fuel)%nat -> (forall x, x ∈ P n -> 1 <= lk x) ->
  exists st', dec_loop fuel n delta st = Ok (delta + (evictable_size_ st' - evictable_size_ st), st') /\
    tree_ok P (fun x => lk x - if decide (x ∈ P n) then 1 else 0) st' /\ lock_only st st'.
Proof.
  induction fuel as [|fuel IH]; intros lk st n nd delta Hok Hn Hf Hge; cbn [dec_loop].
  { exists st. split; [f_equal; f_equal; lia|]. split; [|done]. eapply tree_ok_lk; [done|]. intros x.
    destruct (P n); [|cbn in Hf; lia]. rewrite decide_False by apply not_elem_of_nil. lia. }
  destruct (Nat.eqb_spec n (root_node st)) as [->|Hr].
  { exists st. split; [f_equal; f_equal; lia|]. split; [|done]. eapply tree_ok_lk; [done|]. intros x.
    rewrite (ok_top _ _ _ Hok), decide_False by apply not_elem_of_nil. lia. }
  rewrite (deref_ok _ _ _ Hn). step_ok. destruct (ok_lock _ _ _ Hok n nd Hn Hr) as [Hlk Hlk0].
  pose proof (Hge n (path_nonroot P lk st Hok n nd Hn Hr)) as Hge1.
  destruct (ok_node _ _ _ Hok n nd Hn Hr) as (p & pd & [Hpar Hpd HP _ _ _ _]).
  pose proof (lock_step P lk st n nd (lock_ref nd - 1) _ _ Hok Hn Hr ltac:(lia) eq_refl eq_refl) as (Hok1 & Hlo1 & Hev1 & _).
  revert Hok1 Hlo1 Hev1. unfold evict_part, lock_part. cbn [lock_ref set_lock key].
  set (z := Z.of_nat (key_len (key nd))). destruct (Z.eqb_spec (lock_ref nd) 0) as [?|_]; [lia|].
  intros Hok1 Hlo1 Hev1. set (st1 := update_leaf_status _ _) in *.
  set (X := if lock_ref nd =? 1 then (delta + z, set_sizes st (evictable_size_ st + z) (protected_size_ st - z))
            else (delta, st)).
  assert (HX : forall delta' s0, X = (delta', s0) -> delta' = delta + (evictable_size_ st1 - evictable_size_ st) /\
    update_leaf_status n (set_nodes s0 (<[n := set_lock nd (lock_ref nd - 1)]> (nodes s0))) = st1).
  { intros delta' s0. unfold X.
    destruct (Z.eqb_spec (lock_ref nd) 1) as [He|He]; intros [= <- <-]; rewrite Hev1; unfold st1.
    - rewrite He. change (1 - 1 =? 0) with true. cbn iota. split; [lia|]. rewrite Z.sub_0_r, Z.add_0_r. done.
    - destruct (Z.eqb_spec (lock_ref nd - 1) 0); [lia|]. split; [lia|].
      rewrite Z.sub_0_r, !Z.add_0_r, Z.sub_add, set_sizes_id. done. }
  destruct X as [delta' s0]. destruct (HX delta' s0 eq_refl) as [-> ->].
  rewrite Hpar. cbn [of_option]. step_ok.
  destruct (lock_only_lookup _ _ _ _ Hlo1 Hpd) as (pd1 & Hpd1 & _).
  pose proof (path_NoDup P lk st Hok n nd Hn) as Hnd. rewrite HP in Hnd. apply NoDup_app in Hnd as (_ & Hnd & _).
  destruct (IH _ st1 p pd1 (delta + (evictable_size_ st1 - evictable_size_ st)) Hok1 Hpd1) as (st' & Hrun & Hok' & Hlo').
  { rewrite HP, length_app in Hf. cbn in Hf. lia. }
  { intros x Hx. rewrite decide_False by (intros ->; apply (Hnd n Hx); by left). apply Hge. rewrite HP. apply elem_of_app. by left. }
  exists st'. rewrite Hrun. split; [f_equal; f_equal; lia|]. split; [|by etransitivity].
  eapply tree_ok_lk; [exact Hok'|]. intros x. cbn beta. rewrite HP. destruct (decide (x = n)) as [->|Hne].
  - rewrite decide_True by (apply elem_of_app; right; by left). rewrite decide_False; [lia|].
    intros Hin. apply (Hnd n Hin). by left.
  - destruct (decide (x ∈ P p)) as [Hin|Hin].
    + rewrite decide_True by (apply elem_of_app; by left). lia.
    + rewrite decide_False; [lia|]. intros [?|?%list_elem_of_singleton]%elem_of_app; done.
Qed.

Lemma locks_on_cons P L h n : locks_on P (h :: L) n = locks_on P L n + if decide (n ∈ P h) then 1 else 0.
Proof.
  unfold locks_on. rewrite filter_cons. destruct (decide (n ∈ P h)); cbn [length]; lia.
Qed.

Lemma locks_on_perm P L L' n : L ≡ₚ L' -> locks_on P L n = locks_on P L' n.
Proof. intros HL. unfold locks_on. by rewrite HL. Qed.

Lemma inc_lock_ref_spec P L st n nd :
  inv P L st -> nodes st !! n = Some nd ->
  exists st', inc_lock_ref false n st = Ok (evictable_size_ st' - evictable_size_ st, st') /\
    inv P (n :: L) st' /\ lock_only st st'.
Proof.
  intros [Hok HL] Hn. pose proof (path_short P _ st n nd Hok Hn).
  destruct (inc_loop_spec P (base.size (nodes st)) _ st n nd 0 Hok Hn ltac:(lia)) as (st' & Hrun & Hok' & Hlo).
  exists st'. split; [exact Hrun|]. split; [|done]. split.
  - eapply tree_ok_lk; [exact Hok'|]. intros x. apply locks_on_cons.
  - intros h Hh. apply elem_of_cons in Hh as [->|Hh].
    + destruct (lock_only_lookup _ _ _ _ Hlo Hn) as (nd' & ? & _). by exists nd'.
    + destruct (HL h Hh) as [hd Hhd]. destruct (lock_only_lookup _ _ _ _ Hlo Hhd) as (hd' & ? & _). by exists hd'.
Qed.

Lemma dec_lock_ref_spec P L L' st n :
  inv P L st -> L ≡ₚ n :: L' ->
  exists st', dec_lock_ref false n st = Ok (evictable_size_ st' - evictable_size_ st, st') /\
    inv P L' st' /\ lock_only st st'.
Proof.
  intros [Hok HL] Hp. destruct (HL n) as [nd Hn]; [rewrite Hp; by left|]. pose proof (path_short P _ st n nd Hok Hn).
  assert (Hlk : forall x, locks_on P L x = locks_on P L' x + if decide (x ∈ P n) then 1 else 0).
  { intros x. rewrite (locks_on_perm P L (n :: L')) by done. apply locks_on_cons. }
  destruct (dec_loop_spec P (base.size (nodes st)) _ st n nd 0 Hok Hn ltac:(lia)) as (st' & Hrun & Hok' & Hlo).
  { intros x Hx. rewrite Hlk, decide_True by done. unfold locks_on. lia. }
  exists st'. split; [exact Hrun|]. split; [|done]. split.
  - eapply tree_ok_lk; [exact Hok'|]. intros x. cbn beta. rewrite Hlk. lia.
  - intros h Hh. destruct (HL h) as [hd Hhd]; [rewrite Hp; by right|].
    destruct (lock_only_lookup _ _ _ _ Hlo Hhd) as (hd' & ? & _). by exists hd'.
Qed.

(** ** Eviction *)

Section delete.
Context (P : nat -> list nat) (L : list nat) (st : radix) (Hinv : inv P L st).
Context (n : nat) (nd : tree_node) (p : nat) (pd : tree_node).
Context (Hn : nodes st !! n = Some nd) (Hr : n <> root_node st) (Hno : node_ok P st n nd p pd).
Context (Hlk : lock_ref nd = 0) (Hch : children nd = ∅).

Let above : tree_node := set_children pd (delete (ck (key nd)) (children pd)).
Definition rest_nodes : gmap nat tree_node := delete n (<[p := above]> (nodes st)).

Lemma delete_distinct : p <> n.
Proof. exact (parent_ne P st n nd p pd Hno). Qed.

Lemma rest_lookup x :
  rest_nodes !! x = if decide (x = n) then None else if decide (x = p) then Some above else nodes st !! x.
Proof.
  unfold rest_nodes. destruct (decide (x = n)) as [->|]; [by rewrite lookup_delete_eq|].
  rewrite lookup_delete_ne by done. destruct (decide (x = p)) as [->|]; [by rewrite lookup_insert_eq|].
  by rewrite lookup_insert_ne.
Qed.

Lemma rest_cases x xd : rest_nodes !! x = Some xd ->
  x <> n /\ exists od, nodes st !! x = Some od /\ xd = set_children od (children xd) /\ (x = p \/ xd = od).
Proof.
  rewrite rest_lookup. case_decide as H1; [done|]. case_decide as H2.
  - intros [= <-]. split; [done|]. exists pd. subst x. split; [apply Hno|]. split; [done|by left].
  - intros Hx. split; [done|]. exists xd. split; [done|]. split; [by destruct xd|by right].
Qed.

Lemma rest_old x od : nodes st !! x = Some od -> x <> n ->
  exists xd, rest_nodes !! x = Some xd /\ xd = set_children od (children xd) /\ (x <> p -> xd = od).
Proof.
  intros Hx Hne. rewrite rest_lookup, decide_False by done. case_decide as Hd.
  - exists above. subst x. rewrite (no_lookup _ _ _ _ _ _ Hno) in Hx. by injection Hx as <-.
  - exists od. split; [done|]. split; [by destruct od|done].
Qed.

(** Nothing is below a leaf. *)
Lemma leaf_not_in h hd : nodes st !! h = Some hd -> n ∈ P h -> h = n.
Proof.
  intros Hh Hin. destruct (decide (h = n)) as [|Hne]; [done|exfalso]. destruct Hinv as [Hok _].
  destruct (path_below _ _ _ Hok h hd n Hh (or_intror Hin) Hne) as (x & xd & rest & Hx & Hxr & Hxp & _).
  destruct (ok_node _ _ _ Hok x xd Hx Hxr) as (p' & pd' & [G1 G2 _ G4 _ _ _]). rewrite Hxp in G1. injection G1 as <-.
  rewrite Hn in G2. injection G2 as <-. by rewrite Hch, lookup_empty in G4.
Qed.

Lemma unlocked_not_held : n ∉ L.
Proof.
  intros Hin. destruct Hinv as [Hok _]. destruct (ok_lock _ _ _ Hok n nd Hn Hr) as [He _]. rewrite Hlk in He.
  unfold locks_on in He. assert (Hf : n ∈ filter (fun h => n ∈ P h) L).
  { apply list_elem_of_filter. split; [by apply (path_nonroot _ _ _ Hok n nd)|done]. }
  destruct (filter (fun h => n ∈ P h) L) as [|x l]; [by apply not_elem_of_nil in Hf|]. cbn in He. lia.
Qed.

Lemma delete_run : exists l,
  let st' := RadixTree rest_nodes (root_node st) (counter st) (evictable_size_ st - Z.of_nat (key_len (key nd)))
               (protected_size_ st) l (clock st) in
  delete_leaf page_size n st = Ok st' /\ leaves_but ∅ rest_nodes l /\
  l = if bool_decide (children above = ∅) && (lock_ref above =? 0)
      then {[p]} ∪ evictable_leaves st ∖ {[n]} else evictable_leaves st ∖ {[n]}.
Proof.
  pose proof delete_distinct as Hpn. destruct Hinv as [Hok _]. destruct Hno as [Hpar Hpd HP Hlink _ Hkg _].
  unfold delete_leaf. rewrite (deref_ok _ _ _ Hn). step_ok.
  rewrite child_key_spec; [|done|by apply page_le; apply Hkg]. step_ok. fold (ck (key nd)).
  rewrite Hpar. cbn [of_option]. step_ok. rewrite (deref_ok _ _ _ Hpd). step_ok.
  rewrite bool_decide_true by done. cbn [py_assert]. step_ok. fold above. fold rest_nodes.
  set (st1 := set_leaves _ _).
  assert (Hp1 : nodes st1 !! p = Some above).
  { change (rest_nodes !! p = Some above). by rewrite rest_lookup, decide_False, decide_True by done. }
  assert (Hl0 : leaves_but {[p]} (nodes st1) (evictable_leaves st1)).
  { intros x Hx. change (nodes st1) with rest_nodes. change (evictable_leaves st1) with (evictable_leaves st ∖ {[n]}).
    rewrite rest_lookup. case_decide as Hd.
    - split; [set_solver|]. by intros (? & ? & _).
    - rewrite decide_False by set_solver. rewrite <- (ok_leaves _ _ _ Hok). set_solver. }
  assert (Hab : 0 <= lock_ref above).
  { change (lock_ref above) with (lock_ref pd). destruct (decide (p = root_node st)) as [Hpr|Hpr].
    - destruct (ok_root _ _ _ Hok) as (rd & Hrd & _ & Hl & _). rewrite <- Hpr, Hpd in Hrd. injection Hrd as <-. lia.
    - destruct (ok_lock _ _ _ Hok p pd Hpd Hpr). lia. }
  destruct (update_leaf_status_spec {[p]} p above st1 Hp1 Hab Hl0) as (l & Hu & Hl).
  assert (Hpl : p ∉ evictable_leaves st).
  { rewrite (ok_leaves _ _ _ Hok). intros (pd' & Hpd' & _ & He). rewrite Hpd in Hpd'. injection Hpd' as <-.
    by rewrite He, lookup_empty in Hlink. }
  exists l. split; [by rewrite Hu|]. split; [intros x _; apply Hl; set_solver|].
  unfold update_leaf_status in Hu. rewrite (lookup_total_correct _ _ _ Hp1) in Hu.
  apply (f_equal evictable_leaves) in Hu. cbn [evictable_leaves set_leaves st1] in Hu.
  destruct (Z.ltb_spec 0 (lock_ref above)) as [Hpos|Hle].
  - destruct (Z.eqb_spec (lock_ref above) 0); [lia|]. rewrite andb_false_r. rewrite <- Hu. cbn. set_solver.
  - destruct (Z.eqb_spec (lock_ref above) 0); [|lia]. rewrite andb_true_r. case_bool_decide; rewrite <- Hu; cbn; set_solver.
Qed.

Lemma rest_ents st' h hd : nodes st' = rest_nodes -> nodes st !! h = Some hd -> h <> n -> ents P st' h = ents P st h.
Proof.
  intros Hst Hh Hne. destruct Hinv as [Hok _]. unfold ents. apply bind_ext_in. intros x Hx.
  assert (Hxn : x <> n) by (intros ->; by apply Hne, (leaf_not_in h hd)).
  destruct (path_mem _ _ _ Hok h hd x Hh Hx) as (xd & _ & Hxd & _). destruct (rest_old x xd Hxd Hxn) as (xd' & Hxd' & He & _).
  rewrite Hst, (lookup_total_correct _ _ _ Hxd), (lookup_total_correct _ _ _ Hxd'), He. done.
Qed.

Lemma rest_sum f : (forall xd c, f (set_children xd c) = f xd) -> msum f (nodes st) = f nd + msum f rest_nodes.
Proof.
  intros Hf. pose proof delete_distinct as Hpn. unfold rest_nodes.
  assert (Hu : msum f (<[p := above]> (nodes st)) = msum f (nodes st)).
  { rewrite (msum_update f _ p pd) by apply Hno. unfold above. rewrite Hf. lia. }
  rewrite <- Hu. apply (msum_delete f _ n nd). by rewrite lookup_insert_ne.
Qed.

Lemma delete_spec : exists st', delete_leaf page_size n st = Ok st' /\ inv P L st' /\ nodes st' = rest_nodes /\
  root_node st' = root_node st /\
  evictable_size_ st' = evictable_size_ st - Z.of_nat (key_len (key nd)) /\ protected_size_ st' = protected_size_ st /\
  evictable_leaves st' = (if bool_decide (children above = ∅) && (lock_ref above =? 0)
      then {[p]} ∪ evictable_leaves st ∖ {[n]} else evictable_leaves st ∖ {[n]}) /\
  tree_slots st ≡ₚ value nd ++ tree_slots st'.
Proof.
  destruct delete_run as (l & Hrun & Hl & Hle). cbv zeta in Hrun. eexists. split; [exact Hrun|].
  set (st' := RadixTree _ _ _ _ _ _ _). pose proof delete_distinct as Hpn. pose proof Hinv as [Hok HL].
  split; [split; [split|]|].
  - destruct (ok_root _ _ _ Hok) as (rd & Hrd & H1 & H2 & H3 & H4).
    destruct (rest_old _ rd Hrd) as (rd' & Hrd' & He & _); [congruence|]. exists rd'. split; [done|]. by rewrite He.
  - apply (ok_top _ _ _ Hok).
  - intros x xd Hx Hxr. destruct (rest_cases x xd Hx) as (Hxn & od & Ho & Hxs & _). rewrite Hxs. clear Hxs.
    destruct (ok_node _ _ _ Hok x od Ho Hxr) as (q & qd & [G1 G2 G3 G4 G5 G6 G7]).
    assert (Hqn : q <> n).
    { intros ->. rewrite Hn in G2. injection G2 as <-. by rewrite Hch, lookup_empty in G4. }
    destruct (rest_old q qd G2 Hqn) as (qd' & Hqd' & Hqs & Hqe). exists q, qd'. split; try done.
    + cbn [key set_children]. destruct (decide (q = p)) as [->|Hqp]; [|by rewrite (Hqe Hqp)].
      rewrite rest_lookup, decide_False, decide_True in Hqd' by done. injection Hqd' as <-.
      assert (qd = pd) as -> by (pose proof (no_lookup _ _ _ _ _ _ Hno); congruence).
      cbn. rewrite lookup_delete_ne; [done|]. intros He. rewrite <- He, (no_link _ _ _ _ _ _ Hno) in G4. congruence.
    + rewrite Hqs. done.
  - intros x xd k c Hx Hk. destruct (rest_cases x xd Hx) as (Hxn & od & Ho & Hxs & Hxd).
    assert (Hkc : children od !! k = Some c /\ c <> n).
    { destruct (decide (x = p)) as [->|Hxp].
      - rewrite rest_lookup, decide_False, decide_True in Hx by done. injection Hx as <-.
        assert (od = pd) as -> by (pose proof (no_lookup _ _ _ _ _ _ Hno); congruence). cbn in Hk.
        apply lookup_delete_Some in Hk as [Hne Hk]. split; [done|]. intros ->.
        destruct (ok_child _ _ _ Hok p pd k n Ho Hk) as (cd & Hcd & _ & _ & ->). congruence.
      - destruct Hxd as [?|<-]; [done|]. split; [done|]. intros ->.
        destruct (ok_child _ _ _ Hok x xd k n Ho Hk) as (cd & Hcd & _ & Hcp & _). rewrite Hn in Hcd. injection Hcd as <-.
        rewrite (no_parent _ _ _ _ _ _ Hno) in Hcp. congruence. }
    destruct Hkc as [Hk' Hcn]. destruct (ok_child _ _ _ Hok x od k c Ho Hk') as (cd & Hcd & ? & ? & ?).
    destruct (rest_old c cd Hcd Hcn) as (cd' & ? & Hcs & _). exists cd'. split; [done|]. rewrite Hcs. done.
  - intros x [xd Hx]. destruct (rest_cases x xd Hx) as (_ & od & Ho & _). apply (ok_fresh _ _ _ Hok). by exists od.
  - intros x xd Hx Hxr. destruct (rest_cases x xd Hx) as (_ & od & Ho & Hxs & _). rewrite Hxs. by apply (ok_lock _ _ _ Hok x od).
  - intros x. apply Hl. set_solver.
  - change (evictable_size_ st - Z.of_nat (key_len (key nd)) = msum evict_part rest_nodes).
    rewrite (ok_evictable _ _ _ Hok). change (msum evict_part (nodes st) - Z.of_nat (key_len (key nd)) = msum evict_part rest_nodes).
    rewrite rest_sum by done. unfold evict_part at 1. rewrite Hlk. cbn. lia.
  - change (protected_size_ st = msum lock_part rest_nodes). rewrite (ok_protected _ _ _ Hok).
    change (msum lock_part (nodes st) = msum lock_part rest_nodes).
    rewrite rest_sum by done. unfold lock_part at 1. rewrite Hlk. cbn. lia.
  - intros h Hh. destruct (HL h Hh) as [hd Hhd]. destruct (rest_old h hd Hhd) as (hd' & ? & _); [|by exists hd'].
    intros ->. by apply unlocked_not_held.
  - split; [done|]. split; [done|]. split; [done|]. split; [done|]. split; [done|].
    unfold tree_slots. change (nodes st') with rest_nodes. unfold rest_nodes.
    rewrite <- (mcat_delete value (<[p := above]> (nodes st)) n nd) by (by rewrite lookup_insert_ne).
    apply (mcat_update value (nodes st) p pd above []); [apply Hno|by rewrite app_nil_r].
Qed.
End delete.

(** When no leaf can be evicted, nothing can. *)
Lemma no_leaves P L st n nd :
  inv P L st -> evictable_leaves st = ∅ -> nodes st !! n = Some nd -> lock_ref nd <> 0.
Proof.
  intros [Hok HL] He Hn Hlk. assert (Hr : n <> root_node st).
  { intros ->. destruct (ok_root _ _ _ Hok) as (rd & Hrd & _ & Hl & _). rewrite Hn in Hrd. injection Hrd as <-. lia. }
  remember (base.size (nodes st) - length (P n))%nat as d eqn:Hd. revert n nd Hn Hlk Hr Hd.
  induction d as [d IH] using lt_wf_ind. intros n nd Hn Hlk Hr Hd.
  destruct (decide (children nd = ∅)) as [Hc|Hc].
  { assert (Hin : n ∈ evictable_leaves st) by (apply (ok_leaves _ _ _ Hok); by exists nd). set_solver. }
  apply map_choose in Hc as (k & c & Hkc). destruct (ok_child _ _ _ Hok n nd k c Hn Hkc) as (cd & Hcd & Hcr & Hcp & _).
  destruct (ok_node _ _ _ Hok c cd Hcd Hcr) as (p & pd & [G1 _ G3 _ _ _ _]). rewrite Hcp in G1. injection G1 as <-.
  apply (IH (base.size (nodes st) - length (P c))%nat) with (n := c) (nd := cd); try done.
  - pose proof (path_short P _ st c cd Hok Hcd). rewrite G3, length_app in *. cbn in *. lia.
  - destruct (ok_lock _ _ _ Hok c cd Hcd Hcr) as [-> Hge]. destruct (ok_lock _ _ _ Hok n nd Hn Hr) as [Hln _].
    assert (Hle : locks_on P L c <= locks_on P L n); [|lia]. unfold locks_on. apply Nat2Z.inj_le.
    apply filter_length_mono. intros h Hh Hin. destruct (HL h Hh) as [hd Hhd].
    destruct (path_mem _ _ _ Hok h hd c Hhd Hin) as (_ & rest & _ & _ & ->). rewrite G3.
    apply elem_of_app. left. apply elem_of_app. left. by apply (path_nonroot _ _ _ Hok n nd).
Qed.
End invariant.
