(* ===== verification/RadixCacheTheorems.v ===== *)
(** * What the radix cache promises

    The operations of [RadixCache.v] against the meaning of the tree: matching
    returns the longest cached prefix, inserting adds exactly the missing
    suffix, eviction removes minimal unlocked leaves and nothing a client has
    locked, the size counters are exact in every reachable state, and caching a
    request moves its slots without losing or sharing one. *)

From S2P Require Import Prelude Allocator DllmReq MemCommon RadixKey RadixCache RadixCacheProofs.
Import Radix.

(** ** Evictions, abstractly *)

(** Repeatedly remove an evictable leaf that none precedes in the strategy's
    order; the slots of each victim, in order. *)
Inductive evictions (ps : nat) (strat : strategy) : radix -> list (list Z) -> radix -> Prop :=
  | evict_none st : evictions ps strat st [] st
  | evict_more st x nd st1 freed st2 :
      x ∈ evictable_leaves st -> nodes st !! x = Some nd ->
      (forall y, y ∈ evictable_leaves st -> item_lt (item_of strat st y) (item_of strat st x) = false) ->
      delete_leaf ps x st = Ok st1 -> evictions ps strat st1 freed st2 ->
      evictions ps strat st (value nd :: freed) st2.

Section theorems.
Context (ps : nat) (eagle : bool) (ps_pos : (0 < ps)%nat).
Notation inv := (inv ps eagle).
Notation radix_ok := (radix_ok ps eagle).

(** A leaf in the set can be removed. *)
Lemma leaf_facts P L st x :
  inv P L st -> x ∈ evictable_leaves st ->
  exists nd p pd, nodes st !! x = Some nd /\ x <> root_node st /\ node_ok ps eagle P st x nd p pd /\
    lock_ref nd = 0 /\ children nd = ∅.
Proof.
  intros [Hok _] Hx. apply (ok_leaves _ _ _ _ _ Hok) in Hx as (nd & Hn & Hl & Hc).
  assert (Hr : x <> root_node st).
  { intros ->. destruct (ok_root _ _ _ _ _ Hok) as (rd & Hrd & _ & Hlk & _). rewrite Hn in Hrd. injection Hrd as <-. lia. }
  destruct (ok_node _ _ _ _ _ Hok x nd Hn Hr) as (p & pd & Hno). by exists nd, p, pd.
Qed.

Lemma item_of_rest strat st st' n nd p pd x :
  nodes st' = rest_nodes ps st n nd p pd -> nodes st !! p = Some pd -> x <> n -> item_of strat st' x = item_of strat st x.
Proof.
  intros Hst Hp Hx. unfold item_of. rewrite Hst, !lookup_total_alt, rest_lookup, decide_False by done.
  destruct (decide (x = p)) as [->|]; [|done]. rewrite Hp. cbn. by destruct strat.
Qed.

Section loop.
Context `{!HeapQ} (free : list Z -> allocator -> allocator) (strat : strategy) (num_tokens : Z).
Context (P : nat -> list nat) (L : list nat).

(** One turn of the loop: the popped node is a minimal leaf, and the heap that
    is left, with the parent when it became a leaf, is again the leaf set. *)
Lemma evict_turn st heap x heap1 :
  inv P L st -> heap ≡ₚ item_of strat st <$> elements (evictable_leaves st) -> heappop heap = Some (x, heap1) ->
  exists nd p pd st1, nodes st !! hi_node x = Some nd /\ hi_node x ∈ evictable_leaves st /\
    (forall y, y ∈ evictable_leaves st -> item_lt (item_of strat st y) (item_of strat st (hi_node x)) = false) /\
    delete_leaf ps (hi_node x) st = Ok st1 /\ inv P L st1 /\ parent nd = Some p /\ nodes st1 !! p = Some pd /\
    S (base.size (nodes st1)) = base.size (nodes st) /\
    (if bool_decide (children pd = ∅) && (lock_ref pd =? 0) then item_of strat st1 p :: heap1 else heap1) ≡ₚ
      item_of strat st1 <$> elements (evictable_leaves st1).
Proof.
  intros Hi Hh Hpop. pose proof (heappop_perm _ _ _ Hpop) as Hp.
  assert (Hx : x ∈ item_of strat st <$> elements (evictable_leaves st)) by (rewrite <- Hh, Hp; by left).
  apply list_elem_of_fmap in Hx as (n & -> & Hin). apply elem_of_elements in Hin.
  change (hi_node (item_of strat st n)) with n.
  destruct (leaf_facts P L st n Hi Hin) as (nd & p & pd & Hn & Hr & Hno & Hlk & Hch).
  destruct (delete_spec ps eagle ps_pos P L st Hi n nd p pd Hn Hr Hno Hlk Hch)
    as (st1 & Hrun & Hi1 & Hn1 & _ & _ & _ & Hleaves & _).
  pose proof (no_lookup _ _ _ _ _ _ _ _ Hno) as Hpd.
  pose proof (parent_ne ps eagle ps_pos P st n nd p pd Hno) as Hpn.
  set (pd1 := set_children pd (delete (ck ps (key nd)) (children pd))) in *.
  exists nd, p, pd1, st1. split; [done|]. split; [done|]. split; [|split; [done|split; [done|split]]].
  - intros y Hy. apply (heappop_min _ _ _ _ Hpop). rewrite Hh. apply list_elem_of_fmap_2. by apply elem_of_elements.
  - apply Hno.
  - split; [rewrite Hn1, rest_lookup, decide_False, decide_True by done; done|].
    split.
    { rewrite Hn1. unfold rest_nodes. rewrite map_size_delete_Some by (rewrite lookup_insert_ne by done; by exists nd).
      rewrite map_size_insert_Some by (by exists pd).
      assert (base.size (nodes st) <> 0%nat) by (intros H0%map_size_empty_iff; by rewrite H0, lookup_empty in Hn). lia. }
    assert (Hheap1 : heap1 ≡ₚ item_of strat st <$> elements (evictable_leaves st ∖ {[n]})).
    { apply (Permutation_cons_inv (a := item_of strat st n)). rewrite <- Hp, Hh.
      rewrite <- (fmap_cons (item_of strat st) n). f_equiv. rewrite <- elements_union_singleton by set_solver.
      rewrite <- union_difference_singleton_L by done. done. }
    assert (Hpl : p ∉ evictable_leaves st ∖ {[n]}).
    { intros [Hpin _]%elem_of_difference. apply (ok_leaves _ _ _ _ _ (proj1 Hi)) in Hpin as (pd' & Hpd' & _ & He).
      rewrite Hpd in Hpd'. injection Hpd' as <-. pose proof (no_link _ _ _ _ _ _ _ _ Hno) as Hl.
      by rewrite He, lookup_empty in Hl. }
    assert (Hitems : item_of strat st <$> elements (evictable_leaves st ∖ {[n]}) =
                     item_of strat st1 <$> elements (evictable_leaves st ∖ {[n]})).
    { apply list_fmap_ext. intros i y Hy%list_elem_of_lookup_2. symmetry.
      apply (item_of_rest strat st st1 n nd p pd y Hn1 Hpd). apply elem_of_elements in Hy. set_solver. }
    rewrite Hitems in Hheap1. rewrite Hleaves. destruct (bool_decide (children pd1 = ∅) && (lock_ref pd1 =? 0)); [|done].
    rewrite elements_union_singleton by done. rewrite fmap_cons. by apply Permutation_skip.
Qed.

Lemma evict_loop_spec fuel : forall st ev heap a,
  inv P L st -> (base.size (nodes st) <= fuel)%nat -> heap ≡ₚ item_of strat st <$> elements (evictable_leaves st) ->
  exists st' freed, evict_loop free ps strat fuel num_tokens ev heap st a =
      Ok (ev + len (concat freed), st', foldl (fun a v => free v a) a freed) /\
    evictions ps strat st freed st' /\
    (num_tokens <= ev + len (concat freed) \/ evictable_leaves st' = ∅) /\
    (freed <> [] -> ev + len (concat (removelast freed)) < num_tokens).
Proof.
  assert (Hdone : forall st ev a, (num_tokens <= ev \/ evictable_leaves st = ∅) -> exists st' freed,
    Ok (ev, st, a) = Ok (ev + len (concat freed), st', foldl (fun a v => free v a) a freed) /\
    evictions ps strat st freed st' /\
    (num_tokens <= ev + len (concat freed) \/ evictable_leaves st' = ∅) /\
    (freed <> [] -> ev + len (concat (removelast freed)) < num_tokens)).
  { intros st ev a Hd. exists st, []. cbn [concat foldl]. rewrite len_nil, Z.add_0_r.
    split; [done|]. split; [constructor|]. split; [done|]. done. }
  induction fuel as [|fuel IH]; intros st ev heap a Hi Hf Hh; cbn [evict_loop].
  { exfalso. destruct (ok_root _ _ _ _ _ (proj1 Hi)) as (rd & Hrd & _).
    assert (base.size (nodes st) = 0%nat) as H0 by lia. apply map_size_empty_iff in H0. by rewrite H0, lookup_empty in Hrd. }
  destruct (Z.ltb_spec ev num_tokens) as [Hlt|Hge]; cbn [negb]; [|apply Hdone; by left].
  destruct (heappop heap) as [[x heap1]|] eqn:Hpop.
  2:{ apply Hdone. right. apply heappop_none in Hpop. subst heap. apply Permutation_nil_l in Hh. symmetry in Hh.
      apply fmap_nil_inv, elements_empty_inv in Hh. by apply leibniz_equiv. }
  destruct (evict_turn st heap x heap1 Hi Hh Hpop) as (nd & p & pd & st1 & Hn & Hin & Hmin & Hrun & Hi1 & Hpar & Hpd & Hsz & Hh1).
  rewrite (deref_ok _ _ _ Hn). step_ok. rewrite Hrun. step_ok. rewrite Hpar. cbn [of_option]. step_ok.
  rewrite (deref_ok _ _ _ Hpd). step_ok.
  destruct (IH st1 (ev + len (value nd)) _ (free (value nd) a) Hi1 ltac:(lia) Hh1) as (st' & freed & Hr & He & Hstop & Hmore).
  exists st', (value nd :: freed). rewrite Hr. cbn [concat foldl]. rewrite len_app, Z.add_assoc.
  split; [done|]. split; [by apply (evict_more ps strat st (hi_node x) nd st1)|]. split; [done|].
  intros _. destruct freed as [|f fs]; [cbn [removelast concat]; rewrite len_nil; lia|]. specialize (Hmore ltac:(done)).
  change (removelast (value nd :: f :: fs)) with (value nd :: removelast (f :: fs)).
  cbn [concat]. rewrite len_app. lia.
Qed.
End loop.

Lemma evictions_spec strat P L st freed st' :
  evictions ps strat st freed st' -> inv P L st ->
  inv P L st' /\ root_node st' = root_node st /\ tree_slots st ≡ₚ concat freed ++ tree_slots st' /\
  evictable_size_ st' = evictable_size_ st - len (concat freed) /\ protected_size_ st' = protected_size_ st /\
  forall h hd', nodes st' !! h = Some hd' -> exists hd, nodes st !! h = Some hd /\ key hd' = key hd /\
    ents P st' h = ents P st h.
Proof.
  intros He. induction He as [st|st x nd st1 freed st2 Hx Hn Hmin Hrun He IH]; intros Hi.
  { split; [done|]. split; [done|]. split; [done|]. cbn [concat]. rewrite len_nil.
    split; [lia|]. split; [done|]. intros h hd Hh. by exists hd. }
  destruct (leaf_facts P L st x Hi Hx) as (nd' & p & pd & Hn' & Hr & Hno & Hlk & Hch).
  assert (nd' = nd) as -> by congruence.
  destruct (delete_spec ps eagle ps_pos P L st Hi x nd p pd Hn Hr Hno Hlk Hch)
    as (st1' & Hrun' & Hi1 & Hn1 & Hr1 & Hev & Hpr & _ & Hsl).
  rewrite Hrun in Hrun'. injection Hrun' as <-. destruct (IH Hi1) as (Hi2 & Hr2 & Hs2 & He2 & Hp2 & Hk2).
  split; [done|]. split; [congruence|]. split; [cbn [concat]; by rewrite Hsl, Hs2, app_assoc|].
  assert (Hlen : len (value nd) = Z.of_nat (key_len (key nd))) by (unfold len; f_equal; apply Hno).
  cbn [concat]. rewrite len_app. split; [lia|]. split; [congruence|]. intros h hd' Hh.
  destruct (Hk2 h hd' Hh) as (hd1 & Hh1 & Hk1 & He1). rewrite Hn1 in Hh1.
  destruct (rest_cases ps eagle P st x nd p pd Hno h hd1 Hh1) as (Hne & hd & Hhd & Hhs & _).
  exists hd. split; [done|]. split; [rewrite Hk1, Hhs; done|].
  rewrite He1. by apply (rest_ents ps eagle ps_pos P L st Hi x nd p pd Hn Hno Hch st1 h hd).
Qed.

(** *** Counting *)

Lemma msum_ext (f g : tree_node -> Z) m : (forall n nd, m !! n = Some nd -> f nd = g nd) -> msum f m = msum g m.
Proof.
  intros He. unfold msum. f_equal. apply list_fmap_ext. intros i nd Hi%list_elem_of_lookup_2.
  apply list_elem_of_fmap in Hi as ([n nd'] & -> & Hin). apply elem_of_map_to_list in Hin. by apply (He n).
Qed.

Lemma msum_add (f g : tree_node -> Z) m : msum (fun nd => f nd + g nd) m = msum f m + msum g m.
Proof. unfold msum. induction (map_to_list m).*2; cbn; lia. Qed.

Lemma len_mcat (f : tree_node -> list Z) m : len (mcat f m) = msum (fun nd => len (f nd)) m.
Proof.
  unfold msum, mcat. induction (map_to_list m).*2 as [|nd l IH]; [done|]. rewrite bind_cons, len_app, IH. done.
Qed.

Lemma value_len P lk st n nd : tree_ok ps eagle P lk st -> nodes st !! n = Some nd ->
  len (value nd) = Z.of_nat (key_len (key nd)).
Proof.
  intros Hok Hn. unfold len. f_equal. destruct (decide (n = root_node st)) as [->|Hr].
  - destruct (ok_root _ _ _ _ _ Hok) as (rd & Hrd & _ & _ & Hk & Hv). rewrite Hn in Hrd. injection Hrd as <-. by rewrite Hk, Hv.
  - destruct (ok_node _ _ _ _ _ Hok n nd Hn Hr) as (p & pd & Hno). apply Hno.
Qed.

Lemma sizes_exact P L st : inv P L st -> evictable_size_ st + protected_size_ st = len (tree_slots st).
Proof.
  intros [Hok _]. unfold tree_slots. rewrite (ok_evictable _ _ _ _ _ Hok), (ok_protected _ _ _ _ _ Hok), <- msum_add, len_mcat.
  apply msum_ext. intros n nd Hn. rewrite (value_len _ _ st n nd Hok Hn). destruct (lock_ref nd =? 0); lia.
Qed.

Lemma evictable_none P L st : inv P L st -> evictable_leaves st = ∅ -> evictable_size_ st = 0.
Proof.
  intros Hi He. rewrite (ok_evictable _ _ _ _ _ (proj1 Hi)). rewrite (msum_ext _ (fun _ => 0)).
  - unfold msum. induction (map_to_list (nodes st)).*2; cbn; lia.
  - intros n nd Hn. pose proof (no_leaves ps eagle ps_pos P L st n nd Hi He Hn).
    destruct (Z.eqb_spec (lock_ref nd) 0); [lia|done].
Qed.

(** *** From the proofs' paths to the computed ones *)

Lemma cached_of P L st e g : inv P L st ->
  cached_as st e g <-> exists n nd, nodes st !! n = Some nd /\ in_space st n nd e /\ g `prefix_of` ents P st n.
Proof.
  intros Hi. destruct (radix_ok_of ps eagle ps_pos P L st Hi) as [_ He].
  split; intros (n & nd & Hn & Hs & Hg); exists n, nd; (split; [done|]; split; [done|]);
    unfold prefix_at in *; by rewrite (He n nd) in *.
Qed.

Lemma prefix_of_ents P L st n nd : inv P L st -> nodes st !! n = Some nd -> prefix_at st n = ents P st n.
Proof. intros Hi Hn. by apply (radix_ok_of ps eagle ps_pos P L st Hi) in Hn. Qed.

Lemma refines_cached P L st P' st' e g :
  inv P L st -> inv P' L st' -> refines P st P' st' -> cached_as st' e g <-> cached_as st e g.
Proof.
  intros Hi Hi' Hrf. rewrite (cached_of P' L st' e g Hi'), (cached_of P L st e g Hi). split.
  - intros (n & nd & Hn & Hs & Hg). destruct (decide (n = root_node st)) as [->|Hne].
    + destruct (ok_root _ _ _ _ _ (proj1 Hi)) as (rd & Hrd & _). exists (root_node st), rd. split; [done|]. split; [by left|].
      unfold ents in *. rewrite <- (rf_root _ _ _ _ Hrf) in Hg. rewrite (ok_top _ _ _ _ _ (proj1 Hi')) in Hg.
      cbn in Hg. apply prefix_nil_inv in Hg as ->. apply prefix_nil.
    + destruct (rf_back _ _ _ _ Hrf n nd Hn Hne) as (h & hd & Hh & Hhr & Hhe & Hp). exists h, hd. split; [done|].
      split; [|by etransitivity]. right. destruct Hs as [Hs|?]; [|congruence]. by rewrite (rf_root _ _ _ _ Hrf) in Hs.
  - intros (n & nd & Hn & Hs & Hg). destruct (rf_keep _ _ _ _ Hrf n nd Hn) as (nd' & Hn' & Hx & He). exists n, nd'.
    split; [done|]. rewrite He. split; [|done]. destruct Hs as [->|Hs]; [left; symmetry; apply Hrf|right; congruence].
Qed.

(** A cached prefix of the key shares that many units with some node. *)
Lemma cached_longest P L st k m g' :
  inv P L st ->
  (forall h hd, nodes st !! h = Some hd -> in_space st h hd (extra_key k) ->
     (lcp (ents P st h).*1 (key_iter k) / ps * ps <= m)%nat) ->
  cached_as st (extra_key k) g' -> g'.*1 `prefix_of` key_iter k -> (length g' / ps * ps <= m)%nat.
Proof.
  intros Hi Hl Hc Hp. apply (cached_of P L) in Hc as (h & hd & Hh & Hs & [r Hr]); [|done].
  specialize (Hl h hd Hh Hs). destruct Hp as [r' Hr'].
  assert (Hle : (length g' <= lcp (ents P st h).*1 (key_iter k))%nat).
  { rewrite Hr, Hr', fmap_app. rewrite <- (length_fmap fst g'). rewrite lcp_app_same. lia. }
  assert (length g' / ps <= lcp (ents P st h).*1 (key_iter k) / ps)%nat by (by apply Nat.Div0.div_le_mono).
  nia.
Qed.

Lemma reset_ok time id clk : radix_ok [] (reset time id clk).
Proof.
  apply (radix_ok_of ps eagle ps_pos (fun _ => [])). split; [|by intros h ?%elem_of_nil].
  set (st := reset time id clk). set (rd := TreeNode ∅ None (RadixKey [] None false) [] 1 (time clk) (time (S clk)) 0 smallest).
  assert (Hl : forall n nd, nodes st !! n = Some nd -> n = id /\ nd = rd).
  { intros n nd Hn. change (nodes st) with ({[id := rd]} : gmap nat tree_node) in Hn.
    apply lookup_singleton_Some in Hn as [<- <-]. done. }
  assert (Hs : forall f, msum f (nodes st) = f rd).
  { intros f. change (nodes st) with (<[id := rd]> (∅ : gmap nat tree_node)). rewrite msum_insert by apply lookup_empty.
    unfold msum. rewrite map_to_list_empty. cbn. lia. }
  split; try done.
  - exists rd. split; [apply lookup_singleton_eq|]. done.
  - intros n nd [-> _]%Hl Hr. done.
  - intros p pd k c [_ ->]%Hl Hk. cbn in Hk. by rewrite lookup_empty in Hk.
  - intros n [nd [-> _]%Hl]. cbn. lia.
  - intros n nd [-> _]%Hl Hr. done.
  - intros n. split; [by intros ?%elem_of_empty|]. intros (nd & [_ ->]%Hl & H1 & _). done.
Qed.

(** A reference into the tree means what it meant. *)
Record ref_kept (st st' : radix) (h : nat) : Prop := {
  rk_prefix : prefix_at st' h = prefix_at st h;
  rk_space e : (exists nd, nodes st !! h = Some nd /\ in_space st h nd e) ->
    exists nd, nodes st' !! h = Some nd /\ in_space st' h nd e;
}.

(** A lookup does not touch the counters. *)
Lemma match_loop_sizes time fuel : forall node k acc access st r n st',
  match_loop time ps fuel node k acc access st = Ok (r, n, st') -> evictable_size_ st' = evictable_size_ st.
Proof.
  induction fuel as [|fuel IH]; intros node k acc access st r n st'; cbn [match_loop]; [by intros [= _ _ <-]|].
  destruct (key_len k =? 0)%nat; [by intros [= _ _ <-]|]. intros (c & _ & (nd & _ & H)%res_bind_Ok)%res_bind_Ok.
  destruct (children nd !! c) as [child|]; [|by injection H as _ _ <-].
  apply res_bind_Ok in H as (cd & _ & (l & _ & H)%res_bind_Ok).
  destruct (l <? key_len (key cd))%nat; [|exact (IH _ _ _ _ (touch child access st) _ _ _ H)].
  apply res_bind_Ok in H as ([new st1] & H & [= _ _ <-]). unfold split_node in H.
  do 4 apply res_bind_Ok in H as (? & _ & H). by injection H as _ <-.
Qed.

Lemma match_sizes time k st r n st' :
  match_prefix time false ps eagle k st = Ok (r, n, st') -> evictable_size_ st' = evictable_size_ st.
Proof.
  unfold match_prefix, match_prefix_helper. destruct (maybe_to_bigram_view eagle k None) as [k' ?]. destruct (_ || _); [by intros [= _ _ <-]|].
  destruct (key_len _ =? 0)%nat; [by intros [= _ _ <-]|]. intros H. exact (match_loop_sizes _ _ _ _ _ _ (touch _ _ _) _ _ _ H).
Qed.

(** What a lookup of [k] that returned the node [n] leaves: [g] are the units
    matched, with their slots. *)
Record matched (L : list nat) (st : radix) (k : radix_key) (g : list (list Z * Z)) (n : nat) (st' : radix) : Prop := {
  mt_ok : radix_ok L st';
  mt_node : is_Some (nodes st' !! n);
  mt_at : prefix_at st' n = g;
  mt_units : g.*1 `prefix_of` key_iter (view ps eagle k);
  mt_cached : cached_as st (extra_key k) g;
  mt_longest g' : cached_as st (extra_key k) g' -> g'.*1 `prefix_of` key_iter (view ps eagle k) ->
    (length g' / ps * ps <= length g)%nat;
  mt_same e g' : cached_as st' e g' <-> cached_as st e g';
  mt_keep h hd : nodes st !! h = Some hd -> is_Some (nodes st' !! h) /\ prefix_at st' h = prefix_at st h;
  mt_slots : tree_slots st' ≡ₚ tree_slots st;
  mt_space : exists nd, nodes st' !! n = Some nd /\ in_space st' n nd (extra_key k);
  mt_kept h : is_Some (nodes st !! h) -> ref_kept st st' h;
  mt_size : evictable_size_ st' = evictable_size_ st;
}.

(** What an insertion leaves: [g] was cached before. *)
Record stored (L : list nat) (st : radix) (k : radix_key) (V : list Z) (g : list (list Z * Z)) (st' : radix) : Prop := {
  sd_ok : radix_ok L st';
  sd_units : g.*1 `prefix_of` key_iter (view ps eagle k);
  sd_cached : cached_as st (extra_key k) g;
  sd_longest g' : cached_as st (extra_key k) g' -> g'.*1 `prefix_of` key_iter (view ps eagle k) ->
    (length g' / ps * ps <= length g)%nat;
  sd_adds e g' : cached_as st' e g' <-> cached_as st e g' \/
    (e = extra_key k /\ g' `prefix_of` g ++ zip (drop (length g) (key_iter (view ps eagle k))) (drop (length g) V));
  sd_keep h hd : nodes st !! h = Some hd -> prefix_at st' h = prefix_at st h;
  sd_slots : tree_slots st' ≡ₚ drop (length g) V ++ tree_slots st;
}.

Lemma match_run time L st k :
  radix_ok L st -> viewable eagle k ->
  exists g n st', match_prefix time false ps eagle k st = Ok (g.*2, n, st') /\ matched L st k g n st'.
Proof.
  intros Hi Hv. destruct (match_prefix_spec ps eagle ps_pos time _ L st k Hi Hv) as (P' & st' & n & m & g & Hrun & Hw).
  destruct (view_spec ps eagle ps_pos k Hv) as (_ & Hx & _).
  pose proof (walked_inserted ps eagle (path st) L st _ [] P' st' n m g Hi Hw ltac:(by destruct m))
    as [_ _ _ _ _ _ _ _ (h & hd & Hh & Hhs & Hg) Hlong].
  destruct Hw as [Hi' Hrf (nd & Hnd & Hsp) He Hu [Hm _] _]. exists g, n, st'. split; [done|].
  destruct (radix_ok_of ps eagle ps_pos P' L st' Hi') as [Hok' _].
  assert (Hlen : length g = m).
  { rewrite <- (length_fmap fst g), Hu, length_take, length_key_iter. lia. }
  split; [done|by eexists|..].
  - rewrite (prefix_of_ents P' L st' n nd Hi' Hnd), He. unfold ents. by rewrite (ok_top _ _ _ _ _ (proj1 Hi)).
  - rewrite Hu. exists (drop m (key_iter (view ps eagle k))). by rewrite take_drop.
  - rewrite <- Hx. apply (cached_of (path st) L); [done|]. by exists h, hd.
  - intros g' Hc Hp. rewrite Hlen. rewrite <- Hx in Hc. by apply (cached_longest (path st) L st (view ps eagle k)).
  - intros e g'. by apply (refines_cached (path st) L st P' st').
  - intros x xd Hxd. destruct (rf_keep _ _ _ _ Hrf x xd Hxd) as (xd' & Hxd' & _ & Hxe).
    split; [by eexists|]. by rewrite (prefix_of_ents P' L st' x xd' Hi' Hxd'), Hxe.
  - apply Hrf.
  - exists nd. by rewrite <- Hx.
  - intros x [xd Hxd]. destruct (rf_keep _ _ _ _ Hrf x xd Hxd) as (xd' & Hxd' & Hk & Hxe). split.
    + by rewrite (prefix_of_ents P' L st' x xd' Hi' Hxd'), Hxe.
    + intros e (nd0 & Hnd0 & Hs). assert (nd0 = xd) as -> by congruence. exists xd'. split; [done|].
      unfold in_space in *. by rewrite (rf_root _ _ _ _ Hrf), Hk.
  - exact (match_sizes time k st _ _ _ Hrun).
Qed.

Lemma insert_run time L st k v prio chunked :
  radix_ok L st -> viewable eagle k -> (key_len (view ps eagle k) <= length v)%nat ->
  exists g st', insert time false ps eagle k (Some v) prio chunked st = Ok (length g, st') /\
    stored L st k (take (key_len (view ps eagle k)) v) g st'.
Proof.
  intros Hi Hv Hlv. set (K := view ps eagle k). set (V := take (key_len K) v).
  destruct (insert_spec ps eagle ps_pos time _ L st k v prio chunked Hi Hv Hlv) as (P' & st' & m & g & Hrun & Hin).
  destruct (view_spec ps eagle ps_pos k Hv) as (_ & Hx & _). fold K in Hin, Hx. fold V in Hin.
  destruct Hin as [Hi' Hr Hkeep Hfull Hback Hsl Hu [Hm _] (h & hd & Hh & Hhs & Hg) Hlong].
  destruct (radix_ok_of ps eagle ps_pos P' L st' Hi') as [Hok' _].
  assert (Hlen : length g = m).
  { rewrite <- (length_fmap fst g), Hu, length_take, length_key_iter. lia. }
  exists g, st'. split; [by rewrite Hlen|]. split; rewrite ?Hlen; fold K; [done|..].
  - rewrite Hu. exists (drop m (key_iter K)). by rewrite take_drop.
  - rewrite <- Hx. apply (cached_of (path st) L); [done|]. by exists h, hd.
  - intros g' Hc Hp. rewrite <- Hx in Hc. by apply (cached_longest (path st) L st K).
  - intros e g'. rewrite (cached_of P' L st' e g' Hi'), (cached_of (path st) L st e g' Hi). split.
    + intros (n & nd & Hn & Hs & Hp). destruct (decide (n = root_node st)) as [->|Hne].
      * left. destruct (ok_root _ _ _ _ _ (proj1 Hi)) as (rd & Hrd & _). exists (root_node st), rd. split; [done|]. split; [by left|].
        unfold ents in Hp. rewrite <- Hr, (ok_top _ _ _ _ _ (proj1 Hi')) in Hp. apply prefix_nil_inv in Hp as ->. apply prefix_nil.
      * assert (Hse : extra_key (key nd) = e) by (destruct Hs as [Hs|?]; [congruence|done]).
        destruct (Hback n nd Hn Hne) as [(n0 & nd0 & Hn0 & Hr0 & He0 & Hp0)|[Hxe Hee]].
        -- left. exists n0, nd0. split; [done|]. split; [right; congruence|by etransitivity].
        -- right. split; [congruence|]. by rewrite <- Hee.
    + intros [(n & nd & Hn & Hs & Hp)|[-> Hp]].
      * destruct (Hkeep n nd Hn) as (nd' & Hn' & Hxe & Hee). exists n, nd'. split; [done|]. rewrite Hee. split; [|done].
        destruct Hs as [->|?]; [by left|right; congruence].
      * destruct Hfull as (n' & nd' & Hn' & Hs' & He'). exists n', nd'. split; [done|]. rewrite He', <- Hx. done.
  - intros x xd Hxd. destruct (Hkeep x xd Hxd) as (xd' & Hxd' & _ & Hxe).
    by rewrite (prefix_of_ents P' L st' x xd' Hi' Hxd'), Hxe.
  - done.
Qed.

(** ** Theorems *)

(** C20: matching finds the longest cached prefix.  [match_prefix] never fails;
    the slots it returns are those cached for a prefix of the key in the key's
    namespace, the node it returns stands for exactly that prefix, and no
    cached prefix of the key is longer by a page.  It may split nodes, but what
    is cached, and what any node a client refers to stands for, stay as they
    were, and no slot is lost or added. *)
Theorem radix_match_prefix time L st k :
  radix_ok L st -> viewable eagle k ->
  exists g n st', match_prefix time false ps eagle k st = Ok (g.*2, n, st') /\ radix_ok L st' /\
    prefix_at st' n = g /\ g.*1 `prefix_of` key_iter (view ps eagle k) /\ cached_as st (extra_key k) g /\
    (forall g', cached_as st (extra_key k) g' -> g'.*1 `prefix_of` key_iter (view ps eagle k) ->
       (length g' / ps * ps <= length g)%nat) /\
    (forall e g', cached_as st' e g' <-> cached_as st e g') /\
    (forall h hd, nodes st !! h = Some hd -> prefix_at st' h = prefix_at st h) /\
    tree_slots st' ≡ₚ tree_slots st.
Proof.
  intros Hi Hv. destruct (match_run time L st k Hi Hv) as (g & n & st' & Hrun & [Hok _ Hat Hu Hc Hl Hs Hk Hsl]).
  exists g, n, st'. do 7 (split; [done|]). split; [intros h hd Hh; by apply (Hk h hd)|done].
Qed.

(** C21: inserting adds exactly the missing suffix.  [insert] returns the length
    of the longest cached prefix of the key; afterwards the cache holds what it
    held and the prefixes of the whole key, with the old slots up to that
    length and the given ones beyond, and the slots it took are exactly the
    given ones beyond that length. *)
Theorem radix_insert time L st k v prio chunked :
  radix_ok L st -> viewable eagle k -> (key_len (view ps eagle k) <= length v)%nat ->
  let K := view ps eagle k in
  let V := take (key_len K) v in
  exists g st', insert time false ps eagle k (Some v) prio chunked st = Ok (length g, st') /\ radix_ok L st' /\
    g.*1 `prefix_of` key_iter K /\ cached_as st (extra_key k) g /\
    (forall g', cached_as st (extra_key k) g' -> g'.*1 `prefix_of` key_iter K -> (length g' / ps * ps <= length g)%nat) /\
    (forall e g', cached_as st' e g' <-> cached_as st e g' \/
       (e = extra_key k /\ g' `prefix_of` g ++ zip (drop (length g) (key_iter K)) (drop (length g) V))) /\
    (forall h hd, nodes st !! h = Some hd -> prefix_at st' h = prefix_at st h) /\
    tree_slots st' ≡ₚ drop (length g) V ++ tree_slots st.
Proof.
  intros Hi Hv Hl K V. destruct (insert_run time L st k v prio chunked Hi Hv Hl) as (g & st' & Hrun & Hst).
  exists g, st'. split; [done|]. destruct Hst. done.
Qed.

(** The outcome of an eviction. *)
Record evicted (strat : strategy) (L : list nat) (st : radix) (num_tokens : Z) (freed : list (list Z)) (st' : radix) : Prop := {
  ev_steps : evictions ps strat st freed st';
  ev_enough : Z.min num_tokens (evictable_size_ st) <= len (concat freed);
  ev_needed : freed <> [] -> len (concat (removelast freed)) < num_tokens;
  ev_ok : radix_ok L st';
  ev_kept h : h ∈ L -> ref_kept st st' h;
  ev_slots : tree_slots st ≡ₚ concat freed ++ tree_slots st';
  ev_protected : protected_size_ st' = protected_size_ st;
}.

Lemma evict_run `{!HeapQ} free strat L st num_tokens a :
  radix_ok L st ->
  exists freed st', evict free false ps strat num_tokens st a =
    Ok (len (concat freed), st', foldl (fun a v => free v a) a freed) /\ evicted strat L st num_tokens freed st'.
Proof.
  intros Hi. unfold evict.
  destruct (evict_loop_spec free strat num_tokens (path st) L (base.size (nodes st)) st 0
    (item_of strat st <$> elements (evictable_leaves st)) a Hi ltac:(lia) ltac:(done)) as (st' & freed & Hrun & He & Hstop & Hmore).
  destruct (evictions_spec strat (path st) L st freed st' He Hi) as (Hi' & Hr & Hsl & Hev & Hpr & Hk).
  destruct (radix_ok_of ps eagle ps_pos (path st) L st' Hi') as [Hok' _].
  exists freed, st'. rewrite Hrun. split; [done|]. split; try done.
  - destruct Hstop as [Hs|Hs]; [lia|]. pose proof (evictable_none _ _ _ Hi' Hs). lia.
  - intros h Hh. destruct (proj2 Hi' h Hh) as [hd' Hhd']. destruct (Hk h hd' Hhd') as (hd & Hhd & Hkey & Hee). split.
    + by rewrite (prefix_of_ents (path st) L st' h hd' Hi' Hhd'), Hee.
    + intros e (nd & Hnd & Hs). exists hd'. split; [done|]. rewrite Hhd in Hnd. injection Hnd as <-.
      unfold in_space in *. by rewrite Hr, Hkey.
Qed.

(** C22: the eviction heap implements the abstract policy.  [evict] removes, one
    after the other, an unlocked leaf that no other evictable leaf precedes in
    the order of the configured strategy; it stops as soon as enough slots are
    freed, and frees all that can be evicted when that is not enough.  What a
    client holds a lock on is untouched, and every slot is either still cached
    or given to the allocator, once. *)
Theorem radix_evict_refines `{!HeapQ} free strat L st num_tokens a :
  radix_ok L st ->
  exists freed st', evict free false ps strat num_tokens st a =
      Ok (len (concat freed), st', foldl (fun a v => free v a) a freed) /\
    evictions ps strat st freed st' /\
    Z.min num_tokens (evictable_size_ st) <= len (concat freed) /\
    (freed <> [] -> len (concat (removelast freed)) < num_tokens) /\
    radix_ok L st' /\ (forall h, h ∈ L -> prefix_at st' h = prefix_at st h) /\
    tree_slots st ≡ₚ concat freed ++ tree_slots st' /\ protected_size_ st' = protected_size_ st.
Proof.
  intros Hi. destruct (evict_run free strat L st num_tokens a Hi) as (freed & st' & Hrun & [He Hn Hm Hok Hk Hsl Hp]).
  exists freed, st'. split; [done|]. do 4 (split; [done|]). split; [|done]. intros h Hh. by apply Hk.
Qed.

(** *** Reachable states *)

Section reachable.
Context `{!HeapQ} (time : nat -> Z) (free : list Z -> allocator -> allocator) (strat : strategy).

(** What clients do: look up, insert, lock a node of the tree, give one of
    their locks back, and evict. *)
Inductive rstep : radix * list nat -> radix * list nat -> Prop :=
  | rstep_match st L k vs n st' :
      viewable eagle k -> match_prefix time false ps eagle k st = Ok (vs, n, st') -> rstep (st, L) (st', L)
  | rstep_insert st L k v prio chunked m st' :
      viewable eagle k -> (key_len (view ps eagle k) <= length v)%nat ->
      insert time false ps eagle k (Some v) prio chunked st = Ok (m, st') -> rstep (st, L) (st', L)
  | rstep_lock st L n d st' :
      is_Some (nodes st !! n) -> inc_lock_ref false n st = Ok (d, st') -> rstep (st, L) (st', n :: L)
  | rstep_unlock st L L' n d st' :
      L ≡ₚ n :: L' -> dec_lock_ref false n st = Ok (d, st') -> rstep (st, L) (st', L')
  | rstep_evict st L num_tokens a ev st' a' :
      evict free false ps strat num_tokens st a = Ok (ev, st', a') -> rstep (st, L) (st', L).

Lemma rstep_ok x y : rstep x y -> radix_ok (snd x) (fst x) -> radix_ok (snd y) (fst y).
Proof.
  intros Hs Hi. destruct Hs as [st L k vs n st' Hv Hr|st L k v prio ch m st' Hv Hl Hr|st L n d st' [nd Hn] Hr
    |st L L' n d st' Hp Hr|st L num a ev st' a' Hr]; cbn [fst snd] in *.
  - destruct (match_prefix_spec ps eagle ps_pos time _ L st k Hi Hv) as (P' & s1 & n1 & m & g & Hrun & Hw).
    rewrite Hr in Hrun. injection Hrun as _ _ <-. eapply radix_ok_of; [done|apply Hw].
  - destruct (insert_spec ps eagle ps_pos time _ L st k v prio ch Hi Hv Hl) as (P' & s1 & m1 & g & Hrun & Hin).
    rewrite Hr in Hrun. injection Hrun as _ <-. eapply radix_ok_of; [done|apply Hin].
  - destruct (inc_lock_ref_spec ps eagle ps_pos _ L st n nd Hi Hn) as (s1 & Hrun & Hi1 & _).
    rewrite Hr in Hrun. injection Hrun as _ <-. by eapply radix_ok_of.
  - destruct (dec_lock_ref_spec ps eagle ps_pos _ L L' st n Hi Hp) as (s1 & Hrun & Hi1 & _).
    rewrite Hr in Hrun. injection Hrun as _ <-. by eapply radix_ok_of.
  - destruct (evict_loop_spec free strat num (path st) L (base.size (nodes st)) st 0
      (item_of strat st <$> elements (evictable_leaves st)) a Hi ltac:(lia) ltac:(done)) as (s1 & freed & Hrun & He & _).
    unfold evict in Hr. rewrite Hr in Hrun. injection Hrun as _ <- _.
    eapply radix_ok_of; [done|]. by apply (evictions_spec strat (path st) L st freed st').
Qed.

(** C23: the counters are exact.  Whatever sequence of lookups, insertions,
    locks, unlocks and evictions clients run on a fresh cache, [evictable_size]
    and [protected_size] are the numbers of cached slots in unlocked and in
    locked nodes, every node carries as many locks as clients hold at or below
    it, and the set of evictable leaves is the set of unlocked childless nodes. *)
Theorem radix_counters_exact id clk st L :
  rtc rstep (reset time id clk, []) (st, L) ->
  evictable_size_ st + protected_size_ st = len (tree_slots st) /\
  evictable_size_ st = msum (fun nd => if lock_ref nd =? 0 then len (value nd) else 0) (nodes st) /\
  (forall n nd, nodes st !! n = Some nd -> n <> root_node st ->
     lock_ref nd = Z.of_nat (length (filter (fun h => n ∈ path st h) L))) /\
  (forall n, n ∈ evictable_leaves st <-> exists nd, nodes st !! n = Some nd /\ lock_ref nd = 0 /\ children nd = ∅).
Proof.
  intros Hr. assert (Hok : radix_ok L st).
  { apply (rtc_ind_r (fun y => radix_ok (snd y) (fst y)) (reset time id clk, []) (reset_ok time id clk)
      ltac:(intros y z _ Hs; apply (rstep_ok y z Hs)) (st, L) Hr). }
  split; [by apply (sizes_exact (path st) L)|]. pose proof Hok as [Ht _]. split; [|split].
  - rewrite (ok_evictable _ _ _ _ _ Ht). apply msum_ext. intros n nd Hn. case_match; [|done].
    symmetry. by apply (value_len _ _ st n nd Ht).
  - intros n nd Hn Hne. apply (ok_lock _ _ _ _ _ Ht n nd Hn Hne).
  - apply (ok_leaves _ _ _ _ _ Ht).
Qed.
End reachable.
End theorems.
