(* ===== verification/RadixCacheRequests.v ===== *)
(** * Requests in the radix cache

    A cached prefix has one list of slots; on top of it,
    [cache_unfinished_req] and [cache_finished_req] move the slots of a
    request into the tree: duplicates of what is already cached go back to the
    allocator, the request's row is redirected to the cached slots, and the
    lock moves to the node of the whole prefix. *)

From S2P Require Import Prelude Allocator DllmReq MemCommon RadixKey RadixCache RadixCacheProofs RadixCacheTheorems.
Import Radix.

Section requests.
Context (ps : nat) (eagle : bool) (ps_pos : (0 < ps)%nat).
Notation inv := (inv ps eagle).
Notation radix_ok := (radix_ok ps eagle).

(** ** A prefix is cached once *)

Lemma below_split P L st h hd cur :
  inv P L st -> nodes st !! h = Some hd -> cur = root_node st \/ cur ∈ P h -> h <> cur ->
  exists cd x xd G, nodes st !! cur = Some cd /\ nodes st !! x = Some xd /\ node_ok ps eagle P st x xd cur cd /\
    x ∈ P h /\ extra_key (key xd) = extra_key (key hd) /\ ents P st h = ents P st x ++ G.
Proof.
  intros [Hok _] Hh Hb Hne.
  destruct (path_below ps eagle ps_pos P _ st Hok h hd cur Hh Hb Hne) as (x & xd & rest & Hx & Hxr & Hxp & HP & Hxe).
  destruct (ok_node _ _ _ _ _ Hok x xd Hx Hxr) as (p & cd & Hno). pose proof (no_parent _ _ _ _ _ _ _ _ Hno) as Hpar.
  rewrite Hxp in Hpar. injection Hpar as <-. exists cd, x, xd, (rest ≫= (fun y => seg (nodes st !!! y))).
  split; [apply Hno|]. split; [done|]. split; [done|]. split; [rewrite HP; apply elem_of_app; right; by left|].
  split; [done|]. rewrite (ents_child _ _ _ _ _ _ _ _ Hno Hx). unfold ents.
  rewrite HP, bind_app, bind_cons, (lookup_total_correct _ _ _ Hx). by rewrite app_assoc.
Qed.

Lemma trie_unique P L st j : inv P L st -> Nat.divide ps j -> forall cur h1 d1 h2 d2 G1 G2,
  nodes st !! h1 = Some d1 -> nodes st !! h2 = Some d2 ->
  cur = root_node st \/ (cur ∈ P h1 /\ cur ∈ P h2) ->
  h1 = root_node st \/ h2 = root_node st \/ extra_key (key d1) = extra_key (key d2) ->
  ents P st h1 = ents P st cur ++ G1 -> ents P st h2 = ents P st cur ++ G2 ->
  (j <= length G1)%nat -> (j <= length G2)%nat -> take j G1.*1 = take j G2.*1 -> take j G1 = take j G2.
Proof.
  intros Hi. induction j as [j IH] using lt_wf_ind. intros Hd cur h1 d1 h2 d2 G1 G2 H1 H2 Hb Hsp E1 E2 L1 L2 HT.
  destruct (decide (j = 0)%nat) as [->|Hj]; [done|]. pose proof (page_le ps ps_pos j ltac:(lia) Hd) as Hple.
  assert (Hn1 : h1 <> cur).
  { intros ->. rewrite <- (app_nil_r (ents P st cur)) in E1 at 1. apply app_inv_head in E1. subst G1. cbn in L1. lia. }
  assert (Hn2 : h2 <> cur).
  { intros ->. rewrite <- (app_nil_r (ents P st cur)) in E2 at 1. apply app_inv_head in E2. subst G2. cbn in L2. lia. }
  assert (Hr1 : cur = root_node st \/ cur ∈ P h1) by tauto. assert (Hr2 : cur = root_node st \/ cur ∈ P h2) by tauto.
  destruct (below_split P L st h1 d1 cur Hi H1 Hr1 Hn1) as (cd & x & xd & G1' & Hcd & Hx & Hnx & Hxin & Hxe & E1').
  destruct (below_split P L st h2 d2 cur Hi H2 Hr2 Hn2) as (cd' & y & yd & G2' & Hcd' & Hy & Hny & Hyin & Hye & E2').
  rewrite Hcd in Hcd'. injection Hcd' as <-.
  pose proof (ents_child _ _ _ _ _ _ _ _ Hnx Hx) as Ex. pose proof (ents_child _ _ _ _ _ _ _ _ Hny Hy) as Ey.
  rewrite E1, Ex, <- app_assoc in E1'. apply app_inv_head in E1'. rewrite E2, Ey, <- app_assoc in E2'. apply app_inv_head in E2'.
  destruct (seg_units ps ps_pos xd (no_value _ _ _ _ _ _ _ _ Hnx)) as [Ux _]. destruct (seg_units ps ps_pos yd (no_value _ _ _ _ _ _ _ _ Hny)) as [Uy _].
  destruct (no_key _ _ _ _ _ _ _ _ Hnx) as (_ & Kx & Dx). destruct (no_key _ _ _ _ _ _ _ _ Hny) as (_ & Ky & Dy).
  pose proof (page_le ps ps_pos _ Kx Dx) as Px. pose proof (page_le ps ps_pos _ Ky Dy) as Py.
  assert (Hr : h1 <> root_node st /\ h2 <> root_node st).
  { split; intros ->; [rename Hxin into Hin; rename E1 into Ee|rename Hyin into Hin; rename E2 into Ee];
      rewrite (ok_top _ _ _ _ _ (proj1 Hi)) in Hin; by apply not_elem_of_nil in Hin. }
  assert (x = y) as <-.
  { assert (Hck : ck ps (key xd) = ck ps (key yd)).
    { unfold ck. f_equal; [destruct Hsp as [?|[?|?]]; [tauto|tauto|congruence]|].
      rewrite E1', E2', !fmap_app, Ux, Uy in HT. apply (f_equal (take ps)) in HT. rewrite !take_take, Nat.min_l in HT by done.
      rewrite !take_app_le in HT by (unfold units; rewrite length_key_iter; done). exact HT. }
    pose proof (no_link _ _ _ _ _ _ _ _ Hnx) as K1. pose proof (no_link _ _ _ _ _ _ _ _ Hny) as K2. rewrite Hck in K1. congruence. }
  assert (yd = xd) as -> by congruence. subst G1 G2. set (l := length (seg xd)) in *.
  destruct (decide (j <= l)%nat) as [Hjl|Hjl]; [by rewrite !take_app_le by done|].
  assert (Hl : l = key_len (key xd)).
  { unfold l. rewrite <- (length_fmap fst (seg xd)), Ux. unfold units. apply length_key_iter. }
  rewrite !take_app_ge by lia. f_equal. fold l. rewrite !length_app in L1, L2. fold l in L1, L2.
  apply (IH (j - l)%nat ltac:(lia) ltac:(rewrite Hl; by apply Nat.divide_sub_r) x h1 d1 h2 d2); try done; [by right| | | | |].
  - rewrite E1, Ex, <- app_assoc. done.
  - rewrite E2, Ex, <- app_assoc. done.
  - lia.
  - lia.
  - rewrite !fmap_app in HT. apply (f_equal (drop l)) in HT. rewrite !skipn_firstn_comm in HT.
    rewrite !drop_app_ge in HT by (rewrite length_fmap; fold l; lia). rewrite !length_fmap in HT. fold l in HT.
    by rewrite !Nat.sub_diag, !drop_0 in HT.
Qed.

Lemma ents_divide P L st n nd : inv P L st -> nodes st !! n = Some nd -> Nat.divide ps (length (ents P st n)).
Proof.
  intros [Hok _] Hn. unfold ents. assert (Hall : forall x, x ∈ P n -> Nat.divide ps (length (seg (nodes st !!! x)))).
  { intros x Hx. destruct (path_mem ps eagle ps_pos P _ st Hok n nd x Hn Hx) as (xd & _ & Hxd & Hxr & _).
    rewrite (lookup_total_correct _ _ _ Hxd). destruct (ok_node _ _ _ _ _ Hok x xd Hxd Hxr) as (p & pd & Hno).
    destruct (seg_units ps ps_pos xd (no_value _ _ _ _ _ _ _ _ Hno)) as [Hu _].
    rewrite <- (length_fmap fst (seg xd)), Hu. unfold units. rewrite length_key_iter. apply Hno. }
  induction (P n) as [|x l IH]; [by exists 0%nat|]. rewrite bind_cons, length_app. apply Nat.divide_add_r.
  - apply Hall. by left.
  - apply IH. intros y Hy. apply Hall. by right.
Qed.

(** The slots of a prefix that is cached are determined by its units. *)
Lemma ents_unique P L st e h1 d1 h2 d2 :
  inv P L st -> nodes st !! h1 = Some d1 -> nodes st !! h2 = Some d2 ->
  in_space st h1 d1 e -> in_space st h2 d2 e -> (ents P st h1).*1 `prefix_of` (ents P st h2).*1 ->
  ents P st h1 = take (length (ents P st h1)) (ents P st h2).
Proof.
  intros Hi H1 H2 S1 S2 [r Hr].
  assert (Hroot : ents P st (root_node st) = []) by (unfold ents; by rewrite (ok_top _ _ _ _ _ (proj1 Hi))).
  rewrite <- (take_ge (ents P st h1) (length (ents P st h1))) at 1 by done.
  apply (trie_unique P L st _ Hi (ents_divide P L st h1 d1 Hi H1) (root_node st) h1 d1 h2 d2); try done.
  - by left.
  - destruct S1 as [?|?]; [by left|]. right. destruct S2 as [?|?]; [by left|right; congruence].
  - by rewrite Hroot.
  - by rewrite Hroot.
  - apply (f_equal length) in Hr. rewrite length_app, !length_fmap in Hr. lia.
  - rewrite Hr, take_app_le by (by rewrite length_fmap). done.
Qed.

(** ** The key of a request *)

Definition req_key (e : option string) (toks : list Z) : radix_key := page_aligned ps (RadixKey toks e eagle).

Lemma req_key_spec e toks : let K := req_key e toks in
  viewable eagle K /\ key_iter (view ps eagle K) = key_iter K /\ key_len (view ps eagle K) = key_len K /\
  extra_key (view ps eagle K) = e /\ extra_key K = e /\ (key_len K <= length toks)%nat /\ Nat.divide ps (key_len K).
Proof.
  intros K. destruct (page_aligned_spec (RadixKey toks e eagle) ps ps_pos) as (Hi & He & Hb & Hd). fold K in Hi, He, Hb, Hd.
  change (page_aligned ps (RadixKey toks e eagle)) with K in *. cbn [extra_key is_bigram] in He, Hb.
  assert (Hv : viewable eagle K) by (intros Hx; congruence).
  assert (Hm : fst (maybe_to_bigram_view eagle K None) = K).
  { unfold maybe_to_bigram_view. rewrite Hb. by rewrite andb_negb_r. }
  unfold view. rewrite Hm. destruct (page_aligned_spec K ps ps_pos) as (Hi2 & He2 & _ & _).
  assert (Hfl : (key_len K / ps * ps = key_len K)%nat).
  { destruct Hd as [d ->]. rewrite Nat.div_mul by lia. done. }
  assert (Hit : key_iter (page_aligned ps K) = key_iter K).
  { rewrite Hi2, Hfl. apply take_ge. by rewrite length_key_iter. }
  split; [done|]. split; [done|]. split; [by rewrite <- !length_key_iter, Hit|]. split; [congruence|]. split; [done|].
  split; [|done]. rewrite <- length_key_iter, Hi, length_take, length_key_iter. unfold key_len. cbn. case_match; lia.
Qed.

(** The request's protected prefix is the cached one its node stands for. *)
Record attached (st : radix) (q : cache_req) (toks row : list Z) : Prop := {
  at_space : exists nd, nodes st !! last_node q = Some nd /\ in_space st (last_node q) nd (creq_extra_key q);
  at_len : cache_protected_len (kvs (creq q)) = len (prefix_at st (last_node q));
  at_units : (prefix_at st (last_node q)).*1 `prefix_of` key_iter (req_key (creq_extra_key q) toks);
  at_slots : (prefix_at st (last_node q)).*2 `prefix_of` row;
  at_row : (length toks <= length row)%nat;
}.

(** Inserting a request's prefix: from position [m] on, which is not before
    what it protects, the cache takes the request's own slots. *)
Lemma insert_req time L st q toks row prio chunked :
  let K := req_key (creq_extra_key q) toks in
  let V := take (key_len K) (take (length toks) row) in
  radix_ok L st -> attached st q toks row ->
  exists P1 st1 m g n' nd', insert time false ps eagle K (Some V) prio chunked st = Ok (m, st1) /\
    inv P1 L st1 /\ root_node st1 = root_node st /\
    (length (prefix_at st (last_node q)) <= m <= key_len K)%nat /\ length g = m /\
    tree_slots st1 ≡ₚ drop m V ++ tree_slots st /\
    (forall h hd, nodes st !! h = Some hd -> exists hd', nodes st1 !! h = Some hd' /\
       extra_key (key hd') = extra_key (key hd) /\ ents P1 st1 h = prefix_at st h) /\
    nodes st1 !! n' = Some nd' /\ in_space st1 n' nd' (creq_extra_key q) /\
    ents P1 st1 n' = g ++ zip (drop m (key_iter K)) (drop m V) /\
    (ents P1 st1 n').*1 = key_iter K /\
    (ents P1 st1 n').*2 = g.*2 ++ drop m V /\
    prefix_at st (last_node q) = take (length (prefix_at st (last_node q))) (ents P1 st1 n').
Proof.
  intros K V Hi [(nd & Hnd & Hsp) Hpl Hpu Hps Hrow].
  destruct (req_key_spec (creq_extra_key q) toks) as (Hvw & Hit & Hkl & Hxv & Hxk & Hle & Hdv). fold K in Hvw, Hit, Hkl, Hxv, Hxk, Hle, Hdv, Hpu.
  assert (HlV : length V = key_len K) by (unfold V; rewrite !length_take; lia).
  destruct (insert_spec ps eagle ps_pos time (path st) L st K V prio chunked Hi Hvw ltac:(lia))
    as (P1 & st1 & m & g & Hrun & [Hi1 Hr Hkeep (n' & nd' & Hn' & Hs' & He') _ Hsl Hu [Hm Hmd] _ Hlong]).
  rewrite Hkl, Hit, (take_ge V), Hxv in * by lia.
  assert (Hlg : length g = m) by (rewrite <- (length_fmap fst g), Hu, length_take, length_key_iter; lia).
  assert (Hunits : (ents P1 st1 n').*1 = key_iter K).
  { rewrite He', fmap_app, Hu, fst_zip by (rewrite !length_drop, length_key_iter; lia). apply take_drop. }
  assert (Hkeep' : forall h hd, nodes st !! h = Some hd -> exists hd', nodes st1 !! h = Some hd' /\
      extra_key (key hd') = extra_key (key hd) /\ ents P1 st1 h = prefix_at st h).
  { intros h hd Hh. destruct (Hkeep h hd Hh) as (hd' & ? & ? & ?). by exists hd'. }
  assert (Hp : (length (prefix_at st (last_node q)) <= m)%nat).
  { pose proof (cached_longest ps eagle ps_pos (path st) L st (view ps eagle K) m (prefix_at st (last_node q)) Hi) as Hc.
    rewrite Hit, Hxv in Hc. specialize (Hc Hlong). destruct (ents_divide _ L st _ nd Hi Hnd) as [d Hd].
    change (ents (path st) st (last_node q)) with (prefix_at st (last_node q)) in Hd.
    rewrite Hd, Nat.div_mul in Hc by lia. rewrite Hd. apply Hc; [|done].
    exists (last_node q), nd. split; [done|]. by split. }
  exists P1, st1, m, g, n', nd'. do 8 (split; [done|]). split; [done|]. split; [done|]. split; [done|]. split.
  - rewrite He', fmap_app, snd_zip by (rewrite !length_drop, length_key_iter; lia). done.
  - destruct (Hkeep (last_node q) nd Hnd) as (nd1 & Hnd1 & Hx1 & He1).
    change (prefix_at st (last_node q)) with (ents (path st) st (last_node q)) in *. rewrite <- He1 in *.
    apply (ents_unique P1 L st1 (creq_extra_key q) _ nd1 n' nd'); try done.
    + destruct Hsp as [->|?]; [by left|right; congruence].
    + by rewrite Hunits.
Qed.

(** A key that is cached whole is matched whole. *)
Lemma match_req time P1 L st1 e toks n' nd' :
  let K := req_key e toks in
  inv P1 L st1 -> nodes st1 !! n' = Some nd' -> in_space st1 n' nd' e -> (ents P1 st1 n').*1 = key_iter K ->
  exists P2 st2 n2 nd2, match_prefix time false ps eagle K st1 = Ok ((ents P1 st1 n').*2, n2, st2) /\
    inv P2 L st2 /\ root_node st2 = root_node st1 /\ nodes st2 !! n2 = Some nd2 /\ in_space st2 n2 nd2 e /\
    ents P2 st2 n2 = ents P1 st1 n' /\ tree_slots st2 ≡ₚ tree_slots st1 /\
    (forall h hd, nodes st1 !! h = Some hd -> exists hd', nodes st2 !! h = Some hd' /\
       extra_key (key hd') = extra_key (key hd) /\ ents P2 st2 h = ents P1 st1 h).
Proof.
  intros K Hi Hn' Hs' Hu'. destruct (req_key_spec e toks) as (Hvw & Hit & Hkl & Hxv & Hxk & Hle & [d Hd]).
  fold K in Hvw, Hit, Hkl, Hxv, Hxk, Hle, Hd.
  destruct (match_prefix_spec ps eagle ps_pos time P1 L st1 K Hi Hvw) as
    (P2 & st2 & n2 & m & g & Hrun & [Hi2 Hrf (nd2 & Hn2 & Hs2) He Hu [Hm _] Hlong]). rewrite Hit, Hkl, Hxv in *.
  assert (Hroot : forall P L st, inv P L st -> ents P st (root_node st) = []).
  { intros P L' st Hst. unfold ents. by rewrite (ok_top _ _ _ _ _ (proj1 Hst)). }
  rewrite (Hroot P1 L st1 Hi) in He, Hlong. cbn [app] in He.
  assert (Hfull : m = key_len K).
  { specialize (Hlong n' nd' (key_iter K) Hn' Hs' (or_introl eq_refl) Hu').
    pose proof (lcp_app_same (key_iter K) [] []) as Hl. rewrite !app_nil_r, length_key_iter in Hl. cbn in Hl.
    rewrite Hl, Nat.add_0_r in Hlong. rewrite Hd, Nat.div_mul in Hlong by lia. lia. }
  assert (Hug : g.*1 = key_iter K) by (rewrite Hu, Hfull; apply take_ge; by rewrite length_key_iter).
  destruct (rf_keep _ _ _ _ Hrf n' nd' Hn') as (nd1 & Hn1 & Hx1 & He1).
  assert (Hg : ents P2 st2 n2 = ents P1 st1 n').
  { rewrite <- He1. rewrite (ents_unique P2 L st2 e n2 nd2 n' nd1 Hi2 Hn2 Hn1 Hs2).
    - rewrite He, He1. apply take_ge. rewrite <- (length_fmap fst g), <- (length_fmap fst (ents P1 st1 n')). by rewrite Hug, Hu'.
    - destruct Hs' as [->|?]; [left; symmetry; apply Hrf|right; congruence].
    - rewrite He, He1, Hug, Hu'. done. }
  exists P2, st2, n2, nd2. rewrite <- Hg, He. split; [done|]. split; [done|]. split; [apply Hrf|]. do 3 (split; [done|]).
  split; [apply Hrf|]. intros h hd Hh. destruct (rf_keep _ _ _ _ Hrf h hd Hh) as (hd' & ? & ? & ?). by exists hd'.
Qed.

(** Giving the old lock back and taking one on the new node. *)
Lemma move_lock P L L' st old n nd :
  inv P L st -> L ≡ₚ old :: L' -> nodes st !! n = Some nd ->
  exists d1 st1 d2 st2, dec_lock_ref false old st = Ok (d1, st1) /\ inc_lock_ref false n st1 = Ok (d2, st2) /\
    inv P (n :: L') st2 /\ lock_only st st2.
Proof.
  intros Hi HL Hn. destruct (dec_lock_ref_spec ps eagle ps_pos P L L' st old Hi HL) as (st1 & Hrun1 & Hi1 & Hlo1).
  destruct (lock_only_lookup _ _ _ _ Hlo1 Hn) as (nd1 & Hn1 & _).
  destruct (inc_lock_ref_spec ps eagle ps_pos P L' st1 n nd1 Hi1 Hn1) as (st2 & Hrun2 & Hi2 & Hlo2).
  do 4 eexists. split; [exact Hrun1|]. split; [exact Hrun2|]. split; [done|]. by etransitivity.
Qed.

(** Writing the tail of the cached slots over a row that starts with them. *)
Lemma redirect_row (row idx : list Z) p :
  (p <= length idx)%nat -> (length idx <= length row)%nat -> take p row = take p idx ->
  exists row', assign_slice p (length idx) (drop p idx) row = Ok row' /\ row' = idx ++ drop (length idx) row.
Proof.
  intros Hp Hl Ht. unfold assign_slice. rewrite length_drop.
  destruct (Nat.eqb_spec (length idx - p) (Nat.min (length idx) (length row) - p)); [|lia].
  eexists. split; [done|]. apply list_eq. intros i.
  destruct (decide (i < p)%nat) as [Hi|Hi].
  - rewrite list_lookup_inserts_lt by done. rewrite lookup_app_l by lia.
    rewrite <- (lookup_take_lt row p i Hi), Ht. by apply lookup_take_lt.
  - destruct (decide (i < length idx)%nat) as [Hi2|Hi2].
    + rewrite list_lookup_inserts by (rewrite ?length_drop; lia). rewrite lookup_app_l, lookup_drop by done. f_equal. lia.
    + rewrite list_lookup_inserts_ge by (rewrite length_drop; lia). rewrite lookup_app_r, lookup_drop by lia. f_equal. lia.
Qed.

Lemma split_slots (t row : list Z) p m n :
  (p <= m <= n)%nat -> (drop m (take n row) ++ t) ++ drop p (take m row) ≡ₚ t ++ drop p (take n row).
Proof.
  intros Hm. assert (Hs : drop p (take n row) = drop p (take m row) ++ drop m (take n row)).
  { rewrite <- (take_drop m (take n row)) at 1. rewrite take_take, Nat.min_l by lia.
    destruct (decide (p <= length (take m row))%nat) as [Hl|Hl]; [by rewrite drop_app_le|].
    rewrite (drop_ge (take m row)) by lia. rewrite length_take in Hl.
    rewrite (drop_ge (take n row)) by (rewrite length_take; lia). rewrite app_nil_r. apply drop_ge. rewrite length_take. lia. }
  rewrite Hs. solve_Permutation.
Qed.

(** How [cache_unfinished_req] runs: [idx] are the slots cached for the whole
    key, [m] how many were cached before. *)
Lemma unfinished_run time free chunked row q st a L L' :
  radix_ok L st -> L ≡ₚ last_node q :: L' -> attached st q (fill_ids (inp (creq q))) row ->
  let toks := fill_ids (inp (creq q)) in
  let K := req_key (creq_extra_key q) toks in
  let p := Z.to_nat (cache_protected_len (kvs (creq q))) in
  exists P' st' n nd idx m,
    let row' := idx ++ drop (key_len K) row in
    cache_unfinished_req time free false ps eagle chunked row q st a =
      Ok (CacheReq (set_prefix_indices (set_protected_len (creq q) (len idx)) (take (length toks) row'))
            (creq_extra_key q) (creq_priority q) n, row', st', free (drop p (take m row)) a) /\
    inv P' (n :: L') st' /\ nodes st' !! n = Some nd /\ in_space st' n nd (creq_extra_key q) /\
    ents P' st' n = zip (key_iter K) idx /\ length idx = key_len K /\ (p <= m <= key_len K)%nat /\
    (key_len K <= length toks)%nat /\ take p idx = take p row /\
    tree_slots st' ≡ₚ drop m (take (key_len K) row) ++ tree_slots st /\
    (forall h, h ∈ L' -> ref_kept st st' h).
Proof.
  intros Hi HL Hat toks K p. pose proof Hat as [_ Hpl _ Hps Hrow].
  destruct (insert_req time L st q toks row (Some (priority_of q)) chunked Hi Hat) as
    (P1 & st1 & m & g & n' & nd' & Hins & Hi1 & Hr1 & [Hpm Hmk] & Hlg & Hsl1 & Hkeep1 & Hn' & Hs' & He' & Hu' & Hv' & Hg0).
  destruct (match_req time P1 L st1 (creq_extra_key q) toks n' nd' Hi1 Hn' Hs' Hu') as
    (P2 & st2 & n2 & nd2 & Hmt & Hi2 & Hr2 & Hn2 & Hs2 & He2 & Hsl2 & Hkeep2).
  fold K in Hins, Hmk, Hsl1, He', Hu', Hv', Hmt. set (idx := (ents P1 st1 n').*2) in *.
  destruct (req_key_spec (creq_extra_key q) toks) as (_ & _ & _ & _ & _ & Hle & _). fold K in Hle. fold toks in Hrow.
  assert (Hp : p = length (prefix_at st (last_node q))) by (unfold p; rewrite Hpl; unfold len; lia).
  assert (Hidx : length idx = key_len K) by (unfold idx; rewrite length_fmap, <- (length_fmap fst), Hu'; apply length_key_iter).
  assert (Htp : take p row = take p idx).
  { rewrite Hp. destruct Hps as [r Hr]. unfold idx. rewrite <- fmap_take, <- Hg0, Hr.
    apply take_app_length'. by rewrite length_fmap. }
  destruct (redirect_row row idx p ltac:(lia) ltac:(lia) Htp) as (row' & Hasg & Hrow'). rewrite Hidx in Hasg, Hrow'.
  destruct (move_lock P2 L L' st2 (last_node q) n2 nd2 Hi2 HL Hn2) as (d1 & st3 & d2 & st4 & Hdec & Hinc & Hi4 & Hlo).
  destruct (lock_only_lookup _ _ _ _ Hlo Hn2) as (nd4 & Hn4 & _ & _ & Hk4 & _).
  assert (Hlr : length row' = length row) by (rewrite Hrow', length_app, length_drop; lia).
  exists P2, st4, n2, nd4, idx, m. cbv zeta. rewrite <- Hrow'. split; [|split; [done|split; [done|split; [|split; [|split; [done|]]]]]].
  - unfold cache_unfinished_req. fold toks. change (page_aligned ps (RadixKey toks (creq_extra_key q) eagle)) with K.
    rewrite Hins. step_ok. rewrite Hmt. step_ok. rewrite Hidx, Nat.eqb_refl. cbn [py_assert]. step_ok.
    fold p. rewrite Hasg. step_ok. rewrite Hdec. step_ok. rewrite Hinc. step_ok. do 3 f_equal; [do 3 f_equal|].
    + rewrite length_take, Hlr, Nat.min_l by lia. destruct (Nat.ltb_spec (key_len K) (length toks)) as [Hlt|Hge].
      * rewrite Hrow', take_app_ge by lia. by rewrite <- Hidx, drop_app_length.
      * rewrite Hrow', take_app_le, take_ge by lia. done.
    + rewrite slice_drop_take by (rewrite ?Hpl; unfold len; lia). fold p. by rewrite Nat2Z.id, take_take, Nat.min_l by lia.
  - unfold in_space in *. rewrite <- (lo_root _ _ Hlo), Hk4. done.
  - rewrite (lock_only_ents P2 st2 st4 n2 Hlo), He2. unfold idx. rewrite <- Hu'. symmetry. apply zip_fst_snd.
  - split; [lia|]. split; [done|]. split; [done|]. split.
    + rewrite (lock_only_slots _ _ Hlo), Hsl2, Hsl1. by rewrite take_take, Nat.min_l by lia.
    + intros h Hh. destruct (proj2 Hi h) as [hd Hhd]; [rewrite HL; by right|].
      destruct (Hkeep1 h hd Hhd) as (hd1 & Hhd1 & X1 & E1). destruct (Hkeep2 h hd1 Hhd1) as (hd2 & Hhd2 & X2 & E2).
      destruct (lock_only_lookup _ _ _ _ Hlo Hhd2) as (hd4 & Hhd4 & _ & _ & Hk & _).
      destruct (radix_ok_of ps eagle ps_pos P2 (n2 :: L') st4 Hi4) as [_ Hpre]. split.
      * unfold prefix_at. by rewrite (Hpre h hd4 Hhd4), (lock_only_ents P2 st2 st4 h Hlo), E2, E1.
      * intros e (nd & Hnd & Hs). assert (nd = hd) as -> by congruence. exists hd4. split; [done|].
        unfold in_space in *. by rewrite <- (lo_root _ _ Hlo), Hr2, Hr1, Hk, X2, X1.
Qed.

(** Caching an unfinished request moves its slots and loses none.  For a
    request whose protected prefix is the one its node stands for, and which
    holds a lock there, [cache_unfinished_req] succeeds (its assertion cannot
    fail); afterwards the request's row starts with the slots cached for the
    whole page-aligned prefix, its lock is on the node of that prefix, all of
    it is protected, and each slot the row had between the old and the new
    protected length is now cached or was given to the allocator, once.  No
    other reference into the tree changes its meaning. *)
Theorem radix_cache_unfinished time free chunked row q st a L L' :
  radix_ok L st -> L ≡ₚ last_node q :: L' -> attached st q (fill_ids (inp (creq q))) row ->
  let K := req_key (creq_extra_key q) (fill_ids (inp (creq q))) in
  let p := Z.to_nat (cache_protected_len (kvs (creq q))) in
  exists q' row' st' freed, cache_unfinished_req time free false ps eagle chunked row q st a = Ok (q', row', st', free freed a) /\
    radix_ok (last_node q' :: L') st' /\
    prefix_at st' (last_node q') = zip (key_iter K) row' /\
    attached st' q' (fill_ids (inp (creq q'))) row' /\
    cache_protected_len (kvs (creq q')) = Z.of_nat (key_len K) /\
    prefix_indices (inp (creq q')) = take (length (fill_ids (inp (creq q)))) row' /\
    take p row' = take p row /\ drop (key_len K) row' = drop (key_len K) row /\
    tree_slots st' ++ freed ≡ₚ tree_slots st ++ drop p (take (key_len K) row) /\
    (forall h, h ∈ L' -> prefix_at st' h = prefix_at st h).
Proof.
  intros Hi HL Hat K p. pose proof (at_row _ _ _ _ Hat) as Hrow.
  destruct (unfinished_run time free chunked row q st a L L' Hi HL Hat) as
    (P' & st' & n & nd & idx & m & Hrun & Hi' & Hn & Hsp & He & Hidx & Hpm & Hle & Htp & Hsl & Hkeep).
  fold K p in Hrun, He, Hidx, Hpm, Hle, Htp, Hsl. cbv zeta in Hrun. set (row' := idx ++ drop (key_len K) row) in *.
  destruct (radix_ok_of ps eagle ps_pos P' (n :: L') st' Hi') as [Hok' Hpre].
  assert (Hpn : prefix_at st' n = zip (key_iter K) idx) by (unfold prefix_at; by rewrite (Hpre n nd Hn)).
  assert (Hli : length idx = length (key_iter K)) by (by rewrite length_key_iter).
  do 4 eexists. split; [exact Hrun|]. cbn [last_node creq creq_extra_key]. split; [done|]. split; [|split; [split|]].
  - rewrite Hpn. unfold row'. rewrite <- (app_nil_r (key_iter K)) at 2. rewrite zip_with_app by done. by rewrite app_nil_r.
  - by exists nd.
  - cbn [last_node]. rewrite Hpn. cbn. unfold len. rewrite length_zip_with. lia.
  - cbn [last_node creq_extra_key creq]. rewrite Hpn, fst_zip by lia. done.
  - cbn [last_node]. rewrite Hpn, snd_zip by lia. by apply prefix_app_r.
  - cbn. unfold row'. rewrite length_app, length_drop. lia.
  - split; [cbn; unfold len; by rewrite Hidx|]. split; [done|].
    split; [unfold row'; by rewrite take_app_le by lia|].
    split; [unfold row'; by apply drop_app_length'|]. split.
    + rewrite Hsl. apply split_slots. lia.
    + intros h Hh. apply (Hkeep h Hh).
Qed.

(** Giving a lock back changes nothing else. *)
Lemma unlock_keep P L L' st old :
  inv P L st -> L ≡ₚ old :: L' ->
  exists d st', dec_lock_ref false old st = Ok (d, st') /\ radix_ok L' st' /\ tree_slots st' = tree_slots st /\
    (forall h hd, nodes st !! h = Some hd -> prefix_at st' h = ents P st h) /\
    (forall n nd e, nodes st !! n = Some nd -> in_space st n nd e ->
       exists nd', nodes st' !! n = Some nd' /\ in_space st' n nd' e).
Proof.
  intros Hi HL. destruct (dec_lock_ref_spec ps eagle ps_pos P L L' st old Hi HL) as (st' & Hrun & Hi' & Hlo).
  destruct (radix_ok_of ps eagle ps_pos P L' st' Hi') as [Hok Hpre]. do 2 eexists. split; [exact Hrun|]. split; [done|].
  split; [by apply lock_only_slots|]. split.
  - intros h hd Hh. destruct (lock_only_lookup _ _ _ _ Hlo Hh) as (hd' & Hh' & _). unfold prefix_at.
    by rewrite (Hpre h hd' Hh'), (lock_only_ents P st st' h Hlo).
  - intros n nd e Hn Hs. destruct (lock_only_lookup _ _ _ _ Hlo Hn) as (nd' & Hn' & _ & _ & Hk & _). exists nd'. split; [done|].
    unfold in_space in *. by rewrite <- (lo_root _ _ Hlo), Hk.
Qed.

(** What remains of the row when the cache has taken positions [m .. n). *)
Lemma split_finished (t row : list Z) p m n k :
  (p <= m <= n)%nat -> (n <= k)%nat ->
  (drop m (take n row) ++ t) ++ drop p (take m row) ++ drop n (take k row) ≡ₚ t ++ drop p (take k row).
Proof.
  intros Hm Hn. rewrite (app_assoc _ (drop p (take m row))), split_slots by lia.
  rewrite (Permutation_app_comm (t ++ _)), app_assoc, (Permutation_app_comm _ t), <- (app_assoc t).
  rewrite <- (split_slots t row p n k) by lia. solve_Permutation.
Qed.

(** The request once its committed slots have been popped. *)
Definition popped (q : cache_req) : cache_req :=
  let k := kvs (creq q) in
  CacheReq (set_kvs (creq q) (ReqKV (req_pool_idx k) (kv_committed_len k) (kv_allocated_len k) true
    (kv_overallocated_freed k) (cache_protected_len k))) (creq_extra_key q) (creq_priority q) (last_node q).

(** The outcome of finishing a request: [dups] and [tail] went to the
    allocator. *)
Record finished (L' : list nat) (st : radix) (q : cache_req) (toks row : list Z) (inserted : bool)
    (dups tail : list Z) (st' : radix) : Prop := {
  fi_ok : radix_ok L' st';
  fi_slots : tree_slots st' ++ dups ++ tail ≡ₚ
    tree_slots st ++ drop (Z.to_nat (cache_protected_len (kvs (creq q)))) (take (length toks) row);
  fi_cached : inserted = true -> exists vs, length vs = key_len (req_key (creq_extra_key q) toks) /\
    cached_as st' (creq_extra_key q) (zip (key_iter (req_key (creq_extra_key q) toks)) vs);
  fi_same : inserted = false -> tree_slots st' ≡ₚ tree_slots st;
  fi_kept h : h ∈ L' -> ref_kept st st' h;
}.

(** The row is freed and only the lock changes. *)
Lemma finished_plain q toks row st L L' :
  let p := Z.to_nat (cache_protected_len (kvs (creq q))) in
  let K := req_key (creq_extra_key q) toks in
  radix_ok L st -> L ≡ₚ last_node q :: L' -> (p <= key_len K)%nat -> (key_len K <= length toks)%nat ->
  exists d st', dec_lock_ref false (last_node q) st = Ok (d, st') /\
    finished L' st q toks row false (drop p (take (key_len K) row)) (drop (key_len K) (take (length toks) row)) st'.
Proof.
  intros p K Hi HL Hpk Hle.
  destruct (unlock_keep (path st) L L' st (last_node q) Hi HL) as (d & st' & Hdec & Hok & Hsl & Hpre & Hsp).
  exists d, st'. split; [done|]. split; [done| |done|by rewrite Hsl|].
  - rewrite Hsl. fold p. pose proof (split_finished (tree_slots st) row p (key_len K) (key_len K) (length toks) ltac:(lia) ltac:(lia)) as Hs.
    rewrite (drop_ge (take (key_len K) row)) in Hs by (rewrite length_take; lia). exact Hs.
  - intros h Hh. destruct (proj2 Hi h) as [hd Hhd]; [rewrite HL; by right|]. split; [by rewrite (Hpre h hd Hhd)|].
    intros e (nd & Hnd & Hs). by apply (Hsp h nd).
Qed.

Lemma finished_insert time q toks row prio st L L' :
  let p := Z.to_nat (cache_protected_len (kvs (creq q))) in
  let K := req_key (creq_extra_key q) toks in
  radix_ok L st -> L ≡ₚ last_node q :: L' -> attached st q toks row ->
  exists m st1 d st', insert time false ps eagle K (Some (take (key_len K) (take (length toks) row))) prio false st = Ok (m, st1) /\
    dec_lock_ref false (last_node q) st1 = Ok (d, st') /\ (p <= m <= key_len K)%nat /\
    finished L' st q toks row true (drop p (take m row)) (drop (key_len K) (take (length toks) row)) st'.
Proof.
  intros p K Hi HL Hat. pose proof Hat as [_ Hpl Hpu _ Hrow].
  assert (Hp : p = length (prefix_at st (last_node q))) by (unfold p; rewrite Hpl; unfold len; lia).
  destruct (req_key_spec (creq_extra_key q) toks) as (_ & _ & _ & _ & _ & Hle & _). fold K in Hle.
  destruct (insert_req time L st q toks row prio false Hi Hat) as
    (P1 & st1 & m & g & n' & nd' & Hins & Hi1 & Hr1 & [Hpm Hmk] & Hlg & Hsl1 & Hkeep1 & Hn' & Hs' & He' & Hu' & Hv' & Hg0).
  fold K in Hins, Hmk, Hsl1, Hu'. destruct (unlock_keep P1 L L' st1 (last_node q) Hi1 HL) as (d & st2 & Hdec & Hok2 & Hsl2 & Hpre2 & Hsp2).
  exists m, st1, d, st2. split; [exact Hins|]. split; [done|]. split; [lia|]. split; [done| | |done|].
  - rewrite Hsl2, Hsl1. fold p. rewrite take_take, Nat.min_l by lia. apply split_finished; lia.
  - intros _. exists (ents P1 st1 n').*2. fold K. split.
    + rewrite length_fmap, <- (length_fmap fst), Hu'. apply length_key_iter.
    + rewrite <- Hu', zip_fst_snd. destruct (Hsp2 n' nd' _ Hn' Hs') as (nd2 & Hn2 & Hs2). exists n', nd2. split; [done|].
      split; [done|]. by rewrite (Hpre2 n' nd' Hn').
  - intros h Hh. destruct (proj2 Hi h) as [hd Hhd]; [rewrite HL; by right|].
    destruct (Hkeep1 h hd Hhd) as (hd1 & Hhd1 & Hx1 & E1). split; [by rewrite (Hpre2 h hd1 Hhd1), E1|].
    intros e (nd & Hnd & Hs). rewrite Hhd in Hnd. injection Hnd as <-. apply (Hsp2 h hd1); [done|].
    unfold in_space in *. by rewrite Hr1, Hx1.
Qed.

Lemma finished_run time free dfi is_insert strip row q st a L L' :
  let toks := slice_to (origin_input_ids (info (creq q)) ++ output_ids (out (creq q))) (cache_commit_len strip (creq q)) in
  radix_ok L st -> L ≡ₚ last_node q :: L' -> kv_committed_freed (kvs (creq q)) = false -> attached st q toks row ->
  exists st' dups tail, cache_finished_req time free false ps eagle dfi is_insert strip row q st a =
      Ok (popped q, st', free tail (free dups a)) /\
    finished L' st q toks row (is_insert && negb dfi) dups tail st'.
Proof.
  intros toks Hi HL Hfr Hat. pose proof Hat as [_ Hpl Hpu _ Hrow]. set (p := Z.to_nat (cache_protected_len (kvs (creq q)))).
  set (K := req_key (creq_extra_key q) toks) in *.
  assert (Hp : p = length (prefix_at st (last_node q))) by (unfold p; rewrite Hpl; unfold len; lia).
  destruct (req_key_spec (creq_extra_key q) toks) as (_ & _ & _ & _ & _ & Hle & _). fold K in Hle.
  assert (Hpk : (p <= key_len K)%nat).
  { rewrite Hp, <- length_key_iter, <- (length_fmap fst). by apply prefix_length. }
  unfold cache_finished_req, pop_committed_kv_cache. rewrite Hfr. cbn [negb py_assert]. step_ok. step_ok.
  cbn [info out kvs set_kvs creq creq_extra_key last_node cache_protected_len]. fold toks.
  change (page_aligned ps (RadixKey toks (creq_extra_key q) eagle)) with K. change (set_kvs _ _) with (creq (popped q)).
  assert (Hcase : (if dfi then false else is_insert) = is_insert && negb dfi) by (destruct dfi, is_insert; done).
  rewrite Hcase. destruct (is_insert && negb dfi).
  - destruct (finished_insert time q toks row (Some (priority_of q)) st L L' Hi HL Hat) as (m & st1 & d & st' & Hins & Hdec & Hm & Hf).
    fold K p in Hins, Hm, Hf. unfold priority_of in *. cbn [creq_priority]. rewrite Hins. step_ok. step_ok. rewrite Hdec. step_ok.
    rewrite slice_drop_take by (rewrite ?Hpl; unfold len; lia). fold p. rewrite Nat2Z.id, take_take, Nat.min_l by lia.
    do 3 eexists. split; [reflexivity|exact Hf].
  - destruct (finished_plain q toks row st L L' Hi HL Hpk Hle) as (d & st' & Hdec & Hf). fold K p in Hf.
    step_ok. rewrite Hdec. step_ok. rewrite slice_drop_take by (rewrite ?Hpl; unfold len; lia). fold p.
    rewrite Nat2Z.id, take_take, Nat.min_l by lia. do 3 eexists. split; [reflexivity|exact Hf].
Qed.

(** Finishing a request returns every slot it still owns.  For a request
    attached to the tree, [cache_finished_req] succeeds, whether the prefix is
    inserted or not: each slot of the committed part of its row beyond the
    protected prefix is afterwards cached or given to the allocator, once; the
    request's lock is gone; when the prefix is inserted it is cached whole; and
    no other reference changes its meaning. *)
Theorem radix_cache_finished time free dfi is_insert strip row q st a L L' :
  let r := creq q in
  let toks := slice_to (origin_input_ids (info r) ++ output_ids (out r)) (cache_commit_len strip r) in
  let K := req_key (creq_extra_key q) toks in
  radix_ok L st -> L ≡ₚ last_node q :: L' -> kv_committed_freed (kvs r) = false -> attached st q toks row ->
  exists q' st' dups tail, cache_finished_req time free false ps eagle dfi is_insert strip row q st a =
      Ok (q', st', free tail (free dups a)) /\
    radix_ok L' st' /\
    tree_slots st' ++ dups ++ tail ≡ₚ
      tree_slots st ++ drop (Z.to_nat (cache_protected_len (kvs r))) (take (length toks) row) /\
    (is_insert && negb dfi = true -> exists vs, length vs = key_len K /\
       cached_as st' (creq_extra_key q) (zip (key_iter K) vs)) /\
    (is_insert && negb dfi = false -> tree_slots st' ≡ₚ tree_slots st) /\
    (forall h, h ∈ L' -> prefix_at st' h = prefix_at st h).
Proof.
  intros r toks K Hi HL Hfr Hat.
  destruct (finished_run time free dfi is_insert strip row q st a L L' Hi HL Hfr Hat) as (st' & dups & tail & Hrun & [Hok Hs Hc Hn Hk]).
  exists (popped q), st', dups, tail. do 5 (split; [done|]). intros h Hh. by apply Hk.
Qed.
End requests.
