(* ===== verification/RadixPrefixCache.v ===== *)
(** * The radix cache behind the scheduler

    [RadixCache] as an instance of the interface of MemCommon.v, so that every
    theorem about the diffusion server holds for a server that runs on it: with
    page size one, without the bigram view, for every eviction strategy and
    every reading of the clock.  A diffusion request is released without being
    inserted and without a cached prefix, so its [last_node] is the root. *)

From S2P Require Import Prelude Allocator DllmReq MemCommon RadixKey RadixCache RadixCacheProofs RadixCacheTheorems.
Import Radix.

(** ** Freeing *)

Lemma free_all freed : forall a,
  Token.pool (foldl (fun a v => Token.free v a) a freed) ≡ₚ concat freed ++ Token.pool a /\
  is_not_in_free_group (foldl (fun a v => Token.free v a) a freed) = is_not_in_free_group a /\
  (Token.wf a -> Token.wf (foldl (fun a v => Token.free v a) a freed)).
Proof.
  induction freed as [|v freed IH]; intros a; cbn [foldl concat]; [done|].
  destruct (IH (Token.free v a)) as (Hp & Hg & Hw). rewrite Hp, Token.free_pool, Hg, Token.free_group_flag.
  split; [solve_Permutation|]. split; [done|]. intros Hwf. by apply Hw, Token.free_wf.
Qed.

Lemma reset_slots time id clk : tree_slots (reset time id clk) = [].
Proof. unfold tree_slots, mcat, reset. cbn [nodes]. by rewrite map_to_list_singleton. Qed.

Section instance.
Context `{!HeapQ} (time : nat -> Z) (strat : strategy) (disable_finished_insert : bool).
(** The namespace and the priority a request carries. *)
Context (extra_key_of : req -> option string) (prio_of : req -> option Z).

Definition tree_evict (n : Z) (s : radix * allocator) : res (radix * allocator) :=
  '(_, t, a) ← evict Token.free false 1 strat n (fst s) (snd s);
  Ok (t, a).

Definition tree_finished_req (is_insert : bool) (row : list Z) (r : req) (s : radix * allocator)
    : res (req * (radix * allocator)) :=
  '(q, t, a) ← cache_finished_req time Token.free false 1 false disable_finished_insert is_insert false row
    (CacheReq r (extra_key_of r) (prio_of r) (root_node (fst s))) (fst s) (snd s);
  Ok (creq q, (t, a)).

Lemma tree_evict_conserves n t a :
  radix_ok 1 false [] t -> exists t' a', tree_evict n (t, a) = Ok (t', a') /\ radix_ok 1 false [] t' /\
  tree_slots t' ++ Token.pool a' ≡ₚ tree_slots t ++ Token.pool a /\
  is_not_in_free_group a' = is_not_in_free_group a /\ (Token.wf a -> Token.wf a').
Proof.
  intros Hi.
  destruct (evict_loop_spec 1 false ltac:(lia) Token.free strat n (path t) [] (base.size (nodes t)) t 0
    (item_of strat t <$> elements (evictable_leaves t)) a Hi ltac:(lia) ltac:(done)) as (t' & freed & Hrun & He & _).
  destruct (evictions_spec 1 false ltac:(lia) strat (path t) [] t freed t' He Hi) as (Hi' & _ & Hsl & _).
  destruct (free_all freed a) as (Hp & Hg & Hw).
  unfold tree_evict, evict. cbn [fst snd]. rewrite Hrun. step_ok. do 2 eexists. split; [reflexivity|].
  split; [by eapply (radix_ok_of 1 false ltac:(lia))|]. split; [|done]. rewrite Hp, Hsl. solve_Permutation.
Qed.

(** Unlocking the root does nothing. *)
Lemma dec_lock_root t : radix_ok 1 false [] t -> dec_lock_ref false (root_node t) t = Ok (0, t).
Proof.
  intros [Hok _]. destruct (ok_root _ _ _ _ _ Hok) as (rd & Hrd & _). unfold dec_lock_ref.
  destruct (base.size (nodes t)) as [|n] eqn:Hn.
  - apply map_size_empty_iff in Hn. by rewrite Hn, lookup_empty in Hrd.
  - cbn [dec_loop]. by rewrite Nat.eqb_refl.
Qed.

(** Finishing without inserting: the committed part of the row is freed. *)
Lemma tree_finished_run row r t a :
  radix_ok 1 false [] t -> kv_committed_freed (kvs r) = false ->
  let toks := slice_to (origin_input_ids (info r) ++ output_ids (out r)) (kv_committed_len (kvs r)) in
  let kv_indices := take (length toks) row in
  tree_finished_req false row r (t, a) =
    Ok (set_kvs r (ReqKV (req_pool_idx (kvs r)) (kv_committed_len (kvs r)) (kv_allocated_len (kvs r))
          true (kv_overallocated_freed (kvs r)) (cache_protected_len (kvs r))),
        (t, Token.free (drop (length toks) kv_indices)
              (Token.free (slice kv_indices (cache_protected_len (kvs r)) (len toks)) a))).
Proof.
  intros Hi Hf toks kvi. unfold tree_finished_req, cache_finished_req, pop_committed_kv_cache. cbn [creq fst snd].
  rewrite Hf. cbn [negb py_assert]. do 2 step_ok. cbn [info out kvs set_kvs cache_protected_len cache_commit_len]. fold toks.
  change (page_aligned 1 ?k) with k. cbn [key_len is_bigram RadixKey.token_ids].
  destruct disable_finished_insert; step_ok; cbn [last_node]; rewrite dec_lock_root by done; step_ok; done.
Qed.

#[program] Definition RadixPrefixCache : PrefixCache radix := {|
  cache_ok := radix_ok 1 false [];
  is_chunk_cache _ := false;
  evictable_size := evictable_size_;
  cached := tree_slots;
  MemCommon.evict := tree_evict;
  MemCommon.cache_finished_req := tree_finished_req;
|}.
Next Obligation. apply tree_evict_conserves. Qed.
Next Obligation.
  intros row r t a r' t' a' Hi Hrun Hp Hc Hs. destruct (kv_committed_freed (kvs r)) eqn:Hf.
  { unfold tree_finished_req, cache_finished_req, pop_committed_kv_cache in Hrun. cbn [creq] in Hrun. by rewrite Hf in Hrun. }
  rewrite (tree_finished_run row r t a Hi Hf) in Hrun. injection Hrun as <- <- <-. split; [done|].
  set (toks := slice_to _ _). assert (Hl : length toks = Z.to_nat (kv_committed_len (kvs r))).
  { subst toks. rewrite slice_to_take, length_take, length_app by done. unfold seqlen, len in Hs. lia. }
  rewrite !Token.free_group_flag. split; [|split; [done|intros Hw; by do 2 apply Token.free_wf]].
  rewrite !Token.free_pool, Hp, slice_drop_take, drop_0, drop_ge, slice_to_take by (rewrite ?length_take; unfold len; lia).
  rewrite take_take. unfold len. rewrite Nat2Z.id, Hl, Nat.min_id. solve_Permutation.
Qed.
Next Obligation.
  intros row r t a r' t' a' Hrun. unfold tree_finished_req in Hrun.
  apply res_bind_Ok in Hrun as ([[q t1] a1] & Hrun & Hr). injection Hr as <- _ _.
  unfold cache_finished_req, pop_committed_kv_cache in Hrun. cbn [creq] in Hrun.
  destruct (kv_committed_freed (kvs r)) eqn:Hf; [done|]. split; [done|]. cbn [negb py_assert] in Hrun.
  destruct disable_finished_insert; do 3 (change (Ok ?x ≫= ?f) with (f x) in Hrun; cbn beta iota zeta in Hrun);
    apply res_bind_Ok in Hrun as ([d t2] & _ & Hrun); by injection Hrun as <- _ _.
Qed.
Next Obligation.
  intros row r t a Hi Hf. rewrite (tree_finished_run row r t a Hi Hf). by do 3 eexists.
Qed.
End instance.
