(* ===== verification/RadixLocks.v ===== *)
(** * Locks on the radix tree

    What an admission does with the tree while it decides: it locks a prefix,
    looks at what is left to evict, and unlocks it again or keeps one lock. *)

From S2P Require Import Prelude Allocator DllmReq MemCommon RadixKey RadixCache RadixCacheProofs RadixCacheTheorems RadixCacheRequests.
Import Radix.

Section locks.
Context (ps : nat) (eagle : bool) (ps_pos : (0 < ps)%nat).
Notation inv := (inv ps eagle).
Notation radix_ok := (radix_ok ps eagle).

(** The locks held determine the counters of the nodes. *)
Lemma same_locks_nodes P L st st' : inv P L st -> inv P L st' -> lock_only st st' -> nodes st' = nodes st.
Proof.
  intros [Hok _] [Hok' _] Hlo. apply map_eq. intros n. pose proof (lo_nodes _ _ Hlo) as Hs. apply (f_equal (lookup n)) in Hs.
  rewrite !lookup_fmap in Hs. destruct (nodes st !! n) as [nd|] eqn:Hn, (nodes st' !! n) as [nd'|] eqn:Hn'; try done.
  f_equal. assert (Hl : lock_ref nd' = lock_ref nd).
  { destruct (decide (n = root_node st)) as [->|Hr].
    - destruct (ok_root _ _ _ _ _ Hok) as (rd & Hrd & _ & H1 & _), (ok_root _ _ _ _ _ Hok') as (rd' & Hrd' & _ & H1' & _).
      rewrite <- (lo_root _ _ Hlo) in Hrd'. congruence.
    - rewrite (proj1 (ok_lock _ _ _ _ _ Hok n nd Hn Hr)). apply (ok_lock _ _ _ _ _ Hok' n nd' Hn'). by rewrite <- (lo_root _ _ Hlo). }
  cbn in Hs. injection Hs as H1 H2 H3 H4 H5 H6 H7 H8. destruct nd, nd'; cbn in *; congruence.
Qed.

Lemma same_locks_size P L st st' : inv P L st -> inv P L st' -> lock_only st st' -> evictable_size_ st' = evictable_size_ st.
Proof.
  intros Hi Hi' Hlo. rewrite (ok_evictable _ _ _ _ _ (proj1 Hi)), (ok_evictable _ _ _ _ _ (proj1 Hi')). by rewrite (same_locks_nodes P L st st').
Qed.

(** Locks do not change what a reference means. *)
Lemma lock_only_kept L' st st' h :
  inv (path st) L' st' -> lock_only st st' -> is_Some (nodes st !! h) -> ref_kept st st' h.
Proof.
  intros Hi' Hlo [hd Hh]. destruct (lock_only_lookup _ _ _ _ Hlo Hh) as (hd' & Hh' & _ & _ & Hk & _).
  destruct (radix_ok_of ps eagle ps_pos _ L' st' Hi') as [_ Hpre]. split.
  - unfold prefix_at at 1. by rewrite (Hpre h hd' Hh'), (lock_only_ents _ st st' h Hlo).
  - intros e (nd & Hnd & Hs). assert (nd = hd) as -> by congruence. exists hd'. split; [done|].
    unfold in_space in *. by rewrite <- (lo_root _ _ Hlo), Hk.
Qed.

(** [L'] are the locks on the tree [st'], which is [st] otherwise. *)
Record relocked (L' : list nat) (st st' : radix) : Prop := {
  rl_ok : radix_ok L' st';
  rl_kept h : is_Some (nodes st !! h) -> ref_kept st st' h;
  rl_slots : tree_slots st' = tree_slots st;
}.

Lemma relocked_of L' st st' : inv (path st) L' st' -> lock_only st st' -> relocked L' st st'.
Proof.
  intros Hi Hlo. split.
  - apply (radix_ok_of ps eagle ps_pos _ L' st' Hi).
  - intros h. by apply (lock_only_kept L').
  - by apply lock_only_slots.
Qed.

(** The locks of an admission: [t1] holds one lock more; unlocked, it is back
    at [t0], locked again and unlocked once, it is where it was. *)
Lemma admission_locks L st n :
  radix_ok L st -> is_Some (nodes st !! n) ->
  exists d1 t1 d0 t0 d2 t2 d3 t3,
    inc_lock_ref false n st = Ok (d1, t1) /\
    dec_lock_ref false n t1 = Ok (d0, t0) /\ relocked L st t0 /\ evictable_size_ t0 = evictable_size_ st /\
    inc_lock_ref false n t1 = Ok (d2, t2) /\ dec_lock_ref false n t2 = Ok (d3, t3) /\
    relocked (n :: L) st t3 /\ evictable_size_ t3 = evictable_size_ t1.
Proof.
  intros Hi [nd Hn].
  destruct (inc_lock_ref_spec ps eagle ps_pos _ L st n nd Hi Hn) as (t1 & R1 & I1 & O1).
  destruct (dec_lock_ref_spec ps eagle ps_pos _ (n :: L) L t1 n I1 ltac:(done)) as (t0 & R0 & I0 & O0).
  destruct (lock_only_lookup _ _ _ _ O1 Hn) as (nd1 & Hn1 & _).
  destruct (inc_lock_ref_spec ps eagle ps_pos _ (n :: L) t1 n nd1 I1 Hn1) as (t2 & R2 & I2 & O2).
  destruct (dec_lock_ref_spec ps eagle ps_pos _ (n :: n :: L) (n :: L) t2 n I2 ltac:(done)) as (t3 & R3 & I3 & O3).
  assert (O00 : lock_only st t0) by (by transitivity t1).
  assert (O13 : lock_only t1 t3) by (by transitivity t2).
  do 8 eexists. split; [exact R1|]. split; [exact R0|]. split; [by apply relocked_of|].
  split; [by apply (same_locks_size (path st) L)|]. split; [exact R2|]. split; [exact R3|].
  split; [apply relocked_of; [done|by transitivity t1]|]. by apply (same_locks_size (path st) (n :: L)).
Qed.

(** ** How much is locked *)

(** A sum over a map is at most the sum over any list of keys that has every
    key with a value other than zero. *)
Lemma msum_support (f : tree_node -> Z) (m0 : gmap nat tree_node) l : forall m,
  (forall nd, 0 <= f nd) -> m ⊆ m0 -> (forall n nd, m !! n = Some nd -> n ∉ l -> f nd = 0) ->
  msum f m <= foldr (fun x acc => f (m0 !!! x) + acc) 0 l.
Proof.
  induction l as [|x l IH]; intros m Hf Hsub Hs; cbn [foldr].
  - assert (He : msum f m = msum (fun _ => 0) m) by (apply msum_ext; intros n nd Hn; apply (Hs n nd Hn), not_elem_of_nil).
    rewrite He. clear. induction m as [|n nd m Hn IH] using map_ind; [done|]. by rewrite msum_insert.
  - destruct (m !! x) as [xd|] eqn:Hx.
    + rewrite (msum_delete f m x xd Hx). assert (Hx0 : m0 !!! x = xd) by (apply lookup_total_correct; by eapply lookup_weaken).
      rewrite Hx0. apply Z.add_le_mono_l, IH; [done|by etransitivity; [apply delete_subseteq|]|].
      intros n nd Hn Hl. apply lookup_delete_Some in Hn as [Hne Hn]. apply (Hs n nd Hn). intros [?|?]%elem_of_cons; done.
    + specialize (IH m Hf Hsub). pose proof (Hf (m0 !!! x)). assert (Hl : msum f m <= foldr (fun x acc => f (m0 !!! x) + acc) 0 l); [|lia].
      apply IH. intros n nd Hn Hl. apply (Hs n nd Hn). intros [->|?]%elem_of_cons; [congruence|done].
Qed.

Lemma path_length P lk st n nd : tree_ok ps eagle P lk st -> nodes st !! n = Some nd ->
  foldr (fun x acc => lock_part (nodes st !!! x) + acc) 0 (P n) <= len (ents P st n).
Proof.
  intros Hok Hn. unfold ents. pose proof (path_mem ps eagle ps_pos P lk st Hok n nd) as Hmem.
  assert (Hin : forall x, x ∈ P n -> exists xd, nodes st !! x = Some xd /\ x <> root_node st).
  { intros x Hx. destruct (Hmem x Hn Hx) as (xd & _ & ? & ? & _). by exists xd. }
  clear Hmem. induction (P n) as [|x l IH]; [done|]. cbn [foldr]. rewrite bind_cons, len_app.
  destruct (Hin x ltac:(by left)) as (xd & Hx & Hr). destruct (ok_node _ _ _ _ _ Hok x xd Hx Hr) as (p & pd & Hno).
  specialize (IH ltac:(intros y Hy; apply Hin; by right)). rewrite (lookup_total_correct _ _ _ Hx).
  assert (Hs : len (seg xd) = Z.of_nat (key_len (key xd))).
  { unfold seg, units, len. rewrite length_zip_with, length_key_iter, (no_value _ _ _ _ _ _ _ _ Hno). lia. }
  rewrite Hs. unfold lock_part at 1. destruct (lock_ref xd =? 0); lia.
Qed.

Lemma foldr_sum {A} (f : A -> Z) l a : foldr (fun x acc => f x + acc) a l = foldr (fun x acc => f x + acc) 0 l + a.
Proof. induction l as [|x l IH]; cbn; lia. Qed.

Lemma paths_length P lk st L : tree_ok ps eagle P lk st -> (forall h, h ∈ L -> is_Some (nodes st !! h)) ->
  foldr (fun x acc => lock_part (nodes st !!! x) + acc) 0 (L ≫= P) <= foldr (fun h acc => len (ents P st h) + acc) 0 L.
Proof.
  intros Hok. induction L as [|h L IH]; intros HL; [done|]. rewrite bind_cons, foldr_app, foldr_sum. cbn [foldr].
  destruct (HL h ltac:(by left)) as [hd Hh]. pose proof (path_length P lk st h hd Hok Hh).
  specialize (IH ltac:(intros x Hx; apply HL; by right)). lia.
Qed.

(** The locked part of the tree is at most what the locks stand for. *)
Lemma protected_bound L st : radix_ok L st -> protected_size_ st <= foldr (fun h acc => len (prefix_at st h) + acc) 0 L.
Proof.
  intros [Hok HL]. rewrite (ok_protected _ _ _ _ _ Hok).
  transitivity (foldr (fun x acc => lock_part (nodes st !!! x) + acc) 0 (L ≫= path st)); [|by apply (paths_length (path st) _ st L Hok)].
  apply msum_support; [intros nd; unfold lock_part; destruct (_ =? 0); lia|done|]. intros n nd Hn Hni. unfold lock_part.
  destruct (decide (n = root_node st)) as [->|Hr].
  - destruct (ok_root _ _ _ _ _ Hok) as (rd & Hrd & _ & _ & Hk & _). assert (nd = rd) as -> by congruence. rewrite Hk. by destruct (_ =? 0).
  - destruct (ok_lock _ _ _ _ _ Hok n nd Hn Hr) as [Hl _]. rewrite Hl. destruct (Z.eqb_spec (locks_on (path st) L n) 0) as [?|Hz]; [done|].
    exfalso. apply Hni. unfold locks_on in Hz. destruct (filter (fun h => n ∈ path st h) L) as [|h l] eqn:Hfl; [done|].
    assert (Hh : h ∈ filter (fun h => n ∈ path st h) L) by (rewrite Hfl; by left). apply list_elem_of_filter in Hh as [Hp Hin].
    apply list_elem_of_bind. by exists h.
Qed.

Lemma evictable_bound L st : radix_ok L st ->
  len (tree_slots st) - foldr (fun h acc => len (prefix_at st h) + acc) 0 L <= evictable_size_ st.
Proof. intros Hi. pose proof (sizes_exact ps eagle ps_pos _ L st Hi). pose proof (protected_bound L st Hi). lia. Qed.

(** What can still be evicted under one lock. *)
Lemma lock_leaves st n d t1 : radix_ok [] st -> is_Some (nodes st !! n) -> inc_lock_ref false n st = Ok (d, t1) ->
  len (tree_slots st) - len (prefix_at st n) <= evictable_size_ t1.
Proof.
  intros Hi [nd Hn] Hrun. destruct (inc_lock_ref_spec ps eagle ps_pos _ [] st n nd Hi Hn) as (t & R & I & O).
  rewrite Hrun in R. injection R as _ ->. destruct (relocked_of [n] st t I O) as [Hok Hk Hs].
  pose proof (evictable_bound [n] t Hok) as Hb. cbn [foldr] in Hb. rewrite Hs in Hb. destruct (Hk n ltac:(by eexists)) as [Hp _]. rewrite Hp in Hb. lia.
Qed.
End locks.
