(* ===== verification/RadixCacheExamples.v ===== *)
(** * The radix cache on concrete trees

    A priority queue that satisfies what the cache asks of [heapq], a small
    tree built by the operations themselves, and the theorems at that tree. *)

From S2P Require Import Prelude Allocator DllmReq MemCommon RadixKey RadixCache RadixCacheProofs RadixCacheTheorems RadixCacheRequests.
Import Radix.

(** ** A queue that pops the first minimum *)

Lemma tuple_lt_trans a b c : tuple_lt a b = true -> tuple_lt b c = true -> tuple_lt a c = true.
Proof.
  revert b c. induction a as [|x a IH]; intros [|y b] [|z c]; cbn; try done.
  rewrite !orb_true_iff, !andb_true_iff, !Z.ltb_lt, !Z.eqb_eq. intros [?|[-> ?]] [?|[-> ?]]; [left; lia..|].
  right. split; [done|]. by apply (IH b).
Qed.

Lemma tuple_lt_total a b : tuple_lt a b = false -> a = b \/ tuple_lt b a = true.
Proof.
  revert b. induction a as [|x a IH]; intros [|y b]; cbn; try done; [by left|by right|].
  rewrite orb_false_iff, andb_false_iff, orb_true_iff, andb_true_iff, Z.ltb_ge, Z.ltb_lt, Z.eqb_neq, Z.eqb_eq.
  intros [Hle [Hne|Hlt]]; [right; left; lia|]. destruct (decide (x = y)) as [->|]; [|right; left; lia].
  destruct (IH b Hlt) as [->|?]; [by left|right; by right].
Qed.

Lemma tuple_lt_irrefl a : tuple_lt a a = false.
Proof. induction a as [|x a IH]; [done|]. cbn. by rewrite Z.ltb_irrefl, Z.eqb_refl, IH. Qed.

(** No entry is below one without being below everything not above it. *)
Lemma item_lt_cotrans x y z : item_lt z x = true -> item_lt y x = false -> item_lt z y = true.
Proof.
  unfold item_lt. destruct (decide (hi_priority z = hi_priority x)) as [Hzx|Hzx].
  - rewrite (bool_decide_true _ Hzx). destruct (decide (hi_priority y = hi_priority x)) as [Hyx|Hyx].
    + rewrite (bool_decide_true _ Hyx), bool_decide_true, !Z.ltb_lt, Z.ltb_ge by congruence. lia.
    + rewrite (bool_decide_false _ Hyx), bool_decide_false by congruence. intros _ Ht.
      apply tuple_lt_total in Ht as [?|Ht]; [congruence|]. by rewrite Hzx.
  - rewrite (bool_decide_false _ Hzx). intros Hz. destruct (decide (hi_priority y = hi_priority x)) as [Hyx|Hyx].
    + rewrite (bool_decide_true _ Hyx), bool_decide_false by congruence. by rewrite Hyx.
    + rewrite (bool_decide_false _ Hyx). intros [?|Ht]%tuple_lt_total; [congruence|].
      pose proof (tuple_lt_trans _ _ _ Hz Ht) as Hzy. case_bool_decide as He; [|done].
      rewrite He, tuple_lt_irrefl in Hzy. done.
Qed.

Lemma item_lt_irrefl i : item_lt i i = false.
Proof. unfold item_lt. rewrite bool_decide_true by done. apply Z.ltb_irrefl. Qed.

Lemma item_lt_asym a b : item_lt a b = true -> item_lt b a = false.
Proof.
  unfold item_lt. destruct (decide (hi_priority a = hi_priority b)) as [H|H].
  - rewrite (bool_decide_true _ H), bool_decide_true, Z.ltb_lt, Z.ltb_ge by congruence. lia.
  - rewrite (bool_decide_false _ H), bool_decide_false by congruence. intros Hab.
    destruct (tuple_lt (hi_priority b) (hi_priority a)) eqn:Hba; [|done].
    by rewrite <- (tuple_lt_trans _ _ _ Hab Hba), tuple_lt_irrefl.
Qed.

Fixpoint pop_min (l : list heap_item) : option (heap_item * list heap_item) :=
  match l with
  | [] => None
  | x :: l =>
      match pop_min l with
      | None => Some (x, [])
      | Some (y, r) => if item_lt y x then Some (y, x :: r) else Some (x, l)
      end
  end.

#[global, program] Instance first_min_queue : HeapQ := {| heappop := pop_min |}.
Next Obligation.
  intros [|x l]; [done|]. cbn. destruct (pop_min l) as [[y r]|]; [by destruct (item_lt y x)|done].
Qed.
Next Obligation.
  intros l. induction l as [|a l IH]; [done|]. intros x l'. cbn. destruct (pop_min l) as [[y r]|] eqn:Hp.
  - destruct (item_lt y a); intros [= <- <-]; [|done]. rewrite (IH _ _ eq_refl). apply Permutation_swap.
  - intros [= <- <-]. destruct l as [|b l]; [done|]. cbn in Hp. destruct (pop_min l) as [[y r]|]; [by destruct (item_lt y b)|done].
Qed.
Next Obligation.
  intros l. induction l as [|a l IH]; [done|]. intros x l' z. cbn. destruct (pop_min l) as [[y r]|] eqn:Hp.
  - destruct (item_lt y a) eqn:Hya; intros [= <- <-] [->|Hz]%elem_of_cons.
    + destruct (item_lt a y) eqn:Hay; [|done].
      by rewrite (item_lt_asym _ _ Hay) in Hya.
    + by apply (IH _ _ z eq_refl).
    + apply item_lt_irrefl.
    + destruct (item_lt z a) eqn:Hza; [|done]. pose proof (item_lt_cotrans _ y _ Hza Hya).
      specialize (IH _ _ z eq_refl Hz). congruence.
  - intros [= <- <-] [->|Hz]%elem_of_cons; [apply item_lt_irrefl|]. destruct l as [|b l]; [by apply elem_of_nil in Hz|].
    cbn in Hp. destruct (pop_min l) as [[y r]|]; [by destruct (item_lt y b)|done].
Qed.

(** ** A small tree

    [[1; 2; 3]] and [[1; 2; 4; 5]] inserted into a fresh cache of page size 1:
    a node for [[1; 2]] with two leaves below. *)

Definition demo_time (n : nat) : Z := Z.of_nat n.
Definition demo_key (toks : list Z) : radix_key := RadixKey toks None false.

Definition demo_insert (toks vals : list Z) (st : radix) : radix :=
  match insert demo_time false 1 false (demo_key toks) (Some vals) None false st with
  | Ok (_, st) => st
  | Raise _ => st
  end.

Definition demo_tree : radix :=
  demo_insert [1; 2; 4; 5] [21; 22; 23; 24] (demo_insert [1; 2; 3] [11; 12; 13] (reset demo_time 0 0)).

(** The tree with a lock on its root, node 0, where a request without a cached prefix
    holds it. *)
Definition demo_locked : radix :=
  match inc_lock_ref false 0 demo_tree with Ok (_, st) => st | Raise _ => demo_tree end.

Lemma demo_insert_ok L toks vals st :
  radix_ok 1 false L st -> (length toks <= length vals)%nat -> radix_ok 1 false L (demo_insert toks vals st).
Proof.
  intros Hi Hl. unfold demo_insert.
  destruct (insert_spec 1 false ltac:(lia) demo_time (path st) L st (demo_key toks) vals None false Hi ltac:(done) Hl)
    as (P & st' & m & g & -> & Hin). eapply radix_ok_of; [lia|apply Hin].
Qed.

Lemma demo_tree_ok : radix_ok 1 false [] demo_tree.
Proof. apply demo_insert_ok; [|cbn; lia]. apply demo_insert_ok; [|cbn; lia]. apply reset_ok. lia. Qed.

Lemma demo_locked_ok : radix_ok 1 false [0%nat] demo_locked.
Proof.
  destruct (ok_root _ _ _ _ _ (proj1 demo_tree_ok)) as (rd & Hrd & _).
  assert (Hr : root_node demo_tree = 0%nat) by (vm_compute; reflexivity). rewrite Hr in Hrd.
  destruct (inc_lock_ref_spec 1 false ltac:(lia) _ [] demo_tree _ rd demo_tree_ok Hrd) as (st' & Hrun & Hi & _).
  unfold demo_locked. rewrite Hrun. eapply radix_ok_of; [lia|done].
Qed.

Definition result {A} (x : res A) : option A := match x with Ok a => Some a | Raise _ => None end.

Lemma radix_match_prefix_witness :
  exists st', match_prefix demo_time false 1 false (demo_key [1; 2; 3; 9]) demo_tree = Ok ([11; 12; 13], 1%nat, st') /\
    tree_slots st' ≡ₚ tree_slots demo_tree.
Proof.
  destruct (radix_match_prefix 1 false ltac:(lia) demo_time [] demo_tree (demo_key [1; 2; 3; 9]) demo_tree_ok ltac:(done))
    as (g & n & st' & Hrun & _ & _ & _ & _ & _ & _ & _ & Hs).
  assert (Hc : fst <$> result (match_prefix demo_time false 1 false (demo_key [1; 2; 3; 9]) demo_tree) =
    Some ([11; 12; 13], 1%nat)) by (vm_compute; reflexivity).
  rewrite Hrun in Hc. injection Hc as Hg Hn. exists st'. split; [|exact Hs]. by rewrite Hrun, Hg, Hn.
Defined.

Lemma radix_insert_witness :
  exists st', insert demo_time false 1 false (demo_key [1; 2; 3; 6]) (Some [31; 32; 33; 34]) None false demo_tree = Ok (3%nat, st') /\
    tree_slots st' ≡ₚ 34 :: tree_slots demo_tree.
Proof.
  destruct (radix_insert 1 false ltac:(lia) demo_time [] demo_tree (demo_key [1; 2; 3; 6]) [31; 32; 33; 34] None false
    demo_tree_ok ltac:(done) ltac:(cbn; lia)) as (g & st' & Hrun & _ & _ & _ & _ & _ & _ & Hs).
  assert (Hc : fst <$> result (insert demo_time false 1 false (demo_key [1; 2; 3; 6]) (Some [31; 32; 33; 34]) None false demo_tree) =
    Some 3%nat) by (vm_compute; reflexivity).
  rewrite Hrun in Hc. cbn in Hc. injection Hc as Hg. exists st'. rewrite Hrun, Hg. split; [reflexivity|].
  rewrite Hg in Hs. exact Hs.
Defined.

Definition demo_alloc : allocator := Allocator 64 1 false [1; 2; 3] [] true [].

(** The least recently used leaf is the first one inserted. *)
Lemma radix_evict_refines_witness :
  exists freed st' a', evict Token.free false 1 LRU 1 demo_tree demo_alloc = Ok (1, st', a') /\
    free_pages a' = [1; 2; 3; 13] /\ evictions 1 LRU demo_tree freed st'.
Proof.
  destruct (radix_evict_refines 1 false ltac:(lia) Token.free LRU [] demo_tree 1 demo_alloc demo_tree_ok)
    as (freed & st' & Hrun & He & _).
  assert (Hc : (fun r => (fst (fst r), free_pages (snd r))) <$> result (evict Token.free false 1 LRU 1 demo_tree demo_alloc) =
    Some (1, [1; 2; 3; 13])) by (vm_compute; reflexivity).
  rewrite Hrun in Hc. injection Hc as Hn Hf. do 3 eexists. split; [rewrite Hrun, Hn; reflexivity|]. split; [exact Hf|exact He].
Defined.

Lemma radix_counters_exact_witness :
  evictable_size_ demo_tree = 5 /\ protected_size_ demo_tree = 0 /\ len (tree_slots demo_tree) = 5 /\
  evictable_leaves demo_tree = {[1%nat; 3%nat]}.
Proof.
  assert (Hr : rtc (rstep 1 false demo_time Token.free LRU) (reset demo_time 0 0, []) (demo_tree, [])).
  { apply (rtc_l _ _ (demo_insert [1; 2; 3] [11; 12; 13] (reset demo_time 0 0), [])); [|apply rtc_once].
    - eapply (rstep_insert _ _ _ _ _ _ _ (demo_key [1; 2; 3]) [11; 12; 13] None false 0%nat); [done|cbn; lia|].
      vm_compute. reflexivity.
    - eapply (rstep_insert _ _ _ _ _ _ _ (demo_key [1; 2; 4; 5]) [21; 22; 23; 24] None false 2%nat); [done|cbn; lia|].
      vm_compute. reflexivity. }
  destruct (radix_counters_exact 1 false ltac:(lia) demo_time Token.free LRU 0 0 demo_tree [] Hr) as (Hs & _).
  assert (He : evictable_size_ demo_tree = 5) by (vm_compute; reflexivity).
  assert (Hp : protected_size_ demo_tree = 0) by (vm_compute; reflexivity).
  split; [exact He|]. split; [exact Hp|]. split; [lia|]. vm_compute. reflexivity.
Defined.

(** ** A request in the tree

    Nothing is protected yet and the request's lock is on the root; all of its
    prompt is already cached. *)
Definition demo_cache_req : cache_req :=
  CacheReq
    (Req (ReqInfo 1 [1; 2; 4] (SamplingParams 9 false []) [7] None 100 false (-1) false false)
      (ReqOut [] (LpChannels [] [] None None [] [] [] []) None None None)
      (ReqKV (Some 0%nat) 3 3 false false 0) (ReqIn [1; 2; 4] [] 3 0 0 None 0))
    None None 0.

Definition demo_row : list Z := [41; 42; 43; 0].

Lemma demo_attached : attached 1 false demo_locked demo_cache_req [1; 2; 4] demo_row.
Proof.
  assert (Hp : prefix_at demo_locked (last_node demo_cache_req) = []) by (vm_compute; reflexivity).
  split; rewrite ?Hp; [|done|apply prefix_nil|apply prefix_nil|cbn; lia].
  destruct (ok_root _ _ _ _ _ (proj1 demo_locked_ok)) as (rd & Hrd & _). exists rd.
  assert (Hl : 0%nat = root_node demo_locked) by (vm_compute; reflexivity).
  cbn [last_node demo_cache_req]. rewrite Hl. split; [exact Hrd|left; reflexivity].
Qed.

Lemma radix_cache_unfinished_witness :
  exists q' st' a', cache_unfinished_req demo_time Token.free false 1 false true demo_row demo_cache_req demo_locked demo_alloc =
      Ok (q', [11; 12; 23; 0], st', a') /\
    free_pages a' = [1; 2; 3; 41; 42; 43] /\ radix_ok 1 false [last_node q'] st'.
Proof.
  destruct (radix_cache_unfinished 1 false ltac:(lia) demo_time Token.free true demo_row demo_cache_req demo_locked demo_alloc
    [0%nat] [] demo_locked_ok ltac:(done) demo_attached) as (q' & row' & st' & freed & Hrun & Hok & _).
  assert (Hc : (fun r => (snd (fst (fst r)), free_pages (snd r))) <$> result
      (cache_unfinished_req demo_time Token.free false 1 false true demo_row demo_cache_req demo_locked demo_alloc) =
    Some ([11; 12; 23; 0], [1; 2; 3; 41; 42; 43])) by (vm_compute; reflexivity).
  rewrite Hrun in Hc. injection Hc as Hr Hf. do 3 eexists. split; [rewrite Hrun, Hr; reflexivity|]. split; [exact Hf|exact Hok].
Defined.

Lemma radix_cache_finished_witness :
  exists q' st' a', cache_finished_req demo_time Token.free false 1 false false true false demo_row demo_cache_req
      demo_locked demo_alloc = Ok (q', st', a') /\
    free_pages a' = [1; 2; 3; 41; 42; 43] /\ radix_ok 1 false [] st'.
Proof.
  destruct (radix_cache_finished 1 false ltac:(lia) demo_time Token.free false true false demo_row demo_cache_req demo_locked
    demo_alloc [0%nat] [] demo_locked_ok ltac:(done) ltac:(done) demo_attached)
    as (q' & st' & dups & tl & Hrun & Hok & _).
  assert (Hc : (fun r => free_pages (snd r)) <$> result (cache_finished_req demo_time Token.free false 1 false false true false
      demo_row demo_cache_req demo_locked demo_alloc) = Some [1; 2; 3; 41; 42; 43]) by (vm_compute; reflexivity).
  rewrite Hrun in Hc. injection Hc as Hf. do 3 eexists. split; [exact Hrun|]. split; [exact Hf|exact Hok].
Defined.
