(* ===== verification/DllmRadix.v ===== *)
(** * A diffusion server on the radix cache

    The scheduler's theorems at the radix cache: the two components composed
    through the interface of MemCommon.v, and a server that runs. *)

From S2P Require Import Prelude Allocator Tensor ForwardBatch LowConfidence DllmReq MemCommon KvAccounting DllmScheduler DllmSchedulerProofs DllmService ForwardInit DllmInstances DllmExamples RadixKey RadixCache RadixCacheProofs RadixCacheTheorems RadixPrefixCache RadixCacheExamples.
Import Radix.

(** Without locks everything that is cached can be evicted. *)
Lemma unlocked_sizes st :
  radix_ok 1 false [] st -> protected_size_ st = 0 /\ evictable_size_ st = len (tree_slots st).
Proof.
  intros Hi. pose proof (sizes_exact 1 false ltac:(lia) (path st) [] st Hi) as Hs. destruct Hi as [Hok _].
  assert (Hp : protected_size_ st = 0); [|split; lia]. rewrite (ok_protected _ _ _ _ _ Hok).
  rewrite (msum_ext _ (fun _ => 0)).
  - unfold msum. induction (_ <$> map_to_list (nodes st)) as [|x l IH]; [done|]. cbn in *. lia.
  - intros n nd Hn. destruct (decide (n = root_node st)) as [->|Hne].
    + destruct (ok_root _ _ _ _ _ Hok) as (rd & Hrd & _ & _ & Hk & _). rewrite Hn in Hrd. injection Hrd as <-.
      rewrite Hk. by destruct (_ =? _).
    + destruct (ok_lock _ _ _ _ _ Hok n nd Hn Hne) as [Hl _]. cbn in Hl. by rewrite Hl.
Qed.

Section server.
Context `{!HeapQ} (time : nat -> Z) (strat : strategy) (disable_finished_insert : bool)
  (extra_key_of : req -> option string) (prio_of : req -> option Z).
#[local] Instance server_cache : PrefixCache radix :=
  RadixPrefixCache time strat disable_finished_insert extra_key_of prio_of.
Context (se : @settings radix) (masked : lanes) (oob : Z -> Z) (empty : Z -> list Z).
Context `{!DllmAlgorithm (Z.to_nat (block_size (cfg se))) (mask_id (cfg se)) (tidar_manages_kv se)}.
Hypothesis bs_pos : 0 < block_size (cfg se).
Hypothesis page_one : page se = 1.
Hypothesis no_strip : strip_thinking se = false.
Hypothesis priority_perm : forall o q, calc_priority se o q ≡ₚ q.

(** C19: the diffusion server keeps its guarantees on the radix cache.  In every
    state reachable from a server with an empty tree (pages of one slot, no
    strip_thinking, requests with room in a row, an algorithm that raises on cut
    blocks), every KV slot is free,
    in the tree, or recorded for exactly one request, although allocation may
    evict; the tree is well formed, nothing in it is locked, and its evictable
    size, which admission counts on, is exactly what it holds. *)
Theorem radix_server_conserves slots sort size ctx id clk g s g' :
  rtc (step se masked oob empty) (init_server slots sort size ctx (reset time id clk), g) (s, g') ->
  let t := tree (smem s) in
  Token.pool (kv (smem s)) ++ tree_slots t ++ (vals (objs s) ≫= owned (req_to_token (rows (smem s))))
    ≡ₚ range 1 (slots + 1) /\
  free_slots (rows (smem s)) ++ (vals (objs s) ≫= idx_of) ≡ₚ seq 0 size /\
  radix_ok 1 false [] t /\ protected_size_ t = 0 /\ evictable_size t = len (tree_slots t).
Proof.
  intros Hr t. destruct (reachable_inv se masked oob empty bs_pos page_one no_strip priority_perm
    slots sort size ctx (reset time id clk) g s g' (reset_ok 1 false ltac:(lia) time id clk) (reset_slots time id clk) Hr)
    as [[[H1 H2 _ _ _ Hok] _ _ _ _ _ _ _ _] HN].
  split; [exact H1|]. split; [by rewrite H2, HN|]. split; [exact Hok|]. by apply unlocked_sizes.
Qed.
End server.

(** ** A server that runs

    The server of DllmExamples.v on a radix cache that evicts the least
    recently used leaves. *)

#[local] Instance demo_cache : PrefixCache radix := RadixPrefixCache demo_time LRU false (fun _ => None) (fun _ => None).

Definition radix_se : @settings radix :=
  Settings (DllmConfig "LowConfidence" 2 9 2 2 false false) 4096 8 1000 None 1 false (fun _ q => q)
    (fun _ _ => ([], None)) (fun _ => None) (fun _ => false).
#[local] Instance radix_algorithm :
  DllmAlgorithm (Z.to_nat (block_size (cfg radix_se))) (mask_id (cfg radix_se)) (tidar_manages_kv radix_se) := demo_alg.

Definition radix_init : @sched radix := init_server 30 false 2 16 (reset demo_time 0 0).
Definition radix_start : @sched radix * fwd_log := (add_request_to_queue (demo_arrival 7 3) radix_init, demo_log).
Definition radix_end : @sched radix * fwd_log :=
  match run_turns radix_se 2 radix_start with Ok p => p | Raise _ => radix_start end.

(** After the prompt and a block the request holds four slots, the tree none. *)
Lemma radix_server_conserves_witness :
  Token.pool (kv (smem (fst radix_end))) ++ tree_slots (tree (smem (fst radix_end))) ++ [1; 2; 3; 4] ≡ₚ range 1 31.
Proof.
  assert (Hr : rtc (step radix_se zero_lanes (fun _ => 0) (fun _ => [])) (radix_init, demo_log) (fst radix_end, snd radix_end)).
  { rewrite <- surjective_pairing. apply (rtc_l _ _ radix_start).
    - apply Arrive; [done|by split|]. split; try done; cbn; try (unfold len; cbn; lia).
      intros [?|[?|?%not_elem_of_nil]%elem_of_cons]%elem_of_cons; done.
    - refine (run_turns_rtc (T := radix) radix_se 2 radix_start radix_end _). vm_compute. reflexivity. }
  exact (proj1 (radix_server_conserves demo_time LRU false (fun _ => None) (fun _ => None) radix_se zero_lanes (fun _ => 0) (fun _ => [])
    ltac:(reflexivity) eq_refl eq_refl (fun _ q => Permutation_refl q) 30 false 2 16 0 0 demo_log
    (fst radix_end) (snd radix_end) Hr)).
Defined.
