(* ===== verification/StableSort.v ===== *)
(** * Python's list.sort

    [list.sort(key=...)] sorts by [<] on the keys and keeps the order of
    elements whose keys are equal; these two facts determine the result, which
    is computed here by insertion.  The orders of the keys the code sorts by
    (numbers, tuples, strings, infinity) are instances of [KeyOrder]. *)

From S2P Require Import Prelude.
From Stdlib Require Import OrderedTypeEx.

(** A strict weak order, as [__lt__] on keys has to be for a sort to mean
    anything. *)
Class KeyOrder {K : Type} (lt : K -> K -> bool) : Prop := {
  key_asym a b : lt a b = true -> lt b a = false;
  key_cotrans a b c : lt a c = true -> lt b c = false -> lt a b = true;
}.

Section sort.
Context {A K : Type} (lt : K -> K -> bool) (key : A -> K).

(** Before the first element with a greater key, so after equal ones. *)
Fixpoint insert_by (x : A) (l : list A) : list A :=
  match l with
  | [] => [x]
  | y :: l => if lt (key x) (key y) then x :: y :: l else y :: insert_by x l
  end.

Definition sort_by (l : list A) : list A := foldl (fun acc x => insert_by x acc) [] l.

Lemma insert_by_perm x l : insert_by x l ≡ₚ x :: l.
Proof.
  induction l as [|y l IH]; [done|]. cbn. destruct (lt _ _); [done|]. rewrite IH. apply Permutation_swap.
Qed.

Lemma sort_by_perm l : sort_by l ≡ₚ l.
Proof.
  unfold sort_by. enough (H : forall acc, foldl (fun acc x => insert_by x acc) acc l ≡ₚ acc ++ l) by apply (H []).
  induction l as [|x l IH]; intros acc; cbn; [by rewrite app_nil_r|]. rewrite IH, insert_by_perm. solve_Permutation.
Qed.

(** No element has a smaller key than an earlier one. *)
Definition in_order : list A -> Prop := StronglySorted (fun a b => lt (key b) (key a) = false).

Context `{!KeyOrder lt}.

Lemma key_irrefl a : lt a a = false.
Proof. destruct (lt a a) eqn:H; [|done]. by rewrite (key_asym _ _ H) in H. Qed.

Lemma insert_by_order x l : in_order l -> in_order (insert_by x l).
Proof.
  induction l as [|y l IH]; intros Hs; cbn; [by repeat constructor|].
  apply StronglySorted_inv in Hs as [Hs Hy]. destruct (lt (key x) (key y)) eqn:Hxy.
  - constructor; [by constructor|]. constructor; [by apply key_asym|].
    eapply Forall_impl; [exact Hy|]. intros z Hz. cbn in *. destruct (lt (key z) (key x)) eqn:Hzx; [|done].
    pose proof (key_cotrans _ _ _ Hzx (key_asym _ _ Hxy)). congruence.
  - constructor; [by apply IH|]. rewrite insert_by_perm. by constructor.
Qed.

Lemma sort_by_order l : in_order (sort_by l).
Proof.
  unfold sort_by. enough (H : forall acc, in_order acc -> in_order (foldl (fun acc x => insert_by x acc) acc l))
    by (apply H; constructor).
  induction l as [|x l IH]; intros acc Ha; [done|]. cbn. by apply IH, insert_by_order.
Qed.

(** Elements with equivalent keys keep their order. *)
Definition same_key (a b : A) : bool := negb (lt (key a) (key b)) && negb (lt (key b) (key a)).

Lemma insert_by_stable k x l :
  in_order l ->
  filter (fun a => same_key k a = true) (insert_by x l) =
  filter (fun a => same_key k a = true) (l ++ [x]).
Proof.
  induction l as [|y l IH]; intros Hs; [done|]. apply StronglySorted_inv in Hs as [Hs Hy]. cbn [insert_by app].
  destruct (lt (key x) (key y)) eqn:Hxy; [|rewrite !filter_cons; case_decide; by rewrite IH].
  change (y :: l ++ [x]) with ((y :: l) ++ [x]). rewrite filter_app.
  destruct (decide (same_key k x = true)) as [Hk|Hk]; [|by rewrite !(filter_cons_False _ x), filter_nil, app_nil_r].
  (* nothing from [y] on has the key of [x] *)
  assert (Hnone : filter (fun a => same_key k a = true) (y :: l) = []).
  { apply elem_of_nil_inv. intros z [Hkz Hz]%list_elem_of_filter.
    assert (Hxz : lt (key x) (key z) = true).
    { apply elem_of_cons in Hz as [->|Hz]; [done|]. rewrite Forall_forall in Hy. by apply (key_cotrans _ _ _ Hxy), Hy. }
    unfold same_key in Hk, Hkz. apply andb_true_iff in Hk as [H1 H2], Hkz as [H3 H4]. apply negb_true_iff in H1, H2, H3, H4.
    pose proof (key_cotrans _ (key k) _ Hxz H3). congruence. }
  by rewrite !(filter_cons_True _ x), Hnone, filter_nil.
Qed.

Lemma sort_by_stable k l :
  filter (fun a => same_key k a = true) (sort_by l) = filter (fun a => same_key k a = true) l.
Proof.
  unfold sort_by. enough (H : forall acc, in_order acc ->
    filter (fun a => same_key k a = true) (foldl (fun acc x => insert_by x acc) acc l) =
    filter (fun a => same_key k a = true) (acc ++ l)) by (apply (H []); constructor).
  induction l as [|x l IH]; intros acc Ha; cbn [foldl]; [by rewrite app_nil_r|].
  rewrite IH by (by apply insert_by_order). rewrite filter_app, insert_by_stable by done.
  rewrite <- filter_app, <- app_assoc. done.
Qed.
End sort.

(** ** Keys that may raise

    [l.sort(key=...)] computes all keys first. *)
Definition sort_keyed {A K} (lt : K -> K -> bool) (key : A -> res K) (l : list A) : res (list A) :=
  kl ← mapM (fun x => k ← key x; Ok (k, x)) l;
  Ok (snd <$> sort_by lt fst kl).

Lemma insert_by_fmap {A K} (lt : K -> K -> bool) (f : A -> K) x l :
  insert_by lt fst (f x, x) ((fun r => (f r, r)) <$> l) = (fun r => (f r, r)) <$> insert_by lt f x l.
Proof. induction l as [|y l IH]; [done|]. cbn. destruct (lt (f x) (f y)); cbn; [done|]. by rewrite <- IH. Qed.

Lemma sort_by_fmap {A K} (lt : K -> K -> bool) (f : A -> K) l :
  snd <$> sort_by lt fst ((fun r => (f r, r)) <$> l) = sort_by lt f l.
Proof.
  unfold sort_by. assert (H : forall acc, foldl (fun acc x => insert_by lt fst x acc) ((fun r => (f r, r)) <$> acc)
    ((fun r => (f r, r)) <$> l) = (fun r => (f r, r)) <$> foldl (fun acc x => insert_by lt f x acc) acc l).
  { induction l as [|x l IH]; intros acc; [done|]. cbn [fmap list_fmap foldl]. by rewrite insert_by_fmap, IH. }
  specialize (H []). cbn [fmap list_fmap] in H. rewrite H, <- list_fmap_compose. apply list_fmap_id.
Qed.

Lemma sort_keyed_total {A K} (lt : K -> K -> bool) (key : A -> res K) (f : A -> K) l :
  (forall x, x ∈ l -> key x = Ok (f x)) -> sort_keyed lt key l = Ok (sort_by lt f l).
Proof.
  intros Hk. unfold sort_keyed.
  assert (Hm : mapM (fun x => k ← key x; Ok (k, x)) l = Ok ((fun x => (f x, x)) <$> l)).
  { induction l as [|x l IH]; [done|]. cbn [mapM]. rewrite Hk by (by left). do 2 step_ok.
    rewrite IH by (intros; apply Hk; by right). done. }
  rewrite Hm. step_ok. by rewrite sort_by_fmap.
Qed.

(** ** Orders *)

#[global] Instance Z_key_order : KeyOrder Z.ltb.
Proof. split; intros *; rewrite ?Z.ltb_lt, ?Z.ltb_ge; lia. Qed.

(** Numbers and [float("inf")], which is [None]. *)
Definition inf_lt (a b : option Z) : bool :=
  match a, b with
  | Some a, Some b => a <? b
  | Some _, None => true
  | None, _ => false
  end.

#[global] Instance inf_key_order : KeyOrder inf_lt.
Proof.
  split.
  - intros [a|] [b|]; cbn; [apply key_asym|done..].
  - intros [a|] [b|] [c|]; cbn; [apply key_cotrans|done..].
Qed.

(** Pairs compare by the first component that differs. *)
Definition pair_lt {A B} (lta : A -> A -> bool) (ltb : B -> B -> bool) (p q : A * B) : bool :=
  lta p.1 q.1 || (negb (lta q.1 p.1) && ltb p.2 q.2).

#[global] Instance pair_key_order {A B} (lta : A -> A -> bool) (ltb : B -> B -> bool) :
  KeyOrder lta -> KeyOrder ltb -> KeyOrder (pair_lt lta ltb).
Proof.
  intros Ha Hb. assert (Hasym : forall p q, pair_lt lta ltb p q = true -> pair_lt lta ltb q p = false).
  { intros p q. unfold pair_lt. destruct (lta p.1 q.1) eqn:H1; cbn.
    - intros _. by rewrite (key_asym _ _ H1).
    - destruct (lta q.1 p.1) eqn:H2; [done|]. cbn. apply key_asym. }
  split; [exact Hasym|]. intros [a1 a2] [b1 b2] [c1 c2]. unfold pair_lt. cbn [fst snd].
  rewrite !orb_true_iff, !andb_true_iff, orb_false_iff, andb_false_iff, !negb_true_iff, negb_false_iff.
  intros Hac [Hbc1 Hbc2]. destruct Hac as [Hac|[Hca Hac]].
  - left. by apply (key_cotrans _ _ _ Hac).
  - destruct Hbc2 as [Hcb|Hbc2].
    + left. destruct (lta a1 b1) eqn:Hab; [done|]. pose proof (key_cotrans _ a1 _ Hcb Hab). congruence.
    + destruct (lta a1 b1) eqn:Hab; [by left|]. right. split; [|by apply (key_cotrans _ _ _ Hac)].
      destruct (lta b1 a1) eqn:Hba; [|done].
      destruct (lta b1 c1) eqn:E; [congruence|]. pose proof (key_cotrans _ c1 _ Hba Hca). congruence.
Qed.

(** Strings, character by character. *)
Definition str_lt (a b : string) : bool := match String.compare a b with Lt => true | _ => false end.

Lemma str_lt_iff a b : str_lt a b = true <-> String_as_OT.lt a b.
Proof.
  rewrite <- String_as_OT.cmp_lt. unfold str_lt, String_as_OT.cmp. by destruct (String.compare a b).
Qed.

#[global] Instance str_key_order : KeyOrder str_lt.
Proof.
  assert (Hasym : forall a b, str_lt a b = true -> str_lt b a = false).
  { intros a b. unfold str_lt. rewrite (String_as_OT.cmp_antisym a b : String.compare a b = _).
    unfold String_as_OT.cmp. by destruct (String.compare b a). }
  split; [exact Hasym|]. intros a b c Hac Hbc. destruct (str_lt a b) eqn:Hab; [done|].
  destruct (String.compare a b) eqn:Hc; [|by unfold str_lt in Hab; rewrite Hc in Hab|].
  - apply String_as_OT.cmp_eq in Hc. congruence.
  - assert (Hba : str_lt b a = true).
    { unfold str_lt. rewrite (String_as_OT.cmp_antisym b a : String.compare b a = _). unfold String_as_OT.cmp. by rewrite Hc. }
    exfalso. apply str_lt_iff in Hba, Hac. pose proof (String_as_OT.lt_trans _ _ _ Hba Hac) as Ht%str_lt_iff. congruence.
Qed.
