(* ===== verification/IgnoreEos.v ===== *)
(** * Admission with future releases

    PrefillAdder.add_one_req_ignore_eos of managers/schedule_policy.py: without
    a prefix cache, a request that ignores stop tokens is admitted when the
    memory lasts for everybody until the end, given how many tokens each request
    still generates and what each one gives back when it is done.  For the
    standard (not hybrid) allocators.  [avail] is what the allocator and the
    cache report, which nothing in the method changes. *)

From S2P Require Import Prelude DllmReq StableSort.
From Stdlib Require Import QArith Lqa.
#[local] Open Scope Z_scope.

Module Eos.

Inductive AddReqResult := CONTINUE | NO_TOKEN | OTHER.

(** The fields of a PrefillAdder this path uses; [req_states] has, for each
    request, the tokens it may still generate and the tokens it holds. *)
Record adder := Adder {
  rem_input_tokens : Z;
  rem_chunk_tokens : option Z;
  rem_dllm_tokens : Z;
  rem_total_token_offset : Q;
  cur_rem_token_offset : Z;
  can_run_list : list req;
  new_chunked_req : option Z;
  req_states : option (list (Q * Z));
  log_hit_tokens : Z;
  log_input_tokens : Z;
}.

Definition set_states (a : adder) (l : list (Q * Z)) : adder :=
  Adder (rem_input_tokens a) (rem_chunk_tokens a) (rem_dllm_tokens a) (rem_total_token_offset a) (cur_rem_token_offset a)
    (can_run_list a) (new_chunked_req a) (Some l) (log_hit_tokens a) (log_input_tokens a).

Definition add_can_run (a : adder) (r : req) : adder :=
  Adder (rem_input_tokens a) (rem_chunk_tokens a) (rem_dllm_tokens a) (rem_total_token_offset a) (cur_rem_token_offset a)
    (can_run_list a ++ [r]) (new_chunked_req a) (req_states a) (log_hit_tokens a) (log_input_tokens a).

Definition set_new_chunked (a : adder) (r : req) : adder :=
  Adder (rem_input_tokens a) (rem_chunk_tokens a) (rem_dllm_tokens a) (rem_total_token_offset a) (cur_rem_token_offset a)
    (can_run_list a) (Some (rid (info r))) (req_states a) (log_hit_tokens a) (log_input_tokens a).

Definition IGNORE_EOS_RESERVE_TOKENS : Z := 1.

Section adder.
Context (page_size CLIP_MAX_NEW_TOKENS : Z) (dllm : option dllm_config) (running : list req) (new_token_ratio : Q).

Definition ceil_paged_tokens (tokens : Z) : Z := - ((- tokens) / page_size) * page_size.

Definition rem_total_tokens (avail : Z) (a : adder) : Q := (inject_Z avail - rem_total_token_offset a)%Q.
Definition cur_rem_tokens (avail : Z) (a : adder) : Z := avail - cur_rem_token_offset a.

Definition budget_state (avail : Z) (a : adder) : AddReqResult :=
  if Qle_bool (rem_total_tokens avail a) 0 || (cur_rem_tokens avail a <=? 0) then NO_TOKEN else
  if rem_input_tokens a <=? 0 then OTHER else
  match dllm with
  | Some _ => if rem_dllm_tokens a <=? 0 then OTHER else CONTINUE
  | None => match rem_chunk_tokens a with Some c => if c <=? 0 then OTHER else CONTINUE | None => CONTINUE end
  end.

Definition update_prefill_budget (prefix_len extend_len max_new : Z) (a : adder) : adder :=
  let extend_len := ceil_paged_tokens extend_len in
  Adder (rem_input_tokens a - extend_len)
    (match dllm with Some _ => rem_chunk_tokens a | None => (fun c => c - extend_len) <$> rem_chunk_tokens a end)
    (match dllm with Some _ => rem_dllm_tokens a - extend_len | None => rem_dllm_tokens a end)
    (rem_total_token_offset a + inject_Z (extend_len + max_new + page_size))%Q (cur_rem_token_offset a + (extend_len + page_size))
    (can_run_list a) (new_chunked_req a) (req_states a) (log_hit_tokens a + prefix_len) (log_input_tokens a + extend_len).

(** ** The states of the requests *)

Definition state_of (r : req) : Q * Z :=
  let ratio := if ignore_eos (sampling (info r)) then 1%Q else new_token_ratio in
  ((inject_Z (max_new_tokens (sampling (info r))) * ratio - inject_Z (len (output_ids (out r))))%Q,
   len (origin_input_ids (info r)) + len (output_ids (out r))).

(** [tokens_left <= 0]: the request is left out. *)
Definition no_more (r : req) : bool := Qle_bool (fst (state_of r)) 0.

(** add_req_state without [insert_sort]: an append. *)
Definition add_req_state (states : list (Q * Z)) (r : req) : list (Q * Z) :=
  if no_more r then states else states ++ [state_of r].

(** The loop [for i in range(len(l)): if x <= l[i]: break] leaves the last index
    behind when it is not broken off, and 0 when the list is empty. *)
Fixpoint insert_index (x : Q) (i : nat) (l : list (Q * Z)) : nat :=
  match l with
  | [] => i
  | [_] => i
  | y :: l => if Qle_bool x (fst y) then i else insert_index x (S i) l
  end.

(** add_req_state with [insert_sort] *)
Definition insert_req_state (states : list (Q * Z)) (r : req) : list (Q * Z) :=
  if no_more r then states else
  let i := insert_index (fst (state_of r)) 0 states in
  take i states ++ state_of r :: drop i states.

Definition Qlt_bool (x y : Q) : bool := negb (Qle_bool y x).

Definition states_with (a : adder) (r : req) : list (Q * Z) :=
  match req_states a with
  | None => sort_by Qlt_bool fst (foldl add_req_state [] (r :: running ++ can_run_list a))
  | Some l => insert_req_state l r
  end.

(** The loop over the states; true when it does not return NO_TOKEN. *)
Fixpoint lasts (rem freed : Z) (states : list (Q * Z)) : bool :=
  match states with
  | [] => true
  | (tokens_left, tokens_occupied) :: rest =>
      let bs := len states in
      let min_free_tokens := (inject_Z (rem + freed) - tokens_left * inject_Z bs)%Q in
      if Qle_bool min_free_tokens (inject_Z (IGNORE_EOS_RESERVE_TOKENS * bs)) then false
      else lasts rem (freed + tokens_occupied) rest
  end.

(** ** Admission *)

Definition add_dllm_req (cfg : dllm_config) (prefix_len : Z) (r : req) (a : adder) : req * adder :=
  let trunc_len := Z.min (rem_dllm_tokens a) (block_size cfg) in
  let r := set_extend_len_field r trunc_len in
  let r := set_fill_ids r (slice_to (fill_ids (inp r)) (prefix_len + trunc_len)) in
  (r, update_prefill_budget prefix_len trunc_len 0 (add_can_run a r)).

Definition add_one_req_ignore_eos (avail : Z) (r : req) (a : adder) : AddReqResult * req * adder :=
  let paged_input := ceil_paged_tokens (extend_input_len (inp r)) in
  if Qlt_bool (if Qle_bool (inject_Z (cur_rem_tokens avail a)) (rem_total_tokens avail a)
               then inject_Z (cur_rem_tokens avail a) else rem_total_tokens avail a) (inject_Z paged_input)
  then (NO_TOKEN, r, a) else
  let states := states_with a r in
  let a := set_states a states in
  let rem := cur_rem_tokens avail a - ceil_paged_tokens (extend_input_len (inp r)) in
  if negb (lasts rem 0 states) then (NO_TOKEN, r, a) else
  match dllm with
  | Some cfg =>
      if rem_dllm_tokens a <=? 0 then (OTHER, r, a) else
      let '(r, a) := add_dllm_req cfg 0 r a in
      (budget_state avail a, r, a)
  | None =>
      if match rem_chunk_tokens a with None => true | Some c => extend_input_len (inp r) <=? c end then
        let a := update_prefill_budget 0 (extend_input_len (inp r)) (Z.min (max_new_tokens (sampling (info r))) CLIP_MAX_NEW_TOKENS)
                   (add_can_run a r) in
        (budget_state avail a, r, a)
      else
        let trunc_len := default 0 (rem_chunk_tokens a) in
        if trunc_len <=? 0 then (OTHER, r, a) else
        let r := set_extend_input_len r trunc_len in
        let r := set_fill_ids r (slice_to (fill_ids (inp r)) trunc_len) in
        let a := update_prefill_budget 0 trunc_len 0 (set_new_chunked (add_can_run a r) r) in
        (budget_state avail a, r, a)
  end.
End adder.

(** ** What the test means

    Let everybody generate a token per step.  After [t] steps the requests with
    at least [t] tokens to go still run, each holding [t] tokens more. *)

Definition running_at (t : Q) (states : list (Q * Z)) : list (Q * Z) := filter (fun s => Qle_bool t (fst s) = true) states.
Definition occupied (states : list (Q * Z)) : Z := foldr (fun s acc => snd s + acc) 0 states.

(** What is held after [t] steps, with the reserve. *)
Definition demand (t : Q) (states : list (Q * Z)) : Q :=
  let run := running_at t states in
  (inject_Z (occupied run) + t * inject_Z (len run) + inject_Z (IGNORE_EOS_RESERVE_TOKENS * len run))%Q.

(** The memory, [rem] free and the rest held at the start, is never used up
    while a request runs. *)
Definition enough (rem : Z) (states : list (Q * Z)) : Prop :=
  forall t, (0 <= t)%Q -> running_at t states <> [] -> (demand t states < inject_Z (rem + occupied states))%Q.

Lemma Qle_bool_cases x y : Qle_bool x y = true /\ (x <= y)%Q \/ Qle_bool x y = false /\ (y < x)%Q.
Proof.
  destruct (Qle_bool x y) eqn:He; [left; by split; [|apply Qle_bool_iff]|right; split; [done|]]. apply Qnot_le_lt.
  intros Hc%Qle_bool_iff. congruence.
Qed.

#[global] Instance Q_key_order : KeyOrder Qlt_bool.
Proof.
  unfold Qlt_bool. split.
  - intros a b. destruct (Qle_bool_cases a b) as [[-> ?]|[-> ?]], (Qle_bool_cases b a) as [[-> ?]|[-> ?]]; try done. lra.
  - intros a b c Hac Hbc. apply negb_true_iff in Hac. apply negb_false_iff in Hbc. apply negb_true_iff.
    destruct (Qle_bool_cases c a) as [[? _]|[_ ?]]; [congruence|]. destruct (Qle_bool_cases c b) as [[_ ?]|[? _]]; [|congruence].
    destruct (Qle_bool_cases b a) as [[_ ?]|[? _]]; [lra|done].
Qed.

Lemma running_cons t s states :
  running_at t (s :: states) = if Qle_bool t (fst s) then s :: running_at t states else running_at t states.
Proof. unfold running_at. rewrite filter_cons. destruct (Qle_bool t (fst s)); [by rewrite decide_True|by rewrite decide_False]. Qed.

Lemma running_bounds t states : Forall (fun s => 0 <= snd s) states ->
  0 <= occupied (running_at t states) <= occupied states /\ len (running_at t states) <= len states.
Proof.
  induction 1 as [|s states Hs Hf IH]; [done|]. rewrite running_cons. unfold occupied, len in *. destruct (Qle_bool t (fst s)); cbn [foldr length] in *; lia.
Qed.

Lemma running_all t states : Forall (fun s => Qle_bool t (fst s) = true) states -> running_at t states = states.
Proof. induction 1 as [|s states Hs Hf IH]; [done|]. by rewrite running_cons, Hs, IH. Qed.

Lemma inject_le x y : x <= y -> (inject_Z x <= inject_Z y)%Q.
Proof. by rewrite <- Zle_Qle. Qed.

(** The head of the list bounds everything when [t] is not beyond it. *)
Lemma head_bound t l rem n states :
  (0 <= t)%Q -> (t <= l)%Q -> Forall (fun s => 0 <= snd s) states -> n = len states ->
  (inject_Z (IGNORE_EOS_RESERVE_TOKENS * n) < inject_Z rem - l * inject_Z n)%Q -> (demand t states < inject_Z (rem + occupied states))%Q.
Proof.
  intros Ht Hl Hf -> Hc. pose proof (running_bounds t states Hf) as [[_ Ho] Hn]. unfold demand, IGNORE_EOS_RESERVE_TOKENS in *.
  rewrite !Z.mul_1_l in *. rewrite inject_Z_plus.
  assert (H1 : (t * inject_Z (len (running_at t states)) <= l * inject_Z (len states))%Q).
  { apply (Qle_trans _ (t * inject_Z (len states))).
    - rewrite !(Qmult_comm t). apply Qmult_le_compat_r; [by apply inject_le|done].
    - apply Qmult_le_compat_r; [done|]. apply (inject_le 0). apply len_nonneg. }
  apply inject_le in Ho, Hn. lra.
Qed.

(** The test is safe in whatever order the states are. *)
Lemma lasts_safe rem : forall states freed,
  Forall (fun s => 0 <= snd s) states -> lasts rem freed states = true ->
  forall t, (0 <= t)%Q -> running_at t states <> [] -> (demand t states < inject_Z (rem + freed + occupied states))%Q.
Proof.
  induction states as [|[l o] states IH]; intros freed Hf Hl t Ht Hne; [done|]. cbn [lasts] in Hl.
  destruct (Qle_bool_cases (inject_Z (rem + freed) - l * inject_Z (len ((l, o) :: states))) (inject_Z (IGNORE_EOS_RESERVE_TOKENS * len ((l, o) :: states))))
    as [[He _]|[He Hc]]; rewrite He in Hl; [done|]. destruct (Qle_bool_cases t l) as [[Htl Hle]|[Htl Hlt]].
  - by apply (head_bound t l (rem + freed) (len ((l, o) :: states))).
  - pose proof Hf as [Ho Hf']%Forall_cons. cbn [snd] in Ho. specialize (IH (freed + o) Hf' Hl t Ht). unfold demand in *. rewrite running_cons in *. cbn [fst] in *.
    rewrite Htl in *. specialize (IH Hne). cbn [occupied foldr snd] in *.
    replace (rem + (freed + o) + occupied states) with (rem + freed + (o + occupied states)) in IH by lia. exact IH.
Qed.

(** On a sorted list it fails only when the memory would be used up. *)
Lemma lasts_exact rem : forall states freed,
  Forall (fun s => 0 <= snd s /\ (0 <= fst s)%Q) states -> in_order Qlt_bool fst states -> lasts rem freed states = false ->
  exists t, (0 <= t)%Q /\ running_at t states <> [] /\ (inject_Z (rem + freed + occupied states) <= demand t states)%Q.
Proof.
  induction states as [|[l o] states IH]; intros freed Hf Hs Hl; [done|]. cbn [lasts] in Hl. apply Forall_cons in Hf as [[Ho Hl0] Hf]. cbn [fst snd] in *.
  apply StronglySorted_inv in Hs as [Hs Hhd].
  destruct (Qle_bool_cases (inject_Z (rem + freed) - l * inject_Z (len ((l, o) :: states))) (inject_Z (IGNORE_EOS_RESERVE_TOKENS * len ((l, o) :: states))))
    as [[He Hc]|[He _]]; rewrite He in Hl.
  - exists l. split; [done|]. assert (Hall : running_at l ((l, o) :: states) = (l, o) :: states).
    { apply running_all. constructor; [apply Qle_bool_iff; cbn; lra|]. eapply Forall_impl; [exact Hhd|].
      intros x Hx. unfold Qlt_bool in Hx. cbn in Hx. by apply negb_false_iff in Hx. }
    split; [by rewrite Hall|]. unfold demand. rewrite Hall, inject_Z_plus. lra.
  - destruct (IH (freed + o) Hf Hs Hl) as (t & Ht & Hne & Hd). exists t. split; [done|]. unfold demand in *. rewrite running_cons. cbn [fst].
    replace (rem + freed + occupied ((l, o) :: states)) with (rem + (freed + o) + occupied states) by (cbn [occupied foldr snd]; unfold occupied; lia).
    destruct (Qle_bool t l); [|done]. split; [done|]. rewrite len_cons. unfold IGNORE_EOS_RESERVE_TOKENS in *. cbn [occupied foldr snd].
    fold (occupied (running_at t states)). rewrite Z.mul_1_l, !inject_Z_plus in *. apply (inject_le 0) in Ho.
    change (inject_Z 1) with 1%Q in *. change (inject_Z 0) with 0%Q in *. lra.
Qed.

(** ** The operation *)

Section theorems.
Context (page_size CLIP : Z) (dllm : option dllm_config) (running : list req) (ratio : Q).
Notation state_of := (state_of ratio).
Notation more r := (no_more ratio r = false).
Notation states_with := (states_with running ratio).
Notation add_one_req_ignore_eos := (add_one_req_ignore_eos page_size CLIP dllm running ratio).
Notation ceil_paged_tokens := (ceil_paged_tokens page_size).

Lemma states_all l : forall acc, foldl (add_req_state ratio) acc l = acc ++ (state_of <$> filter (fun r => more r) l).
Proof.
  induction l as [|r l IH]; intros acc; cbn [foldl]; [by rewrite app_nil_r|]. rewrite IH, filter_cons. unfold add_req_state.
  destruct (no_more ratio r); [by rewrite decide_False|]. rewrite decide_True by done. by rewrite fmap_cons, <- app_assoc.
Qed.

(** Who is counted: those counted before, or everybody who runs or is about to,
    and the new request. *)
Definition counted (a : adder) (r : req) : list (Q * Z) :=
  match req_states a with
  | None => state_of <$> filter (fun r => more r) (r :: running ++ can_run_list a)
  | Some l => (state_of <$> filter (fun r => more r) [r]) ++ l
  end.

Lemma states_counted a r : states_with a r ≡ₚ counted a r.
Proof.
  unfold Eos.states_with, counted. destruct (req_states a) as [l|].
  - unfold insert_req_state. rewrite filter_cons. destruct (no_more ratio r); [by rewrite decide_False|]. rewrite decide_True by done. cbn zeta.
    set (i := insert_index _ _ _). rewrite <- (take_drop i l) at 3. cbn. solve_Permutation.
  - rewrite sort_by_perm, states_all. done.
Qed.

Lemma state_occupied r : 0 <= snd (state_of r).
Proof. cbn. pose proof (len_nonneg (origin_input_ids (info r))). pose proof (len_nonneg (output_ids (out r))). lia. Qed.

Lemma counted_occupied a r : (forall l, req_states a = Some l -> Forall (fun s => 0 <= snd s) l) -> Forall (fun s => 0 <= snd s) (counted a r).
Proof.
  intros Hl. unfold counted. destruct (req_states a) as [l|]; [apply Forall_app; split; [|by apply Hl]|];
    apply Forall_fmap, Forall_forall; intros x _; apply state_occupied.
Qed.

Lemma running_perm t l l' : l ≡ₚ l' -> running_at t l ≡ₚ running_at t l'.
Proof. intros Hp. unfold running_at. by rewrite Hp. Qed.

Lemma occupied_perm l l' : l ≡ₚ l' -> occupied l = occupied l'.
Proof. unfold occupied. induction 1; cbn; lia. Qed.

#[global] Instance enough_proper rem : Proper ((≡ₚ) ==> iff) (enough rem).
Proof.
  assert (Hgo : forall l l', l ≡ₚ l' -> enough rem l -> enough rem l').
  { intros l l' Hp He t Ht Hne. pose proof (running_perm t _ _ Hp) as Hr. specialize (He t Ht). unfold demand, len in *.
    rewrite <- (occupied_perm _ _ Hp), <- (occupied_perm _ _ Hr), <- (Permutation_length Hr). apply He. intros Hc. rewrite Hc in Hr. by apply Permutation_nil_l in Hr. }
  intros l l' Hp. split; by apply Hgo.
Qed.

Lemma lasts_enough rem a r :
  (forall l, req_states a = Some l -> Forall (fun s => 0 <= snd s) l) -> lasts rem 0 (states_with a r) = true -> enough rem (counted a r).
Proof.
  intros Hl Hlast. rewrite <- states_counted. intros t Ht Hne. rewrite <- (Z.add_0_r rem). apply lasts_safe; [|done|done|done].
  rewrite states_counted. by apply counted_occupied.
Qed.

(** What is free once the input of the request is in. *)
Definition left_over (avail : Z) (r : req) (a : adder) : Z := cur_rem_tokens avail a - ceil_paged_tokens (extend_input_len (inp r)).

(** C18: what the admission test of requests that ignore stop tokens promises.
    When a request is admitted, then for everybody who is counted, each
    generating at most the tokens it has left, one per step, and giving all it
    holds back at its end, the memory is never used up, with a token in reserve
    per request; also when the states are not sorted, as happens when requests
    are inserted later. *)
Theorem ignore_eos_admission_safe avail r a res r' a' :
  (forall l, req_states a = Some l -> Forall (fun s => 0 <= snd s) l) ->
  add_one_req_ignore_eos avail r a = (res, r', a') -> can_run_list a' <> can_run_list a ->
  can_run_list a' = can_run_list a ++ [r'] /\ info r' = info r /\
  (exists l, req_states a' = Some l /\ l ≡ₚ counted a r) /\ enough (left_over avail r a) (counted a r).
Proof.
  intros Hl. unfold Eos.add_one_req_ignore_eos. destruct (Qlt_bool _ _); [by intros [= <- <- <-]|]. cbn zeta.
  destruct (lasts _ 0 (states_with a r)) eqn:Hlast; cbn [negb]; [|by intros [= <- <- <-]].
  pose proof (lasts_enough (left_over avail r a) a r Hl Hlast) as Henough.
  pose proof (states_counted a r) as Hp. cbn [set_states rem_dllm_tokens rem_chunk_tokens].
  destruct dllm as [cfg|].
  - destruct (_ <=? 0); [by intros [= <- <- <-]|]. unfold add_dllm_req. intros [= <- <- <-] _. split; [done|]. split; [done|]. split; [by eexists|done].
  - destruct (rem_chunk_tokens a) as [c|]; [destruct (_ <=? c)|]; cbn [default]; try (intros [= <- <- <-] _; split; [done|]; split; [done|]; split; [by eexists|done]).
    change (id c) with c. destruct (c <=? 0); [by intros [= <- <- <-]|]. intros [= <- <- <-] _. split; [done|]. split; [done|]. split; [by eexists|done].
Qed.

(** And at the first request of a pass the test is exact: without chunking
    the request, whose input has to fit, is admitted if and only if the memory
    lasts for everybody. *)
Theorem ignore_eos_admission_exact avail r a :
  dllm = None -> rem_chunk_tokens a = None -> req_states a = None ->
  (inject_Z (ceil_paged_tokens (extend_input_len (inp r))) <= inject_Z (cur_rem_tokens avail a))%Q ->
  (inject_Z (ceil_paged_tokens (extend_input_len (inp r))) <= rem_total_tokens avail a)%Q ->
  exists res r' a', add_one_req_ignore_eos avail r a = (res, r', a') /\
    (can_run_list a' = can_run_list a ++ [r] <-> enough (left_over avail r a) (counted a r)) /\
    (can_run_list a' = can_run_list a \/ can_run_list a' = can_run_list a ++ [r]).
Proof.
  intros Hd Hc Hst H1 H2. unfold Eos.add_one_req_ignore_eos. rewrite Hd.
  assert (Hin : Qlt_bool (if Qle_bool (inject_Z (cur_rem_tokens avail a)) (rem_total_tokens avail a) then inject_Z (cur_rem_tokens avail a) else rem_total_tokens avail a)
    (inject_Z (ceil_paged_tokens (extend_input_len (inp r)))) = false).
  { unfold Qlt_bool. apply negb_false_iff, Qle_bool_iff. by destruct (Qle_bool _ _). }
  rewrite Hin. cbn zeta. cbn [set_states rem_chunk_tokens]. rewrite Hc.
  destruct (lasts _ 0 (states_with a r)) eqn:Hlast; cbn [negb]; do 3 eexists; (split; [reflexivity|]); (split; [|by auto]).
  - split; [|done]. intros _. apply (lasts_enough (left_over avail r a)); [by rewrite Hst|done].
  - split; [cbn; intros He; apply (f_equal length) in He; rewrite length_app in He; cbn in He; lia|]. rewrite <- states_counted. intros He. exfalso.
    assert (Hpos : Forall (fun s => 0 <= snd s /\ (0 <= fst s)%Q) (states_with a r)).
    { rewrite states_counted. unfold counted. rewrite Hst. apply Forall_fmap, Forall_forall. intros x [Hx _]%list_elem_of_filter. split; [apply state_occupied|].
      unfold no_more in Hx. destruct (Qle_bool_cases (fst (state_of x)) 0) as [[? _]|[_ ?]]; [congruence|]. cbn in *. lra. }
    assert (Hord : in_order Qlt_bool fst (states_with a r)) by (unfold Eos.states_with; rewrite Hst; apply sort_by_order; apply _).
    destruct (lasts_exact _ _ 0 Hpos Hord Hlast) as (t & Ht & Hne & Hcontra). specialize (He t Ht Hne). rewrite Z.add_0_r in Hcontra.
    apply (Qlt_not_le _ _ He Hcontra).
Qed.
End theorems.

(** ** A late insertion *)

Definition eos_req (id max_new : Z) (prompt : list Z) : req :=
  Req (ReqInfo id prompt (SamplingParams max_new true []) [] None 100 false (-1) false false)
    (ReqOut [] (LpChannels [] [] None None [] [] [] []) None None None)
    (ReqKV None 0 0 false false 0) (ReqIn prompt [] (len prompt) 0 0 None 0).

(** A pass with 60 free slots, in which a request for 2 tokens was admitted. *)
Definition eos_fresh : adder := Adder 1000 None 0 0 0 [] None None 0 0.
Definition eos_short : req := eos_req 1 2 [7; 7; 7].
Definition eos_long : req := eos_req 2 30 [8; 8; 8].
Definition eos_pass (l : list req) (a : adder) : adder := foldl (fun a r => snd (add_one_req_ignore_eos 1 100 None [] 1 60 r a)) a l.
Definition eos_after : adder := eos_pass [eos_short] eos_fresh.

Definition rids (a : adder) : list Z := (fun r => rid (info r)) <$> can_run_list a.

(** The order in which two requests come decides: a request with more tokens to
    go than anybody else is inserted before the last state, is charged for two
    requests until its own end, and is rejected, although the memory lasts for
    both; first in the pass, both are admitted. *)
Lemma late_request_rejected :
  rids (eos_pass [eos_short; eos_long] eos_fresh) = [1] /\ rids (eos_pass [eos_long; eos_short] eos_fresh) = [2; 1] /\
  req_states (eos_pass [eos_short; eos_long] eos_fresh) = Some [(30%Q, 3); (2%Q, 3)] /\
  enough (left_over 1 60 eos_long eos_after) (counted [] 1 eos_after eos_long).
Proof.
  do 3 (split; [vm_compute; reflexivity|]). assert (Hc : counted [] 1 eos_after eos_long = [(30%Q, 3); (2%Q, 3)]) by (vm_compute; reflexivity).
  assert (Hl : left_over 1 60 eos_long eos_after = 53) by (vm_compute; reflexivity). rewrite Hc, Hl. rewrite (Permutation_swap (2%Q, 3) (30%Q, 3)).
  intros t Ht Hne. apply (lasts_safe 53 [(2%Q, 3); (30%Q, 3)] 0); [by repeat constructor|vm_compute; reflexivity|done|done].
Qed.

Lemma ignore_eos_admission_safe_witness :
  let a' := eos_pass [eos_long; eos_short] eos_fresh in
  rids a' = [2; 1] /\ enough (left_over 1 60 eos_short (eos_pass [eos_long] eos_fresh)) (counted [] 1 (eos_pass [eos_long] eos_fresh) eos_short).
Proof.
  split; [vm_compute; reflexivity|].
  destruct (add_one_req_ignore_eos 1 100 None [] 1 60 eos_short (eos_pass [eos_long] eos_fresh)) as [[res r'] a'] eqn:Hrun.
  refine (proj2 (proj2 (proj2 (ignore_eos_admission_safe 1 100 None [] 1 60 eos_short (eos_pass [eos_long] eos_fresh) res r' a' _ Hrun _)))).
  - intros l Hl. assert (Hs : req_states (eos_pass [eos_long] eos_fresh) = Some [(30%Q, 3)]) by (vm_compute; reflexivity).
    rewrite Hl in Hs. injection Hs as ->. by repeat constructor.
  - intros Hc. apply (f_equal (fun l => length l)) in Hc.
    assert (Hn : length (can_run_list (snd (add_one_req_ignore_eos 1 100 None [] 1 60 eos_short (eos_pass [eos_long] eos_fresh)))) = 2%nat) by (vm_compute; reflexivity).
    rewrite Hrun in Hn. cbn [snd] in Hn. rewrite Hn in Hc. vm_compute in Hc. discriminate.
Defined.

Lemma ignore_eos_admission_exact_witness :
  exists res r' a', add_one_req_ignore_eos 1 100 None [eos_short] 1 60 eos_long eos_fresh = (res, r', a') /\
    can_run_list a' = [eos_long] /\ enough 57 [(30%Q, 3); (2%Q, 3)].
Proof.
  destruct (ignore_eos_admission_exact 1 100 None [eos_short] 1 60 eos_long eos_fresh eq_refl eq_refl eq_refl ltac:(vm_compute; discriminate)
    ltac:(vm_compute; discriminate)) as (res & r' & a' & Hrun & [Hto _] & _).
  exists res, r', a'. split; [exact Hrun|].
  assert (Ha : can_run_list (snd (add_one_req_ignore_eos 1 100 None [eos_short] 1 60 eos_long eos_fresh)) = [eos_long]) by (vm_compute; reflexivity).
  rewrite Hrun in Ha. split; [exact Ha|]. exact (Hto Ha).
Defined.
End Eos.
