(* ===== verification/SchedulePolicy.v ===== *)
(** * The schedule policy

    [SchedulePolicy] of [managers/schedule_policy.py]: how the waiting queue is
    ordered before a prefill batch is formed.  The cache-aware policies look
    every request up in the radix tree, which may split nodes and records the
    match on the request, and use a second tree of their own to hold back
    requests that share a prefix with an earlier one; [dfs-weight] walks the
    tree itself.  Python's recursion limit is not modelled. *)

From S2P Require Import Prelude Allocator DllmReq RadixKey RadixCache RadixCacheProofs StableSort.
Import Radix.

Module Policy.

Inductive policy := LPM | DFS_WEIGHT | FCFS | LOF | RANDOM | ROUTING_KEY.
#[global] Instance policy_eq_dec : EqDecision policy.
Proof. solve_decision. Defined.

(** [isinstance(policy, CacheAwarePolicy)] *)
Definition is_cache_aware (p : policy) : bool := match p with LPM | DFS_WEIGHT => true | _ => false end.

(** [_validate_and_adjust_policy]; [disable] is [getattr(tree_cache, "disable", True)]. *)
Definition validate_and_adjust_policy (name : string) (disable : bool) : res policy :=
  let aware p := Ok (if disable then FCFS else p) in
  if String.eqb name "lpm" then aware LPM
  else if String.eqb name "dfs-weight" then aware DFS_WEIGHT
  else if String.eqb name "fcfs" then Ok FCFS
  else if String.eqb name "lof" then Ok LOF
  else if String.eqb name "random" then Ok RANDOM
  else if String.eqb name "routing-key" then Ok ROUTING_KEY
  else Raise ValueError.

(** The fields of a queued request the policies read, and write. *)
Record queued := Queued {
  q_req : cache_req;
  wait_queue_entry_time : Z;
  routing_key : option string;
}.

Definition q_rid (r : queued) : Z := rid (info (creq (q_req r))).
Definition q_ids (r : queued) : list Z :=
  origin_input_ids (info (creq (q_req r))) ++ output_ids (out (creq (q_req r))).
Definition q_key (r : queued) : radix_key := RadixKey (q_ids r) (creq_extra_key (q_req r)) false.
Definition q_prefix (r : queued) : list Z := prefix_indices (inp (creq (q_req r))).
Definition q_node (r : queued) : nat := last_node (q_req r).

(** [r.prefix_indices, r.last_node = ...] *)
Definition set_match (r : queued) (indices : list Z) (node : nat) : queued :=
  let q := q_req r in
  Queued (CacheReq (set_prefix_indices (creq q) indices) (creq_extra_key q) (creq_priority q) node)
    (wait_queue_entry_time r) (routing_key r).

Record schedule_policy := SchedulePolicy {
  sp_policy : policy;
  enable_priority_scheduling : bool;
  schedule_low_priority_values_first : bool;
}.
Definition priority_sign (self : schedule_policy) : Z :=
  if schedule_low_priority_values_first self then 1 else -1.

(** ** Sorting *)

(** [waiting_queue.sort(key=...)] *)
Definition sort_queue {K} (lt : K -> K -> bool) (key : queued -> res K) (q : list queued) : res (list queued) :=
  sort_keyed lt key q.

(** [x.priority * priority_sign] *)
Definition signed_priority (self : schedule_policy) (r : queued) : res Z :=
  p ← of_option TypeError (creq_priority (q_req r));
  Ok (p * priority_sign self).

Definition sort_by_priority_and_fcfs (self : schedule_policy) (q : list queued) : res (list queued) :=
  sort_queue (pair_lt Z.ltb Z.ltb)
    (fun r => p ← signed_priority self r; Ok (p, wait_queue_entry_time r)) q.

Definition sort_by_longest_output (self : schedule_policy) (q : list queued) : res (list queued) :=
  let wanted r := max_new_tokens (sampling (info (creq (q_req r)))) in
  if enable_priority_scheduling self
  then sort_queue (pair_lt Z.ltb Z.ltb) (fun r => p ← signed_priority self r; Ok (p, - wanted r)) q
  else sort_queue Z.ltb (fun r => Ok (- wanted r)) q.

Definition sort_by_longest_prefix (temporary_deprioritized : gset Z) (q : list queued) : res (list queued) :=
  sort_queue inf_lt (fun r =>
    Ok (if bool_decide (q_rid r ∈ temporary_deprioritized) then None else Some (- len (q_prefix r)))) q.

(** [if r.routing_key] *)
Definition truthy (k : option string) : option string :=
  match k with Some s => if String.eqb s "" then None else Some s | None => None end.

(** [running] are the routing keys of the running batch. *)
Definition sort_by_routing_key (running : list (option string)) (q : list queued) : res (list queued) :=
  let counted := omap truthy running in
  if bool_decide (counted = []) then Ok q else
  sort_queue (pair_lt Z.ltb (pair_lt Z.ltb str_lt)) (fun r =>
    match truthy (routing_key r) with
    | Some key => if bool_decide (key ∈ counted)
                  then Ok (0, (- len (filter (fun k => k = key) counted), key)) else Ok (1, (0, key))
    | None => Ok (1, (0, ""%string))
    end) q.

Section policy.
(** Readings of the clock by the two trees; what torch.empty leaves in memory;
    random.shuffle; the order of a node's children dict. *)
Context (time time_queue : nat -> Z) (uninit : nat -> Z) (shuffle : list queued -> list queued)
  (child_values : radix -> nat -> list nat).
Context (page_size : nat) (is_eagle : bool).
(** IN_BATCH_PREFIX_CACHING_CHECK_THRESHOLD and ..._DEPRIORITIZE_THRESHOLD. *)
Context (check_threshold deprioritize_threshold : Z).

(** ** Prefix matches *)

(** The body of the loop of [_compute_prefix_matches]: the tree of the cache,
    the tree of the queue and the requests held back so far. *)
Definition match_one (r : queued) (dep : gset Z) (t wt : radix) : res (queued * gset Z * radix * radix) :=
  '(indices, node, t) ← match_prefix time false page_size is_eagle (q_key r) t;
  let r := set_match r indices node in
  if len indices <=? check_threshold then
    '(in_batch, _, wt) ← match_prefix time_queue false 1 false (q_key r) wt;
    if deprioritize_threshold <=? len in_batch then Ok (r, {[q_rid r]} ∪ dep, t, wt)
    else
      '(_, wt) ← insert time_queue false 1 false (q_key r) (Some (uninit <$> seq 0 (length (q_ids r)))) (Some 0) false wt;
      Ok (r, dep, t, wt)
  else Ok (r, dep, t, wt).

Fixpoint match_all (q : list queued) (dep : gset Z) (t wt : radix) : res (list queued * gset Z * radix * radix) :=
  match q with
  | [] => Ok ([], dep, t, wt)
  | r :: q =>
      '(r, dep, t, wt) ← match_one r dep t wt;
      '(q, dep, t, wt) ← match_all q dep t wt;
      Ok (r :: q, dep, t, wt)
  end.

(** [_compute_prefix_matches]; [wt] is waiting_queue_radix_tree, which is reset. *)
Definition compute_prefix_matches (q : list queued) (t wt : radix) : res (list queued * gset Z * radix * radix) :=
  match_all q ∅ t (reset time_queue (counter wt) (clock wt)).

(** ** Depth-first order

    The two dicts default to zero and to the empty list. *)
Definition last_node_to_reqs (q : list queued) (n : nat) : list queued := filter (fun r => q_node r = n) q.

Definition weight (w : gmap nat Z) (n : nat) : Z := default 0 (w !! n).

Definition initial_weights (q : list queued) : gmap nat Z :=
  foldl (fun w r => <[q_node r := len (last_node_to_reqs q (q_node r))]> w) ∅ q.

(** [_calc_weight]; the depth is less than the number of nodes. *)
Fixpoint calc_weight (fuel : nat) (t : radix) (cur : nat) (w : gmap nat Z) : gmap nat Z :=
  match fuel with
  | O => w
  | S fuel =>
      foldl (fun w child =>
          let w := calc_weight fuel t child w in
          <[cur := weight w cur + weight w child]> w)
        w (child_values t cur)
  end.

Fixpoint get_dfs_priority (fuel : nat) (t : radix) (cur : nat) (w : gmap nat Z) (reqs : nat -> list queued)
    (q : list queued) : list queued :=
  match fuel with
  | O => q
  | S fuel =>
      foldl (fun q child => get_dfs_priority fuel t child w reqs q) q
        (sort_by Z.ltb (fun x => - weight w x) (child_values t cur)) ++ reqs cur
  end.

Definition sort_by_dfs_weight (q : list queued) (t : radix) : list queued :=
  let w := calc_weight (base.size (nodes t)) t (root_node t) (initial_weights q) in
  get_dfs_priority (base.size (nodes t)) t (root_node t) w (last_node_to_reqs q) [].

(** ** calc_priority *)

Definition determine_active_policy (self : schedule_policy) (q : list queued) : policy :=
  if bool_decide (sp_policy self = LPM) && (128 <? len q) then FCFS else sp_policy self.

(** Whether the prefixes were computed, the queue and the trees.  [running] is
    the running batch's routing keys, when there is a running batch. *)
Definition calc_priority (self : schedule_policy) (running : option (list (option string)))
    (q : list queued) (t wt : radix) : res (bool * list queued * radix * radix) :=
  if bool_decide (sp_policy self = FCFS) then
    q ← (if enable_priority_scheduling self then sort_by_priority_and_fcfs self q else Ok q);
    Ok (false, q, t, wt)
  else
    let policy := determine_active_policy self q in
    if is_cache_aware policy then
      '(q, dep, t, wt) ← compute_prefix_matches q t wt;
      q ← (if bool_decide (policy = LPM) then sort_by_longest_prefix dep q else Ok (sort_by_dfs_weight q t));
      Ok (true, q, t, wt)
    else
      q ← match policy with
          | LOF => sort_by_longest_output self q
          | RANDOM => Ok (shuffle q)
          | ROUTING_KEY =>
              match running with Some running => sort_by_routing_key running q | None => Ok q end
          | _ => Ok q
          end;
      Ok (false, q, t, wt).
End policy.

End Policy.
