(* ===== verification/SchedulePolicyWalk.v ===== *)
(** * Walking the radix tree

    The recursive walks of the [dfs-weight] policy visit every node below their
    starting point exactly once, so that the weights they accumulate are the
    numbers of requests waiting at or below each node, and the order they emit
    contains every request once. *)

From S2P Require Import Prelude RadixKey RadixCache RadixCacheProofs StableSort SchedulePolicy.
Import Radix Policy.

(** ** Grouping a list by a key *)

Lemma group_perm {A} (f : A -> nat) (ns : list nat) (q : list A) :
  NoDup ns -> ns ≫= (fun n => filter (fun r => f r = n) q) ≡ₚ filter (fun r => f r ∈ ns) q.
Proof.
  induction ns as [|n ns IH]; intros Hnd.
  { cbn. assert (Hn : filter (fun r => f r ∈ []) q = []) by (apply elem_of_nil_inv; by intros r [?%not_elem_of_nil _]%list_elem_of_filter).
    by rewrite Hn. }
  apply NoDup_cons in Hnd as [Hn Hnd]. rewrite bind_cons, (IH Hnd).
  rewrite <- (filter_app_complement (fun r => f r = n) (filter (fun r => f r ∈ n :: ns) q)).
  rewrite !list_filter_filter. apply Permutation_app; apply reflexive_eq, list_filter_iff; intros r; rewrite elem_of_cons.
  - naive_solver.
  - split; [intros Hr; split; [intros E; by rewrite E in Hr|by right]|naive_solver].
Qed.

Lemma sum_perm (l k : list Z) : l ≡ₚ k -> foldr Z.add 0 l = foldr Z.add 0 k.
Proof. induction 1; cbn; lia. Qed.

Lemma sum_cat (l k : list Z) : foldr Z.add 0 (l ++ k) = foldr Z.add 0 l + foldr Z.add 0 k.
Proof. induction l as [|x l IH]; cbn; [done|]. rewrite IH. lia. Qed.

Lemma sum_bind {A B} (f : B -> Z) (g : A -> list B) (l : list A) :
  foldr Z.add 0 (f <$> (l ≫= g)) = foldr Z.add 0 ((fun a => foldr Z.add 0 (f <$> g a)) <$> l).
Proof. induction l as [|a l IH]; [done|]. rewrite bind_cons, fmap_app, sum_cat, IH. done. Qed.

Lemma sum_length {A B} (g : A -> list B) (l : list A) : foldr Z.add 0 ((fun a => len (g a)) <$> l) = len (l ≫= g).
Proof. induction l as [|a l IH]; [done|]. rewrite bind_cons, len_app, <- IH. done. Qed.

Section walk.
Context (ps : nat) (eagle : bool) (ps_pos : (0 < ps)%nat) (lk : nat -> Z) (t : radix) (P : nat -> list nat)
  (Hok : tree_ok ps eagle P lk t).
Context (child_values : radix -> nat -> list nat).
Hypothesis values_perm : forall n nd, nodes t !! n = Some nd -> child_values t n ≡ₚ (map_to_list (children nd)).*2.

Definition below (n x : nat) : Prop := n = root_node t \/ n ∈ P x.
#[global] Instance below_dec n x : Decision (below n x).
Proof. unfold below. apply _. Defined.

Definition all_nodes : list nat := (map_to_list (nodes t)).*1.
Definition subtree (n : nat) : list nat := filter (below n) all_nodes.

Lemma elem_of_all x : x ∈ all_nodes <-> is_Some (nodes t !! x).
Proof.
  unfold all_nodes. rewrite list_elem_of_fmap. split.
  - intros ([y nd] & -> & Hy%elem_of_map_to_list). by eexists.
  - intros [nd Hn]. exists (x, nd). split; [done|]. by apply elem_of_map_to_list.
Qed.

Lemma elem_of_subtree n x : x ∈ subtree n <-> is_Some (nodes t !! x) /\ below n x.
Proof. unfold subtree. rewrite list_elem_of_filter, elem_of_all. tauto. Qed.

Lemma NoDup_subtree n : NoDup (subtree n).
Proof. apply NoDup_filter, NoDup_fst_map_to_list. Qed.

(** A child of [n], with its path. *)
Lemma child_facts n nd c :
  nodes t !! n = Some nd -> c ∈ child_values t n ->
  exists cd, nodes t !! c = Some cd /\ c <> root_node t /\ parent cd = Some n /\ P c = P n ++ [c].
Proof.
  intros Hn Hc. rewrite (values_perm n nd Hn) in Hc. apply list_elem_of_fmap in Hc as ([k c'] & -> & Hk%elem_of_map_to_list). cbn [snd].
  destruct (ok_child _ _ _ _ _ Hok n nd k c' Hn Hk) as (cd & Hcd & Hr & Hp & _). exists cd. split; [done|]. split; [done|].
  split; [done|]. destruct (ok_node _ _ _ _ _ Hok c' cd Hcd Hr) as (p & pd & [Hp' _ HP _ _ _ _]). rewrite Hp in Hp'. by injection Hp' as <-.
Qed.

Lemma NoDup_children n nd : nodes t !! n = Some nd -> NoDup (child_values t n).
Proof.
  intros Hn. rewrite (values_perm n nd Hn). apply NoDup_fmap_2_strong; [|apply NoDup_map_to_list].
  intros [k c] [k' c'] Hk%elem_of_map_to_list Hk'%elem_of_map_to_list Hc. cbn in Hc. subst c'.
  destruct (ok_child _ _ _ _ _ Hok n nd k c Hn Hk) as (cd & Hcd & _ & _ & ->).
  destruct (ok_child _ _ _ _ _ Hok n nd k' c Hn Hk') as (cd' & Hcd' & _ & _ & ->). congruence.
Qed.

Lemma below_path n x xd : nodes t !! x = Some xd -> n <> root_node t -> below n x -> exists rest, P x = P n ++ rest.
Proof.
  intros Hx Hn [?|Hin]; [done|]. destruct (path_mem ps eagle ps_pos P lk t Hok x xd n Hx Hin) as (_ & rest & _ & _ & HP).
  by exists rest.
Qed.

(** The nodes below [n] are [n] and those below one of its children. *)
Lemma subtree_split n nd :
  nodes t !! n = Some nd -> subtree n ≡ₚ n :: (child_values t n ≫= subtree).
Proof.
  intros Hn. assert (Hbelow : forall x c, c ∈ child_values t n -> x ∈ subtree c -> exists rest, P x = P n ++ c :: rest).
  { intros x c Hc Hx. destruct (child_facts n nd c Hn Hc) as (cd & Hcd & Hr & _ & HP).
    apply elem_of_subtree in Hx as [[xd Hx] Hb]. destruct (below_path c x xd Hx Hr Hb) as [rest Hrest].
    exists rest. by rewrite Hrest, HP, <- app_assoc. }
  apply NoDup_Permutation.
  - apply NoDup_subtree.
  - apply NoDup_cons. split.
    + intros (c & Hx & Hc)%list_elem_of_bind. destruct (Hbelow n c Hc Hx) as [rest HP].
      apply (f_equal length) in HP. rewrite length_app in HP. cbn in HP. lia.
    + apply NoDup_bind; [|intros; apply NoDup_subtree|by apply (NoDup_children n nd)].
      intros c1 c2 x H1 H2 Hx1 Hx2. destruct (Hbelow x c1 H1 Hx1) as [r1 E1], (Hbelow x c2 H2 Hx2) as [r2 E2].
      rewrite E1 in E2. apply app_inv_head in E2. congruence.
  - intros x. rewrite elem_of_cons, list_elem_of_bind. split.
    + intros [[xd Hx] Hb]%elem_of_subtree. destruct (decide (x = n)) as [->|Hne]; [by left|]. right.
      destruct (path_below ps eagle ps_pos P lk t Hok x xd n Hx Hb Hne) as (c & cd & rest & Hc & Hr & Hp & HP & _).
      exists c. split; [|].
      * apply elem_of_subtree. split; [by eexists|]. right. rewrite HP. apply elem_of_app. right. by left.
      * rewrite (values_perm n nd Hn). destruct (ok_node _ _ _ _ _ Hok c cd Hc Hr) as (p & pd & Hno).
        pose proof (no_parent _ _ _ _ _ _ _ _ Hno) as Hp'. rewrite Hp in Hp'. injection Hp' as <-.
        pose proof (no_lookup _ _ _ _ _ _ _ _ Hno) as Hpd. rewrite Hn in Hpd. injection Hpd as <-.
        apply list_elem_of_fmap. eexists (_, c). split; [done|]. apply elem_of_map_to_list. apply Hno.
    + intros [->|(c & Hx & Hc)]; apply elem_of_subtree.
      * split; [by eexists|]. destruct (decide (n = root_node t)) as [->|Hr]; [by left|]. right.
        by apply (path_nonroot ps eagle P lk t Hok n nd).
      * apply elem_of_subtree in Hx as Hx'. destruct Hx' as [Hs _]. split; [done|].
        destruct (decide (n = root_node t)) as [->|Hr]; [by left|]. right. destruct (Hbelow x c Hc Hx) as [rest ->].
        apply elem_of_app. left. by apply (path_nonroot ps eagle P lk t Hok n nd).
Qed.

(** *** Enough fuel *)

(** [fuel] exceeds the height of the tree below [n]. *)
Definition deep_enough (fuel n : nat) : Prop := forall x, x ∈ subtree n -> (length (P x) < length (P n) + fuel)%nat.

Lemma deep_child fuel n nd c :
  nodes t !! n = Some nd -> c ∈ child_values t n -> deep_enough (S fuel) n -> deep_enough fuel c.
Proof.
  intros Hn Hc Hd x Hx. destruct (child_facts n nd c Hn Hc) as (cd & _ & _ & _ & HP).
  assert (Hxn : x ∈ subtree n) by (rewrite (subtree_split n nd Hn); right; apply list_elem_of_bind; by exists c).
  specialize (Hd x Hxn). rewrite HP, length_app. cbn. lia.
Qed.

Lemma self_in n nd : nodes t !! n = Some nd -> n ∈ subtree n.
Proof. intros Hn. rewrite (subtree_split n nd Hn). by left. Qed.

Lemma deep_root : deep_enough (base.size (nodes t)) (root_node t).
Proof.
  intros x [[xd Hx] _]%elem_of_subtree. pose proof (path_short ps eagle ps_pos P lk t x xd Hok Hx). lia.
Qed.

(** *** The order of the walk *)

Fixpoint dfs_nodes (fuel : nat) (w : gmap nat Z) (cur : nat) : list nat :=
  match fuel with
  | O => []
  | S fuel => (sort_by Z.ltb (fun x => - weight w x) (child_values t cur) ≫= dfs_nodes fuel w) ++ [cur]
  end.

Lemma dfs_order fuel w reqs : forall cur q,
  get_dfs_priority child_values fuel t cur w reqs q = q ++ (dfs_nodes fuel w cur ≫= reqs).
Proof.
  induction fuel as [|fuel IH]; intros cur q; cbn [get_dfs_priority dfs_nodes]; [by rewrite app_nil_r|].
  assert (Hf : forall l q, foldl (fun q child => get_dfs_priority child_values fuel t child w reqs q) q l =
    q ++ ((l ≫= dfs_nodes fuel w) ≫= reqs)).
  { induction l as [|c l IHl]; intros q'; cbn [foldl]; [by rewrite app_nil_r|].
    by rewrite IHl, IH, bind_cons, bind_app, <- app_assoc. }
  rewrite Hf, bind_app, <- app_assoc. do 2 f_equal. cbn. by rewrite app_nil_r.
Qed.

Lemma dfs_nodes_perm fuel w : forall n nd,
  nodes t !! n = Some nd -> deep_enough fuel n -> dfs_nodes fuel w n ≡ₚ subtree n.
Proof.
  induction fuel as [|fuel IH]; intros n nd Hn Hd.
  { specialize (Hd n (self_in n nd Hn)). lia. }
  cbn [dfs_nodes]. rewrite (subtree_split n nd Hn), (Permutation_app_comm _ [n]), sort_by_perm. cbn [app]. f_equiv.
  apply bind_perm_ext. intros c Hc. destruct (child_facts n nd c Hn Hc) as (cd & Hcd & _).
  by apply (IH c cd); [|apply (deep_child fuel n nd c)].
Qed.

(** *** Weights *)

Definition total (w : gmap nat Z) (n : nat) : Z := foldr Z.add 0 (weight w <$> subtree n).

Lemma total_split w n nd :
  nodes t !! n = Some nd -> total w n = weight w n + foldr Z.add 0 (total w <$> child_values t n).
Proof.
  intros Hn. unfold total at 1.
  assert (Hp : weight w <$> subtree n ≡ₚ weight w <$> (n :: (child_values t n ≫= subtree))) by (by rewrite (subtree_split n nd Hn)).
  rewrite (sum_perm _ _ Hp), fmap_cons. cbn [foldr]. f_equal. by rewrite sum_bind.
Qed.

Lemma total_ext w w' n : (forall x, x ∈ subtree n -> weight w x = weight w' x) -> total w n = total w' n.
Proof. intros He. unfold total. f_equal. apply list_fmap_ext. intros i x Hx%list_elem_of_lookup_2. by apply He. Qed.

Lemma weight_insert w n v x : weight (<[n := v]> w) x = if decide (x = n) then v else weight w x.
Proof. unfold weight. case_decide as H; [subst; by rewrite lookup_insert_eq|by rewrite lookup_insert_ne]. Qed.

(** The children of a node are disjoint from it and from each other. *)
Lemma children_disjoint n nd c x :
  nodes t !! n = Some nd -> c ∈ child_values t n -> x ∈ subtree c ->
  x <> n /\ forall c', c' ∈ child_values t n -> x ∈ subtree c' -> c' = c.
Proof.
  intros Hn Hc Hx. assert (Hp : forall c, c ∈ child_values t n -> x ∈ subtree c -> exists rest, P x = P n ++ c :: rest).
  { intros c1 Hc1 Hx1. destruct (child_facts n nd c1 Hn Hc1) as (cd & Hcd & Hr & _ & HP).
    apply elem_of_subtree in Hx1 as [[xd Hxd] Hb]. destruct (below_path c1 x xd Hxd Hr Hb) as [rest Hrest].
    exists rest. by rewrite Hrest, HP, <- app_assoc. }
  destruct (Hp c Hc Hx) as [r1 E1]. split.
  - intros ->. apply (f_equal length) in E1. rewrite length_app in E1. cbn in E1. lia.
  - intros c' Hc' Hx'. destruct (Hp c' Hc' Hx') as [r2 E2]. rewrite E1 in E2. apply app_inv_head in E2. congruence.
Qed.

Lemma subtree_trans c y x : y ∈ subtree c -> x ∈ subtree y -> x ∈ subtree c.
Proof.
  rewrite !elem_of_subtree. intros [[yd Hy] Hc] [[xd Hx] Hyx]. split; [by eexists|]. destruct Hc as [->|Hc]; [by left|].
  right. destruct Hyx as [->|Hyx]; [by rewrite (ok_top _ _ _ _ _ Hok) in Hc; apply not_elem_of_nil in Hc|].
  destruct (path_mem ps eagle ps_pos P lk t Hok x xd y Hx Hyx) as (_ & rest & _ & _ & ->). apply elem_of_app. by left.
Qed.

(** The weights once the children in [done] have been walked, [w] being the
    weights at the start. *)
Definition walked_to (n : nat) (w : gmap nat Z) (done : list nat) (w' : gmap nat Z) : Prop := forall x,
  weight w' x = if decide (x = n) then weight w n + foldr Z.add 0 (total w <$> done)
                else if decide (x ∈ done ≫= subtree) then total w x else weight w x.

Definition walk_child (fuel n : nat) (w : gmap nat Z) (child : nat) : gmap nat Z :=
  let w := calc_weight child_values fuel t child w in
  <[n := weight w n + weight w child]> w.

Lemma walk_child_step fuel n nd w w' done c todo :
  nodes t !! n = Some nd -> child_values t n = done ++ c :: todo ->
  (forall x, weight (calc_weight child_values fuel t c w') x = if decide (x ∈ subtree c) then total w' x else weight w' x) ->
  walked_to n w done w' -> walked_to n w (done ++ [c]) (walk_child fuel n w' c).
Proof.
  intros Hn Hdt Hcw Hw x. assert (Hc : c ∈ child_values t n) by (rewrite Hdt; apply elem_of_app; right; by left).
  destruct (child_facts n nd c Hn Hc) as (cd & Hcd & _).
  assert (Hfresh : forall y, y ∈ subtree c -> weight w' y = weight w y).
  { intros y Hy. rewrite Hw. destruct (children_disjoint n nd c y Hn Hc Hy) as [Hyn Hyc]. rewrite decide_False by done.
    apply decide_False. intros (c' & Hy' & Hc')%list_elem_of_bind.
    assert (c' = c) as -> by (apply Hyc; [rewrite Hdt; apply elem_of_app; by left|done]).
    pose proof (NoDup_children n nd Hn) as Hnd. rewrite Hdt in Hnd. apply NoDup_app in Hnd as (_ & Hnd & _).
    apply (Hnd c Hc'). by left. }
  assert (Htot : forall y, y ∈ subtree c -> total w' y = total w y)
    by (intros y Hy; apply total_ext; intros z Hz; apply Hfresh; by apply (subtree_trans c y)).
  assert (Hnc : n ∉ subtree c) by (intros Hx; by destruct (children_disjoint n nd c n Hn Hc Hx) as [? _]).
  unfold walk_child. cbn zeta. rewrite weight_insert, !Hcw, (decide_True _ _ (self_in c cd Hcd)), (decide_False _ _ Hnc).
  rewrite fmap_app, sum_cat, bind_app. cbn [fmap list_fmap foldr mbind list_bind]. rewrite app_nil_r.
  destruct (decide (x = n)) as [->|Hne].
  - rewrite Htot by (by apply (self_in c cd)). rewrite (Hw n), decide_True by done. lia.
  - destruct (decide (x ∈ subtree c)) as [Hx|Hx].
    + rewrite Htot, decide_True by (done || (apply elem_of_app; by right)). done.
    + rewrite Hw, decide_False by done. apply decide_ext. rewrite elem_of_app. tauto.
Qed.

(** After the walk every node below the start carries the total of what was
    below it, and no other weight has changed. *)
Lemma calc_weight_spec fuel : forall n nd w,
  nodes t !! n = Some nd -> deep_enough fuel n ->
  forall x, weight (calc_weight child_values fuel t n w) x = if decide (x ∈ subtree n) then total w x else weight w x.
Proof.
  induction fuel as [|fuel IH]; intros n nd w Hn Hd.
  { specialize (Hd n (self_in n nd Hn)). lia. }
  cbn [calc_weight]. change (foldl _ w (child_values t n)) with (foldl (walk_child fuel n) w (child_values t n)).
  assert (Hloop : forall todo done w', child_values t n = done ++ todo -> walked_to n w done w' ->
    walked_to n w (done ++ todo) (foldl (walk_child fuel n) w' todo)).
  { induction todo as [|c todo IHt]; intros done w' Hdt Hw; cbn [foldl]; [by rewrite app_nil_r|].
    assert (Hc : c ∈ child_values t n) by (rewrite Hdt; apply elem_of_app; right; by left).
    destruct (child_facts n nd c Hn Hc) as (cd & Hcd & _). rewrite (cons_middle c done todo), app_assoc.
    apply IHt; [by rewrite Hdt, <- app_assoc|]. apply (walk_child_step fuel n nd w w' done c todo); try done.
    by apply (IH c cd); [|apply (deep_child fuel n nd c)]. }
  intros x. rewrite (Hloop (child_values t n) [] w eq_refl); cbn [app].
  - destruct (decide (x = n)) as [->|Hne].
    + rewrite decide_True by (by apply (self_in n nd)). by rewrite (total_split w n nd Hn).
    + apply decide_ext. rewrite (subtree_split n nd Hn), elem_of_cons. tauto.
  - intros y. cbn. destruct (decide (y = n)) as [->|]; [lia|]. rewrite decide_False; [done|]. apply not_elem_of_nil.
Qed.
End walk.
