(* ===== verification/SchedulePolicyProofs.v ===== *)
(** * The schedule policies order the queue, and lose nobody

    The prefix matches of a queue, the requests that are held back, and the
    depth-first walk of the radix tree: each against a description that does not
    mention how the trees are laid out. *)

From S2P Require Import Prelude Allocator DllmReq RadixKey RadixCache RadixCacheProofs RadixCacheTheorems StableSort SchedulePolicy SchedulePolicyWalk.
Import Radix Policy.

(** ** Sorting a queue *)

Lemma sort_queue_total {K} (lt : K -> K -> bool) key (f : queued -> K) q :
  (forall r, r ∈ q -> key r = Ok (f r)) -> sort_queue lt key q = Ok (sort_by lt f q).
Proof. apply sort_keyed_total. Qed.

(** [q'] is [q] sorted: a permutation in order, equal keys as they stood. *)
Record stably_sorted {K} (lt : K -> K -> bool) (key : queued -> K) (q q' : list queued) : Prop := {
  ss_perm : q' ≡ₚ q;
  ss_order : in_order lt key q';
  ss_stable k : filter (fun r => same_key lt key k r = true) q' = filter (fun r => same_key lt key k r = true) q;
}.

Lemma sort_by_sorted {K} (lt : K -> K -> bool) `{!KeyOrder lt} key q : stably_sorted lt key q (sort_by lt key q).
Proof. split; [apply sort_by_perm|by apply sort_by_order|intros k; by apply sort_by_stable]. Qed.

Lemma sort_queue_sorted {K} (lt : K -> K -> bool) `{!KeyOrder lt} key (f : queued -> K) q :
  (forall r, r ∈ q -> key r = Ok (f r)) -> exists q', sort_queue lt key q = Ok q' /\ stably_sorted lt f q q'.
Proof. intros Hk. exists (sort_by lt f q). split; [by apply sort_queue_total|by apply sort_by_sorted]. Qed.

(** A request without the match recorded on it, and what a policy may not
    change of a queue. *)
Definition unmatched (r : queued) : queued := set_match r [] 0.
Definition same_requests (q q' : list queued) : Prop := unmatched <$> q' ≡ₚ unmatched <$> q.

Lemma perm_same q q' : q' ≡ₚ q -> same_requests q q'.
Proof. intros Hp. unfold same_requests. by rewrite Hp. Qed.

Lemma matched_same q q' :
  Forall2 (fun r r' => r' = set_match r (q_prefix r') (q_node r')) q q' -> same_requests q q'.
Proof.
  intros Hf. unfold same_requests. apply reflexive_eq. induction Hf as [|r r' q q' Hr Hf IH]; [done|]. rewrite !fmap_cons, IH. f_equal. by rewrite Hr.
Qed.

Lemma same_requests_trans q1 q2 q3 : same_requests q1 q2 -> same_requests q2 q3 -> same_requests q1 q3.
Proof. unfold same_requests. intros H1 H2. by rewrite H2. Qed.

(** ** The requests that are held back *)

(** [a] and [b] share [n] leading tokens in one namespace. *)
Definition shares (n : Z) (a b : queued) : bool :=
  bool_decide (creq_extra_key (q_req a) = creq_extra_key (q_req b)) && (n <=? Z.of_nat (common (q_ids a) (q_ids b))).

(** A request with a short match in the cache is held back when it shares
    enough with an earlier one that also has a short match and was not itself
    held back. *)
Fixpoint held_back (check share : Z) (seen q : list queued) : list Z :=
  match q with
  | [] => []
  | r :: q =>
      if len (q_prefix r) <=? check then
        if existsb (shares share r) seen then q_rid r :: held_back check share seen q
        else held_back check share (r :: seen) q
      else held_back check share seen q
  end.

(** The tree of the queue holds the prefixes of the requests seen. *)
Record queue_tree (seen : list queued) (wt : radix) : Prop := {
  qt_ok : radix_ok 1 false [] wt;
  qt_only e g : cached_as wt e g -> g = [] \/
    exists k, k ∈ seen /\ creq_extra_key (q_req k) = e /\ g.*1 `prefix_of` key_iter (q_key k);
  qt_all k : k ∈ seen -> exists g, cached_as wt (creq_extra_key (q_req k)) g /\ g.*1 = key_iter (q_key k);
}.

Lemma prefix_cached st e g g' : cached_as st e g -> g' `prefix_of` g -> cached_as st e g'.
Proof. intros (n & nd & Hn & Hs & Hg) Hp. exists n, nd. split; [done|]. split; [done|]. by etransitivity. Qed.

Lemma queue_reset time id clk : queue_tree [] (reset time id clk).
Proof.
  split; [apply reset_ok; lia| |by intros k ?%not_elem_of_nil].
  intros e g (n & nd & Hn & _ & Hg). left. unfold reset in Hn. cbn [nodes] in Hn. apply lookup_singleton_Some in Hn as [<- _].
  assert (Hr : prefix_at (reset time id clk) id = []).
  { unfold prefix_at, ents. pose proof (ok_top _ _ _ _ _ (proj1 (reset_ok 1 false ltac:(lia) time id clk))) as Ht.
    change (root_node (reset time id clk)) with id in Ht. by rewrite Ht. }
  rewrite Hr in Hg. by apply prefix_nil_inv in Hg.
Qed.

Lemma view_plain k : is_bigram k = false -> view 1 false k = k.
Proof. done. Qed.

Lemma common_lcp r k : common (q_ids r) (q_ids k) = lcp (key_iter (q_key r)) (key_iter (q_key k)).
Proof. symmetry. apply lcp_tokens. Qed.

(** A key is matched to the longest part it shares with a request seen. *)
Lemma queue_match time seen wt r share :
  queue_tree seen wt -> 0 < share ->
  exists vs n wt', match_prefix time false 1 false (q_key r) wt = Ok (vs, n, wt') /\ queue_tree seen wt' /\
    (share <=? len vs) = existsb (shares share r) seen.
Proof.
  intros [Hok Honly Hall] Hs.
  destruct (match_run 1 false ltac:(lia) time [] wt (q_key r) Hok ltac:(done)) as (g & n & wt' & Hrun & Hm).
  exists g.*2, n, wt'. split; [done|]. pose proof (mt_same _ _ _ _ _ _ _ _ Hm) as Hsame. split.
  { split; [apply Hm| |].
    - intros e g'. rewrite Hsame. apply Honly.
    - intros k Hk. destruct (Hall k Hk) as (g' & Hc & Hu). exists g'. by rewrite Hsame. }
  pose proof (mt_units _ _ _ _ _ _ _ _ Hm) as Hu. rewrite view_plain in Hu by done. unfold len. rewrite length_fmap.
  apply eq_iff_eq_true. rewrite Z.leb_le, existsb_exists. unfold shares. split.
  - intros Hl. destruct (Honly _ g (mt_cached _ _ _ _ _ _ _ _ Hm)) as [->|(k & Hk & He & Hp)]; [cbn in Hl; lia|].
    exists k. split; [by apply list_elem_of_In|]. rewrite bool_decide_true by done. apply Z.leb_le. rewrite common_lcp.
    destruct Hu as [r1 ->], Hp as [r2 ->]. rewrite lcp_app_same, length_fmap. lia.
  - intros (k & Hk%list_elem_of_In & Hsh). apply andb_true_iff in Hsh as [He%bool_decide_eq_true_1 Hc%Z.leb_le].
    destruct (Hall k Hk) as (g' & Hc' & Hu'). rewrite common_lcp in Hc. set (m := lcp _ _) in Hc.
    pose proof (lcp_prefix (key_iter (q_key r)) (key_iter (q_key k))) as Hpre. fold m in Hpre.
    pose proof (lcp_le (key_iter (q_key r)) (key_iter (q_key k))) as [_ Hml]. fold m in Hml.
    pose proof (mt_longest _ _ _ _ _ _ _ _ Hm (take m g')) as Hl. rewrite view_plain in Hl by done.
    specialize (Hl ltac:(rewrite <- He in Hc'; apply (prefix_cached _ _ g'); [done|apply prefix_take])).
    rewrite fmap_take, Hu', <- Hpre in Hl. specialize (Hl (prefix_take _ _)). rewrite Nat.div_1_r, Nat.mul_1_r, length_take in Hl.
    rewrite <- Hu', length_fmap in Hml. lia.
Qed.

Lemma queue_insert time seen wt r v prio :
  queue_tree seen wt -> length v = length (q_ids r) ->
  exists m wt', insert time false 1 false (q_key r) (Some v) prio false wt = Ok (m, wt') /\ queue_tree (r :: seen) wt'.
Proof.
  intros [Hok Honly Hall] Hv.
  destruct (insert_run 1 false ltac:(lia) time [] wt (q_key r) v prio false Hok ltac:(done)) as (g & wt' & Hrun & Hst).
  { rewrite view_plain by done. unfold key_len. cbn. lia. }
  exists (length g), wt'. split; [done|]. destruct Hst as [Hok' Hu _ _ Hadds _ _]. rewrite view_plain in Hu, Hadds by done.
  set (V := take _ v) in Hadds. set (full := g ++ zip _ _) in Hadds.
  assert (HV : length V = length (key_iter (q_key r))).
  { unfold V. rewrite length_take, length_key_iter. unfold key_len. cbn. lia. }
  assert (Hfull : full.*1 = key_iter (q_key r)).
  { unfold full. rewrite fmap_app, fst_zip by (rewrite !length_drop; lia). destruct Hu as [rest Hr]. rewrite Hr.
    rewrite <- (length_fmap fst g), drop_app_length. done. }
  split; [done| |].
  - intros e g' [Hc|[-> Hp]]%Hadds.
    + destruct (Honly e g' Hc) as [?|(k & Hk & ?)]; [by left|]. right. exists k. split; [by right|done].
    + right. exists r. split; [by left|]. split; [done|]. rewrite <- Hfull. destruct Hp as [r' ->].
      rewrite fmap_app. by apply prefix_app_r.
  - intros k [->|Hk]%elem_of_cons.
    + exists full. split; [|done]. apply Hadds. right. done.
    + destruct (Hall k Hk) as (g' & Hc & Hgu). exists g'. split; [|done]. apply Hadds. by left.
Qed.

(** ** Prefix matches *)

Section matches.
Context (ps : nat) (eagle : bool) (ps_pos : (0 < ps)%nat) (L : list nat).
Notation radix_ok := (radix_ok ps eagle).

(** The match recorded on a request: the longest prefix cached in [t0], and the
    node of [t] that stands for it. *)
Definition placed (t0 t : radix) (r : queued) : Prop :=
  exists g, q_prefix r = g.*2 /\ is_Some (nodes t !! q_node r) /\ prefix_at t (q_node r) = g /\
    g.*1 `prefix_of` key_iter (view ps eagle (q_key r)) /\ cached_as t0 (creq_extra_key (q_req r)) g /\
    forall g', cached_as t0 (creq_extra_key (q_req r)) g' -> g'.*1 `prefix_of` key_iter (view ps eagle (q_key r)) ->
      (length g' / ps * ps <= length g)%nat.

(** The tree after lookups: well formed, with the meaning it had, and every
    reference into it as it was. *)
Record looked_up (t t' : radix) : Prop := {
  lu_ok : radix_ok L t';
  lu_same e g : cached_as t' e g <-> cached_as t e g;
  lu_keep h hd : nodes t !! h = Some hd -> is_Some (nodes t' !! h) /\ prefix_at t' h = prefix_at t h;
  lu_slots : tree_slots t' ≡ₚ tree_slots t;
  lu_ref h : is_Some (nodes t !! h) -> ref_kept t t' h;
}.

Lemma looked_up_refl t : radix_ok L t -> looked_up t t.
Proof. intros Hi. by split. Qed.

Lemma looked_up_trans t1 t2 t3 : looked_up t1 t2 -> looked_up t2 t3 -> looked_up t1 t3.
Proof.
  intros [_ S1 K1 P1 R1] [O2 S2 K2 P2 R2]. split; [done| | |by rewrite P2|].
  - intros e g. by rewrite S2.
  - intros h hd Hh. destruct (K1 h hd Hh) as [[hd2 Hh2] E1]. destruct (K2 h hd2 Hh2) as [? E2]. split; [done|congruence].
  - intros h [hd Hh]. destruct (K1 h hd Hh) as [Hs _]. destruct (R1 h ltac:(by eexists)) as [E1 F1], (R2 h Hs) as [E2 F2].
    split; [congruence|]. intros e He. by apply F2, F1.
Qed.

Lemma placed_later t0 t t' r : looked_up t t' -> placed t0 t r -> placed t0 t' r.
Proof.
  intros Hl (g & Hp & [nd Hn] & Hat & Hrest). destruct (lu_keep _ _ Hl _ nd Hn) as [Hs He].
  exists g. split; [done|]. split; [done|]. split; [congruence|done].
Qed.

Context (time time_queue uninit : nat -> Z) (check share : Z) (share_pos : 0 < share).
Notation match_one := (match_one time time_queue uninit ps eagle check share).
Notation match_all := (match_all time time_queue uninit ps eagle check share).

Lemma match_one_spec t0 t wt seen dep r :
  radix_ok L t -> (forall e g, cached_as t e g <-> cached_as t0 e g) -> queue_tree seen wt ->
  exists r' t' wt', match_one r dep t wt =
      Ok (r', list_to_set (held_back check share seen [r']) ∪ dep, t', wt') /\
    looked_up t t' /\ placed t0 t' r' /\ r' = set_match r (q_prefix r') (q_node r') /\
    queue_tree (if (len (q_prefix r') <=? check) && negb (existsb (shares share r') seen) then r' :: seen else seen) wt'.
Proof.
  intros Hok Hsame Hq.
  destruct (match_run ps eagle ps_pos time L t (q_key r) Hok ltac:(done)) as (g & n & t' & Hrun & Hm).
  unfold match_one. rewrite Hrun. step_ok. set (r' := set_match r g.*2 n). change (q_key r) with (q_key r').
  change (len g.*2) with (len (q_prefix r')). cbn [held_back].
  assert (Hl : looked_up t t') by (split; apply Hm).
  assert (Hp : placed t0 t' r').
  { destruct Hm as [_ Hn Hat Hu Hc Hlg _ _ _]. exists g. do 4 (split; [done|]). split; [by apply Hsame|].
    intros g' Hg'. apply Hlg. by apply Hsame. }
  destruct (len (q_prefix r') <=? check) eqn:Hc.
  2:{ exists r', t', wt. rewrite Hc. cbn [andb]. by rewrite list_to_set_nil, union_empty_l_L. }
  destruct (queue_match time_queue seen wt r' share Hq share_pos) as (vs & n' & wt' & Hrw & Hq' & He). rewrite Hrw. step_ok.
  rewrite He. destruct (existsb (shares share r') seen) eqn:Hsh.
  - exists r', t', wt'. rewrite Hc, Hsh. cbn [andb negb]. by rewrite list_to_set_cons, list_to_set_nil, union_empty_r_L.
  - destruct (queue_insert time_queue seen wt' r' (uninit <$> seq 0 (length (q_ids r'))) (Some 0) Hq') as (m & wt2 & Hins & Hq2).
    { by rewrite length_fmap, length_seq. }
    rewrite Hins. step_ok. exists r', t', wt2. rewrite Hc, Hsh. cbn [andb negb]. by rewrite list_to_set_nil, union_empty_l_L.
Qed.

Lemma held_back_cons seen r q :
  held_back check share seen (r :: q) = held_back check share seen [r] ++
    held_back check share (if (len (q_prefix r) <=? check) && negb (existsb (shares share r) seen) then r :: seen else seen) q.
Proof. cbn [held_back]. destruct (len (q_prefix r) <=? check), (existsb (shares share r) seen); done. Qed.

Lemma match_all_spec t0 q : forall t wt seen dep,
  radix_ok L t -> (forall e g, cached_as t e g <-> cached_as t0 e g) -> queue_tree seen wt ->
  exists q' t' wt', match_all q dep t wt = Ok (q', list_to_set (held_back check share seen q') ∪ dep, t', wt') /\
    looked_up t t' /\ Forall (placed t0 t') q' /\
    Forall2 (fun r r' => r' = set_match r (q_prefix r') (q_node r')) q q'.
Proof.
  induction q as [|r q IH]; intros t wt seen dep Hok Hsame Hq; cbn [Policy.match_all].
  { exists [], t, wt. cbn [held_back]. rewrite list_to_set_nil, union_empty_l_L. split; [done|]. split; [by apply looked_up_refl|]. by constructor. }
  destruct (match_one_spec t0 t wt seen dep r Hok Hsame Hq) as (r' & t1 & wt1 & Hrun & Hl & Hp & Hr & Hq1).
  rewrite Hrun. step_ok.
  destruct (IH t1 wt1 _ (list_to_set (held_back check share seen [r']) ∪ dep) (lu_ok _ _ Hl)
    ltac:(intros e g; by rewrite (lu_same _ _ Hl)) Hq1) as (q' & t2 & wt2 & Hrun2 & Hl2 & Hps & Hf). rewrite Hrun2. step_ok.
  exists (r' :: q'), t2, wt2. split.
  - rewrite (held_back_cons seen r' q'), list_to_set_app_L.
    assert (Hu : forall X Y Z : gset Z, X ∪ (Y ∪ Z) = (Y ∪ X) ∪ Z) by set_solver. by rewrite Hu.
  - split; [by apply (looked_up_trans t t1)|]. split; [|by constructor]. constructor; [by apply (placed_later t0 t1)|done].
Qed.
End matches.

(** ** Weights and the depth-first order *)

Lemma initial_weights_spec q n : weight (initial_weights q) n = len (last_node_to_reqs q n).
Proof.
  assert (Hf : forall l w, weight (foldl (fun w r => <[q_node r := len (last_node_to_reqs q (q_node r))]> w) w l) n =
    if decide (n ∈ q_node <$> l) then len (last_node_to_reqs q n) else weight w n).
  { induction l as [|r l IH]; intros w; cbn [foldl fmap list_fmap]; [by rewrite decide_False by apply not_elem_of_nil|].
    rewrite IH, weight_insert. destruct (decide (n ∈ q_node <$> l)) as [Hin|Hin].
    - by rewrite decide_True by (by right).
    - destruct (decide (n = q_node r)) as [->|Hne]; [by rewrite decide_True by (by left)|].
      rewrite decide_False; [done|]. by intros [?|?]%elem_of_cons. }
  unfold initial_weights. rewrite Hf. destruct (decide (n ∈ q_node <$> q)) as [|Hn]; [done|].
  assert (He : last_node_to_reqs q n = []); [|by rewrite He].
  apply elem_of_nil_inv. intros r [Hr Hin]%list_elem_of_filter. apply Hn. rewrite <- Hr. by apply list_elem_of_fmap_2.
Qed.

(** The walk, declaratively: children with more waiting below them first, a
    node after everything below it. *)
Inductive visits (t : radix) (W : nat -> Z) : nat -> list nat -> Prop :=
  | visit_node n nd cs ls :
      nodes t !! n = Some nd -> cs ≡ₚ (map_to_list (children nd)).*2 ->
      StronglySorted (fun a b => W b <= W a) cs -> Forall2 (visits t W) cs ls ->
      visits t W n (concat ls ++ [n]).

Lemma sorted_weaken {A} (R R' : A -> A -> Prop) l :
  (forall a b, a ∈ l -> b ∈ l -> R a b -> R' a b) -> StronglySorted R l -> StronglySorted R' l.
Proof.
  intros Hi Hs. induction Hs as [|a l Hs IH Hf]; constructor.
  - apply IH. intros x y Hx Hy. apply Hi; by right.
  - rewrite Forall_forall in *. intros x Hx. apply Hi; [by left|by right|by apply Hf].
Qed.

Lemma concat_bind {A B} (f : A -> list B) l : l ≫= f = concat (f <$> l).
Proof. induction l as [|a l IH]; [done|]. by rewrite bind_cons, IH. Qed.

Lemma filter_everyone {A} (P : A -> Prop) `{!forall x, Decision (P x)} (l : list A) : (forall x, x ∈ l -> P x) -> filter P l = l.
Proof.
  induction l as [|x l IH]; intros HP; [done|]. rewrite filter_cons_True by (apply HP; by left).
  f_equal. apply IH. intros y Hy. apply HP. by right.
Qed.

Section policies.
Context (ps : nat) (eagle : bool) (ps_pos : (0 < ps)%nat) (L : list nat).
Context (time time_queue uninit : nat -> Z) (shuffle : list queued -> list queued)
  (child_values : radix -> nat -> list nat) (check share : Z).
(** A dict's values are the children, in some order; [random.shuffle] permutes. *)
Hypothesis values_perm : forall t n nd, nodes t !! n = Some nd -> child_values t n ≡ₚ (map_to_list (children nd)).*2.
Hypothesis shuffle_perm : forall q, shuffle q ≡ₚ q.
Hypothesis share_pos : 0 < share.
Notation calc_priority := (calc_priority time time_queue uninit shuffle child_values ps eagle check share).
Notation sort_by_dfs_weight := (sort_by_dfs_weight child_values).

(** How many requests of the queue wait at [n] or below. *)
Definition waiting_below (t : radix) (q : list queued) (n : nat) : Z :=
  len (filter (fun r => q_node r ∈ subtree t (path t) n) q).

Lemma total_waiting t q n : total t (path t) (initial_weights q) n = waiting_below t q n.
Proof.
  unfold total, waiting_below.
  assert (He : weight (initial_weights q) <$> subtree t (path t) n = (fun x => len (last_node_to_reqs q x)) <$> subtree t (path t) n)
    by (apply list_fmap_ext; intros i x _; apply initial_weights_spec).
  rewrite He, sum_length. unfold len. f_equal. apply Permutation_length. apply group_perm, NoDup_subtree.
Qed.

Lemma dfs_visits lk t w W fuel : tree_ok ps eagle (path t) lk t -> forall n nd,
  nodes t !! n = Some nd -> deep_enough t (path t) fuel n -> (forall x, x ∈ subtree t (path t) n -> weight w x = W x) ->
  visits t W n (dfs_nodes t child_values fuel w n).
Proof.
  intros Hok. induction fuel as [|fuel IH]; intros n nd Hn Hd HW.
  { specialize (Hd n (self_in ps eagle ps_pos lk t (path t) Hok child_values (values_perm t) n nd Hn)). lia. }
  assert (Hsub : forall c, c ∈ child_values t n -> forall x, x ∈ subtree t (path t) c -> x ∈ subtree t (path t) n).
  { intros c Hc x Hx. rewrite (subtree_split ps eagle ps_pos lk t (path t) Hok child_values (values_perm t) n nd Hn).
    right. apply list_elem_of_bind. by exists c. }
  cbn [dfs_nodes]. rewrite concat_bind. set (cs := sort_by _ _ _).
  assert (Hcs : cs ≡ₚ child_values t n) by apply sort_by_perm.
  assert (Hc : forall c, c ∈ cs -> exists cd, nodes t !! c = Some cd /\ c ∈ child_values t n).
  { intros c Hc. rewrite Hcs in Hc. destruct (child_facts ps eagle lk t (path t) Hok child_values (values_perm t) n nd c Hn Hc)
      as (cd & Hcd & _). by exists cd. }
  apply (visit_node t W n nd cs).
  - done.
  - rewrite Hcs. by apply values_perm.
  - apply (sorted_weaken (fun a b => (- weight w b <? - weight w a) = false)); [|exact (sort_by_order Z.ltb (fun x => - weight w x) (child_values t n))].
    assert (He : forall a, a ∈ cs -> weight w a = W a).
    { intros a Ha. destruct (Hc a Ha) as (ad & Had & Hac). apply HW, (Hsub a Hac).
      by apply (self_in ps eagle ps_pos lk t (path t) Hok child_values (values_perm t) a ad). }
    intros a b Ha Hb. rewrite Z.ltb_ge, !He by done. lia.
  - rewrite Forall2_fmap_r. apply Forall_Forall2_diag. rewrite Forall_forall. intros c Hcin. destruct (Hc c Hcin) as (cd & Hcd & Hcv).
    apply (IH c cd Hcd).
    + by apply (deep_child ps eagle ps_pos lk t (path t) Hok child_values (values_perm t) fuel n nd c).
    + intros x Hx. apply HW. by apply (Hsub c).
Qed.

(** The depth-first order of a queue whose matches point into the tree: the
    requests of the nodes as the walk visits them, and nobody is lost. *)
Lemma dfs_sorted t q :
  radix_ok ps eagle L t -> (forall r, r ∈ q -> is_Some (nodes t !! q_node r)) ->
  exists ns, visits t (waiting_below t q) (root_node t) ns /\
    sort_by_dfs_weight q t = ns ≫= last_node_to_reqs q /\ sort_by_dfs_weight q t ≡ₚ q.
Proof.
  intros Hok Hin. pose proof (proj1 Hok) as Ht. destruct (ok_root _ _ _ _ _ Ht) as (rd & Hr & _).
  pose proof (deep_root ps eagle ps_pos _ t (path t) Ht) as Hd.
  unfold Policy.sort_by_dfs_weight. set (fuel := base.size (nodes t)) in *. set (w := calc_weight _ _ _ _ _).
  exists (dfs_nodes t child_values fuel w (root_node t)).
  rewrite (dfs_order t child_values fuel w (last_node_to_reqs q) (root_node t) []). cbn [app]. split; [|split; [done|]].
  - apply (dfs_visits _ t w _ fuel Ht _ rd Hr Hd). intros x Hx. unfold w.
    rewrite (calc_weight_spec ps eagle ps_pos _ t (path t) Ht child_values (values_perm t) fuel (root_node t) rd _ Hr Hd x).
    rewrite decide_True by done. apply total_waiting.
  - rewrite (dfs_nodes_perm ps eagle ps_pos _ t (path t) Ht child_values (values_perm t) fuel w _ rd Hr Hd).
    unfold last_node_to_reqs. rewrite (group_perm q_node) by apply NoDup_subtree. apply reflexive_eq, filter_everyone.
    intros r Hr'. apply elem_of_subtree. split; [by apply Hin|by left].
Qed.

(** The queue once every request has been looked up. *)
Record lookups (q qm : list queued) (t t' : radix) : Prop := {
  lk_tree : looked_up ps eagle L t t';
  lk_placed : Forall (placed ps eagle t t') qm;
  lk_same : same_requests q qm;
}.

Lemma matches_computed q t wt :
  radix_ok ps eagle L t ->
  exists qm t' wt', compute_prefix_matches time time_queue uninit ps eagle check share q t wt =
      Ok (qm, list_to_set (held_back check share [] qm), t', wt') /\ lookups q qm t t'.
Proof.
  intros Hok. destruct (match_all_spec ps eagle ps_pos L time time_queue uninit check share share_pos t q t _ [] ∅ Hok
    ltac:(done) (queue_reset time_queue (counter wt) (clock wt))) as (qm & t' & wt' & Hrun & Hl & Hp & Hf).
  exists qm, t', wt'. unfold compute_prefix_matches. rewrite Hrun, union_empty_r_L. split; [done|].
  split; [done|done|by apply matched_same].
Qed.

(** The key of the longest-prefix policy. *)
Definition lpm_key (held : list Z) (r : queued) : option Z :=
  if decide (q_rid r ∈ held) then None else Some (- len (q_prefix r)).

Lemma lpm_sorted held q :
  exists q', sort_by_longest_prefix (list_to_set held) q = Ok q' /\ stably_sorted inf_lt (lpm_key held) q q'.
Proof.
  unfold sort_by_longest_prefix. apply (sort_queue_sorted inf_lt). intros r _. unfold lpm_key. f_equal.
  destruct (decide (q_rid r ∈ held)) as [Hr|Hr]; [rewrite bool_decide_true|rewrite bool_decide_false]; by rewrite ?elem_of_list_to_set.
Qed.

(** The priorities the policy reads are there. *)
Definition prioritised (self : schedule_policy) (q : list queued) : Prop :=
  enable_priority_scheduling self = true -> forall r, r ∈ q -> is_Some (creq_priority (q_req r)).

Definition signed (self : schedule_policy) (r : queued) : Z := default 0 (creq_priority (q_req r)) * priority_sign self.

Lemma signed_priority_ok self q r :
  prioritised self q -> enable_priority_scheduling self = true -> r ∈ q -> signed_priority self r = Ok (signed self r).
Proof.
  intros Hp He Hr. destruct (Hp He r Hr) as [p Hpr]. unfold signed_priority, signed. rewrite Hpr. done.
Qed.

Lemma priority_sorted self q (f : queued -> Z) :
  prioritised self q -> enable_priority_scheduling self = true ->
  exists q', sort_queue (pair_lt Z.ltb Z.ltb) (fun r => p ← signed_priority self r; Ok (p, f r)) q = Ok q' /\
    stably_sorted (pair_lt Z.ltb Z.ltb) (fun r => (signed self r, f r)) q q'.
Proof.
  intros Hp He. apply (sort_queue_sorted (pair_lt Z.ltb Z.ltb)). intros r Hr. by rewrite (signed_priority_ok self q r Hp He Hr).
Qed.

(** The order the cache-agnostic policies give the queue. *)
Definition agnostic_order (self : schedule_policy) (running : option (list (option string))) (q q' : list queued) : Prop :=
  match determine_active_policy self q with
  | FCFS => if bool_decide (sp_policy self = FCFS) && enable_priority_scheduling self
      then stably_sorted (pair_lt Z.ltb Z.ltb) (fun r => (signed self r, wait_queue_entry_time r)) q q'
      else q' = q
  | LOF => if enable_priority_scheduling self
      then stably_sorted (pair_lt Z.ltb Z.ltb) (fun r => (signed self r, - max_new_tokens (sampling (info (creq (q_req r)))))) q q'
      else stably_sorted Z.ltb (fun r => - max_new_tokens (sampling (info (creq (q_req r))))) q q'
  | RANDOM => q' = shuffle q
  | ROUTING_KEY =>
      let counted := omap truthy (default [] running) in
      if decide (counted = []) then q' = q else
      let count r := len (filter (fun k => Some k = truthy (routing_key r)) counted) in
      stably_sorted (pair_lt Z.ltb (pair_lt Z.ltb str_lt))
        (fun r => (if 0 <? count r then 0 else 1, (- count r, default ""%string (truthy (routing_key r))))) q q'
  | LPM | DFS_WEIGHT => False
  end.

Lemma routing_sorted running q :
  let counted := omap truthy running in counted <> [] ->
  let count r := len (filter (fun k => Some k = truthy (routing_key r)) counted) in
  exists q', sort_by_routing_key running q = Ok q' /\
    stably_sorted (pair_lt Z.ltb (pair_lt Z.ltb str_lt))
      (fun r => (if 0 <? count r then 0 else 1, (- count r, default ""%string (truthy (routing_key r))))) q q'.
Proof.
  clear ps_pos share_pos. intros counted Hc count. unfold sort_by_routing_key. fold counted. rewrite bool_decide_false by done.
  apply sort_queue_sorted; [apply _|]. intros r _. unfold count. destruct (truthy (routing_key r)) as [k|] eqn:Hk.
  - assert (Hf : filter (fun k0 => Some k0 = Some k) counted = filter (fun k0 => k0 = k) counted)
      by (apply list_filter_iff; naive_solver).
    rewrite Hf. cbn [default]. destruct (decide (k ∈ counted)) as [Hin|Hin].
    + rewrite bool_decide_true by done.
      assert (Hp : 0 < len (filter (fun k0 => k0 = k) counted)).
      { assert (Hkf : k ∈ filter (fun k0 => k0 = k) counted) by (by apply list_elem_of_filter).
        apply list_elem_of_lookup_1 in Hkf as [i Hi%lookup_lt_Some]. unfold len. lia. }
      apply Z.ltb_lt in Hp. by rewrite Hp.
    + rewrite bool_decide_false by done.
      assert (Hn : filter (fun k0 => k0 = k) counted = []) by (apply elem_of_nil_inv; by intros x [-> ?]%list_elem_of_filter).
      by rewrite Hn.
  - rewrite (elem_of_nil_inv (filter _ counted)); [done|]. by intros x [? ?]%list_elem_of_filter.
Qed.

Lemma agnostic_run self running q t wt :
  prioritised self q -> is_cache_aware (determine_active_policy self q) = false ->
  exists q', calc_priority self running q t wt = Ok (false, q', t, wt) /\ agnostic_order self running q q'.
Proof.
  intros Hp Ha. unfold Policy.calc_priority, agnostic_order.
  destruct (decide (sp_policy self = FCFS)) as [Hf|Hf].
  - assert (Hd : determine_active_policy self q = FCFS) by (unfold determine_active_policy; rewrite Hf; done).
    rewrite Hd, (bool_decide_true _ Hf). cbn [andb]. destruct (enable_priority_scheduling self) eqn:He.
    + destruct (priority_sorted self q wait_queue_entry_time Hp He) as (q' & Hq & Hs).
      unfold sort_by_priority_and_fcfs. rewrite Hq. step_ok. by exists q'.
    + step_ok. by exists q.
  - rewrite (bool_decide_false _ Hf), Ha. destruct (determine_active_policy self q) eqn:Hd; try done.
    + step_ok. by exists q.
    + unfold sort_by_longest_output. destruct (enable_priority_scheduling self) eqn:He.
      * destruct (priority_sorted self q (fun r => - max_new_tokens (sampling (info (creq (q_req r))))) Hp He) as (q' & Hq & Hs).
        rewrite Hq. step_ok. by exists q'.
      * edestruct (sort_queue_sorted Z.ltb) as (q' & Hq & Hs); [|by rewrite Hq; eauto]. by cbn.
    + step_ok. by exists (shuffle q).
    + destruct running as [running|]; [|step_ok; exists q; by rewrite decide_True].
      change (default [] (Some running)) with running.
      destruct (decide (omap truthy running = [])) as [Hn|Hn].
      * unfold sort_by_routing_key. rewrite (bool_decide_true _ Hn). step_ok. by exists q.
      * destruct (routing_sorted running q Hn) as (q' & Hq & Hs). rewrite Hq. step_ok. by exists q'.
Qed.

Lemma agnostic_perm self running q q' : agnostic_order self running q q' -> q' ≡ₚ q.
Proof.
  unfold agnostic_order. destruct (determine_active_policy self q); try done.
  - destruct (_ && _); [apply ss_perm|by intros ->].
  - destruct (enable_priority_scheduling self); apply ss_perm.
  - intros ->. apply shuffle_perm.
  - case_decide; [by intros ->|]. apply ss_perm.
Qed.

(** A cache-aware policy: the lookups, then the order. *)
Lemma aware_run self running q t wt :
  radix_ok ps eagle L t -> is_cache_aware (determine_active_policy self q) = true ->
  exists qm q' t' wt', calc_priority self running q t wt = Ok (true, q', t', wt') /\ lookups q qm t t' /\
    if decide (determine_active_policy self q = LPM)
    then stably_sorted inf_lt (lpm_key (held_back check share [] qm)) qm q'
    else exists ns, visits t' (waiting_below t' qm) (root_node t') ns /\ q' = ns ≫= last_node_to_reqs qm /\ q' ≡ₚ qm.
Proof.
  intros Hok Ha. unfold Policy.calc_priority.
  assert (Hf : sp_policy self <> FCFS) by (intros Hf; unfold determine_active_policy in Ha; by rewrite Hf in Ha).
  rewrite (bool_decide_false _ Hf), Ha. destruct (matches_computed q t wt Hok) as (qm & t' & wt' & Hrun & Hl).
  rewrite Hrun. step_ok. case_decide as Hp.
  - rewrite (bool_decide_true _ Hp). destruct (lpm_sorted (held_back check share [] qm) qm) as (q' & Hq & Hs).
    rewrite Hq. step_ok. by exists qm, q', t', wt'.
  - rewrite (bool_decide_false _ Hp). step_ok. exists qm, (sort_by_dfs_weight qm t'), t', wt'. split; [done|]. split; [done|].
    apply dfs_sorted; [apply Hl|]. intros r Hr. pose proof (lk_placed _ _ _ _ Hl) as Hpl. rewrite Forall_forall in Hpl.
    by destruct (Hpl r Hr) as (g & _ & Hn & _).
Qed.

(** Ordering the queue cannot fail and loses nobody: whatever the policy,
    the queue afterwards holds the requests it held, a cache-agnostic policy
    touches neither the requests nor the tree, and a cache-aware one leaves the
    tree with the same meaning and references and every request with its
    longest cached prefix and the node that stands for it. *)
Theorem calc_priority_permutes self running q t wt :
  radix_ok ps eagle L t -> prioritised self q ->
  exists b q' t' wt', calc_priority self running q t wt = Ok (b, q', t', wt') /\ same_requests q q' /\
    b = is_cache_aware (determine_active_policy self q) /\
    if b then looked_up ps eagle L t t' /\ Forall (placed ps eagle t t') q' else q' ≡ₚ q /\ t' = t /\ wt' = wt.
Proof.
  intros Hok Hp. destruct (is_cache_aware (determine_active_policy self q)) eqn:Ha.
  - destruct (aware_run self running q t wt Hok Ha) as (qm & q' & t' & wt' & Hrun & [Hl Hpl Hs] & Ho).
    assert (Hperm : q' ≡ₚ qm) by (case_decide; [apply Ho|by destruct Ho as (? & _ & _ & ?)]).
    exists true, q', t', wt'. split; [done|]. split; [by apply (same_requests_trans q qm), perm_same|]. split; [done|].
    split; [done|]. by rewrite Hperm.
  - destruct (agnostic_run self running q t wt Hp Ha) as (q' & Hrun & Ho%agnostic_perm).
    exists false, q', t, wt. split; [done|]. split; [by apply perm_same|done].
Qed.

(** The longest-prefix policy: the requests in order of the length of their
    longest cached prefix, longest first, with those that share a long prefix
    with an earlier uncached request last, and requests that tie as they
    stood. *)
Theorem lpm_order self running q t wt :
  radix_ok ps eagle L t -> sp_policy self = LPM -> len q <= 128 ->
  exists qm q' t' wt', calc_priority self running q t wt = Ok (true, q', t', wt') /\ lookups q qm t t' /\
    stably_sorted inf_lt (lpm_key (held_back check share [] qm)) qm q'.
Proof.
  intros Hok Hp Hl. assert (Hd : determine_active_policy self q = LPM).
  { unfold determine_active_policy. rewrite (bool_decide_true _ Hp), (proj2 (Z.ltb_ge 128 (len q)) Hl). done. }
  destruct (aware_run self running q t wt Hok ltac:(by rewrite Hd)) as (qm & q' & t' & wt' & Hrun & Hlk & Ho).
  rewrite decide_True in Ho by done. by exists qm, q', t', wt'.
Qed.

(** C31: the depth-first policy: the queue is the requests of the tree's nodes in
    the order of a walk that visits every node after those below it and, of
    two siblings, the one with more requests waiting at or below it first. *)
Theorem dfs_weight_order self running q t wt :
  radix_ok ps eagle L t -> sp_policy self = DFS_WEIGHT ->
  exists qm q' t' wt' ns, calc_priority self running q t wt = Ok (true, q', t', wt') /\ lookups q qm t t' /\
    visits t' (waiting_below t' qm) (root_node t') ns /\ q' = ns ≫= last_node_to_reqs qm /\ q' ≡ₚ qm.
Proof.
  intros Hok Hp. assert (Hd : determine_active_policy self q = DFS_WEIGHT) by (unfold determine_active_policy; by rewrite Hp).
  destruct (aware_run self running q t wt Hok ltac:(by rewrite Hd)) as (qm & q' & t' & wt' & Hrun & Hlk & Ho).
  rewrite Hd in Ho. rewrite decide_False in Ho by done. destruct Ho as (ns & Ho). by exists qm, q', t', wt', ns.
Qed.

(** The cache-agnostic policies: priority, then arrival; priority, then the
    most tokens asked for; the routing keys most frequent in the running batch
    first; a long queue under the longest-prefix policy as it stands. *)
Theorem agnostic_policies_order self running q t wt :
  prioritised self q -> is_cache_aware (determine_active_policy self q) = false ->
  exists q', calc_priority self running q t wt = Ok (false, q', t, wt) /\ agnostic_order self running q q'.
Proof. apply agnostic_run. Qed.
End policies.
