(* ===== verification/SchedulePolicyExamples.v ===== *)
(** * The schedule policies on a concrete queue

    Four requests over the tree of [RadixCacheExamples]: one that follows a
    cached branch to its end, one that leaves it half way, and two uncached
    ones that share their first tokens. *)

From S2P Require Import Prelude Allocator DllmReq RadixKey RadixCache RadixCacheProofs RadixCacheTheorems RadixCacheExamples StableSort SchedulePolicy SchedulePolicyWalk SchedulePolicyProofs.
Import Radix Policy.

Definition demo_queued (id : Z) (ids : list Z) (prio entry : Z) (key : option string) : queued :=
  Queued (CacheReq
    (Req (ReqInfo id ids (SamplingParams id false []) [7] None 100 false (-1) false false)
      (ReqOut [] (LpChannels [] [] None None [] [] [] []) None None None)
      (ReqKV None 0 0 false false 0) (ReqIn [] [] 0 0 0 None 0))
    None (Some prio) 0) entry key.

Definition demo_queue : list queued :=
  [demo_queued 1 [9; 8; 7; 1] 0 3 (Some "a"%string); demo_queued 2 [9; 8; 7; 2] 1 2 None;
   demo_queued 3 [1; 2; 3] 0 1 (Some "b"%string); demo_queued 4 [1; 2; 4; 5] 1 0 (Some "b"%string)].

Definition demo_children (t : radix) (n : nat) : list nat :=
  match nodes t !! n with Some nd => (map_to_list (children nd)).*2 | None => [] end.

Lemma demo_children_perm t n nd : nodes t !! n = Some nd -> demo_children t n ≡ₚ (map_to_list (children nd)).*2.
Proof. intros Hn. unfold demo_children. by rewrite Hn. Qed.

Definition demo_policy (p : policy) (prio low_first : bool) : schedule_policy := SchedulePolicy p prio low_first.

(** Thresholds of 3: a match of at most three slots is short, three shared
    tokens hold a request back. *)
Notation demo_calc self running q := (calc_priority demo_time demo_time (fun _ => 0) (@rev queued) demo_children 1 false 3 3
  self running q demo_tree demo_tree).

Definition demo_order (x : res (bool * list queued * radix * radix)) : option (list Z) :=
  match x with Ok (_, q, _, _) => Some (q_rid <$> q) | Raise _ => None end.

Lemma demo_prioritised self : prioritised self demo_queue.
Proof. intros _ r Hr. unfold demo_queue in Hr. repeat (apply elem_of_cons in Hr as [->|Hr]; [by eexists|]). by apply not_elem_of_nil in Hr. Qed.

Lemma calc_priority_permutes_witness :
  exists q' t' wt', demo_calc (demo_policy DFS_WEIGHT false false) None demo_queue = Ok (true, q', t', wt') /\
    same_requests demo_queue q' /\ Forall (placed 1 false demo_tree t') q'.
Proof.
  destruct (calc_priority_permutes 1 false ltac:(lia) [] demo_time demo_time (fun _ => 0) (@rev queued) demo_children 3 3
    demo_children_perm (fun q => Permutation_sym (Permutation_rev q)) ltac:(lia) (demo_policy DFS_WEIGHT false false) None demo_queue
    demo_tree demo_tree demo_tree_ok (demo_prioritised _)) as (b & q' & t' & wt' & Hrun & Hs & -> & _ & Hp).
  exists q', t', wt'. split; [exact Hrun|]. split; [exact Hs|exact Hp].
Defined.

(** The longest match first, the second uncached request last. *)
Lemma lpm_order_witness :
  exists q' t' wt', demo_calc (demo_policy LPM false false) None demo_queue = Ok (true, q', t', wt') /\ q_rid <$> q' = [4; 3; 1; 2].
Proof.
  destruct (lpm_order 1 false ltac:(lia) [] demo_time demo_time (fun _ => 0) (@rev queued) demo_children 3 3
    demo_children_perm ltac:(lia) (demo_policy LPM false false) None demo_queue demo_tree demo_tree demo_tree_ok eq_refl ltac:(by vm_compute))
    as (qm & q' & t' & wt' & Hrun & _ & _).
  assert (Hc : demo_order (demo_calc (demo_policy LPM false false) None demo_queue) = Some [4; 3; 1; 2]) by (vm_compute; reflexivity).
  rewrite Hrun in Hc. cbn in Hc. injection Hc as Hq. exists q', t', wt'. split; [exact Hrun|exact Hq].
Defined.

Lemma dfs_weight_order_witness :
  exists qm q' t' wt' ns, demo_calc (demo_policy DFS_WEIGHT false false) None demo_queue = Ok (true, q', t', wt') /\
    visits t' (waiting_below t' qm) (root_node t') ns /\ q_rid <$> q' = [3; 4; 1; 2].
Proof.
  destruct (dfs_weight_order 1 false ltac:(lia) [] demo_time demo_time (fun _ => 0) (@rev queued) demo_children 3 3
    demo_children_perm ltac:(lia) (demo_policy DFS_WEIGHT false false) None demo_queue demo_tree demo_tree demo_tree_ok eq_refl)
    as (qm & q' & t' & wt' & ns & Hrun & _ & Hv & _ & _).
  assert (Hc : demo_order (demo_calc (demo_policy DFS_WEIGHT false false) None demo_queue) = Some [3; 4; 1; 2]) by (vm_compute; reflexivity).
  rewrite Hrun in Hc. cbn in Hc. injection Hc as Hq. exists qm, q', t', wt', ns. split; [exact Hrun|]. split; [exact Hv|exact Hq].
Defined.

(** Higher priorities first and, within a priority, who came first. *)
Lemma agnostic_policies_order_witness :
  exists q', demo_calc (demo_policy FCFS true false) None demo_queue = Ok (false, q', demo_tree, demo_tree) /\
    q_rid <$> q' = [4; 2; 3; 1] /\
    agnostic_order (@rev queued) (demo_policy FCFS true false) None demo_queue q'.
Proof.
  destruct (agnostic_policies_order 1 false demo_time demo_time (fun _ => 0) (@rev queued) demo_children 3 3
    (demo_policy FCFS true false) None demo_queue demo_tree demo_tree (demo_prioritised _) eq_refl) as (q' & Hrun & Ho).
  assert (Hc : demo_order (demo_calc (demo_policy FCFS true false) None demo_queue) = Some [4; 2; 3; 1]) by (vm_compute; reflexivity).
  rewrite Hrun in Hc. cbn in Hc. injection Hc as Hq. exists q'. split; [exact Hrun|]. split; [exact Hq|exact Ho].
Defined.
