(* ===== verification/DecodeBatch.v ===== *)
(** * The decode batch of autoregressive models

    ScheduleBatch of managers/schedule_batch.py while it decodes, on the radix
    cache: filtering and merging batches, one slot per request and step,
    retracting requests when memory runs out, and the turn of the event loop
    around a decode forward (Scheduler.update_running_batch of
    managers/scheduler.py, process_batch_result_decode of
    managers/scheduler_output_processor_mixin.py).

    Without speculative decoding, the overlap schedule, disaggregation, sliding
    windows, mamba states, encoders, grammars and penalties; the token ratios,
    which the code keeps in floats, are rationals. *)

From S2P Require Import Prelude Allocator DllmReq MemCommon RadixKey RadixCache StableSort.
From Stdlib Require Import QArith.
Import Radix.
#[local] Open Scope Z_scope.

Module Decode.

(** The fields of a ScheduleBatch a decode step reads; [next_ids] is output_ids,
    what the last forward sampled. *)
Record batch := Batch {
  reqs : list cache_req;
  req_pool_indices : list nat;
  seq_lens : list Z;
  seq_lens_sum : Z;
  input_ids : option (list Z);
  next_ids : option (list Z);
  out_cache_loc : option (list Z);
  any_logprob : bool;
  top_logprobs_nums : option (list Z);
  batch_is_full : bool;
}.

Definition set_reqs (b : batch) (l : list cache_req) : batch :=
  Batch l (req_pool_indices b) (seq_lens b) (seq_lens_sum b) (input_ids b) (next_ids b) (out_cache_loc b)
    (any_logprob b) (top_logprobs_nums b) (batch_is_full b).
Definition set_full (b : batch) (f : bool) : batch :=
  Batch (reqs b) (req_pool_indices b) (seq_lens b) (seq_lens_sum b) (input_ids b) (next_ids b) (out_cache_loc b)
    (any_logprob b) (top_logprobs_nums b) f.
Definition set_next_ids (b : batch) (l : list Z) : batch :=
  Batch (reqs b) (req_pool_indices b) (seq_lens b) (seq_lens_sum b) (input_ids b) (Some l) (out_cache_loc b)
    (any_logprob b) (top_logprobs_nums b) (batch_is_full b).

Definition with_req (q : cache_req) (r : req) : cache_req :=
  CacheReq r (creq_extra_key q) (creq_priority q) (last_node q).

(** ** Filtering and merging *)

(** [[l[i] for i in ks]] *)
Definition pick {A} (l : list A) (ks : list nat) : res (list A) :=
  mapM (fun i => of_option IndexError (l !! i)) ks.

Definition sum (l : list Z) : Z := foldr Z.add 0 l.

Definition q_finished (q : cache_req) : bool := DllmReq.finished (creq q).
Definition q_rid (q : cache_req) : Z := rid (info (creq q)).

(** [keep_indices] when it is not given: who is neither finished nor excluded. *)
Definition kept_indices (exclude : list Z) (b : batch) : list nat :=
  filter (fun i => match reqs b !! i with
                   | Some q => negb (q_finished q) && bool_decide (q_rid q ∉ exclude)
                   | None => false
                   end = true) (seq 0 (length (reqs b))).

Definition filter_batch (exclude : list Z) (keep : option (list nat)) (b : batch) : res batch :=
  let keep_indices := default (kept_indices exclude b) keep in
  if bool_decide (keep_indices = []) then Ok (set_reqs b [])
  else if (length keep_indices =? length (reqs b))%nat then Ok b
  else
    rs ← pick (reqs b) keep_indices;
    idx ← pick (req_pool_indices b) keep_indices;
    lens ← pick (seq_lens b) keep_indices;
    ids ← match next_ids b with
          | Some l => l ← pick l keep_indices; Ok (Some l)
          | None => Ok None
          end;
    let any := existsb (fun q => return_logprob (info (creq q))) rs in
    tops ← (if any then l ← of_option TypeError (top_logprobs_nums b); l ← pick l keep_indices; Ok (Some l)
            else Ok None);
    Ok (Batch rs idx lens (sum lens) (input_ids b) ids None any tops (batch_is_full b)).

Definition merge_batch (b other : batch) : res batch :=
  ids ← match next_ids b with
        | Some l => o ← of_option TypeError (next_ids other); Ok (Some (l ++ o))
        | None => Ok None
        end;
  tops ← match any_logprob b, any_logprob other with
         | true, true =>
             l ← of_option AttributeError (top_logprobs_nums b);
             o ← of_option TypeError (top_logprobs_nums other); Ok (Some (l ++ o))
         | true, false =>
             l ← of_option AttributeError (top_logprobs_nums b);
             Ok (Some (l ++ replicate (length (reqs other)) 0))
         | false, true =>
             o ← of_option TypeError (top_logprobs_nums other);
             Ok (Some (replicate (length (reqs b)) 0 ++ o))
         | false, false => Ok (top_logprobs_nums b)
         end;
  Ok (Batch (reqs b ++ reqs other) (req_pool_indices b ++ req_pool_indices other)
    (seq_lens b ++ seq_lens other) (seq_lens_sum b + seq_lens_sum other) (input_ids b) ids None
    (any_logprob b || any_logprob other) tops (batch_is_full b)).

Section decode.
Context `{!HeapQ} (time : nat -> Z) (strat : strategy) (disable_finished_insert strip_thinking : bool).
Context (page_size : Z) (masked : lanes) (oob : Z -> Z) (empty : Z -> list Z).
(** Answers of the stop strings and the grammar; SGLANG_RETRACT_DECODE_STEPS. *)
Context (str_finish : req -> option finish_reason) (grammar_terminated : req -> bool) (RETRACT_DECODE_STEPS : Z).

(** ** Memory (mem_cache/common.py)

    The allocator is the one of the page size. *)
Definition kv_free : list Z -> allocator -> allocator := if page_size =? 1 then Token.free else Paged.free.
Definition kv_available (a : allocator) : Z := if page_size =? 1 then Token.available_size a else Paged.available_size a.

Definition evict_from_tree_cache (num_tokens : Z) (m : mem radix) : res (mem radix) :=
  if kv_available (kv m) <? num_tokens then
    '(_, t, a) ← Radix.evict kv_free false (Z.to_nat page_size) strat num_tokens (tree m) (kv m);
    Ok (Mem a (rows m) t)
  else Ok m.

Definition alloc_token_slots (num_tokens : Z) (m : mem radix) : res (list Z * mem radix) :=
  m ← evict_from_tree_cache num_tokens m;
  match Token.alloc num_tokens (kv m) with
  | (Some loc, a) => Ok (loc, Mem a (rows m) (tree m))
  | (None, _) => Raise RuntimeError
  end.

Definition alloc_paged_token_slots_decode (seq_lens last_loc : list Z) (m : mem radix) : res (list Z * mem radix) :=
  m ← evict_from_tree_cache (len seq_lens * page_size) m;
  match Paged.alloc_decode masked oob empty seq_lens last_loc (kv m) with
  | (Some loc, a) => Ok (loc, Mem a (rows m) (tree m))
  | (None, _) => Raise RuntimeError
  end.

(** [row[i]] of a torch tensor: negative indices count from the end. *)
Definition row_index (row : list Z) (i : Z) : res nat :=
  let i := if i <? 0 then i + len row else i in
  if (0 <=? i) && (i <? len row) then Ok (Z.to_nat i) else Raise IndexError.

(** [req_to_token[indices, locs] = values], one element per request. *)
Fixpoint write_locs (indices : list nat) (locs values : list Z) (table : list (list Z)) : res (list (list Z)) :=
  match indices, locs, values with
  | i :: indices, l :: locs, v :: values =>
      row ← of_option IndexError (table !! i);
      j ← row_index row l;
      write_locs indices locs values (<[i := <[j := v]> row]> table)
  | _, _, _ => Ok table
  end.

Definition read_locs (indices : list nat) (locs : list Z) (table : list (list Z)) : res (list Z) :=
  mapM (fun '(i, l) =>
      row ← of_option IndexError (table !! i);
      j ← row_index row l;
      Ok (row !!! j)) (zip indices locs).

Definition alloc_for_decode (token_per_req : Z) (b : batch) (m : mem radix) : res (list Z * mem radix) :=
  let bs := len (seq_lens b) in
  '(loc, m) ←
    (if page_size =? 1 then alloc_token_slots (bs * token_per_req) m
     else
       last_loc ← read_locs (req_pool_indices b) ((fun n => n - 1) <$> seq_lens b) (req_to_token (rows m));
       alloc_paged_token_slots_decode ((fun n => n + token_per_req) <$> seq_lens b) last_loc m);
  table ← write_locs (req_pool_indices b) (seq_lens b) loc (req_to_token (rows m));
  Ok (loc, Mem (kv m) (set_table (rows m) table) (tree m)).

(** release_kv_cache for a request that holds a lock in the tree; no
    speculative algorithm is configured. *)
Definition release_kv_cache (is_insert : bool) (q : cache_req) (m : mem radix) : res (cache_req * mem radix) :=
  match req_pool_idx (kvs (creq q)) with
  | None => Raise AssertionError
  | Some i =>
      row ← of_option IndexError (req_to_token (rows m) !! i);
      '(q, t, a) ← Radix.cache_finished_req time kv_free false (Z.to_nat page_size) false disable_finished_insert
                     is_insert strip_thinking row q (tree m) (kv m);
      '(start_p, end_p, r) ← pop_overallocated_kv_cache strip_thinking (creq q);
      _ ← py_assert (strip_thinking || (start_p =? end_p));
      let start_p := if 1 <? page_size then ceil_align start_p page_size else start_p in
      let a := if start_p <? end_p then kv_free (slice row start_p end_p) a else a in
      '(r, p) ← pool_free r (rows m);
      Ok (with_req q r, Mem a p t)
  end.

(** ** Running out of memory *)

Definition new_tokens_required_next_decode (selected : list nat) (b : batch) : res Z :=
  rs ← pick (reqs b) selected;
  Ok (len (filter (fun q => kv_committed_len (kvs (creq q)) mod page_size = 0) rs) * page_size).

Definition check_decode_mem (selected : list nat) (b : batch) (m : mem radix) : res (bool * mem radix) :=
  num_tokens ← new_tokens_required_next_decode selected b;
  m ← evict_from_tree_cache num_tokens m;
  Ok (num_tokens <=? kv_available (kv m), m).

(** reset_for_retract; [last_node] is None in the code until the next lookup
    sets it, and the root here. *)
Definition reset_req (q : cache_req) : cache_req :=
  CacheReq (reset_for_retract (creq q)) (creq_extra_key q) (creq_priority q) 0.

(** release_req; the request afterwards. *)
Definition release_req (idx : nat) (remaining : Z) (b : batch) (m : mem radix) : res (cache_req * mem radix) :=
  q ← of_option IndexError (reqs b !! idx);
  '(q, m) ← release_kv_cache false q m;
  m ← evict_from_tree_cache (remaining * RETRACT_DECODE_STEPS) m;
  Ok (reset_req q, m).

(** The order in which requests are kept: most output first, then the shortest
    prompt. *)
Definition retract_key (q : cache_req) : Z * Z :=
  (len (output_ids (out (creq q))), - len (origin_input_ids (info (creq q)))).

Definition key_gt (a b : Z * Z) : bool := pair_lt Z.ltb Z.ltb b a.

(** [sort(reverse=True)] keeps the order of equal keys too. *)
Definition sorted_indices (b : batch) : list nat :=
  sort_by key_gt (fun i => match reqs b !! i with Some q => retract_key q | None => (0, 0) end)
    (seq 0 (length (reqs b))).

(** The while loop; [stack] is sorted_indices from its end. *)
Fixpoint retract_loop (first_iter : bool) (stack : list nat) (retracted : list cache_req) (b : batch) (m : mem radix)
    : res (list nat * list cache_req * mem radix) :=
  '(enough, m) ← (if first_iter then Ok (false, m) else check_decode_mem (rev stack) b m);
  if enough : bool then Ok (stack, retracted, m) else
  match stack with
  | [] => Raise IndexError
  | [idx] => Ok ([idx], retracted, m)
  | idx :: stack =>
      '(r, m) ← release_req idx (Z.of_nat (length stack)) b m;
      retract_loop false stack (retracted ++ [r]) b m
  end.

Definition abort_req (q : cache_req) : cache_req :=
  let o := out (creq q) in
  with_req q (set_out (creq q) (ReqOut (output_ids o) (channels o) (finished_reason o) (finished_len o) (Some FINISH_ABORT))).

(** [(decoded + STEPS * n) / (max_new + 1)], at most one. *)
Definition new_estimate_ratio (qs : list cache_req) : Q :=
  let decoded := sum ((fun q => len (output_ids (out (creq q)))) <$> qs) in
  let max_new := sum ((fun q => max_new_tokens (sampling (info (creq q)))) <$> qs) in
  let ratio := (inject_Z (decoded + RETRACT_DECODE_STEPS * len qs) / inject_Z (max_new + 1))%Q in
  if Qle_bool 1 ratio then 1%Q else ratio.

(** The batch, the memory, the retracted requests, the ratio and the aborted. *)
Definition retract_decode (b : batch) (m : mem radix) : res (batch * mem radix * list cache_req * Q * list cache_req) :=
  '(stack, retracted, m) ← retract_loop true (rev (sorted_indices b)) [] b m;
  '(stack, aborted, m) ←
    (if (length stack <=? 1)%nat then
       '(enough, m) ← check_decode_mem (rev stack) b m;
       if enough : bool then Ok (stack, [], m) else
       match stack with
       | [] => Raise IndexError
       | idx :: stack =>
           '(r, m) ← release_req idx 0 b m;
           Ok (stack, [abort_req r], m)
       end
     else Ok (stack, [], m));
  b ← filter_batch [] (Some (rev stack)) b;
  Ok (b, m, retracted, new_estimate_ratio (reqs b), aborted).

Fixpoint retract_all_loop (idxs : list nat) (b : batch) (m : mem radix) : res (list cache_req * mem radix) :=
  match idxs with
  | [] => Ok ([], m)
  | idx :: idxs =>
      '(r, m) ← release_req idx (Z.of_nat (length (reqs b)) - Z.of_nat idx) b m;
      '(rs, m) ← retract_all_loop idxs b m;
      Ok (r :: rs, m)
  end.

Definition retract_all (b : batch) (m : mem radix) : res (list cache_req * batch * mem radix) :=
  '(rs, m) ← retract_all_loop (seq 0 (length (reqs b))) b m;
  b ← filter_batch (q_rid <$> reqs b) None b;
  Ok (rs, b, m).

(** ** A decode step *)

Definition advance (q : cache_req) : cache_req :=
  with_req q (set_kv_lens (creq q) (kv_committed_len (kvs (creq q)) + 1) (kv_allocated_len (kvs (creq q)) + 1)).

Definition prepare_for_decode (b : batch) (m : mem radix) : res (batch * mem radix) :=
  '(loc, m) ← alloc_for_decode 1 b m;
  Ok (Batch (advance <$> reqs b) (req_pool_indices b) (Z.succ <$> seq_lens b)
        (seq_lens_sum b + Z.of_nat (length (reqs b))) (next_ids b) None (Some loc) (any_logprob b)
        (top_logprobs_nums b) (batch_is_full b), m).

(** The part of the scheduler a decode turn changes. *)
Record ar_sched := ArSched {
  running : batch;
  waiting : list cache_req;
  new_token_ratio : Q;
  armem : mem radix;
}.

Context (new_token_ratio_decay min_new_token_ratio : Q).

Definition Qmax2 (a b : Q) : Q := if Qle_bool a b then b else a.

(** update_running_batch, without test retractions; a retracted request is
    appended to the waiting queue. *)
Definition update_running_batch (s : ar_sched) : res ar_sched :=
  let initial_bs := length (reqs (running s)) in
  b ← filter_batch [] None (running s);
  if bool_decide (reqs b = []) then Ok (ArSched (set_full b false) (waiting s) (new_token_ratio s) (armem s)) else
  '(enough, m) ← check_decode_mem (seq 0 (length (reqs b))) b (armem s);
  '(b, m, retracted, ratio) ←
    (if enough : bool
     then Ok (b, m, [], Qmax2 (new_token_ratio s - new_token_ratio_decay) min_new_token_ratio)
     else '(b, m, retracted, ratio, _) ← retract_decode b m; Ok (b, m, retracted, ratio));
  let b := if (length (reqs b) <? initial_bs)%nat then set_full b false else b in
  if bool_decide (reqs b = []) then Ok (ArSched b (waiting s ++ retracted) ratio m) else
  '(b, m) ← prepare_for_decode b m;
  Ok (ArSched b (waiting s ++ retracted) ratio m).

(** ** The result of a decode forward *)

(** Per request: the token and, for requests that ask, its logprobs. *)
Record decode_result := DecodeResult {
  dr_token : Z;
  dr_logprob : Z;
  dr_top : list Z * list Z;
  dr_token_ids : list Z * list Z;
}.

Definition append_token (t : Z) (r : req) : req :=
  let o := out r in
  set_out r (ReqOut (output_ids o ++ [t]) (channels o) (finished_reason o) (finished_len o) (to_finish o)).

Definition append_logprobs (d : decode_result) (r : req) : req :=
  if negb (return_logprob (info r)) then r else
  let o := out r in
  let c := channels o in
  let top := wants_top_logprobs (info r) in
  let ids := wants_token_ids_logprob (info r) in
  set_out r (ReqOut (output_ids o)
    (LpChannels (output_token_logprobs_val c ++ [dr_logprob d]) (output_token_logprobs_idx c ++ [dr_token d])
      (output_token_reveal_steps c) (output_token_entropy_val c)
      (output_top_logprobs_val c ++ (if top then [fst (dr_top d)] else []))
      (output_top_logprobs_idx c ++ (if top then [snd (dr_top d)] else []))
      (output_token_ids_logprobs_val c ++ (if ids then [fst (dr_token_ids d)] else []))
      (output_token_ids_logprobs_idx c ++ (if ids then [snd (dr_token_ids d)] else [])))
    (finished_reason o) (finished_len o) (to_finish o)).

Definition process_one (d : decode_result) (q : cache_req) (m : mem radix) : res (cache_req * mem radix) :=
  let q := with_req q (check_finished str_finish grammar_terminated 1 (append_token (dr_token d) (creq q))) in
  '(q, m) ← (if q_finished q then release_kv_cache true q m else Ok (q, m));
  Ok (with_req q (append_logprobs d (creq q)), m).

Fixpoint process_all (ds : list decode_result) (qs : list cache_req) (m : mem radix) : res (list cache_req * mem radix) :=
  match qs with
  | [] => Ok ([], m)
  | q :: qs =>
      match ds with
      | [] => Raise IndexError
      | d :: ds =>
          '(q, m) ← process_one d q m;
          '(qs, m) ← process_all ds qs m;
          Ok (q :: qs, m)
      end
  end.

(** process_batch_result_decode: frees are grouped. *)
Definition process_batch_result_decode (ds : list decode_result) (b : batch) (m : mem radix) : res (batch * mem radix) :=
  '(qs, m) ← process_all ds (reqs b) (Mem (free_group_begin (kv m)) (rows m) (tree m));
  let group_end := if page_size =? 1 then Token.free_group_end else Paged.free_group_end in
  Ok (set_reqs b qs, Mem (group_end (kv m)) (rows m) (tree m)).

(** One turn: the batch is updated and, when it is not empty, a forward samples
    [sample b], which run_batch records on the batch, and the result is
    processed. *)
Definition decode_turn (sample : batch -> list decode_result) (s : ar_sched) : res ar_sched :=
  s ← update_running_batch s;
  if bool_decide (reqs (running s) = []) then Ok s else
  let ds := sample (running s) in
  '(b, m) ← process_batch_result_decode ds (set_next_ids (running s) (dr_token <$> ds)) (armem s);
  Ok (ArSched b (waiting s) (new_token_ratio s) m).
End decode.

End Decode.
