(* ===== verification/DecodeMemory.v ===== *)
(** * The memory of a decode batch

    Who owns which slot while autoregressive requests decode on the radix cache
    with page size one: a slot is free, cached, recorded for one request beyond
    the prefix it shares, or held by somebody else; each request holds a lock on
    the node of its prefix.  Evictions, releases and the allocation of a step
    preserve this. *)

From S2P Require Import Prelude Allocator DllmReq MemCommon RadixKey RadixCache RadixCacheProofs RadixCacheTheorems RadixCacheRequests RadixPrefixCache StableSort DecodeBatch.
Import Radix Decode.

(** ** What a request holds *)

Definition commit (q : cache_req) : nat := Z.to_nat (kv_committed_len (kvs (creq q))).
Definition shield (q : cache_req) : nat := Z.to_nat (cache_protected_len (kvs (creq q))).
Definition row_no (q : cache_req) : nat := pool_idx (creq q).
Definition all_ids (q : cache_req) : list Z := origin_input_ids (info (creq q)) ++ output_ids (out (creq q)).
Definition toks_of (q : cache_req) : list Z := slice_to (all_ids q) (kv_committed_len (kvs (creq q))).
Definition row_of (table : list (list Z)) (q : cache_req) : list Z := table !!! row_no q.

(** The slots recorded for it beyond the cached prefix it shares. *)
Definition own (table : list (list Z)) (q : cache_req) : list Z :=
  drop (shield q) (take (commit q) (row_of table q)).

Record live (table : list (list Z)) (t : radix) (q : cache_req) : Prop := {
  lv_idx : req_pool_idx (kvs (creq q)) = Some (row_no q);
  lv_row : table !! row_no q = Some (row_of table q);
  lv_attached : attached 1 false t q (toks_of q) (row_of table q);
  lv_alloc : kv_allocated_len (kvs (creq q)) = kv_committed_len (kvs (creq q));
  lv_commit : 0 <= kv_committed_len (kvs (creq q)) <= seqlen (creq q);
  lv_flags : kv_committed_freed (kvs (creq q)) = false /\ kv_overallocated_freed (kvs (creq q)) = false;
}.

Lemma toks_take table t q : live table t q -> toks_of q = take (commit q) (all_ids q).
Proof. intros Hl. unfold toks_of. rewrite slice_to_take by apply Hl. done. Qed.

Lemma length_toks table t q : live table t q -> length (toks_of q) = commit q.
Proof.
  intros Hl. pose proof (lv_commit _ _ _ Hl) as Hc. rewrite (toks_take _ _ _ Hl), length_take. unfold all_ids.
  rewrite length_app. unfold seqlen, len, commit in *. lia.
Qed.

(** The units of a key with page size one are its tokens. *)
Lemma plain_key e toks : req_key 1 false e toks = RadixKey toks e false.
Proof. done. Qed.

Lemma plain_units e toks : key_iter (RadixKey toks e false) = (fun t => [t]) <$> toks.
Proof. done. Qed.

Lemma shield_prefix table t q : live table t q -> shield q = length (prefix_at t (last_node q)) /\ (shield q <= commit q)%nat.
Proof.
  intros Hl. pose proof (lv_attached _ _ _ Hl) as [_ Hp Hu _ _]. assert (Hs : shield q = length (prefix_at t (last_node q))).
  { unfold shield. rewrite Hp. unfold len. lia. }
  split; [done|]. rewrite plain_key, plain_units in Hu. apply prefix_length in Hu.
  rewrite !length_fmap, (length_toks _ _ _ Hl) in Hu. lia.
Qed.

(** A reference that keeps its meaning keeps the request live. *)
Lemma live_kept table t t' q : ref_kept t t' (last_node q) -> live table t q -> live table t' q.
Proof.
  intros [Hp Hs] [Hi Hr [Ha1 Ha2 Ha3 Ha4 Ha5] Hal Hc Hf]. split; try done. split; rewrite ?Hp; try done. by apply Hs.
Qed.

Lemma radix_ok_perm L L' t : L ≡ₚ L' -> radix_ok 1 false L t -> radix_ok 1 false L' t.
Proof.
  intros Hp [Hok Hin]. split.
  - apply (tree_ok_lk 1 false _ _ _ _ Hok). intros n. unfold locks_on. by rewrite Hp.
  - intros h Hh. apply Hin. by rewrite Hp.
Qed.

Section memory.
Context `{!HeapQ} (time : nat -> Z) (strat : strategy) (dfi : bool) (masked : lanes) (oob : Z -> Z) (empty : Z -> list Z).
(** What the rest of the server holds: slots, rows and locks. *)
Context (slots others : list Z) (other_rows other_locks : list nat).

Record decode_ok (m : mem radix) (qs : list cache_req) : Prop := {
  d_slots : Token.pool (kv m) ++ tree_slots (tree m) ++ (qs ≫= own (req_to_token (rows m))) ++ others ≡ₚ slots;
  d_rows : free_slots (rows m) ++ (row_no <$> qs) ++ other_rows ≡ₚ seq 0 (pool_size (rows m));
  d_len : length (req_to_token (rows m)) = pool_size (rows m);
  d_width i row : req_to_token (rows m) !! i = Some row -> length row = max_context_len (rows m);
  d_wf : Token.wf (kv m);
  d_tree : radix_ok 1 false ((last_node <$> qs) ++ other_locks) (tree m);
  d_live : Forall (live (req_to_token (rows m)) (tree m)) qs;
}.

#[global] Instance decode_ok_proper m : Proper ((≡ₚ) ==> iff) (decode_ok m).
Proof.
  assert (Hmove : forall qs qs', qs ≡ₚ qs' -> decode_ok m qs -> decode_ok m qs').
  { intros qs qs' Hp [Hs Hr Hl Hw Hwf Ht Hv]. split; try done.
    - by rewrite <- Hp.
    - by rewrite <- Hp.
    - eapply radix_ok_perm; [|exact Ht]. by rewrite Hp.
    - by rewrite <- Hp. }
  intros qs qs' Hp. split; apply Hmove; [done|by symmetry].
Qed.

(** The size of the request table. *)
Definition dims (p : req_pool) : nat * nat := (max_context_len p, pool_size p).

(** ** Evictions *)

(** What can be had. *)
Definition room (m : mem radix) : Z := len (Token.pool (kv m)) + evictable_size_ (tree m).

(** Growing the pool never takes a slot from it. *)
Record frame_ok (m m' : mem radix) : Prop := {
  f_rows : rows m' = rows m;
  f_group : is_not_in_free_group (kv m') = is_not_in_free_group (kv m);
  f_more : len (Token.pool (kv m)) <= len (Token.pool (kv m'));
}.

Lemma frame_refl m : frame_ok m m.
Proof. split; [done|done|lia]. Qed.

(** An eviction gives the slots asked for when the tree has them, and keeps the
    locked prefixes. *)
Lemma evict_full n m qs :
  decode_ok m qs -> exists m', evict_from_tree_cache strat 1 n m = Ok m' /\ decode_ok m' qs /\ frame_ok m m' /\
    (forall h, h ∈ other_locks -> ref_kept (tree m) (tree m') h) /\
    (is_not_in_free_group (kv m) = true -> n <= room m -> n <= len (Token.pool (kv m'))).
Proof.
  intros Hd. unfold evict_from_tree_cache. destruct (Z.ltb_spec (kv_available 1 (kv m)) n) as [_|Hge].
  2:{ exists m. split; [done|]. split; [done|]. split; [apply frame_refl|]. split; [done|]. intros Hg _.
      unfold kv_available in Hge. change (1 =? 1) with true in Hge. cbn match in Hge. by rewrite Token.available_pool in Hge. }
  destruct (evict_run 1 false ltac:(lia) Token.free strat _ (tree m) n (kv m) (d_tree _ _ Hd)) as (freed & t' & Hrun & He).
  change (kv_free 1) with Token.free. change (Z.to_nat 1) with 1%nat. rewrite Hrun. step_ok.
  destruct (free_all freed (kv m)) as (Hp & Hg & Hw). eexists. split; [reflexivity|].
  assert (Hlen : len (Token.pool (foldl (fun a v => Token.free v a) (kv m) freed)) = len (concat freed) + len (Token.pool (kv m))).
  { unfold len. rewrite Hp, length_app. lia. }
  split; [|split; [split; cbn [kv rows tree]; [done|done|pose proof (len_nonneg (concat freed)); lia]|split]].
  - destruct Hd as [Hs Hr Hl Hwd Hwf Ht Hv]. split; cbn [kv rows tree]; try done.
    + rewrite Hp, <- Hs, (ev_slots _ _ _ _ _ _ _ _ He). solve_Permutation.
    + by apply Hw.
    + apply He.
    + rewrite Forall_forall in *. intros q Hq. apply (live_kept _ (tree m)); [|by apply Hv].
      apply (ev_kept _ _ _ _ _ _ _ _ He). apply elem_of_app. left. by apply list_elem_of_fmap_2.
  - intros h Hh. apply (ev_kept _ _ _ _ _ _ _ _ He). apply elem_of_app. by right.
  - intros _ Hn. unfold room in Hn. cbn [kv]. rewrite Hlen. pose proof (ev_enough _ _ _ _ _ _ _ _ He). pose proof (len_nonneg (Token.pool (kv m))). lia.
Qed.

Lemma evict_ok n m qs :
  decode_ok m qs -> exists m', evict_from_tree_cache strat 1 n m = Ok m' /\ decode_ok m' qs /\ frame_ok m m'.
Proof. intros Hd. destruct (evict_full n m qs Hd) as (m' & H1 & H2 & H3 & _). by exists m'. Qed.

(** ** Releasing a request *)

Definition released (q : cache_req) : cache_req :=
  let k := kvs (creq q) in
  with_req q (set_kvs (creq q) (ReqKV None (kv_committed_len k) (kv_allocated_len k) true true (cache_protected_len k))).

(** The pool and the tree take what the request owned. *)
Lemma release_ok is_insert m q qs :
  decode_ok m (q :: qs) ->
  exists m', release_kv_cache time dfi false 1 is_insert q m = Ok (released q, m') /\ decode_ok m' qs /\
    is_not_in_free_group (kv m') = is_not_in_free_group (kv m) /\
    dims (rows m') = dims (rows m) /\
    req_to_token (rows m') = req_to_token (rows m) /\
    (is_insert = false -> Token.pool (kv m') ≡ₚ own (req_to_token (rows m)) q ++ Token.pool (kv m)).
Proof.
  intros [Hs Hr Hl Hwd Hwf Ht Hv]. apply Forall_cons in Hv as [Hq Hv].
  pose proof (length_toks _ _ _ Hq) as Hlt. destruct Hq as [Hi Hrow Hat Hal Hc [Hcf Hof]].
  destruct (finished_run 1 false ltac:(lia) time Token.free dfi is_insert false (row_of (req_to_token (rows m)) q) q (tree m) (kv m)
    _ ((last_node <$> qs) ++ other_locks) Ht ltac:(done) Hcf Hat) as (t' & dups & tl & Hrun & [Hok Hsl _ Hsame Hk]).
  change (slice_to _ _) with (toks_of q) in Hsl. rewrite Hlt in Hsl. fold (shield q) (own (req_to_token (rows m)) q) in Hsl.
  unfold release_kv_cache. rewrite Hi, Hrow. cbn [of_option]. step_ok. change (kv_free 1) with Token.free.
  change (Z.to_nat 1) with 1%nat. rewrite Hrun. step_ok. unfold pop_overallocated_kv_cache, popped. cbn [creq kvs set_kvs kv_overallocated_freed].
  rewrite Hof. cbn [negb py_assert]. do 2 step_ok. unfold cache_commit_len. cbn [kvs set_kvs kv_committed_len kv_allocated_len].
  rewrite Hal, Z.eqb_refl, Z.ltb_irrefl. cbn [orb py_assert]. step_ok. unfold pool_free. cbn [kvs set_kvs req_pool_idx]. rewrite Hi. step_ok.
  eexists. split; [unfold released; rewrite <- Hal; reflexivity|]. cbn [kv rows tree].
  assert (Hpool : Token.pool (Token.free tl (Token.free dups (kv m))) ≡ₚ tl ++ dups ++ Token.pool (kv m)) by (by rewrite !Token.free_pool).
  split; [|split; [by rewrite !Token.free_group_flag|split; [done|split; [done|]]]].
  - split; cbn [kv rows tree set_free_slots free_slots req_to_token pool_size max_context_len]; try done.
    + rewrite Hpool, <- Hs, bind_cons.
      transitivity ((tree_slots t' ++ dups ++ tl) ++ Token.pool (kv m) ++ (qs ≫= own (req_to_token (rows m))) ++ others); [solve_Permutation|].
      rewrite Hsl. solve_Permutation.
    + rewrite <- Hr, fmap_cons. cbn [app]. solve_Permutation.
    + by do 2 apply Token.free_wf.
    + rewrite Forall_forall in *. intros q' Hq'. apply (live_kept _ (tree m)); [|by apply Hv].
      apply Hk, elem_of_app. left. by apply list_elem_of_fmap_2.
  - intros ->. rewrite Hpool. specialize (Hsame eq_refl). rewrite Hsame in Hsl. apply Permutation_app_inv_l in Hsl.
    rewrite <- Hsl. solve_Permutation.
Qed.

(** ** One more slot per request *)

Lemma row_index_ok row l : 0 <= l < len row -> row_index row l = Ok (Z.to_nat l).
Proof.
  intros Hl. unfold row_index. rewrite (proj2 (Z.ltb_ge l 0)) by lia. rewrite (proj2 (Z.leb_le 0 l)), (proj2 (Z.ltb_lt l (len row))) by lia.
  done.
Qed.

(** The table after the writes: one entry per row of the batch. *)
Lemma write_spec qs : forall loc table,
  length loc = length qs -> NoDup (row_no <$> qs) ->
  (forall q, q ∈ qs -> exists row, table !! row_no q = Some row /\ 0 <= kv_committed_len (kvs (creq q)) < len row) ->
  exists table', write_locs (row_no <$> qs) ((fun q => kv_committed_len (kvs (creq q))) <$> qs) loc table = Ok table' /\
    (forall k q v, qs !! k = Some q -> loc !! k = Some v -> table' !! row_no q = (fun row => <[commit q := v]> row) <$> table !! row_no q) /\
    (forall j, j ∉ row_no <$> qs -> table' !! j = table !! j) /\ length table' = length table.
Proof.
  induction qs as [|q qs IH]; intros loc table Hl Hnd Hrow.
  { exists table. cbn. split; [done|]. split; [done|]. done. }
  destruct loc as [|v loc]; [done|]. rewrite !fmap_cons in *. apply NoDup_cons in Hnd as [Hq Hnd].
  destruct (Hrow q ltac:(by left)) as (row & Hr & Hc). cbn [write_locs]. rewrite Hr. cbn [of_option]. step_ok.
  rewrite row_index_ok by done. step_ok. fold (commit q).
  assert (Hlt : (row_no q < length table)%nat) by (by eapply lookup_lt_Some).
  destruct (IH loc (<[row_no q := <[commit q := v]> row]> table)) as (table' & Hrun & Hin & Hout & Hlen).
  - cbn in Hl. lia.
  - done.
  - intros q' Hq'. destruct (Hrow q' ltac:(by right)) as (row' & Hr' & Hc'). exists row'. split; [|done].
    rewrite list_lookup_insert_ne; [done|]. intros He. apply Hq. rewrite He. by apply list_elem_of_fmap_2.
  - exists table'. rewrite Hrun. split; [done|]. split; [|split; [|by rewrite Hlen, length_insert]].
    + intros [|k] q' v' Hq' Hv'; cbn in Hq', Hv'.
      * injection Hq' as <-. injection Hv' as <-. rewrite Hout by done. rewrite list_lookup_insert_eq, Hr by done. done.
      * rewrite (Hin k q' v' Hq' Hv'). f_equal. apply list_lookup_insert_ne. intros He. apply Hq. rewrite He.
        apply list_elem_of_fmap_2. by eapply list_elem_of_lookup_2.
    + intros j [Hj1 Hj2]%not_elem_of_cons. rewrite Hout by done. by apply list_lookup_insert_ne.
Qed.

Lemma row_no_NoDup m qs : decode_ok m qs -> NoDup (row_no <$> qs).
Proof.
  intros Hd. pose proof (NoDup_seq 0 (pool_size (rows m))) as Hnd. rewrite <- (d_rows _ _ Hd) in Hnd.
  apply NoDup_app in Hnd as (_ & _ & Hnd). by apply NoDup_app in Hnd as [Hnd _].
Qed.

Lemma plain_prefix g e toks toks' : g `prefix_of` key_iter (req_key 1 false e toks) -> toks `prefix_of` toks' ->
  g `prefix_of` key_iter (req_key 1 false e toks').
Proof.
  rewrite !plain_key, !plain_units. intros Hg [r ->]. etransitivity; [exact Hg|]. rewrite fmap_app. by apply prefix_app_r.
Qed.

(** The request after the step, in a table whose row got its slot. *)
Lemma advance_live table table' t q v :
  live table t q -> kv_committed_len (kvs (creq q)) < seqlen (creq q) -> (commit q < length (row_of table q))%nat ->
  table' !! row_no q = Some (<[commit q := v]> (row_of table q)) ->
  live table' t (advance q) /\ own table' (advance q) = own table q ++ [v].
Proof.
  intros Hl Hlt Hw Ht. pose proof (shield_prefix _ _ _ Hl) as [Hsh Hsc]. pose proof (toks_take _ _ _ Hl) as Htk.
  destruct Hl as [Hi Hrow [Ha1 Ha2 Ha3 Ha4 Ha5] Hal Hc Hf].
  assert (Hr' : row_of table' (advance q) = <[commit q := v]> (row_of table q)) by (by apply list_lookup_total_correct).
  assert (Hcm : commit (advance q) = S (commit q)) by (unfold commit, advance; cbn; lia).
  assert (Htk' : toks_of (advance q) = take (S (commit q)) (all_ids q)).
  { unfold toks_of. rewrite slice_to_take by (cbn; lia). fold (commit (advance q)). by rewrite Hcm. }
  assert (Hset : take (S (commit q)) (<[commit q := v]> (row_of table q)) = take (commit q) (row_of table q) ++ [v]).
  { rewrite (take_S_r _ _ v) by (by apply list_lookup_insert_eq). by rewrite take_insert_ge by lia. }
  split.
  - split; try done.
    + by rewrite Hr'.
    + split; cbn [advance with_req last_node creq_extra_key creq]; try done.
      * apply (plain_prefix _ _ (toks_of q)); [done|]. rewrite Htk, Htk'.
        assert (He : take (commit q) (all_ids q) = take (commit q) (take (S (commit q)) (all_ids q))) by (rewrite take_take; f_equal; lia).
        rewrite He. apply prefix_take.
      * rewrite Hr'. destruct Ha4 as [rest Hrest]. exists (drop (shield q) (<[commit q := v]> (row_of table q))).
        rewrite <- (take_drop (shield q) (<[commit q := v]> _)) at 1. f_equal. rewrite take_insert_ge by lia. rewrite Hrest.
        apply take_app_length'. by rewrite length_fmap.
      * rewrite Hr', Htk', length_take, length_insert. lia.
    + cbn. by rewrite Hal.
    + cbn. unfold seqlen in *. cbn. lia.
  - unfold own. rewrite Hr', Hcm, Hset. change (shield (advance q)) with (shield q). apply drop_app_le. rewrite length_take. lia.
Qed.

(** The pool gives one slot per request, and each request owns one more. *)
Lemma alloc_ok b m qs :
  decode_ok m qs -> req_pool_indices b = row_no <$> qs -> seq_lens b = (fun q => kv_committed_len (kvs (creq q))) <$> qs ->
  is_not_in_free_group (kv m) = true -> len qs <= len (Token.pool (kv m)) ->
  Forall (fun q => kv_committed_len (kvs (creq q)) < seqlen (creq q) /\
                   kv_committed_len (kvs (creq q)) < Z.of_nat (max_context_len (rows m))) qs ->
  exists loc m', alloc_for_decode strat 1 masked oob empty 1 b m = Ok (loc, m') /\ length loc = length qs /\
    decode_ok m' (advance <$> qs) /\
    is_not_in_free_group (kv m') = true /\ dims (rows m') = dims (rows m) /\
    Token.pool (kv m) ≡ₚ loc ++ Token.pool (kv m') /\
    (forall k q v, qs !! k = Some q -> loc !! k = Some v ->
       row_of (req_to_token (rows m')) q = <[commit q := v]> (row_of (req_to_token (rows m)) q)).
Proof.
  intros Hd Hidx Hlens Hg Hroom Hgrow. pose proof (row_no_NoDup _ _ Hd) as Hnd.
  destruct Hd as [Hs Hr Hl Hwd Hwf Ht Hv]. rewrite Forall_forall in Hgrow, Hv.
  assert (Hbs : len (seq_lens b) * 1 = len qs) by (rewrite Hlens; unfold len; rewrite length_fmap; lia).
  unfold alloc_for_decode. rewrite Hbs. change (1 =? 1) with true. cbn match. unfold alloc_token_slots, evict_from_tree_cache, kv_available.
  change (1 =? 1) with true. cbn match. rewrite (proj2 (Z.ltb_ge _ _)) by (by rewrite Token.available_pool). step_ok.
  destruct (Token.alloc (len qs) (kv m)) as [o a] eqn:Ha. destruct o as [loc|].
  2:{ pose proof (Token.alloc_none_iff (len qs) (kv m) Hwf) as [Hn _]. rewrite Ha in Hn. specialize (Hn eq_refl).
      rewrite Token.available_pool in Hn by done. lia. }
  pose proof (Token.alloc_wf _ _ _ _ Hwf Ha) as Hwf'. destruct (Token.alloc_spec _ _ _ _ Ha) as [[Hp Hlen] [_ Hg']].
  specialize (Hlen (len_nonneg qs)). assert (Hll : length loc = length qs) by (unfold len in Hlen; lia).
  assert (Hwidth : forall q, q ∈ qs -> (commit q < length (row_of (req_to_token (rows m)) q))%nat).
  { intros q Hq. destruct (Hgrow q Hq) as [_ Hw]. rewrite (Hwd _ _ (lv_row _ _ _ (Hv q Hq))). unfold commit.
    pose proof (lv_commit _ _ _ (Hv q Hq)). lia. }
  step_ok. cbn [kv rows tree]. rewrite Hidx, Hlens. destruct (write_spec qs loc (req_to_token (rows m)) Hll Hnd) as (table' & Hrun & Hin & Hout & Hlt).
  { intros q Hq. exists (row_of (req_to_token (rows m)) q). split; [apply (Hv q Hq)|]. pose proof (Hwidth q Hq).
    pose proof (lv_commit _ _ _ (Hv q Hq)). unfold commit, len in *. lia. }
  rewrite Hrun. step_ok. exists loc. eexists. split; [reflexivity|]. cbn [kv rows tree]. split; [done|].
  assert (Hone : forall k q v, qs !! k = Some q -> loc !! k = Some v ->
    table' !! row_no q = Some (<[commit q := v]> (row_of (req_to_token (rows m)) q))).
  { intros k q v Hq Hvk. rewrite (Hin k q v Hq Hvk), (lv_row _ _ _ (Hv q ltac:(by eapply list_elem_of_lookup_2))). done. }
  assert (Hadv : forall k q v, qs !! k = Some q -> loc !! k = Some v ->
    live table' (tree m) (advance q) /\ own table' (advance q) = own (req_to_token (rows m)) q ++ [v]).
  { intros k q v Hq Hvk. assert (Hqin : q ∈ qs) by (by eapply list_elem_of_lookup_2). apply advance_live; [by apply Hv|by apply Hgrow|by apply Hwidth|].
    by apply (Hone k). }
  split; [|split; [congruence|split; [done|split; [done|]]]].
  - split; cbn [kv rows tree set_table req_to_token free_slots pool_size max_context_len].
    + rewrite <- Hs, Hp. assert (Hown : (advance <$> qs) ≫= own table' ≡ₚ loc ++ (qs ≫= own (req_to_token (rows m)))).
      { clear -Hadv Hll. revert loc Hll Hadv. induction qs as [|q qs' IH]; intros [|v loc] Hll Hadv; try done.
        rewrite fmap_cons, !bind_cons, (proj2 (Hadv 0%nat q v eq_refl eq_refl)), (IH loc).
        - solve_Permutation.
        - cbn in Hll. lia.
        - intros k q' v' Hq' Hv'. by apply (Hadv (S k)). }
      rewrite Hown. solve_Permutation.
    + rewrite <- Hr, <- list_fmap_compose. done.
    + by rewrite Hlt.
    + intros i row' Hi. destruct (decide (i ∈ row_no <$> qs)) as [(q & -> & (k & Hq)%list_elem_of_lookup)%list_elem_of_fmap|Hni].
      * destruct (lookup_lt_is_Some_2 loc k) as [v Hvk]; [apply lookup_lt_Some in Hq; lia|].
        rewrite (Hone k q v Hq Hvk) in Hi. injection Hi as <-. rewrite length_insert. eapply Hwd.
        apply (lv_row _ _ _ (Hv q ltac:(by eapply list_elem_of_lookup_2))).
      * rewrite Hout in Hi by done. by eapply Hwd.
    + done.
    + rewrite <- list_fmap_compose. done.
    + apply Forall_forall. intros q' (q & -> & (k & Hq)%list_elem_of_lookup)%list_elem_of_fmap.
      destruct (lookup_lt_is_Some_2 loc k) as [v Hvk]; [apply lookup_lt_Some in Hq; lia|]. by apply (Hadv k q v).
  - intros k q v Hq Hvk. apply list_lookup_total_correct. by apply (Hone k).
Qed.
End memory.
