(* ===== verification/DecodeRetract.v ===== *)
(** * Filtering a decode batch, and making room for it

    The tensors of a batch stay aligned with its requests; retraction releases
    the requests with the least output until the rest can decode, keeps the
    others, and aborts the last one only when it does not fit alone. *)

From S2P Require Import Prelude Allocator DllmReq MemCommon RadixKey RadixCache RadixCacheProofs RadixCacheTheorems RadixCacheRequests StableSort DecodeBatch DecodeMemory.
Import Radix Decode.

(** ** Selecting by index *)

Definition chosen {A} (l : list A) (ks : list nat) : list A := omap (fun i => l !! i) ks.

Lemma pick_ok {A} (l : list A) ks : (forall k, k ∈ ks -> (k < length l)%nat) -> pick l ks = Ok (chosen l ks).
Proof.
  induction ks as [|k ks IH]; intros Hk; [done|]. destruct (lookup_lt_is_Some_2 l k) as [x Hx]; [apply Hk; by left|].
  unfold pick, chosen in *. cbn [mapM omap list_omap]. rewrite Hx. cbn [of_option]. step_ok. rewrite IH; [done|].
  intros k' Hk'. apply Hk. by right.
Qed.

Lemma chosen_Forall2 {A B} (R : A -> B -> Prop) l l' ks : Forall2 R l l' -> Forall2 R (chosen l ks) (chosen l' ks).
Proof.
  intros Hf. induction ks as [|k ks IH]; [constructor|]. unfold chosen in *. cbn [omap list_omap].
  destruct (l !! k) as [x|] eqn:Hx.
  - destruct (Forall2_lookup_l _ _ _ _ _ Hf Hx) as (y & Hy & Hxy). rewrite Hy. by constructor.
  - assert (Hn : l' !! k = None) by (apply lookup_ge_None in Hx; apply lookup_ge_None; apply Forall2_length in Hf; lia).
    by rewrite Hn.
Qed.

Lemma length_chosen {A} (l : list A) ks : (forall k, k ∈ ks -> (k < length l)%nat) -> length (chosen l ks) = length ks.
Proof.
  induction ks as [|k ks IH]; intros Hk; [done|]. destruct (lookup_lt_is_Some_2 l k) as [x Hx]; [apply Hk; by left|].
  unfold chosen in *. cbn [omap list_omap]. rewrite Hx. cbn. f_equal. apply IH. intros; apply Hk; by right.
Qed.

Lemma elem_of_chosen {A} (l : list A) ks x : x ∈ chosen l ks -> x ∈ l.
Proof. intros (k & _ & Hk)%list_elem_of_omap. by eapply list_elem_of_lookup_2. Qed.

Lemma chosen_shift {A} (x : A) l ks : chosen (x :: l) (S <$> ks) = chosen l ks.
Proof. induction ks as [|k ks IH]; [done|]. unfold chosen in *. cbn. by rewrite IH. Qed.

Lemma chosen_seq {A} (l : list A) : chosen l (seq 0 (length l)) = l.
Proof.
  induction l as [|x l IH]; [done|]. cbn [length seq]. rewrite <- fmap_S_seq.
  change (chosen (x :: l) (0%nat :: ?ks)) with (x :: chosen (x :: l) ks). by rewrite chosen_shift, IH.
Qed.

Lemma chosen_perm {A} (l : list A) ks ks' : ks ≡ₚ ks' -> chosen l ks ≡ₚ chosen l ks'.
Proof. intros Hp. unfold chosen. by rewrite Hp. Qed.

Lemma chosen_app {A} (l : list A) ks ks' : chosen l (ks ++ ks') = chosen l ks ++ chosen l ks'.
Proof. apply omap_app. Qed.

(** ** Aligned batches *)

(** Every tensor has an entry per request; for a request that goes on it is the
    request's own row, length and last token. *)
Record aligned (b : batch) : Prop := {
  al_idx : Forall2 (fun q i => q_finished q = false -> i = row_no q) (reqs b) (req_pool_indices b);
  al_lens : Forall2 (fun q n => q_finished q = false -> n = kv_committed_len (kvs (creq q))) (reqs b) (seq_lens b);
  al_sum : seq_lens_sum b = Decode.sum (seq_lens b);
  al_next l : next_ids b = Some l ->
    Forall2 (fun q t => q_finished q = false -> last (output_ids (out (creq q))) = Some t) (reqs b) l;
  al_any : any_logprob b = existsb (fun q => return_logprob (info (creq q))) (reqs b);
  al_top : any_logprob b = true -> exists l, top_logprobs_nums b = Some l /\ length l = length (reqs b);
}.

(** Filtering to valid, distinct indices keeps the chosen requests and the
    alignment. *)
Lemma filter_keep exclude ks b :
  aligned b -> (forall k, k ∈ ks -> (k < length (reqs b))%nat) -> NoDup ks ->
  exists b', filter_batch exclude (Some ks) b = Ok b' /\ reqs b' ≡ₚ chosen (reqs b) ks /\
    (reqs b' = [] \/ aligned b') /\ batch_is_full b' = batch_is_full b /\
    ((length ks = length (reqs b) -> ks = seq 0 (length (reqs b))) -> reqs b' = chosen (reqs b) ks).
Proof.
  intros Hal Hk Hnd. unfold filter_batch. change (default (kept_indices exclude b) (Some ks)) with ks. cbn zeta.
  case_bool_decide as He; [subst ks; eexists; split; [reflexivity|]; split; [done|]; split; [by left|done]|].
  destruct (Nat.eqb_spec (length ks) (length (reqs b))) as [Hl|Hl].
  - exists b. split; [done|]. assert (Hp : ks ≡ₚ seq 0 (length (reqs b))).
    { apply submseteq_length_Permutation; [|rewrite length_seq; lia]. apply NoDup_submseteq; [done|].
      intros k Hin. apply elem_of_seq. specialize (Hk k Hin). lia. }
    split; [rewrite (chosen_perm _ _ _ Hp), chosen_seq; done|]. split; [by right|]. split; [done|]. intros Hs.
    rewrite (Hs Hl). by rewrite chosen_seq.
  - destruct Hal as [Hi Hn Hs Hx Ha Ht].
    pose proof (Forall2_length _ _ _ Hi) as Hli. pose proof (Forall2_length _ _ _ Hn) as Hln.
    rewrite !pick_ok by (rewrite <- ?Hli, <- ?Hln; done). do 3 step_ok.
    assert (Hnext : exists ids, match next_ids b with Some l => l ← pick l ks; Ok (Some l) | None => Ok None end = Ok ids /\
      forall l, ids = Some l -> Forall2 (fun q t => q_finished q = false -> last (output_ids (out (creq q))) = Some t) (chosen (reqs b) ks) l).
    { destruct (next_ids b) as [l|]; [|by exists None]. specialize (Hx l eq_refl). pose proof (Forall2_length _ _ _ Hx) as Hlx.
      rewrite pick_ok by (by rewrite <- Hlx). step_ok. eexists. split; [done|]. intros l' [= <-]. by apply chosen_Forall2. }
    destruct Hnext as (ids & -> & Hids). step_ok. set (any := existsb _ (chosen (reqs b) ks)).
    assert (Htop : exists tops, (if any then l ← of_option TypeError (top_logprobs_nums b); l ← pick l ks; Ok (Some l) else Ok None) = Ok tops /\
      (any = true -> exists l, tops = Some l /\ length l = length (chosen (reqs b) ks))).
    { destruct any eqn:Hany; [|by exists None]. assert (Hab : any_logprob b = true).
      { rewrite Ha. apply existsb_exists. unfold any in Hany. apply existsb_exists in Hany as (q & Hq & Hr). exists q. split; [|done].
        apply list_elem_of_In. apply list_elem_of_In in Hq. by eapply elem_of_chosen. }
      destruct (Ht Hab) as (l & -> & Hlt). cbn [of_option]. step_ok. rewrite pick_ok by (by rewrite Hlt). step_ok. eexists. split; [done|].
      intros _. eexists. split; [done|]. rewrite !length_chosen by (rewrite ?Hlt; done). done. }
    destruct Htop as (tops & -> & Htops). step_ok. eexists. split; [reflexivity|]. cbn [reqs batch_is_full]. split; [done|].
    split; [|split; [done|done]]. right. split; cbn [reqs req_pool_indices seq_lens seq_lens_sum next_ids any_logprob top_logprobs_nums]; try done.
    + by apply chosen_Forall2.
    + by apply chosen_Forall2.
Qed.

Lemma filter_full {A} (P : A -> Prop) `{!forall x, Decision (P x)} (l : list A) : length (filter P l) = length l -> filter P l = l.
Proof.
  induction l as [|x l IH]; [done|]. rewrite filter_cons. pose proof (length_filter P l). case_decide; cbn; [|lia].
  intros [= He]. f_equal. by apply IH.
Qed.

Definition going (q : cache_req) : bool := negb (q_finished q).

(** Without given indices the finished requests are dropped. *)
Lemma filter_unfinished b :
  aligned b ->
  exists b', filter_batch [] None b = Ok b' /\ reqs b' = filter (fun q => going q = true) (reqs b) /\
    (reqs b' = [] \/ aligned b') /\ batch_is_full b' = batch_is_full b.
Proof.
  intros Hal. set (ks := kept_indices [] b).
  assert (Hin : forall k, k ∈ ks -> (k < length (reqs b))%nat) by (intros k [_ Hk%elem_of_seq]%list_elem_of_filter; lia).
  assert (Hnd : NoDup ks) by apply NoDup_filter, NoDup_seq.
  destruct (filter_keep [] ks b Hal Hin Hnd) as (b' & Hrun & _ & Ha & Hf & He). exists b'. split; [exact Hrun|]. split; [|done].
  rewrite He; [|intros Hl; apply filter_full; rewrite length_seq; exact Hl]. unfold ks, kept_indices.
  transitivity (filter (fun q => going q = true) (chosen (reqs b) (seq 0 (length (reqs b))))); [|by rewrite chosen_seq].
  unfold chosen. clear He. induction (seq 0 (length (reqs b))) as [|k l IH]; [done|].
  rewrite filter_cons. cbn [omap list_omap]. destruct (reqs b !! k) as [q|] eqn:Hq.
  - rewrite filter_cons, bool_decide_true by apply not_elem_of_nil. rewrite andb_true_r. change (negb (q_finished q)) with (going q).
    destruct (going q); [rewrite !decide_True by done|rewrite !decide_False by done; exact IH].
    cbn [omap list_omap]. rewrite Hq. by rewrite IH.
  - by rewrite decide_False.
Qed.

(** ** Merging *)

Lemma sum_zapp l k : Decode.sum (l ++ k) = Decode.sum l + Decode.sum k.
Proof. unfold Decode.sum. induction l as [|x l IH]; cbn; lia. Qed.

(** Merging aligned batches: the requests of both, and tensors of both; requests
    of a batch without logprobs get zero top logprobs. *)
Lemma merge_aligned b o :
  aligned b -> aligned o -> (is_Some (next_ids b) -> is_Some (next_ids o)) ->
  exists b', merge_batch b o = Ok b' /\ reqs b' = reqs b ++ reqs o /\ aligned b'.
Proof.
  intros [Hi1 Hn1 Hs1 Hx1 Ha1 Ht1] [Hi2 Hn2 Hs2 Hx2 Ha2 Ht2] Hnext. unfold merge_batch.
  assert (Hids : exists ids, match next_ids b with Some l => o ← of_option TypeError (next_ids o); Ok (Some (l ++ o)) | None => Ok None end = Ok ids /\
    forall l, ids = Some l -> Forall2 (fun q t => q_finished q = false -> last (output_ids (out (creq q))) = Some t) (reqs b ++ reqs o) l).
  { destruct (next_ids b) as [l|]; [|by exists None]. destruct (Hnext ltac:(by eexists)) as [l' Hl']. rewrite Hl'. eexists. split; [done|].
    intros l0 [= <-]. apply Forall2_app; [by apply Hx1|by apply Hx2]. }
  destruct Hids as (ids & -> & Hids). step_ok.
  set (tops := match any_logprob b, any_logprob o with true, true => _ | true, false => _ | false, true => _ | false, false => _ end).
  assert (Htops : exists r, tops = Ok r /\ (any_logprob b || any_logprob o = true ->
    exists l, r = Some l /\ length l = length (reqs b ++ reqs o))).
  { subst tops. rewrite length_app. destruct (any_logprob b); [destruct (Ht1 eq_refl) as (l1 & -> & L1)|];
      (destruct (any_logprob o); [destruct (Ht2 eq_refl) as (l2 & -> & L2)|]); eexists; (split; [reflexivity|]); intros Ho; try done;
      eexists; (split; [reflexivity|]); rewrite length_app, ?length_replicate; lia. }
  destruct Htops as (r & -> & Hr). step_ok. eexists. split; [reflexivity|]. split; [done|].
  split; cbn [reqs req_pool_indices seq_lens seq_lens_sum next_ids any_logprob top_logprobs_nums]; try done.
  - by apply Forall2_app.
  - by apply Forall2_app.
  - by rewrite sum_zapp, Hs1, Hs2.
  - by rewrite existsb_app, Ha1, Ha2.
Qed.

(** ** Making room *)

Section retract.
Context `{!HeapQ} (time : nat -> Z) (strat : strategy) (dfi : bool) (steps : Z).
Context (slots others : list Z) (other_rows other_locks : list nat).
Notation ok := (decode_ok slots others other_rows other_locks).

(** What happens to the memory between two looks at it. *)
Record moved (m m' : mem radix) : Prop := {
  mv_group : is_not_in_free_group (kv m') = is_not_in_free_group (kv m);
  mv_dims : dims (rows m') = dims (rows m);
}.

Lemma mv_width m m' : moved m m' -> max_context_len (rows m') = max_context_len (rows m).
Proof. intros Hm. exact (f_equal fst (mv_dims _ _ Hm)). Qed.

Lemma mv_size m m' : moved m m' -> pool_size (rows m') = pool_size (rows m).
Proof. intros Hm. exact (f_equal snd (mv_dims _ _ Hm)). Qed.

#[local] Instance moved_trans : Transitive moved.
Proof. intros m1 m2 m3 [] []. split; congruence. Qed.

Lemma frame_moved m m' : frame_ok m m' -> moved m m'.
Proof. intros [Hr Hg _]. split; [done|by rewrite Hr]. Qed.

Lemma check_ok ks b m qs :
  (forall k, k ∈ ks -> (k < length (reqs b))%nat) -> ok m qs -> is_not_in_free_group (kv m) = true ->
  exists m', check_decode_mem strat 1 ks b m = Ok (Z.of_nat (length ks) <=? len (Token.pool (kv m')), m') /\ ok m' qs /\ frame_ok m m' /\
    (Z.of_nat (length ks) <= room m -> Z.of_nat (length ks) <= len (Token.pool (kv m'))).
Proof.
  intros Hk Hd Hg. unfold check_decode_mem, new_tokens_required_next_decode. rewrite pick_ok by done. do 2 step_ok.
  set (n := len _ * 1). assert (Hn : n = Z.of_nat (length ks)).
  { subst n. rewrite <- (length_chosen (reqs b) ks Hk). unfold len.
    assert (Hf : filter (fun q => kv_committed_len (kvs (creq q)) mod 1 = 0) (chosen (reqs b) ks) = chosen (reqs b) ks).
    { induction (chosen (reqs b) ks) as [|q l IH]; [done|]. rewrite filter_cons_True by apply Z.mod_1_r. by rewrite IH. }
    rewrite Hf. lia. }
  destruct (evict_full strat slots others other_rows other_locks n m qs Hd) as (m' & Hrun & Hd' & Hfr & _ & Hmore). rewrite Hrun. step_ok.
  exists m'. split; [|split; [done|split; [done|]]]; [|rewrite <- Hn; by apply Hmore]. rewrite Hn. unfold kv_available. change (1 =? 1) with true. cbn match.
  rewrite Token.available_pool by (by rewrite (f_group _ _ Hfr)). done.
Qed.

(** The request as it goes back to the queue. *)
Definition taken_back (q : cache_req) : cache_req := reset_req (released q).

Lemma release_req_ok idx q n b m qs :
  reqs b !! idx = Some q -> ok m (q :: qs) ->
  exists m', release_req time strat dfi false 1 steps idx n b m = Ok (taken_back q, m') /\ ok m' qs /\ moved m m'.
Proof.
  intros Hq Hd. unfold release_req. rewrite Hq. cbn [of_option]. step_ok.
  destruct (release_ok time dfi slots others other_rows other_locks false m q qs Hd) as (m1 & Hrun & Hd1 & Hg1 & Hw1 & _).
  rewrite Hrun. step_ok. destruct (evict_ok strat slots others other_rows other_locks (n * steps) m1 qs Hd1) as (m2 & Hrun2 & Hd2 & Hf).
  rewrite Hrun2. step_ok. exists m2. split; [done|]. split; [done|]. transitivity m1; [by split|by apply frame_moved].
Qed.

(** The loop takes requests off the stack until the rest fits or one is left. *)
Lemma retract_loop_spec b : forall stack first retracted m,
  stack <> [] -> (forall k, k ∈ stack -> (k < length (reqs b))%nat) -> ok m (chosen (reqs b) stack) ->
  is_not_in_free_group (kv m) = true ->
  exists done rest m', stack = done ++ rest /\ rest <> [] /\
    retract_loop time strat dfi false 1 steps first stack retracted b m =
      Ok (rest, retracted ++ (taken_back <$> chosen (reqs b) done), m') /\
    ok m' (chosen (reqs b) rest) /\ moved m m' /\
    (length rest = 1%nat \/ Z.of_nat (length rest) <= len (Token.pool (kv m'))) /\
    (first = true -> (1 < length stack)%nat -> done <> []).
Proof.
  induction stack as [|idx stack IH]; intros first retracted m Hne Hk Hd Hg; [done|]. cbn [retract_loop].
  assert (Hcond : exists e m1, (if first then Ok (false, m) else check_decode_mem strat 1 (rev (idx :: stack)) b m) = Ok (e, m1) /\
    ok m1 (chosen (reqs b) (idx :: stack)) /\ moved m m1 /\
    (e = true -> first = false /\ Z.of_nat (length (idx :: stack)) <= len (Token.pool (kv m1)))).
  { destruct first; [exists false, m; split; [done|]; split; [done|]; split; [by split|done]|].
    destruct (check_ok (rev (idx :: stack)) b m _ ltac:(intros k Hin; apply Hk; by rewrite (Permutation_rev (idx :: stack))) Hd Hg)
      as (m1 & Hrun & Hd1 & Hf & _). rewrite Hrun, length_rev. do 2 eexists. split; [reflexivity|]. split; [done|].
    split; [by apply frame_moved|]. intros He%Z.leb_le. done. }
  destruct Hcond as (e & m1 & -> & Hd1 & Hm1 & He). step_ok. destruct e.
  { destruct (He eq_refl) as [-> Hfit]. exists [], (idx :: stack), m1. cbn [app fmap list_fmap]. rewrite app_nil_r.
    split; [done|]. split; [done|]. split; [done|]. split; [done|]. split; [done|]. split; [by right|done]. }
  destruct stack as [|i2 stack].
  { exists [], [idx], m1. cbn [app fmap list_fmap]. rewrite app_nil_r. split; [done|]. split; [done|]. split; [done|]. split; [done|].
    split; [done|]. split; [by left|]. cbn. lia. }
  destruct (lookup_lt_is_Some_2 (reqs b) idx) as [q Hq]; [apply Hk; by left|].
  assert (Hch : chosen (reqs b) (idx :: i2 :: stack) = q :: chosen (reqs b) (i2 :: stack)) by (unfold chosen at 1; cbn [omap list_omap]; by rewrite Hq).
  rewrite Hch in Hd1. destruct (release_req_ok idx q (Z.of_nat (length (i2 :: stack))) b m1 _ Hq Hd1) as (m2 & Hrun & Hd2 & Hm2).
  rewrite Hrun. step_ok.
  destruct (IH false (retracted ++ [taken_back q]) m2 ltac:(done) ltac:(intros; apply Hk; by right) Hd2
    ltac:(by rewrite (mv_group _ _ Hm2), (mv_group _ _ Hm1))) as (dn & rest & m' & Hst & Hrest & Hrun' & Hd' & Hm' & Hfit & _).
  exists (idx :: dn), rest, m'. split; [by rewrite Hst|]. split; [done|]. split.
  - rewrite Hrun'. unfold chosen at 2. cbn [omap list_omap]. rewrite Hq. by rewrite fmap_cons, <- app_assoc.
  - split; [done|]. split; [by transitivity m2; [transitivity m1|]|]. split; [done|done].
Qed.

(** *** The order *)

#[global] Instance key_gt_order : KeyOrder key_gt.
Proof.
  split; unfold key_gt.
  - intros a b. apply key_asym.
  - intros a b c Hac Hbc. destruct (pair_lt Z.ltb Z.ltb b a) eqn:E; [done|].
    pose proof (key_cotrans _ _ _ Hac E). congruence.
Qed.

Definition key_at (b : batch) (i : nat) : Z * Z := match reqs b !! i with Some q => retract_key q | None => (0, 0) end.

Lemma sorted_facts b :
  sorted_indices b ≡ₚ seq 0 (length (reqs b)) /\ NoDup (sorted_indices b) /\
  StronglySorted (fun i j => key_gt (key_at b j) (key_at b i) = false) (sorted_indices b).
Proof.
  assert (Hp : sorted_indices b ≡ₚ seq 0 (length (reqs b))) by apply sort_by_perm. split; [done|].
  split; [rewrite Hp; apply NoDup_seq|]. apply (sort_by_order key_gt (key_at b)).
Qed.

(** Who is taken off the end of a sorted list ranks no higher than who stays. *)
Lemma split_order {A} (R : A -> A -> Prop) l gone rest :
  StronglySorted R l -> rev l = gone ++ rest -> forall g k, g ∈ gone -> k ∈ rest -> R k g.
Proof.
  intros Hs Hl g k Hg Hk. assert (Hl' : l = rev rest ++ rev gone) by (by rewrite <- rev_app_distr, <- Hl, rev_involutive).
  subst l. apply StronglySorted_app in Hs as (Hcross & _). apply (Hcross k g); by rewrite <- Permutation_rev.
Qed.

(** Alone in the batch, with nothing free and nothing to evict. *)
Definition crowded (q : cache_req) : Prop := exists m, ok m [q] /\ room m < 1.

(** What making room achieves: [gone] are the retracted requests. *)
Record made_room (b : batch) (m : mem radix) (b' : batch) (m' : mem radix) (gone aborted : list cache_req) : Prop := {
  mr_all : reqs b ≡ₚ reqs b' ++ gone ++ aborted;
  mr_ok : ok m' (reqs b');
  mr_moved : moved m m';
  mr_room : len (reqs b') <= len (Token.pool (kv m'));
  mr_abort : aborted = [] \/ reqs b' = [] /\ exists q, aborted = [q];
  mr_order g k : g ∈ gone -> k ∈ reqs b' ++ aborted -> key_gt (retract_key g) (retract_key k) = false;
  mr_aligned : reqs b' = [] \/ aligned b';
  mr_full : batch_is_full b' = batch_is_full b;
  mr_short q : q ∈ aborted -> crowded q;
}.

Lemma chosen_order b ks ks' g k :
  (forall i j, i ∈ ks -> j ∈ ks' -> key_gt (key_at b i) (key_at b j) = false) ->
  g ∈ chosen (reqs b) ks -> k ∈ chosen (reqs b) ks' -> key_gt (retract_key g) (retract_key k) = false.
Proof.
  intros Ho (i & Hi & Hg)%list_elem_of_omap (j & Hj & Hk)%list_elem_of_omap. specialize (Ho i j Hi Hj).
  unfold key_at in Ho. by rewrite Hg, Hk in Ho.
Qed.

(** Where the loop stops: [dn] was taken off, [rest] is left. *)
Record stopped (b : batch) (m : mem radix) (dn rest : list nat) (m1 : mem radix) : Prop := {
  sp_all : reqs b ≡ₚ chosen (reqs b) rest ++ chosen (reqs b) dn;
  sp_rest : rest <> [];
  sp_in k : k ∈ rest -> (k < length (reqs b))%nat;
  sp_NoDup : NoDup rest;
  sp_order g k : g ∈ chosen (reqs b) dn -> k ∈ chosen (reqs b) rest -> key_gt (retract_key g) (retract_key k) = false;
  sp_ok : ok m1 (chosen (reqs b) rest);
  sp_moved : moved m m1;
  sp_fit : length rest = 1%nat \/ Z.of_nat (length rest) <= len (Token.pool (kv m1));
  sp_progress : (1 < length (reqs b))%nat -> chosen (reqs b) dn <> [];
}.

Lemma loop_stops b m :
  reqs b <> [] -> ok m (reqs b) -> is_not_in_free_group (kv m) = true ->
  exists dn rest m1, stopped b m dn rest m1 /\
    retract_loop time strat dfi false 1 steps true (rev (sorted_indices b)) [] b m =
      Ok (rest, taken_back <$> chosen (reqs b) dn, m1).
Proof.
  intros Hne Hd Hg. destruct (sorted_facts b) as (Hperm & Hnd & Hsort). set (st := rev (sorted_indices b)).
  assert (Hst : st ≡ₚ seq 0 (length (reqs b))) by (unfold st; by rewrite <- Permutation_rev).
  assert (Hin : forall k, k ∈ st -> (k < length (reqs b))%nat) by (intros k; rewrite Hst, elem_of_seq; lia).
  assert (Hall : chosen (reqs b) st ≡ₚ reqs b) by (rewrite (chosen_perm _ _ _ Hst); by rewrite chosen_seq).
  assert (Hlen : length (reqs b) = length st) by (rewrite Hst; by rewrite length_seq).
  assert (Hst0 : st <> []) by (intros He; rewrite He in Hlen; by destruct (reqs b)).
  destruct (retract_loop_spec b st true [] m Hst0 Hin ltac:(by rewrite Hall) Hg) as (dn & rest & m1 & Hsp & Hr0 & Hrun & Hd1 & Hm1 & Hfit & Hprog).
  exists dn, rest, m1. split; [|by rewrite Hrun]. split; try done.
  - transitivity (chosen (reqs b) st); [by rewrite Hall|]. rewrite Hsp, chosen_app. apply Permutation_app_comm.
  - intros k Hk. apply Hin. rewrite Hsp. apply elem_of_app. by right.
  - assert (Hn : NoDup st) by (rewrite Hst; apply NoDup_seq). rewrite Hsp in Hn. by apply NoDup_app in Hn as (_ & _ & ?).
  - intros g k. apply chosen_order. intros i j Hi Hj. by apply (split_order _ _ dn rest Hsort Hsp i j).
  - intros Hl Hc. apply (Hprog eq_refl ltac:(lia)). apply (f_equal length) in Hc. rewrite length_chosen in Hc; [by destruct dn|].
    intros k Hk. apply Hin. rewrite Hsp. apply elem_of_app. by left.
Qed.

Lemma keep_rest b m dn rest m1 m2 :
  aligned b -> stopped b m dn rest m1 -> ok m2 (chosen (reqs b) rest) -> moved m m2 -> Z.of_nat (length rest) <= len (Token.pool (kv m2)) ->
  exists b', filter_batch [] (Some (rev rest)) b = Ok b' /\ made_room b m b' m2 (chosen (reqs b) dn) [].
Proof.
  intros Hal [Hall Hne Hin Hnd Hord _ _ _ _] Hd Hm Hfit.
  destruct (filter_keep [] (rev rest) b Hal) as (b' & Hrun & Hp & Ha & Hf & _).
  - intros k Hk. apply Hin. by rewrite (Permutation_rev rest).
  - by rewrite <- Permutation_rev.
  - assert (Hr : reqs b' ≡ₚ chosen (reqs b) rest) by (rewrite Hp; apply chosen_perm; by rewrite <- Permutation_rev).
    exists b'. split; [done|]. split; try done.
    + by rewrite app_nil_r, Hr.
    + by rewrite Hr.
    + unfold len at 1. by rewrite Hr, length_chosen by done.
    + by left.
    + intros g k Hg Hk. rewrite app_nil_r, Hr in Hk. by apply Hord.
    + by intros q ?%not_elem_of_nil.
Qed.

Lemma abort_last b m dn idx q m1 m2 :
  stopped b m dn [idx] m1 -> reqs b !! idx = Some q -> ok m2 [] -> moved m m2 -> crowded q ->
  made_room b m (set_reqs b []) m2 (chosen (reqs b) dn) [q].
Proof.
  intros [Hall _ _ _ Hord _ _ _ _] Hq Hd Hm Hcr. unfold chosen at 1 in Hall. unfold chosen at 2 in Hord. cbn [omap list_omap] in Hall, Hord.
  rewrite Hq in Hall, Hord. split; cbn [reqs set_reqs batch_is_full]; try done.
  - rewrite Hall at 1. cbn [app]. by rewrite (Permutation_app_comm _ [q]).
  - cbn. apply len_nonneg.
  - right. split; [done|]. by exists q.
  - by left.
  - by intros q' ->%list_elem_of_singleton.
Qed.

Lemma retract_run b m :
  aligned b -> reqs b <> [] -> ok m (reqs b) -> is_not_in_free_group (kv m) = true ->
  exists b' m' gone aborted, made_room b m b' m' gone aborted /\ ((1 < length (reqs b))%nat -> gone <> []) /\
    retract_decode time strat dfi false 1 steps b m =
      Ok (b', m', taken_back <$> gone, new_estimate_ratio steps (reqs b'), (fun q => abort_req (taken_back q)) <$> aborted).
Proof.
  intros Hal Hne Hd Hg. destruct (loop_stops b m Hne Hd Hg) as (dn & rest & m1 & Hst & Hrun). pose proof (sp_progress _ _ _ _ _ Hst) as Hpr. pose proof (sp_moved _ _ _ _ _ Hst) as Hm1.
  unfold retract_decode. rewrite Hrun. step_ok. destruct (Nat.leb_spec (length rest) 1) as [Hl|Hl].
  - destruct rest as [|idx [|]]; [by destruct (sp_rest _ _ _ _ _ Hst)| |cbn in Hl; lia]. pose proof (sp_ok _ _ _ _ _ Hst) as Hd1.
    destruct (check_ok (rev [idx]) b m1 _ (sp_in _ _ _ _ _ Hst) Hd1 ltac:(by rewrite (mv_group _ _ Hm1))) as (m2 & Hck & Hd2 & Hf2 & Hmore).
    rewrite Hck. step_ok. assert (Hm2 : moved m m2) by (transitivity m1; [done|by apply frame_moved]). destruct (Z.leb_spec (Z.of_nat (length (rev [idx]))) (len (Token.pool (kv m2)))) as [Hfit|Hno].
    + step_ok. destruct (keep_rest b m dn [idx] m1 m2 Hal Hst Hd2 Hm2 Hfit) as (b' & Hfil & Hmr). rewrite Hfil. step_ok.
      by exists b', m2, (chosen (reqs b) dn), [].
    + destruct (lookup_lt_is_Some_2 (reqs b) idx) as [q Hq]; [apply (sp_in _ _ _ _ _ Hst); by left|].
      unfold chosen in Hd1, Hd2. cbn [omap list_omap] in Hd1, Hd2. rewrite Hq in Hd1, Hd2.
      assert (Hcr : crowded q) by (exists m1; split; [done|]; cbn in Hno, Hmore; lia).
      destruct (release_req_ok idx q 0 b m2 [] Hq Hd2) as (m3 & Hrel & Hd3 & Hm3). rewrite Hrel. step_ok. step_ok.
      exists (set_reqs b []), m3, (chosen (reqs b) dn), [q]. split; [|done].
      apply (abort_last b m dn idx q m1 m3 Hst Hq Hd3); [by transitivity m2|done].
  - step_ok. destruct (keep_rest b m dn rest m1 m1 Hal Hst (sp_ok _ _ _ _ _ Hst) Hm1) as (b' & Hfil & Hmr).
    { destruct (sp_fit _ _ _ _ _ Hst); [lia|done]. }
    rewrite Hfil. step_ok. by exists b', m1, (chosen (reqs b) dn), [].
Qed.

(** Retraction makes room and wastes nothing.  From a batch whose requests
    hold their slots, [retract_decode] succeeds; the requests are split into
    kept, retracted and aborted ones; the free slots then cover one more token
    for everybody kept; whoever goes ranks no higher (output so far, then a
    shorter prompt) than whoever stays; only a request that is alone is aborted;
    all slots of those who go are free or cached again, and the tensors of the
    batch are those of the kept requests. *)
Theorem retract_makes_room b m :
  aligned b -> reqs b <> [] -> ok m (reqs b) -> is_not_in_free_group (kv m) = true ->
  exists b' m' gone aborted,
    retract_decode time strat dfi false 1 steps b m =
      Ok (b', m', taken_back <$> gone, new_estimate_ratio steps (reqs b'), (fun q => abort_req (taken_back q)) <$> aborted) /\
    reqs b ≡ₚ reqs b' ++ gone ++ aborted /\ ok m' (reqs b') /\ len (reqs b') <= len (Token.pool (kv m')) /\
    (aborted = [] \/ reqs b' = [] /\ exists q, aborted = [q]) /\
    (forall g k, g ∈ gone -> k ∈ reqs b' ++ aborted -> key_gt (retract_key g) (retract_key k) = false) /\
    ((1 < length (reqs b))%nat -> gone <> []) /\ (reqs b' = [] \/ aligned b').
Proof.
  intros Hal Hne Hd Hg. destruct (retract_run b m Hal Hne Hd Hg) as (b' & m' & gone & aborted & [M1 M2 M3 M4 M5 M6 M7 M8 M9] & Hpr & Hrun).
  by exists b', m', gone, aborted.
Qed.
End retract.
