(* ===== verification/DecodeTurn.v ===== *)
(** * A turn of the decode loop

    update_running_batch, a forward and process_batch_result_decode, composed:
    no turn raises, in particular none runs out of memory; every request gets
    one token, or goes back to the queue with its output, or is aborted because
    it does not fit alone; and the accounting of DecodeMemory.v is kept. *)

From S2P Require Import Prelude Allocator DllmReq MemCommon RadixKey RadixCache RadixCacheProofs RadixCacheTheorems RadixCacheRequests StableSort DecodeBatch DecodeMemory DecodeRetract.
From Stdlib Require Import QArith.
Import Radix Decode.
#[local] Open Scope Z_scope.

(** ** A request and its token *)

(** Between turns: all but the last token are in the cache, and the request is
    below its limits. *)
Record growing (width : nat) (q : cache_req) : Prop := {
  gr_lag : kv_committed_len (kvs (creq q)) + 1 = seqlen (creq q);
  gr_out : 1 <= len (output_ids (out (creq q))) < max_new_tokens (sampling (info (creq q)));
  gr_width : len (origin_input_ids (info (creq q))) + max_new_tokens (sampling (info (creq q))) <= Z.of_nat width;
}.

(** During a forward: everything is. *)
Record forwarding (width : nat) (q : cache_req) : Prop := {
  fw_lag : kv_committed_len (kvs (creq q)) = seqlen (creq q);
  fw_out : len (output_ids (out (creq q))) < max_new_tokens (sampling (info (creq q)));
  fw_width : len (origin_input_ids (info (creq q))) + max_new_tokens (sampling (info (creq q))) <= Z.of_nat width;
}.

Lemma advance_forwarding width q : growing width q -> forwarding width (advance q).
Proof. intros [Hl Ho Hw]. split; [|apply Ho|done]. unfold seqlen in *. cbn. lia. Qed.

(** Same memory, same committed tokens. *)
Record same_hold (q q' : cache_req) : Prop := {
  sh_kvs : kvs (creq q') = kvs (creq q);
  sh_node : last_node q' = last_node q;
  sh_space : creq_extra_key q' = creq_extra_key q;
  sh_toks : toks_of q' = toks_of q;
  sh_len : seqlen (creq q) <= seqlen (creq q');
}.

Lemma same_hold_own table q q' : same_hold q q' -> own table q' = own table q /\ row_no q' = row_no q.
Proof. intros [Hk _ _ _ _]. unfold own, row_of, row_no, pool_idx, commit, shield. by rewrite Hk. Qed.

Lemma same_hold_live table t q q' : same_hold q q' -> live table t q -> live table t q'.
Proof.
  intros Hsh [Hi Hr [Ha1 Ha2 Ha3 Ha4 Ha5] Hal Hc Hf]. pose proof (same_hold_own table _ _ Hsh) as [_ Hrn]. destruct Hsh as [Hk Hn Hs Ht Hl].
  assert (Hro : row_of table q' = row_of table q) by (unfold row_of; by rewrite Hrn).
  split; rewrite ?Hro, ?Hrn, ?Hk; try done; [|lia]. split; rewrite ?Hn, ?Hs, ?Ht, ?Hk; done.
Qed.

Lemma append_hold t q : 0 <= kv_committed_len (kvs (creq q)) <= seqlen (creq q) ->
  same_hold q (with_req q (append_token t (creq q))).
Proof.
  intros Hc. split; try done.
  - unfold toks_of, all_ids. cbn. rewrite !slice_to_take, app_assoc by lia. apply take_app_le.
    rewrite length_app. unfold seqlen, len in Hc. lia.
  - unfold seqlen. cbn. rewrite len_app. pose proof (len_nonneg [t]). lia.
Qed.

Lemma hold_trans q1 q2 q3 : same_hold q1 q2 -> same_hold q2 q3 -> same_hold q1 q3.
Proof. intros [A1 B1 C1 D1 E1] [A2 B2 C2 D2 E2]. split; try congruence. lia. Qed.

(** The check for the end may replace the last token, which is not committed. *)
Lemma check_finished_take str grammar r :
  output_ids (out r) <> [] ->
  let r' := check_finished str grammar 1 r in
  take (length (output_ids (out r)) - 1) (output_ids (out r')) = take (length (output_ids (out r)) - 1) (output_ids (out r)).
Proof.
  intros Hne r'. subst r'. set (o := output_ids (out r)) in *.
  assert (Hlast : len (slice_from o (-1)) = 1).
  { unfold slice_from, clamp. change (-1 <? 0) with true. cbn match. unfold len. rewrite length_drop. destruct o; [done|]. cbn [length]. lia. }
  assert (Hoff : forall i, 0 <= i -> (length o - 1 <= Z.to_nat (len o - len (slice_from o (-1)) + i))%nat)
    by (intros i Hi; rewrite Hlast; unfold len; lia).
  unfold check_finished, check_token_based_finish, check_vocab_boundary_finish. fold o.
  destruct (DllmReq.finished r); [done|]. destruct (to_finish (out r)); [done|]. destruct (_ <=? _); [done|]. destruct (grammar r); [done|].
  assert (Hv : forall i, take (length o - 1) (match eos_token_ids (info r) with
      | t :: _ => <[Z.to_nat (len o - len (slice_from o (-1)) + Z.of_nat i) := t]>
          (match stop_token_ids (sampling (info r)) with t :: _ => <[Z.to_nat (len o - len (slice_from o (-1)) + Z.of_nat i) := t]> o | [] => o end)
      | [] => match stop_token_ids (sampling (info r)) with t :: _ => <[Z.to_nat (len o - len (slice_from o (-1)) + Z.of_nat i) := t]> o | [] => o end
      end) = take (length o - 1) o).
  { intros i. specialize (Hoff (Z.of_nat i) ltac:(lia)). destruct (eos_token_ids _), (stop_token_ids _); rewrite ?take_insert_ge by lia; done. }
  destruct (ignore_eos _); [|destruct (list_find _ _) as [[i t]|]; [done|]];
    (destruct (list_find _ _) as [[i' t']|]; [cbn [out set_out output_ids]; apply Hv|]); by destruct (str r).
Qed.

Lemma logprobs_frame d r :
  let r' := append_logprobs d r in
  kvs r' = kvs r /\ info r' = info r /\ output_ids (out r') = output_ids (out r) /\ DllmReq.finished r' = DllmReq.finished r.
Proof. unfold append_logprobs. by destruct (negb (return_logprob (info r))). Qed.

Lemma zip_with_snd_fmap {A B C} (f : B -> C) (l : list A) (k : list B) : length l = length k -> zip_with (fun _ => f) l k = f <$> k.
Proof. revert l. induction k as [|y k IH]; intros [|x l] Hl; try done. cbn. f_equal. apply IH. by injection Hl. Qed.

Lemma zip_with_fst_fmap {A B C} (f : A -> C) (l : list A) (k : list B) : length l = length k -> zip_with (fun x _ => f x) l k = f <$> l.
Proof. revert l. induction k as [|y k IH]; intros [|x l] Hl; try done. cbn. f_equal. apply IH. by injection Hl. Qed.

Section turn.
Context `{!HeapQ} (time : nat -> Z) (strat : strategy) (dfi : bool) (masked : lanes) (oob : Z -> Z) (empty : Z -> list Z).
Context (str_finish : req -> option finish_reason) (grammar_terminated : req -> bool) (steps : Z) (decay min_ratio : Q).
Context (slots others : list Z) (other_rows other_locks : list nat).
Notation ok := (decode_ok slots others other_rows other_locks).
Notation process_one := (process_one time dfi false 1 str_finish grammar_terminated).
Notation process_all := (process_all time dfi false 1 str_finish grammar_terminated).

(** Replacing a request by one that holds the same. *)
Lemma ok_same_hold m q q' qs : same_hold q q' -> ok m (q :: qs) -> ok m (q' :: qs).
Proof.
  intros Hsh [Hs Hr Hl Hw Hwf Ht Hv]. pose proof (same_hold_own (req_to_token (rows m)) _ _ Hsh) as [Ho Hn].
  apply Forall_cons in Hv as [Hq Hv]. split; try done.
  - by rewrite bind_cons, Ho.
  - by rewrite fmap_cons, Hn.
  - by rewrite fmap_cons, (sh_node _ _ Hsh).
  - constructor; [by apply (same_hold_live _ _ q)|done].
Qed.

(** What a decode result does to a request. *)
Record stepped (d : decode_result) (q q' : cache_req) : Prop := {
  sd_info : info (creq q') = info (creq q);
  sd_prio : creq_priority q' = creq_priority q;
  sd_len : len (output_ids (out (creq q'))) = len (output_ids (out (creq q))) + 1;
  sd_take : take (length (output_ids (out (creq q)))) (output_ids (out (creq q'))) = output_ids (out (creq q));
  sd_going : going q' = true -> row_no q' = row_no q /\ kv_committed_len (kvs (creq q')) = kv_committed_len (kvs (creq q)) /\
    output_ids (out (creq q')) = output_ids (out (creq q)) ++ [dr_token d];
  sd_done : going q' = false -> req_pool_idx (kvs (creq q')) = None /\ kv_committed_freed (kvs (creq q')) = true /\ kv_overallocated_freed (kvs (creq q')) = true;
}.

(** The request with its token, before anything is released. *)
Lemma token_step d q width :
  forwarding width q -> going q = true ->
  let q1 := with_req q (check_finished str_finish grammar_terminated 1 (append_token (dr_token d) (creq q))) in
  same_hold q q1 /\ info (creq q1) = info (creq q) /\
  len (output_ids (out (creq q1))) = len (output_ids (out (creq q))) + 1 /\
  take (length (output_ids (out (creq q)))) (output_ids (out (creq q1))) = output_ids (out (creq q)) /\
  (q_finished q1 = false -> growing width q1 /\ output_ids (out (creq q1)) = output_ids (out (creq q)) ++ [dr_token d]).
Proof.
  intros [Hlag Ho Hw] Hgo q1. set (r1 := append_token (dr_token d) (creq q)) in *.
  destruct (check_finished_frame str_finish grammar_terminated 1 r1) as (Hk & Hi & _ & Hlen & Hgoing).
  assert (Ho1 : output_ids (out r1) = output_ids (out (creq q)) ++ [dr_token d]) by done.
  assert (Hl1 : len (output_ids (out (creq q1))) = len (output_ids (out (creq q))) + 1).
  { cbn [q1 with_req creq]. rewrite Hlen, Ho1, len_app. done. }
  assert (Htk : take (length (output_ids (out (creq q)))) (output_ids (out (creq q1))) = output_ids (out (creq q))).
  { pose proof (check_finished_take str_finish grammar_terminated r1) as Ht. rewrite Ho1 in Ht. specialize (Ht ltac:(by destruct (output_ids (out (creq q))))).
    cbn zeta in Ht. rewrite length_app in Ht. cbn [length] in Ht. rewrite Nat.add_sub, take_app_length in Ht. exact Ht. }
  split; [|split; [exact Hi|split; [done|split; [done|]]]].
  - split; try done.
    + unfold toks_of, all_ids. cbn [q1 with_req creq]. rewrite Hk, Hi. change (kvs r1) with (kvs (creq q)). change (info r1) with (info (creq q)).
      rewrite !slice_to_take by (rewrite Hlag; unfold seqlen, len; lia).
      assert (Hc : Z.to_nat (kv_committed_len (kvs (creq q))) =
        (length (origin_input_ids (info (creq q))) + length (output_ids (out (creq q))))%nat) by (rewrite Hlag; unfold seqlen, len; lia).
      rewrite Hc, !take_app_add. rewrite (take_ge (output_ids (out (creq q)))) by done. by f_equal.
    + unfold seqlen. cbn [q1 with_req creq]. rewrite Hi, Hlen, Ho1, len_app. change (info r1) with (info (creq q)).
      pose proof (len_nonneg [dr_token d]). lia.
  - intros Hf. destruct (Hgoing Hf) as [He Hlt]. assert (Hq1 : creq q1 = r1) by exact He. rewrite Hq1 in *. split; [|done].
    change (info r1) with (info (creq q)) in *. split; rewrite ?Hq1; change (info r1) with (info (creq q)); [|pose proof (len_nonneg (output_ids (out (creq q)))); lia|done].
    change (kvs r1) with (kvs (creq q)). unfold seqlen in *. rewrite Hl1, Hlag. change (info r1) with (info (creq q)). lia.
Qed.

(** The logprobs change nothing of that. *)
Lemma logprobs_hold d q : same_hold q (with_req q (append_logprobs d (creq q))).
Proof.
  destruct (logprobs_frame d (creq q)) as (Lk & Li & Lo & _).
  split; cbn [with_req creq]; try done; [unfold toks_of, all_ids|unfold seqlen]; cbn [with_req creq]; rewrite Li, Lo, ?Lk; done || lia.
Qed.

Lemma logprobs_going d q : going (with_req q (append_logprobs d (creq q))) = going q.
Proof. unfold going, q_finished. cbn [with_req creq]. destruct (logprobs_frame d (creq q)) as (_ & _ & _ & Lf). by rewrite Lf. Qed.

Lemma logprobs_growing width d q : growing width q -> growing width (with_req q (append_logprobs d (creq q))).
Proof.
  destruct (logprobs_frame d (creq q)) as (Lk & Li & Lo & _). intros [G1 G2 G3].
  split; cbn [with_req creq]; unfold seqlen in *; rewrite ?Lk, ?Li, ?Lo; done.
Qed.

(** A request that ends gives up what it holds. *)
Lemma finish_step d q qs m width :
  ok m (q :: qs) -> forwarding width q -> going q = true ->
  let q1 := with_req q (check_finished str_finish grammar_terminated 1 (append_token (dr_token d) (creq q))) in
  q_finished q1 = true ->
  exists q2 m', release_kv_cache time dfi false 1 true q1 m = Ok (q2, m') /\ moved m m' /\ ok m' qs /\
    let q' := with_req q2 (append_logprobs d (creq q2)) in stepped d q q' /\ going q' = false.
Proof.
  intros Hd Hfw Hgo q1 Hf. destruct (token_step d q _ Hfw Hgo) as (Hsh & Hi & Hl & Ht & _). fold q1 in Hsh, Hi, Hl, Ht.
  destruct (release_ok time dfi slots others other_rows other_locks true m q1 qs (ok_same_hold m q q1 qs Hsh Hd)) as (m' & Hrun & Hd' & Hgr & Hwd & _).
  exists (released q1), m'. split; [done|]. split; [by split|]. split; [done|].
  assert (Hgo' : going (with_req (released q1) (append_logprobs d (creq (released q1)))) = false).
  { rewrite logprobs_going. unfold going. change (q_finished (released q1)) with (q_finished q1). by rewrite Hf. }
  destruct (logprobs_frame d (creq (released q1))) as (Lk & Li & Lo & _). split; [|done].
  split; cbn [with_req creq]; rewrite ?Hgo', ?Li, ?Lo; try done. intros _. by rewrite Lk.
Qed.

Lemma decode_one_spec d q qs m :
  ok m (q :: qs) -> forwarding (max_context_len (rows m)) q -> going q = true ->
  exists q' m', process_one d q m = Ok (q', m') /\ moved m m' /\ stepped d q q' /\
    ok m' ((if going q' then [q'] else []) ++ qs) /\ (going q' = true -> growing (max_context_len (rows m)) q').
Proof.
  intros Hd Hfw Hgo. unfold Decode.process_one. cbn zeta.
  destruct (token_step d q _ Hfw Hgo) as (Hsh & Hi & Hl & Ht & Hg). pose proof (finish_step d q qs m _ Hd Hfw Hgo) as Hfin.
  set (q1 := with_req q _) in *. destruct (q_finished q1) eqn:Hf.
  - destruct (Hfin Hf) as (q2 & m' & Hrun & Hm & Hd' & Hst & Hgo'). rewrite Hrun. step_ok. eexists _, m'. split; [reflexivity|].
    by rewrite Hgo'.
  - step_ok. destruct (Hg eq_refl) as [Hgw Hout]. pose proof (logprobs_hold d q1) as Hsh2. eexists _, m. split; [reflexivity|].
    set (q2 := with_req q1 _) in *. assert (Hgo' : going q2 = true) by (unfold q2; rewrite logprobs_going; unfold going; by rewrite Hf).
    rewrite Hgo'. split; [by split|]. destruct (logprobs_frame d (creq q1)) as (Lk & Li & Lo & _).
    split; [|split; [apply (ok_same_hold m q1); [done|]; by apply (ok_same_hold m q)|intros _; by apply logprobs_growing]].
    split; cbn [q2 with_req creq]; rewrite ?Li, ?Lo, ?Lk; try done; [|by rewrite Hgo']. intros _. split; [|by rewrite (sh_kvs _ _ Hsh)].
    unfold row_no, pool_idx. cbn [q2 with_req creq]. by rewrite Lk, (sh_kvs _ _ Hsh).
Qed.

(** ** The result of a forward *)

Lemma decode_all_spec W : forall qs ds m dn,
  ok m (qs ++ dn) -> max_context_len (rows m) = W -> Forall (forwarding W) qs -> Forall (fun q => going q = true) qs ->
  length ds = length qs ->
  exists qs' m', process_all ds qs m = Ok (qs', m') /\ moved m m' /\
    Forall2 (fun dq q' => stepped (fst dq) (snd dq) q') (zip ds qs) qs' /\
    ok m' (filter (fun q => going q = true) qs' ++ dn) /\ Forall (growing W) (filter (fun q => going q = true) qs').
Proof.
  induction qs as [|q qs IH]; intros ds m dn Hd HW Hfw Hgo Hl.
  { exists [], m. split; [by destruct ds|]. split; [by split|]. destruct ds; [|done]. by split. }
  destruct ds as [|d ds]; [done|]. apply Forall_cons in Hfw as [Hfq Hfw], Hgo as [Hgq Hgo]. cbn [Decode.process_all].
  destruct (decode_one_spec d q (qs ++ dn) m Hd ltac:(by rewrite HW) Hgq) as (q' & m1 & Hrun & Hm1 & Hst & Hd1 & Hg1). rewrite HW in Hg1.
  rewrite Hrun. step_ok.
  destruct (IH ds m1 ((if going q' then [q'] else []) ++ dn)) as (qs' & m2 & Hrun2 & Hm2 & Hst2 & Hd2 & Hg2); try done.
  - assert (Hp : qs ++ (if going q' then [q'] else []) ++ dn ≡ₚ (if going q' then [q'] else []) ++ qs ++ dn) by solve_Permutation.
    by rewrite Hp.
  - by rewrite (mv_width _ _ Hm1).
  - cbn in Hl. lia.
  - rewrite Hrun2. step_ok. exists (q' :: qs'), m2. split; [done|].
    split; [destruct Hm1, Hm2; split; congruence|]. split; [by constructor|]. rewrite filter_cons. destruct (going q') eqn:Hgq'.
    + rewrite decide_True by done. split; [|constructor; [by apply Hg1|done]]. cbn [app] in *.
      assert (Hp : q' :: filter (fun q => going q = true) qs' ++ dn ≡ₚ filter (fun q => going q = true) qs' ++ q' :: dn) by solve_Permutation.
      by rewrite Hp.
    + by rewrite decide_False.
Qed.

Lemma group_begin_ok m qs : ok m qs -> is_not_in_free_group (kv m) = true ->
  ok (Mem (free_group_begin (kv m)) (rows m) (tree m)) qs.
Proof.
  intros [Hs Hr Hl Hw Hwf Ht Hv] Hg. split; cbn [kv rows tree]; try done. rewrite <- Hs. unfold Token.pool. cbn. by rewrite Hg.
Qed.

Lemma group_end_ok m qs : ok m qs -> is_not_in_free_group (kv m) = false ->
  ok (Mem (Token.free_group_end (kv m)) (rows m) (tree m)) qs /\ is_not_in_free_group (Token.free_group_end (kv m)) = true.
Proof.
  intros [Hs Hr Hl Hw Hwf Ht Hv] Hg. split.
  - split; cbn [kv rows tree]; try done; [by rewrite Token.group_end_pool|by apply Token.group_end_wf].
  - unfold Token.free_group_end. case_bool_decide; [done|]. by rewrite Token.free_group_flag.
Qed.

(** ** Updating the batch *)

Lemma going_fmap {A} (f : cache_req -> A) qs l :
  Forall2 (fun q x => q_finished q = false -> x = f q) qs l -> Forall (fun q => going q = true) qs -> l = f <$> qs.
Proof.
  induction 1 as [|q x qs l Hx Hf IH]; intros Hg; [done|]. apply Forall_cons in Hg as [Hq Hg]. rewrite fmap_cons. f_equal; [|by apply IH].
  apply Hx. unfold going in Hq. by destruct (q_finished q).
Qed.

Lemma aligned_going b :
  aligned b -> Forall (fun q => going q = true) (reqs b) ->
  req_pool_indices b = row_no <$> reqs b /\ seq_lens b = (fun q => kv_committed_len (kvs (creq q))) <$> reqs b.
Proof. intros [Hi Hn _ _ _ _] Hg. split; by apply going_fmap. Qed.

(** The batch that goes into the forward: one more slot per request, recorded at
    the position of the token that is fed. *)
Record prepared (b : batch) (m : mem radix) (b' : batch) (m' : mem radix) : Prop := {
  pd_reqs : reqs b' = advance <$> reqs b;
  pd_ok : ok m' (advance <$> reqs b);
  pd_group : is_not_in_free_group (kv m') = true;
  pd_dims : dims (rows m') = dims (rows m);
  pd_aligned : aligned b';
  pd_input : input_ids b' = next_ids b /\ next_ids b' = None;
  pd_slots : exists loc, out_cache_loc b' = Some loc /\ length loc = length (reqs b) /\
    Token.pool (kv m) ≡ₚ loc ++ Token.pool (kv m') /\
    forall k q v, reqs b !! k = Some q -> loc !! k = Some v -> row_of (req_to_token (rows m')) q !! commit q = Some v;
}.

Lemma prepare_run b m :
  aligned b -> Forall (fun q => going q = true) (reqs b) -> ok m (reqs b) -> is_not_in_free_group (kv m) = true ->
  len (reqs b) <= len (Token.pool (kv m)) -> Forall (growing (max_context_len (rows m))) (reqs b) ->
  exists b' m', prepare_for_decode strat 1 masked oob empty b m = Ok (b', m') /\ prepared b m b' m'.
Proof.
  intros Hal Hgo Hd Hg Hroom Hgr. destruct (aligned_going b Hal Hgo) as [Hidx Hlens].
  assert (Hgrow : Forall (fun q => kv_committed_len (kvs (creq q)) < seqlen (creq q) /\
      kv_committed_len (kvs (creq q)) < Z.of_nat (max_context_len (rows m))) (reqs b)).
  { eapply Forall_impl; [exact Hgr|]. intros q [Hlag Ho Hw]. unfold seqlen in *. lia. }
  destruct (alloc_ok strat masked oob empty slots others other_rows other_locks b m (reqs b) Hd Hidx Hlens Hg Hroom Hgrow)
    as (loc & m' & Hrun & Hll & Hd' & Hg' & Hw' & Hp' & Hrow).
  unfold prepare_for_decode. rewrite Hrun. step_ok. do 2 eexists. split; [reflexivity|]. split; cbn [reqs input_ids next_ids out_cache_loc]; try done.
  - pose proof (Forall2_length _ _ _ (al_lens _ Hal)) as Hln. destruct Hal as [_ _ Hs _ Ha Ht].
    split; cbn [reqs req_pool_indices seq_lens seq_lens_sum next_ids any_logprob top_logprobs_nums]; try done.
    + rewrite Hidx. clear. induction (reqs b); constructor; done.
    + rewrite Hlens, <- list_fmap_compose. clear. induction (reqs b); constructor; [|done]. intros _. cbn. lia.
    + rewrite Hs, Hln. unfold Decode.sum. clear. induction (seq_lens b) as [|x l IH]; cbn; [done|]. cbn in IH. lia.
    + rewrite Ha. clear. induction (reqs b) as [|q l IH]; [done|]. cbn in *. by rewrite IH.
    + intros Hany. destruct (Ht Hany) as (l & -> & Hl). exists l. split; [done|]. by rewrite length_fmap.
  - exists loc. do 3 (split; [done|]). intros k q v Hq Hv. rewrite (Hrow k q v Hq Hv). apply list_lookup_insert_eq.
    pose proof (d_live _ _ _ _ _ _ Hd) as Hlv. rewrite Forall_forall in Hlv, Hgr.
    assert (Hqin : q ∈ reqs b) by (by eapply list_elem_of_lookup_2). pose proof (lv_row _ _ _ (Hlv q Hqin)) as Hr.
    rewrite (d_width _ _ _ _ _ _ Hd _ _ Hr). destruct (Hgr q Hqin) as [Hlag Ho Hw]. unfold commit, seqlen in *.
    pose proof (len_nonneg (origin_input_ids (info (creq q)))). lia.
Qed.

Notation update_running_batch := (update_running_batch time strat dfi false 1 masked oob empty steps decay min_ratio).

(** The state between turns. *)
Record turn_ok (W : nat) (s : ar_sched) : Prop := {
  tn_ok : ok (armem s) (filter (fun q => going q = true) (reqs (running s)));
  tn_group : is_not_in_free_group (kv (armem s)) = true;
  tn_width : max_context_len (rows (armem s)) = W;
  tn_aligned : reqs (running s) = [] \/ aligned (running s);
  tn_grow : Forall (growing W) (filter (fun q => going q = true) (reqs (running s)));
}.

(** What the update does: [kept] decode, [gone] wait again. *)
Record updated (W : nat) (s s' : ar_sched) (kept gone aborted : list cache_req) : Prop := {
  up_all : filter (fun q => going q = true) (reqs (running s)) ≡ₚ kept ++ gone ++ aborted;
  up_abort : aborted = [] \/ kept = [] /\ exists q, aborted = [q];
  up_order g k : g ∈ gone -> k ∈ kept ++ aborted -> key_gt (retract_key g) (retract_key k) = false;
  up_waiting : waiting s' = waiting s ++ (taken_back <$> gone);
  up_reqs : reqs (running s') = advance <$> kept;
  up_ok : ok (armem s') (advance <$> kept);
  up_group : is_not_in_free_group (kv (armem s')) = true;
  up_width : max_context_len (rows (armem s')) = W;
  up_size : pool_size (rows (armem s')) = pool_size (rows (armem s));
  up_ratio : new_token_ratio s' = new_token_ratio s \/ new_token_ratio s' = Qmax2 (new_token_ratio s - decay) min_ratio \/
    new_token_ratio s' = new_estimate_ratio steps kept;
  up_full : kept = [] -> batch_is_full (running s') = false;
  up_batch : kept = [] \/ aligned (running s') /\ exists b m, reqs b = kept /\ prepared b m (running s') (armem s');
  up_short q : q ∈ aborted -> crowded slots others other_rows other_locks q;
}.

Lemma start_batch W s : turn_ok W s ->
  exists b, filter_batch [] None (running s) = Ok b /\ reqs b = filter (fun q => going q = true) (reqs (running s)) /\
    (reqs b = [] \/ aligned b).
Proof.
  intros [_ _ _ [He|Hal] _].
  - exists (set_reqs (running s) []). unfold filter_batch, kept_indices. rewrite He. cbn. split; [done|]. split; [done|by left].
  - destruct (filter_unfinished _ Hal) as (b & Hrun & Hr & Ha & _). by exists b.
Qed.

(** Room for the batch, whether or not somebody has to go. *)
Lemma room_for b m ratio :
  aligned b -> reqs b <> [] -> ok m (reqs b) -> is_not_in_free_group (kv m) = true ->
  exists enough m1 b2 m2 gone aborted r,
    check_decode_mem strat 1 (seq 0 (length (reqs b))) b m = Ok (enough, m1) /\
    (if enough : bool then Ok (b, m1, [], ratio)
     else '(b, m, retracted, ratio, _) ← retract_decode time strat dfi false 1 steps b m1; Ok (b, m, retracted, ratio))
    = Ok (b2, m2, taken_back <$> gone, r) /\ (r = ratio \/ r = new_estimate_ratio steps (reqs b2)) /\ made_room slots others other_rows other_locks b m b2 m2 gone aborted.
Proof.
  intros Hal Hne Hd Hg. destruct (check_ok strat slots others other_rows other_locks (seq 0 (length (reqs b))) b m (reqs b)
    ltac:(intros k Hk%elem_of_seq; lia) Hd Hg) as (m1 & Hck & Hd1 & Hf1 & _). pose proof (frame_moved _ _ Hf1) as Hm1. rewrite length_seq in Hck.
  destruct (Z.leb_spec (Z.of_nat (length (reqs b))) (len (Token.pool (kv m1)))) as [Hfit|_].
  - exists true, m1, b, m1, [], [], ratio. split; [done|]. split; [done|]. split; [by left|].
    split; try done; [by rewrite app_nil_r|by left|by intros g k ?%not_elem_of_nil|by right|by intros q ?%not_elem_of_nil].
  - destruct (retract_run time strat dfi steps slots others other_rows other_locks b m1 Hal Hne Hd1 ltac:(by rewrite (mv_group _ _ Hm1)))
      as (b2 & m2 & gone & aborted & [M1 M2 M3 M4 M5 M6 M7 M8 M9] & _ & Hrun).
    exists false, m1, b2, m2, gone, aborted, (new_estimate_ratio steps (reqs b2)). split; [done|]. rewrite Hrun. split; [done|].
    split; [by right|]. split; try done. destruct Hm1, M3. split; congruence.
Qed.

Lemma update_run W s : turn_ok W s ->
  exists s' kept gone aborted, update_running_batch s = Ok s' /\ updated W s s' kept gone aborted.
Proof.
  intros Hs. destruct (start_batch W s Hs) as (b & Hfil & Hr & Hal). destruct Hs as [Hd Hg HW _ Hgr]. rewrite <- Hr in Hd, Hgr.
  unfold Decode.update_running_batch. rewrite Hfil. step_ok. case_bool_decide as He.
  { eexists _, [], [], []. split; [reflexivity|]. split; cbn [running waiting armem reqs set_full]; try done.
    - by rewrite <- Hr, He.
    - by left.
    - by intros g k ?%not_elem_of_nil.
    - by rewrite app_nil_r.
    - by rewrite He in Hd.
    - by left.
    - by left.
    - by intros q ?%not_elem_of_nil. }
  destruct Hal as [?|Hal]; [done|].
  destruct (room_for b (armem s) (Qmax2 (new_token_ratio s - decay) min_ratio) Hal He Hd Hg)
    as (enough & m1 & b2 & m2 & gone & aborted & r & Hck & Hroom & Hrat & [M1 M2 M3 M4 M5 M6 M7 M8 M9]).
  rewrite Hck. step_ok. rewrite Hroom. step_ok. set (b3 := if (_ <? _)%nat then set_full b2 false else b2).
  assert (H3 : reqs b3 = reqs b2 /\ (aligned b2 -> aligned b3)).
  { subst b3. destruct (_ <? _)%nat; [|done]. split; [done|]. intros [A1 A2 A3 A4 A5 A6]. by split. }
  destruct H3 as [Hr3 Ha3]. assert (Hw2 : max_context_len (rows m2) = W) by (by rewrite (mv_width _ _ M3)).
  assert (Hg2 : is_not_in_free_group (kv m2) = true) by (by rewrite (mv_group _ _ M3)).
  assert (Hsub : forall q, q ∈ reqs b3 -> q ∈ reqs b) by (intros q Hq; rewrite M1, <- Hr3; apply elem_of_app; by left).
  case_bool_decide as He3.
  { eexists _, [], gone, aborted. split; [reflexivity|]. rewrite Hr3 in He3. rewrite He3 in *.
    split; cbn [running waiting armem new_token_ratio]; try done; [by rewrite <- Hr|by apply mv_size| | |by left].
    - right. by destruct Hrat as [->| ->]; [left|right].
    - intros _. subst b3. rewrite He3. pose proof (length_filter (fun q => going q = true) (reqs (running s))) as Hlen. rewrite <- Hr in Hlen.
      destruct (reqs b) as [|q l]; [done|]. destruct (reqs (running s)); [cbn in Hlen; lia|done]. }
  assert (Ha : aligned b3) by (destruct M7 as [?|?]; [congruence|by apply Ha3]). rewrite <- Hr3 in *.
  assert (Hgo3 : Forall (fun q => going q = true) (reqs b3)).
  { apply Forall_forall. intros q Hq%Hsub. rewrite Hr in Hq. by apply list_elem_of_filter in Hq as [? _]. }
  assert (Hgr3 : Forall (growing (max_context_len (rows m2))) (reqs b3)).
  { apply Forall_forall. intros q Hq%Hsub. rewrite Hw2. rewrite Forall_forall in Hgr. by apply Hgr. }
  destruct (prepare_run b3 m2 Ha Hgo3 M2 Hg2 M4 Hgr3) as (b4 & m4 & Hrun & Hp). rewrite Hrun. step_ok.
  pose proof Hp as [P1 P2 P3 P4 P5 _ _]. eexists _, (reqs b3), gone, aborted. split; [reflexivity|].
  split; cbn [running waiting armem new_token_ratio]; try done; [by rewrite <- Hr|rewrite <- Hw2; exact (f_equal fst P4)|rewrite <- (mv_size _ _ M3); exact (f_equal snd P4)| |].
  - right. by destruct Hrat as [->| ->]; [left|right].
  - right. split; [done|]. by exists b3, m2.
Qed.

(** ** A turn *)

Notation decode_turn := (decode_turn time strat dfi false 1 masked oob empty str_finish grammar_terminated steps decay min_ratio).

Lemma stepped_zip {A} (P : cache_req -> A -> Prop) (f : decode_result -> cache_req -> A) ds qs qs' :
  length ds = length qs -> Forall2 (fun dq q' => stepped (fst dq) (snd dq) q') (zip ds qs) qs' ->
  (forall d q q', q ∈ qs -> stepped d q q' -> P q' (f d q)) -> Forall2 P qs' (zip_with f ds qs).
Proof.
  revert ds qs'. induction qs as [|q qs IH]; intros [|d ds] qs' Hl Hf HP; try done; cbn in Hf.
  - apply Forall2_nil_inv_l in Hf as ->. constructor.
  - apply Forall2_cons_inv_l in Hf as (q' & qs1 & Hq & Hf & ->). cbn [zip_with]. constructor; [apply HP; [by left|done]|].
    apply IH; [cbn in Hl; lia|done|]. intros d0 q0 q0' Hq0. apply HP. by right.
Qed.

(** The tensors still fit the requests once the tokens are in. *)
Lemma process_aligned b ds qs' :
  aligned b -> Forall (fun q => going q = true) (reqs b) -> length ds = length (reqs b) ->
  Forall2 (fun dq q' => stepped (fst dq) (snd dq) q') (zip ds (reqs b)) qs' ->
  aligned (set_reqs (set_next_ids b (dr_token <$> ds)) qs').
Proof.
  intros Hal Hgo Hl Hf. destruct (aligned_going b Hal Hgo) as [Hidx Hlens]. destruct Hal as [_ _ Hs _ Ha Ht].
  assert (Hlq : length qs' = length (reqs b)).
  { apply Forall2_length in Hf. rewrite length_zip_with in Hf. lia. }
  split; cbn [set_reqs set_next_ids reqs req_pool_indices seq_lens seq_lens_sum next_ids any_logprob top_logprobs_nums]; try done.
  - rewrite Hidx, <- (zip_with_snd_fmap row_no ds (reqs b)) by done. apply (stepped_zip _ _ ds (reqs b)); [done|done|].
    intros d q q' _ Hst Hgo'. destruct (sd_going _ _ _ Hst) as [Hrow _]; [unfold going; by rewrite Hgo'|]. done.
  - rewrite Hlens, <- (zip_with_snd_fmap (fun q => kv_committed_len (kvs (creq q))) ds (reqs b)) by done.
    apply (stepped_zip _ _ ds (reqs b)); [done|done|].
    intros d q q' _ Hst Hgo'. destruct (sd_going _ _ _ Hst) as (_ & Hcm & _); [unfold going; by rewrite Hgo'|]. done.
  - intros l [= <-]. rewrite <- (zip_with_fst_fmap dr_token ds (reqs b)) by done. apply (stepped_zip _ _ ds (reqs b)); [done|done|].
    intros d q q' _ Hst Hgo'. destruct (sd_going _ _ _ Hst) as (_ & _ & Ho); [unfold going; by rewrite Hgo'|]. by rewrite Ho, last_snoc.
  - rewrite Ha. clear Ha Ht Hs Hidx Hlens Hgo Hlq. revert ds qs' Hl Hf. induction (reqs b) as [|q qs IH]; intros [|d ds] qs' Hl Hf; try done; cbn in Hf.
    + by apply Forall2_nil_inv_l in Hf as ->.
    + apply Forall2_cons_inv_l in Hf as (q' & qs1 & Hq & Hf & ->). cbn [existsb]. cbn in Hq. rewrite (sd_info _ _ _ Hq).
      f_equal. apply (IH ds); [cbn in Hl; lia|done].
  - intros Hany. destruct (Ht Hany) as (l & -> & Hll). exists l. split; [done|]. by rewrite Hlq.
Qed.

Lemma turn_run W sample s :
  turn_ok W s -> (forall b, length (sample b) = length (reqs b)) ->
  exists s1 s' kept gone aborted, update_running_batch s = Ok s1 /\ updated W s s1 kept gone aborted /\
    decode_turn sample s = Ok s' /\ turn_ok W s' /\ waiting s' = waiting s1 /\ new_token_ratio s' = new_token_ratio s1 /\
    (reqs (running s') = [] \/ is_Some (next_ids (running s'))) /\ (reqs (running s') = [] -> batch_is_full (running s') = false) /\ pool_size (rows (armem s')) = pool_size (rows (armem s)) /\
    Forall2 (fun dq q' => stepped (fst dq) (snd dq) q') (zip (if decide (kept = []) then [] else sample (running s1)) (advance <$> kept)) (reqs (running s')).
Proof.
  intros Hs Hsm. destruct (update_run W s Hs) as (s1 & kept & gone & aborted & Hup & Hu). pose proof Hu as [U1 _ _ U4 U5 U6 U7 U8 U8' _ Uf U9 _].
  unfold Decode.decode_turn. rewrite Hup. step_ok. rewrite U5. case_bool_decide as He.
  { apply fmap_nil_inv in He. subst kept. exists s1, s1, [], gone, aborted. do 3 (split; [done|]). cbn [fmap list_fmap] in *.
    split; [|split; [done|split; [done|split; [by left|split; [by intros _; apply Uf|split; [done|]]]]]]; [|rewrite U5; constructor]. split; rewrite ?U5; try done; by left. }
  assert (Hk : kept <> []) by (by intros ->). destruct U9 as [?|[Hal _]]; [done|].
  set (ds := sample (running s1)). specialize (Hsm (running s1)). fold ds in Hsm. unfold process_batch_result_decode.
  cbn [set_next_ids reqs]. pose proof (tn_grow _ _ Hs) as Hgr. rewrite U1 in Hgr. apply Forall_app in Hgr as [Hgr _].
  assert (Hgok : forall q, q ∈ kept -> going q = true).
  { intros q Hq. assert (Hin : q ∈ filter (fun q => going q = true) (reqs (running s))) by (rewrite U1; apply elem_of_app; by left).
    by apply list_elem_of_filter in Hin as [? _]. }
  assert (Hgo : Forall (fun q => going q = true) (reqs (running s1))).
  { rewrite U5. apply Forall_fmap, Forall_forall. intros q Hq. exact (Hgok q Hq). }
  assert (Hfw : Forall (forwarding W) (reqs (running s1))).
  { rewrite U5. apply Forall_fmap. eapply Forall_impl; [exact Hgr|]. intros q Hq. by apply advance_forwarding. }
  rewrite <- U5 in U6.
  destruct (decode_all_spec W (reqs (running s1)) ds (Mem (free_group_begin (kv (armem s1))) (rows (armem s1)) (tree (armem s1))) []
    ltac:(rewrite app_nil_r; by apply group_begin_ok) U8 Hfw Hgo Hsm) as (qs' & m' & Hrun & Hm & Hst & Hd & Hgr').
  rewrite Hrun. step_ok. change (1 =? 1) with true. cbn match. rewrite app_nil_r in Hd.
  destruct (group_end_ok m' _ Hd ltac:(by rewrite (mv_group _ _ Hm))) as [Hd' Hg'].
  eexists s1, _, kept, gone, aborted. split; [done|]. split; [done|]. split; [reflexivity|]. rewrite decide_False by done. rewrite <- U5.
  split; [|split; [done|split; [done|split; [by right|split; [|split; [|exact Hst]]]]]]; [|cbn; intros ->; apply Forall2_length in Hst; rewrite length_zip_with in Hst; rewrite <- U5 in He; destruct (reqs (running s1)); [done|cbn in Hst, Hsm; lia]|cbn [armem rows]; rewrite (mv_size _ _ Hm); exact U8'].
  split; cbn [running armem reqs set_reqs rows]; try done.
  - by rewrite (mv_width _ _ Hm).
  - right. by apply process_aligned.
Qed.

(** A turn of the decode loop never raises, whatever is sampled: the memory
    check before it guarantees the slots the forward needs, so that "decode out
    of memory" cannot happen, and every assertion on the way holds.  Afterwards
    every KV slot and every row is again free, cached, or recorded for exactly
    one unfinished request, with the locks of the unfinished requests, and only
    theirs, on the tree. *)
Theorem decode_turn_safe W sample s :
  turn_ok W s -> (forall b, length (sample b) = length (reqs b)) ->
  exists s', decode_turn sample s = Ok s' /\ turn_ok W s'.
Proof.
  intros Hs Hsm. destruct (turn_run W sample s Hs Hsm) as (s1 & s' & kept & gone & aborted & _ & _ & Hrun & Hok & _). by exists s'.
Qed.

(** What a turn does to each request: it is kept and its output grows by one
    token, the sampled one while it goes on; or it goes back to the waiting
    queue with its output and without memory; or, when it is the only one and
    does not fit alone, it is aborted.  No request that is retracted has more
    output than one that is kept. *)
Theorem decode_turn_accounts W sample s :
  turn_ok W s -> (forall b, length (sample b) = length (reqs b)) ->
  exists s' kept gone aborted ds, decode_turn sample s = Ok s' /\
    filter (fun q => going q = true) (reqs (running s)) ≡ₚ kept ++ gone ++ aborted /\
    Forall2 (fun dq q' => stepped (fst dq) (snd dq) q') (zip ds (advance <$> kept)) (reqs (running s')) /\
    length (reqs (running s')) = length kept /\
    waiting s' = waiting s ++ (taken_back <$> gone) /\
    (forall r, r ∈ taken_back <$> gone -> req_pool_idx (kvs (creq r)) = None /\ kv_committed_len (kvs (creq r)) = 0) /\
    (aborted = [] \/ kept = [] /\ exists q, aborted = [q]) /\
    (forall g k, g ∈ gone -> k ∈ kept -> len (output_ids (out (creq g))) <= len (output_ids (out (creq k)))).
Proof.
  intros Hs Hsm. destruct (turn_run W sample s Hs Hsm) as (s1 & s' & kept & gone & aborted & _ & [U1 U2 U3 U4 U5 _ _ _ _ _ _ _ _] & Hrun & _ & Hw & _ & _ & _ & _ & Hst).
  exists s', kept, gone, aborted, (if decide (kept = []) then [] else sample (running s1)). do 3 (split; [done|]). split; [|split; [by rewrite Hw|split; [|split; [done|]]]].
  - apply Forall2_length in Hst. rewrite <- Hst, length_zip_with, length_fmap. case_decide as Hk; [by subst|].
    rewrite Hsm, U5, length_fmap. lia.
  - intros r (q & -> & _)%list_elem_of_fmap. done.
  - intros g k Hg Hk. specialize (U3 g k Hg ltac:(apply elem_of_app; by left)). unfold key_gt, pair_lt, retract_key in U3. cbn [fst snd] in U3.
    apply orb_false_iff in U3 as [U3 _]. apply Z.ltb_ge in U3. done.
Qed.
End turn.
