(* ===== verification/Preempt.v ===== *)
(** * Preempting running requests

    PrefillAdder.preempt_to_schedule of managers/schedule_policy.py, on the
    decode batch: running requests of a lower priority are released, the least
    important and latest first, when that gives a new request enough room. *)

From S2P Require Import Prelude Allocator DllmReq MemCommon RadixKey RadixCache RadixCacheProofs RadixCacheTheorems RadixCacheRequests StableSort DecodeBatch DecodeMemory DecodeRetract.
From Stdlib Require Import QArith Lqa.
Import Radix Decode.
#[local] Open Scope Z_scope.

Section preempt.
Context `{!HeapQ} (time : nat -> Z) (strat : strategy) (dfi : bool) (page_size steps : Z).
(** CLIP_MAX_NEW_TOKENS, the estimate of how much of it is used, the sign of
    priorities, and the least difference that justifies a preemption. *)
Context (CLIP_MAX_NEW_TOKENS : Z) (new_token_ratio : Q) (schedule_low_priority_values_first : bool)
  (priority_scheduling_preemption_threshold : Z).
(** When a request entered the queue, and the order Python iterates a set in. *)
Context (wait_queue_entry_time : cache_req -> Z) (set_order : list cache_req -> list cache_req).

Definition priority_sign : Z := if schedule_low_priority_values_first then 1 else -1.

(** _get_running_request_total_token_offset *)
Definition running_offset (q : cache_req) : Q :=
  let r := creq q in
  (inject_Z (Z.min (max_new_tokens (sampling (info r)) - len (output_ids (out r))) CLIP_MAX_NEW_TOKENS) * new_token_ratio)%Q.

Definition valid_running (preempt_list : list cache_req) (b : batch) : list cache_req :=
  filter (fun q => bool_decide (q_rid q ∉ q_rid <$> preempt_list) && negb (q_finished q) = true) (reqs b).

Definition sorted_valid_running (preempt_list : list cache_req) (b : batch) : res (list cache_req) :=
  sort_keyed (pair_lt Z.ltb Z.ltb) (fun q =>
      p ← of_option TypeError (creq_priority q);
      Ok (p * - priority_sign, - wait_queue_entry_time q)) (valid_running preempt_list b).

(** The loop that collects preemptible requests. *)
Fixpoint choose (priority : Z) (need : Q) (l preemptible : list cache_req) : res (list cache_req * Q) :=
  match l with
  | [] => Ok (preemptible, need)
  | q :: l =>
      p ← of_option TypeError (creq_priority q);
      if priority_scheduling_preemption_threshold <? (priority - p) * - priority_sign then
        let need := (need - running_offset q)%Q in
        if Qle_bool need 0 then Ok (preemptible ++ [q], need)
        else choose priority need l (preemptible ++ [q])
      else Ok (preemptible, need)
  end.

(** The loop that releases them; [counter] is release_counter.  The indices that
    stay, and the requests after their release. *)
Fixpoint release_chosen (chosen : list Z) (idxs : list nat) (counter : Z) (offset : Q) (b : batch) (m : mem radix)
    : res (list nat * list cache_req * Q * mem radix) :=
  match idxs with
  | [] => Ok ([], [], offset, m)
  | i :: idxs =>
      q ← of_option IndexError (reqs b !! i);
      if bool_decide (q_rid q ∈ chosen) then
        '(q', m) ← release_req time strat dfi false page_size steps i (Z.of_nat (length (reqs b)) - (counter + 1)) b m;
        '(keep, released, offset, m) ← release_chosen chosen idxs (counter + 1) (offset - running_offset q)%Q b m;
        Ok (keep, q' :: released, offset, m)
      else
        '(keep, released, offset, m) ← release_chosen chosen idxs counter offset b m;
        Ok (i :: keep, released, offset, m)
  end.

(** [avail] is what the allocator and the tree report, [offset] is
    rem_total_token_offset.  The preempted requests are those added to the
    list. *)
Definition preempt_to_schedule (avail : Z) (r : req) (priority : option Z) (offset : Q) (preempt_list : list cache_req)
    (b : batch) (m : mem radix) : res (bool * Q * list cache_req * batch * mem radix) :=
  l ← sorted_valid_running preempt_list b;
  let need := (inject_Z (extend_input_len (inp r) + Z.min (max_new_tokens (sampling (info r))) CLIP_MAX_NEW_TOKENS)
               - (inject_Z avail - offset))%Q in
  '(preemptible, need) ← match l with
                         | [] => Ok ([], need)
                         | _ => p ← of_option TypeError priority; choose p need l []
                         end;
  if bool_decide (preemptible = []) || negb (Qle_bool need 0) then Ok (false, offset, preempt_list, b, m) else
  '(keep, released, offset, m) ← release_chosen (q_rid <$> preemptible) (seq 0 (length (reqs b))) 0 offset b m;
  b ← filter_batch [] (Some keep) b;
  Ok (true, offset, preempt_list ++ set_order released, b, m).

(** ** Choosing *)

Definition total_offset (l : list cache_req) : Q := foldr (fun q x => running_offset q + x)%Q 0%Q l.

Definition prio (q : cache_req) : Z := default 0 (creq_priority q).

(** Whether [q] may make way for a request of priority [p]. *)
Definition may_go (p : Z) (q : cache_req) : Prop :=
  priority_scheduling_preemption_threshold < (p - prio q) * - priority_sign.

(** The requests taken from the front of [l], and why the loop stopped. *)
Lemma choose_spec p l : forall need acc,
  (forall q, q ∈ l -> is_Some (creq_priority q)) ->
  exists taken rest need', l = taken ++ rest /\ choose p need l acc = Ok (acc ++ taken, need') /\
    (need' == need - total_offset taken)%Q /\ Forall (may_go p) taken /\
    (forall ini q, taken = ini ++ [q] -> ini <> [] -> (0 < need - total_offset ini)%Q) /\
    (taken <> [] /\ (need' <= 0)%Q \/ rest = [] \/ exists q rest', rest = q :: rest' /\ ~ may_go p q).
Proof.
  induction l as [|q l IH]; intros need acc Hp.
  { exists [], [], need. rewrite (app_nil_r acc). split; [done|]. split; [done|]. split; [cbn; ring|]. split; [done|].
    split; [by intros [|? ?] ? ?|]. right. by left. }
  destruct (Hp q ltac:(by left)) as [pq Hpq]. cbn [choose]. rewrite Hpq. cbn [of_option]. step_ok.
  assert (Hmay : may_go p q <-> priority_scheduling_preemption_threshold < (p - pq) * - priority_sign).
  { unfold may_go, prio. by rewrite Hpq. }
  destruct (Z.ltb_spec priority_scheduling_preemption_threshold ((p - pq) * - priority_sign)) as [Hlt|Hge].
  2:{ exists [], (q :: l), need. rewrite (app_nil_r acc). split; [done|]. split; [done|]. split; [cbn; ring|]. split; [done|].
      split; [by intros [|? ?] ? ?|]. right. right. exists q, l. split; [done|]. rewrite Hmay. lia. }
  destruct (Qle_bool (need - running_offset q) 0) eqn:Hq.
  { exists [q], l, (need - running_offset q)%Q. split; [done|]. split; [done|]. split; [cbn; ring|].
    split; [constructor; [by apply Hmay|done]|]. split; [|left; split; [done|by apply Qle_bool_iff]].
    intros ini x Ht Hne. destruct ini as [|? ini]; [done|]. by destruct ini. }
  destruct (IH (need - running_offset q)%Q (acc ++ [q]) ltac:(intros; apply Hp; by right))
    as (taken & rest & need' & -> & Hrun & He & Hf & Hmin & Hstop).
  exists (q :: taken), rest, need'. split; [done|]. split; [by rewrite Hrun, <- app_assoc|].
  split; [rewrite He; unfold total_offset; cbn [foldr]; ring|]. split; [constructor; [by apply Hmay|done]|]. split.
  - intros ini x Ht Hne. destruct ini as [|y ini]; [done|]. injection Ht as <- Ht. cbn [total_offset foldr].
    destruct ini as [|y ini]; cbn [foldr].
    + assert (Hlt0 : (0 < need - running_offset q)%Q); [|lra].
      destruct (Qlt_le_dec 0 (need - running_offset q)) as [?|Hc]; [done|]. apply Qle_bool_iff in Hc. congruence.
    + specialize (Hmin (y :: ini) x Ht ltac:(done)). cbn [total_offset foldr] in Hmin. lra.
  - destruct Hstop as [[_ Hn]|Hs]; [left; by split|by right].
Qed.

(** ** The order *)

Definition preempt_key (q : cache_req) : Z * Z := (prio q * - priority_sign, - wait_queue_entry_time q).

Lemma sorted_valid pl b :
  (forall q, q ∈ valid_running pl b -> is_Some (creq_priority q)) ->
  sorted_valid_running pl b = Ok (sort_by (pair_lt Z.ltb Z.ltb) preempt_key (valid_running pl b)).
Proof.
  intros Hp. unfold sorted_valid_running. apply sort_keyed_total. intros q Hq. destruct (Hp q Hq) as [p Hpq].
  unfold preempt_key, prio. by rewrite Hpq.
Qed.

(** Whoever comes after somebody who may not go may not go either. *)
Lemma may_go_mono p l q q' : in_order (pair_lt Z.ltb Z.ltb) preempt_key (q :: l) -> q' ∈ l -> may_go p q' -> may_go p q.
Proof.
  intros [_ Ho]%StronglySorted_inv Hq' Hm. rewrite Forall_forall in Ho. specialize (Ho q' Hq').
  unfold pair_lt, preempt_key in Ho. cbn [fst snd] in Ho. apply orb_false_iff in Ho as [Ho _]. apply Z.ltb_ge in Ho.
  unfold may_go in *. lia.
Qed.

(** Everybody who may go is taken when the loop stops for lack of others. *)
Lemma taken_all p taken rest :
  in_order (pair_lt Z.ltb Z.ltb) preempt_key (taken ++ rest) -> Forall (may_go p) taken ->
  (rest = [] \/ exists q rest', rest = q :: rest' /\ ~ may_go p q) ->
  forall q, q ∈ taken ++ rest -> may_go p q -> q ∈ taken.
Proof.
  intros Ho Hf Hr q Hq Hm. apply elem_of_app in Hq as [?|Hq]; [done|]. destruct Hr as [->|(q0 & rest' & -> & Hn)]; [by apply not_elem_of_nil in Hq|].
  exfalso. apply Hn. apply elem_of_cons in Hq as [->|Hq]; [done|]. apply (may_go_mono p rest' q0 q); [|done|done].
  by apply StronglySorted_app_1_r in Ho.
Qed.
End preempt.

(** ** Releasing *)

Section release.
Context `{!HeapQ} (time : nat -> Z) (strat : strategy) (dfi : bool) (steps : Z) (clip : Z) (ratio : Q).
Context (slots others : list Z) (other_rows other_locks : list nat).
Notation ok := (decode_ok slots others other_rows other_locks).
Notation release_chosen := (release_chosen time strat dfi 1 steps clip ratio).
Notation total_offset := (total_offset clip ratio).

Definition stays (ch : list Z) (b : batch) (i : nat) : Prop :=
  match reqs b !! i with Some q => q_rid q ∉ ch | None => False end.
#[global] Instance stays_dec ch b i : Decision (stays ch b i).
Proof. unfold stays. destruct (reqs b !! i); apply _. Defined.

Definition goings (l : list cache_req) : list cache_req := filter (fun q => going q = true) l.

Lemma release_chosen_spec ch b : forall idxs counter offset m dn,
  (forall i, i ∈ idxs -> (i < length (reqs b))%nat) ->
  (forall q, q ∈ chosen (reqs b) idxs -> q_rid q ∈ ch -> going q = true) ->
  ok m (goings (chosen (reqs b) idxs) ++ dn) ->
  exists offset' m', release_chosen ch idxs counter offset b m =
      Ok (filter (stays ch b) idxs, taken_back <$> filter (fun q => q_rid q ∈ ch) (chosen (reqs b) idxs), offset', m') /\
    moved m m' /\ ok m' (goings (chosen (reqs b) (filter (stays ch b) idxs)) ++ dn) /\
    (offset' == offset - total_offset (filter (fun q => q_rid q ∈ ch) (chosen (reqs b) idxs)))%Q.
Proof.
  induction idxs as [|i idxs IH]; intros counter offset m dn Hi Hg Hd.
  { exists offset, m. split; [done|]. split; [by split|]. split; [done|]. cbn. ring. }
  destruct (lookup_lt_is_Some_2 (reqs b) i) as [q Hq]; [apply Hi; by left|]. cbn [Preempt.release_chosen]. rewrite Hq. cbn [of_option]. step_ok.
  assert (Hch : chosen (reqs b) (i :: idxs) = q :: chosen (reqs b) idxs) by (unfold chosen at 1; cbn [omap list_omap]; by rewrite Hq).
  rewrite Hch in Hg, Hd |- *. assert (Hst : stays ch b i <-> q_rid q ∉ ch) by (unfold stays; by rewrite Hq).
  destruct (decide (q_rid q ∈ ch)) as [Hin|Hin].
  - rewrite (bool_decide_true _ Hin). specialize (Hg q ltac:(by left) Hin) as Hgq. unfold goings in Hd. rewrite filter_cons_True in Hd by done.
    destruct (release_req_ok time strat dfi steps slots others other_rows other_locks i q (Z.of_nat (length (reqs b)) - (counter + 1)) b m _ Hq Hd)
      as (m1 & Hrun & Hd1 & Hm1). rewrite Hrun. step_ok.
    destruct (IH (counter + 1) (offset - running_offset clip ratio q)%Q m1 dn ltac:(intros; apply Hi; by right) ltac:(intros; apply Hg; [by right|done]) Hd1)
      as (o2 & m2 & Hrun2 & Hm2 & Hd2 & Ho2).
    exists o2, m2. rewrite Hrun2, (filter_cons_False (stays ch b)), (filter_cons_True (fun q => q_rid q ∈ ch)) by (try rewrite Hst; tauto).
    step_ok. split; [done|]. split; [destruct Hm1, Hm2; split; congruence|]. split; [done|]. rewrite Ho2. unfold Preempt.total_offset. cbn [foldr]. ring.
  - rewrite (bool_decide_false _ Hin).
    destruct (IH counter offset m ((if going q then [q] else []) ++ dn) ltac:(intros; apply Hi; by right) ltac:(intros; apply Hg; [by right|done]))
      as (o2 & m2 & Hrun2 & Hm2 & Hd2 & Ho2).
    { unfold goings in *. rewrite filter_cons in Hd. destruct (going q); [rewrite decide_True in Hd by done|by rewrite decide_False in Hd].
      assert (Hp : filter (fun q => going q = true) (chosen (reqs b) idxs) ++ [q] ++ dn ≡ₚ q :: filter (fun q => going q = true) (chosen (reqs b) idxs) ++ dn)
        by solve_Permutation. by rewrite Hp. }
    rewrite Hrun2. step_ok. exists o2, m2. rewrite (filter_cons_True (stays ch b)), (filter_cons_False (fun q => q_rid q ∈ ch)) by (try rewrite Hst; tauto).
    split; [done|]. split; [done|]. split; [|done].
    assert (Hch2 : chosen (reqs b) (i :: filter (stays ch b) idxs) = q :: chosen (reqs b) (filter (stays ch b) idxs))
      by (unfold chosen at 1; cbn [omap list_omap]; by rewrite Hq).
    rewrite Hch2. unfold goings in *. rewrite filter_cons. destruct (going q); [rewrite decide_True by done|by rewrite decide_False].
    assert (Hp : (q :: filter (fun q => going q = true) (chosen (reqs b) (filter (stays ch b) idxs))) ++ dn ≡ₚ
      filter (fun q => going q = true) (chosen (reqs b) (filter (stays ch b) idxs)) ++ [q] ++ dn) by solve_Permutation. by rewrite Hp.
Qed.
End release.

(** ** What a preemption does *)

Lemma total_perm clip ratio l k : l ≡ₚ k -> (total_offset clip ratio l == total_offset clip ratio k)%Q.
Proof.
  unfold total_offset. induction 1 as [|q l k _ IH|q1 q2 l|l1 l2 l3 _ IH1 _ IH2]; cbn [foldr]; [reflexivity|by rewrite IH|ring|by rewrite IH1].
Qed.

Lemma rid_inj (l : list cache_req) q q' : NoDup (q_rid <$> l) -> q ∈ l -> q' ∈ l -> q_rid q = q_rid q' -> q = q'.
Proof.
  intros Hnd (i & Hi)%list_elem_of_lookup (j & Hj)%list_elem_of_lookup He.
  assert (i = j) as <-; [|congruence]. apply (NoDup_lookup _ i j (q_rid q) Hnd); rewrite list_lookup_fmap; [by rewrite Hi|].
  by rewrite Hj, He.
Qed.

Lemma taken_filter (l taken : list cache_req) :
  NoDup (q_rid <$> l) -> NoDup taken -> (forall q, q ∈ taken -> q ∈ l) ->
  filter (fun q => q_rid q ∈ q_rid <$> taken) l ≡ₚ taken.
Proof.
  intros Hnd Hndt Hsub. apply NoDup_Permutation; [|done|].
  - apply NoDup_filter. by apply NoDup_fmap_1 in Hnd.
  - intros q. rewrite list_elem_of_filter. split.
    + intros [(q' & He & Hq')%list_elem_of_fmap Hq]. by rewrite (rid_inj l q q' Hnd Hq (Hsub q' Hq') He).
    + intros Hq. split; [by apply list_elem_of_fmap_2|by apply Hsub].
Qed.

Lemma chosen_stays ch b : chosen (reqs b) (filter (stays ch b) (seq 0 (length (reqs b)))) = filter (fun q => q_rid q ∉ ch) (reqs b).
Proof.
  transitivity (filter (fun q => q_rid q ∉ ch) (chosen (reqs b) (seq 0 (length (reqs b))))); [|by rewrite chosen_seq].
  unfold chosen. assert (Hlt : forall k, k ∈ seq 0 (length (reqs b)) -> (k < length (reqs b))%nat) by (intros k ?%elem_of_seq; lia).
  induction (seq 0 (length (reqs b))) as [|k l IH]; [done|]. destruct (lookup_lt_is_Some_2 (reqs b) k) as [q Hq]; [apply Hlt; by left|].
  rewrite filter_cons. cbn [omap list_omap]. rewrite Hq, filter_cons. assert (Hs : stays ch b k <-> q_rid q ∉ ch) by (unfold stays; by rewrite Hq).
  destruct (decide (stays ch b k)) as [H1|H1]; [rewrite decide_True by tauto|rewrite decide_False by tauto];
    cbn [omap list_omap]; rewrite ?Hq, IH by (intros; apply Hlt; by right); done.
Qed.

Section theorem.
Context `{!HeapQ} (time : nat -> Z) (strat : strategy) (dfi : bool) (steps clip : Z) (ratio : Q) (low_first : bool) (threshold : Z).
Context (entry : cache_req -> Z) (set_order : list cache_req -> list cache_req).
Hypothesis set_order_perm : forall l, set_order l ≡ₚ l.
Context (slots others : list Z) (other_rows other_locks : list nat).
Notation ok := (decode_ok slots others other_rows other_locks).
Notation may_go := (may_go low_first threshold).
Notation total_offset := (total_offset clip ratio).

(** Releasing [taken] and filtering the batch. *)
Lemma release_taken offset taken b m :
  aligned b -> NoDup (q_rid <$> reqs b) -> NoDup taken -> (forall q, q ∈ taken -> q ∈ reqs b /\ going q = true) -> ok m (goings (reqs b)) ->
  exists keep o' b' m',
    release_chosen time strat dfi 1 steps clip ratio (q_rid <$> taken) (seq 0 (length (reqs b))) 0 offset b m =
      Ok (keep, taken_back <$> filter (fun q => q_rid q ∈ q_rid <$> taken) (reqs b), o', m') /\
    filter_batch [] (Some keep) b = Ok b' /\ (o' == offset - total_offset taken)%Q /\
    reqs b' = filter (fun q => q_rid q ∉ q_rid <$> taken) (reqs b) /\ (reqs b' = [] \/ aligned b') /\ ok m' (goings (reqs b')) /\ moved m m'.
Proof.
  intros Hal Hnd Hndt Hval Hd.
  destruct (release_chosen_spec time strat dfi steps clip ratio slots others other_rows other_locks (q_rid <$> taken) b
    (seq 0 (length (reqs b))) 0 offset m []) as (o' & m' & Hrel & Hm & Hd' & Ho').
  - intros i ?%elem_of_seq. lia.
  - rewrite chosen_seq. intros q Hq (q' & He & Hq')%list_elem_of_fmap. destruct (Hval q' Hq') as [Hq2 Hg2].
    by rewrite (rid_inj (reqs b) q q' Hnd Hq Hq2 He).
  - by rewrite chosen_seq, app_nil_r.
  - rewrite chosen_seq, (total_perm _ _ _ _ (taken_filter (reqs b) taken Hnd Hndt (fun q Hq => proj1 (Hval q Hq)))) in Ho'.
    destruct (filter_keep [] (filter (stays (q_rid <$> taken) b) (seq 0 (length (reqs b)))) b Hal) as (b' & Hfil & _ & Ha' & _ & Hr').
    + intros k [_ ?%elem_of_seq]%list_elem_of_filter. lia.
    + apply NoDup_filter, NoDup_seq.
    + assert (Hrq : reqs b' = filter (fun q => q_rid q ∉ q_rid <$> taken) (reqs b)).
      { rewrite Hr'; [apply chosen_stays|]. intros Hlen. apply filter_full. rewrite length_seq. exact Hlen. }
      rewrite chosen_seq in Hrel. do 4 eexists. split; [exact Hrel|]. split; [exact Hfil|]. do 3 (split; [done|]). split; [|done].
      rewrite chosen_stays, app_nil_r, <- Hrq in Hd'. exact Hd'.
Qed.

(** A preemption is justified, sufficient and no larger than needed.  Only
    unfinished requests whose priority is lower by more than the threshold make
    way, those of lowest priority and latest arrival first.  When it succeeds
    the estimate covers the new request, and would not have without the last
    one preempted; the preempted requests have left the batch and hold nothing,
    the others are untouched.  When it fails nothing changes, and everybody who
    could have made way together would not have been enough. *)
Theorem preempt_sound avail r p offset pl b m :
  aligned b -> NoDup (q_rid <$> reqs b) -> ok m (goings (reqs b)) ->
  (forall q, q ∈ valid_running pl b -> is_Some (creq_priority q)) ->
  let need := inject_Z (extend_input_len (inp r) + Z.min (max_new_tokens (sampling (info r))) clip) in
  exists done offset' pl' b' m' taken,
    preempt_to_schedule time strat dfi 1 steps clip ratio low_first threshold entry set_order avail r (Some p) offset pl b m
      = Ok (done, offset', pl', b', m') /\
    (forall q, q ∈ taken -> q ∈ valid_running pl b /\ may_go p q) /\
    (forall q k, q ∈ taken -> k ∈ valid_running pl b -> k ∉ taken ->
       pair_lt Z.ltb Z.ltb (preempt_key low_first entry k) (preempt_key low_first entry q) = false) /\
    if done : bool then
      taken <> [] /\ (offset' == offset - total_offset taken)%Q /\ (need <= inject_Z avail - offset')%Q /\
      (forall ini q, taken = ini ++ [q] -> ini <> [] -> (inject_Z avail - offset + total_offset ini < need)%Q) /\
      pl' ≡ₚ pl ++ (taken_back <$> taken) /\ reqs b' = filter (fun q => q_rid q ∉ q_rid <$> taken) (reqs b) /\
      (reqs b' = [] \/ aligned b') /\ ok m' (goings (reqs b')) /\ moved m m'
    else
      (offset', pl', b', m') = (offset, pl, b, m) /\ (forall q, q ∈ valid_running pl b -> may_go p q -> q ∈ taken) /\
      (taken = [] \/ (inject_Z avail - offset + total_offset taken < need)%Q).
Proof.
  intros Hal Hnd Hd Hp need. unfold preempt_to_schedule. rewrite (sorted_valid low_first entry pl b Hp). step_ok. fold need.
  set (l := sort_by _ _ _). assert (Hl : l ≡ₚ valid_running pl b) by apply sort_by_perm.
  assert (Ho : in_order (pair_lt Z.ltb Z.ltb) (preempt_key low_first entry) l) by exact (sort_by_order (pair_lt Z.ltb Z.ltb) (preempt_key low_first entry) (valid_running pl b)).
  set (n0 := (need - (inject_Z avail - offset))%Q).
  destruct (choose_spec clip ratio low_first threshold p l n0 [] ltac:(intros q Hq; apply Hp; by rewrite <- Hl))
    as (taken & rest & n1 & Hlt & Hrun & Hn1 & Hgo & Hmin & Hstop).
  assert (Hch : match l with [] => Ok ([], n0) | _ => p0 ← of_option TypeError (Some p); choose clip ratio low_first threshold p0 n0 l [] end = Ok (taken, n1)).
  { change (Ok (taken, n1)) with (Ok ([] ++ taken, n1)). rewrite <- Hrun. destruct l as [|q l']; [|done]. symmetry in Hlt. apply app_eq_nil in Hlt as [-> ->]. done. }
  rewrite Hch. step_ok. rewrite Hlt in Ho.
  assert (Hin : forall q, q ∈ taken -> q ∈ valid_running pl b /\ may_go p q).
  { intros q Hq. rewrite Forall_forall in Hgo. split; [|by apply Hgo]. rewrite <- Hl, Hlt. apply elem_of_app. by left. }
  assert (Hord : forall q k, q ∈ taken -> k ∈ valid_running pl b -> k ∉ taken ->
    pair_lt Z.ltb Z.ltb (preempt_key low_first entry k) (preempt_key low_first entry q) = false).
  { intros q k Hq Hk Hkn. rewrite <- Hl, Hlt in Hk. apply elem_of_app in Hk as [?|Hk]; [done|]. apply StronglySorted_app in Ho as (Hc & _). by apply (Hc q k). }
  destruct (bool_decide (taken = []) || negb (Qle_bool n1 0)) eqn:Hcase.
  - exists false, offset, pl, b, m, taken. split; [done|]. split; [done|]. split; [done|]. split; [done|].
    apply orb_true_iff in Hcase. rewrite bool_decide_eq_true, negb_true_iff in Hcase.
    assert (Hle : Qle_bool n1 0 = false -> (0 < n1)%Q).
    { intros Hf. destruct (Qlt_le_dec 0 n1) as [?|Hc]; [done|]. apply Qle_bool_iff in Hc. congruence. }
    split.
    + intros q Hq Hm. apply (taken_all low_first threshold entry p taken rest Ho Hgo); [|by rewrite <- Hlt, Hl|done].
      destruct Hstop as [[Hne Hz]|?]; [|done]. destruct Hcase as [?|Hf]; [done|]. specialize (Hle Hf). lra.
    + destruct Hcase as [->|Hf]; [by left|]. right. specialize (Hle Hf). unfold n0 in Hn1. lra.
  - apply orb_false_iff in Hcase as [Hne Hle]. rewrite bool_decide_eq_false in Hne. apply negb_false_iff, Qle_bool_iff in Hle.
    assert (Hval : forall q, q ∈ taken -> q ∈ reqs b /\ going q = true).
    { intros q Hq. destruct (Hin q Hq) as [Hv _]. apply list_elem_of_filter in Hv as [Hv ?]. apply andb_true_iff in Hv as [_ ?]. done. }
    assert (Hndt : NoDup taken).
    { assert (Hn : NoDup l) by (rewrite Hl; apply NoDup_filter; by apply NoDup_fmap_1 in Hnd). rewrite Hlt in Hn. by apply NoDup_app in Hn as [? _]. }
    destruct (release_taken offset taken b m Hal Hnd Hndt Hval Hd) as (keep & o' & b' & m' & Hrel & Hfil & Ho' & Hrq & Ha' & Hd' & Hm).
    rewrite Hrel. step_ok. rewrite Hfil. step_ok. exists true. do 5 eexists. split; [reflexivity|]. split; [exact Hin|]. split; [exact Hord|].
    split; [done|]. split; [exact Ho'|]. unfold n0 in *. split; [lra|]. split; [|by rewrite set_order_perm, (taken_filter (reqs b) taken Hnd Hndt (fun q Hq => proj1 (Hval q Hq)))].
    intros ini q Ht Hi0. specialize (Hmin ini q Ht Hi0). lra.
Qed.
End theorem.
