(* ===== verification/DecodeExamples.v ===== *)
(** * The decode loop on a concrete server

    Two requests decode with one free slot and an empty tree: the one with less
    output goes back to the queue and the other takes a step. *)

From S2P Require Import Prelude Allocator DllmReq MemCommon RadixKey RadixCache RadixCacheProofs RadixCacheTheorems RadixCacheRequests RadixCacheExamples StableSort DecodeBatch DecodeMemory DecodeRetract DecodeTurn Preempt.
From Stdlib Require Import QArith.
Import Radix Decode.
#[local] Open Scope Z_scope.

Definition decode_tree : radix := reset demo_time 0 0.

Lemma decode_tree_ok L : (forall h, h ∈ L -> h = 0%nat) -> radix_ok 1 false L decode_tree.
Proof.
  intros HL. destruct (reset_ok 1 false ltac:(lia) demo_time 0 0) as [Hok _]. split.
  - apply (tree_ok_lk 1 false _ _ _ _ Hok). intros n. unfold locks_on. cbn [filter list_filter length]. f_equal.
    assert (Hp : forall h, h ∈ L -> path decode_tree h = []) by (intros h ->%HL; vm_compute; reflexivity).
    induction L as [|h L IH]; [done|]. rewrite filter_cons, Hp by (by left). rewrite decide_False by apply not_elem_of_nil.
    apply IH; intros; [apply HL|apply Hp]; by right.
  - intros h ->%HL. vm_compute. by eexists.
Qed.

Definition decode_req (id prio : Z) (origin outs : list Z) (row : nat) : cache_req :=
  let n := len origin + len outs - 1 in
  CacheReq
    (Req (ReqInfo id origin (SamplingParams 5 false []) [] None 100 false (-1) false false)
      (ReqOut outs (LpChannels [] [] None None [] [] [] []) None None None)
      (ReqKV (Some row) n n false false 0) (ReqIn [] [] 0 0 0 None 0))
    None (Some prio) 0.

Definition req_a : cache_req := decode_req 1 1 [1; 2] [5; 6] 0.
Definition req_b : cache_req := decode_req 2 0 [3; 4] [7] 1.

Definition decode_mem : mem radix :=
  Mem (Allocator 64 1 false [9] [] true [])
    (ReqPool 2 8 [[11; 12; 13; 0; 0; 0; 0; 0]; [21; 22; 0; 0; 0; 0; 0; 0]] []) decode_tree.

Definition decode_batch : batch :=
  Batch [req_a; req_b] [0%nat; 1%nat] [3; 2] 5 None (Some [6; 7]) None false None false.

Definition decode_state : ar_sched := ArSched decode_batch [] (1 # 2) decode_mem.

Lemma decode_live q : q ∈ [req_a; req_b] -> live (req_to_token (rows decode_mem)) decode_tree q.
Proof.
  assert (Hp : prefix_at decode_tree 0 = []) by (vm_compute; reflexivity).
  assert (Hroot : exists nd, nodes decode_tree !! 0%nat = Some nd /\ in_space decode_tree 0 nd None).
  { destruct (ok_root _ _ _ _ _ (proj1 (decode_tree_ok [] ltac:(by intros h ?%not_elem_of_nil)))) as (rd & Hrd & _).
    exists rd. split; [exact Hrd|left; reflexivity]. }
  intros [->|[->|?%not_elem_of_nil]%elem_of_cons]%elem_of_cons; [| |done];
    (split; [reflexivity|reflexivity| |reflexivity|vm_compute; split; discriminate|split; reflexivity]);
    (split; [exact Hroot|vm_compute; reflexivity|change (last_node _) with 0%nat; rewrite Hp; apply prefix_nil
      |change (last_node _) with 0%nat; rewrite Hp; apply prefix_nil|vm_compute; lia]).
Qed.

Lemma decode_demo_ok : decode_ok [9; 11; 12; 13; 21; 22] [] [] [] decode_mem [req_a; req_b].
Proof.
  split.
  - vm_compute. reflexivity.
  - vm_compute. reflexivity.
  - reflexivity.
  - intros i row Hi. destruct i as [|[|i]]; [injection Hi as <-; reflexivity|injection Hi as <-; reflexivity|].
    discriminate Hi.
  - intros _. reflexivity.
  - apply decode_tree_ok. cbn. intros h [->|[->|?%not_elem_of_nil]%elem_of_cons]%elem_of_cons; done.
  - apply Forall_forall. apply decode_live.
Qed.

Lemma decode_batch_aligned : aligned decode_batch.
Proof.
  split; [repeat constructor; reflexivity|repeat constructor; reflexivity|reflexivity| |reflexivity|discriminate].
  intros l [= <-]. repeat constructor; reflexivity.
Qed.

Lemma decode_turn_ok : turn_ok [9; 11; 12; 13; 21; 22] [] [] [] 8 decode_state.
Proof.
  split.
  - exact decode_demo_ok.
  - reflexivity.
  - reflexivity.
  - right. exact decode_batch_aligned.
  - change (Forall (growing 8) [req_a; req_b]). apply Forall_forall.
    intros q [->|[->|?%not_elem_of_nil]%elem_of_cons]%elem_of_cons; [| |done];
      (split; [reflexivity|vm_compute; split; [discriminate|reflexivity]|vm_compute; discriminate]).
Qed.

Definition sample_five (b : batch) : list decode_result := (fun _ => DecodeResult 5 0 ([], []) ([], [])) <$> reqs b.

Lemma sample_five_length b : length (sample_five b) = length (reqs b).
Proof. unfold sample_five. apply length_fmap. Qed.

Definition rids (l : list cache_req) : list Z := q_rid <$> l.

Definition gone_rids (x : res (batch * mem radix * list cache_req * Q * list cache_req)) : option (list Z) :=
  match x with Ok (_, _, gone, _, _) => Some (rids gone) | Raise _ => None end.

Lemma retract_makes_room_witness :
  exists b' m' gone aborted ratio,
    retract_decode demo_time LRU false false 1 20 decode_batch decode_mem = Ok (b', m', gone, ratio, aborted) /\
    rids gone = [2] /\ len (reqs b') <= len (Token.pool (kv m')).
Proof.
  destruct (retract_makes_room demo_time LRU false 20 [9; 11; 12; 13; 21; 22] [] [] [] decode_batch decode_mem decode_batch_aligned
    ltac:(discriminate) decode_demo_ok eq_refl) as (b' & m' & gone & aborted & Hrun & _ & _ & Hroom & _).
  assert (Hc : gone_rids (retract_decode demo_time LRU false false 1 20 decode_batch decode_mem) = Some [2])
    by (vm_compute; reflexivity).
  rewrite Hrun in Hc. cbn [gone_rids] in Hc. injection Hc as Hg. do 5 eexists. split; [exact Hrun|]. split; [exact Hg|exact Hroom].
Defined.

Notation demo_turn := (decode_turn demo_time LRU false false 1 zero_lanes (fun _ => 0) (fun _ => []) (fun _ => None) (fun _ => false) 20 (1 # 10) (1 # 10)
  sample_five decode_state).

Lemma decode_turn_safe_witness : exists s', demo_turn = Ok s' /\ turn_ok [9; 11; 12; 13; 21; 22] [] [] [] 8 s'.
Proof.
  exact (decode_turn_safe demo_time LRU false zero_lanes (fun _ => 0) (fun _ => []) (fun _ => None) (fun _ => false) 20 (1 # 10) (1 # 10)
    [9; 11; 12; 13; 21; 22] [] [] [] 8 sample_five decode_state decode_turn_ok sample_five_length).
Defined.

(** The first request has its token; the second waits, with its output. *)
Lemma decode_turn_accounts_witness :
  exists s', demo_turn = Ok s' /\ (fun q => output_ids (out (creq q))) <$> reqs (running s') = [[5; 6; 5]] /\
    (fun r => output_ids (out (creq r))) <$> waiting s' = [[7]] /\ length (waiting s') = 1%nat.
Proof.
  destruct (decode_turn_accounts demo_time LRU false zero_lanes (fun _ => 0) (fun _ => []) (fun _ => None) (fun _ => false) 20 (1 # 10) (1 # 10)
    [9; 11; 12; 13; 21; 22] [] [] [] 8 sample_five decode_state decode_turn_ok sample_five_length)
    as (s' & kept & gone & aborted & ds & Hrun & _).
  assert (Hc : (fun s => ((fun q => output_ids (out (creq q))) <$> reqs (running s), (fun r => output_ids (out (creq r))) <$> waiting s)) <$> result demo_turn
    = Some ([[5; 6; 5]], [[7]])) by (vm_compute; reflexivity).
  rewrite Hrun in Hc. injection Hc as Ho Hw. exists s'. split; [exact Hrun|]. split; [exact Ho|]. split; [exact Hw|].
  apply (f_equal length) in Hw. by rewrite length_fmap in Hw.
Defined.

(** ** A preemption

    A request of priority 5 needs four tokens more than there are: the running
    request of priority 0 makes way, the one of priority 1 stays. *)
Definition preempt_rids (x : res (bool * Q * list cache_req * batch * mem radix)) : option (bool * list Z * list Z) :=
  match x with Ok (d, _, pl, b, _) => Some (d, q_rid <$> pl, q_rid <$> reqs b) | Raise _ => None end.

Notation demo_preempt := (preempt_to_schedule demo_time LRU false 1 20 100 1%Q false 0 (fun _ => 0) (fun l => l) 1 (creq req_b) (Some 5) 0%Q []
  decode_batch decode_mem).

Lemma preempt_sound_witness :
  exists offset pl b m, demo_preempt = Ok (true, offset, pl, b, m) /\ q_rid <$> pl = [2] /\ q_rid <$> reqs b = [1] /\
    decode_ok [9; 11; 12; 13; 21; 22] [] [] [] m (goings (reqs b)).
Proof.
  destruct (preempt_sound demo_time LRU false 20 100 1%Q false 0 (fun _ => 0) (fun l => l) (fun l => Permutation_refl l)
    [9; 11; 12; 13; 21; 22] [] [] [] 1 (creq req_b) 5 0%Q [] decode_batch decode_mem decode_batch_aligned)
    as (d & o & pl & b & m & taken & Hrun & _ & _ & Hd).
  - change (NoDup [1; 2]). apply NoDup_cons. split; [|apply NoDup_singleton]. intros ?%list_elem_of_singleton. discriminate.
  - exact decode_demo_ok.
  - intros q [_ Hq]%list_elem_of_filter. cbn in Hq. apply elem_of_cons in Hq as [->|[->|?%not_elem_of_nil]%elem_of_cons]; [by eexists|by eexists|done].
  - assert (Hc : preempt_rids demo_preempt = Some (true, [2], [1])) by (vm_compute; reflexivity).
    rewrite Hrun in Hc. cbn [preempt_rids] in Hc. injection Hc as Hd1 Hp Hr. subst d. exists o, pl, b, m. split; [exact Hrun|]. split; [exact Hp|]. split; [exact Hr|].
    apply Hd.
Defined.
