(* ===== verification/ArServer.v ===== *)
(** * The autoregressive server

    The turn of the event loop of managers/scheduler.py for an autoregressive
    model on the radix cache: get_next_batch_to_run merges the last prefill
    batch into the running one, asks get_new_batch_prefill for a new one, and
    otherwise decodes; a forward runs; process_batch_result_prefill or
    process_batch_result_decode follows.  Admission is PrefillAdder.add_one_req
    of managers/schedule_policy.py with its locks on the tree, and allocation is
    ScheduleBatch.prepare_for_extend.

    With chunked prefill off, so that a prompt is prefilled in one batch, and
    without a host cache, LoRA, grammars, input logprobs, mixed batches and the
    features DecodeBatch.v leaves out; requests generate at least one token. *)

From S2P Require Import Prelude Allocator DllmReq MemCommon RadixKey RadixCache StableSort DecodeBatch Preempt.
From Stdlib Require Import QArith.
Import Radix Decode.
#[local] Open Scope Z_scope.

Module Ar.

(** ** Admission *)

Inductive AddReqResult := CONTINUE | NO_TOKEN | OTHER.
#[global] Instance add_result_eq_dec : EqDecision AddReqResult.
Proof. solve_decision. Defined.

(** The fields of a PrefillAdder that are not statistics; requests are shared
    objects in the code, here values that do not change while they are listed. *)
Record adder := Adder {
  rem_input_tokens : Z;
  rem_total_token_offset : Q;
  cur_rem_token_offset : Z;
  can_run_list : list cache_req;
  preempt_list : list cache_req;
}.

(** The scheduler: [last_batch] is the batch of the last turn when that was a
    prefill; any other is the running batch itself, or none. *)
Record server := Server {
  sched : ar_sched;
  last_batch : option batch;
}.

Section server.
Context `{!HeapQ} (time : nat -> Z) (strat : strategy) (disable_finished_insert : bool).
Context (page_size : Z) (masked : lanes) (oob : Z -> Z) (empty : Z -> list Z).
Context (str_finish : req -> option finish_reason) (grammar_terminated : req -> bool) (RETRACT_DECODE_STEPS : Z).
Context (new_token_ratio_decay min_new_token_ratio init_new_token_ratio : Q).
(** Settings of the scheduler. *)
Context (CLIP_MAX_NEW_TOKENS max_prefill_tokens pp_max_micro_batch_size : Z) (prefill_max_requests : option Z).
Context (enable_priority_preemption schedule_low_priority_values_first : bool) (priority_scheduling_preemption_threshold : Z).
Context (wait_queue_entry_time : cache_req -> Z) (set_order : list cache_req -> list cache_req).
(** SchedulePolicy.calc_priority, and the number of top logprobs of a request. *)
Context (calc_priority : list cache_req -> batch -> radix -> res (list cache_req * radix)) (top_logprobs_num : req -> Z).

(** Req.init_next_round_input of an autoregressive request. *)
Definition init_next_round_input (q : cache_req) (t : radix) : res (cache_req * radix) :=
  let r := creq q in
  let r := set_fill_ids r (origin_input_ids (info r) ++ output_ids (out r)) in
  let input_len := len (fill_ids (inp r)) in
  let max_prefix_len := input_len - 1 in
  let max_prefix_len :=
    if return_logprob (info r) && (0 <=? logprob_start_len (info r))
    then Z.min max_prefix_len (logprob_start_len (info r)) else max_prefix_len in
  let max_prefix_len := Z.max max_prefix_len 0 in
  let token_ids := slice_to (fill_ids (inp r)) max_prefix_len in
  '(indices, node, t) ← match_prefix time false (Z.to_nat page_size) false (RadixKey token_ids (creq_extra_key q) false) t;
  let r := set_protected_len (set_prefix_indices r indices) (len indices) in
  let r := set_extend_input_len r (len (fill_ids (inp r)) - len (prefix_indices (inp r))) in
  Ok (CacheReq r (creq_extra_key q) (creq_priority q) node, t).

(** What the allocator and the tree can give. *)
Definition available_and_evictable (m : mem radix) : Z := kv_available page_size (kv m) + evictable_size_ (tree m).

(** PrefillAdder.__init__ *)
Definition adder_init (ratio : Q) (b : batch) : adder :=
  Adder max_prefill_tokens (total_offset CLIP_MAX_NEW_TOKENS ratio (reqs b)) 0 [] [].

Definition rem_total_tokens (m : mem radix) (a : adder) : Q :=
  (inject_Z (available_and_evictable m) - rem_total_token_offset a)%Q.
Definition cur_rem_tokens (m : mem radix) (a : adder) : Z := available_and_evictable m - cur_rem_token_offset a.

Definition ceil_paged_tokens (tokens : Z) : Z := - ((- tokens) / page_size) * page_size.

Definition budget_state (m : mem radix) (a : adder) : AddReqResult :=
  if Qle_bool (rem_total_tokens m a) 0 || (cur_rem_tokens m a <=? 0) then NO_TOKEN
  else if rem_input_tokens a <=? 0 then OTHER
  else CONTINUE.

Definition update_prefill_budget (extend_len max_new : Z) (a : adder) : adder :=
  let extend_len := ceil_paged_tokens extend_len in
  Adder (rem_input_tokens a - extend_len)
    (rem_total_token_offset a + inject_Z (extend_len + max_new + page_size))%Q
    (cur_rem_token_offset a + (extend_len + page_size)) (can_run_list a) (preempt_list a).

Definition add_can_run (q : cache_req) (a : adder) : adder :=
  Adder (rem_input_tokens a) (rem_total_token_offset a) (cur_rem_token_offset a) (can_run_list a ++ [q]) (preempt_list a).

(** add_one_req; the second test of the input budget, under the lock, repeats
    the first when there is no host cache. *)
Definition add_one_req (q : cache_req) (a : adder) (m : mem radix) : res (AddReqResult * adder * mem radix) :=
  if match prefill_max_requests with Some x => x <=? len (can_run_list a) | None => false end
  then Ok (OTHER, a, m) else
  let r := creq q in
  let max_new := Z.min (Z.max (max_new_tokens (sampling (info r)) - len (output_ids (out r))) 0) CLIP_MAX_NEW_TOKENS in
  let total_tokens := inject_Z (extend_input_len (inp r) + max_new + page_size) in
  let input_tokens := ceil_paged_tokens (extend_input_len (inp r)) in
  if Qle_bool (rem_total_tokens m a) total_tokens then Ok (NO_TOKEN, a, m) else
  if (rem_input_tokens a <=? input_tokens) && negb (bool_decide (can_run_list a = [])) then Ok (OTHER, a, m) else
  '(_, t) ← inc_lock_ref false (last_node q) (tree m);
  let m := Mem (kv m) (rows m) t in
  if Qle_bool (rem_total_tokens m a) total_tokens then
    '(_, t) ← dec_lock_ref false (last_node q) (tree m);
    Ok (NO_TOKEN, a, Mem (kv m) (rows m) t)
  else
    '(_, t) ← inc_lock_ref false (last_node q) (tree m);
    let a := update_prefill_budget input_tokens (Z.min (max_new_tokens (sampling (info r))) CLIP_MAX_NEW_TOKENS) (add_can_run q a) in
    '(_, t) ← dec_lock_ref false (last_node q) t;
    let m := Mem (kv m) (rows m) t in
    Ok (budget_state m a, a, m).

(** preempt_to_schedule with the adder and the running batch. *)
Definition try_preempt (ratio : Q) (q : cache_req) (a : adder) (b : batch) (m : mem radix)
    : res (bool * adder * batch * mem radix) :=
  '(done, offset, pl, b, m) ←
    preempt_to_schedule time strat disable_finished_insert page_size RETRACT_DECODE_STEPS CLIP_MAX_NEW_TOKENS ratio
      schedule_low_priority_values_first priority_scheduling_preemption_threshold wait_queue_entry_time set_order
      (available_and_evictable m) (creq q) (creq_priority q) (rem_total_token_offset a) (preempt_list a) b m;
  Ok (done, Adder (rem_input_tokens a) offset (cur_rem_token_offset a) (can_run_list a) pl, b, m).

Definition get_num_allocatable_reqs (running_bs : nat) : Z := pp_max_micro_batch_size - Z.of_nat running_bs.

(** The loop over the waiting queue; the queue it leaves has the same requests. *)
Fixpoint admit_waiting (ratio : Q) (queue : list cache_req) (a : adder) (b : batch) (m : mem radix)
    : res (list cache_req * adder * batch * mem radix) :=
  match queue with
  | [] => Ok ([], a, b, m)
  | q :: queue =>
      let b := if get_num_allocatable_reqs (length (reqs b)) <=? len (can_run_list a) then set_full b true else b in
      '(go, a, b, m) ←
        (if batch_is_full b then
           if enable_priority_preemption then try_preempt ratio q a b m else Ok (false, a, b, m)
         else Ok (true, a, b, m));
      if negb go then Ok (q :: queue, a, b, m) else
      '(q, t) ← init_next_round_input q (tree m);
      '(result, a, m) ← add_one_req q a (Mem (kv m) (rows m) t);
      match result with
      | CONTINUE =>
          '(queue, a, b, m) ← admit_waiting ratio queue a b m;
          Ok (q :: queue, a, b, m)
      | NO_TOKEN => Ok (q :: queue, a, set_full b true, m)
      | OTHER => Ok (q :: queue, a, b, m)
      end
  end.

(** ** The prefill batch *)

Definition alloc_paged_token_slots_extend (prefix_lens seq_lens last_loc : list Z) (extend_num_tokens : Z)
    (m : mem radix) : res (list Z * mem radix) :=
  m ← evict_from_tree_cache strat page_size (extend_num_tokens + len seq_lens * page_size) m;
  match Paged.alloc_extend masked oob empty prefix_lens seq_lens last_loc extend_num_tokens (kv m) with
  | (Some loc, a) => Ok (loc, Mem a (rows m) (tree m))
  | (None, _) => Raise RuntimeError
  end.

Definition alloc_for_extend (qs : list cache_req) (prefix_lens seq_lens extend_lens : list Z) (extend_num_tokens : Z)
    (m : mem radix) : res (list Z * list cache_req * mem radix) :=
  let prefix_tensors := (fun q => prefix_indices (inp (creq q))) <$> qs in
  '(rs, p) ← alloc_req_slots (creq <$> qs) (rows m);
  let qs := zip_with with_req qs rs in
  let m := Mem (kv m) p (tree m) in
  '(loc, m) ←
    (if page_size =? 1 then alloc_token_slots strat page_size extend_num_tokens m
     else alloc_paged_token_slots_extend prefix_lens seq_lens (last_loc_of <$> prefix_tensors) extend_num_tokens m);
  let table := write_kernel ((fun q => pool_idx (creq q)) <$> qs) prefix_tensors (Z.to_nat <$> prefix_lens)
    (Z.to_nat <$> seq_lens) (Z.to_nat <$> extend_lens) loc (req_to_token (rows m)) in
  Ok (loc, qs, Mem (kv m) (set_table (rows m) table) (tree m)).

(** ScheduleBatch.init_new and prepare_for_extend. *)
Definition prepare_for_extend (qs : list cache_req) (m : mem radix) : res (batch * mem radix) :=
  let return_logprob := existsb (fun q => return_logprob (info (creq q))) qs in
  let input_ids := (fun q => slice_from (fill_ids (inp (creq q))) (len (prefix_indices (inp (creq q))))) <$> qs in
  let extend_num_tokens := sum (len <$> input_ids) in
  let seq_lens := (fun q => len (fill_ids (inp (creq q)))) <$> qs in
  let prefix_lens := (fun q => len (prefix_indices (inp (creq q)))) <$> qs in
  let extend_lens := (fun q => extend_input_len (inp (creq q))) <$> qs in
  '(loc, qs, m) ← alloc_for_extend qs prefix_lens seq_lens extend_lens extend_num_tokens m;
  let req_pool_indices := (fun q => pool_idx (creq q)) <$> qs in
  rs ← mapM commit_extend (creq <$> qs);
  Ok (Batch (zip_with with_req qs rs) req_pool_indices seq_lens (sum seq_lens) (Some (concat input_ids)) None (Some loc)
        return_logprob (if return_logprob then Some (top_logprobs_num <$> rs) else None) false, m).

(** _get_new_batch_prefill_raw *)
Definition get_new_batch_prefill (s : ar_sched) : res (option batch * ar_sched) :=
  let b := if enable_priority_preemption then set_full (running s) false else running s in
  let keep b := ArSched b (waiting s) (new_token_ratio s) (armem s) in
  if batch_is_full b || bool_decide (waiting s = []) then Ok (None, keep b) else
  if (get_num_allocatable_reqs (length (reqs b)) <=? 0) && negb enable_priority_preemption
  then Ok (None, keep (set_full b true)) else
  let m := armem s in
  '(queue, t) ← calc_priority (waiting s) b (tree m);
  '(queue, a, b, m) ← admit_waiting (new_token_ratio s) queue (adder_init (new_token_ratio s) b) b (Mem (kv m) (rows m) t);
  if bool_decide (can_run_list a = []) then Ok (None, ArSched b queue (new_token_ratio s) m) else
  let queue := filter (fun q => q_rid q ∉ q_rid <$> can_run_list a) queue ++ preempt_list a in
  '(nb, m) ← prepare_for_extend (can_run_list a) m;
  Ok (Some nb, ArSched b queue (new_token_ratio s) m).

(** ** The result of a prefill *)

Definition cache_unfinished_req (q : cache_req) (m : mem radix) : res (cache_req * mem radix) :=
  let i := pool_idx (creq q) in
  row ← of_option IndexError (req_to_token (rows m) !! i);
  '(q, row, t, a) ← Radix.cache_unfinished_req time (kv_free page_size) false (Z.to_nat page_size) false false row q (tree m) (kv m);
  Ok (q, Mem a (set_table (rows m) (<[i := row]> (req_to_token (rows m)))) t).

(** The body of the loop; no request of a prefill batch is finished, retracted
    or chunked here. *)
Definition prefill_one (d : decode_result) (q : cache_req) (m : mem radix) : res (cache_req * mem radix) :=
  if q_finished q then Ok (q, m) else
  let q := with_req q (check_finished str_finish grammar_terminated 1 (append_token (dr_token d) (creq q))) in
  '(q, m) ← (if q_finished q then release_kv_cache time disable_finished_insert false page_size true q m
             else cache_unfinished_req q m);
  Ok (with_req q (append_logprobs d (creq q)), m).

(** [zip(batch.reqs, next_token_ids)] *)
Fixpoint prefill_all (ds : list decode_result) (qs : list cache_req) (m : mem radix) : res (list cache_req * mem radix) :=
  match qs, ds with
  | q :: qs, d :: ds =>
      '(q, m) ← prefill_one d q m;
      '(qs, m) ← prefill_all ds qs m;
      Ok (q :: qs, m)
  | _, _ => Ok (qs, m)
  end.

Definition process_batch_result_prefill (ds : list decode_result) (b : batch) (m : mem radix) : res (batch * mem radix) :=
  '(qs, m) ← prefill_all ds (reqs b) m;
  Ok (set_reqs b qs, m).

(** ** The turn *)

(** The first half of get_next_batch_to_run: the running batch, and whether the
    last batch keeps requests in a list of its own. *)
Definition merge_last (b : batch) (last : option batch) : res (batch * bool) :=
  match last with
  | None => Ok (b, false)
  | Some l =>
      l' ← filter_batch [] None l;
      let b := if (length (reqs l') <? length (reqs l))%nat then set_full b false else b in
      if bool_decide (reqs l' = []) then Ok (b, false)
      else if bool_decide (reqs b = []) then Ok (l', false)
      else b ← merge_batch b l'; Ok (b, true)
  end.

(** init_running_status and init_schedule_policy, over a fresh memory. *)
Definition init_server (size : Z) (sort : bool) (max_running context : nat) : server :=
  Server (ArSched (Batch [] [] [] 0 None None None false None false) [] init_new_token_ratio
    (Mem (Token.init size sort) (pool_init max_running context) (reset time 0 0))) None.

(** is_fully_idle, when no batch was formed. *)
Definition is_fully_idle (apart : bool) (s : ar_sched) : bool :=
  bool_decide (reqs (running s) = []) && negb apart && bool_decide (waiting s = []).

(** on_idle forgets the estimate; its checks are [idle_check]. *)
Definition on_idle (apart : bool) (s : ar_sched) : ar_sched :=
  if is_fully_idle apart s then ArSched (running s) (waiting s) init_new_token_ratio (armem s) else s.

(** event_loop_normal: the batch to run, its forward and its result. *)
Definition turn (sample : batch -> list decode_result) (s : server) : res server :=
  let s0 := sched s in
  '(b, apart) ← merge_last (running s0) (last_batch s);
  '(nb, s1) ← get_new_batch_prefill (ArSched b (waiting s0) (new_token_ratio s0) (armem s0));
  match nb with
  | Some nb =>
      let ds := sample nb in
      '(nb, m) ← process_batch_result_prefill ds (set_next_ids nb (dr_token <$> ds)) (armem s1);
      Ok (Server (ArSched (running s1) (waiting s1) (new_token_ratio s1) m) (Some nb))
  | None =>
      if bool_decide (reqs (running s1) = []) then Ok (Server (on_idle apart s1) None) else
      s2 ← decode_turn time strat disable_finished_insert false page_size masked oob empty str_finish grammar_terminated
             RETRACT_DECODE_STEPS new_token_ratio_decay min_new_token_ratio sample s1;
      Ok (Server (if bool_decide (reqs (running s2) = []) then on_idle apart s2 else s2) None)
  end.

(** ** The server's own memory checks

    scheduler_runtime_checker_mixin.py, for a cache without sessions. *)
Context (max_total_num_tokens : Z).

(** _check_pool_invariant: whether slots are missing. *)
Definition check_pool_invariant (available evictable protected uncached total : Z) : bool :=
  negb (available + evictable + protected + uncached =? total).

Definition check_full_pool (uncached : Z) (m : mem radix) : bool :=
  check_pool_invariant (kv_available page_size (kv m)) (evictable_size_ (tree m)) (protected_size_ (tree m)) uncached
    max_total_num_tokens.

(** The body of the loop of _get_total_uncached_sizes. *)
Definition uncached_of (q : cache_req) : res Z :=
  let k := kvs (creq q) in
  _ ← py_assert (Bool.eqb (kv_committed_freed k) (kv_overallocated_freed k));
  if kv_committed_freed k || bool_decide (req_pool_idx k = None) then Ok 0 else
  allocated_len ←
    (if 1 <? page_size
     then _ ← py_assert (cache_protected_len k mod page_size =? 0); Ok (ceil_align (kv_allocated_len k) page_size)
     else Ok (kv_allocated_len k));
  Ok (allocated_len - cache_protected_len k).

Definition get_total_uncached_sizes (s : server) : res Z :=
  sizes ← mapM uncached_of (match last_batch s with Some l => reqs l | None => [] end ++ reqs (running (sched s)));
  Ok (sum sizes).

(** self_check_during_busy, after a turn in which a batch ran. *)
Definition self_check_during_busy (s : server) : res unit :=
  uncached ← get_total_uncached_sizes s;
  py_assert (negb (check_full_pool uncached (armem (sched s)))).

(** The checks of on_idle: whether one of them reports a leak. *)
Definition idle_check (m : mem radix) : bool :=
  check_full_pool 0 m || negb (length (free_slots (rows m)) =? pool_size (rows m))%nat.
End server.

End Ar.
