(* ===== verification/ArQueue.v ===== *)
(** * The waiting queue of the scheduler

    What the scheduler makes of a request it receives (the end of
    handle_generate_request), and how requests enter and leave Scheduler.waiting_queue outside of admission
    (managers/scheduler.py): [_add_request_to_queue] with the default priority
    and the limit on the length of the queue, the timeouts, and abort_request.
    Without disaggregation, a host cache or a grammar queue; the messages to the
    tokenizer are the requests that are returned. *)

From S2P Require Import Prelude DllmReq MemCommon RadixCache StableSort DecodeBatch ArServer.
From Stdlib Require Import QArith.
Import Radix Decode Ar.
#[local] Open Scope Z_scope.

Module Queue.

(** ** Receiving a request

    The end of handle_generate_request, for a request without a session, images
    or a grammar. *)

Definition set_info (r : req) (i : req_info) : req := Req i (out r) (kvs r) (inp r).

Definition with_prompt (r : req) (ids : list Z) : req :=
  let i := info r in
  set_info r (ReqInfo (rid i) ids (sampling i) (eos_token_ids i) (tok i) (vocab_size i) (return_logprob i) (logprob_start_len i)
    (wants_top_logprobs i) (wants_token_ids_logprob i)).

Definition with_max_new (r : req) (n : Z) : req :=
  let i := info r in
  let s := sampling i in
  set_info r (ReqInfo (rid i) (origin_input_ids i) (SamplingParams n (ignore_eos s) (stop_token_ids s)) (eos_token_ids i) (tok i) (vocab_size i)
    (return_logprob i) (logprob_start_len i) (wants_top_logprobs i) (wants_token_ids_logprob i)).

Definition with_logprob (r : req) (return_logprob : bool) (start : Z) : req :=
  let i := info r in
  set_info r (ReqInfo (rid i) (origin_input_ids i) (sampling i) (eos_token_ids i) (tok i) (vocab_size i) return_logprob start
    (wants_top_logprobs i) (wants_token_ids_logprob i)).

(** tp_worker.py: [max_req_len], and [max_req_input_len] from it. *)
Definition max_req_len_of (context_len max_token_pool_size : Z) : Z := Z.min (context_len - 1) (max_token_pool_size - 1).
Definition max_req_input_len_of (max_req_len : Z) : Z := max_req_len - 5.

(** [requested] is None when the client gives no limit. *)
Definition init_req_max_new_tokens (max_req_len : Z) (requested : option Z) (r : req) : req :=
  with_max_new r (Z.min (default (2 ^ 30) requested) (max_req_len - len (origin_input_ids (info r)) - 1)).

(** validate_input_length: the request, or None for an error. *)
Definition validate_input_length (max_req_input_len : Z) (allow_auto_truncate : bool) (r : req) : option req :=
  if max_req_input_len <=? len (origin_input_ids (info r)) then
    if allow_auto_truncate then Some (with_prompt r (slice_to (origin_input_ids (info r)) max_req_input_len)) else None
  else Some r.

Definition set_finish_with_abort (r : req) : req :=
  let r := with_logprob (with_prompt r [0]) false (-1) in
  let o := out r in
  set_out r (ReqOut (output_ids o) (channels o) (finished_reason o) (finished_len o) (Some FINISH_ABORT)).

(** The request that is put into the queue; [start] is recv_req.logprob_start_len. *)
Definition handle_generate_request (max_req_len : Z) (allow_auto_truncate : bool) (requested : option Z) (start : Z) (r : req) : req :=
  let r := init_req_max_new_tokens max_req_len requested r in
  match validate_input_length (max_req_input_len_of max_req_len) allow_auto_truncate r with
  | None => set_finish_with_abort r
  | Some r =>
      let i := info r in
      let start := if negb (return_logprob i) && negb (start =? -1) then -1 else start in
      let start :=
        if start =? -1 then
          if return_logprob i && negb (wants_token_ids_logprob i) then len (origin_input_ids i)
          else if max_new_tokens (sampling i) =? 0 then len (origin_input_ids i)
          else -1
        else start in
      if len (origin_input_ids i) <? start then set_finish_with_abort (with_logprob r (return_logprob i) (-1))
      else with_logprob r (return_logprob i) start
  end.

(** ** Entering and leaving the queue *)

(** [sys.maxsize] *)
Definition maxsize : Z := 2 ^ 63 - 1.

Definition with_priority (q : cache_req) (p : Z) : cache_req := CacheReq (creq q) (creq_extra_key q) (Some p) (last_node q).

Section queue.
Context (enable_priority_scheduling schedule_low_priority_values_first abort_on_priority_when_disabled : bool).
Context (max_queued_requests : option Z) (wait_queue_entry_time : cache_req -> Z).

(** None when the request is refused. *)
Definition set_or_validate_priority (q : cache_req) : option cache_req :=
  match creq_priority q with
  | None =>
      Some (if enable_priority_scheduling
            then with_priority q (if schedule_low_priority_values_first then maxsize else - maxsize - 1) else q)
  | Some _ => if negb enable_priority_scheduling && abort_on_priority_when_disabled then None else Some q
  end.

Definition direction : Z := if schedule_low_priority_values_first then 1 else -1.

(** [direction * req.priority]; a priority of None is a TypeError. *)
Definition rank (q : cache_req) : res Z :=
  p ← of_option TypeError (creq_priority q);
  Ok (direction * p).

(** [max(enumerate(l))] by key: the first of the greatest, with its index. *)
Fixpoint max_from (best : nat * (Z * Z)) (i : nat) (keys : list (Z * Z)) : nat :=
  match keys with
  | [] => fst best
  | k :: keys => max_from (if pair_lt Z.ltb Z.ltb (snd best) k then (i, k) else best) (S i) keys
  end.

Definition max_index (keys : list (Z * Z)) : res nat :=
  match keys with
  | [] => Raise ValueError
  | k :: keys => Ok (max_from (0%nat, k) 1 keys)
  end.

(** Whether the incoming request is aborted, the queue and the request the
    message is about. *)
Definition abort_on_queued_limit (recv : cache_req) (queue : list cache_req) : res (bool * list cache_req * option cache_req) :=
  if match max_queued_requests with None => true | Some n => len queue + 1 <=? n end then Ok (false, queue, None) else
  if enable_priority_scheduling then
    keys ← mapM (fun q => p ← rank q; Ok (p, wait_queue_entry_time q)) queue;
    idx ← max_index keys;
    candidate ← of_option IndexError (queue !! idx);
    r ← rank recv;
    c ← rank candidate;
    if r <? c then Ok (q_rid candidate =? q_rid recv, delete idx queue, Some candidate)
    else Ok (true, queue, Some recv)
  else Ok (true, queue, Some recv).

(** _add_request_to_queue: the queue and the request that is turned away. *)
Definition add_request_to_queue (q : cache_req) (queue : list cache_req) : res (list cache_req * option cache_req) :=
  match set_or_validate_priority q with
  | None => Ok (queue, Some q)
  | Some q =>
      '(aborted, queue, gone) ← abort_on_queued_limit q queue;
      if aborted : bool then Ok (queue, gone) else Ok (queue ++ [q], gone)
  end.
End queue.

Definition with_waiting (s : server) (queue : list cache_req) : server :=
  let s0 := sched s in Server (ArSched (running s0) queue (new_token_ratio s0) (armem s0)) (last_batch s).

(** _abort_on_waiting_timeout: who stays and who is told. *)
Definition expired (deadline : Z) (entry : cache_req -> Z) (q : cache_req) : bool := (0 <? entry q) && (entry q <? deadline).

Definition abort_on_waiting_timeout (deadline : Z) (entry : cache_req -> Z) (queue : list cache_req)
    : list cache_req * list cache_req :=
  (filter (fun q => expired deadline entry q = false) queue, filter (fun q => expired deadline entry q = true) queue).

(** [req.to_finish = FINISH_ABORT()] for the unfinished requests that match. *)
Definition mark (matches : cache_req -> bool) (q : cache_req) : cache_req :=
  if negb (q_finished q) && matches q then abort_req q else q.

Definition mark_batch (matches : cache_req -> bool) (b : batch) : batch := set_reqs b (mark matches <$> reqs b).

(** _abort_on_running_timeout *)
Definition abort_on_running_timeout (deadline : Z) (forward_entry_time : cache_req -> Z) (s : server) : server :=
  let s0 := sched s in
  Server (ArSched (mark_batch (expired deadline forward_entry_time) (running s0)) (waiting s0) (new_token_ratio s0) (armem s0)) (last_batch s).

(** abort_request; [matches] is [abort_all or rid.startswith(...)].  The current
    batch is the last one when that was a prefill.  The requests the queue
    loses are told. *)
Definition abort_request (matches : cache_req -> bool) (s : server) : server * list cache_req :=
  let s0 := sched s in
  (Server (ArSched (mark_batch matches (running s0)) (filter (fun q => matches q = false) (waiting s0)) (new_token_ratio s0) (armem s0))
     (mark_batch matches <$> last_batch s),
   rev (filter (fun q => matches q = true) (waiting s0))).

(** ** What is received fits *)

Record intake_ok (context_len max_token_pool_size : Z) (r r' : req) : Prop := {
  in_prompt : origin_input_ids (info r') = origin_input_ids (info r);
  in_rid : rid (info r') = rid (info r);
  in_max : 1 <= max_new_tokens (sampling (info r'));
  in_pool : len (origin_input_ids (info r')) + max_new_tokens (sampling (info r')) + 1 < max_token_pool_size;
  in_context : len (origin_input_ids (info r')) + max_new_tokens (sampling (info r')) < context_len;
  in_frame : out r' = out r /\ kvs r' = kvs r /\ inp r' = inp r;
}.

(** C30: what the server lets in fits: a request whose prompt is below the input
    limit and that asks for at least one token, or for no particular number,
    keeps its prompt and gets a limit of at least one token with which it fits
    the context and, by itself, the KV pool; unless it asks for logprobs beyond
    its prompt, when it is aborted. *)
Theorem received_request_fits context_len max_token_pool_size truncate requested start r :
  let n := max_req_len_of context_len max_token_pool_size in
  len (origin_input_ids (info r)) < max_req_input_len_of n -> (forall k, requested = Some k -> 1 <= k) ->
  let r' := handle_generate_request n truncate requested start r in
  if return_logprob (info r) && (len (origin_input_ids (info r)) <? start)
  then origin_input_ids (info r') = [0] /\ to_finish (out r') = Some FINISH_ABORT
  else intake_ok context_len max_token_pool_size r r'.
Proof.
  intros n Hin Hreq r'. unfold max_req_input_len_of in Hin. pose proof (len_nonneg (origin_input_ids (info r))) as Hp.
  assert (Hn : n <= context_len - 1 /\ n <= max_token_pool_size - 1) by (unfold n, max_req_len_of; lia).
  clearbody n. set (m := Z.min (default (2 ^ 30) requested) (n - len (origin_input_ids (info r)) - 1)).
  assert (Hm : 1 <= m).
  { subst m. apply Z.min_glb; [|lia]. destruct requested as [k|]; [by apply Hreq|done]. }
  assert (Hmle : m <= n - len (origin_input_ids (info r)) - 1) by (subst m; lia).
  subst r'. unfold handle_generate_request, validate_input_length, init_req_max_new_tokens, max_req_input_len_of. fold m.
  cbn [info with_max_new set_info origin_input_ids return_logprob wants_token_ids_logprob sampling max_new_tokens].
  destruct (Z.leb_spec (n - 5) (len (origin_input_ids (info r)))) as [?|_]; [lia|].
  assert (Hm0 : (m =? 0) = false) by (apply Z.eqb_neq; lia).
  cbn [info with_max_new set_info origin_input_ids return_logprob wants_token_ids_logprob sampling max_new_tokens]. rewrite Hm0.
  assert (Hgood : forall b x, intake_ok context_len max_token_pool_size r (with_logprob (with_max_new r m) b x)).
  { intros b x. split; cbn; try done; lia. }
  destruct (return_logprob (info r)); cbn [andb negb].
  - destruct (Z.eqb_spec start (-1)) as [->|Hs].
    + destruct (Z.ltb_spec (len (origin_input_ids (info r))) (-1)) as [?|_]; [lia|]. destruct (wants_token_ids_logprob (info r)); cbn [negb].
      * destruct (Z.ltb_spec (len (origin_input_ids (info r))) (-1)) as [?|_]; [lia|]. apply Hgood.
      * rewrite Z.ltb_irrefl. apply Hgood.
    + destruct (_ <? _); [done|apply Hgood].
  - assert (Hlt : (len (origin_input_ids (info r)) <? -1) = false) by (apply Z.ltb_ge; lia).
    destruct (Z.eqb_spec start (-1)) as [->|Hs]; cbn [negb]; rewrite ?Z.eqb_refl, Hlt; apply Hgood.
Qed.

(** ** The limit *)

Lemma max_from_spec L : forall keys best i,
  L !! fst best = Some (snd best) -> drop i L = keys -> (forall x, x ∈ take i L -> pair_lt Z.ltb Z.ltb (snd best) x = false) ->
  exists k, L !! max_from best i keys = Some k /\ forall x, x ∈ L -> pair_lt Z.ltb Z.ltb k x = false.
Proof.
  induction keys as [|k keys IH]; intros [b kb] i Hb Hd Hmax; cbn [max_from fst snd] in *.
  { exists kb. split; [done|]. intros x Hx. apply Hmax. rewrite <- (take_drop i L), Hd, app_nil_r in Hx. exact Hx. }
  assert (Hk : L !! i = Some k) by (rewrite <- (Nat.add_0_r i), <- lookup_drop, Hd; done).
  assert (Hd' : drop (S i) L = keys) by (rewrite <- Nat.add_1_r, <- drop_drop, Hd; done).
  assert (Hbest : forall kx, (forall x, x ∈ take i L -> pair_lt Z.ltb Z.ltb kx x = false) -> pair_lt Z.ltb Z.ltb kx k = false ->
    forall x, x ∈ take (S i) L -> pair_lt Z.ltb Z.ltb kx x = false).
  { intros kx H1 H2 x. rewrite (take_S_r _ _ k) by done. intros [Hx|Hx]%elem_of_app; [by apply H1|]. by apply list_elem_of_singleton in Hx as ->. }
  destruct (pair_lt Z.ltb Z.ltb kb k) eqn:Hlt; apply IH; cbn [fst snd]; try done; apply Hbest; try done; [|apply key_irrefl; apply _]. intros x Hx.
  destruct (pair_lt Z.ltb Z.ltb k x) eqn:Hc; [|done]. specialize (Hmax x Hx).
    pose proof (key_cotrans _ _ _ Hc Hmax). pose proof (key_asym _ _ Hlt). congruence.
Qed.

Lemma max_index_spec L : L <> [] -> exists i k, max_index L = Ok i /\ L !! i = Some k /\ forall x, x ∈ L -> pair_lt Z.ltb Z.ltb k x = false.
Proof.
  destruct L as [|k L]; [done|]. intros _. cbn [max_index].
  destruct (max_from_spec (k :: L) L (0%nat, k) 1) as (k' & Hk & Hm); try done.
  - cbn. intros x ->%list_elem_of_singleton. apply key_irrefl; apply _.
  - by exists (max_from (0%nat, k) 1 L), k'.
Qed.

Section limit.
Context (enable low_first abort_disabled : bool) (entry : cache_req -> Z).
Notation rank := (rank low_first).

Definition rank_of (q : cache_req) : Z := direction low_first * default 0 (creq_priority q).

Lemma rank_ok q : is_Some (creq_priority q) -> rank q = Ok (rank_of q).
Proof. intros [p Hp]. unfold Queue.rank, rank_of. by rewrite Hp. Qed.

Lemma validated q q' : set_or_validate_priority enable low_first abort_disabled q = Some q' ->
  creq q' = creq q /\ creq_extra_key q' = creq_extra_key q /\ (enable = true -> is_Some (creq_priority q')).
Proof.
  unfold set_or_validate_priority. destruct (creq_priority q) as [p|] eqn:Hp.
  - destruct (negb enable && abort_disabled); [done|]. intros [= <-]. split; [done|]. split; [done|]. by rewrite Hp.
  - intros [= <-]. by destruct enable.
Qed.

(** A queue with a limit stays within it.  A request that is accepted is
    appended; otherwise one request is turned away, every other one is kept,
    and with priority scheduling nobody who stays is less preferred than the
    one who is turned away, be it the new request or one that waited. *)
Theorem queue_limit_kept n q q' queue :
  1 <= n -> len queue <= n -> (enable = true -> Forall (fun x => is_Some (creq_priority x)) queue) ->
  q_rid q ∉ q_rid <$> queue -> set_or_validate_priority enable low_first abort_disabled q = Some q' ->
  exists queue' gone, add_request_to_queue enable low_first abort_disabled (Some n) entry q queue = Ok (queue', gone) /\ len queue' <= n /\
    match gone with
    | None => queue' = queue ++ [q'] /\ len queue < n
    | Some g => queue' ++ [g] ≡ₚ queue ++ [q'] /\ len queue = n /\ (enable = true -> Forall (fun x => rank_of x <= rank_of g) queue')
    end.
Proof.
  intros Hn Hl Hp Hfresh Hv. unfold add_request_to_queue. rewrite Hv. destruct (validated q q' Hv) as (Hc & _ & Hp').
  assert (Hrid : q_rid q' = q_rid q) by (unfold q_rid; by rewrite Hc).
  unfold abort_on_queued_limit. destruct (Z.leb_spec (len queue + 1) n) as [Hfit|Hfull].
  { step_ok. eexists _, None. split; [reflexivity|]. split; [rewrite len_app; exact Hfit|]. split; [done|lia]. }
  assert (Hln : len queue = n) by lia. destruct enable.
  2:{ step_ok. exists queue, (Some q'). split; [done|]. split; [done|]. by split. }
  specialize (Hp eq_refl). specialize (Hp' eq_refl). set (key x := (rank_of x, entry x)).
  assert (Hkeys : mapM (fun x => p ← rank x; Ok (p, entry x)) queue = Ok (key <$> queue)).
  { clear -Hp. induction Hp as [|x l Hx Hl IH]; [done|]. cbn. rewrite (rank_ok x Hx). cbn. by rewrite IH. }
  rewrite Hkeys. step_ok. destruct (max_index_spec (key <$> queue)) as (i & k & -> & Hi & Hmax).
  { intros He%fmap_nil_inv. rewrite He in Hln. cbn in Hln. unfold len in Hln. cbn in Hln. lia. }
  step_ok. apply list_lookup_fmap_Some in Hi as (c & -> & Hi). rewrite Hi. cbn [of_option]. step_ok. rewrite (rank_ok q' Hp'). step_ok.
  assert (Hcin : c ∈ queue) by (by eapply list_elem_of_lookup_2). rewrite Forall_forall in Hp. rewrite (rank_ok c (Hp c Hcin)). step_ok.
  assert (Htop : forall x, x ∈ queue -> rank_of x <= rank_of c).
  { intros x Hx. specialize (Hmax (key x) ltac:(by apply list_elem_of_fmap_2)). unfold pair_lt in Hmax. cbn in Hmax.
    apply orb_false_iff in Hmax as [Hmax _]. by apply Z.ltb_ge in Hmax. }
  destruct (Z.ltb_spec (rank_of q') (rank_of c)) as [Hlt|Hge].
  - assert (Hne : (q_rid c =? q_rid q') = false).
    { apply Z.eqb_neq. intros He. apply Hfresh. rewrite <- Hrid, <- He. by apply list_elem_of_fmap_2. }
    rewrite Hne. step_ok. pose proof (delete_Permutation _ _ _ Hi) as Hdp. eexists _, (Some c). split; [reflexivity|].
    assert (Hld : len (delete i queue ++ [q']) = len queue) by (apply Permutation_length in Hdp; unfold len; rewrite length_app; cbn in *; lia).
    split; [lia|]. clear Hld. revert Hdp. generalize (delete i queue). intros dl Hdp. split; [|split; [done|]].
    + rewrite Hdp. solve_Permutation.
    + intros _. apply Forall_app. split; [|constructor; [lia|done]]. apply Forall_forall. intros x Hx. apply Htop. rewrite Hdp. by right.
  - step_ok. exists queue, (Some q'). split; [done|]. split; [done|]. split; [done|]. split; [done|]. intros _. apply Forall_forall.
    intros x Hx. specialize (Htop x Hx). lia.
Qed.
End limit.
End Queue.
