(* ===== verification/Intake.v ===== *)
(** * From the client's request to the queue

    _validate_one_request of managers/tokenizer_manager.py, which looks at the
    length of the prompt and the number of tokens asked for before a request is
    sent to the scheduler, and the scheduler's own checks (ArQueue) after it. *)

From S2P Require Import Prelude DllmReq SamplingParams DecodeBatch ArServer ArQueue.
Import Queue.
#[local] Open Scope Z_scope.

Module Intake.

(** max_new_tokens in the dict of sampling parameters. *)
Inductive asked := Absent | Null | Asked (k : Z).

(** The value that SamplingParams has, with the default of its constructor. *)
Definition max_new_of (a : asked) : option Z := match a with Absent => Some 128 | Null => None | Asked k => Some k end.

Section validate.
Context (context_len num_reserved_tokens : Z) (validate_total_tokens allow_auto_truncate : bool).
Context (enable_return_hidden_states enable_custom_logit_processor : bool).

(** _validate_one_request for a generation request: the prompt and the tokens
    asked for that are sent on. *)
Definition validate_one_request (return_hidden_states custom_logit_processor : bool) (a : asked) (input_ids : list Z) : res (list Z * asked) :=
  let input_token_num := len input_ids + num_reserved_tokens in
  '(input_ids, input_token_num) ←
    (if context_len <=? input_token_num then
       if allow_auto_truncate then let ids := slice_to input_ids context_len in Ok (ids, len ids) else Raise ValueError
     else Ok (input_ids, input_token_num));
  a ← (match a with
       | Asked k =>
           if validate_total_tokens && (context_len <=? k + input_token_num) then
             if allow_auto_truncate then Ok (Asked (Z.max 0 (context_len - input_token_num))) else Raise ValueError
           else Ok a
       | _ => Ok a
       end);
  _ ← (if return_hidden_states && negb enable_return_hidden_states then Raise ValueError else Ok tt);
  _ ← (if custom_logit_processor && negb enable_custom_logit_processor then Raise ValueError else Ok tt);
  Ok (input_ids, a).

(** Both sides: the request that is put into the queue. *)
Definition take_request (max_token_pool_size : Z) (hidden custom : bool) (a : asked) (start : Z) (r : req) : res req :=
  '(ids, a) ← validate_one_request hidden custom a (origin_input_ids (info r));
  Ok (handle_generate_request (max_req_len_of context_len max_token_pool_size) allow_auto_truncate (max_new_of a) start (with_prompt r ids)).
End validate.

(** Without a start position the checks of logprobs pass. *)
Lemma handled_logprobs n truncate requested r :
  let q := validate_input_length (max_req_input_len_of n) truncate (init_req_max_new_tokens n requested r) in
  (exists r1, q = Some r1 /\ exists b x, handle_generate_request n truncate requested (-1) r = with_logprob r1 b x) \/ q = None.
Proof.
  cbn zeta. unfold handle_generate_request. destruct (validate_input_length _ _ _) as [r1|]; [left|by right]. exists r1. split; [done|].
  pose proof (len_nonneg (origin_input_ids (info r1))) as Hl. set (start := if _ =? -1 then _ else _).
  assert (Hs : (len (origin_input_ids (info r1)) <? start) = false); [|rewrite Hs; by eexists _, _].
  apply Z.ltb_ge. unfold start. rewrite Z.eqb_refl. cbn [negb]. rewrite andb_false_r, Z.eqb_refl.
  destruct (return_logprob (info r1) && negb (wants_token_ids_logprob (info r1))); [done|]. destruct (_ =? 0); lia.
Qed.

(** The request after the scheduler's checks, without logprobs of the prompt. *)
Lemma handled n truncate requested r :
  let l := len (origin_input_ids (info r)) in
  let r' := handle_generate_request n truncate requested (-1) r in
  (n - 5 <=? l) && negb truncate = false ->
  max_new_tokens (sampling (info r')) = Z.min (default (2 ^ 30) requested) (n - l - 1) /\ out r' = out r /\
  origin_input_ids (info r') = if n - 5 <=? l then slice_to (origin_input_ids (info r)) (n - 5) else origin_input_ids (info r).
Proof.
  cbn zeta. intros Hv. destruct (handled_logprobs n truncate requested r) as [(q & Hq & b & x & ->)|Hq]; unfold validate_input_length, max_req_input_len_of in Hq; cbn in Hq |- *.
  - destruct (n - 5 <=? len (origin_input_ids (info r))), truncate; try done; injection Hq as <-; done.
  - destruct (n - 5 <=? len (origin_input_ids (info r))), truncate; done.
Qed.

(** What the validation lets through without truncating anything. *)
Lemma accepted_as_is ctx total hid cus h c a ids ids' a' :
  validate_one_request ctx 0 total false hid cus h c a ids = Ok (ids', a') ->
  ids' = ids /\ a' = a /\ len ids < ctx /\ (total = true -> forall k, a = Asked k -> k + len ids < ctx).
Proof.
  unfold validate_one_request. rewrite Z.add_0_r. destruct (Z.leb_spec ctx (len ids)) as [|Hl]; [done|]. step_ok.
  destruct a as [| |k]; cbn [andb]; step_ok.
  3: destruct total; cbn [andb]; [destruct (Z.leb_spec ctx (k + len ids)) as [|Hk]; [done|]|]; step_ok.
  all: destruct (h && negb hid); [done|]; step_ok; destruct (c && negb cus); [done|]; step_ok; intros [= <- <-]; split; [done|]; split; [done|]; split; [done|].
  all: try done. intros _ k' [= <-]. done.
Qed.

(** The two validations, of the tokenizer manager and of the scheduler.  A
    request that the first lets through, on a server whose pool holds a whole
    context: when its prompt is at least six tokens below the context length it
    reaches the queue with its prompt, and with the number of tokens it asked
    for, but one less when prompt and tokens together are the most that the
    first allows; a longer prompt is turned away by the second, and never
    generated from. *)
Theorem validators_compared ctx pool hid cus h c a r r' :
  ctx <= pool -> to_finish (out r) = None -> take_request ctx 0 true false hid cus pool h c a (-1) r = Ok r' ->
  let ids := origin_input_ids (info r) in
  len ids < ctx /\
  if len ids <? ctx - 6 then
    origin_input_ids (info r') = ids /\ to_finish (out r') = None /\
    forall k, a = Asked k -> k + len ids < ctx /\ max_new_tokens (sampling (info r')) = if k + len ids =? ctx - 1 then k - 1 else k
  else origin_input_ids (info r') = [0] /\ to_finish (out r') = Some FINISH_ABORT.
Proof.
  intros Hp Hto. unfold take_request. intros ([ids a'] & Hv & H)%res_bind_Ok. injection H as <-. destruct (accepted_as_is _ _ _ _ _ _ _ _ _ _ Hv) as (-> & -> & Hl & Hk).
  cbn zeta. split; [done|]. set (n := max_req_len_of ctx pool). assert (Hn : n = ctx - 1) by (unfold n, max_req_len_of; lia). clearbody n. subst n.
  pose proof (handled (ctx - 1) false (max_new_of a) (with_prompt r (origin_input_ids (info r)))) as Hh. cbn [info with_prompt set_info origin_input_ids] in Hh.
  destruct (Z.ltb_spec (len (origin_input_ids (info r))) (ctx - 6)) as [Hs|Hs].
  - destruct (Z.leb_spec (ctx - 1 - 5) (len (origin_input_ids (info r)))) as [|_]; [lia|]. destruct Hh as (H1 & H2 & H3); [done|]. split; [done|].
    split; [by rewrite H2|]. intros k ->. specialize (Hk eq_refl k eq_refl). split; [done|]. rewrite H1. cbn. destruct (Z.eqb_spec (k + len (origin_input_ids (info r))) (ctx - 1)); lia.
  - unfold handle_generate_request, validate_input_length, init_req_max_new_tokens, max_req_input_len_of. cbn [info with_max_new with_prompt set_info origin_input_ids].
    destruct (Z.leb_spec (ctx - 1 - 5) (len (origin_input_ids (info r)))) as [_|]; [done|lia].
Qed.

(** At its limit, also a negative one. *)
Lemma limit_reached str_finish g q :
  finished q = false -> to_finish (out q) = None -> max_new_tokens (sampling (info q)) <= len (output_ids (out q)) ->
  let q' := check_finished str_finish g 1 q in
  finished q' = true /\ output_ids (out q') = output_ids (out q) /\ output_ids_through_stop q' = slice_to (output_ids (out q)) (max_new_tokens (sampling (info q))).
Proof. intros Hf Ht Hl. unfold check_finished. cbn zeta. rewrite Hf, Ht, (proj2 (Z.leb_le _ _) Hl). done. Qed.

(** C35: automatic truncation does not answer.  With allow_auto_truncate, a prompt
    of at least the context length is cut by the tokenizer manager to the
    context length, and by the scheduler to its input limit, but only after the
    number of new tokens has been computed from the longer one: it is negative,
    and the request finishes with its first token and an empty output. *)
Theorem truncated_request_unanswered ctx pool total hid cus h c a r r' str_finish g t :
  6 < max_req_len_of ctx pool -> ctx <= len (origin_input_ids (info r)) -> output_ids (out r) = [] -> finished r = false -> to_finish (out r) = None ->
  take_request ctx 0 total true hid cus pool h c a (-1) r = Ok r' ->
  max_new_tokens (sampling (info r')) <= -2 /\ len (origin_input_ids (info r')) = max_req_input_len_of (max_req_len_of ctx pool) /\
  let q := check_finished str_finish g 1 (Decode.append_token t r') in
  finished q = true /\ output_ids (out q) = [t] /\ output_ids_through_stop q = [].
Proof.
  intros Hn Hl Ho Hf Hto. unfold take_request. intros ([ids a'] & Hv & H)%res_bind_Ok. injection H as <-.
  set (n := max_req_len_of ctx pool) in *. assert (Hc : n <= ctx - 1) by (unfold n, max_req_len_of; lia). clearbody n.
  assert (Hids : len ids = ctx).
  { unfold validate_one_request in Hv. rewrite Z.add_0_r, (proj2 (Z.leb_le _ _) Hl) in Hv. apply res_bind_Ok in Hv as ([i k] & [= <- <-] & Hv).
    apply res_bind_Ok in Hv as (x & _ & Hv). apply res_bind_Ok in Hv as (y & _ & Hv). apply res_bind_Ok in Hv as (z & _ & [= <- _]). rewrite len_slice_to; lia. }
  pose proof (handled n true (max_new_of a') (with_prompt r ids)) as Hh. cbn [info with_prompt set_info origin_input_ids] in Hh. rewrite andb_false_r in Hh.
  destruct (Hh eq_refl) as (H1 & H2 & H3). rewrite Hids, (proj2 (Z.leb_le (n - 5) ctx)) in H3 by lia. clear Hh. set (r' := handle_generate_request _ _ _ _ _) in *.
  assert (Hm : max_new_tokens (sampling (info r')) <= -2) by (rewrite H1; lia). split; [done|]. split; [rewrite H3; unfold max_req_input_len_of; rewrite len_slice_to; lia|].
  cbn in H2. set (q0 := Decode.append_token t r').
  assert (Hq : finished q0 = false /\ to_finish (out q0) = None /\ output_ids (out q0) = [t] /\ info q0 = info r') by (unfold q0, finished in *; cbn; by rewrite H2, Ho).
  destruct Hq as (Q1 & Q2 & Q3 & Q4). destruct (limit_reached str_finish g q0 Q1 Q2) as (L1 & L2 & L3); [rewrite Q3, Q4; unfold len; cbn [length]; lia|].
  cbn zeta. rewrite L2, L3, Q3, Q4. split; [done|]. split; [done|]. unfold slice_to, clamp, len. cbn [length].
  destruct (Z.ltb_spec (max_new_tokens (sampling (info r'))) 0); [|lia]. by replace (Z.to_nat _) with 0%nat by lia.
Qed.

(** ** Requests with a context of twenty tokens *)

Definition short_request (n : nat) : req :=
  Req (ReqInfo 1 (replicate n 5) (DllmReq.SamplingParams 128 false []) [7] None 1000 false (-1) false false)
      (ReqOut [] no_channels None None None) (ReqKV None 0 0 false false 0) (ReqIn [] [] 0 0 0 None 0).

Definition taken (n : nat) (a : asked) (truncate : bool) : res req := take_request 20 0 true truncate false false 64 false false a (-1) (short_request n).
Definition queued (n : nat) (a : asked) (truncate : bool) : req := match taken n a truncate with Ok r => r | Raise _ => short_request n end.

Lemma validators_compared_witness :
  taken 4 (Asked 15) false = Ok (queued 4 (Asked 15) false) /\ max_new_tokens (sampling (info (queued 4 (Asked 15) false))) = 14 /\
  taken 4 (Asked 16) false = Raise ValueError.
Proof.
  assert (H : taken 4 (Asked 15) false = Ok (queued 4 (Asked 15) false)) by reflexivity. split; [exact H|]. split; [|reflexivity].
  destruct (validators_compared 20 64 false false false false (Asked 15) (short_request 4) _ ltac:(lia) eq_refl H) as [_ (_ & _ & Hk)].
  exact (proj2 (Hk 15 eq_refl)).
Defined.

Lemma truncated_request_unanswered_witness :
  taken 25 (Asked 8) true = Ok (queued 25 (Asked 8) true) /\ max_new_tokens (sampling (info (queued 25 (Asked 8) true))) <= -2 /\
  output_ids_through_stop (check_finished (fun _ => None) (fun _ => false) 1 (Decode.append_token 9 (queued 25 (Asked 8) true))) = [].
Proof.
  assert (H : taken 25 (Asked 8) true = Ok (queued 25 (Asked 8) true)) by reflexivity. split; [exact H|].
  destruct (truncated_request_unanswered 20 64 true false false false false (Asked 8) (short_request 25) _ (fun _ => None) (fun _ => false) 9 ltac:(reflexivity) ltac:(discriminate) eq_refl eq_refl eq_refl H)
    as (H1 & _ & _ & _ & H2).
  split; [exact H1|exact H2].
Defined.
End Intake.
