(* ===== verification/Sessions.v ===== *)
(** * Sessions

    session/session_controller.py: the tree of requests of a session with its
    dictionary, the request that continues an earlier one, and the controller
    with deferred closing and timeouts.  SessionReqNodes are objects, here
    indices into a store; a dictionary is a list in insertion order.  Images are
    not modelled, so padded and unpadded prompts are the same, and
    capacity_of_str_len, which nothing reads, is left out; the clock is an
    argument, in any unit. *)

From S2P Require Import Prelude DllmReq DecodeBatch ArServer ArQueue.
Import Queue.
#[local] Open Scope Z_scope.

Module Sessions.

(** SessionReqNode *)
Record node := Node { n_req : req; n_parent : option nat; n_children : list nat }.

Record session := Session {
  streaming : bool;
  timeout : option Z;
  last_active_time : Z;
  nodes : list node;
  req_nodes : list (Z * nat);
  close_on_finish : bool;
  inflight : bool;
}.

Definition new_session (streaming : bool) (timeout : option Z) (now : Z) : session := Session streaming timeout now [] [] false false.

Definition set_nodes (s : session) (l : list node) : session :=
  Session (streaming s) (timeout s) (last_active_time s) l (req_nodes s) (close_on_finish s) (inflight s).
Definition set_dict (s : session) (d : list (Z * nat)) : session :=
  Session (streaming s) (timeout s) (last_active_time s) (nodes s) d (close_on_finish s) (inflight s).
Definition set_close (s : session) (b : bool) : session :=
  Session (streaming s) (timeout s) (last_active_time s) (nodes s) (req_nodes s) b (inflight s).
Definition set_inflight (s : session) (b : bool) : session :=
  Session (streaming s) (timeout s) (last_active_time s) (nodes s) (req_nodes s) (close_on_finish s) b.
Definition set_active (s : session) (now : Z) : session :=
  Session (streaming s) (timeout s) now (nodes s) (req_nodes s) (close_on_finish s) (inflight s).

(** Dictionaries *)
Definition get {A} (k : Z) (d : list (Z * A)) : option A := snd <$> List.find (fun e => fst e =? k) d.
Definition setitem {A} (k : Z) (v : A) (d : list (Z * A)) : list (Z * A) :=
  if bool_decide (k ∈ fst <$> d) then (fun e => if fst e =? k then (k, v) else e) <$> d else d ++ [(k, v)].
Definition delitem {A} (k : Z) (d : list (Z * A)) : res (list (Z * A)) :=
  if bool_decide (k ∈ fst <$> d) then Ok (filter (fun e => fst e <> k) d) else Raise KeyError.

(** ** Nodes *)

(** [if finished_reason is None: to_finish = FINISH_ABORT()] *)
Definition abort_req_obj (r : req) : req :=
  let o := out r in
  match finished_reason o with
  | None => set_out r (ReqOut (output_ids o) (channels o) (finished_reason o) (finished_len o) (Some FINISH_ABORT))
  | Some _ => r
  end.

Definition abort (n : nat) (s : session) : session :=
  set_nodes s (alter (fun nd => Node (abort_req_obj (n_req nd)) (n_parent nd) (n_children nd)) n (nodes s)).

(** The end of [clear]: this node alone. *)
Definition clear_self (s : session) (n : nat) : res session :=
  nd ← of_option KeyError (nodes s !! n);
  let s := abort n s in
  d ← delitem (rid (info (n_req nd))) (req_nodes s);
  Ok (set_dict s d).

(** [clear]; [fuel] bounds the depth of the tree. *)
Fixpoint clear (fuel : nat) (s : session) (n : nat) : res session :=
  match fuel with
  | O => Raise RuntimeError
  | S fuel =>
      nd ← of_option KeyError (nodes s !! n);
      s ← foldM (clear fuel) s (n_children nd);
      clear_self s n
  end.

Definition clear_children (s : session) (n : nat) : res session :=
  nd ← of_option KeyError (nodes s !! n);
  s ← foldM (clear (length (nodes s))) s (n_children nd);
  Ok (set_nodes s (alter (fun nd => Node (n_req nd) (n_parent nd) []) n (nodes s))).

(** [for _, req_node in self.req_nodes.items(): req_node.clear(self.req_nodes)]:
    the iterator raises when the size of the dictionary has changed, which it
    always has after the first node, since clearing deletes it. *)
Definition clear_all (s : session) : res session :=
  match req_nodes s with
  | [] => Ok s
  | (_, n) :: _ =>
      s' ← clear (length (nodes s)) s n;
      if bool_decide (length (req_nodes s') = length (req_nodes s)) then Ok s' else Raise RuntimeError
  end.

(** ** Requests *)

Record session_params := SessionParams { sp_rid : option Z; sp_replace : bool; sp_drop_previous_output : bool; sp_offset : option Z }.

Definition nonzero (o : option Z) : bool := match o with Some x => negb (x =? 0) | None => false end.

(** The request before, if any, whether to abort, and the session. *)
Definition find_last (s : session) (sp : session_params) : res (session * option nat * bool) :=
  if streaming s then
    if inflight s then Ok (s, None, true)
    else if sp_replace sp then Ok (s, None, true)
    else if sp_drop_previous_output sp then Ok (s, None, true)
    else if nonzero (sp_offset sp) then Ok (s, None, true)
    else match req_nodes s with
         | [] => Ok (s, None, false)
         | [(_, n)] => Ok (s, Some n, false)
         | _ => Raise AssertionError
         end
  else if sp_replace sp then
    match sp_rid sp with
    | None => s ← clear_all s; Ok (s, None, false)
    | Some k =>
        match get k (req_nodes s) with
        | None => Ok (s, None, true)
        | Some n => s ← clear_children (abort n s) n; Ok (s, Some n, false)
        end
    end
  else
    match sp_rid sp with
    | None => Ok (s, None, false)
    | Some k =>
        match get k (req_nodes s) with
        | None => Ok (s, None, true)
        | Some n =>
            nd ← of_option KeyError (nodes s !! n);
            Ok (s, Some n, negb (finished (n_req nd)))
        end
    end.

(** The prompt that continues [last]; [bos] is the tokenizer's. *)
Definition continue_ids (bos : option Z) (sp : session_params) (last : req) (ids : list Z) : list Z :=
  let ids := match bos, ids with Some b, x :: l => if x =? b then l else ids | _, _ => ids end in
  let before := if sp_drop_previous_output sp then origin_input_ids (info last)
                else origin_input_ids (info last) ++ slice_to (output_ids (out last)) (max_new_tokens (sampling (info last))) in
  match sp_offset sp with
  | Some off => if off =? 0 then before ++ ids else slice_to before off ++ ids
  | None => before ++ ids
  end.

(** SessionReqNode(req, parent) *)
Definition add_node (s : session) (r : req) (parent : option nat) : session * nat :=
  let n := length (nodes s) in
  let l := match parent with
           | Some p => alter (fun nd => Node (n_req nd) (n_parent nd) (n_children nd ++ [n])) p (nodes s)
           | None => nodes s
           end in
  (set_nodes s (l ++ [Node r parent []]), n).

(** create_req; [r] is the new request as made from its own input. *)
Definition create_req (now : Z) (bos : option Z) (sp : session_params) (r : req) (s : session) : res (session * req) :=
  let s := set_active s now in
  '(s, last, abort) ← find_last s sp;
  r ← (match last with
       | Some n => nd ← of_option KeyError (nodes s !! n); Ok (with_prompt r (continue_ids bos sp (n_req nd) (origin_input_ids (info r))))
       | None => Ok r
       end);
  if abort : bool then Ok (s, set_finish_with_abort r)
  else if streaming s then Ok (set_inflight s true, r)
  else
    let '(s, n) := add_node s r last in
    Ok (set_dict s (setitem (rid (info r)) n (req_nodes s)), r).

(** A streaming request finished. *)
Definition finish_req (s : session) (r : req) : res session :=
  let s := set_inflight s false in
  _ ← (match req_nodes s with [] => Ok tt | [_] => Ok tt | _ => Raise ValueError end);
  let '(s, n) := add_node s r None in
  Ok (set_dict s [(rid (info r), n)]).

Definition abort_req (s : session) : session := set_inflight s false.

(** ** The controller *)

Record controller := Controller { sessions : list (Z * session); last_reap_time : Z }.

Definition set_sessions (c : controller) (l : list (Z * session)) : controller := Controller l (last_reap_time c).

(** open: whether it succeeded. *)
Definition open (sid : option Z) (streaming : bool) (timeout : option Z) (now : Z) (c : controller) : controller * bool :=
  match sid with
  | None => (c, false)
  | Some k =>
      match get k (sessions c) with
      | Some _ => (c, false)
      | None => (set_sessions c (setitem k (new_session streaming timeout now) (sessions c)), true)
      end
  end.

Definition has_unfinished_request (s : session) : res bool :=
  if streaming s && inflight s then Ok true
  else if streaming s && negb (bool_decide (req_nodes s = [])) then
    match req_nodes s with
    | [(_, n)] => nd ← of_option KeyError (nodes s !! n); Ok (negb (finished (n_req nd)))
    | _ => Raise AssertionError
    end
  else Ok false.

(** _close: the controller, and whether tree_cache.release_session was called. *)
Definition close_session (k : Z) (c : controller) : res (controller * bool) :=
  s ← of_option KeyError (get k (sessions c));
  u ← has_unfinished_request s;
  if u : bool then Ok (set_sessions c (setitem k (set_close s true) (sessions c)), false)
  else d ← delitem k (sessions c); Ok (set_sessions c d, true).

(** close *)
Definition close (k : Z) (c : controller) : res (controller * bool) :=
  match get k (sessions c) with None => Ok (c, false) | Some _ => close_session k c end.

Definition is_timed_out (now : Z) (s : session) : bool := match timeout s with None => false | Some t => t <? now - last_active_time s end.

Definition all_requests_finished (s : session) : bool :=
  forallb (fun '(_, n) => match nodes s !! n with Some nd => finished (n_req nd) | None => true end) (req_nodes s).

(** maybe_reap: the sessions that were released. *)
Definition reap_pending (c : controller) (k : Z) : res (controller * bool) :=
  s ← of_option KeyError (get k (sessions c));
  close_session k (set_sessions c (setitem k (set_close s false) (sessions c))).

Definition reap_each (f : controller -> Z -> res (controller * bool)) (c : controller) (l : list Z) : res (controller * list Z) :=
  foldM (fun '(c, out) k => '(c, b) ← f c k; Ok (c, if b : bool then out ++ [k] else out)) (c, []) l.

Definition maybe_reap (now interval : Z) (c : controller) : res (controller * list Z) :=
  if interval <? now - last_reap_time c then
    let c := Controller (sessions c) now in
    let pending := fst <$> filter (fun e => (close_on_finish (snd e) && all_requests_finished (snd e)) = true) (sessions c) in
    '(c, out1) ← reap_each reap_pending c pending;
    let timed_out := fst <$> filter (fun e => is_timed_out now (snd e) = true) (sessions c) in
    '(c, out2) ← reap_each (fun c k => close_session k c) c timed_out;
    Ok (c, out1 ++ out2)
  else Ok (c, []).
End Sessions.
