(* ===== verification/SessionsProofs.v ===== *)
(** * What sessions keep

    The tree of requests of a session: an invariant that every operation keeps
    while request ids are not used twice, what replacing a request removes, and
    the two ways in which it raises. *)

From S2P Require Import Prelude DllmReq DecodeBatch ArServer ArQueue Sessions.
Import Queue Sessions.
#[local] Open Scope Z_scope.

(** ** Dictionaries *)

Lemma get_Some {A} k (v : A) d : NoDup (fst <$> d) -> get k d = Some v <-> (k, v) ∈ d.
Proof.
  unfold get. induction d as [|[k' v'] d IH]; intros Hnd; cbn; [split; [done|by intros ?%not_elem_of_nil]|]. cbn in Hnd. apply NoDup_cons in Hnd as [Hni Hnd].
  rewrite elem_of_cons. destruct (Z.eqb_spec k' k) as [->|Hne]; cbn.
  - split; [intros [= ->]; by left|]. intros [[= ->]|Hin]; [done|]. destruct Hni. apply list_elem_of_fmap. by exists (k, v).
  - rewrite IH by done. split; [by right|]. by intros [[= -> _]|?].
Qed.

Lemma get_None {A} k (d : list (Z * A)) : get k d = None -> k ∉ fst <$> d.
Proof.
  unfold get. induction d as [|[k' v'] d IH]; cbn; [intros _; by apply not_elem_of_nil|]. destruct (Z.eqb_spec k' k) as [->|Hne]; [done|].
  intros H [?|Hin]%elem_of_cons; [congruence|]. by apply IH.
Qed.

Lemma setitem_fresh {A} k (v : A) d : k ∉ fst <$> d -> setitem k v d = d ++ [(k, v)].
Proof. intros H. unfold setitem. by rewrite bool_decide_eq_false_2. Qed.

Lemma delitem_live {A} k (v : A) d : (k, v) ∈ d -> delitem k d = Ok (filter (fun e => fst e <> k) d).
Proof. intros H. unfold delitem. rewrite bool_decide_eq_true_2; [done|]. apply list_elem_of_fmap. by exists (k, v). Qed.

Lemma filter_same {A} (P Q : A -> Prop) `{!forall x, Decision (P x), !forall x, Decision (Q x)} (l : list A) : (forall x, x ∈ l -> P x <-> Q x) -> filter P l = filter Q l.
Proof.
  induction l as [|x l IH]; intros Hx; [done|]. rewrite !filter_cons, IH by (intros y Hy; apply Hx; by right). specialize (Hx x ltac:(by left)).
  destruct (decide (P x)), (decide (Q x)); tauto.
Qed.

Lemma filter_keys {A} (P : Z * A -> Prop) `{!forall x, Decision (P x)} (d : list (Z * A)) : NoDup (fst <$> d) -> NoDup (fst <$> filter P d).
Proof.
  induction d as [|[k v] d IH]; [done|]. rewrite fmap_cons. intros [Hni Hnd]%NoDup_cons. rewrite filter_cons. destruct (decide _); [|by apply IH].
  rewrite fmap_cons. apply NoDup_cons. split; [|by apply IH]. intros (e & He & [_ Hin]%list_elem_of_filter)%list_elem_of_fmap. apply Hni, list_elem_of_fmap. by exists e.
Qed.

(** ** The invariant *)

Definition live (s : session) (n : nat) : Prop := n ∈ snd <$> req_nodes s.

Record wf (s : session) : Prop := {
  wf_keys : NoDup (fst <$> req_nodes s);
  wf_dict : forall k n, (k, n) ∈ req_nodes s -> exists nd, nodes s !! n = Some nd /\ rid (info (n_req nd)) = k;
  wf_child : forall n nd c, live s n -> nodes s !! n = Some nd -> c ∈ n_children nd ->
    live s c /\ (n < c)%nat /\ exists cd, nodes s !! c = Some cd /\ n_parent cd = Some n;
  wf_nodup : forall n nd, live s n -> nodes s !! n = Some nd -> NoDup (n_children nd);
  wf_single : streaming s = true -> (length (req_nodes s) <= 1)%nat;
}.

Lemma new_wf b t now : wf (new_session b t now).
Proof. split; cbn; try done; try (constructor); try lia; intros *; by intros ?%not_elem_of_nil. Qed.

Lemma live_key s n : live s n <-> exists k, (k, n) ∈ req_nodes s.
Proof. unfold live. rewrite list_elem_of_fmap. split; [intros ([k m] & -> & H); by exists k|]. intros [k H]. by exists (k, n). Qed.

(** ** Below a node *)

Definition kids (l : list node) (n : nat) : list nat := match l !! n with Some nd => n_children nd | None => [] end.

(** The nodes at and below [n], in the order in which [clear] removes them. *)
Fixpoint sub (fuel : nat) (l : list node) (n : nat) : list nat :=
  match fuel with O => [] | S fuel => (kids l n ≫= sub fuel l) ++ [n] end.

Fixpoint fits (fuel : nat) (l : list node) (n : nat) : Prop :=
  match fuel with O => False | S fuel => Forall (fits fuel l) (kids l n) end.

(** Removing a set of nodes. *)
Definition cut (D : list nat) (s : session) : session :=
  set_dict (set_nodes s (imap (fun i nd => if bool_decide (i ∈ D) then Node (abort_req_obj (n_req nd)) (n_parent nd) (n_children nd) else nd) (nodes s)))
    (filter (fun e => snd e ∉ D) (req_nodes s)).

Lemma abort_twice r : abort_req_obj (abort_req_obj r) = abort_req_obj r.
Proof. unfold abort_req_obj. destruct (finished_reason (out r)) eqn:H; cbn; by rewrite ?H. Qed.

Lemma abort_rid r : info (abort_req_obj r) = info r.
Proof. unfold abort_req_obj. by destruct (finished_reason (out r)). Qed.

Lemma cut_lookup D s n : nodes (cut D s) !! n = (fun nd => if bool_decide (n ∈ D) then Node (abort_req_obj (n_req nd)) (n_parent nd) (n_children nd) else nd) <$> nodes s !! n.
Proof. unfold cut. cbn. by rewrite list_lookup_imap. Qed.

Lemma cut_kids D s n : kids (nodes (cut D s)) n = kids (nodes s) n.
Proof. unfold kids. rewrite cut_lookup. destruct (nodes s !! n); [|done]. cbn. by destruct (bool_decide _). Qed.

Lemma cut_sub D s fuel n : sub fuel (nodes (cut D s)) n = sub fuel (nodes s) n.
Proof.
  revert n. induction fuel as [|fuel IH]; intros n; [done|]. cbn [sub]. rewrite cut_kids. f_equal. apply bind_ext_in. intros x _. apply IH.
Qed.

Lemma cut_fits D s fuel n : fits fuel (nodes (cut D s)) n <-> fits fuel (nodes s) n.
Proof.
  revert n. induction fuel as [|fuel IH]; intros n; [done|]. cbn [fits]. rewrite cut_kids. rewrite !Forall_forall. split; intros H x Hx; apply IH; by apply H.
Qed.

Lemma cut_cut D D' s : cut D' (cut D s) = cut (D ++ D') s.
Proof.
  unfold cut, set_dict, set_nodes. cbn. f_equal.
  - apply list_eq. intros i. rewrite !list_lookup_imap. destruct (nodes s !! i) as [nd|]; [|done]. cbn. f_equal.
    rewrite !bool_decide_decide. destruct (decide (i ∈ D)) as [H1|H1], (decide (i ∈ D')) as [H2|H2], (decide (i ∈ D ++ D')) as [H3|H3]; cbn; rewrite ?abort_twice; try done;
      rewrite elem_of_app in H3; tauto.
  - rewrite list_filter_filter. apply list_filter_iff. intros [k n]. cbn. rewrite not_elem_of_app. tauto.
Qed.

Lemma cut_live D s n : live (cut D s) n <-> live s n /\ n ∉ D.
Proof.
  rewrite !live_key. unfold cut. cbn. split.
  - intros [k [H1 H2]%list_elem_of_filter]. split; [by exists k|done].
  - intros [[k H1] H2]. exists k. by apply list_elem_of_filter.
Qed.

(** The part of the invariant that removing relies on. *)
Definition dict_ok (s : session) : Prop :=
  NoDup (fst <$> req_nodes s) /\ forall k n, (k, n) ∈ req_nodes s -> exists nd, nodes s !! n = Some nd /\ rid (info (n_req nd)) = k.

Lemma cut_dict_ok D s : dict_ok s -> dict_ok (cut D s).
Proof.
  intros [H1 H2]. split.
  - unfold cut. cbn. by apply filter_keys.
  - intros k n Hk. unfold cut in Hk. cbn in Hk. apply list_elem_of_filter in Hk as [_ Hk]. destruct (H2 k n Hk) as (nd & Hnd & Hr).
    rewrite cut_lookup, Hnd. cbn. eexists. split; [done|]. destruct (bool_decide _); [|done]. cbn. by rewrite abort_rid.
Qed.

Lemma clear_self_cut s n : dict_ok s -> live s n -> clear_self s n = Ok (cut [n] s).
Proof.
  intros [Hnd Hd] [k Hk]%live_key. destruct (Hd k n Hk) as (nd & Hn & Hr). unfold clear_self. rewrite Hn. cbn [of_option]. step_ok.
  rewrite Hr. change (req_nodes (abort n s)) with (req_nodes s). rewrite (delitem_live k n) by done. step_ok. f_equal. unfold cut, abort, set_dict, set_nodes. cbn. f_equal.
  - apply list_eq. intros i. rewrite list_lookup_imap. destruct (decide (i = n)) as [->|Hne].
    + rewrite list_lookup_alter_eq, Hn. cbn. by rewrite bool_decide_eq_true_2 by (by left).
    + rewrite list_lookup_alter_ne by done. destruct (nodes s !! i); [|done]. cbn. rewrite bool_decide_eq_false_2; [done|]. by intros ?%list_elem_of_singleton.
  - apply filter_same. intros [k' n'] Hin. cbn. rewrite list_elem_of_singleton. split.
    + intros Hne ->. apply Hne. destruct (Hd k' n Hin) as (nd' & Hn' & Hr'). congruence.
    + intros Hne ->. apply Hne. apply (get_Some k n') in Hin; [|done]. apply (get_Some k n) in Hk; [|done]. congruence.
Qed.

Lemma NoDup_bind_part {A B} (f : A -> list B) l x : NoDup (l ≫= f) -> x ∈ l -> NoDup (f x).
Proof.
  induction l as [|y l IH]; [by intros _ ?%not_elem_of_nil|]. rewrite bind_cons. intros (H1 & _ & H2)%NoDup_app [->|Hx]%elem_of_cons; [done|]. by apply IH.
Qed.

Lemma cut_nil s : cut [] s = s.
Proof.
  unfold cut, set_dict, set_nodes. cbn. destruct s; cbn. f_equal.
  - apply list_eq. intros i. rewrite list_lookup_imap. cbn. by destruct (_ !! i).
  - rewrite (filter_same _ (fun _ => True)); [|intros x _; split; [done|]; by intros _ ?%not_elem_of_nil]. induction req_nodes0 as [|x l IH]; [done|]. rewrite filter_cons. by f_equal.
Qed.

(** Clearing a tree removes what is below it, and succeeds. *)
Lemma clear_list_cut (f : session -> nat -> res session) (D : nat -> list nat) : forall cs s,
  (forall s' c, (exists E, s' = cut E s) -> c ∈ cs -> dict_ok s' -> (forall m, m ∈ D c -> live s' m) -> f s' c = Ok (cut (D c) s')) ->
  dict_ok s -> NoDup (cs ≫= D) -> (forall m, m ∈ cs ≫= D -> live s m) -> foldM f s cs = Ok (cut (cs ≫= D) s).
Proof.
  induction cs as [|c cs IH]; intros s Hf Hd Hnd Hl; cbn [foldM].
  { cbn. by rewrite cut_nil. }
  rewrite bind_cons in *. apply NoDup_app in Hnd as (Hn1 & Hn12 & Hn2).
  rewrite Hf; [|by exists []; rewrite cut_nil|by left|done|intros m Hm; apply Hl, elem_of_app; by left]. step_ok.
  rewrite IH; [by rewrite cut_cut| |by apply cut_dict_ok|done|].
  - intros s' c' [E ->] Hc. apply Hf; [exists (D c ++ E); by rewrite cut_cut|by right].
  - intros m Hm. apply cut_live. split; [apply Hl, elem_of_app; by right|]. intros Hin. by apply (Hn12 m).
Qed.

Lemma clear_cut fuel : forall s n,
  dict_ok s -> fits fuel (nodes s) n -> NoDup (sub fuel (nodes s) n) -> (forall m, m ∈ sub fuel (nodes s) n -> live s m) ->
  clear fuel s n = Ok (cut (sub fuel (nodes s) n) s).
Proof.
  induction fuel as [|fuel IH]; intros s n Hd Hfit Hnd Hl; [done|]. cbn [clear sub fits] in *. apply NoDup_app in Hnd as (Hn1 & Hn12 & _).
  assert (Hln : live s n) by (apply Hl, elem_of_app; right; by left). destruct (proj1 (live_key s n) Hln) as [k Hk]. destruct (proj2 Hd k n Hk) as (nd & Hn & _).
  assert (Hkids : kids (nodes s) n = n_children nd) by (unfold kids; by rewrite Hn). rewrite Hn. cbn [of_option]. step_ok. rewrite <- Hkids.
  rewrite (clear_list_cut (clear fuel) (sub fuel (nodes s))).
  - step_ok. rewrite clear_self_cut; [by rewrite cut_cut|by apply cut_dict_ok|]. apply cut_live. split; [done|]. intros Hin. apply (Hn12 n Hin). by left.
  - intros s' c [E ->] Hc Hd' Hl'. rewrite <- (cut_sub E s). apply IH; [done| | |].
    + apply cut_fits. rewrite Forall_forall in Hfit. by apply Hfit.
    + rewrite cut_sub. by eapply NoDup_bind_part.
    + intros m Hm. apply Hl'. by rewrite <- (cut_sub E s).
  - done.
  - done.
  - intros m Hm. apply Hl, elem_of_app. by left.
Qed.

(** ** Descendants *)

Inductive desc (l : list node) : nat -> nat -> Prop :=
  | desc_refl n : desc l n n
  | desc_step n m c : desc l n m -> c ∈ kids l m -> desc l n c.

Lemma desc_trans l a b c : desc l a b -> desc l b c -> desc l a c.
Proof. induction 2; [done|]. by eapply desc_step; [apply IHdesc|]. Qed.

Lemma sub_desc fuel l : forall n m, m ∈ sub fuel l n -> desc l n m.
Proof.
  induction fuel as [|fuel IH]; intros n m; cbn [sub]; [by intros ?%not_elem_of_nil|]. intros [(c & Hm & Hc)%list_elem_of_bind|Hm%list_elem_of_singleton]%elem_of_app.
  - apply (desc_trans _ _ c); [|by apply IH]. by apply (desc_step _ _ n); [constructor|].
  - subst. constructor.
Qed.

Lemma sub_self fuel l n : fits fuel l n -> n ∈ sub fuel l n.
Proof. destruct fuel; [done|]. intros _. cbn. apply elem_of_app. right. by left. Qed.

Lemma sub_closed fuel l : forall n m c, fits fuel l n -> m ∈ sub fuel l n -> c ∈ kids l m -> c ∈ sub fuel l n.
Proof.
  induction fuel as [|fuel IH]; intros n m c; cbn [fits sub]; [done|]. rewrite Forall_forall. intros Hf [(x & Hm & Hx)%list_elem_of_bind|Hm%list_elem_of_singleton]%elem_of_app Hc; apply elem_of_app; left; apply list_elem_of_bind.
  - exists x. split; [|done]. by apply (IH x m); [apply Hf| |].
  - subst. exists c. split; [|done]. by apply sub_self, Hf.
Qed.

Lemma desc_sub fuel l n m : fits fuel l n -> desc l n m -> m ∈ sub fuel l n.
Proof. intros Hf Hd. induction Hd as [n|n m c _ IH Hc]; [by apply sub_self|]. by apply (sub_closed _ _ n m); [|apply IH|]. Qed.

Section tree.
Context (s : session) (Hwf : wf s).
Notation l := (nodes s).

Lemma live_node n : live s n -> exists nd, l !! n = Some nd /\ kids l n = n_children nd.
Proof. intros [k Hk]%live_key. destruct (wf_dict s Hwf k n Hk) as (nd & Hn & _). exists nd. unfold kids. by rewrite Hn. Qed.

Lemma live_kid n c : live s n -> c ∈ kids l n -> live s c /\ (n < c)%nat /\ exists cd, l !! c = Some cd /\ n_parent cd = Some n.
Proof. intros Hn Hc. destruct (live_node n Hn) as (nd & Hnd & Hk). rewrite Hk in Hc. by apply (wf_child s Hwf n nd). Qed.

Lemma live_lt n : live s n -> (n < length l)%nat.
Proof. intros Hn. destruct (live_node n Hn) as (nd & Hnd & _). by apply lookup_lt_Some in Hnd. Qed.

Lemma desc_live n m : live s n -> desc l n m -> live s m /\ (n <= m)%nat.
Proof. intros Hn. induction 1 as [n|n m c _ IH Hc]; [done|]. destruct (IH Hn) as [Hm Hle]. destruct (live_kid m c Hm Hc) as (? & ? & _). split; [done|lia]. Qed.

Lemma live_fits fuel : forall n, live s n -> (length l - n <= fuel)%nat -> fits fuel l n.
Proof.
  induction fuel as [|fuel IH]; intros n Hn Hl; pose proof (live_lt n Hn); [lia|]. cbn. apply Forall_forall. intros c Hc. destruct (live_kid n c Hn Hc) as (? & ? & _).
  apply IH; [done|lia].
Qed.

Lemma desc_linear n1 m : live s n1 -> desc l n1 m -> forall n2, live s n2 -> desc l n2 m -> desc l n1 n2 \/ desc l n2 n1.
Proof.
  intros H1. induction 1 as [n1|n1 m c Hd IH Hc]; intros n2 H2 Hd2; [by right|]. inversion Hd2 as [|? m' ? Hd2' Hc']; subst.
  - left. by eapply desc_step.
  - destruct (desc_live n1 m H1 Hd) as [Hm _]. destruct (desc_live n2 m' H2 Hd2') as [Hm' _].
    destruct (live_kid m c Hm Hc) as (_ & _ & cd & E1 & E2). destruct (live_kid m' c Hm' Hc') as (_ & _ & cd' & E3 & E4). assert (m = m') as -> by congruence. by apply IH.
Qed.

Lemma sub_NoDup fuel : forall n, live s n -> NoDup (sub fuel l n).
Proof.
  induction fuel as [|fuel IH]; intros n Hn; cbn; [constructor|]. apply NoDup_app. split; [|split; [|by apply NoDup_singleton]].
  - destruct (live_node n Hn) as (nd & Hnd & Hk). apply NoDup_bind.
    + intros c1 c2 m Hc1 Hc2 Hm1%sub_desc Hm2%sub_desc. destruct (live_kid n c1 Hn Hc1) as (L1 & G1 & d1 & D1 & P1). destruct (live_kid n c2 Hn Hc2) as (L2 & G2 & d2 & D2 & P2).
      assert (Hup : forall a b, live s a -> (n < a)%nat -> b ∈ kids l n -> desc l a b -> a = b).
      { intros a b La Ga Hb Hab. inversion Hab as [|? x ? Hax Hbx]; subst; [done|]. destruct (desc_live a x La Hax) as [Lx Hle].
        destruct (live_kid x b Lx Hbx) as (_ & _ & e & E1 & E2). destruct (live_kid n b Hn Hb) as (_ & _ & e' & E1' & E2'). assert (x = n) by congruence. lia. }
      destruct (desc_linear c1 m L1 Hm1 c2 L2 Hm2) as [Hd|Hd]; [by apply Hup|symmetry; by apply Hup].
    + intros c Hc. apply IH. by destruct (live_kid n c Hn Hc).
    + rewrite Hk. by apply (wf_nodup s Hwf n).
  - intros m (c & Hm%sub_desc & Hc)%list_elem_of_bind ->%list_elem_of_singleton. destruct (live_kid n c Hn Hc) as (Lc & Gc & _). destruct (desc_live c n Lc Hm). lia.
Qed.

Lemma wf_dict_ok : dict_ok s.
Proof. split; [by apply wf_keys|by apply wf_dict]. Qed.

Lemma clear_live fuel n : live s n -> (length l - n <= fuel)%nat -> clear fuel s n = Ok (cut (sub fuel l n) s).
Proof.
  intros Hn Hf. apply clear_cut; [apply wf_dict_ok|by apply live_fits|by apply sub_NoDup|]. intros m Hm%sub_desc. by destruct (desc_live n m Hn Hm).
Qed.
End tree.

(** ** The operations keep the invariant *)

Definition shape (nd : node) : Z * option nat * list nat := (rid (info (n_req nd)), n_parent nd, n_children nd).

(** Requests may change, but not their ids. *)
Lemma wf_similar s s' : wf s -> streaming s' = streaming s -> req_nodes s' = req_nodes s -> shape <$> nodes s' = shape <$> nodes s -> wf s'.
Proof.
  intros [W1 W2 W3 W4 W5] Hst Hd Hsh.
  assert (Hl : forall n nd, nodes s' !! n = Some nd -> exists nd0, nodes s !! n = Some nd0 /\ shape nd0 = shape nd).
  { intros n nd Hn. apply (f_equal (lookup n)) in Hsh. rewrite !list_lookup_fmap, Hn in Hsh. destruct (nodes s !! n) as [nd0|]; [|done]. injection Hsh as H1 H2 H3. exists nd0. unfold shape. by rewrite H1, H2, H3. }
  assert (Hr : forall n nd, nodes s !! n = Some nd -> exists nd', nodes s' !! n = Some nd' /\ shape nd' = shape nd).
  { intros n nd Hn. apply (f_equal (lookup n)) in Hsh. rewrite !list_lookup_fmap, Hn in Hsh. destruct (nodes s' !! n) as [nd'|]; [|done]. injection Hsh as H1 H2 H3. exists nd'. unfold shape. by rewrite H1, H2, H3. }
  assert (Hlive : forall n, live s' n <-> live s n) by (intros n; unfold live; by rewrite Hd).
  split; rewrite ?Hd, ?Hst; try done.
  - intros k n Hk. destruct (W2 k n Hk) as (nd & Hn & Hrid). destruct (Hr n nd Hn) as (nd' & Hn' & [= H1 H2 H3]). exists nd'. split; [done|congruence].
  - intros n nd c Hn%Hlive Hnd Hc. destruct (Hl n nd Hnd) as (nd0 & Hn0 & [= H1 H2 H3]). rewrite <- H3 in Hc. destruct (W3 n nd0 c Hn Hn0 Hc) as (L & G & cd & Hcd & Hp).
    split; [by apply Hlive|]. split; [done|]. destruct (Hr c cd Hcd) as (cd' & Hcd' & [= _ H5 _]). exists cd'. split; [done|congruence].
  - intros n nd Hn%Hlive Hnd. destruct (Hl n nd Hnd) as (nd0 & Hn0 & [= H1 H2 H3]). rewrite <- H3. by apply (W4 n).
Qed.

Lemma abort_wf s n : wf s -> wf (abort n s).
Proof.
  intros Hw. apply (wf_similar s); [done|done|done|]. unfold abort. cbn. apply list_eq. intros i. rewrite !list_lookup_fmap. destruct (decide (i = n)) as [->|Hne].
  - rewrite list_lookup_alter_eq. destruct (nodes s !! n) as [nd|]; [|done]. cbn. unfold shape. cbn. by rewrite abort_rid.
  - by rewrite list_lookup_alter_ne.
Qed.

(** What is below a node, without it. *)
Definition below (s : session) (n : nat) : list nat := kids (nodes s) n ≫= sub (length (nodes s)) (nodes s).

Definition prune (n : nat) (s : session) : session :=
  let s := cut (below s n) s in set_nodes s (alter (fun nd => Node (n_req nd) (n_parent nd) []) n (nodes s)).

Section pruning.
Context (s : session) (Hwf : wf s) (n : nat) (Hn : live s n).

Lemma below_spec m : m ∈ below s n <-> exists c, c ∈ kids (nodes s) n /\ desc (nodes s) c m.
Proof.
  unfold below. rewrite list_elem_of_bind. split.
  - intros (c & Hm%sub_desc & Hc). by exists c.
  - intros (c & Hc & Hd). exists c. split; [|done]. destruct (live_kid s Hwf n c Hn Hc) as (Lc & _). apply desc_sub; [|done]. apply live_fits; [done|done|lia].
Qed.

Lemma below_NoDup : NoDup (below s n).
Proof.
  pose proof (sub_NoDup s Hwf (S (length (nodes s))) n Hn) as H. cbn in H. by apply NoDup_app in H as (H & _ & _).
Qed.

Lemma below_not_self : n ∉ below s n.
Proof. intros (c & Hc & Hd)%below_spec. destruct (live_kid s Hwf n c Hn Hc) as (Lc & Gc & _). destruct (desc_live s Hwf c n Lc Hd). lia. Qed.

Lemma clear_children_prune : clear_children s n = Ok (prune n s).
Proof.
  unfold clear_children. destruct (live_node s Hwf n Hn) as (nd & Hnd & Hk). rewrite Hnd. cbn [of_option]. step_ok. rewrite <- Hk.
  rewrite (clear_list_cut _ (sub (length (nodes s)) (nodes s))); [done| |by apply wf_dict_ok|exact below_NoDup|].
  - intros s' c [E ->] Hc Hd Hl. destruct (live_kid s Hwf n c Hn Hc) as (Lc & _). rewrite <- (cut_sub E s). apply clear_cut; [done| | |].
    + apply cut_fits. apply live_fits; [done|done|lia].
    + rewrite cut_sub. by apply sub_NoDup.
    + intros m Hm. apply Hl. by rewrite <- (cut_sub E s).
  - intros m (c & Hc & Hd)%below_spec. destruct (live_kid s Hwf n c Hn Hc) as (Lc & _). by destruct (desc_live s Hwf c m Lc Hd).
Qed.

Lemma prune_lookup m nd : nodes (prune n s) !! m = Some nd ->
  exists nd0, nodes s !! m = Some nd0 /\ rid (info (n_req nd)) = rid (info (n_req nd0)) /\ n_parent nd = n_parent nd0 /\ n_children nd = if decide (m = n) then [] else n_children nd0.
Proof.
  unfold prune. cbn [nodes set_nodes]. destruct (decide (m = n)) as [->|Hne].
  - rewrite list_lookup_alter_eq, cut_lookup. destruct (nodes s !! n) as [nd0|]; [|done]. cbn. intros [= <-]. exists nd0. destruct (bool_decide _); cbn; by rewrite ?abort_rid.
  - rewrite list_lookup_alter_ne, cut_lookup by done. destruct (nodes s !! m) as [nd0|]; [|done]. cbn. intros [= <-]. exists nd0. destruct (bool_decide _); cbn; by rewrite ?abort_rid.
Qed.

Lemma prune_lookup_Some m nd0 : nodes s !! m = Some nd0 -> exists nd, nodes (prune n s) !! m = Some nd.
Proof.
  intros Hm. unfold prune. cbn [nodes set_nodes]. destruct (decide (m = n)) as [->|Hne];
    [rewrite list_lookup_alter_eq, cut_lookup, Hm|rewrite list_lookup_alter_ne, cut_lookup, Hm by done]; by eexists.
Qed.

Lemma prune_live m : live (prune n s) m <-> live s m /\ m ∉ below s n.
Proof. apply (cut_live (below s n) s m). Qed.

Lemma prune_wf : wf (prune n s).
Proof.
  pose proof Hwf as [W1 W2 W3 W4 W5]. split.
  - unfold prune, cut. cbn. by apply filter_keys.
  - intros k m Hk. unfold prune, cut in Hk. cbn in Hk. apply list_elem_of_filter in Hk as [_ Hk]. destruct (W2 k m Hk) as (nd0 & Hm & Hr).
    destruct (prune_lookup_Some m nd0 Hm) as [nd Hnd]. exists nd. split; [done|]. destruct (prune_lookup m nd Hnd) as (nd1 & H1 & H2 & _). congruence.
  - intros m nd c [Lm Hm]%prune_live Hnd Hc. destruct (prune_lookup m nd Hnd) as (nd0 & H0 & _ & _ & Hch). rewrite Hch in Hc. destruct (decide (m = n)) as [->|Hne]; [by apply not_elem_of_nil in Hc|].
    destruct (W3 m nd0 c Lm H0 Hc) as (Lc & Gc & cd & Hcd & Hp). destruct (prune_lookup_Some c cd Hcd) as [cd' Hcd']. destruct (prune_lookup c cd' Hcd') as (cd0 & E1 & _ & E3 & _).
    split; [|split; [done|exists cd'; split; [done|congruence]]]. apply prune_live. split; [done|]. intros (x & Hx & Hd)%below_spec. inversion Hd as [|? p ? Hd' Hpc]; subst.
    + destruct (live_kid s Hwf n c Hn Hx) as (_ & _ & d & D1 & D2). congruence.
    + destruct (live_kid s Hwf n x Hn Hx) as (Lx & _). destruct (desc_live s Hwf x p Lx Hd') as [Lp _]. destruct (live_kid s Hwf p c Lp Hpc) as (_ & _ & d & D1 & D2).
      assert (p = m) as -> by congruence. apply Hm, below_spec. by exists x.
  - intros m nd [Lm Hm]%prune_live Hnd. destruct (prune_lookup m nd Hnd) as (nd0 & H0 & _ & _ & Hch). rewrite Hch. destruct (decide (m = n)); [constructor|by apply (W4 m)].
  - intros Hs. etrans; [|by apply W5]. unfold prune, cut. cbn. apply length_filter.
Qed.
End pruning.

(** A new request, below a live one or by itself. *)
Definition add_request (s : session) (r : req) (parent : option nat) : session :=
  set_dict (fst (add_node s r parent)) (req_nodes s ++ [(rid (info r), length (nodes s))]).

Section adding.
Context (s : session) (Hwf : wf s) (r : req) (parent : option nat).
Hypothesis parent_live : forall p, parent = Some p -> live s p.

Lemma add_lookup m nd : nodes (add_request s r parent) !! m = Some nd ->
  (m = length (nodes s) /\ nd = Node r parent []) \/
  (m <> length (nodes s) /\ exists nd0, nodes s !! m = Some nd0 /\ n_req nd = n_req nd0 /\ n_parent nd = n_parent nd0 /\
    n_children nd = if decide (parent = Some m) then n_children nd0 ++ [length (nodes s)] else n_children nd0).
Proof.
  unfold add_request, add_node. cbn. set (l := match parent with Some p => _ | None => _ end).
  assert (Hlen : length l = length (nodes s)) by (unfold l; destruct parent; [apply length_alter|done]).
  intros [Hm|[Hge Hm]]%lookup_app_Some.
  - right. pose proof (lookup_lt_Some _ _ _ Hm). split; [lia|]. unfold l in Hm. destruct parent as [p|]; [|exists nd; by rewrite decide_False].
    destruct (decide (m = p)) as [->|Hne].
    + rewrite list_lookup_alter_eq in Hm. destruct (nodes s !! p) as [nd0|]; [|done]. injection Hm as <-. exists nd0. by rewrite decide_True.
    + rewrite list_lookup_alter_ne in Hm by done. exists nd. rewrite decide_False by congruence. done.
  - left. apply list_lookup_singleton_Some in Hm as [Hz <-]. split; [lia|done].
Qed.

Lemma add_lookup_old m nd0 : nodes s !! m = Some nd0 -> exists nd, nodes (add_request s r parent) !! m = Some nd.
Proof.
  intros Hm. apply lookup_lt_is_Some_2. apply lookup_lt_Some in Hm. unfold add_request, add_node. cbn. rewrite length_app. cbn. destruct parent; rewrite ?length_alter; lia.
Qed.

Lemma add_live m : live (add_request s r parent) m <-> live s m \/ m = length (nodes s).
Proof. unfold live, add_request. cbn. rewrite fmap_app, elem_of_app. cbn. by rewrite list_elem_of_singleton. Qed.

Lemma add_wf : rid (info r) ∉ fst <$> req_nodes s -> streaming s = false -> wf (add_request s r parent).
Proof.
  intros Hfresh Hst. pose proof Hwf as [W1 W2 W3 W4 W5]. assert (Hnew : nodes (add_request s r parent) !! length (nodes s) = Some (Node r parent [])).
  { unfold add_request, add_node. cbn. set (l := match parent with Some p => _ | None => _ end).
    assert (Hlen : length l = length (nodes s)) by (unfold l; destruct parent; [apply length_alter|done]). rewrite <- Hlen, lookup_app_r, Nat.sub_diag by done. done. }
  split.
  - unfold add_request. cbn. rewrite fmap_app. apply NoDup_app. split; [done|]. split; [|by apply NoDup_singleton]. by intros k Hk ->%list_elem_of_singleton.
  - intros k m Hk. unfold add_request in Hk. cbn in Hk. apply elem_of_app in Hk as [Hk|[= -> ->]%list_elem_of_singleton]; [|by eexists].
    destruct (W2 k m Hk) as (nd0 & Hm & Hr). destruct (add_lookup_old m nd0 Hm) as [nd Hnd]. exists nd. split; [done|].
    destruct (add_lookup m nd Hnd) as [[-> _]|(_ & nd1 & E1 & E2 & _)]; [apply lookup_lt_Some in Hm; lia|]. congruence.
  - intros m nd c Hl Hnd Hc. destruct (add_lookup m nd Hnd) as [[-> ->]|(Hm & nd0 & E1 & _ & _ & E4)]; [by apply not_elem_of_nil in Hc|].
    apply add_live in Hl as [Hl|?]; [|done]. assert (Hold : c ∈ n_children nd0 -> live (add_request s r parent) c /\ (m < c)%nat /\ exists cd, nodes (add_request s r parent) !! c = Some cd /\ n_parent cd = Some m).
    { intros Hc0. destruct (W3 m nd0 c Hl E1 Hc0) as (Lc & Gc & cd & Hcd & Hp). split; [apply add_live; by left|]. split; [done|].
      destruct (add_lookup_old c cd Hcd) as [cd' Hcd']. exists cd'. split; [done|]. destruct (add_lookup c cd' Hcd') as [[-> _]|(_ & cd0 & F1 & _ & F3 & _)]; [apply lookup_lt_Some in Hcd; lia|congruence]. }
    rewrite E4 in Hc. destruct (decide (parent = Some m)) as [Hp|_]; [|by apply Hold]. apply elem_of_app in Hc as [Hc| ->%list_elem_of_singleton]; [by apply Hold|].
    split; [apply add_live; by right|]. split; [by apply (live_lt s Hwf)|]. eexists. split; [done|]. by rewrite <- Hp.
  - intros m nd Hl Hnd. destruct (add_lookup m nd Hnd) as [[-> ->]|(Hm & nd0 & E1 & _ & _ & E4)]; [constructor|]. apply add_live in Hl as [Hl|?]; [|done].
    rewrite E4. destruct (decide _); [|by apply (W4 m)]. apply NoDup_app. split; [by apply (W4 m)|]. split; [|by apply NoDup_singleton].
    intros c Hc ->%list_elem_of_singleton. destruct (W3 m nd0 _ Hl E1 Hc) as (_ & _ & cd & Hcd & _). apply lookup_lt_Some in Hcd. lia.
  - by rewrite (Hst : streaming (add_request s r parent) = false).
Qed.
End adding.

(** ** Creating a request *)

Lemma active_wf s now : wf s -> wf (set_active s now).
Proof. intros H. by apply (wf_similar s). Qed.

Definition replaces_all (sp : session_params) (s : session) : bool :=
  negb (streaming s) && sp_replace sp && bool_decide (sp_rid sp = None) && negb (bool_decide (req_nodes s = [])).

Lemma clear_all_raises s : wf s -> req_nodes s <> [] -> clear_all s = Raise RuntimeError.
Proof.
  intros Hw Hne. unfold clear_all. destruct (req_nodes s) as [|[k n] d] eqn:Hd; [done|]. assert (Hl : live s n) by (unfold live; rewrite Hd; by left).
  rewrite (clear_live s Hw) by (first [done|lia]). step_ok. rewrite bool_decide_eq_false_2; [done|]. unfold cut. cbn. rewrite Hd.
  assert (Hin : n ∈ sub (length (nodes s)) (nodes s) n) by (apply sub_self, live_fits; [done|done|lia]). rewrite filter_cons, decide_False by (cbn; tauto).
  pose proof (length_filter (fun e : Z * nat => snd e ∉ sub (length (nodes s)) (nodes s) n) d). cbn. lia.
Qed.

(** What [find_last] gives: the session is well formed, the request before is
    live in it, and no key was added. *)
Lemma find_last_spec s sp : wf s -> replaces_all sp s = false ->
  exists s' last ab, find_last s sp = Ok (s', last, ab) /\ wf s' /\ streaming s' = streaming s /\ (forall n, last = Some n -> live s' n) /\
    (forall k, k ∈ fst <$> req_nodes s' -> k ∈ fst <$> req_nodes s).
Proof.
  intros Hw Hr. unfold find_last, replaces_all in *.
  assert (Hsame : forall (last : option nat) (ab : bool), (forall n, last = Some n -> live s n) -> exists s' last' ab', Ok (s, last, ab) = Ok (s', last', ab') /\ wf s' /\ streaming s' = streaming s /\
    (forall n : nat, last' = Some n -> live s' n) /\ (forall k, k ∈ fst <$> req_nodes s' -> k ∈ fst <$> req_nodes s)) by (intros last ab H; by exists s, last, ab).
  assert (Hnone : forall n, None = Some n -> live s n) by done.
  destruct (streaming s) eqn:Hst; cbn [negb andb] in Hr.
  - destruct (inflight s); [exact (Hsame None true Hnone)|]. destruct (sp_replace sp); [exact (Hsame None true Hnone)|]. destruct (sp_drop_previous_output sp); [exact (Hsame None true Hnone)|].
    destruct (nonzero _); [exact (Hsame None true Hnone)|].
    pose proof (wf_single s Hw Hst) as Hlen. assert (Hlive : forall k n d, req_nodes s = (k, n) :: d -> live s n) by (intros k n d Hd; unfold live; rewrite Hd; by left).
    destruct (req_nodes s) as [|[k n] [|]]; [exact (Hsame None false Hnone)| |cbn in Hlen; lia]. apply (Hsame (Some n) false). intros m [= <-]. by apply (Hlive k n []).
  - destruct (sp_replace sp); cbn [andb] in Hr.
    + destruct (sp_rid sp) as [k|].
      * destruct (get k (req_nodes s)) as [n|] eqn:Hg; [|exact (Hsame None true Hnone)]. apply get_Some in Hg; [|by apply wf_keys].
        assert (Hl : live (abort n s) n) by (apply live_key; by exists k). pose proof (abort_wf s n Hw) as Hw'. rewrite (clear_children_prune _ Hw' n Hl). step_ok.
        eexists _, _, _. split; [done|]. split; [by apply prune_wf|]. split; [done|]. split.
        -- intros m [= <-]. apply prune_live. split; [done|]. by apply below_not_self.
        -- intros j Hj. unfold prune, cut in Hj. cbn in Hj. apply list_elem_of_fmap in Hj as (e & -> & [_ He]%list_elem_of_filter). apply list_elem_of_fmap. by exists e.
      * cbn in Hr. apply negb_false_iff, bool_decide_eq_true in Hr. unfold clear_all. rewrite Hr. step_ok. rewrite <- Hr. exact (Hsame None false Hnone).
    + destruct (sp_rid sp) as [k|]; [|exact (Hsame None false Hnone)]. destruct (get k (req_nodes s)) as [n|] eqn:Hg; [|exact (Hsame None true Hnone)]. apply get_Some in Hg; [|by apply wf_keys].
      destruct (wf_dict s Hw k n Hg) as (nd & Hn & _). rewrite Hn. cbn [of_option]. step_ok. apply (Hsame (Some n)). intros m [= <-]. apply live_key. by exists k.
Qed.

(** C36: when creating a request in a session succeeds.  For a session whose
    requests were made with ids of their own, a request with a new id is
    created without an error, and the session stays well formed: every entry
    of the dictionary is a node with that id, and the requests below it are
    entries too; with one exception: replacing the whole session, with no
    request named, raises a RuntimeError whenever the session has a request. *)
Theorem session_create_safe now bos sp r s :
  wf s -> rid (info r) ∉ fst <$> req_nodes s ->
  if replaces_all sp s then create_req now bos sp r s = Raise RuntimeError
  else exists s' r', create_req now bos sp r s = Ok (s', r') /\ wf s' /\ rid (info r') = rid (info r).
Proof.
  intros Hw Hfresh. pose proof (active_wf s now Hw) as Hw0. destruct (replaces_all sp s) eqn:Hr.
  - unfold replaces_all in Hr. apply andb_true_iff in Hr as [[[H1 H2]%andb_true_iff H3]%andb_true_iff H4]. apply negb_true_iff in H1, H4. apply bool_decide_eq_true in H3. apply bool_decide_eq_false in H4.
    unfold create_req, find_last. cbn [streaming set_active]. rewrite H1, H2, H3. by rewrite clear_all_raises.
  - destruct (find_last_spec (set_active s now) sp Hw0 Hr) as (s1 & lst & ab & Hf & Hw1 & Hst & Hl & Hk). unfold create_req. rewrite Hf. step_ok.
    assert (Hr' : exists r', (match lst with
       | Some n => nd ← of_option KeyError (nodes s1 !! n); Ok (with_prompt r (continue_ids bos sp (n_req nd) (origin_input_ids (info r))))
       | None => Ok r end) = Ok r' /\ rid (info r') = rid (info r)).
    { destruct lst as [n|]; [|by eexists]. destruct (live_node s1 Hw1 n (Hl n eq_refl)) as (nd & -> & _). cbn [of_option]. step_ok. by eexists. }
    destruct Hr' as (r' & -> & Hrid). step_ok. destruct ab; [by eexists _, _|]. destruct (streaming s1) eqn:Hs1.
    + eexists _, _. split; [done|]. split; [|done]. by apply (wf_similar s1).
    + eexists _, _. split; [done|]. split; [|done]. assert (Hfr : rid (info r') ∉ fst <$> req_nodes s1) by (rewrite Hrid; intros Hin; by apply Hfresh, Hk).
      change (req_nodes (set_nodes s1 _)) with (req_nodes s1). rewrite setitem_fresh by done. by apply (add_wf s1 Hw1 r' lst).
Qed.

(** ** Replacing a request *)

Lemma desc_ext l l' a b : (forall x, kids l x = kids l' x) -> desc l a b -> desc l' a b.
Proof. intros H. induction 1 as [n|n m c _ IH Hc]; [constructor|]. apply (desc_step _ _ m); [done|]. by rewrite <- H. Qed.

Lemma desc_below l n m : desc l n m <-> m = n \/ exists c, c ∈ kids l n /\ desc l c m.
Proof.
  split.
  - induction 1 as [n|n m c _ [->|(x & Hx & Hd)] Hc]; [by left| |]; right; [exists c; split; [done|constructor]|]. exists x. split; [done|]. by apply (desc_step _ _ m).
  - intros [->|(c & Hc & Hd)]; [constructor|]. apply (desc_trans _ _ c); [|done]. by apply (desc_step _ _ n); [constructor|].
Qed.

Lemma abort_kids s n x : kids (nodes (abort n s)) x = kids (nodes s) x.
Proof.
  unfold kids, abort. cbn. destruct (decide (x = n)) as [->|Hne]; [|by rewrite list_lookup_alter_ne]. rewrite list_lookup_alter_eq. by destruct (nodes s !! n).
Qed.

Lemma abort_marks q : finished q = false -> to_finish (out (abort_req_obj q)) = Some FINISH_ABORT.
Proof. unfold finished, abort_req_obj. intros Hf%bool_decide_eq_false. by destruct (finished_reason (out q)); [destruct Hf|]. Qed.

(** C37: what replacing a request of a session does.  The new request continues the
    replaced one with the prompt and output that it has; from the dictionary
    exactly the requests that were created below the replaced one are removed,
    at any depth; and these and the replaced one, when they have not finished,
    are told to abort. *)
Theorem session_replace_prunes now bos drop off r s k n nd :
  wf s -> streaming s = false -> (k, n) ∈ req_nodes s -> nodes s !! n = Some nd -> rid (info r) ∉ fst <$> req_nodes s ->
  let sp := SessionParams (Some k) true drop off in
  exists s', create_req now bos sp r s = Ok (s', with_prompt r (continue_ids bos sp (n_req nd) (origin_input_ids (info r)))) /\
    (forall j m, (j, m) ∈ req_nodes s' <-> ((j, m) ∈ req_nodes s /\ (m = n \/ ~ desc (nodes s) n m)) \/ (j, m) = (rid (info r), length (nodes s))) /\
    (forall m md, desc (nodes s) n m -> nodes s !! m = Some md -> finished (n_req md) = false ->
       exists md', nodes s' !! m = Some md' /\ to_finish (out (n_req md')) = Some FINISH_ABORT).
Proof.
  intros Hw Hst Hk Hnd Hfresh sp. set (s0 := set_active s now). pose proof (active_wf s now Hw : wf s0) as Hw0. set (s1 := abort n s0).
  pose proof (abort_wf s0 n Hw0 : wf s1) as Hw1. assert (Hl1 : live s1 n) by (apply live_key; by exists k). assert (Hlen : length (nodes s1) = length (nodes s)) by (apply length_alter).
  assert (Hkids : forall x, kids (nodes s1) x = kids (nodes s) x) by (intros x; apply (abort_kids s0)).
  assert (Hself : forall l, nodes s1 !! n = Some (Node (abort_req_obj (n_req nd)) (n_parent nd) l) <-> l = n_children nd).
  { intros l. unfold s1, abort, s0. cbn. rewrite list_lookup_alter_eq, Hnd. cbn. naive_solver. }
  assert (Hbelow : forall m, m ∈ below s1 n <-> desc (nodes s) n m /\ m <> n).
  { intros m. rewrite (below_spec s1 Hw1 n Hl1). rewrite desc_below. split.
    - intros (c & Hc & Hd). rewrite Hkids in Hc. split; [right; exists c; split; [done|by apply (desc_ext (nodes s1))]|]. intros ->.
      apply (below_not_self s1 Hw1 n Hl1), below_spec; [done|done|]. exists c. by rewrite Hkids.
    - intros [[->|(c & Hc & Hd)] Hne]; [done|]. exists c. rewrite Hkids. split; [done|]. by apply (desc_ext (nodes s)). }
  set (s2 := prune n s1). assert (Hs2 : nodes s2 !! n = Some (Node (abort_req_obj (n_req nd)) (n_parent nd) [])).
  { unfold s2, prune. cbn [nodes set_nodes]. rewrite list_lookup_alter_eq, cut_lookup, (proj2 (Hself _) eq_refl). cbn. by rewrite bool_decide_eq_false_2 by (by apply below_not_self). }
  assert (Hfl : find_last s0 sp = Ok (s2, Some n, false)).
  { unfold find_last, s0, sp. cbn [streaming set_active sp_replace sp_rid req_nodes]. rewrite Hst, (proj2 (get_Some k n _ (wf_keys s Hw)) Hk).
    fold s0. fold s1. rewrite clear_children_prune by done. done. }
  set (r' := with_prompt r _). assert (Hcont : with_prompt r (continue_ids bos sp (abort_req_obj (n_req nd)) (origin_input_ids (info r))) = r').
  { unfold r', continue_ids. rewrite abort_rid. unfold abort_req_obj. by destruct (finished_reason (out (n_req nd))). }
  exists (add_request s2 r' (Some n)). split; [|split].
  - unfold create_req. fold s0. rewrite Hfl. step_ok. rewrite Hs2. cbn [of_option n_req]. do 2 step_ok. cbn [n_req]. rewrite Hcont. cbn [streaming]. rewrite (Hst : streaming s2 = false). f_equal. f_equal.
    unfold add_request. f_equal. cbn. apply setitem_fresh. intros Hin. apply Hfresh. unfold s2, prune, cut in Hin. cbn in Hin.
    apply list_elem_of_fmap in Hin as (e & He & [_ Hin]%list_elem_of_filter). apply list_elem_of_fmap. by exists e.
  - assert (Hlen2 : length (nodes s2) = length (nodes s)) by (unfold s2, prune, cut; cbn; by rewrite length_alter, length_imap).
    intros j m. unfold add_request. cbn [req_nodes set_dict]. rewrite elem_of_app, list_elem_of_singleton, Hlen2. change (rid (info r')) with (rid (info r)).
    assert (Hdict : (j, m) ∈ req_nodes s2 <-> (j, m) ∈ req_nodes s /\ m ∉ below s1 n) by (unfold s2, prune, cut; cbn [req_nodes set_nodes set_dict]; rewrite list_elem_of_filter; change (req_nodes s1) with (req_nodes s); cbn [snd]; tauto).
    rewrite Hdict, Hbelow. destruct (decide (m = n)); tauto.
  - intros m md Hd Hm Hf. assert (H1 : exists md1, nodes s2 !! m = Some md1 /\ n_req md1 = abort_req_obj (n_req md)).
    { destruct (decide (m = n)) as [->|Hne]; [rewrite Hs2; eexists; split; [done|]; cbn; congruence|]. unfold s2, prune. cbn [nodes set_nodes]. rewrite list_lookup_alter_ne, cut_lookup by done.
      unfold s1, abort, s0. cbn [nodes set_nodes set_active]. rewrite list_lookup_alter_ne, Hm by done. cbn. rewrite bool_decide_eq_true_2 by (by apply Hbelow). by eexists. }
    destruct H1 as (md1 & Hm1 & Hq). assert (Hpl : forall p, Some n = Some p -> live s2 p) by (intros p [= <-]; apply prune_live; split; [done|by apply below_not_self]).
    destruct (add_lookup_old s2 r' (Some n) Hpl m md1 Hm1) as [md' Hm']. exists md'. split; [done|].
    destruct (add_lookup s2 r' (Some n) Hpl m md' Hm') as [[-> _]|(_ & md2 & E1 & E2 & _)]; [apply lookup_lt_Some in Hm1; lia|].
    rewrite E2. assert (md2 = md1) as -> by congruence. rewrite Hq. by apply abort_marks.
Qed.

(** ** Closing *)

Lemma get_app_fresh {A} k (v : A) d : get k d = None -> get k (d ++ [(k, v)]) = Some v.
Proof. unfold get. induction d as [|[k' v'] d IH]; cbn; [by rewrite Z.eqb_refl|]. by destruct (k' =? k). Qed.

Lemma get_setitem_eq {A} k (v v0 : A) d : get k d = Some v0 -> get k (setitem k v d) = Some v.
Proof.
  intros Hg. unfold setitem. rewrite bool_decide_eq_true_2.
  2:{ unfold get in Hg. destruct (List.find _ d) as [[k' v']|] eqn:Hf; [|done]. apply List.find_some in Hf as [Hin He]. cbn in He. apply Z.eqb_eq in He as ->.
      apply list_elem_of_In in Hin. apply list_elem_of_fmap. by exists (k, v'). }
  unfold get in *. induction d as [|[k' v'] d IH]; cbn in *; [done|]. destruct (Z.eqb_spec k' k) as [->|Hne]; cbn; [by rewrite Z.eqb_refl|].
  rewrite (proj2 (Z.eqb_neq _ _) Hne). by apply IH.
Qed.

Lemma get_setitem_ne {A} j k (v : A) d : j <> k -> get j (setitem k v d) = get j d.
Proof.
  intros Hne. unfold setitem, get. case_bool_decide as Hin; clear Hin; induction d as [|[k' v'] d IH]; cbn; try done.
  - destruct (Z.eqb_spec k' k) as [->|]; cbn; [by rewrite (proj2 (Z.eqb_neq k j)) by congruence|]. by destruct (k' =? j).
  - by rewrite (proj2 (Z.eqb_neq k j)) by congruence.
  - by destruct (k' =? j).
Qed.

Lemma get_delitem {A} j k (d d' : list (Z * A)) : delitem k d = Ok d' -> get j d' = if j =? k then None else get j d.
Proof.
  unfold delitem. case_bool_decide as Hin; [|done]. intros [= <-]. clear Hin. unfold get. induction d as [|[k' v'] d IH]; [by destruct (j =? k)|]. rewrite filter_cons.
  destruct (decide _) as [Hk|Hk]; cbn in *; [destruct (Z.eqb_spec k' j) as [->|]; [by rewrite (proj2 (Z.eqb_neq _ _) Hk)|exact IH]|].
  apply dec_stable in Hk as ->. rewrite IH. destruct (Z.eqb_spec j k) as [->|]; [done|]. by rewrite (proj2 (Z.eqb_neq k j)) by congruence.
Qed.

(** One session closed, or marked. *)
Lemma close_session_spec k c c' b : close_session k c = Ok (c', b) ->
  exists s u, get k (sessions c) = Some s /\ has_unfinished_request s = Ok u /\ b = negb u /\
    get k (sessions c') = (if u then Some (set_close s true) else None) /\ (forall j, j <> k -> get j (sessions c') = get j (sessions c)).
Proof.
  unfold close_session. destruct (get k (sessions c)) as [s|] eqn:Hg; [|done]. cbn [of_option]. step_ok. destruct (has_unfinished_request s) as [u|] eqn:Hu; [|done]. step_ok. destruct u.
  - intros [= <- <-]. exists s, true. cbn [sessions set_sessions negb]. do 3 (split; [done|]). split; [by apply (get_setitem_eq k _ s)|]. intros j Hj. by apply get_setitem_ne.
  - destruct (delitem k (sessions c)) as [d|] eqn:Hd; [|done]. step_ok. intros [= <- <-]. exists s, false. cbn [sessions set_sessions negb]. do 3 (split; [done|]). split; [by rewrite (get_delitem _ _ _ _ Hd), Z.eqb_refl|].
    intros j Hj. by rewrite (get_delitem _ _ _ _ Hd), (proj2 (Z.eqb_neq _ _) Hj).
Qed.

(** The same requests. *)
Definition same_requests (s s' : session) : Prop := streaming s' = streaming s /\ inflight s' = inflight s /\ nodes s' = nodes s /\ req_nodes s' = req_nodes s.

Lemma same_unfinished s s' : same_requests s s' -> has_unfinished_request s' = has_unfinished_request s.
Proof. intros (H1 & H2 & H3 & H4). unfold has_unfinished_request. by rewrite H1, H2, H3, H4. Qed.

(** A session that is in use. *)
Definition in_use (k : Z) (s : session) (c : controller) : Prop := exists s', get k (sessions c) = Some s' /\ same_requests s s'.

Lemma reap_each_waits f k s : has_unfinished_request s = Ok true ->
  (forall c j c' b, f c j = Ok (c', b) -> in_use k s c -> in_use k s c' /\ (b = true -> j <> k)) ->
  forall l c c' out, reap_each f c l = Ok (c', out) -> in_use k s c -> in_use k s c' /\ k ∉ out.
Proof.
  intros Hu Hf l c c' out. unfold reap_each. assert (H : forall o, k ∉ o -> foldM (fun '(c, out) k => '(c, b) ← f c k; Ok (c, if b : bool then out ++ [k] else out)) (c, o) l = Ok (c', out) ->
    in_use k s c -> in_use k s c' /\ k ∉ out).
  { revert c. induction l as [|j l IH]; intros c o Ho; cbn [foldM]; [by intros [= <- <-]|]. destruct (f c j) as [[c1 b]|] eqn:Hj; [|done]. do 2 step_ok. intros Hrest Hin.
    destruct (Hf _ _ _ _ Hj Hin) as [Hin1 Hb]. apply (IH c1 (if b then o ++ [j] else o)); [|done|done]. destruct b; [|done].
    intros [?| ->%list_elem_of_singleton]%elem_of_app; [done|]. by apply Hb. }
  apply H. apply not_elem_of_nil.
Qed.

Lemma close_waits k s c j c' b : has_unfinished_request s = Ok true -> close_session j c = Ok (c', b) -> in_use k s c -> in_use k s c' /\ (b = true -> j <> k).
Proof.
  intros Hu Hc (s' & Hg & Hs). destruct (close_session_spec _ _ _ _ Hc) as (s1 & u & H1 & H2 & -> & H4 & H5). destruct (decide (j = k)) as [->|Hne].
  - assert (s1 = s') as -> by congruence. rewrite (same_unfinished s s' Hs), Hu in H2. injection H2 as <-. cbn. split; [|done]. exists (set_close s' true). split; [done|]. by destruct Hs as (? & ? & ? & ?).
  - split; [|done]. exists s'. split; [|done]. by rewrite H5.
Qed.

(** A session in use is not released.  Neither closing it, nor the reaper
    that closes sessions marked before and sessions that have timed out, removes
    a streaming session whose request is still running: it stays, with its
    requests, and is not given to release_session. *)
Theorem reap_waits now interval k s c c' out :
  get k (sessions c) = Some s -> has_unfinished_request s = Ok true -> maybe_reap now interval c = Ok (c', out) ->
  k ∉ out /\ exists s', get k (sessions c') = Some s' /\ same_requests s s'.
Proof.
  intros Hg Hu. assert (Hin : in_use k s c) by (by exists s). unfold maybe_reap. destruct (_ <? _); [|intros [= <- <-]; split; [apply not_elem_of_nil|done]].
  intros ([c1 out1] & H1 & H)%res_bind_Ok. apply res_bind_Ok in H as ([c2 out2] & H2 & [= <- <-]).
  apply (reap_each_waits _ k s Hu) in H1 as [Hin1 Ho1]; [| |done].
  - apply (reap_each_waits _ k s Hu) in H2 as [Hin2 Ho2]; [| |done].
    + split; [|done]. by rewrite not_elem_of_app.
    + intros c0 j c3 b. by apply close_waits.
  - intros c0 j c3 b Hr (s0 & Hg0 & Hs0). unfold reap_pending in Hr. destruct (get j (sessions c0)) as [sj|] eqn:Hj; [|done]. cbn [of_option] in Hr. apply res_bind_Ok in Hr as (x & [= <-] & Hr).
    apply (close_waits k s _ _ _ _ Hu Hr). destruct (decide (j = k)) as [->|Hne].
    + exists (set_close sj false). cbn [sessions set_sessions]. split; [by apply (get_setitem_eq k _ sj)|]. assert (sj = s0) as -> by congruence. by destruct Hs0 as (? & ? & ? & ?).
    + exists s0. cbn [sessions set_sessions]. split; [|done]. by rewrite get_setitem_ne.
Qed.
