(* ===== verification/SessionsExamples.v ===== *)
(** * A session that branches

    Three requests below each other and one beside them: replacing the first,
    replacing everything, an id that is used twice, and closing. *)

From S2P Require Import Prelude DllmReq DecodeBatch ArServer ArQueue Sessions SessionsProofs.
Import Queue Sessions.
#[local] Open Scope Z_scope.

(** A request that has produced [outs], finished or not. *)
Definition turn_req (id : Z) (prompt outs : list Z) (fin : bool) : req :=
  Req (ReqInfo id prompt (DllmReq.SamplingParams 4 false []) [7] None 100 false (-1) false false)
      (ReqOut outs no_channels (if fin then Some (FINISH_LENGTH 4) else None) None None) (ReqKV None 0 0 false false 0) (ReqIn [] [] 0 0 0 None 0).

Definition append_to (k : option Z) : session_params := SessionParams k false false None.
Definition replace (k : option Z) : session_params := SessionParams k true false None.

(** Requests 10, 11 below 10, 12 below 11, and 20. *)
Definition grown : res session :=
  '(s, _) ← create_req 1 None (append_to None) (turn_req 10 [1] [2; 3] true) (new_session false None 0);
  '(s, _) ← create_req 2 None (append_to (Some 10)) (turn_req 11 [4] [5] true) s;
  '(s, _) ← create_req 3 None (append_to (Some 11)) (turn_req 12 [6] [] false) s;
  '(s, _) ← create_req 4 None (append_to None) (turn_req 20 [8] [] false) s;
  Ok s.
Definition talk : session := match grown with Ok s => s | Raise _ => new_session false None 0 end.

Lemma created_wf now bos sp r s s' r' : wf s -> rid (info r) ∉ fst <$> req_nodes s -> create_req now bos sp r s = Ok (s', r') -> replaces_all sp s = false -> wf s'.
Proof.
  intros Hw Hf Hc Hr. destruct (find_last_spec (set_active s now) sp (active_wf s now Hw) Hr) as (s1 & lst & ab & Hfl & Hw1 & _ & Hl & Hk). unfold create_req in Hc. rewrite Hfl in Hc.
  apply res_bind_Ok in Hc as (x & [= <-] & Hc). apply res_bind_Ok in Hc as (r1 & Hr1 & Hc).
  assert (Hrid : rid (info r1) = rid (info r)).
  { destruct lst as [n|]; [|by injection Hr1 as <-]. destruct (nodes s1 !! n) as [nd|]; [|done]. cbn [of_option] in Hr1. apply res_bind_Ok in Hr1 as (y & _ & [= <-]). done. }
  destruct ab; [by injection Hc as <- _|]. destruct (streaming s1) eqn:Hst; [injection Hc as <- _; by apply (wf_similar s1)|].
  assert (Hfr : rid (info r1) ∉ fst <$> req_nodes s1) by (rewrite Hrid; intros Hin; by apply Hf, Hk).
  cbn in Hc. rewrite (setitem_fresh _ _ _ Hfr) in Hc. injection Hc as <- _. by apply (add_wf s1 Hw1 r1 lst).
Qed.

Ltac fresh_wf W H := eapply created_wf; [exact W| |exact H|reflexivity]; apply (bool_decide_unpack _); vm_compute; exact I.

Lemma talk_wf : wf talk.
Proof.
  assert (H : exists s, grown = Ok s /\ wf s); [|destruct H as (s & Hs & Hw); unfold talk; by rewrite Hs]. unfold grown.
  destruct (create_req 1 None (append_to None) (turn_req 10 [1] [2; 3] true) (new_session false None 0)) as [[s1 r1]|] eqn:H1; [|by vm_compute in H1].
  assert (W1 : wf s1) by fresh_wf (new_wf false None 0) H1. step_ok. vm_compute in H1. injection H1 as <- <-.
  destruct (create_req 2 _ _ _ _) as [[s2 r2]|] eqn:H2; [|by vm_compute in H2].
  assert (W2 : wf s2) by fresh_wf W1 H2. step_ok. vm_compute in H2. injection H2 as <- <-.
  destruct (create_req 3 _ _ _ _) as [[s3 r3]|] eqn:H3; [|by vm_compute in H3].
  assert (W3 : wf s3) by fresh_wf W2 H3. step_ok. vm_compute in H3. injection H3 as <- <-.
  destruct (create_req 4 _ _ _ _) as [[s4 r4]|] eqn:H4; [|by vm_compute in H4].
  assert (W4 : wf s4) by fresh_wf W3 H4. step_ok. by exists s4.
Qed.

Lemma session_create_safe_witness :
  create_req 9 None (replace None) (turn_req 30 [9] [] false) talk = Raise RuntimeError /\
  exists s' r', create_req 9 None (append_to (Some 10)) (turn_req 30 [9] [] false) talk = Ok (s', r') /\ wf s'.
Proof.
  assert (Hf : rid (info (turn_req 30 [9] [] false)) ∉ fst <$> req_nodes talk) by (apply (bool_decide_unpack _); vm_compute; exact I). split.
  - exact (session_create_safe 9 None (replace None) (turn_req 30 [9] [] false) talk talk_wf Hf).
  - destruct (session_create_safe 9 None (append_to (Some 10)) (turn_req 30 [9] [] false) talk talk_wf Hf) as (s' & r' & H1 & H2 & _). by exists s', r'.
Defined.

Lemma session_replace_prunes_witness :
  exists s', create_req 9 None (replace (Some 10)) (turn_req 30 [9] [] false) talk = Ok (s', turn_req 30 [1; 2; 3; 9] [] false) /\ fst <$> req_nodes s' = [10; 20; 30] /\ (11, 1%nat) ∉ req_nodes s'.
Proof.
  assert (Hf : rid (info (turn_req 30 [9] [] false)) ∉ fst <$> req_nodes talk) by (apply (bool_decide_unpack _); vm_compute; exact I).
  destruct (session_replace_prunes 9 None false None (turn_req 30 [9] [] false) talk 10 0 (Node (turn_req 10 [1] [2; 3] true) None [1%nat]) talk_wf eq_refl
    ltac:(vm_compute; by left) eq_refl Hf) as (s' & H1 & H2 & _).
  exists s'. split; [exact H1|]. split; [|intros [[_ [Hm|Hd]]|Hm]%H2; [discriminate Hm| |discriminate Hm]].
  - assert (Hc : match create_req 9 None (replace (Some 10)) (turn_req 30 [9] [] false) talk with Ok (s', _) => fst <$> req_nodes s' | Raise _ => [] end = [10; 20; 30]) by (vm_compute; reflexivity).
    unfold replace in Hc. rewrite H1 in Hc. exact Hc.
  - apply Hd. apply (desc_step _ _ 0); [constructor|]. vm_compute. by left.
Defined.

(** An id that is used twice: the dictionary has one entry for two requests
    below request 10, and replacing that one raises a KeyError. *)
Lemma reused_rid_raises :
  ('(s, _) ← create_req 1 None (append_to None) (turn_req 10 [1] [2] true) (new_session false None 0);
   '(s, _) ← create_req 2 None (append_to (Some 10)) (turn_req 11 [4] [5] true) s;
   '(s, _) ← create_req 3 None (append_to (Some 10)) (turn_req 11 [6] [5] true) s;
   create_req 4 None (replace (Some 10)) (turn_req 12 [8] [] false) s) = Raise KeyError.
Proof. vm_compute. reflexivity. Qed.

(** A streaming session that has timed out while its request runs. *)
Definition busy : session := set_inflight (new_session true (Some 5) 0) true.

Lemma reap_waits_witness :
  exists c' out s', maybe_reap 100 1 (Controller [(7, busy); (8, new_session true (Some 5) 0)] 0) = Ok (c', out) /\ out = [8] /\ 7 ∉ out /\
    get 7 (sessions c') = Some s' /\ same_requests busy s'.
Proof.
  eexists _, _, _. split; [vm_compute; reflexivity|]. split; [reflexivity|].
  destruct (reap_waits 100 1 7 busy (Controller [(7, busy); (8, new_session true (Some 5) 0)] 0) _ _ eq_refl eq_refl ltac:(vm_compute; reflexivity)) as [H1 (s' & H2 & H3)].
  split; [exact H1|]. split; [reflexivity|]. vm_compute in H2. injection H2 as <-. exact H3.
Defined.
