(* ===== verification/Reasoning.v ===== *)
(** * Reasoning parser

    parser/reasoning_parser.py: the detectors that separate the reasoning of a
    model from its answer, in one go and chunk by chunk, and ReasoningParser,
    which chooses one.  The HarmonyParser behind the gpt-oss detector is a
    parameter. *)

From S2P Require Import Prelude DllmReq StopStrings.
#[local] Open Scope Z_scope.

Module Think.
Import Stops.

(** ** Python strings *)

(** str.isspace of a character. *)
Definition is_space (c : Z) : bool :=
  ((9 <=? c) && (c <=? 13)) || ((28 <=? c) && (c <=? 32)) || (c =? 133) || (c =? 160) || (c =? 5760)
  || ((8192 <=? c) && (c <=? 8202)) || (c =? 8232) || (c =? 8233) || (c =? 8239) || (c =? 8287) || (c =? 12288).

Fixpoint lstrip (t : text) : text :=
  match t with
  | [] => []
  | c :: t' => if is_space c then lstrip t' else t
  end.

Definition rstrip (t : text) : text := rev (lstrip (rev t)).
Definition strip (t : text) : text := rstrip (lstrip t).

(** [t.find(m)], with [None] for -1. *)
Fixpoint find (m t : text) : option nat :=
  if is_prefix m t then Some 0%nat else
  match t with
  | [] => None
  | _ :: t => S <$> find m t
  end.

(** [t.replace(m, "", 1)] *)
Definition remove_first (m t : text) : text :=
  match find m t with
  | Some i => take i t ++ drop (i + length m) t
  | None => t
  end.

(** [t.replace(m, "")] for an [m] that is not empty; [skip] characters belong to
    an occurrence that was found. *)
Fixpoint remove_all (m t : text) (skip : nat) : text :=
  match t with
  | [] => []
  | c :: t' =>
      match skip with
      | S k => remove_all m t' k
      | O => if is_prefix m t then remove_all m t' (length m - 1) else c :: remove_all m t' 0
      end
  end.

(** ** BaseReasoningFormatDetector *)

(** What the constructor of a class fixes. *)
Record format := Format {
  think_start_token : text;
  think_end_token : text;
  tool_start_token : option text;
  think_start_self_label : text;
}.

Record detector := Detector {
  fmt : format;
  stream_reasoning : bool;
  previous_content : text;
  in_reasoning : bool;
  buffer : text;
  stripped_think_start : bool;
}.

Record parse_result := Result { normal_text : text; reasoning_text : text }.

(** [previous] is the content that is continued, with continue_final_message. *)
Definition init (f : format) (force_reasoning stream : bool) (previous : option text) : detector :=
  let prev := default [] previous in
  let inr := if contains (think_start_token f) prev then true else force_reasoning in
  let inr := if contains (think_end_token f) prev then false else inr in
  Detector f stream prev inr [] false.

Definition think_start_text (f : format) : text := think_start_token f ++ think_start_self_label f.

Definition detect_and_parse (d : detector) (t : text) : parse_result :=
  let f := fmt d in
  if negb (in_reasoning d || contains (think_start_token f) t) then Result t [] else
  let processed := strip (remove_all (think_start_text f) t 0) in
  if negb (contains (think_end_token f) processed) && negb (contains (think_end_token f) (previous_content d)) then
    match tool_start_token f with
    | Some tool =>
        match find tool processed with
        | Some i => Result (drop i processed) (strip (take i processed))
        | None => Result [] processed
        end
    | None => Result [] processed
    end
  else
    match find (think_end_token f) processed with
    | Some i => Result (strip (drop (i + length (think_end_token f)) processed)) (take i processed)
    | None => Result processed []
    end.

(** The text so far may be the start of a tag. *)
Definition held (f : format) (t : text) : bool :=
  existsb (fun token => is_prefix t token && negb (bool_decide (token = t)))
    ([think_start_text f; think_end_token f]
     ++ match tool_start_token f with Some [] | None => [] | Some tool => [tool] end).

(** The rest of parse_streaming_increment, from the end of the reasoning on:
    [cur] is current_text. *)
Definition emit (d : detector) (cur : text) : detector * parse_result :=
  let f := fmt d in
  let left_reasoning := Detector f (stream_reasoning d) (previous_content d) false [] (stripped_think_start d) in
  let flushed := Detector f (stream_reasoning d) (previous_content d) (in_reasoning d) [] (stripped_think_start d) in
  if in_reasoning d then
    match find (think_end_token f) cur with
    | Some i => (left_reasoning, Result (drop (i + length (think_end_token f)) cur) (rstrip (take i cur)))
    | None =>
        match match tool_start_token f with Some [] | None => None | Some tool => find tool cur end with
        | Some i => (left_reasoning, Result (drop i cur) (take i cur))
        | None => if stream_reasoning d then (flushed, Result [] cur) else (d, Result [] [])
        end
    end
  else (flushed, Result cur []).

Definition parse_streaming_increment (d : detector) (new_text : text) : detector * parse_result :=
  let f := fmt d in
  let cur := buffer d ++ new_text in
  let d := Detector f (stream_reasoning d) (previous_content d) (in_reasoning d) cur (stripped_think_start d) in
  if held f cur then (d, Result [] [])
  else if negb (stripped_think_start d) && contains (think_start_text f) cur then
    emit (Detector f (stream_reasoning d) (previous_content d) true cur true) (remove_first (think_start_text f) cur)
  else emit d cur.

(** ** The classes *)

Inductive detector_class :=
  | DeepSeekR1Detector | Qwen3Detector | KimiDetector | KimiK2Detector | Glm45Detector | GptOssDetector
  | MiniMaxAppendThinkDetector | Nemotron3Detector | MistralDetector | Gemma4Detector.

Definition think_format : format := Format (text_of "<think>") (text_of "</think>") None [].
Definition kimi_k2_format : format := Format (text_of "<think>") (text_of "</think>") (Some (text_of "<|tool_calls_section_begin|>")) [].
Definition glm45_format : format := Format (text_of "<think>") (text_of "</think>") (Some (text_of "<tool_call>")) [].
Definition gpt_oss_format : format := Format (text_of "<|channel|>analysis<|message|>") (text_of "<|end|>") None [].
Definition mistral_format : format := Format (text_of "[THINK]") (text_of "[/THINK]") None [].
(** U+25C1 and U+25B7 are the brackets. *)
Definition kimi_format : format :=
  Format (9665 :: text_of "think" ++ [9655]) (9665 :: text_of "/think" ++ [9655]) None [].
Definition gemma4_format : format := Format (text_of "<|channel>") (text_of "<channel|>") None (text_of "thought" ++ [10]).

Definition class_format (c : detector_class) : format :=
  match c with
  | DeepSeekR1Detector | Qwen3Detector | MiniMaxAppendThinkDetector | Nemotron3Detector => think_format
  | KimiDetector => kimi_format
  | KimiK2Detector => kimi_k2_format
  | Glm45Detector => glm45_format
  | GptOssDetector => gpt_oss_format
  | MistralDetector => mistral_format
  | Gemma4Detector => gemma4_format
  end.

(** DetectorMap *)
Definition detector_map (model_type : string) : option detector_class :=
  match model_type with
  | "deepseek-r1" | "step3" | "step3p5" => Some DeepSeekR1Detector
  | "deepseek-v3" | "mimo" | "qwen3" | "qwen3-thinking" | "minimax" | "interns1" => Some Qwen3Detector
  | "glm45" => Some Glm45Detector
  | "gpt-oss" => Some GptOssDetector
  | "kimi" => Some KimiDetector
  | "kimi_k2" => Some KimiK2Detector
  | "minimax-append-think" => Some MiniMaxAppendThinkDetector
  | "mistral" => Some MistralDetector
  | "nemotron_3" => Some Nemotron3Detector
  | "gemma4" => Some Gemma4Detector
  | _ => None
  end%string.

(** str.lower of an ASCII name. *)
Definition lower_ascii (a : Ascii.ascii) : Ascii.ascii :=
  let n := Ascii.nat_of_ascii a in
  if (65 <=? n)%nat && (n <=? 90)%nat then Ascii.ascii_of_nat (n + 32) else a.
Definition lower (s : string) : string := String.string_of_list_ascii (lower_ascii <$> String.list_ascii_of_string s).

(** The events of the HarmonyParser; [raw_text] is None by default. *)
Inductive event_type := EReasoning | ENormal | EToolCall.
Record event := Event { etype : event_type; content : text; raw_text : option text }.

Section parser.
Context {harmony : Type} (harmony_init : harmony) (harmony_parse : harmony -> text -> harmony * list event).

Definition event_reasoning (e : event) : text := match etype e with EReasoning => content e | _ => [] end.
Definition event_normal (e : event) : text :=
  match etype e with
  | EReasoning => []
  | ENormal => content e
  | EToolCall => match raw_text e with Some (_ :: _ as raw) => raw | _ => content e end
  end.
Definition of_events (es : list event) : parse_result := Result (concat (event_normal <$> es)) (concat (event_reasoning <$> es)).

(** An object of one of the classes: the base object, and what the class adds. *)
Inductive parser :=
  | Plain (d : detector)
  | GptOss (d : detector) (h : harmony)
  | AppendThink (d : detector) (is_first_chunk : bool)
  | Nemotron3 (d : detector) (force_nonempty_content : bool).

(** Calling the class with the keyword arguments that were collected; those not
    passed are [None] or [false]. *)
Definition construct (c : detector_class) (stream : bool) (force : option bool) (previous : option text) (nonempty : bool) : res parser :=
  if nonempty && match c with Nemotron3Detector => false | _ => true end then Raise TypeError else
  if bool_decide (is_Some previous) && match c with Glm45Detector => true | _ => false end then Raise TypeError else
  let force_reasoning :=
    match c with
    | DeepSeekR1Detector => true
    | KimiDetector => false
    | GptOssDetector => default true force
    | _ => default false force
    end in
  let d := init (class_format c) force_reasoning stream previous in
  Ok match c with
     | GptOssDetector => GptOss d harmony_init
     | MiniMaxAppendThinkDetector => AppendThink d false
     | Nemotron3Detector => Nemotron3 d nonempty
     | _ => Plain d
     end.

(** ReasoningParser.__init__: [previous] is the text of the last message of a
    request that continues an assistant's, [nonempty] its
    force_nonempty_content. *)
Definition reasoning_parser (model_type : string) (stream : bool) (force : option bool) (previous : option text) (nonempty : bool) : res parser :=
  if bool_decide (model_type = ""%string) then Raise ValueError else
  match detector_map (lower model_type) with
  | None => Raise ValueError
  | Some c =>
      let force := if bool_decide (lower model_type ∈ ["qwen3-thinking"; "gpt-oss"; "minimax"]%string) then Some true else force in
      construct c stream force previous nonempty
  end.

(** parse_non_stream: also the parser after it, which the HarmonyParser has
    read. *)
Definition parse_non_stream (p : parser) (t : text) : parser * parse_result :=
  match p with
  | Plain d => (p, detect_and_parse d t)
  | GptOss d h =>
      let '(h, es) := harmony_parse h t in
      let '(h, es') := harmony_parse h [] in
      (GptOss d h, of_events (es ++ es'))
  | AppendThink d _ => (p, Result (think_start_token (fmt d) ++ t) [])
  | Nemotron3 d nonempty =>
      let ret := detect_and_parse d t in
      (p, if nonempty && bool_decide (normal_text ret = []) then Result (reasoning_text ret) (normal_text ret) else ret)
  end.

Definition parse_stream_chunk (p : parser) (t : text) : parser * parse_result :=
  match p with
  | Plain d => let '(d, ret) := parse_streaming_increment d t in (Plain d, ret)
  | GptOss d h => let '(h, es) := harmony_parse h t in (GptOss d h, of_events es)
  | AppendThink d false => (AppendThink d true, Result (think_start_token (fmt d) ++ t) [])
  | AppendThink d true => (p, Result t [])
  | Nemotron3 d nonempty => let '(d, ret) := parse_streaming_increment d t in (Nemotron3 d nonempty, ret)
  end.

End parser.

(** All chunks of a stream: the texts sent as reasoning and as answer, each
    concatenated as a client does. *)
Fixpoint stream (d : detector) (chunks : list text) : detector * parse_result :=
  match chunks with
  | [] => (d, Result [] [])
  | c :: chunks =>
      let '(d, r) := parse_streaming_increment d c in
      let '(d, rs) := stream d chunks in
      (d, Result (normal_text r ++ normal_text rs) (reasoning_text r ++ reasoning_text rs))
  end.

End Think.
