(* ===== verification/ReasoningProofs.v ===== *)
(** * Reasoning parser: streaming and one-time parsing agree

    A text with one reasoning section, cut into chunks of any size but not
    inside the end tag, is separated by the streaming interface the way the
    one-time interface separates it, up to white space around the parts. *)

From S2P Require Import Prelude DllmReq StopStrings Reasoning.
#[local] Open Scope Z_scope.

Import Stops Think.

(** ** Searching *)

Lemma is_prefix_spec p t : is_prefix p t = true <-> exists u, t = p ++ u.
Proof. unfold is_prefix. by rewrite bool_decide_eq_true. Qed.

Lemma is_prefix_app p u : is_prefix p (p ++ u) = true.
Proof. apply is_prefix_spec. by exists u. Qed.

Lemma is_prefix_shorter p t u : is_prefix p (t ++ u) = true -> (length p <= length t)%nat -> is_prefix p t = true.
Proof.
  rewrite !is_prefix_spec. intros [v Hv] Hlen. exists (drop (length p) t).
  transitivity (take (length p) t ++ drop (length p) t); [by rewrite take_drop|]. f_equal.
  rewrite <- (take_app_le t u) by done. by rewrite Hv, take_app_length.
Qed.

Lemma app_eq_cases {A} (l1 l2 k1 k2 : list A) :
  l1 ++ l2 = k1 ++ k2 -> (exists k, l1 = k1 ++ k /\ k2 = k ++ l2) \/ (exists k, k <> [] /\ k1 = l1 ++ k).
Proof.
  intros [?|(k & -> & ->)]%app_eq_inv; [by left|]. destruct k as [|x k]; [|right; by exists (x :: k)].
  left. exists []. by rewrite !app_nil_r.
Qed.

Lemma contains_false_sub m a t b : contains m (a ++ t ++ b) = false -> contains m t = false.
Proof. rewrite <- !not_true_iff_false. intros H Ht. by apply H, contains_more. Qed.

Lemma contains_false_l m t b : contains m (t ++ b) = false -> contains m t = false.
Proof. apply (contains_false_sub m []). Qed.

Lemma contains_false_r m a t : contains m (a ++ t) = false -> contains m t = false.
Proof. rewrite <- (app_nil_r t) at 1. apply contains_false_sub. Qed.

Lemma find_contains m t : contains m t = bool_decide (is_Some (find m t)).
Proof.
  induction t as [|x t IH]; cbn [contains find]; destruct (is_prefix m _) eqn:Hp; cbn [orb];
    [by rewrite bool_decide_true|by rewrite bool_decide_false by (by intros [])|by rewrite bool_decide_true|].
  rewrite IH. apply bool_decide_ext. by rewrite fmap_is_Some.
Qed.

Lemma find_None m t : contains m t = false -> find m t = None.
Proof. rewrite find_contains, bool_decide_eq_false. destruct (find m t); [|done]. intros []. by eexists. Qed.

Lemma find_head m t : find m (m ++ t) = Some 0%nat.
Proof. destruct (m ++ t) eqn:H; cbn [find]; rewrite <- H, is_prefix_app; done. Qed.

Lemma find_le m a b : exists k, find m (a ++ m ++ b) = Some k /\ (k <= length a)%nat.
Proof.
  induction a as [|x a IH]; [exists 0%nat; by rewrite app_nil_l, find_head|].
  destruct IH as (k & Hk & Hle). cbn [app find]. destruct (is_prefix m _); [by exists 0%nat; split; [|lia]|].
  exists (S k). rewrite Hk. split; [done|cbn; lia].
Qed.

Lemma find_suffix m a t k : find m (a ++ t) = Some (length a + k)%nat -> find m t = Some k.
Proof.
  induction a as [|x a IH]; [done|]. cbn [app find length]. destruct (is_prefix m _); [intros [=]|].
  intros Hf. apply IH. destruct (find m (a ++ t)); [|done]. cbn in Hf. injection Hf as ->. done.
Qed.

Lemma find_shorter m t u k : find m (t ++ u) = Some k -> (k + length m <= length t)%nat -> find m t = Some k.
Proof.
  revert k. induction t as [|x t IH]; intros k Hf Hk.
  - cbn in Hk. destruct m; [|cbn in Hk; lia]. assert (k = 0%nat) as -> by (cbn in Hk; lia). done.
  - cbn [app find] in *. destruct (is_prefix m (x :: t)) eqn:Hp.
    + apply is_prefix_spec in Hp as [v Hv]. rewrite app_comm_cons, Hv, <- app_assoc, is_prefix_app in Hf. done.
    + destruct (is_prefix m (x :: t ++ u)) eqn:Hp'.
      * injection Hf as <-. apply (is_prefix_shorter m (x :: t) u) in Hp'; [congruence|cbn in *; lia].
      * destruct (find m (t ++ u)) as [j|]; [|done]. injection Hf as <-. rewrite (IH j); [done|done|cbn in Hk; lia].
Qed.

(** The text before the first occurrence has none. *)
Lemma find_first m r u : m <> [] -> find m (r ++ m ++ u) = Some (length r) -> contains m r = false.
Proof.
  intros Hm Hf. apply not_true_iff_false. intros Hc. apply contains_spec in Hc as (a & b & ->).
  destruct (find_le m a (b ++ m ++ u)) as (k & Hk & Hle). rewrite <- !app_assoc in Hf. rewrite Hk in Hf. injection Hf as ->.
  rewrite !length_app in Hle. destruct m; [done|cbn in Hle; lia].
Qed.

Lemma remove_all_id m t : contains m t = false -> remove_all m t 0 = t.
Proof.
  induction t as [|x t IH]; [done|]. cbn [contains remove_all]. rewrite orb_false_iff. intros [-> Hc]. by rewrite IH.
Qed.

Lemma remove_all_skip m a t : remove_all m (a ++ t) (length a) = remove_all m t 0.
Proof. induction a; [by destruct t|done]. Qed.

Lemma remove_all_head m t : m <> [] -> remove_all m (m ++ t) 0 = remove_all m t 0.
Proof.
  intros Hm. destruct m as [|x m]; [done|]. cbn [app remove_all]. pose proof (is_prefix_app (x :: m) t) as Hp. cbn [app] in Hp. rewrite Hp.
  replace (length (x :: m) - 1)%nat with (length m) by (cbn; lia). apply remove_all_skip.
Qed.

Lemma remove_first_head m t : remove_first m (m ++ t) = t.
Proof. unfold remove_first. rewrite find_head. cbn. apply drop_app_length. Qed.

(** ** White space *)

Definition spaces (t : text) : Prop := Forall (fun c => is_space c = true) t.

Lemma lstrip_split t : exists ws, spaces ws /\ t = ws ++ lstrip t.
Proof.
  induction t as [|x t (ws & Hws & Ht)]; [by exists []; split; [constructor|]|]. cbn [lstrip]. destruct (is_space x) eqn:Hx.
  - exists (x :: ws). split; [by constructor|]. cbn. by rewrite <- Ht.
  - exists []. split; [constructor|done].
Qed.

Lemma lstrip_spaces ws t : spaces ws -> lstrip (ws ++ t) = lstrip t.
Proof. induction 1 as [|x ws Hx _ IH]; [done|]. cbn. by rewrite Hx. Qed.

Lemma spaces_rev ws : spaces ws -> spaces (rev ws).
Proof. unfold spaces. intros H. apply Forall_rev, H. Qed.

Lemma rstrip_split t : exists ws, spaces ws /\ t = rstrip t ++ ws.
Proof.
  destruct (lstrip_split (rev t)) as (ws & Hws & Ht). exists (rev ws). split; [by apply spaces_rev|].
  unfold rstrip. rewrite <- rev_app_distr, <- Ht, rev_involutive. done.
Qed.

Lemma rstrip_spaces t ws : spaces ws -> rstrip (t ++ ws) = rstrip t.
Proof. intros Hws. unfold rstrip. rewrite rev_app_distr, lstrip_spaces by (by apply spaces_rev). done. Qed.

(** A character that is no white space stops stripping. *)
Lemma lstrip_stop t x u : is_space x = false -> lstrip (t ++ x :: u) = lstrip t ++ x :: u.
Proof. intros Hx. induction t as [|y t IH]; cbn; [by rewrite Hx|]. destruct (is_space y); [apply IH|done]. Qed.

Lemma rstrip_stop t x u : is_space x = false -> rstrip (t ++ x :: u) = t ++ x :: rstrip u.
Proof.
  intros Hx. unfold rstrip. rewrite rev_app_distr. cbn [rev]. rewrite <- app_assoc. cbn [app]. rewrite lstrip_stop by done.
  rewrite rev_app_distr. cbn [rev]. rewrite rev_involutive, <- app_assoc. done.
Qed.

Lemma lstrip_idem t : lstrip (lstrip t) = lstrip t.
Proof. induction t as [|x t IH]; [done|]. cbn. destruct (is_space x) eqn:Hx; [done|]. cbn. by rewrite Hx. Qed.

Lemma strip_spaces_l ws t : spaces ws -> strip (ws ++ t) = strip t.
Proof. intros Hws. unfold strip. by rewrite lstrip_spaces. Qed.

Lemma strip_spaces_r t ws : spaces ws -> strip (t ++ ws) = strip t.
Proof.
  intros Hws. induction t as [|x t IH]; cbn [app]; unfold strip; cbn [lstrip].
  - pose proof (lstrip_spaces ws [] Hws) as H. rewrite app_nil_r in H. by rewrite H.
  - destruct (is_space x); [apply IH|]. apply (rstrip_spaces (x :: t)), Hws.
Qed.

Lemma strip_rstrip t : strip (rstrip t) = strip t.
Proof. destruct (rstrip_split t) as (ws & Hws & Ht). rewrite Ht at 2. by rewrite strip_spaces_r. Qed.

Lemma strip_lstrip t : strip (lstrip t) = strip t.
Proof. unfold strip. by rewrite lstrip_idem. Qed.

(** ** The tags of a format *)

Definition tags_ok (f : format) : bool :=
  let start := think_start_text f in
  let fin := think_end_token f in
  match fin with [] => false | x :: _ => negb (is_space x) end
  && match rev fin with [] => false | x :: _ => negb (is_space x) end
  && negb (bool_decide (start = [])) && negb (is_prefix start fin) && negb (contains fin start)
  && contains (think_start_token f) start
  && match tool_start_token f with
     | None => true
     | Some tool => negb (bool_decide (tool = [])) && negb (is_prefix start tool) && negb (contains fin tool)
     end.

Lemma class_tags_ok c : tags_ok (class_format c) = true.
Proof. by destruct c; vm_compute. Qed.

Section tags.
Context (f : format) (Hok : tags_ok f = true).
#[local] Notation start := (think_start_text f).
#[local] Notation fin := (think_end_token f).

Lemma tags_facts :
  (exists x u, fin = x :: u /\ is_space x = false) /\ (exists u x, fin = u ++ [x] /\ is_space x = false) /\
  start <> [] /\ is_prefix start fin = false /\ contains fin start = false /\ contains (think_start_token f) start = true /\
  (forall tool, tool_start_token f = Some tool -> tool <> [] /\ is_prefix start tool = false /\ contains fin tool = false).
Proof using Hok.
  revert Hok. unfold tags_ok. rewrite !andb_true_iff, !negb_true_iff, bool_decide_eq_false. intros ((((((H1 & H2) & H3) & H4) & H5) & H6) & H7).
  repeat split; try done.
  - destruct fin as [|x u]; [done|]. exists x, u. by rewrite negb_true_iff in H1.
  - destruct (rev fin) as [|x u] eqn:Hr; [done|]. exists (rev u), x. rewrite negb_true_iff in H2. split; [|done].
    rewrite <- (rev_involutive fin), Hr. done.
  - rewrite H in H7. rewrite !andb_true_iff, !negb_true_iff, bool_decide_eq_false in H7. apply H7.
  - rewrite H in H7. rewrite !andb_true_iff, !negb_true_iff in H7. apply H7.
  - rewrite H in H7. rewrite !andb_true_iff, !negb_true_iff in H7. apply H7.
Qed.

Lemma fin_nonempty : fin <> [].
Proof using Hok. destruct tags_facts as ((x & u & -> & _) & _). done. Qed.

(** Which texts are held back. *)
Lemma held_spec t :
  held f t = true <-> exists token u, (token = start \/ token = fin \/ tool_start_token f = Some token) /\ token = t ++ u /\ u <> [].
Proof using Hok.
  destruct tags_facts as (_ & _ & _ & _ & _ & _ & Htool). unfold held. rewrite existsb_exists.
  split.
  - intros (token & Hin & Ht). rewrite andb_true_iff, negb_true_iff, bool_decide_eq_false, is_prefix_spec in Ht. destruct Ht as [[u ->] Hne].
    exists (t ++ u), u. split; [|split; [done|]]; [|intros ->; by rewrite app_nil_r in Hne].
    apply in_app_iff in Hin as [[?|[?|[]]]|Hin]; [by auto|by auto|]. destruct (tool_start_token f) as [[|]|]; [done|destruct Hin as [?|[]]|done]. right; right. congruence.
  - intros (token & u & Hor & -> & Hu). exists (t ++ u). split.
    + apply in_app_iff. destruct Hor as [H|[H|H]]; [left; left; congruence|left; right; left; congruence|]. right. rewrite H.
      destruct (Htool _ H) as [Hne _]. destruct (t ++ u); [done|]. by left.
    + rewrite is_prefix_app, andb_true_l, negb_true_iff, bool_decide_eq_false. rewrite <- (app_nil_r t) at 2. intros ?%app_inv_head. done.
Qed.

Lemma held_start_false u : held f (start ++ u) = false.
Proof using Hok.
  destruct tags_facts as (_ & _ & _ & Hpf & _ & _ & Htool). apply not_true_iff_false. rewrite held_spec. intros (token & v & Hor & -> & Hv). rewrite <- app_assoc in Hor.
  destruct Hor as [H|[H|H]].
  - apply (f_equal length) in H. rewrite !length_app in H. destruct v; [done|cbn in H; lia].
  - rewrite <- H, is_prefix_app in Hpf. done.
  - apply Htool in H as (_ & H & _). by rewrite is_prefix_app in H.
Qed.

Lemma held_fin_false r u : held f (r ++ fin ++ u) = false.
Proof using Hok.
  destruct tags_facts as (_ & _ & _ & _ & Hc & _ & Htool). apply not_true_iff_false. rewrite held_spec. intros (token & v & Hor & -> & Hv). rewrite <- !app_assoc in Hor.
  destruct Hor as [H|[H|H]].
  - rewrite <- H in Hc. apply contains_false_r, contains_false_l in Hc. pose proof (find_head fin []) as Hh. rewrite app_nil_r in Hh.
    by rewrite find_contains, Hh, bool_decide_true in Hc.
  - apply (f_equal length) in H. rewrite !length_app in H. destruct v; [done|cbn in H; lia].
  - apply Htool in H as (_ & _ & H). apply contains_false_r, contains_false_l in H. pose proof (find_head fin []) as Hh. rewrite app_nil_r in Hh.
    by rewrite find_contains, Hh, bool_decide_true in H.
Qed.

Lemma held_in_start p u : start = p ++ u -> u <> [] -> held f p = true.
Proof using Hok. intros H Hu. apply held_spec. exists start, u. auto. Qed.

(** ** The phases of a stream *)

Definition no_start (d : detector) (t : text) : Prop := stripped_think_start d = true \/ contains start t = false.

Lemma no_start_l d t u : no_start d (t ++ u) -> no_start d t.
Proof using. intros [H|H]; [by left|right]. by apply contains_false_l in H. Qed.

Lemma no_start_r d t u : no_start d (t ++ u) -> no_start d u.
Proof using. intros [H|H]; [by left|right]. by apply contains_false_r in H. Qed.

Definition kept (t : text) : Prop := t = [] \/ held f t = true.

Lemma step_plain d c :
  fmt d = f -> no_start d (buffer d ++ c) ->
  let cur := buffer d ++ c in
  let d1 := Detector f (stream_reasoning d) (previous_content d) (in_reasoning d) cur (stripped_think_start d) in
  parse_streaming_increment d c = if held f cur then (d1, Result [] []) else emit d1 cur.
Proof using. intros Hf Hns. unfold parse_streaming_increment. rewrite Hf. cbn [fmt stripped_think_start]. destruct Hns as [-> | ->]; by rewrite ?andb_false_r. Qed.

(** The start tag in front is dropped and reasoning begins. *)
Lemma step_start d c x :
  fmt d = f -> stripped_think_start d = false -> buffer d ++ c = start ++ x ->
  parse_streaming_increment d c = emit (Detector f (stream_reasoning d) (previous_content d) true (start ++ x) true) x.
Proof using Hok.
  intros Hf Hs Hc. unfold parse_streaming_increment. rewrite Hf, Hc, held_start_false by done. cbn [fmt stripped_think_start]. rewrite Hs. cbn [negb andb].
  rewrite find_contains, find_head, bool_decide_true by done. by rewrite remove_first_head.
Qed.

(** After the reasoning everything is answer. *)
Lemma stream_answer d cs :
  fmt d = f -> in_reasoning d = false -> no_start d (buffer d ++ concat cs) -> kept (buffer d) ->
  exists d' N, stream d cs = (d', Result N []) /\ N ++ buffer d' = buffer d ++ concat cs /\ kept (buffer d').
Proof using.
  revert d. induction cs as [|c cs IH]; intros d Hf Hr Hns Hk; cbn [stream concat]; [exists d, []; by rewrite app_nil_r|].
  cbn [concat] in Hns. rewrite app_assoc in Hns.
  rewrite step_plain by (try done; by apply no_start_l in Hns).
  destruct (held f (buffer d ++ c)) eqn:Hh.
  - edestruct (IH (Detector f (stream_reasoning d) (previous_content d) (in_reasoning d) (buffer d ++ c) (stripped_think_start d)))
      as (d' & N & -> & HN & Hk'); [done|done|exact Hns|by right|]. exists d', N. cbn in HN |- *. by rewrite HN, app_assoc.
  - unfold emit. cbn [in_reasoning fmt stream_reasoning previous_content stripped_think_start]. rewrite Hr.
    edestruct (IH (Detector f (stream_reasoning d) (previous_content d) false [] (stripped_think_start d)))
      as (d' & N & -> & HN & Hk'); [done|done|by apply no_start_r in Hns|by left|].
    exists d', ((buffer d ++ c) ++ N). cbn in HN |- *. split; [done|]. split; [|done]. by rewrite <- !app_assoc, HN.
Qed.

(** The chunk with the end tag. *)
Lemma emit_end d r b u :
  fmt d = f -> in_reasoning d = true -> find fin (r ++ fin ++ b ++ u) = Some (length r) ->
  emit d (r ++ fin ++ b) =
  (Detector f (stream_reasoning d) (previous_content d) false [] (stripped_think_start d), Result b (rstrip r)).
Proof using.
  intros Hf Hr Hfind. unfold emit. rewrite Hf, Hr.
  rewrite (find_shorter _ (r ++ fin ++ b) u (length r)); [|by rewrite <- !app_assoc|rewrite !length_app; lia].
  do 2 f_equal; [|by rewrite take_app_length]. rewrite app_assoc, <- length_app. apply drop_app_length.
Qed.

(** A chunk of reasoning. *)
Lemma emit_more d cur r b u :
  fmt d = f -> in_reasoning d = true -> stream_reasoning d = true ->
  find fin ((cur ++ r) ++ fin ++ b ++ u) = Some (length (cur ++ r)) ->
  (forall tool, tool_start_token f = Some tool -> contains tool (cur ++ r) = false) ->
  emit d cur = (Detector f true (previous_content d) true [] (stripped_think_start d), Result [] cur).
Proof using Hok.
  intros Hf Hr Hs Hfind Htool. unfold emit. rewrite Hf, Hr, Hs.
  apply find_first in Hfind; [|by apply fin_nonempty]. rewrite find_None by (by apply contains_false_l in Hfind).
  destruct (tool_start_token f) as [[|x tool]|] eqn:Ht; [done| |done]. by rewrite find_None by (by eapply contains_false_l, Htool).
Qed.

(** The reasoning, from a state in it up to the end of the stream: [r] is what is
    left of it, with the buffer. *)
Lemma stream_reasoning_on d cs1 a r b cs2 :
  fmt d = f -> in_reasoning d = true -> stream_reasoning d = true ->
  buffer d ++ concat cs1 ++ a = r -> no_start d (r ++ fin ++ b ++ concat cs2) ->
  find fin (r ++ fin ++ b ++ concat cs2) = Some (length r) ->
  (forall tool, tool_start_token f = Some tool -> contains tool r = false) ->
  exists d' N R ws, stream d (cs1 ++ (a ++ fin ++ b) :: cs2) = (d', Result N R) /\
    R ++ ws = r /\ spaces ws /\ N ++ buffer d' = b ++ concat cs2 /\ kept (buffer d').
Proof using Hok.
  revert d r. induction cs1 as [|c cs1 IH]; intros d r Hf Hr Hs Hb Hns Hfind Htool; cbn [app stream].
  - cbn in Hb. rewrite step_plain; [|done|]; rewrite (app_assoc _ a), Hb;
      [|rewrite (app_assoc fin), (app_assoc r) in Hns; by apply no_start_l in Hns].
    rewrite held_fin_false by done. rewrite (emit_end _ r b (concat cs2)) by done. cbn [stream_reasoning previous_content stripped_think_start].
    edestruct stream_answer as (d' & N & Hst & HN & Hk); [| | | |rewrite Hst]; [done|done| |by left|].
    { by do 3 apply no_start_r in Hns. }
    destruct (rstrip_split r) as (ws & Hws & Hrs). exists d', (b ++ N), (rstrip r), ws. cbn in HN |- *.
    rewrite app_nil_r. split_and!; [done|done|done|by rewrite <- app_assoc, HN|done].
  - rewrite step_plain; [|done|]; [|rewrite <- Hb in Hns; cbn in Hns; rewrite <- !app_assoc, (app_assoc (buffer d)) in Hns; by apply no_start_l in Hns].
    cbn in Hb. rewrite <- app_assoc, app_assoc in Hb. destruct (held f (buffer d ++ c)) eqn:Hh.
    + edestruct (IH (Detector f (stream_reasoning d) (previous_content d) (in_reasoning d) (buffer d ++ c) (stripped_think_start d)) r)
        as (d' & N & R & ws & -> & HR & Hws & HN & Hk); try done. exists d', N, R, ws. done.
    + rewrite <- Hb in Hfind, Htool. rewrite (emit_more _ (buffer d ++ c) (concat cs1 ++ a) b (concat cs2)) by done.
      cbn [previous_content stripped_think_start].
      edestruct (IH (Detector f true (previous_content d) true [] (stripped_think_start d)) (concat cs1 ++ a))
        as (d' & N & R & ws & -> & HR & Hws & HN & Hk); try done.
      * rewrite <- Hb, <- (app_assoc (buffer d ++ c)) in Hns. by apply no_start_r in Hns.
      * rewrite <- (app_assoc (buffer d ++ c)), (length_app (buffer d ++ c)) in Hfind. by apply find_suffix in Hfind.
      * intros tool Ht. by eapply contains_false_r, Htool.
      * exists d', N, ((buffer d ++ c) ++ R), ws. cbn. repeat split; try done. by rewrite <- Hb, <- HR, <- !app_assoc.
Qed.

(** The same from the start tag, of which the buffer holds a part. *)
Lemma stream_from_start d cs1 a r b cs2 :
  fmt d = f -> stripped_think_start d = false -> stream_reasoning d = true -> (length (buffer d) < length start)%nat ->
  buffer d ++ concat cs1 ++ a = start ++ r ->
  find fin (r ++ fin ++ b ++ concat cs2) = Some (length r) ->
  (forall tool, tool_start_token f = Some tool -> contains tool r = false) ->
  exists d' N R ws, stream d (cs1 ++ (a ++ fin ++ b) :: cs2) = (d', Result N R) /\
    R ++ ws = r /\ spaces ws /\ N ++ buffer d' = b ++ concat cs2 /\ kept (buffer d').
Proof using Hok.
  revert d. induction cs1 as [|c cs1 IH]; intros d Hf Hst Hs Hlt Hb Hfind Htool; cbn [app stream].
  - cbn in Hb. rewrite (step_start d (a ++ fin ++ b) (r ++ fin ++ b)) by (try done; by rewrite !app_assoc in *; rewrite Hb).
    rewrite (emit_end _ r b (concat cs2)) by done. cbn [stream_reasoning previous_content stripped_think_start].
    edestruct stream_answer as (d' & N & Hst' & HN & Hk); [| | | |rewrite Hst']; [done|done|by left|by left|].
    destruct (rstrip_split r) as (ws & Hws & Hrs). exists d', (b ++ N), (rstrip r), ws. cbn in HN |- *.
    rewrite app_nil_r. split_and!; [done|done|done|by rewrite <- app_assoc, HN|done].
  - cbn in Hb. rewrite <- app_assoc, app_assoc in Hb. destruct (app_eq_cases _ _ _ _ Hb) as [(k & Hk & Hrest)|(k & Hne & Hk)].
    + rewrite (step_start d c k) by done. rewrite Hrest in Hfind, Htool |- *.
      rewrite (emit_more _ k (concat cs1 ++ a) b (concat cs2)) by done. cbn [previous_content stripped_think_start].
      edestruct (stream_reasoning_on (Detector f true (previous_content d) true [] true) cs1 a (concat cs1 ++ a) b cs2)
        as (d' & N & R & ws & -> & HR & Hws & HN & Hkk); try done; [by left| |..].
      { rewrite <- (app_assoc k), (length_app k) in Hfind. by apply find_suffix in Hfind. }
      { intros tool Ht. by eapply contains_false_r, Htool. }
      exists d', N, (k ++ R), ws. cbn. split_and!; try done. by rewrite <- app_assoc, HR.
    + pose proof (held_in_start _ _ Hk Hne) as Hh. unfold parse_streaming_increment. rewrite Hf, Hh.
      edestruct (IH (Detector f (stream_reasoning d) (previous_content d) (in_reasoning d) (buffer d ++ c) (stripped_think_start d)))
        as (d' & N & R & ws & -> & HR & Hws & HN & Hkk); try done.
      { cbn. rewrite Hk, (length_app _ k). destruct k; [done|cbn; lia]. }
      exists d', N, R, ws. done.
Qed.

(** ** One-time parsing *)

Lemma strip_around r n : strip (r ++ fin ++ n) = lstrip r ++ fin ++ rstrip n.
Proof using Hok.
  destruct tags_facts as ((x & u & Hx & Hsx) & (v & y & Hy & Hsy) & _). unfold strip.
  assert (Hl : lstrip (r ++ fin ++ n) = lstrip r ++ fin ++ n) by (rewrite Hx; by apply lstrip_stop).
  rewrite Hl, Hy, <- (app_assoc v), (app_assoc (lstrip r)). cbn [app]. rewrite rstrip_stop by done. by rewrite <- !app_assoc.
Qed.

Lemma one_shot_spec d s r n :
  fmt d = f -> s = start \/ (s = [] /\ in_reasoning d = true) ->
  contains start (r ++ fin ++ n) = false -> find fin (r ++ fin ++ n) = Some (length r) ->
  detect_and_parse d (s ++ r ++ fin ++ n) = Result (strip n) (lstrip r).
Proof using Hok.
  intros Hf Hs Hns Hfind. destruct tags_facts as (_ & _ & Hne & _ & _ & Hst & _). unfold detect_and_parse. rewrite Hf.
  assert (Hin : in_reasoning d || contains (think_start_token f) (s ++ r ++ fin ++ n) = true).
  { destruct Hs as [->|[-> ->]]; [|done]. rewrite orb_true_iff. right. by apply (contains_more _ [] _ _ Hst). }
  assert (Hrm : remove_all start (s ++ r ++ fin ++ n) 0 = r ++ fin ++ n).
  { destruct Hs as [->|[-> _]]; [rewrite remove_all_head by done|]; by apply remove_all_id. }
  rewrite Hin, Hrm, strip_around. cbn [negb].
  destruct (lstrip_split r) as (wl & _ & Hl). destruct (rstrip_split n) as (wr & _ & Hr).
  assert (Hf2 : find fin (lstrip r ++ fin ++ rstrip n) = Some (length (lstrip r))).
  { apply (find_shorter _ _ wr); [|rewrite !length_app; lia]. apply (find_suffix _ wl). rewrite <- length_app, <- Hl, <- !app_assoc, <- Hr.
    by rewrite (app_assoc wl), <- Hl. }
  rewrite find_contains, Hf2, bool_decide_true by done. cbn [negb andb]. f_equal; [|by rewrite take_app_length].
  rewrite app_assoc, <- length_app, drop_app_length. apply strip_rstrip.
Qed.

End tags.

(** ** The theorems *)

(** The answer of a model that does not reason is passed on, except for a part of
    a tag at its end. *)
Lemma no_reasoning_passthrough c force stream_on previous chunks :
  let d := init (class_format c) force stream_on previous in
  in_reasoning d = false ->
  contains (think_start_text (class_format c)) (concat chunks) = false ->
  contains (think_start_token (class_format c)) (concat chunks) = false ->
  (exists d' N, stream d chunks = (d', Result N []) /\ N ++ buffer d' = concat chunks /\ kept (class_format c) (buffer d')) /\
  detect_and_parse d (concat chunks) = Result (concat chunks) [].
Proof.
  intros d Hr Hns Hns'. split.
  - apply stream_answer; [done|done|by right|by left].
  - unfold detect_and_parse. cbn [fmt d init]. by rewrite Hns', Hr.
Qed.

(** C39: With stream_reasoning on, for the tags of every class and every text that
    begins with its only reasoning section, after the start tag or where
    reasoning is assumed, up to the first end tag, and with no tool tag in the
    reasoning: however the text is cut into chunks, the end tag being in one of them, the increments the
    streaming parser reports as reasoning add up to the reasoning, less white
    space at its end, and those it reports as answer to the rest, less a
    part of a tag that may end it; the one-time parser returns the same reasoning
    and the same answer, up to white space around them. *)
Theorem streaming_matches_one_shot c force previous cs1 a b cs2 s r :
  let f := class_format c in
  let d := init f force true previous in
  let n := b ++ concat cs2 in
  s = think_start_text f \/ (s = [] /\ in_reasoning d = true) ->
  concat cs1 ++ a = s ++ r ->
  find (think_end_token f) (r ++ think_end_token f ++ n) = Some (length r) ->
  contains (think_start_text f) (r ++ think_end_token f ++ n) = false ->
  (forall tool, tool_start_token f = Some tool -> contains tool r = false) ->
  let chunks := cs1 ++ (a ++ think_end_token f ++ b) :: cs2 in
  let one := detect_and_parse d (concat chunks) in
  exists d' N R ws lost, stream d chunks = (d', Result N R) /\
    R ++ ws = r /\ spaces ws /\ N ++ lost = n /\ (lost = [] \/ held f lost = true) /\
    strip (reasoning_text one) = strip R /\ normal_text one = strip n.
Proof.
  intros f d n Hs Hcut Hfind Hns Htool chunks one. pose proof (class_tags_ok c) as Hok. fold f in Hok.
  assert (Hone : one = Result (strip n) (lstrip r)).
  { unfold one, chunks. rewrite concat_app. cbn [concat]. rewrite <- (app_assoc a), <- (app_assoc (think_end_token f)), (app_assoc (concat cs1)), Hcut, <- app_assoc.
    by apply one_shot_spec. }
  assert (Hstream : exists d' N R ws, stream d chunks = (d', Result N R) /\ R ++ ws = r /\ spaces ws /\ N ++ buffer d' = n /\ kept f (buffer d')).
  { destruct Hs as [->|[-> Hr]].
    - apply (stream_from_start f Hok d); try done. cbn. destruct (tags_facts f Hok) as (_ & _ & Hne & _). destruct (think_start_text f); [done|cbn; lia].
    - apply (stream_reasoning_on f Hok d); try done. by right. }
  destruct Hstream as (d' & N & R & ws & Hst & HR & Hws & HN & Hk). exists d', N, R, ws, (buffer d').
  rewrite Hone. cbn [reasoning_text normal_text]. split_and!; try done. by rewrite strip_lstrip, <- HR, strip_spaces_r.
Qed.

(** A start tag in two chunks, reasoning, and an answer that follows the end tag
    in its chunk and in two more. *)
Lemma streaming_matches_one_shot_witness :
  exists d' N R ws lost,
    stream (init think_format false true None) (text_of <$> ["<thi"; "nk>let me"; " see </think> 4"; "2 "; "<"]%string) = (d', Result N R) /\
    R ++ ws = text_of "let me see " /\ spaces ws /\ N ++ lost = text_of " 42 <" /\ (lost = [] \/ held think_format lost = true) /\
    let one := detect_and_parse (init think_format false true None) (text_of "<think>let me see </think> 42 <") in
    strip (reasoning_text one) = strip R /\ normal_text one = strip (text_of " 42 <").
Proof.
  apply (streaming_matches_one_shot Nemotron3Detector false None [text_of "<thi"; text_of "nk>let me"] (text_of " see ") (text_of " 4") [text_of "2 "; text_of "<"] (text_of "<think>") (text_of "let me see ")).
  - by left.
  - reflexivity.
  - vm_compute. reflexivity.
  - vm_compute. reflexivity.
  - discriminate.
Defined.

(** ** What the streaming parser does not do *)

(** An end tag that is cut inside is not found: with the end tag in two chunks,
    the first of which also has reasoning, the streaming parser reports the tag and
    the whole answer as reasoning, where the one-time parser separates them. *)
Theorem split_end_tag_missed :
  let d := init think_format true true None in
  let chunks := text_of <$> ["so 6 * 7 </"; "think>"; "42"]%string in
  snd (stream d chunks) = Result [] (text_of "so 6 * 7 </think>42") /\
  detect_and_parse d (concat chunks) = Result (text_of "42") (text_of "so 6 * 7 ").
Proof. split; vm_compute; reflexivity. Qed.

(** The tag is found when it begins a chunk. *)
Lemma split_end_tag_found :
  snd (stream (init think_format true true None) (text_of <$> ["so 6 * 7 "; "</"; "think>"; "42"]%string)) = Result (text_of "42") (text_of "so 6 * 7 ").
Proof. vm_compute. reflexivity. Qed.

(** An answer that ends with a chunk that could begin a tag loses it: nothing asks
    for the buffer at the end. *)
Lemma held_answer_lost :
  snd (stream (init think_format true true None) (text_of <$> ["hm</think>2 "; "<"]%string)) = Result (text_of "2 ") (text_of "hm").
Proof. vm_compute. reflexivity. Qed.

(** Without stream_reasoning the start tag is reported when the end tag comes in a
    later chunk, and reasoning that is cut off is not reported at all. *)
Lemma buffered_reasoning_quirks :
  let d := init think_format false false None in
  snd (stream d (text_of <$> ["<think>"; "hm"; "</think>2"]%string)) = Result (text_of "2") (text_of "<think>hm") /\
  snd (stream d (text_of <$> ["<think>"; "hm"]%string)) = Result [] [] /\
  detect_and_parse d (text_of "<think>hm") = Result [] (text_of "hm").
Proof. split_and!; vm_compute; reflexivity. Qed.

(** Continuing a message raises TypeError with glm45, and so does
    force_nonempty_content with qwen3. *)
Lemma reasoning_parser_keywords {H} (h : H) :
  (forall stream force previous nonempty, reasoning_parser h "glm45" stream force (Some previous) nonempty = Raise TypeError) /\
  (forall stream force previous, reasoning_parser h "qwen3" stream force previous true = Raise TypeError).
Proof. split; [intros stream force previous []|]; reflexivity. Qed.
