(* ===== verification/ArAdmission.v ===== *)
(** * Admission of the autoregressive server

    Matching a waiting request against the tree and locking what it shares
    (Req.init_next_round_input, PrefillAdder.add_one_req), and the loop over
    the waiting queue without preemption: what is admitted fits the memory that
    can be had once every admitted prefix is locked. *)

From S2P Require Import Prelude Allocator DllmReq MemCommon RadixKey RadixCache RadixCacheProofs RadixCacheTheorems RadixCacheRequests RadixLocks StableSort DecodeBatch DecodeMemory DecodeRetract DecodeTurn Preempt ArServer.
From Stdlib Require Import QArith Lqa.
Import Radix Decode Ar.
#[local] Open Scope Z_scope.

(** ** Waiting and admitted requests *)

(** A waiting request holds nothing and can still generate. *)
Record queued_ok (W : nat) (q : cache_req) : Prop := {
  qo_idx : req_pool_idx (kvs (creq q)) = None;
  qo_flags : kv_committed_freed (kvs (creq q)) = false /\ kv_overallocated_freed (kvs (creq q)) = false;
  qo_going : going q = true;
  qo_prompt : 1 <= len (origin_input_ids (info (creq q)));
  qo_out : len (output_ids (out (creq q))) < max_new_tokens (sampling (info (creq q)));
  qo_width : len (origin_input_ids (info (creq q))) + max_new_tokens (sampling (info (creq q))) <= Z.of_nat W;
}.

(** The same request, looked up again. *)
Record same_req (q q' : cache_req) : Prop := {
  sr_info : info (creq q') = info (creq q);
  sr_out : out (creq q') = out (creq q);
  sr_key : creq_extra_key q' = creq_extra_key q;
  sr_prio : creq_priority q' = creq_priority q;
  sr_idx : req_pool_idx (kvs (creq q')) = req_pool_idx (kvs (creq q));
  sr_flags : kv_committed_freed (kvs (creq q')) = kv_committed_freed (kvs (creq q)) /\
    kv_overallocated_freed (kvs (creq q')) = kv_overallocated_freed (kvs (creq q));
}.

#[global] Instance same_req_refl : Reflexive same_req.
Proof. by intros q. Qed.

#[global] Instance same_req_trans : Transitive same_req.
Proof. intros q1 q2 q3 [A B C D E [F1 F2]] [A' B' C' D' E' [F1' F2']]. split; try congruence. split; congruence. Qed.

Lemma same_queued W q q' : same_req q q' -> queued_ok W q -> queued_ok W q'.
Proof.
  intros [A B C D E [F1 F2]] [Q1 [Q2 Q3] Q4 Q5 Q6 Q7]. split; rewrite ?A, ?B, ?E, ?F1, ?F2; try done.
  unfold going, q_finished, DllmReq.finished in *. by rewrite B.
Qed.

(** What an admitted request will compute, and what it shares. *)
Record admitted (W : nat) (t : radix) (q : cache_req) : Prop := {
  ad_queued : queued_ok W q;
  ad_space : exists nd, nodes t !! last_node q = Some nd /\ in_space t (last_node q) nd (creq_extra_key q);
  ad_fill : fill_ids (inp (creq q)) = all_ids q;
  ad_prefix : prefix_indices (inp (creq q)) = (prefix_at t (last_node q)).*2;
  ad_prot : cache_protected_len (kvs (creq q)) = len (prefix_at t (last_node q));
  ad_units : (prefix_at t (last_node q)).*1 `prefix_of` key_iter (req_key 1 false (creq_extra_key q) (all_ids q));
  ad_ext : extend_input_len (inp (creq q)) = len (all_ids q) - len (prefix_at t (last_node q));
  ad_more : len (prefix_at t (last_node q)) < len (all_ids q);
}.

Lemma admitted_kept W t t' q : ref_kept t t' (last_node q) -> admitted W t q -> admitted W t' q.
Proof. intros [Hp Hs] [A1 A2 A3 A4 A5 A6 A7 A8]. split; rewrite ?Hp; try done. by apply Hs. Qed.

Notation ext q := (extend_input_len (inp (creq q))).

Lemma ext_pos W t q : admitted W t q -> 0 < ext q.
Proof. intros Ha. rewrite (ad_ext _ _ _ Ha). pose proof (ad_more _ _ _ Ha). lia. Qed.

(** The tree after steps that keep every reference and every slot. *)
Record tree_moved (L : list nat) (t t' : radix) : Prop := {
  tm_ok : radix_ok 1 false L t';
  tm_kept h : is_Some (nodes t !! h) -> ref_kept t t' h;
  tm_slots : tree_slots t' ≡ₚ tree_slots t;
}.

Lemma locks_alive L t h : radix_ok 1 false L t -> h ∈ L -> is_Some (nodes t !! h).
Proof. intros [_ Hl]. apply Hl. Qed.

Section admission.
Context (time : nat -> Z) (W : nat).

Lemma init_ok L t q :
  radix_ok 1 false L t -> queued_ok W q ->
  exists q' t', init_next_round_input time 1 q t = Ok (q', t') /\ same_req q q' /\ admitted W t' q' /\
    tree_moved L t t' /\ evictable_size_ t' = evictable_size_ t.
Proof.
  intros Hi Hq. unfold init_next_round_input. cbn zeta. set (r := set_fill_ids _ _). set (max_len := Z.max _ 0).
  assert (Hfill : fill_ids (inp r) = all_ids q) by done. set (toks := slice_to (fill_ids (inp r)) max_len).
  assert (Hlen : 1 <= len (all_ids q)) by (unfold all_ids; rewrite len_app; pose proof (qo_prompt _ _ Hq); pose proof (len_nonneg (output_ids (out (creq q)))); lia).
  assert (Hmax : 0 <= max_len < len (all_ids q)) by (subst max_len; rewrite Hfill; destruct (_ && _); lia).
  assert (Htoks : toks = take (Z.to_nat max_len) (all_ids q)) by (subst toks; rewrite Hfill, slice_to_take by lia; done).
  destruct (match_run 1 false ltac:(lia) time L t (RadixKey toks (creq_extra_key q) false) Hi ltac:(done))
    as (g & n & t' & Hrun & [M1 M2 M3 M4 _ _ _ _ M9 M10 M11 M12]).
  change (Z.to_nat 1) with 1%nat. rewrite Hrun. step_ok. eexists _, t'. split; [reflexivity|].
  change (key_iter (view 1 false (RadixKey toks (creq_extra_key q) false))) with ((fun x => [x]) <$> toks) in M4.
  assert (Hg : len g <= max_len).
  { apply prefix_length in M4. rewrite !length_fmap, Htoks, length_take in M4. unfold len. lia. }
  split; [done|]. split; [|split; [by split|done]].
  split; cbn [last_node creq creq_extra_key set_extend_input_len set_protected_len set_prefix_indices set_inp set_kvs inp kvs
    fill_ids prefix_indices extend_input_len cache_protected_len]; rewrite ?M3; try done.
  - by apply (same_queued W q).
  - unfold len. by rewrite length_fmap.
  - change (key_iter (req_key 1 false (creq_extra_key q) ?l)) with ((fun x => [x]) <$> l).
    etransitivity; [exact M4|]. rewrite Htoks, fmap_take. apply prefix_take.
  - unfold len. rewrite length_fmap. done.
  - change (all_ids _) with (all_ids q). lia.
Qed.

(** ** Budgets *)

Context `{!HeapQ} (CLIP max_prefill max_reqs : Z) (prefill_max : option Z).
Hypothesis clip_pos : 0 <= CLIP.
Context (slots : list Z).

(** The tree moved under a batch. *)
Lemma tree_step L L' m t' qs :
  decode_ok slots [] [] L m qs -> tree_moved ((last_node <$> qs) ++ L') (tree m) t' ->
  decode_ok slots [] [] L' (Mem (kv m) (rows m) t') qs.
Proof.
  intros [Hs Hr Hl Hw Hwf Ht Hv] [T1 T2 T3]. split; cbn [kv rows tree]; try done.
  - by rewrite T3.
  - rewrite Forall_forall in *. intros q Hq. apply (live_kept _ (tree m)); [|by apply Hv]. apply T2.
    apply (locks_alive _ _ _ Ht), elem_of_app. left. by apply list_elem_of_fmap_2.
Qed.

Lemma room_available m : is_not_in_free_group (kv m) = true -> available_and_evictable 1 m = room m.
Proof. intros Hg. unfold available_and_evictable, kv_available, room. change (1 =? 1) with true. cbn match. by rewrite Token.available_pool. Qed.

Record admitting (qs : list cache_req) (a : adder) (m : mem radix) : Prop := {
  am_ok : decode_ok slots [] [] (last_node <$> can_run_list a) m qs;
  am_run : Forall (admitted W (tree m)) (can_run_list a);
  am_offset : (inject_Z (Decode.sum ((fun q => ext q) <$> can_run_list a)) <= rem_total_token_offset a)%Q;
  am_fit : Decode.sum ((fun q => ext q) <$> can_run_list a) <= room m;
  am_preempt : preempt_list a = [];
}.

Lemma Qle_bool_false x y : Qle_bool x y = false -> (y < x)%Q.
Proof. intros Hf. destruct (Qlt_le_dec y x) as [?|Hc]; [done|]. apply Qle_bool_iff in Hc. congruence. Qed.

Lemma ceil_one x : ceil_paged_tokens 1 x = x.
Proof. unfold ceil_paged_tokens. rewrite Z.div_1_r. lia. Qed.

(** The tree moved under an admission. *)
Lemma admitting_moved qs a m t' :
  admitting qs a m -> tree_moved ((last_node <$> qs) ++ (last_node <$> can_run_list a)) (tree m) t' ->
  evictable_size_ t' = evictable_size_ (tree m) -> admitting qs a (Mem (kv m) (rows m) t').
Proof.
  intros [A1 A2 A3 A4 A5] Ht He. split; try done.
  - by apply (tree_step (last_node <$> can_run_list a)).
  - rewrite Forall_forall in *. intros q Hq. cbn [tree]. apply (admitted_kept W (tree m)); [|by apply A2].
    apply (tm_kept _ _ _ Ht), (locks_alive _ _ _ (d_tree _ _ _ _ _ _ A1)), elem_of_app. right. by apply list_elem_of_fmap_2.
  - unfold room in *. cbn [kv tree]. by rewrite He.
Qed.

Lemma add_spec qs a m q :
  admitting qs a m -> admitted W (tree m) q -> is_not_in_free_group (kv m) = true ->
  exists r a' m', add_one_req 1 CLIP prefill_max q a m = Ok (r, a', m') /\ kv m' = kv m /\ rows m' = rows m /\
    admitting qs a' m' /\ (can_run_list a' = can_run_list a /\ r <> CONTINUE \/ can_run_list a' = can_run_list a ++ [q]).
Proof.
  intros Ha Hq Hg. unfold add_one_req. destruct (match prefill_max with Some x => _ | None => false end).
  { exists OTHER, a, m. do 4 (split; [done|]). by left. }
  cbn zeta. set (max_new := Z.min _ CLIP). rewrite ceil_one. set (total := inject_Z _).
  destruct (Qle_bool (rem_total_tokens 1 m a) total); [exists NO_TOKEN, a, m; do 4 (split; [done|]); by left|].
  destruct (_ && _); [exists OTHER, a, m; do 4 (split; [done|]); by left|].
  pose proof Ha as [A1 A2 A3 A4 A5]. destruct (ad_space _ _ _ Hq) as (nd & Hnd & _).
  destruct (admission_locks 1 false ltac:(lia) _ (tree m) (last_node q) (d_tree _ _ _ _ _ _ A1) ltac:(by eexists))
    as (d1 & t1 & d0 & t0 & d2 & t2 & d3 & t3 & R1 & R0 & [K1 K2 K3] & E0 & R2 & R3 & [J1 J2 J3] & E3).
  rewrite R1. step_ok. cbn [tree kv rows]. destruct (Qle_bool _ total) eqn:Hfit.
  { rewrite R0. step_ok. exists NO_TOKEN, a, (Mem (kv m) (rows m) t0). do 3 (split; [done|]). split; [|by left].
    apply admitting_moved; [done| |done]. split; [done|done|by rewrite K3]. }
  rewrite R2. step_ok. rewrite R3. step_ok. eexists _, _, (Mem (kv m) (rows m) t3). split; [reflexivity|]. do 2 (split; [done|]).
  split; [|by right]. apply Qle_bool_false in Hfit. unfold rem_total_tokens in Hfit.
  rewrite room_available in Hfit by done. unfold room in Hfit. cbn [kv tree] in Hfit. rewrite <- E3 in Hfit.
  assert (Hmn : 0 <= max_new) by (subst max_new; lia).
  assert (Hclip : 0 <= Z.min (max_new_tokens (sampling (info (creq q)))) CLIP).
  { pose proof (qo_out _ _ (ad_queued _ _ _ Hq)). pose proof (len_nonneg (output_ids (out (creq q)))). lia. }
  assert (Hsum : Decode.sum ((fun q => ext q) <$> can_run_list a ++ [q]) = Decode.sum ((fun q => ext q) <$> can_run_list a) + ext q).
  { rewrite fmap_app, sum_zapp. cbn. lia. }
  split; cbn [update_prefill_budget add_can_run can_run_list rem_total_token_offset preempt_list kv rows tree]; rewrite ?Hsum, ?ceil_one; try done.
  - apply (tree_step (last_node <$> can_run_list a)); [done|]. split; [|done|by rewrite J3].
    eapply radix_ok_perm; [|exact J1]. rewrite fmap_app, app_assoc. apply Permutation_cons_append.
  - apply Forall_app. split.
    + rewrite Forall_forall in *. intros q' Hq'. apply (admitted_kept W (tree m)); [|by apply A2].
      apply J2, (locks_alive _ _ _ (d_tree _ _ _ _ _ _ A1)), elem_of_app. right. by apply list_elem_of_fmap_2.
    + constructor; [|done]. apply (admitted_kept W (tree m)); [|done]. apply J2. by eexists.
  - rewrite !inject_Z_plus. rewrite inject_Z_plus in *. apply Qplus_le_compat; [done|].
    rewrite Zle_Qle in Hclip. change (inject_Z 0) with 0%Q in Hclip. change (inject_Z 1) with 1%Q. lra.
  - unfold room. cbn [kv tree]. apply Z.lt_le_incl. rewrite Zlt_Qlt. rewrite inject_Z_plus.
    unfold total in Hfit. rewrite !inject_Z_plus in Hfit. rewrite Zle_Qle in Hmn. change (inject_Z 0) with 0%Q in Hmn. change (inject_Z 1) with 1%Q in Hfit.
    rewrite inject_Z_plus. lra.
Qed.

(** ** The loop *)

Context (strat : strategy) (dfi : bool) (steps : Z) (low_first : bool) (threshold : Z).
Context (entry : cache_req -> Z) (set_order : list cache_req -> list cache_req) (ratio : Q).
Notation admit_waiting := (admit_waiting time strat dfi 1 steps CLIP max_reqs prefill_max false low_first threshold entry set_order ratio).

(** The loop takes requests from the front, as many as rows and memory allow. *)
Lemma admit_spec qs queue : forall a b m,
  admitting qs a m -> Forall (queued_ok W) queue -> is_not_in_free_group (kv m) = true ->
  len (can_run_list a) + len (reqs b) <= max_reqs ->
  exists queue' a' full m' k, admit_waiting queue a b m = Ok (queue', a', set_full b full, m') /\
    Forall2 same_req queue queue' /\ admitting qs a' m' /\ kv m' = kv m /\ rows m' = rows m /\
    can_run_list a' = can_run_list a ++ take k queue' /\ len (can_run_list a') + len (reqs b) <= max_reqs.
Proof.
  induction queue as [|q queue IH]; intros a b m Ha Hq Hg Hrows.
  { exists [], a, (batch_is_full b), m, 0%nat. cbn [Ar.admit_waiting take]. rewrite app_nil_r. by destruct b. }
  apply Forall_cons in Hq as [Hq0 Hq]. cbn [Ar.admit_waiting]. set (b1 := if _ <=? _ then _ else b).
  assert (Hb1 : exists f, b1 = set_full b f /\ (f = false -> len (can_run_list a) + len (reqs b) < max_reqs)).
  { subst b1. unfold get_num_allocatable_reqs. destruct (Z.leb_spec (max_reqs - Z.of_nat (length (reqs b))) (len (can_run_list a))) as [Hf|Hf].
    - by exists true.
    - exists (batch_is_full b). split; [by destruct b|]. intros _. unfold len in *. lia. }
  destruct Hb1 as (f & -> & Hlt). cbn [set_full batch_is_full]. destruct f; step_ok.
  { cbn [negb]. exists (q :: queue), a, true, m, 0%nat. cbn [take]. rewrite app_nil_r. split; [done|]. split; [|done].
    constructor; [done|]. clear. induction queue; by constructor. }
  specialize (Hlt eq_refl). cbn [negb].
  destruct (init_ok _ (tree m) q (d_tree _ _ _ _ _ _ (am_ok _ _ _ Ha)) Hq0) as (q' & t' & Hinit & Hsame & Had & Hmv & Hev).
  rewrite Hinit. step_ok. pose proof (admitting_moved _ _ _ _ Ha Hmv Hev) as Ha1.
  destruct (add_spec qs a (Mem (kv m) (rows m) t') q' Ha1 Had Hg) as (r & a2 & m2 & Hadd & Hkv & Hrw & Ha2 & Hcase).
  rewrite Hadd. step_ok. cbn [kv rows] in Hkv, Hrw.
  assert (Hrefl : Forall2 same_req (q :: queue) (q' :: queue)) by (constructor; [done|]; clear; induction queue; by constructor).
  assert (Hstop : forall f, exists queue' a' full m' k, Ok (q' :: queue, a2, set_full b f, m2) = Ok (queue', a', set_full b full, m') /\
    Forall2 same_req (q :: queue) queue' /\ admitting qs a' m' /\ kv m' = kv m /\ rows m' = rows m /\
    can_run_list a' = can_run_list a ++ take k queue' /\ len (can_run_list a') + len (reqs b) <= max_reqs).
  { intros f. destruct Hcase as [[Hc _]|Hc].
    - exists (q' :: queue), a2, f, m2, 0%nat. cbn [take]. rewrite app_nil_r, Hc. done.
    - exists (q' :: queue), a2, f, m2, 1%nat. cbn [take]. rewrite take_0, Hc. do 6 (split; [done|]). rewrite len_app. unfold len in *. cbn [length]. lia. }
  destruct r; [|exact (Hstop true)|exact (Hstop false)].
  destruct Hcase as [[_ ?]|Hc]; [done|].
  destruct (IH a2 (set_full b false) m2 Ha2 Hq ltac:(by rewrite Hkv)) as (queue' & a3 & full & m3 & k & Hrun & Hf & Ha3 & Hkv3 & Hrw3 & Hc3 & Hl3).
  { rewrite Hc, len_app. cbn [set_full reqs]. unfold len in *. cbn [length]. lia. }
  rewrite Hrun. step_ok. exists (q' :: queue'), a3, full, m3, (S k). split; [done|]. split; [by constructor|]. split; [done|].
  split; [congruence|]. split; [congruence|]. split; [|done]. rewrite Hc3, Hc, <- app_assoc. done.
Qed.

(** ** Progress

    When no request runs, all memory is free or can be evicted, and the first
    request of the queue gets it. *)

(** Prompt and output fit the pool, with a slot to spare. *)
Definition fits_pool (i : req_info) : Prop :=
  len (origin_input_ids i) + max_new_tokens (sampling i) + 1 < len slots.

Lemma room_idle m : decode_ok slots [] [] [] m [] -> room m = len slots.
Proof.
  intros [D1 _ _ _ _ D6 _]. pose proof (evictable_bound 1 false ltac:(lia) [] (tree m) D6) as Hb.
  pose proof (sizes_exact 1 false ltac:(lia) _ _ (tree m) D6) as Hs. cbn [foldr] in Hb. apply Permutation_length in D1. rewrite !length_app in D1. cbn in D1.
  assert (Hp : 0 <= protected_size_ (tree m)).
  { rewrite (ok_protected _ _ _ _ _ (proj1 D6)). generalize (nodes (tree m)). intros t. induction t as [|n nd t Hn IH] using map_ind; [done|].
    rewrite msum_insert by done. destruct (lock_ref nd =? 0); lia. }
  unfold room, len in *. lia.
Qed.

Definition takes_one : Prop := match prefill_max with Some x => 1 <= x | None => True end.

Lemma add_first a m q r a' m' :
  takes_one -> decode_ok slots [] [] [] m [] -> is_not_in_free_group (kv m) = true -> admitted W (tree m) q -> fits_pool (info (creq q)) ->
  can_run_list a = [] -> (rem_total_token_offset a == 0)%Q ->
  add_one_req 1 CLIP prefill_max q a m = Ok (r, a', m') -> can_run_list a' <> [].
Proof.
  intros H1 Hd Hg Hq Hfit Hc Ho. unfold add_one_req. rewrite Hc.
  assert (Hmax : match prefill_max with Some x => x <=? len (@nil cache_req) | None => false end = false).
  { unfold takes_one in H1. destruct prefill_max as [x|]; [|done]. apply Z.leb_gt. unfold len. cbn. lia. }
  rewrite Hmax. cbn zeta. set (max_new := Z.min _ CLIP). set (total := inject_Z _).
  pose proof (qo_out _ _ (ad_queued _ _ _ Hq)) as Hout. unfold fits_pool in Hfit. pose proof (ad_ext _ _ _ Hq) as Hext.
  assert (Hall : len (all_ids q) = len (origin_input_ids (info (creq q))) + len (output_ids (out (creq q)))) by (unfold all_ids; apply len_app).
  assert (Hneed : ext q + max_new + 1 < len slots - len (prefix_at (tree m) (last_node q))) by (subst max_new; lia).
  pose proof (len_nonneg (prefix_at (tree m) (last_node q))) as Hpp.
  assert (Hno : forall m0, ext q + max_new + 1 < room m0 -> is_not_in_free_group (kv m0) = true -> Qle_bool (rem_total_tokens 1 m0 a) total = false).
  { intros m0 Hlt Hg0. destruct (Qle_bool _ _) eqn:Hle; [|done]. apply Qle_bool_iff in Hle. unfold rem_total_tokens in Hle. rewrite room_available in Hle by done.
    rewrite Ho in Hle. unfold total in Hle. rewrite Zlt_Qlt in Hlt. lra. }
  rewrite Hno; [|rewrite room_idle by done; lia|done]. rewrite (bool_decide_true _ eq_refl), andb_false_r.
  destruct (ad_space _ _ _ Hq) as (nd & Hnd & _).
  destruct (admission_locks 1 false ltac:(lia) _ (tree m) (last_node q) (d_tree _ _ _ _ _ _ Hd) ltac:(by eexists))
    as (d1 & t1 & d0 & t0 & d2 & t2 & d3 & t3 & R1 & _ & _ & _ & R2 & R3 & _).
  pose proof (lock_leaves 1 false ltac:(lia) (tree m) (last_node q) d1 t1 (d_tree _ _ _ _ _ _ Hd) ltac:(by eexists) R1) as Hleft.
  rewrite R1. step_ok. cbn [tree kv rows]. rewrite Hno; [|unfold room; cbn [kv tree]|done].
  - rewrite R2. step_ok. rewrite R3. step_ok. intros [= _ <- _]. cbn. by rewrite Hc.
  - pose proof (d_slots _ _ _ _ _ _ Hd) as Hs. apply Permutation_length in Hs. rewrite !length_app in Hs. cbn in Hs. unfold len in *. lia.
Qed.

Lemma admit_first q queue a b m queue' a' b' m' :
  takes_one -> 1 <= max_reqs -> reqs b = [] -> batch_is_full b = false ->
  admitting [] a m -> Forall (queued_ok W) (q :: queue) -> is_not_in_free_group (kv m) = true -> fits_pool (info (creq q)) ->
  can_run_list a = [] -> (rem_total_token_offset a == 0)%Q ->
  admit_waiting (q :: queue) a b m = Ok (queue', a', b', m') -> can_run_list a' <> [].
Proof.
  intros H1 Hmax Hb Hbf Ha Hq Hg Hfit Hc Ho. apply Forall_cons in Hq as [Hq0 Hq]. cbn [Ar.admit_waiting]. rewrite Hb, Hc. unfold get_num_allocatable_reqs.
  assert (Hroom : (max_reqs - Z.of_nat (length (@nil cache_req)) <=? len (@nil cache_req)) = false) by (apply Z.leb_gt; unfold len; cbn; lia).
  rewrite Hroom, Hbf. step_ok. cbn [negb].
  destruct (init_ok _ (tree m) q (d_tree _ _ _ _ _ _ (am_ok _ _ _ Ha)) Hq0) as (q' & t' & Hinit & Hsame & Had & Hmv & Hev).
  rewrite Hinit. step_ok. pose proof (admitting_moved _ _ _ _ Ha Hmv Hev) as Ha1.
  destruct (add_spec [] a (Mem (kv m) (rows m) t') q' Ha1 Had Hg) as (r & a2 & m2 & Hadd & Hkv & Hrw & Ha2 & Hcase).
  assert (Hne : can_run_list a2 <> []).
  { refine (add_first a (Mem (kv m) (rows m) t') q' r a2 m2 H1 _ Hg Had _ Hc Ho Hadd); [|by rewrite (sr_info _ _ Hsame)].
    pose proof (am_ok _ _ _ Ha1) as Hd. by rewrite Hc in Hd. }
  rewrite Hadd. step_ok. destruct r; [|intros [= _ <- _ _]; done|intros [= _ <- _ _]; done].
  destruct Hcase as [[_ ?]|Hc2]; [done|].
  destruct (admit_spec [] queue a2 b m2 Ha2 Hq ltac:(by rewrite Hkv)) as (queue2 & a3 & full & m3 & k & Hrun & _ & _ & _ & _ & Hc3 & _).
  { rewrite Hc2, Hc, Hb. unfold len. cbn. lia. }
  rewrite Hrun. step_ok. intros [= _ <- _ _]. rewrite Hc3, Hc2. by destruct (can_run_list a).
Qed.
End admission.
