(* ===== verification/ArPrefill.v ===== *)
(** * Prefilling a batch

    prepare_for_extend gives every admitted request a row and slots for what it
    does not share; process_batch_result_prefill appends the first token,
    releases the requests that finish and hands the prefixes of the others to
    the tree. *)

From S2P Require Import Prelude Allocator DllmReq MemCommon KvAccounting RadixKey RadixCache RadixCacheProofs RadixCacheTheorems RadixCacheRequests RadixLocks StableSort DecodeBatch DecodeMemory DecodeRetract DecodeTurn Preempt ArServer ArAdmission.
From Stdlib Require Import QArith.
Import Radix Decode Ar.
#[local] Open Scope Z_scope.

#[global] Instance cache_req_inhabited : Inhabited cache_req := populate (CacheReq inhabitant None None 0).

(** ** Rows *)

(** The request once its row and its slots are recorded. *)
Definition placed (q : cache_req) (i : nat) : cache_req :=
  let n := len (fill_ids (inp (creq q))) in
  with_req q (set_kv_lens (set_pool_idx (creq q) (Some i)) n n).

Definition with_row (q : cache_req) (i : nat) : cache_req := with_req q (set_pool_idx (creq q) (Some i)).

Lemma alloc_rows_ok qs p :
  Forall (fun q => req_pool_idx (kvs (creq q)) = None) qs -> (length qs <= length (free_slots p))%nat ->
  alloc_req_slots (creq <$> qs) p =
    Ok (creq <$> zip_with with_row qs (take (length qs) (free_slots p)), set_free_slots p (drop (length qs) (free_slots p))).
Proof.
  intros Hn Hl. unfold alloc_req_slots, pool_alloc.
  assert (Hneed : forall q, q ∈ qs -> needs_slot (creq q) = true).
  { intros q Hq. rewrite Forall_forall in Hn. unfold needs_slot. by rewrite bool_decide_true by (by apply Hn). }
  assert (Hall : forallb (fun r => needs_slot r || (0 <? is_chunked (inp r)) || (0 <? kv_committed_len (kvs r))) (creq <$> qs) = true).
  { apply forallb_forall. intros r (q & -> & Hq)%list_elem_of_In%list_elem_of_fmap. by rewrite Hneed. }
  rewrite Hall. cbn [py_assert]. step_ok.
  assert (Hf : filter (fun r => needs_slot r = true) (creq <$> qs) = creq <$> qs).
  { clear -Hneed. induction qs as [|q qs IH]; [done|]. rewrite fmap_cons, filter_cons_True by (apply Hneed; by left).
    f_equal. apply IH. intros; apply Hneed; by right. }
  rewrite Hf, length_fmap. destruct (Nat.ltb_spec (length (free_slots p)) (length qs)); [lia|]. step_ok. cbn [of_option]. do 2 f_equal.
  clear -Hn Hl. revert Hl. generalize (free_slots p). induction qs as [|q qs IH]; intros fr Hl; [done|].
  destruct fr as [|i fr]; [cbn in Hl; lia|]. apply Forall_cons in Hn as [Hq Hn]. cbn [length take zip_with]. rewrite !fmap_cons. cbn [take_slots].
  rewrite Hq. f_equal. apply IH; [done|]. cbn in Hl. lia.
Qed.

Lemma commit_rows qs idxs :
  length idxs = length qs ->
  Forall (fun q => len (fill_ids (inp (creq q))) - len (prefix_indices (inp (creq q))) = ext q) qs ->
  mapM commit_extend (creq <$> zip_with with_row qs idxs) = Ok (creq <$> zip_with placed qs idxs).
Proof.
  revert idxs. induction qs as [|q qs IH]; intros [|i idxs] Hl Hf; try done. apply Forall_cons in Hf as [Hq Hf].
  assert (Hc : commit_extend (creq (with_row q i)) = Ok (creq (placed q i))).
  { unfold commit_extend. change (inp (creq (with_row q i))) with (inp (creq q)). cbn zeta. by rewrite Hq, Z.eqb_refl. }
  cbn [zip_with]. rewrite !fmap_cons. cbn [mapM]. rewrite Hc. step_ok. rewrite IH by (done || by injection Hl). done.
Qed.

Lemma zip_with_req {A} (f : cache_req -> A -> cache_req) qs l :
  (forall q x, with_req q (creq (f q x)) = f q x) -> length l = length qs -> zip_with with_req qs (creq <$> zip_with f qs l) = zip_with f qs l.
Proof.
  intros Hf. revert l. induction qs as [|q qs IH]; intros [|x l] Hl; try done. cbn [zip_with]. rewrite fmap_cons. cbn [zip_with]. rewrite Hf.
  f_equal. apply IH. by injection Hl.
Qed.

Lemma with_row_zip qs idxs : length idxs = length qs -> (fun q => pool_idx (creq q)) <$> zip_with with_row qs idxs = idxs.
Proof.
  revert idxs. induction qs as [|q qs IH]; intros [|i idxs] Hl; try done. cbn [zip_with]. rewrite fmap_cons. f_equal. apply IH. by injection Hl.
Qed.

(** The request in its row. *)
Lemma placed_live W table t q i row seg :
  admitted W t q -> table !! i = Some row -> length row = W -> take (length (fill_ids (inp (creq q)))) row = prefix_indices (inp (creq q)) ++ seg ->
  live table t (placed q i) /\ own table (placed q i) = seg.
Proof.
  intros [[Q1 Q2 Q3 Q4 Q5 Q6] A2 A3 A4 A5 A6 A7 A8] Hrow Hlen Htk. rewrite A3 in *.
  assert (Hr : row_of table (placed q i) = row) by (by apply list_lookup_total_correct).
  assert (Hall : all_ids (placed q i) = all_ids q) by done.
  assert (Hn : len (all_ids q) = seqlen (creq q)) by (unfold all_ids, seqlen; by rewrite len_app).
  assert (Htoks : toks_of (placed q i) = all_ids q).
  { unfold toks_of, placed. cbn. rewrite A3, slice_to_take by apply len_nonneg. apply take_ge. unfold len. rewrite Nat2Z.id. done. }
  assert (Hpre : length (prefix_indices (inp (creq q))) = length (prefix_at t (last_node q))) by (rewrite A4; by rewrite length_fmap).
  split.
  - split; try done.
    + by rewrite Hr.
    + split; rewrite ?Htoks; cbn [placed with_req last_node creq_extra_key creq]; try done.
      * rewrite Hr, <- A4. exists (seg ++ drop (length (all_ids q)) row). by rewrite app_assoc, <- Htk, take_drop.
      * rewrite Hr, Hlen. unfold seqlen, len in *. lia.
    + cbn. rewrite A3. change (seqlen _) with (seqlen (creq q)). pose proof (len_nonneg (all_ids q)). lia.
  - unfold own. rewrite Hr. assert (Hc : commit (placed q i) = length (all_ids q)).
    { unfold commit, placed. cbn. rewrite A3. unfold len. lia. }
    assert (Hs : shield (placed q i) = length (prefix_indices (inp (creq q)))).
    { unfold shield, placed. cbn. rewrite A5, Hpre. unfold len. lia. }
    rewrite Hc, Hs, Htk. by rewrite drop_app_length.
Qed.

Section prefill.
Context `{!HeapQ} (time : nat -> Z) (strat : strategy) (dfi : bool) (masked : lanes) (oob : Z -> Z) (empty : Z -> list Z).
Context (str_finish : req -> option finish_reason) (grammar_terminated : req -> bool) (top_num : req -> Z).
Context (slots : list Z) (W : nat).

(** ** Slots *)

Lemma slots_taken n m qs orows L :
  decode_ok slots [] orows L m qs -> is_not_in_free_group (kv m) = true -> 0 <= n <= room m ->
  exists loc m', alloc_token_slots strat 1 n m = Ok (loc, m') /\ len loc = n /\ decode_ok slots loc orows L m' qs /\
    rows m' = rows m /\ is_not_in_free_group (kv m') = true /\ (forall h, h ∈ L -> ref_kept (tree m) (tree m') h).
Proof.
  intros Hd Hg [H0 Hn]. unfold alloc_token_slots.
  destruct (evict_full strat slots [] orows L n m qs Hd) as (m1 & Hrun & Hd1 & [F1 F2 _] & Hk & Henough). rewrite Hrun. step_ok.
  specialize (Henough Hg Hn). rewrite Hg in F2. pose proof (d_wf _ _ _ _ _ _ Hd1) as Hwf.
  destruct (Token.alloc n (kv m1)) as [o a] eqn:Ha. destruct o as [loc|].
  2:{ pose proof (Token.alloc_none_iff n (kv m1) Hwf) as [Hno _]. rewrite Ha in Hno. specialize (Hno eq_refl).
      rewrite Token.available_pool in Hno by done. lia. }
  pose proof (Token.alloc_wf _ _ _ _ Hwf Ha) as Hwf'. destruct (Token.alloc_spec _ _ _ _ Ha) as [[Hp Hlen] [_ Hg']].
  exists loc. eexists. split; [reflexivity|]. split; [by apply Hlen|]. cbn [kv rows tree].
  split; [|split; [done|split; [congruence|done]]].
  destruct Hd1 as [D1 D2 D3 D4 D5 D6 D7]. split; cbn [kv rows tree]; try done. rewrite <- D1, Hp. solve_Permutation.
Qed.

(** ** Recording them *)

Lemma own_ext table table' (qs : list cache_req) :
  (forall q, q ∈ qs -> table' !! row_no q = table !! row_no q) -> qs ≫= own table' = qs ≫= own table.
Proof.
  induction qs as [|q qs IH]; intros Hq; [done|]. rewrite !bind_cons, IH by (intros; apply Hq; by right). f_equal.
  unfold own, row_of. by rewrite !list_lookup_total_alt, Hq by (by left).
Qed.

Lemma live_ext table table' t q : table' !! row_no q = table !! row_no q -> live table t q -> live table' t q.
Proof.
  intros Ht [Hi Hrow Hat Hal Hc Hf]. assert (Hro : row_of table' q = row_of table q) by (unfold row_of; by rewrite !list_lookup_total_alt, Ht).
  split; rewrite ?Hro; try done. by rewrite Ht.
Qed.

Lemma admitted_fits t q : admitted W t q -> row_fits W (creq q).
Proof.
  intros [[_ _ _ _ Q5 Q6] _ A3 A4 _ _ A7 A8]. unfold row_fits. rewrite A3, A4.
  assert (Hp : len (prefix_at t (last_node q)).*2 = len (prefix_at t (last_node q))) by (unfold len; by rewrite length_fmap).
  rewrite Hp, A7. split; [lia|]. split; [lia|]. unfold all_ids. rewrite len_app. lia.
Qed.

Lemma ext_total t qs : Forall (admitted W t) qs -> Z.of_nat (foldr Nat.add 0%nat (el_of (creq <$> qs))) = Decode.sum ((fun q => ext q) <$> qs).
Proof.
  unfold el_of, Decode.sum. induction qs as [|q qs IH]; intros Hf; [done|]. apply Forall_cons in Hf as [Hq Hf].
  rewrite !fmap_cons. cbn [foldr]. rewrite Nat2Z.inj_add, IH by done. pose proof (ext_pos _ _ _ Hq). lia.
Qed.

(** The rows of the batch: what is shared, then the new slots. *)
Lemma rows_written qs0 idxs loc m qs :
  decode_ok slots loc idxs (last_node <$> qs0) m qs -> Forall (admitted W (tree m)) qs0 -> length idxs = length qs0 ->
  max_context_len (rows m) = W -> len loc = Decode.sum ((fun q => ext q) <$> qs0) ->
  let rs := creq <$> qs0 in
  let table' := write_kernel idxs (prefix_of_reqs rs) (pre_of rs) (sl_of rs) (el_of rs) loc (req_to_token (rows m)) in
  decode_ok slots [] [] [] (Mem (kv m) (set_table (rows m) table') (tree m)) (zip_with placed qs0 idxs ++ qs).
Proof.
  intros [D1 D2 D3 D4 D5 D6 D7] Had Hl HW Hloc rs table'. assert (Hnd := NoDup_seq 0 (pool_size (rows m))). rewrite <- D2 in Hnd.
  apply NoDup_app in Hnd as (_ & _ & Hnd). apply NoDup_app in Hnd as (_ & Hdis & Hnd).
  destruct (kernel_rows W (req_to_token (rows m)) rs idxs loc) as (Htl & Htw & Hto & Htb).
  - intros r (q & -> & Hq)%list_elem_of_fmap. rewrite Forall_forall in Had. apply (admitted_fits (tree m)). by apply Had.
  - unfold rs. by rewrite length_fmap.
  - done.
  - intros i Hi. assert (Hin : i ∈ seq 0 (pool_size (rows m))) by (rewrite <- D2; apply elem_of_app; right; apply elem_of_app; by right).
    apply elem_of_seq in Hin. lia.
  - intros i row Hi. rewrite <- HW. by apply (D4 i).
  - unfold rs. by rewrite (ext_total (tree m)).
  - fold table' in Htl, Htw, Hto, Htb. set (seg b := take (el_of rs !!! b) (drop (foldr Nat.add 0%nat (take b (el_of rs))) loc)) in *.
    set (new := zip_with placed qs0 idxs). assert (Hln : length new = length qs0) by (unfold new; rewrite length_zip_with; lia).
    assert (Hlr : length rs = length qs0) by (unfold rs; apply length_fmap).
    assert (Hnew : forall b q', new !! b = Some q' -> live table' (tree m) q' /\ own table' q' = seg b).
    { intros b q' Hb. apply lookup_zip_with_Some in Hb as (q & i & -> & Hq & Hi).
      destruct (Htb b) as (row & Hrow & _ & _ & _ & Htk); [rewrite Hlr; by eapply lookup_lt_Some|]. cbn zeta in Htk.
      assert (Hrq : rs !!! b = creq q) by (apply list_lookup_total_correct; unfold rs; by rewrite list_lookup_fmap, Hq).
      rewrite (list_lookup_total_correct _ _ _ Hi) in Hrow. rewrite Hrq in Htk.
      apply (placed_live W table' (tree m) q i row (seg b)); [|done|by apply (Htw i)|done].
      rewrite Forall_forall in Had. apply Had. by eapply list_elem_of_lookup_2. }
    assert (Hold : forall q, q ∈ qs -> table' !! row_no q = req_to_token (rows m) !! row_no q).
    { intros q Hq. apply Hto. apply Hdis. by apply list_elem_of_fmap_2. }
    assert (Hrn : row_no <$> new = idxs).
    { unfold new. clear -Hl. revert idxs Hl. induction qs0 as [|q qs0 IH]; intros [|i idxs] Hl; try done. cbn [zip_with]. rewrite fmap_cons.
      f_equal. apply IH. by injection Hl. }
    assert (Hnn : last_node <$> new = last_node <$> qs0).
    { unfold new. clear -Hl. revert idxs Hl. induction qs0 as [|q qs0 IH]; intros [|i idxs] Hl; try done. cbn [zip_with]. rewrite !fmap_cons.
      f_equal. apply IH. by injection Hl. }
    assert (Hown : new ≫= own table' = loc).
    { rewrite (bind_seq_total (own table') new), Hln. pose proof (concat_segments (el_of rs) loc) as Hcs.
      assert (Hel : length (el_of rs) = length qs0) by (unfold el_of; by rewrite !length_fmap, Hlr). rewrite Hel in Hcs. rewrite Hcs at 1.
      - apply bind_ext_seq. intros b Hb. destruct (lookup_lt_is_Some_2 new b) as [q' Hq']; [lia|].
        rewrite (list_lookup_total_correct _ _ _ Hq'). by apply Hnew.
      - pose proof (ext_total (tree m) qs0 Had) as He. fold rs in He. unfold len in Hloc. lia. }
    split; cbn [kv rows tree set_table req_to_token free_slots pool_size max_context_len]; try done.
    + rewrite bind_app, Hown, (own_ext (req_to_token (rows m)) table' qs Hold), <- D1. solve_Permutation.
    + rewrite fmap_app, Hrn, <- D2. solve_Permutation.
    + by rewrite Htl.
    + intros i row Hi. rewrite HW. by apply (Htw i).
    + eapply radix_ok_perm; [|exact D6]. rewrite fmap_app, Hnn. solve_Permutation.
    + apply Forall_app. split.
      * apply Forall_forall. intros q' (b & Hb)%list_elem_of_lookup. by apply (Hnew b).
      * rewrite Forall_forall in *. intros q Hq. apply (live_ext (req_to_token (rows m))); [by apply Hold|by apply D7].
Qed.

(** ** The batch *)

Lemma existsb_fmap {A} (f : A -> bool) l : existsb f l = existsb id (f <$> l).
Proof. induction l as [|x l IH]; [done|]. cbn. by rewrite IH. Qed.

Lemma placed_fields {A} (f : cache_req -> A) qs0 idxs :
  length idxs = length qs0 -> (forall q i, f (placed q i) = f q) -> f <$> zip_with placed qs0 idxs = f <$> qs0.
Proof.
  intros Hl Hf. revert idxs Hl. induction qs0 as [|q qs0 IH]; intros [|i idxs] Hl; try done. cbn [zip_with]. rewrite !fmap_cons, Hf. f_equal.
  apply IH. by injection Hl.
Qed.

Lemma placed_aligned qs0 idxs in_ids loc any tops full :
  length idxs = length qs0 -> any = existsb (fun q => return_logprob (info (creq q))) qs0 ->
  (any = true -> exists l, tops = Some l /\ length l = length qs0) ->
  let lens := (fun q => len (fill_ids (inp (creq q)))) <$> qs0 in
  aligned (Batch (zip_with placed qs0 idxs) idxs lens (Decode.sum lens) in_ids None loc any tops full).
Proof.
  intros Hl -> Htop lens. assert (Hlz : length (zip_with placed qs0 idxs) = length qs0) by (rewrite length_zip_with; lia).
  split; cbn [reqs req_pool_indices seq_lens seq_lens_sum next_ids any_logprob top_logprobs_nums]; try done.
  - clear -Hl. revert idxs Hl. induction qs0 as [|q qs0 IH]; intros [|i idxs] Hl; try done. cbn. constructor; [done|]. apply IH. by injection Hl.
  - clear -Hl. subst lens. revert idxs Hl. induction qs0 as [|q qs0 IH]; intros [|i idxs] Hl; try done. cbn. constructor; [done|]. apply IH. by injection Hl.
  - rewrite (existsb_fmap _ qs0), (existsb_fmap _ (zip_with placed qs0 idxs)). f_equal. symmetry. by apply placed_fields.
  - intros Hany. destruct (Htop Hany) as (l & -> & Hll). exists l. split; [done|]. congruence.
Qed.

Lemma placed_rows qs0 idxs : length idxs = length qs0 ->
  zip_with with_req (zip_with with_row qs0 idxs) (creq <$> zip_with placed qs0 idxs) = zip_with placed qs0 idxs.
Proof.
  revert idxs. induction qs0 as [|q qs0 IH]; intros [|i idxs] Hl; try done. cbn [zip_with]. rewrite fmap_cons. cbn [zip_with].
  f_equal. apply IH. by injection Hl.
Qed.

Lemma extend_ok qs0 m qs :
  decode_ok slots [] [] (last_node <$> qs0) m qs -> Forall (admitted W (tree m)) qs0 ->
  Decode.sum ((fun q => ext q) <$> qs0) <= room m -> is_not_in_free_group (kv m) = true -> max_context_len (rows m) = W ->
  (length qs0 <= length (free_slots (rows m)))%nat ->
  exists nb m' idxs, prepare_for_extend strat 1 masked oob empty top_num qs0 m = Ok (nb, m') /\ length idxs = length qs0 /\
    reqs nb = zip_with placed qs0 idxs /\ aligned nb /\ batch_is_full nb = false /\
    decode_ok slots [] [] [] m' (reqs nb ++ qs) /\ is_not_in_free_group (kv m') = true /\ dims (rows m') = dims (rows m).
Proof.
  intros Hd Had Hfit Hg HW Hfree. unfold prepare_for_extend, Ar.alloc_for_extend. cbn zeta.
  set (idxs := take (length qs0) (free_slots (rows m))). assert (Hl : length idxs = length qs0) by (unfold idxs; rewrite length_take; lia).
  rewrite alloc_rows_ok; [|eapply Forall_impl; [exact Had|]; intros q Hq; apply (ad_queued _ _ _ Hq)|done]. fold idxs. step_ok.
  rewrite (zip_with_req with_row) by done. change (1 =? 1) with true. cbn match.
  set (p := set_free_slots (rows m) (drop (length qs0) (free_slots (rows m)))).
  assert (Hd1 : decode_ok slots [] idxs (last_node <$> qs0) (Mem (kv m) p (tree m)) qs).
  { destruct Hd as [D1 D2 D3 D4 D5 D6 D7]. split; try done. cbn [rows]. unfold p. cbn [free_slots set_free_slots pool_size]. rewrite <- D2.
    rewrite <- (take_drop (length qs0) (free_slots (rows m))) at 2. fold idxs. generalize (drop (length qs0) (free_slots (rows m))) (row_no <$> qs).
    intros fr rn. rewrite app_nil_r. solve_Permutation. }
  assert (Htot : Decode.sum (len <$> ((fun q => slice_from (fill_ids (inp (creq q))) (len (prefix_indices (inp (creq q))))) <$> qs0))
    = Decode.sum ((fun q => ext q) <$> qs0)).
  { rewrite <- (ext_total (tree m)) by done. rewrite <- (extend_total W (creq <$> qs0)).
    - unfold Decode.sum. by rewrite <- !list_fmap_compose.
    - intros r (q & -> & Hq)%list_elem_of_fmap. rewrite Forall_forall in Had. apply (admitted_fits (tree m)). by apply Had. }
  rewrite Htot. assert (Hpos : 0 <= Decode.sum ((fun q => ext q) <$> qs0)) by (rewrite <- (ext_total (tree m)) by done; lia).
  destruct (slots_taken _ (Mem (kv m) p (tree m)) qs idxs (last_node <$> qs0) Hd1 Hg (conj Hpos Hfit)) as (loc & m1 & Hrun & Hloc & Hd2 & Hr1 & Hg1 & Hk).
  rewrite Hrun. do 2 step_ok. rewrite with_row_zip by done. cbn [rows] in Hr1.
  rewrite commit_rows; [|done|].
  2:{ eapply Forall_impl; [exact Had|]. intros q [_ _ A3 A4 _ _ A7 _]. rewrite A3, A4, A7. unfold len. by rewrite length_fmap. }
  step_ok. rewrite (placed_rows qs0 idxs Hl). eexists _, _, idxs. split; [reflexivity|]. split; [done|]. split; [done|]. split; [|split; [done|]].
  { apply placed_aligned; [done|done|]. intros ->. eexists. split; [done|]. rewrite !length_fmap, length_zip_with. lia. }
  cbn [reqs kv rows tree set_table max_context_len]. split; [|split; [done|by rewrite Hr1]].
  assert (Had1 : Forall (admitted W (tree m1)) qs0).
  { rewrite Forall_forall in *. intros q Hq. apply (admitted_kept W (tree m)); [|by apply Had]. apply Hk. by apply list_elem_of_fmap_2. }
  pose proof (rows_written qs0 idxs loc m1 qs Hd2 Had1 Hl ltac:(by rewrite Hr1) Hloc) as Hfin. cbn zeta in Hfin.
  unfold prefix_of_reqs, pre_of, sl_of, el_of in Hfin. rewrite <- !list_fmap_compose in Hfin. rewrite <- !list_fmap_compose. exact Hfin.
Qed.

(** ** Handing the prefix to the tree *)

(** The request afterwards: everything it committed is shared. *)
Definition shared (q : cache_req) (pre : list Z) (n : nat) : cache_req :=
  CacheReq (set_prefix_indices (set_protected_len (creq q) (kv_committed_len (kvs (creq q)))) pre) (creq_extra_key q) (creq_priority q) n.

Lemma unfinished_ok q m qs :
  decode_ok slots [] [] [] m (q :: qs) -> fill_ids (inp (creq q)) = toks_of q ->
  exists pre n m', Ar.cache_unfinished_req time 1 q m = Ok (shared q pre n, m') /\ decode_ok slots [] [] [] m' (shared q pre n :: qs) /\
    is_not_in_free_group (kv m') = is_not_in_free_group (kv m) /\ dims (rows m') = dims (rows m).
Proof.
  intros Hd Hfill. assert (Hnd := row_no_NoDup _ _ _ _ _ _ Hd). rewrite fmap_cons in Hnd. apply NoDup_cons in Hnd as [Hni _].
  destruct Hd as [D1 D2 D3 D4 D5 D6 D7]. apply Forall_cons in D7 as [Hq D7]. pose proof (length_toks _ _ _ Hq) as Hlt.
  pose proof (shield_prefix _ _ _ Hq) as [Hsh Hsc].
  destruct Hq as [Hi Hrow Hat Hal Hc Hf]. set (table := req_to_token (rows m)) in *. set (row := row_of table q) in *.
  destruct (unfinished_run 1 false ltac:(lia) time Token.free false row q (tree m) (kv m) _ ((last_node <$> qs) ++ []) D6 ltac:(done) ltac:(by rewrite Hfill))
    as (P' & t' & n & nd & idx & k & Hrun & Hi' & Hn & Hsp & He & Hidx & Hpm & Hle & Htp & Hsl & Hkept).
  cbv zeta in Hrun. rewrite Hfill in *. set (K := req_key 1 false (creq_extra_key q) (toks_of q)) in *.
  assert (HK : key_len K = commit q) by (rewrite <- Hlt; done). rewrite HK in *. set (row' := idx ++ drop (commit q) row) in *.
  pose proof (at_row _ _ _ _ _ _ Hat) as Hrl. rewrite Hlt in Hrl. fold row in Hrl.
  assert (Hlr : length row' = length row) by (unfold row'; rewrite length_app, length_drop; lia).
  unfold Ar.cache_unfinished_req. change (pool_idx (creq q)) with (row_no q). fold table. rewrite Hrow. cbn [of_option]. step_ok.
  change (kv_free 1) with Token.free. change (Z.to_nat 1) with 1%nat. rewrite Hrun. step_ok.
  assert (Hli : len idx = kv_committed_len (kvs (creq q))) by (unfold len; rewrite Hidx; unfold commit; lia). rewrite Hli.
  do 3 eexists. split; [reflexivity|]. cbn [kv rows tree set_table max_context_len]. split; [|split; [apply Token.free_group_flag|done]].
  set (q' := shared q _ n). set (table' := <[row_no q := row']> table).
  assert (Hrow' : table' !! row_no q = Some row') by (apply list_lookup_insert_eq; by eapply lookup_lt_Some).
  assert (Hro : row_of table' q' = row') by (by apply list_lookup_total_correct).
  assert (Hother : forall x, x ∈ qs -> table' !! row_no x = table !! row_no x).
  { intros x Hx. apply list_lookup_insert_ne. intros Heq. apply Hni. rewrite Heq. by apply list_elem_of_fmap_2. }
  destruct (radix_ok_of 1 false ltac:(lia) P' _ t' Hi') as [Hok' Hpre].
  assert (Hpn : prefix_at t' n = zip (key_iter K) idx) by (unfold prefix_at; by rewrite (Hpre n nd Hn)).
  assert (Hlk : length (key_iter K) = commit q) by (by rewrite length_key_iter).
  split; cbn [kv rows tree set_table req_to_token free_slots pool_size max_context_len]; try done.
  - assert (Hown' : own table' q' = []).
    { unfold own. rewrite Hro. apply drop_ge. rewrite length_take. unfold shield, commit. cbn. lia. }
    assert (Hown : own table q = drop (shield q) (take k row) ++ drop k (take (commit q) row)).
    { unfold own. fold row. rewrite <- (take_drop k (take (commit q) row)) at 1. rewrite take_take, Nat.min_l by lia. apply drop_app_le.
      rewrite length_take. unfold shield. lia. }
    rewrite bind_cons, Hown', (own_ext table table' qs Hother), Token.free_pool, Hsl, <- D1, bind_cons, Hown. fold (shield q). solve_Permutation.
  - unfold table'. by rewrite length_insert.
  - intros i r Hr. destruct (decide (i = row_no q)) as [->|Hne].
    + rewrite Hrow' in Hr. injection Hr as <-. rewrite Hlr. by apply (D4 (row_no q)).
    + unfold table' in Hr. rewrite list_lookup_insert_ne in Hr by done. by apply (D4 i).
  - by apply Token.free_wf.
  - constructor.
    + split; try done.
      * by rewrite Hro.
      * split; cbn [q' shared last_node creq creq_extra_key]; rewrite ?Hpn.
        -- by exists nd.
        -- change (kv_committed_len (kvs (creq q)) = len (zip (key_iter K) idx)). unfold len. rewrite length_zip_with, Hlk, Hidx. unfold commit in *. lia.
        -- rewrite fst_zip by lia. done.
        -- rewrite snd_zip by lia. rewrite Hro. by apply prefix_app_r.
        -- change (toks_of q') with (toks_of q). rewrite Hro, Hlt, Hlr. lia.
    + rewrite Forall_forall in *. intros x Hx. apply (live_ext table); [by apply Hother|]. apply (live_kept _ (tree m)); [|by apply D7].
      apply Hkept, elem_of_app. left. by apply list_elem_of_fmap_2.
Qed.

(** ** The result of a prefill *)

(** A request of the batch during its forward. *)
Record prefilling (q : cache_req) : Prop := {
  pf_forward : forwarding W q;
  pf_going : going q = true;
  pf_fill : fill_ids (inp (creq q)) = toks_of q;
  pf_prompt : 1 <= len (origin_input_ids (info (creq q)));
}.

Lemma placed_prefilling t q i : admitted W t q -> prefilling (placed q i).
Proof.
  intros [[_ _ Q4 Q5 Q6 Q7] _ A3 _ _ _ _ _].
  assert (Hl : kv_committed_len (kvs (creq (placed q i))) = len (all_ids q)) by (cbn; by rewrite A3).
  split; [split|done| |done].
  - rewrite Hl. unfold all_ids, seqlen. by rewrite len_app.
  - done.
  - done.
  - unfold toks_of. rewrite Hl, slice_to_take by apply len_nonneg. unfold len. rewrite Nat2Z.id, take_ge by done. exact A3.
Qed.

Notation prefill_one := (prefill_one time dfi 1 str_finish grammar_terminated).
Notation prefill_all := (prefill_all time dfi 1 str_finish grammar_terminated).

Lemma prefill_one_spec d q qs m :
  decode_ok slots [] [] [] m (q :: qs) -> max_context_len (rows m) = W -> prefilling q ->
  exists q' m', prefill_one d q m = Ok (q', m') /\ moved m m' /\ stepped d q q' /\
    decode_ok slots [] [] [] m' ((if going q' then [q'] else []) ++ qs) /\ (going q' = true -> growing W q').
Proof.
  intros Hd HW [Hfw Hgo Hfill _]. unfold Ar.prefill_one. cbn zeta. assert (Hnf : q_finished q = false) by (unfold going in Hgo; by destruct (q_finished q)).
  rewrite Hnf. destruct (token_step str_finish grammar_terminated d q _ Hfw Hgo) as (Hsh & Hi & Hl & Ht & Hg).
  pose proof (finish_step time dfi str_finish grammar_terminated slots [] [] [] d q qs m _ Hd Hfw Hgo) as Hfin.
  destruct (check_finished_frame str_finish grammar_terminated 1 (append_token (dr_token d) (creq q))) as (_ & _ & Hinp & _).
  set (q1 := with_req q _) in *. change (inp (creq q1) = inp (creq q)) in Hinp. destruct (q_finished q1) eqn:Hf.
  - destruct (Hfin Hf) as (q2 & m' & Hrun & Hm & Hd' & Hst & Hgo'). rewrite Hrun. step_ok. eexists _, m'. split; [reflexivity|].
    by rewrite Hgo'.
  - destruct (Hg eq_refl) as [Hgw Hout].
    destruct (unfinished_ok q1 m qs (ok_same_hold _ _ _ _ m q q1 qs Hsh Hd)) as (pre & n & m' & Hrun & Hd' & Hgr & Hwd).
    { by rewrite Hinp, (sh_toks _ _ Hsh). }
    rewrite Hrun. step_ok. set (q2 := shared q1 pre n) in *. eexists _, m'. split; [reflexivity|].
    assert (Hgo' : going (with_req q2 (append_logprobs d (creq q2))) = true) by (rewrite logprobs_going; unfold going; change (q_finished q2) with (q_finished q1); by rewrite Hf).
    rewrite Hgo'. split; [by split|]. destruct (logprobs_frame d (creq q2)) as (Lk & Li & Lo & _).
    split; [|split; [apply (ok_same_hold _ _ _ _ m' q2); [apply logprobs_hold|done]|intros _; apply logprobs_growing; by destruct Hgw]].
    split; cbn [with_req creq]; rewrite ?Li, ?Lo, ?Lk; try done; [|by rewrite Hgo']. intros _.
    split; [|split; [by change (kv_committed_len (kvs (creq q1)) = kv_committed_len (kvs (creq q))); rewrite (sh_kvs _ _ Hsh)|done]].
    unfold row_no, pool_idx. cbn [with_req creq]. rewrite Lk. change (req_pool_idx (kvs (creq q2))) with (req_pool_idx (kvs (creq q1))).
    by rewrite (sh_kvs _ _ Hsh).
Qed.

Lemma prefill_all_spec : forall qs ds m dn,
  decode_ok slots [] [] [] m (qs ++ dn) -> max_context_len (rows m) = W -> Forall prefilling qs -> length ds = length qs ->
  exists qs' m', prefill_all ds qs m = Ok (qs', m') /\ moved m m' /\
    Forall2 (fun dq q' => stepped (fst dq) (snd dq) q') (zip ds qs) qs' /\
    decode_ok slots [] [] [] m' (filter (fun q => going q = true) qs' ++ dn) /\ Forall (growing W) (filter (fun q => going q = true) qs').
Proof.
  induction qs as [|q qs IH]; intros ds m dn Hd HW Hpf Hl.
  { exists [], m. split; [by destruct ds|]. split; [by split|]. destruct ds; [|done]. by split. }
  destruct ds as [|d ds]; [done|]. apply Forall_cons in Hpf as [Hpq Hpf]. cbn [Ar.prefill_all].
  destruct (prefill_one_spec d q (qs ++ dn) m Hd HW Hpq) as (q' & m1 & Hrun & Hm1 & Hst & Hd1 & Hg1).
  rewrite Hrun. step_ok.
  destruct (IH ds m1 ((if going q' then [q'] else []) ++ dn)) as (qs' & m2 & Hrun2 & Hm2 & Hst2 & Hd2 & Hg2); try done.
  - assert (Hp : qs ++ (if going q' then [q'] else []) ++ dn ≡ₚ (if going q' then [q'] else []) ++ qs ++ dn) by solve_Permutation.
    by rewrite Hp.
  - by rewrite (mv_width _ _ Hm1).
  - cbn in Hl. lia.
  - rewrite Hrun2. step_ok. exists (q' :: qs'), m2. split; [done|].
    split; [destruct Hm1, Hm2; split; congruence|]. split; [by constructor|]. rewrite filter_cons. destruct (going q') eqn:Hgq'.
    + rewrite decide_True by done. split; [|constructor; [by apply Hg1|done]]. cbn [app] in *.
      assert (Hp : q' :: filter (fun q => going q = true) qs' ++ dn ≡ₚ filter (fun q => going q = true) qs' ++ q' :: dn) by solve_Permutation.
      by rewrite Hp.
    + by rewrite decide_False.
Qed.
End prefill.
