(* ===== verification/ArServerProofs.v ===== *)
(** * The autoregressive server never fails

    The state between two turns of Ar.turn, and that turns keep it: with
    preemption off no turn raises, no request is lost, and the server's own
    memory checks never report a leak. *)

From S2P Require Import Prelude Allocator DllmReq MemCommon RadixKey RadixCache RadixCacheProofs RadixCacheTheorems RadixCacheRequests RadixLocks StableSort DecodeBatch DecodeMemory DecodeRetract DecodeTurn Preempt ArServer ArAdmission ArPrefill.
From Stdlib Require Import QArith Lqa.
Import Radix Decode Ar.
#[local] Open Scope Z_scope.

(** ** Batches between turns *)

Definition batch_ok (b : batch) : Prop := reqs b = [] \/ aligned b /\ is_Some (next_ids b).

Lemma batch_ok_full b f : batch_ok b -> batch_ok (set_full b f).
Proof. intros [He|[[A1 A2 A3 A4 A5 A6] Hn]]; [by left|]. right. by split. Qed.

Lemma filter_next b b' : filter_batch [] None b = Ok b' -> is_Some (next_ids b) -> is_Some (next_ids b').
Proof.
  unfold filter_batch. case_bool_decide; [by intros [= <-]|]. destruct (_ =? _)%nat; [by intros [= <-]|]. cbn [default].
  intros Hrun [l Hl]. rewrite Hl in Hrun. revert Hrun. generalize (kept_indices [] b). intros ks.
  destruct (pick (reqs b) ks); [|done]. step_ok. destruct (pick (req_pool_indices b) ks); [|done]. step_ok.
  destruct (pick (seq_lens b) ks); [|done]. step_ok. destruct (pick l ks); [|done]. do 2 step_ok.
  destruct (existsb _ _); [destruct (top_logprobs_nums b); [|done]; cbn [of_option]; step_ok; destruct (pick _ ks); [|done]; step_ok|step_ok];
    (intros [= <-]; by eexists).
Qed.

Lemma merge_next b o b' : merge_batch b o = Ok b' -> is_Some (next_ids b) -> is_Some (next_ids o) -> is_Some (next_ids b').
Proof.
  intros Hrun [l Hl] [l' Hl']. unfold merge_batch in Hrun. rewrite Hl, Hl' in Hrun. cbn [of_option] in Hrun. revert Hrun. do 2 step_ok.
  destruct (match any_logprob b, any_logprob o with true, true => _ | true, false => _ | false, true => _ | false, false => _ end); [|done].
  step_ok. intros [= <-]. by eexists.
Qed.

Definition last_reqs (l : option batch) : list cache_req := match l with Some l => reqs l | None => [] end.

(** The running batch takes the unfinished requests of the last prefill. *)
Lemma merge_run b last :
  batch_ok b -> (forall l, last = Some l -> batch_ok l) ->
  exists b' apart, merge_last b last = Ok (b', apart) /\ batch_ok b' /\ reqs b' = reqs b ++ goings (last_reqs last) /\
    ((reqs b ++ last_reqs last = [] -> batch_is_full b = false) -> reqs b' = [] -> batch_is_full b' = false).
Proof.
  intros Hb Hl. destruct last as [l|]; cbn [last_reqs].
  2:{ exists b, false. do 2 (split; [done|]). change (goings []) with (@nil cache_req). rewrite !app_nil_r. split; [done|]. intros Hfl. exact Hfl. }
  unfold merge_last. assert (Hf : exists l', filter_batch [] None l = Ok l' /\ reqs l' = goings (reqs l) /\ batch_ok l').
  { destruct (Hl l eq_refl) as [He|[Hal Hn]].
    - exists (set_reqs l []). unfold filter_batch, kept_indices. rewrite He. cbn. split; [done|]. split; [done|by left].
    - destruct (filter_unfinished _ Hal) as (l' & Hrun & Hr & Ha & _). exists l'. split; [done|]. split; [done|].
      pose proof (filter_next _ _ Hrun Hn). destruct Ha as [?|?]; [by left|by right]. }
  destruct Hf as (l' & Hrun & Hr & Hok). rewrite Hrun. step_ok. set (b1 := if (_ <? _)%nat then _ else b).
  assert (Hb1 : reqs b1 = reqs b /\ batch_ok b1) by (subst b1; destruct (_ <? _)%nat; [split; [done|]; by apply batch_ok_full|done]).
  destruct Hb1 as [Hr1 Hb1]. rewrite <- Hr1, <- Hr. case_bool_decide as He.
  { exists b1, false. split; [done|]. split; [done|]. split; [by rewrite He, app_nil_r|]. rewrite Hr1. intros Hfl Hnil. subst b1. rewrite He.
    destruct (Nat.ltb_spec (length (@nil cache_req)) (length (reqs l))) as [_|Hge]; [done|]. apply Hfl. rewrite Hnil. destruct (reqs l); [done|cbn in Hge; lia]. }
  case_bool_decide as Heb; [exists l', false; by rewrite Heb|].
  destruct Hok as [?|[Hal Hn]]; [done|]. destruct Hb1 as [?|[Hab Hnb]]; [done|].
  destruct (merge_aligned b1 l' Hab Hal) as (b' & Hm & Hrm & Ham); [done|]. rewrite Hm. step_ok. exists b', true.
  split; [done|]. split; [|split; [done|]]; [right; split; [done|]; by apply (merge_next b1 l')|].
  intros _ Hnil. rewrite Hrm in Hnil. by apply app_nil in Hnil as [? _].
Qed.

(** ** The queue *)

(** The same requests in another order, looked up again. *)
Definition rematched (l l' : list cache_req) : Prop := exists p, Forall2 same_req l p /\ l' ≡ₚ p.

Lemma same_forall l : Forall2 same_req l l.
Proof. induction l; by constructor. Qed.

#[global] Instance rematched_refl : Reflexive rematched.
Proof. intros l. exists l. split; [apply same_forall|done]. Qed.

#[global] Instance rematched_trans : Transitive rematched.
Proof.
  intros l1 l2 l3 (p & Hf & Hp) (p' & Hf' & Hp'). destruct (Permutation_Forall2 Hp Hf') as (p2 & Hp2 & Hf2).
  exists p2. split; [|by rewrite Hp']. clear -Hf Hf2. revert p2 Hf2.
  induction Hf as [|q r l p Hq Hf IH]; intros p2 Hf2; [by apply Forall2_nil_inv_l in Hf2 as ->|].
  apply Forall2_cons_inv_l in Hf2 as (r2 & p3 & Hr & Hf2 & ->). constructor; [by transitivity r|by apply IH].
Qed.

Lemma rematched_rids l l' : rematched l l' -> q_rid <$> l' ≡ₚ q_rid <$> l.
Proof.
  intros (p & Hf & ->). apply reflexive_eq. induction Hf as [|q r l p Hq Hf IH]; [done|]. rewrite !fmap_cons, IH. f_equal.
  unfold q_rid. by rewrite (sr_info _ _ Hq).
Qed.

Lemma rematched_queued W l l' : rematched l l' -> Forall (queued_ok W) l -> Forall (queued_ok W) l'.
Proof.
  intros (p & Hf & ->) Hq. induction Hf as [|q r l p Hs Hf IH]; [done|]. apply Forall_cons in Hq as [Hq0 Hq].
  constructor; [by apply (same_queued W q)|by apply IH].
Qed.

Lemma rematched_prio (P : option Z -> Prop) l l' :
  rematched l l' -> Forall (fun q => P (creq_priority q)) l -> Forall (fun q => P (creq_priority q)) l'.
Proof.
  intros (p & Hf & ->) Hq. induction Hf as [|q r l p Hs Hf IH]; [done|]. apply Forall_cons in Hq as [Hq0 Hq].
  constructor; [by rewrite (sr_prio _ _ Hs)|by apply IH].
Qed.

Lemma rematched_elem l l' q : rematched l l' -> q ∈ l -> exists q', q' ∈ l' /\ same_req q q'.
Proof.
  intros (p & Hf & Hp) Hq. apply list_elem_of_lookup in Hq as [i Hi]. destruct (Forall2_lookup_l _ _ _ _ _ Hf Hi) as (q' & Hi' & Hs).
  exists q'. split; [|done]. rewrite Hp. by eapply list_elem_of_lookup_2.
Qed.

(** ** Work

    The tokens a request may still get. *)
Definition remaining (q : cache_req) : Z := max_new_tokens (sampling (info (creq q))) - len (output_ids (out (creq q))).
Definition work (l : list cache_req) : Z := Decode.sum (remaining <$> l).

Lemma work_app l k : work (l ++ k) = work l + work k.
Proof. unfold work. by rewrite fmap_app, sum_zapp. Qed.

#[global] Instance work_perm : Proper ((≡ₚ) ==> eq) work.
Proof. intros l k Hp. unfold work, Decode.sum. induction Hp; cbn in *; lia. Qed.

Lemma rematched_work l l' : rematched l l' -> work l' = work l.
Proof.
  intros (p & Hf & ->). unfold work, Decode.sum. induction Hf as [|q r l p Hs Hf IH]; [done|]. cbn in *. rewrite IH.
  unfold remaining. by rewrite (sr_info _ _ Hs), (sr_out _ _ Hs).
Qed.

Lemma work_pos l : Forall (fun q => 0 <= remaining q) l -> 0 <= work l.
Proof. unfold work, Decode.sum. induction 1 as [|q l Hq Hl IH]; cbn in *; lia. Qed.

(** A property of what a request asks for. *)
Definition all_info (P : req_info -> Prop) (l : list cache_req) : Prop := Forall (fun q => P (info (creq q))) l.

Lemma rematched_info P l l' : rematched l l' -> all_info P l -> all_info P l'.
Proof.
  intros (p & Hf & Hp) Hq. unfold all_info in *. rewrite Hp. clear l' Hp. induction Hf as [|q r l p Hs Hf IH]; [done|]. apply Forall_cons in Hq as [Hq0 Hq].
  constructor; [by rewrite (sr_info _ _ Hs)|by apply IH].
Qed.

(** Dropping the requests that were admitted from the front. *)
Lemma filter_admitted k l : NoDup (q_rid <$> l) -> filter (fun q => q_rid q ∉ q_rid <$> take k l) l = drop k l.
Proof.
  intros Hnd. rewrite <- (take_drop k l) in Hnd at 1. rewrite fmap_app in Hnd. apply NoDup_app in Hnd as (_ & Hdis & _).
  transitivity (filter (fun q => q_rid q ∉ q_rid <$> take k l) (take k l ++ drop k l)); [by rewrite take_drop|]. rewrite filter_app.
  assert (H1 : forall l0 : list cache_req, (forall q, q ∈ l0 -> q_rid q ∈ q_rid <$> take k l) -> filter (fun q => q_rid q ∉ q_rid <$> take k l) l0 = []).
  { induction l0 as [|q l0 IH]; intros Hin; [done|]. rewrite filter_cons_False; [apply IH; intros q' Hq'; apply Hin; by right|].
    intros Hn. apply Hn, Hin. by left. }
  assert (H2 : forall l0 : list cache_req, (forall q, q ∈ l0 -> q_rid q ∉ q_rid <$> take k l) -> filter (fun q => q_rid q ∉ q_rid <$> take k l) l0 = l0).
  { induction l0 as [|q l0 IH]; intros Hin; [done|]. rewrite filter_cons_True by (apply Hin; by left). f_equal. apply IH. intros q' Hq'. apply Hin. by right. }
  rewrite H1, H2; [done| |].
  - intros q Hq Hin. apply (Hdis _ Hin). by apply list_elem_of_fmap_2.
  - intros q Hq. by apply list_elem_of_fmap_2.
Qed.

Lemma evictable_nonneg L t : radix_ok 1 false L t -> 0 <= evictable_size_ t.
Proof.
  intros [Hok _]. rewrite (ok_evictable _ _ _ _ _ Hok). generalize (nodes t). intros m.
  induction m as [|n nd m Hn IH] using map_ind; [done|]. rewrite msum_insert by done. destruct (lock_ref nd =? 0); lia.
Qed.

(** What the policy that orders the queue owes the scheduler. *)
Class QueuePolicy (W : nat) (prio_ok : option Z -> Prop) (calc_priority : list cache_req -> batch -> radix -> res (list cache_req * radix)) : Prop :=
  policy_run queue b L t : radix_ok 1 false L t -> Forall (queued_ok W) queue -> Forall (fun q => prio_ok (creq_priority q)) queue ->
    exists queue' t', calc_priority queue b t = Ok (queue', t') /\ rematched queue queue' /\ tree_moved L t t'.

(** ** The state between turns *)

Definition nothing_held (q : cache_req) : Prop :=
  req_pool_idx (kvs (creq q)) = None /\ kv_committed_freed (kvs (creq q)) = true /\ kv_overallocated_freed (kvs (creq q)) = true.

(** Memory, the waiting queue, and the requests of all batches. *)
Record serving (slots : list Z) (W : nat) (max_reqs : Z) (prio_ok : option Z -> Prop) (m : mem radix) (wait run : list cache_req) (ratio : Q) : Prop := {
  sv_ok : decode_ok slots [] [] [] m (goings run);
  sv_group : is_not_in_free_group (kv m) = true;
  sv_width : max_context_len (rows m) = W;
  sv_size : max_reqs <= Z.of_nat (pool_size (rows m));
  sv_grow : Forall (growing W) (goings run);
  sv_prompt : Forall (fun q => 1 <= len (origin_input_ids (info (creq q)))) (goings run);
  sv_done : Forall (fun q => going q = false -> nothing_held q) run;
  sv_out : Forall (fun q => len (output_ids (out (creq q))) <= max_new_tokens (sampling (info (creq q)))) run;
  sv_queue : Forall (queued_ok W) wait;
  sv_rids : NoDup (q_rid <$> wait ++ goings run);
  sv_reqs : len run <= max_reqs;
  sv_ratio : (0 <= ratio)%Q;
  sv_prio : Forall (fun q => prio_ok (creq_priority q)) (wait ++ goings run);
}.

Lemma goings_app l k : goings (l ++ k) = goings l ++ goings k.
Proof. apply filter_app. Qed.

Lemma goings_idem l : goings (goings l) = goings l.
Proof. unfold goings. induction l as [|q l IH]; [done|]. rewrite filter_cons. case_decide; [|done]. by rewrite filter_cons_True, IH. Qed.

Lemma goings_all l : Forall (fun q => going q = true) l -> goings l = l.
Proof. unfold goings. induction 1 as [|q l Hq Hl IH]; [done|]. by rewrite filter_cons_True, IH. Qed.

Lemma elem_goings q l : q ∈ goings l -> q ∈ l /\ going q = true.
Proof. unfold goings. by intros [? ?]%list_elem_of_filter. Qed.

(** Another look at the tree and the queue. *)
Lemma serving_moved slots W n prio_ok m m' wait wait' run ratio :
  serving slots W n prio_ok m wait run ratio -> rematched wait wait' -> decode_ok slots [] [] [] m' (goings run) ->
  kv m' = kv m -> rows m' = rows m -> serving slots W n prio_ok m' wait' run ratio.
Proof.
  intros [S1 S2 S3 S4 S5 S6 S7 S8 S9 S10 S11 S12 S13] Hr Hd Hk Hw. split; rewrite ?Hk, ?Hw; try done.
  - by apply (rematched_queued W wait).
  - rewrite fmap_app in *. by rewrite (rematched_rids _ _ Hr).
  - apply Forall_app in S13 as [S13 S13']. apply Forall_app. split; [|done]. by apply (rematched_prio _ wait).
Qed.

Section server.
Context `{!HeapQ} (time : nat -> Z) (strat : strategy) (dfi : bool) (masked : lanes) (oob : Z -> Z) (empty : Z -> list Z).
Context (str_finish : req -> option finish_reason) (grammar_terminated : req -> bool) (steps : Z) (decay min_ratio init_ratio : Q).
Context (CLIP max_prefill max_reqs : Z) (prefill_max : option Z) (low_first : bool) (threshold : Z).
Context (entry : cache_req -> Z) (set_order : list cache_req -> list cache_req).
Context (calc_priority : list cache_req -> batch -> radix -> res (list cache_req * radix)) (top_num : req -> Z).
Context (slots : list Z) (W : nat) (prio_ok : option Z -> Prop) `{Hpolicy : !QueuePolicy W prio_ok calc_priority}.
Hypothesis clip_pos : 0 <= CLIP.
Hypothesis steps_pos : 0 <= steps.
Hypothesis min_pos : (0 <= min_ratio)%Q.
Hypothesis init_pos : (0 <= init_ratio)%Q.

Notation serving := (serving slots W max_reqs prio_ok).
Notation get_new_batch_prefill :=
  (get_new_batch_prefill time strat dfi 1 masked oob empty steps CLIP max_prefill max_reqs prefill_max false low_first threshold
     entry set_order calc_priority top_num).

Lemma offset_pos ratio l :
  (0 <= ratio)%Q -> Forall (fun q => len (output_ids (out (creq q))) <= max_new_tokens (sampling (info (creq q)))) l ->
  (0 <= total_offset CLIP ratio l)%Q.
Proof.
  intros Hr. induction 1 as [|q l Hq Hl IH]; [done|]. unfold total_offset in *. cbn [foldr]. unfold running_offset at 1. cbn zeta.
  assert (Hm : (0 <= inject_Z (Z.min (max_new_tokens (sampling (info (creq q))) - len (output_ids (out (creq q)))) CLIP))%Q).
  { change 0%Q with (inject_Z 0). rewrite <- Zle_Qle. lia. }
  pose proof (Qmult_le_0_compat _ _ Hm Hr). lra.
Qed.

(** A prefill batch was formed from [qs], which left the queue. *)
Record formed (s s1 : ar_sched) (nb : batch) (qs : list cache_req) (idxs : list nat) : Prop := {
  fm_queue : rematched (waiting s) (qs ++ waiting s1);
  fm_idxs : length idxs = length qs;
  fm_reqs : reqs nb = zip_with placed qs idxs;
  fm_aligned : aligned nb;
  fm_prefilling : Forall (prefilling W) (reqs nb);
  fm_ok : decode_ok slots [] [] [] (armem s1) (reqs nb ++ goings (reqs (running s)));
  fm_group : is_not_in_free_group (kv (armem s1)) = true;
  fm_dims : dims (rows (armem s1)) = dims (rows (armem s));
  fm_fit : len (reqs nb) + len (reqs (running s)) <= max_reqs;
  fm_some : qs <> [];
}.

Lemma placed_Forall t qs idxs : Forall (admitted W t) qs -> Forall (prefilling W) (zip_with placed qs idxs).
Proof.
  intros Hf. revert idxs. induction Hf as [|q qs Hq Hf IH]; intros [|i idxs]; cbn [zip_with]; try constructor; [by apply (placed_prefilling W t)|done].
Qed.

Lemma new_batch_run s :
  serving (armem s) (waiting s) (reqs (running s)) (new_token_ratio s) ->
  exists nb s1 full, get_new_batch_prefill s = Ok (nb, s1) /\ running s1 = set_full (running s) full /\ new_token_ratio s1 = new_token_ratio s /\
    match nb with
    | None => serving (armem s1) (waiting s1) (reqs (running s)) (new_token_ratio s) /\ rematched (waiting s) (waiting s1)
    | Some nb => exists qs idxs, formed s s1 nb qs idxs
    end.
Proof.
  intros Hs. unfold Ar.get_new_batch_prefill. cbn zeta.
  assert (Hnone : forall f, exists nb s1 full,
    Ok (None, ArSched (set_full (running s) f) (waiting s) (new_token_ratio s) (armem s)) = Ok (nb, s1) /\ running s1 = set_full (running s) full /\
    new_token_ratio s1 = new_token_ratio s /\
    match nb with
    | None => serving (armem s1) (waiting s1) (reqs (running s)) (new_token_ratio s) /\ rematched (waiting s) (waiting s1)
    | Some nb => exists qs idxs, formed s s1 nb qs idxs
    end) by (intros f; do 3 eexists; done).
  destruct (batch_is_full (running s) || bool_decide (waiting s = [])).
  { assert (Hid : running s = set_full (running s) (batch_is_full (running s))) by (by destruct (running s)).
    specialize (Hnone (batch_is_full (running s))). rewrite <- Hid in Hnone. exact Hnone. }
  destruct ((get_num_allocatable_reqs max_reqs (length (reqs (running s))) <=? 0) && negb false); [apply Hnone|]. clear Hnone.
  pose proof Hs as [S1 S2 S3 S4 S5 S6 S7 S8 S9 S10 S11 S12 S13]. pose proof (proj1 (proj1 (Forall_app _ _ _) S13)) as S13w. set (gs := goings (reqs (running s))) in *.
  destruct (policy_run (waiting s) (running s) _ (tree (armem s)) (d_tree _ _ _ _ _ _ S1) S9 S13w) as (queue & t & Hpol & Hre & Hmv).
  rewrite Hpol. step_ok. set (a0 := adder_init CLIP max_prefill (new_token_ratio s) (running s)). set (m0 := Mem (kv (armem s)) (rows (armem s)) t).
  assert (Ha : admitting W slots gs a0 m0).
  { assert (Hd : decode_ok slots [] [] [] m0 gs) by (by apply (tree_step slots [])). split; try done.
    - cbn. apply offset_pos; done.
    - cbn. unfold room. pose proof (evictable_nonneg _ _ (d_tree _ _ _ _ _ _ Hd)). pose proof (len_nonneg (Token.pool (kv m0))). lia. }
  destruct (admit_spec time W CLIP max_reqs prefill_max clip_pos slots strat dfi steps low_first threshold entry set_order (new_token_ratio s)
    gs queue a0 (running s) m0 Ha) as (queue' & a & full & m & k & Hrun & Hsame & [A1 A2 _ A4 A5] & Hkv & Hrows & Hcan & Hlen); [|done|exact S11|].
  { by apply (rematched_queued W (waiting s)). }
  rewrite Hrun. step_ok. change (can_run_list a0) with (@nil cache_req) in Hcan. cbn [app] in Hcan.
  assert (Hre' : rematched (waiting s) queue') by (transitivity queue; [done|by exists queue']). case_bool_decide as He.
  { eexists _, _, full. split; [reflexivity|]. split; [done|]. split; [done|]. split; [|done].
    apply (serving_moved _ _ _ _ (armem s) m (waiting s)); try done. by rewrite He in A1. }
  assert (Hnd : NoDup (q_rid <$> queue')).
  { rewrite (rematched_rids _ _ Hre'). rewrite fmap_app in S10. by apply NoDup_app in S10 as [? _]. }
  rewrite Hcan, filter_admitted, A5, app_nil_r by done. rewrite Hcan in *.
  assert (Hfree : (length (take k queue') <= length (free_slots (rows m)))%nat).
  { pose proof (d_rows _ _ _ _ _ _ A1) as Hr. apply Permutation_length in Hr. rewrite !length_app, length_fmap, length_seq in Hr. cbn [length] in Hr.
    rewrite Hrows in Hr. cbn [m0 rows] in Hr. unfold gs, goings in Hr. pose proof (length_filter (fun q => going q = true) (reqs (running s))).
    rewrite Hrows. cbn [m0 rows]. unfold len in Hlen. lia. }
  destruct (extend_ok strat masked oob empty top_num slots W (take k queue') m gs A1 A2 A4 ltac:(by rewrite Hkv) ltac:(by rewrite Hrows) Hfree)
    as (nb & m' & idxs & Hext & Hli & Hrq & Hal & _ & Hd & Hg & Hdim).
  rewrite Hext. step_ok. eexists _, _, full. split; [reflexivity|]. split; [done|]. split; [done|]. exists (take k queue'), idxs.
  split; cbn [armem waiting]; try done.
  - by rewrite take_drop.
  - rewrite Hrq. by apply (placed_Forall (tree m)).
  - by rewrite Hdim, Hrows.
  - rewrite Hrq. unfold len in *. rewrite length_zip_with. lia.
Qed.

(** With nothing running, and the flag down, a request that waits is served. *)
Lemma new_batch_forms s nb s1 :
  serving (armem s) (waiting s) (reqs (running s)) (new_token_ratio s) -> reqs (running s) = [] -> batch_is_full (running s) = false ->
  waiting s <> [] -> 1 <= max_reqs -> takes_one prefill_max -> all_info (fits_pool slots) (waiting s) ->
  get_new_batch_prefill s = Ok (nb, s1) -> nb <> None.
Proof.
  intros Hs Hnil Hfl Hne Hmax H1 Hfit. unfold Ar.get_new_batch_prefill. cbn zeta. rewrite Hfl, (bool_decide_false _ Hne), Hnil. cbn [orb].
  assert (Hal : (get_num_allocatable_reqs max_reqs (length (@nil cache_req)) <=? 0) = false) by (apply Z.leb_gt; unfold get_num_allocatable_reqs; cbn; lia).
  rewrite Hal. cbn [andb]. destruct Hs as [S1 S2 _ _ _ _ _ _ S9 _ _ _ S13]. rewrite Hnil in S1. pose proof (proj1 (proj1 (Forall_app _ _ _) S13)) as S13w.
  destruct (policy_run (waiting s) (running s) _ (tree (armem s)) (d_tree _ _ _ _ _ _ S1) S9 S13w) as (queue & t & Hpol & Hre & Hmv).
  rewrite Hpol. step_ok. set (a0 := adder_init CLIP max_prefill (new_token_ratio s) (running s)). set (m0 := Mem (kv (armem s)) (rows (armem s)) t).
  assert (Hz : rem_total_token_offset a0 = 0%Q) by (cbn; by rewrite Hnil).
  assert (Ha : admitting W slots [] a0 m0).
  { assert (Hd : decode_ok slots [] [] [] m0 []) by (by apply (tree_step slots [])). split; try done.
    - by rewrite Hz.
    - cbn. unfold room. pose proof (evictable_nonneg _ _ (d_tree _ _ _ _ _ _ Hd)). pose proof (len_nonneg (Token.pool (kv m0))). lia. }
  pose proof (rematched_queued W _ _ Hre S9) as Hq. pose proof (rematched_info _ _ _ Hre Hfit) as Hf.
  destruct queue as [|q queue]; [destruct Hre as (p & Hf2 & Hp%Permutation_nil_l); subst p; by apply Forall2_nil_inv_r in Hf2|].
  destruct (admit_waiting _ _ _ _ _ _ _ _ _ _ _ _ _ _ (q :: queue) a0 (running s) m0) as [[[[queue' a] b] m]|] eqn:Hrun; [|done]. step_ok.
  assert (Hcan : can_run_list a <> []).
  { apply Forall_cons in Hf as [Hf0 _].
    apply (admit_first time W CLIP max_reqs prefill_max clip_pos slots strat dfi steps low_first threshold entry set_order (new_token_ratio s)
      q queue a0 (running s) m0 queue' a b m H1 Hmax Hnil Hfl Ha Hq S2 Hf0 eq_refl ltac:(by rewrite Hz) Hrun). }
  rewrite (bool_decide_false _ Hcan). destruct (prepare_for_extend _ _ _ _ _ _ _ _) as [[nb' m']|]; [|done]. step_ok. by intros [= <- _].
Qed.

Lemma new_batch_none s nb s1 : waiting s = [] -> get_new_batch_prefill s = Ok (nb, s1) -> nb = None /\ running s1 = running s.
Proof. intros Hw. unfold Ar.get_new_batch_prefill. cbn zeta. rewrite Hw, (bool_decide_true _ eq_refl), orb_true_r. by intros [= <- <-]. Qed.

(** ** What a forward leaves *)

Lemma stepped_list ds qs qs' :
  length ds = length qs -> Forall2 (fun dq q' => stepped (fst dq) (snd dq) q') (zip ds qs) qs' ->
  Forall (fun q => len (output_ids (out (creq q))) < max_new_tokens (sampling (info (creq q)))) qs ->
  Forall (fun q => 1 <= len (origin_input_ids (info (creq q)))) qs ->
  q_rid <$> qs' = q_rid <$> qs /\ creq_priority <$> qs' = creq_priority <$> qs /\ Forall (fun q => 1 <= len (origin_input_ids (info (creq q)))) qs' /\
  Forall (fun q => going q = false -> nothing_held q) qs' /\
  Forall (fun q => len (output_ids (out (creq q))) <= max_new_tokens (sampling (info (creq q)))) qs'.
Proof.
  revert ds qs'. induction qs as [|q qs IH]; intros [|d ds] qs' Hl Hf Ho Hp; try done; cbn in Hf.
  { by apply Forall2_nil_inv_l in Hf as ->. }
  apply Forall2_cons_inv_l in Hf as (q' & qs1 & [D1 Dp D2 _ _ D5] & Hf & ->). apply Forall_cons in Ho as [Ho0 Ho], Hp as [Hp0 Hp]. cbn in D1, Dp, D2, D5.
  destruct (IH ds qs1 ltac:(cbn in Hl; lia) Hf Ho Hp) as (R1 & Rp & R2 & R3 & R4). rewrite !fmap_cons, R1, Rp, Dp.
  split; [f_equal; unfold q_rid; by rewrite D1|]. split; [done|]. split; [constructor; [by rewrite D1|done]|]. split; [by constructor|].
  constructor; [rewrite D1, D2; lia|done].
Qed.

(** Every request of a forward gets a token or ends. *)
Lemma stepped_work ds qs qs' :
  length ds = length qs -> Forall2 (fun dq q' => stepped (fst dq) (snd dq) q') (zip ds qs) qs' ->
  Forall (fun q => len (output_ids (out (creq q))) < max_new_tokens (sampling (info (creq q)))) qs ->
  work (goings qs') + len qs <= work qs /\ forall P, all_info P qs -> all_info P qs'.
Proof.
  revert ds qs'. induction qs as [|q qs IH]; intros [|d ds] qs' Hl Hf Ho; try done; cbn in Hf.
  { apply Forall2_nil_inv_l in Hf as ->. split; [done|]. intros P _. constructor. }
  apply Forall2_cons_inv_l in Hf as (q' & qs1 & [D1 _ D2 _ _ _] & Hf & ->). apply Forall_cons in Ho as [Ho0 Ho]. cbn in D1, D2.
  destruct (IH ds qs1 ltac:(cbn in Hl; lia) Hf Ho) as [R1 R2]. split.
  - change (q :: qs) with ([q] ++ qs). rewrite len_app, work_app. unfold goings in *. rewrite filter_cons.
    assert (Hq : work [q] = remaining q) by (unfold work; cbn; lia). assert (Hl1 : len [q] = 1) by done. unfold remaining in Hq.
    case_decide; [|lia]. change (q' :: ?l) with ([q'] ++ l). rewrite work_app.
    assert (Hq' : work [q'] = remaining q') by (unfold work; cbn; lia). unfold remaining in Hq'. rewrite D1, D2 in Hq'. lia.
  - intros P HP. apply Forall_cons in HP as [HP0 HP]. constructor; [by rewrite D1|by apply R2].
Qed.

Lemma all_info_goings P l : all_info P l -> all_info P (goings l).
Proof. intros HP. unfold all_info in *. rewrite Forall_forall in *. intros q [Hq _]%elem_goings. by apply HP. Qed.

Lemma goings_Forall (P : cache_req -> Prop) l : Forall P l -> Forall P (goings l).
Proof. intros Hf. rewrite Forall_forall in *. intros q [Hq _]%elem_goings. by apply Hf. Qed.

Lemma prio_list l l' : creq_priority <$> l = creq_priority <$> l' ->
  Forall (fun q => prio_ok (creq_priority q)) l' -> Forall (fun q => prio_ok (creq_priority q)) l.
Proof. intros He Hf. change (Forall (prio_ok ∘ creq_priority) l). apply Forall_fmap. rewrite He. by apply Forall_fmap. Qed.

(** Fewer rids stay distinct. *)
Lemma rids_fewer l k k' : NoDup (q_rid <$> l ++ k) -> q_rid <$> k' ⊆+ q_rid <$> k -> NoDup (q_rid <$> l ++ k').
Proof.
  rewrite !fmap_app. intros Hnd Hs. destruct (submseteq_Permutation _ _ Hs) as [r Hr]. rewrite Hr, app_assoc in Hnd.
  by apply NoDup_app in Hnd as [? _].
Qed.

Lemma goings_rids l : q_rid <$> goings l ⊆+ q_rid <$> l.
Proof. apply fmap_submseteq, sublist_submseteq, sublist_filter. Qed.

(** ** The turn *)

Definition server_reqs (s : server) : list cache_req := reqs (running (sched s)) ++ last_reqs (last_batch s).

Record server_ok (s : server) : Prop := {
  so_serving : serving (armem (sched s)) (waiting (sched s)) (server_reqs s) (new_token_ratio (sched s));
  so_run : batch_ok (running (sched s));
  so_last l : last_batch s = Some l -> batch_ok l;
}.

Lemma serving_merged m wait run last ratio : serving m wait (run ++ last) ratio -> serving m wait (run ++ goings last) ratio.
Proof.
  assert (He : goings (run ++ goings last) = goings (run ++ last)) by (by rewrite !goings_app, goings_idem).
  intros [S1 S2 S3 S4 S5 S6 S7 S8 S9 S10 S11 S12 S13]. split; rewrite ?He; try done.
  - apply Forall_app in S7 as [S7 S7']. apply Forall_app. split; [done|]. by apply goings_Forall.
  - apply Forall_app in S8 as [S8 S8']. apply Forall_app. split; [done|]. by apply goings_Forall.
  - rewrite len_app in *. pose proof (length_filter (fun q => going q = true) last). unfold goings, len in *. lia.
Qed.

(** The same request, later. *)
Definition continues (q q' : cache_req) : Prop :=
  info (creq q') = info (creq q) /\ output_ids (out (creq q)) `prefix_of` output_ids (out (creq q')).

#[global] Instance continues_trans : Transitive continues.
Proof. intros q1 q2 q3 [I1 O1] [I2 O2]. split; [congruence|by transitivity (output_ids (out (creq q2)))]. Qed.

Lemma same_continues q q' : same_req q q' -> continues q q'.
Proof. intros [A B _ _ _ _]. split; [done|]. by rewrite B. Qed.

Lemma stepped_continues ds qs qs' q :
  length ds = length qs -> Forall2 (fun dq q' => stepped (fst dq) (snd dq) q') (zip ds qs) qs' -> q ∈ qs ->
  exists q', q' ∈ qs' /\ continues q q'.
Proof.
  intros Hl Hf [i Hi]%list_elem_of_lookup. destruct (lookup_lt_is_Some_2 ds i) as [d Hd]; [rewrite Hl; by eapply lookup_lt_Some|].
  assert (Hz : zip ds qs !! i = Some (d, q)) by (apply lookup_zip_with_Some; by exists d, q).
  destruct (Forall2_lookup_l _ _ _ _ _ Hf Hz) as (q' & Hi' & [D1 _ _ D3 _ _]). exists q'. split; [by eapply list_elem_of_lookup_2|].
  split; [done|]. cbn in D3. rewrite <- D3. apply prefix_take.
Qed.

Notation process_batch_result_prefill := (process_batch_result_prefill time dfi 1 str_finish grammar_terminated).

(** A prefill: every request of the batch gets its first token. *)
Lemma prefill_run s s1 nb qs idxs full ds :
  serving (armem s) (waiting s) (reqs (running s)) (new_token_ratio s) -> formed s s1 nb qs idxs ->
  batch_ok (running s) -> running s1 = set_full (running s) full -> new_token_ratio s1 = new_token_ratio s -> length ds = length (reqs nb) ->
  exists nb' m', process_batch_result_prefill ds (set_next_ids nb (dr_token <$> ds)) (armem s1) = Ok (nb', m') /\
    server_ok (Server (ArSched (running s1) (waiting s1) (new_token_ratio s1) m') (Some nb')) /\
    (forall q, q ∈ qs -> exists q', q' ∈ reqs nb' /\ continues q q') /\ reqs nb' <> [] /\
    work (waiting s1 ++ goings (reqs (running s) ++ reqs nb')) + len (reqs nb') <= work (waiting s ++ goings (reqs (running s))) /\
    forall P, all_info P (waiting s ++ goings (reqs (running s))) -> all_info P (waiting s1 ++ goings (reqs (running s) ++ reqs nb')).
Proof.
  intros [S1 S2 S3 S4 S5 S6 S7 S8 S9 S10 S11 S12 S13] [F1 F2 F3 F4 F5 F6 F7 F8 F9 F10] Hb Hr1 Hr2 Hl. unfold Ar.process_batch_result_prefill.
  cbn [set_next_ids reqs].
  destruct (prefill_all_spec time dfi str_finish grammar_terminated slots W (reqs nb) ds (armem s1) (goings (reqs (running s))) F6
    ltac:(rewrite <- S3; exact (f_equal fst F8)) F5 Hl) as (qs' & m' & Hrun & Hm & Hst & Hd & Hg).
  rewrite Hrun. step_ok. eexists _, m'. split; [reflexivity|]. fold (goings qs') in Hd, Hg.
  destruct (stepped_list ds (reqs nb) qs' Hl Hst) as (R1 & Rp & R2 & R3 & R4).
  { eapply Forall_impl; [exact F5|]. intros q Hq. apply (fw_out _ _ (pf_forward _ _ Hq)). }
  { eapply Forall_impl; [exact F5|]. intros q Hq. apply Hq. }
  assert (Hlq : length qs' = length (reqs nb)) by (rewrite <- (length_fmap q_rid qs'), R1; apply length_fmap).
  pose proof (rematched_queued W _ _ F1 S9) as Hq. apply Forall_app in Hq as [_ Hq].
  pose proof (rematched_rids _ _ F1) as Hrid. rewrite fmap_app in Hrid.
  assert (Hnb : q_rid <$> reqs nb = q_rid <$> qs) by (rewrite F3; by apply placed_fields).
  assert (Hout : Forall (fun q => len (output_ids (out (creq q))) < max_new_tokens (sampling (info (creq q)))) (reqs nb)).
  { eapply Forall_impl; [exact F5|]. intros q Hq1. apply (fw_out _ _ (pf_forward _ _ Hq1)). }
  destruct (stepped_work ds (reqs nb) qs' Hl Hst Hout) as [Wk Wi].
  assert (Hwq : work (reqs nb) = work qs) by (unfold work; rewrite F3; f_equal; by apply placed_fields).
  split; [split|split; [|split; [|split]]].
  - unfold server_reqs. cbn [sched last_batch last_reqs running waiting armem new_token_ratio reqs set_reqs].
    rewrite Hr1, Hr2. cbn [reqs set_full].
    split; rewrite ?goings_app; try done.
    + by rewrite Permutation_app_comm.
    + by rewrite (mv_group _ _ Hm).
    + rewrite (mv_width _ _ Hm), <- S3. exact (f_equal fst F8).
    + rewrite (mv_size _ _ Hm). unfold dims in F8. injection F8 as _ ->. done.
    + by apply Forall_app.
    + apply Forall_app. split; [done|by apply goings_Forall].
    + by apply Forall_app.
    + by apply Forall_app.
    + rewrite fmap_app, <- Hrid in S10. rewrite app_assoc. apply (rids_fewer _ qs'); [|apply goings_rids].
      rewrite !fmap_app, R1, Hnb.
      assert (Hp : ((q_rid <$> waiting s1) ++ (q_rid <$> goings (reqs (running s)))) ++ (q_rid <$> qs) ≡ₚ
        ((q_rid <$> qs) ++ (q_rid <$> waiting s1)) ++ (q_rid <$> goings (reqs (running s)))) by solve_Permutation.
      by rewrite Hp.
    + rewrite len_app. unfold len in *. lia.
    + apply Forall_app in S13 as [S13 S13']. pose proof (rematched_prio _ _ _ F1 S13) as Hpr. apply Forall_app in Hpr as [Hpq Hpw].
      apply Forall_app. split; [done|]. apply Forall_app. split; [done|]. apply goings_Forall, (prio_list qs' (reqs nb)); [done|].
      apply (prio_list (reqs nb) qs); [rewrite F3; by apply placed_fields|done].
  - cbn [sched running]. rewrite Hr1. by apply batch_ok_full.
  - cbn [last_batch]. intros l [= <-]. right. split; [|by eexists]. apply process_aligned; try done.
    eapply Forall_impl; [exact F5|]. intros q Hq0. apply Hq0.
  - intros q [i Hi]%list_elem_of_lookup. destruct (lookup_lt_is_Some_2 idxs i) as [x Hx]; [rewrite F2; by eapply lookup_lt_Some|].
    assert (Hz : placed q x ∈ reqs nb) by (rewrite F3; eapply list_elem_of_lookup_2, lookup_zip_with_Some; by exists q, x).
    destruct (stepped_continues ds (reqs nb) qs' _ Hl Hst Hz) as (q' & Hq' & Hc). by exists q'.
  - cbn [reqs set_reqs]. intros ->. apply F10. rewrite F3, length_zip_with in Hlq. cbn in Hlq. apply length_zero_iff_nil. lia.
  - cbn [reqs set_reqs]. pose proof (rematched_work _ _ F1) as Hw. rewrite goings_app, !work_app in *. unfold len in *. lia.
  - cbn [reqs set_reqs]. intros P HP. apply Forall_app in HP as [HP1 HP2]. apply (rematched_info P _ _ F1), Forall_app in HP1 as [HPq HPw].
    rewrite goings_app. apply Forall_app. split; [done|]. apply Forall_app. split; [done|]. apply all_info_goings, Wi. unfold all_info. rewrite F3.
    change (Forall (P ∘ (fun q => info (creq q))) (zip_with placed qs idxs)). apply Forall_fmap. rewrite (placed_fields (fun q => info (creq q))) by done.
    by apply Forall_fmap.
Qed.

(** The estimate stays a fraction of what is asked for. *)
Lemma estimate_pos qs : Forall (growing W) qs -> (0 <= new_estimate_ratio steps qs)%Q.
Proof.
  intros Hg. unfold new_estimate_ratio. cbn zeta. destruct (Qle_bool 1 _); [done|].
  assert (Hs : 0 <= Decode.sum ((fun q => len (output_ids (out (creq q)))) <$> qs) /\
    0 <= Decode.sum ((fun q => max_new_tokens (sampling (info (creq q)))) <$> qs)).
  { unfold Decode.sum. induction Hg as [|q qs [_ Ho _] Hg IH]; [done|]. cbn. cbn in IH. lia. }
  unfold Qdiv. apply Qmult_le_0_compat.
  - change 0%Q with (inject_Z 0). rewrite <- Zle_Qle. pose proof (len_nonneg qs). nia.
  - apply Qinv_le_0_compat. change 0%Q with (inject_Z 0). rewrite <- Zle_Qle. lia.
Qed.

(** A retracted request can be admitted again. *)
Lemma taken_back_queued q : growing W q -> 1 <= len (origin_input_ids (info (creq q))) -> going q = true -> queued_ok W (taken_back q).
Proof. intros [_ Ho Hw] Hp Hg. split; try done. apply Ho. Qed.

(** What a live request holds beyond its shared prefix. *)
Lemma own_length table t q : live table t q -> len (own table q) = kv_allocated_len (kvs (creq q)) - cache_protected_len (kvs (creq q)).
Proof.
  intros Hl. pose proof (length_toks _ _ _ Hl) as Hlt. pose proof (shield_prefix _ _ _ Hl) as [Hsh Hsc].
  destruct Hl as [_ _ Hat Hal Hc _]. pose proof (at_row _ _ _ _ _ _ Hat) as Hrl. destruct Hat as [_ Hp _ _ _]. rewrite Hlt in Hrl.
  unfold own, len. rewrite length_drop, length_take. unfold commit, shield in *. pose proof (len_nonneg (prefix_at t (last_node q))). lia.
Qed.

(** A request that fits the pool is never short of a slot when it is alone. *)
Lemma fits_not_crowded q : growing W q -> fits_pool slots (info (creq q)) -> ~ crowded slots [] [] [] q.
Proof.
  intros [Hlag Hout _] Hfit (m & [D1 _ _ _ _ D6 D7] & Hroom). apply Forall_cons in D7 as [Hl _].
  pose proof (evictable_bound 1 false ltac:(lia) _ (tree m) D6) as Hb. cbn [fmap list_fmap app foldr] in Hb.
  pose proof (own_length _ _ _ Hl) as Ho. rewrite (lv_alloc _ _ _ Hl), (at_len _ _ _ _ _ _ (lv_attached _ _ _ Hl)) in Ho.
  apply Permutation_length in D1. rewrite bind_cons, !length_app in D1. cbn [length mbind list_bind] in D1.
  unfold room, fits_pool, seqlen, len in *. lia.
Qed.

Notation decode_turn := (decode_turn time strat dfi false 1 masked oob empty str_finish grammar_terminated steps decay min_ratio).

(** A decode step: every request of the batch gets a token, waits again, or,
    alone and too large, is aborted. *)
Lemma decode_run s sample :
  serving (armem s) (waiting s) (reqs (running s)) (new_token_ratio s) -> batch_ok (running s) ->
  (forall b, length (sample b) = length (reqs b)) ->
  exists s' aborted, decode_turn sample s = Ok s' /\ server_ok (Server s' None) /\ waiting s `prefix_of` waiting s' /\
    (forall q, aborted = Some q -> reqs (running s') = [] /\ ~ fits_pool slots (info (creq q))) /\
    (forall q, q ∈ goings (reqs (running s)) -> (exists q', q' ∈ waiting s' ++ reqs (running s') /\ continues q q') \/ aborted = Some q) /\
    (reqs (running s') = [] -> batch_is_full (running s') = false) /\
    work (waiting s' ++ goings (reqs (running s'))) + len (reqs (running s')) <= work (waiting s ++ goings (reqs (running s))) /\
    forall P, all_info P (waiting s ++ goings (reqs (running s))) -> all_info P (waiting s' ++ goings (reqs (running s'))).
Proof.
  intros [S1 S2 S3 S4 S5 S6 S7 S8 S9 S10 S11 S12 S13] Hb Hsm.
  assert (Hok : turn_ok slots [] [] [] W s) by (split; try done; by destruct Hb as [?|[? _]]; [left|right]).
  destruct (turn_run time strat dfi masked oob empty str_finish grammar_terminated steps decay min_ratio slots [] [] [] W sample s Hok Hsm)
    as (s1 & s' & kept & gone & aborted & _ & [U1 U2 _ U4 U5 U6 U7 U8 _ U10 _ _ Ush] & Hrun & [T1 T2 T3 T4 T5] & Hw & Hrat & Hnx & Hfl & Hsz & Hst).
  fold (goings (reqs (running s))) in U1. fold (goings (reqs (running s'))) in T1, T5.
  exists s', (head aborted). split; [done|]. set (ds := if decide (kept = []) then [] else sample (running s1)) in Hst.
  assert (Hlen : length ds = length (advance <$> kept)).
  { subst ds. case_decide as Hk; [by subst|]. by rewrite Hsm, U5. }
  assert (Hsub : forall P, Forall P (goings (reqs (running s))) -> Forall P kept /\ Forall P gone).
  { intros P HP. rewrite U1 in HP. by apply Forall_app in HP as [? [? ?]%Forall_app]. }
  destruct (Hsub _ S5) as [Gk Gg]. destruct (Hsub _ S6) as [Pk Pg].
  destruct (Hsub (fun q => going q = true)) as [_ Wg]; [by apply Forall_forall; intros q [_ ?]%elem_goings|].
  destruct (stepped_list ds (advance <$> kept) _ Hlen Hst) as (R1 & Rp & R2 & R3 & R4).
  { apply Forall_fmap. eapply Forall_impl; [exact Gk|]. intros q Hq. apply (gr_out _ _ Hq). }
  { by apply Forall_fmap. }
  assert (Hrk : q_rid <$> (advance <$> kept) = q_rid <$> kept) by (by rewrite <- list_fmap_compose).
  assert (Hrg : q_rid <$> (taken_back <$> gone) = q_rid <$> gone) by (by rewrite <- list_fmap_compose).
  assert (Hln : length (reqs (running s')) = length kept) by (rewrite <- (length_fmap q_rid), R1, Hrk; apply length_fmap).
  assert (Hout : Forall (fun q => len (output_ids (out (creq q))) < max_new_tokens (sampling (info (creq q)))) (advance <$> kept)).
  { apply Forall_fmap. eapply Forall_impl; [exact Gk|]. intros q Hq. apply (gr_out _ _ Hq). }
  destruct (stepped_work ds (advance <$> kept) _ Hlen Hst Hout) as [Wk Wi].
  assert (Hwk : work (advance <$> kept) = work kept) by (unfold work; by rewrite <- list_fmap_compose).
  assert (Hwg : work (taken_back <$> gone) = work gone) by (unfold work; by rewrite <- list_fmap_compose).
  split; [split|split; [|split; [|split; [|split; [done|split]]]]].
  - unfold server_reqs. cbn [sched last_batch last_reqs]. rewrite app_nil_r. split; try done.
    + by rewrite Hsz.
    + by apply goings_Forall.
    + rewrite Hw, U4. apply Forall_app. split; [done|]. apply Forall_fmap. rewrite Forall_forall in *.
      intros q Hq. apply taken_back_queued; [by apply Gg|by apply Pg|by apply Wg].
    + rewrite Hw, U4. apply (rids_fewer _ (reqs (running s'))); [|apply goings_rids]. rewrite !fmap_app, R1, Hrk, Hrg.
      rewrite U1, !fmap_app in S10.
      assert (Hp : (q_rid <$> waiting s) ++ (q_rid <$> kept) ++ (q_rid <$> gone) ++ (q_rid <$> aborted) ≡ₚ
        (((q_rid <$> waiting s) ++ (q_rid <$> gone)) ++ (q_rid <$> kept)) ++ (q_rid <$> aborted)) by solve_Permutation.
      rewrite Hp in S10. by apply NoDup_app in S10 as [? _].
    + apply Permutation_length in U1. rewrite !length_app in U1. pose proof (length_filter (fun q => going q = true) (reqs (running s))).
      unfold goings, len in *. lia.
    + rewrite Hrat. destruct U10 as [->|[->| ->]]; [done| |by apply estimate_pos].
      unfold Qmax2. destruct (Qle_bool _ _) eqn:Hle; [done|]. apply Qle_bool_false in Hle. lra.
    + apply Forall_app in S13 as [S13 S13']. destruct (Hsub _ S13') as [Vk Vg]. rewrite Hw, U4.
      repeat (apply Forall_app; split); [done|by apply Forall_fmap|]. apply goings_Forall, (prio_list _ (advance <$> kept)); [done|]. by apply Forall_fmap.
  - cbn [sched]. destruct T4 as [?|?]; [by left|]. destruct Hnx as [?|?]; [by left|by right].
  - by cbn.
  - rewrite Hw, U4. by apply prefix_app_r.
  - destruct U2 as [->|(Hk & x & ->)]; [done|]. intros q [= <-]. rewrite Hk in Hln. split; [by apply nil_length_inv|]. intros Hfit.
    apply (fits_not_crowded x); [|done|by apply Ush, list_elem_of_singleton]. rewrite Forall_forall in S5. apply S5. rewrite U1, !elem_of_app. right. right. by left.
  - intros q Hq. rewrite U1 in Hq. rewrite !elem_of_app in Hq. destruct Hq as [Hq|[Hq|Hq]].
    + left. destruct (stepped_continues ds (advance <$> kept) _ (advance q) Hlen Hst) as (q' & Hq' & Hc); [by apply list_elem_of_fmap_2|].
      exists q'. split; [apply elem_of_app; by right|done].
    + left. exists (taken_back q). split; [|by split]. rewrite Hw, U4, !elem_of_app. left. right. by apply list_elem_of_fmap_2.
    + right. destruct U2 as [->|(_ & x & ->)]; [by apply not_elem_of_nil in Hq|]. by apply list_elem_of_singleton in Hq as ->.
  - rewrite Hw, U4, U1, !work_app, Hwg. assert (Hab : 0 <= work aborted).
    { apply work_pos. rewrite U1 in S5. apply Forall_app in S5 as [_ [_ Ga]%Forall_app]. eapply Forall_impl; [exact Ga|].
      intros q [_ Ho _]. unfold remaining. lia. }
    unfold len in *. rewrite length_fmap in Wk. lia.
  - intros P HP. unfold all_info in HP. rewrite U1 in HP. apply Forall_app in HP as [HPw HP]. apply Forall_app in HP as [HPk [HPg _]%Forall_app]. rewrite Hw, U4.
    repeat (apply Forall_app; split); [done|by apply Forall_fmap|]. apply all_info_goings, Wi. by apply Forall_fmap.
Qed.
End server.
