(* ===== verification/ArPolicy.v ===== *)
(** * The schedule policies under the autoregressive server

    SchedulePolicy.calc_priority of SchedulePolicy.v is what the server of
    ArServer.v calls before it forms a prefill batch; here it is shown to give
    what the server relies on: the same requests in some order, with a new match
    perhaps, and a tree in which every reference means what it did. *)

From S2P Require Import Prelude DllmReq RadixKey RadixCache RadixCacheProofs RadixCacheTheorems StableSort SchedulePolicy SchedulePolicyProofs DecodeBatch DecodeMemory ArServer ArAdmission ArServerProofs.
Import Radix Decode.

Section policy.
Context (time time_queue uninit : nat -> Z) (shuffle : list Policy.queued -> list Policy.queued).
Context (child_values : radix -> nat -> list nat) (check share : Z) (self : Policy.schedule_policy).
Context (routing_key : cache_req -> option string) (entry : cache_req -> Z) (wt : radix).

Definition queued_as (q : cache_req) : Policy.queued := Policy.Queued q (entry q) (routing_key q).

(** self.policy.calc_priority(self.waiting_queue, self.running_batch), which
    sorts the queue in place.  The policy's own tree is reset whenever it is
    used, so what it holds before does not matter. *)
Definition order_queue (queue : list cache_req) (b : batch) (t : radix) : res (list cache_req * radix) :=
  '(_, q, t, _) ← Policy.calc_priority time time_queue uninit shuffle child_values 1 false check share self
                    (Some (routing_key <$> reqs b)) (queued_as <$> queue) t wt;
  Ok (list_fmap _ _ Policy.q_req q, t).

Hypothesis values_perm : forall t n nd, nodes t !! n = Some nd -> child_values t n ≡ₚ (map_to_list (children nd)).*2.
Hypothesis shuffle_perm : forall q, shuffle q ≡ₚ q.
Hypothesis share_pos : 0 < share.

Lemma unmatched_same r r' : unmatched r' = unmatched r -> same_req (Policy.q_req r) (Policy.q_req r').
Proof. destruct r as [[[] ? ? ?] ? ?], r' as [[[] ? ? ?] ? ?]. cbn. intros [=]. subst. by split. Qed.

Lemma requests_rematched queue q' :
  same_requests (queued_as <$> queue) q' -> rematched queue (Policy.q_req <$> q').
Proof.
  intros Hs. unfold same_requests in Hs. symmetry in Hs. destruct (Permutation_map_inv _ _ Hs) as (p & Hp & Hperm).
  exists (Policy.q_req <$> p). split; [|by rewrite Hperm]. clear Hs Hperm. revert p Hp.
  induction queue as [|q queue IH]; intros [|r p] Hp; try done. assert (Hr := f_equal head Hp). apply (f_equal tail) in Hp. cbn [head tail fmap list_fmap map] in Hr, Hp.
  assert (Hr' : unmatched r = unmatched (queued_as q)) by congruence.
  constructor; [|by apply IH]. by apply (unmatched_same (queued_as q)).
Qed.

#[global] Instance order_queue_policy W : QueuePolicy W (fun p => Policy.enable_priority_scheduling self = true -> is_Some p) order_queue.
Proof.
  intros queue b L t Hok _ Hprio. unfold order_queue. set (qs := queued_as <$> queue).
  assert (Hpr : prioritised self qs).
  { intros He r (q & -> & Hq)%list_elem_of_fmap. rewrite Forall_forall in Hprio. by apply Hprio. }
  destruct (Policy.is_cache_aware (Policy.determine_active_policy self qs)) eqn:Ha.
  - destruct (aware_run 1 false ltac:(lia) L time time_queue uninit shuffle child_values check share values_perm share_pos self
      (Some (routing_key <$> reqs b)) qs t wt Hok Ha) as (qm & q' & t' & wt' & Hrun & [Hlk _ Hsm] & Hord).
    rewrite Hrun. step_ok. do 2 eexists. split; [reflexivity|]. split; [|split; apply Hlk].
    apply requests_rematched. eapply same_requests_trans; [exact Hsm|]. apply perm_same. case_decide; [apply Hord|]. by destruct Hord as (ns & _ & _ & ?).
  - destruct (agnostic_run 1 false time time_queue uninit shuffle child_values check share self (Some (routing_key <$> reqs b)) qs t wt Hpr Ha)
      as (q' & Hrun & Hord).
    rewrite Hrun. step_ok. do 2 eexists. split; [reflexivity|]. split; [|by split].
    apply requests_rematched, perm_same. by apply (agnostic_perm shuffle shuffle_perm self (Some (routing_key <$> reqs b))).
Qed.
End policy.
