(* ===== verification/ArService.v ===== *)
(** * Runs of the autoregressive server

    A turn of Ar.turn with preemption off, from any state in which memory is
    accounted for; runs of turns, arrivals and aborts from the start; and the
    schedule policies as instances of what the server asks of its queue. *)

From S2P Require Import Prelude Allocator DllmReq MemCommon RadixKey RadixCache RadixCacheProofs RadixCacheTheorems RadixCacheRequests RadixPrefixCache RadixLocks StableSort DecodeBatch DecodeMemory DecodeRetract DecodeTurn Preempt ArServer ArQueue ArAdmission ArPrefill ArServerProofs.
From Stdlib Require Import QArith Lqa.
Import Radix Decode Ar Queue.
#[local] Open Scope Z_scope.

(** Every request that is not finished. *)
Definition live_reqs (s : server) : list cache_req := waiting (sched s) ++ goings (server_reqs s).

Section service.
Context `{!HeapQ} (time : nat -> Z) (strat : strategy) (dfi : bool) (masked : lanes) (oob : Z -> Z) (empty : Z -> list Z).
Context (str_finish : req -> option finish_reason) (grammar_terminated : req -> bool) (steps : Z) (decay min_ratio init_ratio : Q).
Context (CLIP max_prefill max_reqs : Z) (prefill_max : option Z) (low_first : bool) (threshold : Z).
Context (entry : cache_req -> Z) (set_order : list cache_req -> list cache_req).
Context (calc_priority : list cache_req -> batch -> radix -> res (list cache_req * radix)) (top_num : req -> Z).
Context (enable_priority abort_disabled : bool) (size : Z) (W : nat).
(** What the requests that arrive ask for. *)
Context (asks : req_info -> Prop).
Notation slots := (range 1 (size + 1)).

(** With priority scheduling every request has a priority. *)
Definition prio_ok (p : option Z) : Prop := enable_priority = true -> is_Some p.
Context `{Hpolicy : !QueuePolicy W prio_ok calc_priority}.
Hypothesis clip_pos : 0 <= CLIP.
Hypothesis steps_pos : 0 <= steps.
Hypothesis min_pos : (0 <= min_ratio)%Q.
Hypothesis init_pos : (0 <= init_ratio)%Q.

Notation serving := (serving slots W max_reqs prio_ok).
Notation server_ok := (server_ok max_reqs slots W prio_ok).
Notation turn :=
  (turn time strat dfi 1 masked oob empty str_finish grammar_terminated steps decay min_ratio init_ratio CLIP max_prefill max_reqs
     prefill_max false low_first threshold entry set_order calc_priority top_num).

Lemma idle_ok apart s : server_ok (Server s None) -> server_ok (Server (on_idle init_ratio apart s) None).
Proof.
  intros [[S1 S2 S3 S4 S5 S6 S7 S8 S9 S10 S11 S12 S13] Hr Hl]. unfold on_idle. destruct (is_fully_idle apart s); [|by split]. by split.
Qed.

Lemma idle_same apart s : running (on_idle init_ratio apart s) = running s /\ waiting (on_idle init_ratio apart s) = waiting s.
Proof. unfold on_idle. by destruct (is_fully_idle apart s). Qed.

(** The flag that stops admission is down when no batch has requests. *)
Definition flag_down (s : server) : Prop := server_reqs s = [] -> batch_is_full (running (sched s)) = false.

(** What makes the server go on: rows, a prefill that may hold a request, and
    requests that fit the pool. *)
Definition able (s : server) : Prop :=
  1 <= max_reqs /\ takes_one prefill_max /\ all_info (fits_pool slots) (live_reqs s) /\ flag_down s.

(** A turn, and where every request is afterwards. *)
Record turned (s s' : server) (aborted : option cache_req) : Prop := {
  td_ok : server_ok s';
  td_abort q : aborted = Some q -> server_reqs s' = [] /\ ~ fits_pool slots (info (creq q));
  td_waiting q : q ∈ waiting (sched s) -> exists q', q' ∈ waiting (sched s') ++ server_reqs s' /\ continues q q';
  td_running q : q ∈ goings (server_reqs s) -> (exists q', q' ∈ waiting (sched s') ++ server_reqs s' /\ continues q q') \/ aborted = Some q;
  td_work : work (live_reqs s') + (if decide (server_reqs s' = []) then 0 else 1) <= work (live_reqs s);
  td_info P : all_info P (live_reqs s) -> all_info P (live_reqs s');
  td_flag : able s -> flag_down s';
  td_moves : able s -> server_reqs s = [] -> waiting (sched s) <> [] -> server_reqs s' <> [];
}.

Lemma turn_goes sample s :
  server_ok s -> (forall b, length (sample b) = length (reqs b)) -> exists s' aborted, turn sample s = Ok s' /\ turned s s' aborted.
Proof.
  intros [Hs Hb Hl] Hsm. unfold Ar.turn. destruct (merge_run _ _ Hb Hl) as (b & apart & Hm & Hb' & Hr & Hfl). rewrite Hm. step_ok.
  apply serving_merged in Hs. rewrite <- Hr in Hs. set (s0 := ArSched b (waiting (sched s)) (new_token_ratio (sched s)) (armem (sched s))).
  assert (Hgo : goings (server_reqs s) = goings (reqs (running s0))).
  { unfold server_reqs. cbn [s0 running]. by rewrite Hr, !goings_app, goings_idem. }
  assert (Hlive : live_reqs s = waiting s0 ++ goings (reqs (running s0))) by (unfold live_reqs; by rewrite Hgo).
  assert (Hdown : able s -> reqs (running s0) = [] -> batch_is_full (running s0) = false) by (intros (_ & _ & _ & Hd); by apply Hfl).
  assert (Hnil : server_reqs s = [] -> reqs (running s0) = []).
  { cbn [s0 running]. rewrite Hr. unfold server_reqs. intros [-> ->]%app_nil. done. }
  destruct (new_batch_run time strat dfi masked oob empty steps CLIP max_prefill max_reqs prefill_max low_first threshold entry set_order
    calc_priority top_num slots W prio_ok clip_pos s0 Hs) as (nb & s1 & full & Hnew & Hr1 & Hrat & Hcase).
  pose proof (new_batch_forms time strat dfi masked oob empty steps CLIP max_prefill max_reqs prefill_max low_first threshold entry set_order
    calc_priority top_num slots W prio_ok clip_pos s0 nb s1 Hs) as Hforms.
  pose proof (new_batch_none time strat dfi masked oob empty steps CLIP max_prefill max_reqs prefill_max low_first threshold entry set_order
    calc_priority top_num s0 nb s1) as Hnone.
  assert (Hable : able s -> reqs (running s0) = [] -> waiting s0 <> [] -> nb <> None).
  { intros Ha Hn Hne. pose proof (Hdown Ha Hn). destruct Ha as (A1 & A2 & A3 & A4). rewrite Hlive in A3. apply Forall_app in A3 as [A3 _].
    by apply Hforms. }
  clear Hforms. rewrite Hnew. step_ok. destruct nb as [nb|].
  - destruct Hcase as (qs & idxs & Hf). cbn zeta.
    destruct (prefill_run time dfi str_finish grammar_terminated max_reqs slots W prio_ok s0 s1 nb qs idxs full (sample nb) Hs Hf Hb' Hr1 Hrat (Hsm nb))
      as (nb' & m' & Hpr & Hok & Hgot & Hne & Hwork & Hinfo).
    rewrite Hpr. step_ok. set (s' := Server _ _) in *. exists s', None. split; [done|].
    assert (Hsr : server_reqs s' = reqs (running s0) ++ reqs nb') by (unfold server_reqs, s'; cbn [sched running last_batch last_reqs]; by rewrite Hr1).
    assert (Hlv : live_reqs s' = waiting s1 ++ goings (reqs (running s0) ++ reqs nb')) by (unfold live_reqs; by rewrite Hsr).
    assert (Hne' : server_reqs s' <> []) by (rewrite Hsr; by intros [_ ?]%app_nil).
    split; rewrite ?Hlv, ?Hlive; try done.
    + intros q Hq. rewrite Hsr. destruct (rematched_elem _ _ q (fm_queue _ _ _ _ _ _ _ _ Hf) Hq) as (q1 & [Hq1|Hq1]%elem_of_app & Hsame).
      * destruct (Hgot q1 Hq1) as (q' & Hq' & Hi & Ho). exists q'. split; [rewrite !elem_of_app; by right; right|].
        split; [by rewrite Hi, (sr_info _ _ Hsame)|]. by rewrite <- (sr_out _ _ Hsame).
      * exists q1. split; [apply elem_of_app; by left|by apply same_continues].
    + rewrite Hgo, Hsr. intros q [Hq _]%elem_goings. left. exists q. split; [rewrite !elem_of_app; by right; left|by split].
    + rewrite decide_False by done. destruct (reqs nb') as [|q0 l0]; [done|]. unfold len in Hwork. cbn [length] in Hwork. lia.
    + intros _ He. by destruct (Hne' He).
  - destruct Hcase as [Hs1 Hre].
    assert (Hb1 : batch_ok (running s1)) by (rewrite Hr1; by apply batch_ok_full). assert (Hr1' : reqs (running s1) = reqs (running s0)) by (by rewrite Hr1).
    rewrite <- Hr1', <- Hrat in Hs1. pose proof (rematched_work _ _ Hre) as Hwre. rewrite <- Hr1' in *.
    assert (Hmoves : able s -> server_reqs s = [] -> waiting (sched s) <> [] -> False) by (intros Ha He Hne; by apply (Hable Ha (Hnil He))).
    case_bool_decide as He.
    + destruct (idle_same apart s1) as [Hir Hiw]. set (s' := Server _ None). exists s', None. split; [done|].
      assert (Hsr : server_reqs s' = []) by (unfold server_reqs, s'; cbn [sched last_batch last_reqs]; by rewrite Hir, He).
      assert (Hlv : live_reqs s' = waiting s1) by (unfold live_reqs; rewrite Hsr; unfold s'; cbn [sched]; by rewrite Hiw, app_nil_r).
      split; rewrite ?Hlv, ?Hlive, ?Hsr; try done.
      * apply idle_ok. split; [|done|done]. unfold server_reqs. cbn [sched last_batch last_reqs]. by rewrite app_nil_r.
      * intros q Hq. destruct (rematched_elem _ _ q Hre Hq) as (q1 & Hq1 & Hsame). exists q1. unfold s'. cbn [sched]. rewrite Hiw, app_nil_r.
        split; [done|by apply same_continues].
      * rewrite Hgo, He. by intros q ?%not_elem_of_nil.
      * rewrite decide_True by done. rewrite He, work_app, Hwre. cbn. unfold work. cbn. lia.
      * intros P HP. rewrite He, app_nil_r in HP. by apply (rematched_info P _ _ Hre).
      * intros Ha _. unfold s'. cbn [sched]. rewrite Hir. destruct (decide (waiting s0 = [])) as [Hw|Hw]; [|by destruct (Hable Ha He Hw)].
        destruct (Hnone Hw Hnew) as [_ ->]. apply (Hdown Ha He).
      * intros Ha Hz Hne. by destruct (Hmoves Ha Hz Hne).
    + destruct (decode_run time strat dfi masked oob empty str_finish grammar_terminated steps decay min_ratio max_reqs calc_priority slots W prio_ok
        steps_pos min_pos s1 sample Hs1 Hb1 Hsm) as (s2 & aborted & Hd & Hok & Hpre & Hab & Hgot & Hfull & Hwork & Hinfo).
      rewrite Hd. step_ok. set (s3 := if bool_decide _ then _ else s2).
      assert (H3 : server_ok (Server s3 None) /\ running s3 = running s2 /\ waiting s3 = waiting s2).
      { subst s3. case_bool_decide; [|done]. split; [by apply idle_ok|]. apply idle_same. }
      destruct H3 as (Hok3 & Hr3 & Hw3). exists (Server s3 None), aborted. split; [done|].
      assert (Hsr : server_reqs (Server s3 None) = reqs (running s2)) by (unfold server_reqs; cbn [sched last_batch last_reqs]; by rewrite app_nil_r, Hr3).
      assert (Hlv : live_reqs (Server s3 None) = waiting s2 ++ goings (reqs (running s2))) by (unfold live_reqs; rewrite Hsr; cbn [sched]; by rewrite Hw3).
      split; rewrite ?Hlv, ?Hlive, ?Hsr; cbn [sched]; rewrite ?Hw3; try done.
      * intros q Hq. destruct (rematched_elem _ _ q Hre Hq) as (q1 & Hq1 & Hsame). exists q1. split; [|by apply same_continues].
        apply elem_of_app. left. destruct Hpre as [k Hk]. rewrite Hk. apply elem_of_app. by left.
      * by rewrite Hgo.
      * rewrite !work_app in *. rewrite Hwre in Hwork. destruct (reqs (running s2)) as [|q0 l0]; [rewrite decide_True by done; change (len (@nil cache_req)) with 0 in Hwork; lia|].
        rewrite decide_False by done. unfold len in Hwork. cbn [length] in Hwork. lia.
      * intros P HP. apply Hinfo. apply Forall_app in HP as [HP1 HP2]. apply Forall_app. split; [by apply (rematched_info P _ _ Hre)|done].
      * intros _. unfold flag_down. cbn [sched]. rewrite Hsr, Hr3. exact Hfull.
      * intros Ha Hz Hne. by destruct (Hmoves Ha Hz Hne).
Qed.

(** ** Aborting *)

(** The same request, perhaps to be aborted. *)
Record marked (q q' : cache_req) : Prop := {
  mk_hold : same_hold q q';
  mk_info : info (creq q') = info (creq q);
  mk_going : going q' = going q;
  mk_out : output_ids (out (creq q')) = output_ids (out (creq q));
  mk_prio : creq_priority q' = creq_priority q;
}.

Lemma mark_marked P q : marked q (mark P q).
Proof. unfold mark. by destruct (negb (q_finished q) && P q). Qed.

Lemma mark_all P l : Forall2 marked l (mark P <$> l).
Proof. apply Forall2_fmap_r, Forall_Forall2_diag, Forall_true. apply mark_marked. Qed.

Lemma marked_refl l : Forall2 marked l l.
Proof. apply Forall_Forall2_diag, Forall_true. done. Qed.

Lemma marked_goings l l' : Forall2 marked l l' -> Forall2 marked (goings l) (goings l').
Proof.
  unfold goings. induction 1 as [|q q' l l' Hq Hf IH]; [constructor|]. rewrite !filter_cons, (mk_going _ _ Hq).
  case_decide; [by constructor|done].
Qed.

Lemma marked_ok m l l' : Forall2 marked l l' -> forall dn, decode_ok slots [] [] [] m (l ++ dn) -> decode_ok slots [] [] [] m (l' ++ dn).
Proof.
  induction 1 as [|q q' l l' Hq Hf IH]; intros dn Hd; [done|]. cbn [app] in *.
  apply (ok_same_hold _ _ _ _ m q q' _ (mk_hold _ _ Hq)) in Hd. rewrite Permutation_middle in Hd. apply IH in Hd.
  by rewrite <- Permutation_middle in Hd.
Qed.

Lemma marked_Forall (Q : cache_req -> Prop) l l' : (forall q q', marked q q' -> Q q -> Q q') -> Forall2 marked l l' -> Forall Q l -> Forall Q l'.
Proof. intros HQ. induction 1 as [|q q' l l' Hq Hf IH]; intros Hl; [done|]. apply Forall_cons in Hl as [Hl0 Hl]. constructor; [by apply (HQ q)|by apply IH]. Qed.

Lemma mark_batch_ok P b : batch_ok b -> batch_ok (mark_batch P b).
Proof.
  intros [He|[[A1 A2 A3 A4 A5 A6] Hn]]; [left; cbn; by rewrite He|]. right. split; [|done].
  assert (Hf2 : forall {B} (R R' : cache_req -> B -> Prop) l, (forall q x, R q x -> R' (mark P q) x) -> Forall2 R (reqs b) l -> Forall2 R' (mark P <$> reqs b) l).
  { intros B R R' l HR Hf. apply Forall2_fmap_l. eapply Forall2_impl; [exact Hf|]. exact HR. }
  split; cbn [mark_batch set_reqs reqs req_pool_indices seq_lens seq_lens_sum next_ids any_logprob top_logprobs_nums]; try done.
  - eapply Hf2; [|exact A1]. intros q x Hx Hg. unfold mark in *. destruct (negb (q_finished q) && P q); by apply Hx.
  - eapply Hf2; [|exact A2]. intros q x Hx Hg. unfold mark in *. destruct (negb (q_finished q) && P q); by apply Hx.
  - intros l Hl. eapply Hf2; [|exact (A4 l Hl)]. intros q x Hx Hg. unfold mark in *. destruct (negb (q_finished q) && P q); by apply Hx.
  - rewrite A5, (existsb_fmap _ (reqs b)), (existsb_fmap _ (mark P <$> reqs b)), <- list_fmap_compose. f_equal.
    apply list_fmap_ext. intros i q _. cbn. by rewrite (mk_info _ _ (mark_marked P q)).
  - intros Hany. destruct (A6 Hany) as (l & -> & Hl). exists l. by rewrite length_fmap.
Qed.

(** Requests leave the queue, or are marked. *)
Lemma serving_marked m wait wait' run run' ratio :
  wait' ⊆+ wait -> Forall2 marked run run' -> serving m wait run ratio -> serving m wait' run' ratio.
Proof.
  intros Hsub Hf [S1 S2 S3 S4 S5 S6 S7 S8 S9 S10 S11 S12 S13]. destruct (submseteq_Permutation _ _ Hsub) as [rest Hrest].
  pose proof (marked_goings _ _ Hf) as Hg. assert (Hrid : q_rid <$> goings run' = q_rid <$> goings run).
  { clear -Hg. induction Hg as [|q q' l l' Hq Hg IH]; [done|]. rewrite !fmap_cons, IH. unfold q_rid. by rewrite (mk_info _ _ Hq). }
  assert (Hw : forall Q, Forall Q wait -> Forall Q wait') by (intros Q HQ; rewrite Hrest in HQ; by apply Forall_app in HQ as [? _]).
  split; try done.
  - rewrite <- (app_nil_r (goings run')). apply (marked_ok m (goings run)); [done|]. by rewrite app_nil_r.
  - eapply marked_Forall; [|exact Hg|exact S5]. intros q q' [[Hk _ _ _ _] Hi _ Ho _] [G1 G2 G3]. split; unfold seqlen in *; rewrite ?Hk, ?Hi, ?Ho; done.
  - eapply marked_Forall; [|exact Hg|exact S6]. intros q q' Hq. by rewrite (mk_info _ _ Hq).
  - eapply marked_Forall; [|exact Hf|exact S7]. cbn beta. intros q q' Hq. rewrite (mk_going _ _ Hq). unfold nothing_held. by rewrite (sh_kvs _ _ (mk_hold _ _ Hq)).
  - eapply marked_Forall; [|exact Hf|exact S8]. cbn beta. intros q q' Hq. by rewrite (mk_info _ _ Hq), (mk_out _ _ Hq).
  - by apply Hw.
  - rewrite fmap_app, Hrid. rewrite fmap_app, Hrest, fmap_app, <- app_assoc in S10.
    apply NoDup_app in S10 as (N1 & N2 & N3). apply NoDup_app in N3 as (_ & _ & N3). apply NoDup_app. split; [done|]. split; [|done].
    intros x Hx Hx'. apply (N2 x Hx). apply elem_of_app. by right.
  - apply Forall2_length in Hf. unfold len in *. lia.
  - apply Forall_app in S13 as [S13 S13']. apply Forall_app. split; [by apply Hw|].
    eapply marked_Forall; [|exact Hg|exact S13']. cbn beta. intros q q' Hq. by rewrite (mk_prio _ _ Hq).
Qed.

(** ** Runs *)

(** Between turns requests arrive, time out and are aborted.  Those that arrive
    are within the limits ([queued_ok]): a prompt over the input limit is queued
    by the code with a limit that is not positive, and is left out here. *)
Inductive ar_step : server -> server -> Prop :=
  | step_arrive q queue gone s :
      queued_ok W q -> asks (info (creq q)) -> q_rid q ∉ q_rid <$> live_reqs s ->
      add_request_to_queue enable_priority low_first abort_disabled None entry q (waiting (sched s)) = Ok (queue, gone) ->
      ar_step s (with_waiting s queue)
  | step_abort P s : ar_step s (fst (abort_request P s))
  | step_waiting_timeout deadline s :
      ar_step s (with_waiting s (fst (abort_on_waiting_timeout deadline entry (waiting (sched s)))))
  | step_running_timeout deadline since s : ar_step s (abort_on_running_timeout deadline since s)
  | step_turn sample s s' : (forall b, length (sample b) = length (reqs b)) -> turn sample s = Ok s' -> ar_step s s'.

Lemma arrive_ok q queue gone s :
  server_ok s -> queued_ok W q -> q_rid q ∉ q_rid <$> live_reqs s ->
  add_request_to_queue enable_priority low_first abort_disabled None entry q (waiting (sched s)) = Ok (queue, gone) ->
  server_ok (with_waiting s queue).
Proof.
  intros [[S1 S2 S3 S4 S5 S6 S7 S8 S9 S10 S11 S12 S13] Hr Hl] Hq Hf. unfold add_request_to_queue.
  destruct (set_or_validate_priority _ _ _ q) as [q'|] eqn:Hv; [|by intros [= <- _]]. unfold abort_on_queued_limit. step_ok. intros [= <- _].
  destruct (validated enable_priority low_first abort_disabled q q' Hv) as (Hc & _ & Hp). apply Forall_app in S13 as [S13 S13'].
  split; [|done|done]. split; try done; cbn [with_waiting sched waiting].
  - apply Forall_app. split; [done|]. constructor; [|done]. destruct Hq as [Q1 Q2 Q3 Q4 Q5 Q6]. split; rewrite ?Hc; try done.
    unfold going, q_finished in *. by rewrite Hc.
  - assert (Hperm : (waiting (sched s) ++ [q']) ++ goings (server_reqs s) ≡ₚ q' :: live_reqs s) by (unfold live_reqs; solve_Permutation).
    change (server_reqs (with_waiting s _)) with (server_reqs s). rewrite Hperm, fmap_cons. apply NoDup_cons. split; [|done].
    unfold q_rid at 1. rewrite Hc. exact Hf.
  - repeat (apply Forall_app; split); try done. constructor; [|done]. exact Hp.
Qed.

Lemma step_ok_kept s s' : ar_step s s' -> server_ok s -> server_ok s'.
Proof.
  intros Hst Hok. destruct Hst as [q queue gone s Hq _ Hf Hadd|P s|deadline s|deadline since s|sample s s' Hsm Hrun].
  - by apply (arrive_ok q queue gone).
  - destruct Hok as [Hs Hr Hl]. split.
    + apply (serving_marked _ (waiting (sched s)) _ (server_reqs s)); [apply sublist_submseteq, sublist_filter| |done].
      unfold server_reqs. apply Forall2_app; [apply mark_all|]. cbn [abort_request fst last_batch]. destruct (last_batch s); [apply mark_all|constructor].
    + by apply mark_batch_ok.
    + cbn. intros l. destruct (last_batch s) as [l0|] eqn:He; [|done]. intros [= <-]. by apply mark_batch_ok, Hl.
  - destruct Hok as [Hs Hr Hl]. split; [|done|done].
    apply (serving_marked _ (waiting (sched s)) _ (server_reqs s)); [apply sublist_submseteq, sublist_filter|apply marked_refl|done].
  - destruct Hok as [Hs Hr Hl]. split; [|by apply mark_batch_ok|done].
    apply (serving_marked _ (waiting (sched s)) _ (server_reqs s)); [done| |done].
    unfold server_reqs. apply Forall2_app; [apply mark_all|apply marked_refl].
  - destruct (turn_goes sample s Hok Hsm) as (s2 & ab & Hrun2 & Ht). rewrite Hrun in Hrun2. injection Hrun2 as ->. apply Ht.
Qed.

(** Steps keep what requests ask for, and the flag. *)
Record steady (s : server) : Prop := {
  st_asks : all_info asks (live_reqs s);
  st_flag : 1 <= max_reqs -> takes_one prefill_max -> (forall i, asks i -> fits_pool slots i) -> flag_down s;
}.

Lemma marked_steady s s' :
  steady s -> batch_is_full (running (sched s')) = batch_is_full (running (sched s)) ->
  waiting (sched s') ⊆+ waiting (sched s) -> Forall2 marked (server_reqs s) (server_reqs s') -> steady s'.
Proof.
  intros [Ha Hf] Hfl Hsub Hm. apply Forall_app in Ha as [Haw Har]. split.
  - apply Forall_app. split.
    + destruct (submseteq_Permutation _ _ Hsub) as [rest Hrest]. rewrite Hrest in Haw. by apply Forall_app in Haw as [? _].
    + apply marked_goings in Hm. eapply marked_Forall; [|exact Hm|exact Har]. cbn beta. intros q q' Hq. by rewrite (mk_info _ _ Hq).
  - intros H1 H2 H3 Hnil. rewrite Hfl. apply (Hf H1 H2 H3). rewrite Hnil in Hm. by apply Forall2_nil_inv_r in Hm.
Qed.

Lemma step_steady s s' : ar_step s s' -> server_ok s -> steady s -> steady s'.
Proof.
  intros Hst Hok Hs. destruct Hst as [q queue gone s Hq Hask Hf Hadd|P s|deadline s|deadline since s|sample s s' Hsm Hrun].
  - destruct Hs as [Ha Hfl]. split; [|exact Hfl]. unfold add_request_to_queue in Hadd.
    destruct (set_or_validate_priority _ _ _ q) as [q'|] eqn:Hv; [|injection Hadd as <- _; exact Ha]. unfold abort_on_queued_limit in Hadd.
    revert Hadd. step_ok. intros [= <- _]. destruct (validated enable_priority low_first abort_disabled q q' Hv) as (Hc & _).
    apply Forall_app in Ha as [Haw Har]. unfold live_reqs. cbn [with_waiting sched waiting]. repeat (apply Forall_app; split); try done.
    constructor; [by rewrite Hc|done].
  - apply (marked_steady s); [done|done|apply sublist_submseteq, sublist_filter|]. unfold server_reqs. apply Forall2_app; [apply mark_all|].
    cbn [abort_request fst last_batch]. destruct (last_batch s); [apply mark_all|constructor].
  - apply (marked_steady s); [done|done|apply sublist_submseteq, sublist_filter|apply marked_refl].
  - apply (marked_steady s); [done|done|done|]. unfold server_reqs. apply Forall2_app; [apply mark_all|apply marked_refl].
  - destruct (turn_goes sample s Hok Hsm) as (s2 & ab & Hrun2 & Ht). rewrite Hrun in Hrun2. injection Hrun2 as <-. destruct Hs as [Ha Hfl].
    split; [by apply (td_info _ _ _ Ht)|]. intros H1 H2 H3. apply (td_flag _ _ _ Ht). split; [done|]. split; [done|]. split; [|by apply Hfl].
    eapply Forall_impl; [exact Ha|]. intros q. apply H3.
Qed.

(** ** The server's own checks *)

Lemma uncached_sum table t l :
  Forall (live table t) (goings l) -> Forall (fun q => going q = false -> nothing_held q) l ->
  exists sizes, mapM (uncached_of 1) l = Ok sizes /\ Decode.sum sizes = len (goings l ≫= own table).
Proof.
  induction l as [|q l IH]; intros Hv Hn; [by exists []|]. apply Forall_cons in Hn as [Hq Hn]. unfold goings in *. rewrite filter_cons in *.
  assert (Hstep : forall x sizes, uncached_of 1 q = Ok x -> mapM (uncached_of 1) l = Ok sizes -> mapM (uncached_of 1) (q :: l) = Ok (x :: sizes)).
  { intros x sizes Hx Hs. cbn. rewrite Hx. cbn. by rewrite Hs. }
  case_decide as Hg.
  - apply Forall_cons in Hv as [Hlq Hv]. destruct (IH Hv Hn) as (sizes & Hs & He). pose proof (lv_idx _ _ _ Hlq) as Hi. destruct (lv_flags _ _ _ Hlq) as [F1 F2].
    eexists. split; [eapply Hstep; [|exact Hs]; unfold uncached_of; rewrite F1, F2, Hi; reflexivity|].
    rewrite bind_cons, len_app, (own_length _ _ _ Hlq), <- He. done.
  - destruct (IH Hv Hn) as (sizes & Hs & He). destruct (Hq ltac:(by destruct (going q))) as (_ & F1 & F2).
    exists (0 :: sizes). split; [eapply Hstep; [|exact Hs]; unfold uncached_of; rewrite F1, F2; reflexivity|]. rewrite <- He. done.
Qed.

Lemma pool_counts m run :
  decode_ok slots [] [] [] m (goings run) -> is_not_in_free_group (kv m) = true ->
  check_full_pool 1 (len slots) (len (goings run ≫= own (req_to_token (rows m)))) m = false.
Proof.
  intros [D1 _ _ _ D5 D6 _] Hg. unfold check_full_pool, check_pool_invariant, kv_available. change (1 =? 1) with true. cbn match.
  rewrite Token.available_pool by done. apply Permutation_length in D1. rewrite !length_app in D1. cbn [length] in D1.
  pose proof (sizes_exact 1 false ltac:(lia) _ _ (tree m) D6) as Hsz. apply negb_false_iff, Z.eqb_eq. unfold len in *. lia.
Qed.

Lemma checks_pass s : server_ok s ->
  self_check_during_busy 1 (len slots) s = Ok tt /\ (server_reqs s = [] -> idle_check 1 (len slots) (armem (sched s)) = false).
Proof.
  intros [[S1 S2 S3 S4 S5 S6 S7 S8 S9 S10 S11 S12 S13] Hr Hl]. split.
  - unfold self_check_during_busy, get_total_uncached_sizes.
    assert (Hp : last_reqs (last_batch s) ++ reqs (running (sched s)) ≡ₚ server_reqs s) by (unfold server_reqs; apply Permutation_app_comm).
    set (all := match last_batch s with Some l => reqs l | None => [] end ++ reqs (running (sched s))). change (all ≡ₚ server_reqs s) in Hp.
    assert (Hgp : goings all ≡ₚ goings (server_reqs s)) by (unfold goings; by rewrite Hp).
    destruct (uncached_sum (req_to_token (rows (armem (sched s)))) (tree (armem (sched s))) all) as (sizes & Hs & He).
    + rewrite Hgp. apply S1.
    + by rewrite Hp.
    + rewrite Hs. do 2 step_ok. rewrite He, pool_counts; [done|by rewrite Hgp|done].
  - intros He. rewrite He in S1. unfold idle_check. pose proof (pool_counts _ [] S1 S2 : check_full_pool 1 (len slots) 0 _ = false) as Hc. rewrite Hc. cbn [orb].
    apply negb_false_iff, Nat.eqb_eq. pose proof (d_rows _ _ _ _ _ _ S1) as Hrw. apply Permutation_length in Hrw. rewrite !length_app, length_seq in Hrw. cbn in Hrw. lia.
Qed.

(** ** From the start *)

Context (sort : bool) (max_running : nat).
Hypothesis size_pos : 0 <= size.
Hypothesis reqs_fit : 0 <= max_reqs <= Z.of_nat max_running.
Notation start := (init_server time init_ratio size sort max_running W).

Lemma start_ok : server_ok start.
Proof.
  split; [|by left|done]. split; cbn [init_server sched armem waiting kv rows tree new_token_ratio pool_init pool_size max_context_len]; try done; try by cbn.
  - split; cbn [init_server sched armem kv rows tree pool_init req_to_token free_slots pool_size max_context_len]; try done.
    + rewrite Token.init_pool, reset_slots. cbn. by rewrite app_nil_r.
    + cbn. by rewrite app_nil_r.
    + apply length_replicate.
    + intros i row Hi. apply lookup_replicate in Hi as [-> _]. apply length_replicate.
    + apply (reset_ok 1 false). lia.
  - apply reqs_fit.
  - constructor.
  - apply reqs_fit.
Qed.

Lemma run_ok s : rtc ar_step start s -> server_ok s.
Proof.
  intros Hr. assert (Hgen : forall a b, rtc ar_step a b -> server_ok a -> server_ok b); [|by apply (Hgen _ _ Hr), start_ok].
  intros a b Hab. induction Hab as [|a c b Hst Hab IH]; [done|]. intros Ha. by apply IH, (step_ok_kept a).
Qed.

(** C24: the server never fails, with pages of one slot, preemption and chunked
    prefill off, and as long as the requests that arrive are within the limits
    ([queued_ok]: a nonempty prompt that with a limit of at least one token fits
    a row, which [received_request_fits] gives for a prompt below the input
    limit; a prompt over the limit does not, see [overlong_prompt_raises_budget]).
    Whatever such requests arrive, time out or are aborted, whatever the model
    samples, and whenever the next turn runs: the turn does not raise, whether it
    merges, admits and prefills, decodes, retracts or aborts; no allocation runs
    out of slots or rows. *)
Theorem ar_turn_never_fails s sample :
  rtc ar_step start s -> (forall b, length (sample b) = length (reqs b)) -> exists s', turn sample s = Ok s'.
Proof.
  intros Hr Hsm. destruct (turn_goes sample s (run_ok s Hr) Hsm) as (s' & _ & Hrun & _). by exists s'.
Qed.

(** C25: the memory checks of the server's runtime checker never report anything,
    on these servers (pages of one slot, preemption and chunked prefill off,
    arrivals within the limits): after any turn the free slots, the cached ones, and what the requests of the
    running and the last batch hold beyond their cached prefix add up to the
    pool, and when no batch has requests left every slot is free or cached and
    every row of the request table is free. *)
Theorem ar_server_no_leak s :
  rtc ar_step start s ->
  self_check_during_busy 1 size s = Ok tt /\ (server_reqs s = [] -> idle_check 1 size (armem (sched s)) = false).
Proof.
  intros Hr. pose proof (checks_pass s (run_ok s Hr)) as Hc. assert (Hl : len slots = size) by (unfold len; rewrite len_range; lia).
  by rewrite Hl in Hc.
Qed.

(** C26: no request is lost by a turn when preemption is off, on these
    servers (pages of one slot, arrivals within the limits).  A waiting request
    is afterwards waiting or in a batch; a running one is in a batch with its
    output extended, finished there, or waiting again with its output; except
    that a single request can be aborted, and only when it was the last one of
    the batch and does not fit the pool by itself. *)
Theorem ar_turn_keeps_requests s sample :
  rtc ar_step start s -> (forall b, length (sample b) = length (reqs b)) ->
  exists s' aborted, turn sample s = Ok s' /\
    (forall q, aborted = Some q -> server_reqs s' = [] /\ ~ fits_pool slots (info (creq q))) /\
    (forall q, q ∈ waiting (sched s) -> exists q', q' ∈ waiting (sched s') ++ server_reqs s' /\ continues q q') /\
    forall q, q ∈ server_reqs s -> going q = true ->
      (exists q', q' ∈ waiting (sched s') ++ server_reqs s' /\ continues q q') \/ aborted = Some q.
Proof.
  intros Hr Hsm. destruct (turn_goes sample s (run_ok s Hr) Hsm) as (s' & ab & Hrun & Ht). exists s', ab.
  split; [done|]. split; [apply Ht|]. split; [apply Ht|]. intros q Hq Hgo. apply (td_running _ _ _ Ht). unfold goings. apply list_elem_of_filter. by split.
Qed.

(** ** The server empties itself *)

Fixpoint turns (samples : nat -> batch -> list decode_result) (n : nat) (s : server) : res server :=
  match n with
  | O => Ok s
  | S n => s ← turn (samples O) s; turns (fun i => samples (S i)) n s
  end.

(** After some of the turns the request is finished in a batch, with its output
    extended. *)
Definition answered (samples : nat -> batch -> list decode_result) (n : nat) (s : server) (q : cache_req) : Prop :=
  exists k s1 q', (k <= n)%nat /\ turns samples k s = Ok s1 /\ q' ∈ server_reqs s1 /\ going q' = false /\ continues q q'.

Hypothesis samples_fit : 1 <= max_reqs.
Hypothesis prefill_takes : takes_one prefill_max.
Hypothesis asks_fit : forall i, asks i -> fits_pool slots i.

Lemma live_work s : server_ok s -> 0 <= work (live_reqs s) /\ (work (live_reqs s) <= 0 -> live_reqs s = []).
Proof.
  intros [[_ _ _ _ S5 _ _ _ S9 _ _ _ _] _ _].
  assert (Hr : Forall (fun q => 1 <= remaining q) (live_reqs s)).
  { apply Forall_app. split; [eapply Forall_impl; [exact S9|]; intros q Hq; pose proof (qo_out _ _ Hq); unfold remaining; lia|].
    eapply Forall_impl; [exact S5|]. intros q Hq. pose proof (gr_out _ _ Hq). unfold remaining. lia. }
  revert Hr. generalize (live_reqs s). intros l Hr. split; [apply work_pos; eapply Forall_impl; [exact Hr|]; intros q; cbn; lia|].
  destruct Hr as [|q l Hq Hl]; [done|]. change (q :: l) with ([q] ++ l). rewrite work_app. assert (Hw : work [q] = remaining q) by (unfold work; cbn; lia).
  assert (0 <= work l); [|lia]. apply work_pos. eapply Forall_impl; [exact Hl|]. intros x. cbn. lia.
Qed.

Lemma answered_step samples n s s1 q q1 :
  turn (samples O) s = Ok s1 -> continues q q1 -> q1 ∈ waiting (sched s1) ++ server_reqs s1 ->
  (forall q, q ∈ live_reqs s1 -> answered (fun i => samples (S i)) n s1 q) -> answered samples (S n) s q.
Proof.
  intros Hrun Hc Hq1 Hans. assert (Hfor : q1 ∈ live_reqs s1 -> answered samples (S n) s q).
  { intros (k & s2 & q2 & Hk & Hr & Hin & Hg & Hc2)%Hans. exists (S k), s2, q2. split; [lia|]. cbn [turns]. rewrite Hrun. step_ok.
    do 3 (split; [done|]). by transitivity q1. }
  destruct (going q1) eqn:Hg.
  - apply Hfor. unfold live_reqs, goings. rewrite elem_of_app, list_elem_of_filter. apply elem_of_app in Hq1 as [?|?]; [by left|by right].
  - apply elem_of_app in Hq1 as [Hw|Hr]; [apply Hfor; unfold live_reqs; rewrite elem_of_app; by left|].
    exists 1%nat, s1, q1. split; [lia|]. cbn [turns]. by rewrite Hrun.
Qed.

(** With requests that fit nothing is aborted for want of memory. *)
Lemma live_goes s s1 ab q : steady s -> turned s s1 ab -> q ∈ live_reqs s -> exists q1, q1 ∈ waiting (sched s1) ++ server_reqs s1 /\ continues q q1.
Proof.
  intros [Ha _] Ht Hq. assert (Hfit : fits_pool slots (info (creq q))).
  { apply asks_fit. unfold all_info in Ha. rewrite Forall_forall in Ha. by apply Ha. }
  unfold live_reqs in Hq. apply elem_of_app in Hq as [Hq|Hq]; [by apply (td_waiting _ _ _ Ht)|].
  destruct (td_running _ _ _ Ht q Hq) as [?|Hab]; [done|]. by destruct (td_abort _ _ _ Ht q Hab).
Qed.

(** Two turns for every token that is still wanted, and one more to see that
    nothing runs. *)
Lemma turns_drain : forall n samples s,
  (forall i b, length (samples i b) = length (reqs b)) -> server_ok s -> steady s ->
  2 * work (live_reqs s) + (if decide (server_reqs s = []) then 0 else 1) <= Z.of_nat n ->
  (exists s', turns samples n s = Ok s' /\ live_reqs s' = []) /\ forall q, q ∈ live_reqs s -> answered samples n s q.
Proof.
  induction n as [|n IH]; intros samples s Hsm Hok Hst Hn.
  { destruct (live_work s Hok) as [H0 Hnil]. assert (Hl : live_reqs s = []) by (apply Hnil; destruct (decide _); lia).
    split; [by exists s|]. rewrite Hl. by intros q ?%not_elem_of_nil. }
  destruct (turn_goes (samples O) s Hok (Hsm O)) as (s1 & ab & Hrun & Ht).
  assert (Hst1 : steady s1) by (eapply step_steady; [eapply step_turn; [apply Hsm|exact Hrun]|done|done]).
  destruct (IH (fun i => samples (S i)) s1) as [Hdr Hans]; [intros i; apply Hsm|apply Ht|done| |].
  2:{ split; [cbn [turns]; by rewrite Hrun|]. intros q Hq. destruct (live_goes s s1 ab q Hst Ht Hq) as (q1 & Hq1 & Hc).
      apply (answered_step _ _ _ s1 q q1); try done. }
  pose proof (td_work _ _ _ Ht) as Hw. destruct (live_work s1 (td_ok _ _ _ Ht)) as [H0 _].
  destruct (live_work s Hok) as [H0' Hnil]. destruct (decide (server_reqs s1 = [])) as [He1|He1]; [|destruct (decide (server_reqs s = [])); lia].
  destruct (decide (server_reqs s = [])) as [He|He]; [|lia].
  destruct (decide (waiting (sched s) = [])) as [Hwt|Hwt].
  - assert (Hl : work (live_reqs s) = 0) by (unfold live_reqs; rewrite Hwt, He; done). lia.
  - exfalso. refine (td_moves _ _ _ Ht _ He Hwt He1). destruct Hst as [Ha Hfl]. split; [done|]. split; [done|].
    split; [eapply Forall_impl; [exact Ha|]; intros q; apply asks_fit|by apply Hfl].
Qed.

Lemma run_steady s : rtc ar_step start s -> steady s.
Proof.
  intros Hr. assert (Hgen : forall a b, rtc ar_step a b -> server_ok a -> steady a -> steady b).
  { intros a b Hab. induction Hab as [|a c b Hst Hab IH]; [done|]. intros Ha Hs. apply IH; [by apply (step_ok_kept a)|by apply (step_steady a)]. }
  apply (Hgen _ _ Hr start_ok). split; [constructor|]. by intros _ _ _ _.
Qed.

(** C27: every request is answered, on these servers (pages of one slot,
    preemption and chunked prefill off, arrivals within the limits) if all the
    requests that arrived fit the pool, each by itself.  From any reachable
    state, once no more
    requests arrive, whatever the model samples, the turns go through and within
    two turns for each token that the requests may still get, plus one, every
    request, waiting or running, has been finished in a batch, its output
    extending what it had: there is no starvation, no livelock by retraction, no
    abort for want of memory, and the flag that stops admission cannot stay up. *)
Theorem ar_server_drains samples s n :
  rtc ar_step start s -> (forall n b, length (samples n b) = length (reqs b)) -> 2 * work (live_reqs s) + 1 <= Z.of_nat n ->
  (exists s', turns samples n s = Ok s' /\ live_reqs s' = []) /\ forall q, q ∈ live_reqs s -> answered samples n s q.
Proof.
  intros Hr Hsm Hn. apply turns_drain; [done|by apply run_ok|by apply run_steady|]. case_decide; lia.
Qed.
End service.
