(* ===== verification/ArFaults.v ===== *)
(** * Two faults of admission

    What the admission pass of the autoregressive server does wrong: requests
    that were preempted for one that is then not admitted are in no queue and no
    batch, and a prompt over the limit raises the budget of the requests after
    it.  ArExamples.v runs servers into both. *)

From S2P Require Import Prelude Allocator DllmReq MemCommon RadixKey RadixCache StableSort DecodeBatch DecodeRetract Preempt ArServer ArQueue.
From Stdlib Require Import QArith Lqa.
Import Radix Decode Ar Queue.
#[local] Open Scope Z_scope.

(** ** Preempted for nothing *)

Section preempted.
Context `{!HeapQ} (time : nat -> Z) (strat : strategy) (dfi : bool) (page : Z).
Context (steps clip : Z) (ratio : Q) (low_first : bool) (threshold : Z).
Context (entry : cache_req -> Z) (set_order : list cache_req -> list cache_req).
Notation preempt_to_schedule := (preempt_to_schedule time strat dfi page steps clip ratio low_first threshold entry set_order).
Notation release_chosen := (release_chosen time strat dfi page steps clip ratio).

Lemma victim_release_keeps ch b : forall idxs counter offset m keep rel o' m',
  release_chosen ch idxs counter offset b m = Ok (keep, rel, o', m') -> keep = filter (stays ch b) idxs.
Proof.
  induction idxs as [|i idxs IH]; intros counter offset m keep rel o' m'; cbn [Preempt.release_chosen]; [by intros [= <- _ _ _]|].
  intros (q & Hq & Hr)%res_bind_Ok. destruct (reqs b !! i) as [q0|] eqn:Hi; [|done]. injection Hq as <-. rewrite filter_cons.
  case_bool_decide as Hch; apply res_bind_Ok in Hr as (x & H1 & Hr).
  - destruct x as [q' m1]. apply res_bind_Ok in Hr as ([[[k1 r1] o1] m2] & H2 & [= <- _ _ _]).
    rewrite decide_False by (unfold stays; rewrite Hi; tauto). by eapply IH.
  - destruct x as [[[k1 r1] o1] m2]. injection Hr as <- _ _ _. rewrite decide_True by (unfold stays; by rewrite Hi). f_equal. by eapply IH.
Qed.

Lemma sort_keyed_perm {A K} (lt : K -> K -> bool) (key : A -> res K) l l' : sort_keyed lt key l = Ok l' -> l' ≡ₚ l.
Proof.
  unfold sort_keyed. intros (ks & Hks & [= <-])%res_bind_Ok. rewrite sort_by_perm.
  enough (Hs : snd <$> ks = l) by (by rewrite Hs). revert ks Hks. induction l as [|x l IH]; intros ks; cbn [mapM]; [by intros [= <-]|].
  intros (y & Hy & Hr)%res_bind_Ok. apply res_bind_Ok in Hr as (ys & Hys & [= <-]). apply res_bind_Ok in Hy as (k & _ & [= <-]).
  rewrite fmap_cons. f_equal. by apply IH.
Qed.

Lemma pick_elem {A} (l : list A) ks l' x : pick l ks = Ok l' -> x ∈ l' -> exists k, k ∈ ks /\ l !! k = Some x.
Proof.
  unfold pick. revert l'. induction ks as [|k ks IH]; intros l'; cbn [mapM]; [intros [= <-] ?%not_elem_of_nil; done|].
  intros (y & Hy & Hr)%res_bind_Ok. apply res_bind_Ok in Hr as (ys & Hys & [= <-]).
  destruct (l !! k) as [y'|] eqn:Hk; [|done]. injection Hy as <-. intros [->|Hx]%elem_of_cons.
  - exists k. split; [by left|done].
  - destruct (IH ys Hys Hx) as (j & Hj & Hl). exists j. split; [by right|done].
Qed.

(** The requests of a filtered batch are at kept positions. *)
Lemma filtered_kept ex keep b b' q :
  filter_batch ex (Some keep) b = Ok b' -> length keep <> length (reqs b) -> q ∈ reqs b' -> exists k, k ∈ keep /\ reqs b !! k = Some q.
Proof.
  unfold filter_batch. cbn [default from_option id]. case_bool_decide; [intros [= <-] _ ?%not_elem_of_nil; done|].
  rewrite <- Nat.eqb_neq. intros H1 H2. rewrite H2 in H1. apply res_bind_Ok in H1 as (rs & Hrs & H1).
  do 4 (apply res_bind_Ok in H1 as (? & _ & H1)). injection H1 as <-. by apply (pick_elem _ _ _ _ Hrs).
Qed.

(** A preemption that succeeds takes somebody who was running and unfinished. *)
Lemma preempt_removes avail r priority offset pl b m o' pl' b' m' :
  preempt_to_schedule avail r priority offset pl b m = Ok (true, o', pl', b', m') ->
  (exists p, p ∈ reqs b /\ q_finished p = false /\ q_rid p ∉ q_rid <$> reqs b') /\ forall q, q ∈ reqs b' -> q ∈ reqs b.
Proof.
  unfold Preempt.preempt_to_schedule. intros (l & Hl & Hr)%res_bind_Ok. apply res_bind_Ok in Hr as ([taken need] & Hc & Hr).
  destruct (bool_decide (taken = []) || _) eqn:Hcase; [done|]. apply orb_false_iff in Hcase as [Hne _]. rewrite bool_decide_eq_false in Hne.
  apply res_bind_Ok in Hr as ([[[keep rel] o1] m1] & Hrel & Hr). apply res_bind_Ok in Hr as (b1 & Hf & [= _ _ <- _]).
  assert (Htl : forall p need l acc taken need', choose clip ratio low_first threshold p need l acc = Ok (taken, need') ->
    forall x, x ∈ taken -> x ∈ acc \/ x ∈ l).
  { clear. intros p need l. revert need. induction l as [|y l IH]; intros need acc taken need'; cbn [choose]; [intros [= <- _]; tauto|].
    intros (py & _ & Hr)%res_bind_Ok x Hx. destruct (_ <? _); [|injection Hr as <- _; tauto].
    destruct (Qle_bool _ 0).
    - injection Hr as <- _. apply elem_of_app in Hx as [?| ->%list_elem_of_singleton]; [by left|right; by left].
    - destruct (IH _ _ _ _ Hr x Hx) as [[?| ->%list_elem_of_singleton]%elem_of_app|?]; [by left|right; by left|right; by right]. }
  destruct taken as [|p taken]; [done|].
  assert (Hp : p ∈ valid_running pl b).
  { assert (Hpl : p ∈ l).
    { destruct l as [|y l]; [by injection Hc|]. apply res_bind_Ok in Hc as (pr & _ & Hc).
      destruct (Htl _ _ _ _ _ _ Hc p ltac:(by left)) as [?%not_elem_of_nil|?]; done. }
    unfold sorted_valid_running in Hl. by rewrite <- (sort_keyed_perm _ _ _ _ Hl). }
  unfold valid_running in Hp. apply list_elem_of_filter in Hp as [Hv Hp]. apply andb_true_iff in Hv as [_ Hnf]. apply negb_true_iff in Hnf.
  apply victim_release_keeps in Hrel. subst keep. set (ch := q_rid <$> p :: taken) in *.
  assert (Hlen : length (filter (stays ch b) (seq 0 (length (reqs b)))) <> length (reqs b)).
  { apply list_elem_of_lookup in Hp as (i & Hi). assert (Hns : ~ stays ch b i) by (unfold stays; rewrite Hi; intros Hn; apply Hn; by left).
    assert (Hin : i ∈ seq 0 (length (reqs b))) by (apply elem_of_seq; apply lookup_lt_Some in Hi; lia).
    pose proof (length_filter_lt (stays ch b) (seq 0 (length (reqs b))) i Hin Hns) as Hlt. rewrite length_seq in Hlt. lia. }
  split.
  - exists p. split; [done|]. split; [done|]. intros (q & He & Hq)%list_elem_of_fmap.
    destruct (filtered_kept _ _ _ _ q Hf Hlen Hq) as (k & Hk & Hkq). apply list_elem_of_filter in Hk as [Hst _].
    unfold stays in Hst. rewrite Hkq in Hst. apply Hst. rewrite <- He. by left.
  - intros q Hq. destruct (filtered_kept _ _ _ _ q Hf Hlen Hq) as (k & _ & Hkq). by apply (list_elem_of_lookup_2 _ k).
Qed.
End preempted.

Section lost.
Context `{!HeapQ} (time : nat -> Z) (strat : strategy) (dfi : bool) (page_size : Z) (masked : lanes) (oob : Z -> Z) (empty : Z -> list Z).
Context (steps clip max_prefill max_batch : Z) (prefill_max : option Z) (low_first : bool) (threshold : Z).
Context (entry : cache_req -> Z) (set_order : list cache_req -> list cache_req).
Context (calc_priority : list cache_req -> batch -> radix -> res (list cache_req * radix)) (top_logprobs : req -> Z).
Notation get_new_batch_prefill := (get_new_batch_prefill time strat dfi page_size masked oob empty steps clip max_prefill max_batch prefill_max
  true low_first threshold entry set_order calc_priority top_logprobs).
Notation try_preempt := (try_preempt time strat dfi page_size steps clip low_first threshold entry set_order).
Notation add_one_req := (add_one_req page_size clip prefill_max).
Notation init_next_round_input := (init_next_round_input time page_size).

Lemma next_round_rid q t q' t' : init_next_round_input q t = Ok (q', t') -> q_rid q' = q_rid q.
Proof.
  unfold Ar.init_next_round_input. cbn zeta. intros ([[idx node] t1] & _ & [= <- _])%res_bind_Ok. done.
Qed.

(** C28: with priority preemption requests can be lost.  The running batch is full,
    the first request [q] of the ordered queue preempts somebody, and is then not
    admitted for lack of tokens (its estimate, made before its input was set up,
    was too low).  No batch is formed, and the list of preempted requests is
    dropped: some request that was running and not finished is afterwards neither
    in the running batch nor in the queue, and will never be answered. *)
Theorem preempted_request_lost s q rest t a1 b1 m1 q1 t1 a2 m2 :
  let b := set_full (running s) true in
  let a := adder_init clip max_prefill (new_token_ratio s) b in
  max_batch <= Z.of_nat (length (reqs (running s))) ->
  NoDup (q_rid <$> reqs (running s) ++ waiting s) ->
  calc_priority (waiting s) (set_full (running s) false) (tree (armem s)) = Ok (q :: rest, t) -> q :: rest ≡ₚ waiting s ->
  try_preempt (new_token_ratio s) q a b (Mem (kv (armem s)) (rows (armem s)) t) = Ok (true, a1, b1, m1) ->
  init_next_round_input q (tree m1) = Ok (q1, t1) ->
  add_one_req q1 a1 (Mem (kv m1) (rows m1) t1) = Ok (NO_TOKEN, a2, m2) -> can_run_list a2 = [] ->
  exists s' p, get_new_batch_prefill s = Ok (None, s') /\
    p ∈ reqs (running s) /\ q_finished p = false /\
    q_rid p ∉ q_rid <$> reqs (running s') ++ waiting s' /\ q_rid <$> waiting s' ≡ₚ q_rid <$> waiting s.
Proof.
  intros b a Hfull Hnd Hcalc Hperm Htry Hinit Hadd Hcan.
  pose proof (next_round_rid _ _ _ _ Hinit) as Hrid.
  assert (Hw : q_rid <$> q1 :: rest ≡ₚ q_rid <$> waiting s) by (rewrite <- Hperm, !fmap_cons, Hrid; done).
  destruct s as [run wait ratio mm]. cbn [running waiting new_token_ratio armem] in *.
  exists (ArSched (set_full b1 true) (q1 :: rest) ratio m2).
  pose proof Htry as Hpre. unfold Ar.try_preempt in Hpre. apply res_bind_Ok in Hpre as ([[[[dn off] pl] b'] m'] & Hpre & [= -> _ -> _]).
  apply preempt_removes in Hpre as [(p & Hp & Hfin & Hgone) Hsub]. exists p. split; [|split; [done|split; [done|split; [|done]]]].
  - unfold Ar.get_new_batch_prefill. cbn [running waiting new_token_ratio armem]. cbn zeta.
    assert (Hne : wait <> []) by (intros ->; by apply Permutation_nil_r in Hperm). change (batch_is_full (set_full run false)) with false.
    rewrite (bool_decide_eq_false_2 _ Hne). cbn [orb]. rewrite andb_false_r, Hcalc. step_ok. cbn [admit_waiting].
    unfold get_num_allocatable_reqs. change (reqs (set_full run false)) with (reqs run).
    change (len (can_run_list (adder_init clip max_prefill ratio (set_full run false)))) with 0.
    rewrite (proj2 (Z.leb_le (max_batch - Z.of_nat (length (reqs run))) 0)) by lia.
    change (set_full (set_full run false) true) with b. change (batch_is_full b) with true. cbn beta iota.
    change (adder_init clip max_prefill ratio (set_full run false)) with a.
    rewrite Htry. step_ok. cbn [negb]. rewrite Hinit. step_ok. rewrite Hadd. do 2 step_ok.
    by rewrite (bool_decide_eq_true_2 _ Hcan).
  - cbn [running waiting]. change (reqs (set_full b1 true)) with (reqs b1). rewrite fmap_app. intros [Hin|Hin]%elem_of_app; [done|].
    rewrite Hw in Hin. rewrite fmap_app in Hnd. apply NoDup_app in Hnd as (_ & Hdis & _). apply (Hdis (q_rid p)); [|done].
    by apply list_elem_of_fmap_2.
Qed.
End lost.

(** ** A prompt over the limit *)

Section overlong.
Context (page_size clip : Z) (prefill_max : option Z).
Notation add_one_req := (add_one_req page_size clip prefill_max).
Notation rem_total_tokens := (rem_total_tokens page_size).

(** Admitting a request charges its input and its limit, negative or not. *)
Lemma add_charges q a m res a' m' :
  page_size = 1 -> add_one_req q a m = Ok (res, a', m') -> can_run_list a' <> can_run_list a ->
  rem_total_token_offset a' = (rem_total_token_offset a
    + inject_Z (extend_input_len (inp (creq q)) + Z.min (max_new_tokens (sampling (info (creq q)))) clip + 1))%Q.
Proof.
  intros ->. unfold Ar.add_one_req. destruct (match prefill_max with Some x => _ | None => _ end); [by intros [= _ <- _]|].
  cbn zeta. destruct (Qle_bool _ _); [by intros [= _ <- _]|]. destruct (_ && _); [by intros [= _ <- _]|].
  intros ([x1 t1] & _ & Hr)%res_bind_Ok. destruct (Qle_bool _ _).
  { apply res_bind_Ok in Hr as ([x2 t2] & _ & [= _ <- _]). done. }
  apply res_bind_Ok in Hr as ([x2 t2] & _ & Hr). apply res_bind_Ok in Hr as ([x3 t3] & _ & [= _ <- _]). intros _.
  unfold update_prefill_budget, ceil_paged_tokens, add_can_run. cbn [rem_total_token_offset].
  rewrite !Z.div_1_r, !Z.mul_1_r, !Z.opp_involutive. done.
Qed.

(** C29: a prompt over the limit raises the budget.  A prompt of at least
    [max_req_len] tokens, with truncation off, is turned into an aborted request
    of one token, but its limit is computed from the long prompt and negative:
    at most [max_req_len - len prompt - 1].  When the admission pass takes it,
    with pages of one slot and a cache that holds nothing of it, the estimate of
    what the pool still has to provide changes by two tokens plus that limit:
    as soon as the prompt exceeds [max_req_len] by two tokens or more, the
    requests after it are admitted against more tokens than there are. *)
Theorem overlong_prompt_raises_budget max_req_len requested start r q a m res a' m' :
  let n := len (origin_input_ids (info r)) in
  let r' := handle_generate_request max_req_len false requested start r in
  max_req_len <= n -> info (creq q) = info r' -> extend_input_len (inp (creq q)) = len (origin_input_ids (info r')) -> page_size = 1 ->
  add_one_req q a m = Ok (res, a', m') -> can_run_list a' <> can_run_list a ->
  origin_input_ids (info r') = [0] /\ to_finish (out r') = Some FINISH_ABORT /\
  max_new_tokens (sampling (info r')) <= max_req_len - n - 1 /\
  (rem_total_tokens m a + inject_Z (n - max_req_len - 1) <= rem_total_tokens m a')%Q.
Proof.
  intros n r' Hn Hq Hext Hpage Hadd Hcan.
  assert (Hlim : origin_input_ids (info r') = [0] /\ to_finish (out r') = Some FINISH_ABORT /\
    max_new_tokens (sampling (info r')) = Z.min (default (2 ^ 30) requested) (max_req_len - n - 1)).
  { subst r'. unfold handle_generate_request, validate_input_length, init_req_max_new_tokens, max_req_input_len_of.
    cbn [info with_max_new set_info origin_input_ids]. fold n. rewrite (proj2 (Z.leb_le _ _)) by lia. done. }
  destruct Hlim as (Ho & Hf & Hm). split; [done|]. split; [done|]. split; [rewrite Hm; lia|].
  pose proof (add_charges q a m res a' m' Hpage Hadd Hcan) as Hc. unfold Ar.rem_total_tokens. rewrite Hc, Hext, Hq, Ho.
  change (len [0]) with 1. set (k := Z.min (max_new_tokens (sampling (info r'))) clip).
  assert (Hk : k <= max_req_len - n - 1) by (subst k; lia).
  assert (Hle : (inject_Z (1 + k + 1) <= inject_Z (max_req_len - n + 1))%Q) by (rewrite <- Zle_Qle; lia).
  assert (He : (inject_Z (n - max_req_len - 1) == - inject_Z (max_req_len - n + 1))%Q) 
    by (replace (n - max_req_len - 1) with (- (max_req_len - n + 1)) by lia; by rewrite inject_Z_opp).
  rewrite He. lra.
Qed.
End overlong.
