(* ===== verification/ArExamples.v ===== *)
(** * The autoregressive server on a concrete run

    A server with 24 slots and two requests at a time, from its start: a long
    request and a short one arrive and are prefilled and decoded, then an urgent
    one arrives that does not fit.  Without preemption it waits; with preemption
    the short request is preempted for nothing, and lost.  A second server of
    the same size receives a prompt that is longer than its pool. *)

From S2P Require Import Prelude Allocator DllmReq MemCommon RadixKey RadixCache RadixCacheProofs RadixCacheTheorems RadixCacheExamples StableSort SchedulePolicy SchedulePolicyProofs SchedulePolicyExamples DecodeBatch DecodeMemory DecodeRetract Preempt DecodeExamples ArServer ArQueue ArAdmission ArServerProofs ArPolicy ArService ArFaults.
From Stdlib Require Import QArith.
Import Radix Decode Ar Queue.
#[local] Open Scope Z_scope.

Definition ar_req (id prio max_new : Z) (prompt : list Z) : cache_req :=
  CacheReq
    (Req (ReqInfo id prompt (SamplingParams max_new false []) [] None 100 false (-1) false false)
      (ReqOut [] (LpChannels [] [] None None [] [] [] []) None None None)
      (ReqKV None 0 0 false false 0) (ReqIn [] [] 0 0 0 None 0))
    None (Some prio) 0.

Definition long_req : cache_req := ar_req 1 9 5 [1; 2; 3; 4; 5; 6; 7; 8].
Definition short_req : cache_req := ar_req 2 0 5 [3; 4].
Definition urgent_req : cache_req := ar_req 3 5 4 [1; 1; 1; 1; 1; 1; 1; 1; 1; 1].

Definition fcfs : Policy.schedule_policy := Policy.SchedulePolicy Policy.FCFS true false.

Definition demo_order_queue : list cache_req -> batch -> radix -> res (list cache_req * radix) :=
  order_queue demo_time demo_time (fun _ => 0) (@rev Policy.queued) demo_children 3 3 fcfs (fun _ => None) q_rid (reset demo_time 0 0).

#[local] Instance demo_queue_policy : QueuePolicy 16 (prio_ok true) demo_order_queue.
Proof.
  exact (order_queue_policy demo_time demo_time (fun _ => 0) (@rev Policy.queued) demo_children 3 3 fcfs (fun _ => None) q_rid (reset demo_time 0 0)
    demo_children_perm (fun q => Permutation_sym (Permutation_rev q)) ltac:(lia) 16).
Qed.

Definition demo_start : server := init_server demo_time (7 # 10) 24 false 3 16.

Definition demo_turn (preempt : bool) (s : server) : res server :=
  turn demo_time LRU false 1 zero_lanes (fun _ => 0) (fun _ => []) (fun _ => None) (fun _ => false) 20 (1 # 10) (1 # 10) (7 # 10)
    100 1000 2 None preempt false 0 q_rid (fun l => l) demo_order_queue (fun _ => 0) sample_five s.

Definition demo_arrive (q : cache_req) (s : server) : server :=
  match add_request_to_queue true false false None q_rid q (waiting (sched s)) with
  | Ok (queue, _) => with_waiting s queue
  | Raise _ => s
  end.

Definition next (s : server) (x : res server) : server := match x with Ok s' => s' | Raise _ => s end.
Definition ok_res {A} (x : res A) : bool := match x with Ok _ => true | Raise _ => false end.

Lemma next_ok s x : ok_res x = true -> x = Ok (next s x).
Proof. by destruct x. Qed.

Definition demo_1 : server := demo_arrive long_req demo_start.
Definition demo_2 : server := demo_arrive short_req demo_1.
Definition demo_3 : server := next demo_2 (demo_turn false demo_2).
Definition demo_4 : server := next demo_3 (demo_turn false demo_3).
Definition demo_5 : server := demo_arrive urgent_req demo_4.

Notation demo_step := (ar_step demo_time LRU false zero_lanes (fun _ => 0) (fun _ => []) (fun _ => None) (fun _ => false) 20 (1 # 10) (1 # 10) (7 # 10)
  100 1000 2 None false 0 q_rid (fun l => l) demo_order_queue (fun _ => 0) true false 16 (fits_pool (range 1 25))).

Definition rids_of (s : server) : list Z := q_rid <$> live_reqs s.

Lemma demo_arrival q s :
  queued_ok 16 q -> fits_pool (range 1 25) (info (creq q)) -> bool_decide (q_rid q ∈ rids_of s) = false -> ok_res (add_request_to_queue true false false None q_rid q (waiting (sched s))) = true ->
  demo_step s (demo_arrive q s).
Proof.
  intros Hq Hfit Hf Hok. unfold demo_arrive. destruct (add_request_to_queue _ _ _ _ _ q _) as [[queue gone]|] eqn:Ha; [|done].
  eapply step_arrive; [exact Hq|exact Hfit| |exact Ha]. by apply bool_decide_eq_false in Hf.
Qed.

Lemma demo_turned s : ok_res (demo_turn false s) = true -> demo_step s (next s (demo_turn false s)).
Proof. intros Hok. eapply step_turn; [exact sample_five_length|]. by apply next_ok. Qed.

Lemma demo_queued_ok q : q ∈ [long_req; short_req; urgent_req] -> queued_ok 16 q.
Proof.
  intros Hq. repeat (apply elem_of_cons in Hq as [->|Hq];
    [split; [reflexivity|split; reflexivity|reflexivity|vm_compute; discriminate|vm_compute; reflexivity|vm_compute; discriminate]|]).
  by apply not_elem_of_nil in Hq.
Qed.

Lemma ar_demo_reach : rtc demo_step demo_start demo_5.
Proof.
  eapply rtc_l; [apply demo_arrival; [apply demo_queued_ok; by left|vm_compute; reflexivity|vm_compute; reflexivity|vm_compute; reflexivity]|].
  eapply rtc_l; [apply demo_arrival; [apply demo_queued_ok; right; by left|vm_compute; reflexivity|vm_compute; reflexivity|vm_compute; reflexivity]|].
  eapply rtc_l; [apply demo_turned; vm_compute; reflexivity|].
  eapply rtc_l; [apply demo_turned; vm_compute; reflexivity|].
  apply rtc_once, demo_arrival; [apply demo_queued_ok; do 2 right; by left|vm_compute; reflexivity|vm_compute; reflexivity|vm_compute; reflexivity].
Qed.

(** Requests and outputs in the running batch, and who waits. *)
Definition outline (s : server) : list (Z * list Z) * list Z :=
  ((fun q => (q_rid q, output_ids (out (creq q)))) <$> server_reqs s, q_rid <$> waiting (sched s)).

Lemma ar_turn_never_fails_witness :
  exists s', demo_turn false demo_5 = Ok s' /\ outline s' = ([(1, [5; 5; 5]); (2, [5; 5; 5])], [3]).
Proof.
  destruct (ar_turn_never_fails demo_time LRU false zero_lanes (fun _ => 0) (fun _ => []) (fun _ => None) (fun _ => false) 20 (1 # 10) (1 # 10) (7 # 10)
    100 1000 2 None false 0 q_rid (fun l => l) demo_order_queue (fun _ => 0) true false 24 16 (fits_pool (range 1 25)) ltac:(lia) ltac:(lia) ltac:(discriminate) ltac:(discriminate)
    false 3 ltac:(lia) demo_5 sample_five ar_demo_reach sample_five_length) as [s' Hs].
  exists s'. split; [exact Hs|].
  assert (Hc : outline <$> result (demo_turn false demo_5) = Some ([(1, [5; 5; 5]); (2, [5; 5; 5])], [3])) by (vm_compute; reflexivity).
  unfold demo_turn in Hc. rewrite Hs in Hc. exact (Some_inj _ _ Hc).
Defined.

Lemma ar_server_no_leak_witness :
  self_check_during_busy 1 24 demo_5 = Ok tt /\ outline demo_5 = ([(1, [5; 5]); (2, [5; 5])], [3]) /\
  len (Token.pool (kv (armem (sched demo_5)))) = 12.
Proof.
  destruct (ar_server_no_leak demo_time LRU false zero_lanes (fun _ => 0) (fun _ => []) (fun _ => None) (fun _ => false) 20 (1 # 10) (1 # 10) (7 # 10)
    100 1000 2 None false 0 q_rid (fun l => l) demo_order_queue (fun _ => 0) true false 24 16 (fits_pool (range 1 25)) ltac:(lia) ltac:(lia) ltac:(discriminate) ltac:(discriminate)
    false 3 ltac:(lia) ltac:(lia) demo_5 ar_demo_reach) as [Hc _].
  split; [exact Hc|]. split; vm_compute; reflexivity.
Defined.

Lemma ar_turn_keeps_requests_witness :
  exists s' q, demo_turn false demo_5 = Ok s' /\ q ∈ waiting (sched demo_5) /\ q_rid q = 3 /\
    exists q', q' ∈ waiting (sched s') ++ server_reqs s' /\ continues q q'.
Proof.
  destruct (ar_turn_keeps_requests demo_time LRU false zero_lanes (fun _ => 0) (fun _ => []) (fun _ => None) (fun _ => false) 20 (1 # 10) (1 # 10) (7 # 10)
    100 1000 2 None false 0 q_rid (fun l => l) demo_order_queue (fun _ => 0) true false 24 16 (fits_pool (range 1 25)) ltac:(lia) ltac:(lia) ltac:(discriminate) ltac:(discriminate)
    false 3 ltac:(lia) demo_5 sample_five ar_demo_reach sample_five_length) as (s' & ab & Hs & _ & Hw & _).
  assert (Hq : waiting (sched demo_5) = [urgent_req]) by (vm_compute; reflexivity).
  assert (Hin : urgent_req ∈ waiting (sched demo_5)) by (rewrite Hq; by left).
  exists s', urgent_req. split; [exact Hs|]. split; [exact Hin|]. split; [reflexivity|exact (Hw _ Hin)].
Defined.

(** The same server with priority preemption on throughout. *)
Definition pre_3 : server := next demo_2 (demo_turn true demo_2).
Definition pre_4 : server := next pre_3 (demo_turn true pre_3).
Definition pre_5 : server := demo_arrive urgent_req pre_4.

(** Request 2 is being decoded and not finished when request 3, more urgent but
    too large for the memory, is considered: request 2 is preempted, request 3 is
    then not admitted, and request 2 is gone, although the memory checks report
    nothing.  Without preemption the same turn keeps it. *)
Example preempted_request_lost_run :
  exists s' s'', demo_turn true pre_5 = Ok s' /\ demo_turn false pre_5 = Ok s'' /\
    outline pre_5 = ([(1, [5; 5]); (2, [5; 5])], [3]) /\ forallb going (server_reqs pre_5) = true /\
    outline s' = ([(1, [5; 5; 5])], [3]) /\ self_check_during_busy 1 24 s' = Ok tt /\
    outline s'' = ([(1, [5; 5; 5]); (2, [5; 5; 5])], [3]).
Proof.
  exists (next pre_5 (demo_turn true pre_5)), (next pre_5 (demo_turn false pre_5)).
  split; [apply next_ok; vm_compute; reflexivity|]. split; [apply next_ok; vm_compute; reflexivity|].
  repeat split; vm_compute; reflexivity.
Qed.

Lemma preempted_request_lost_witness :
  exists s' p, get_new_batch_prefill demo_time LRU false 1 zero_lanes (fun _ => 0) (fun _ => []) 20 100 1000 2 None true false 0 q_rid (fun l => l)
      demo_order_queue (fun _ => 0) (sched pre_5) = Ok (None, s') /\
    p ∈ reqs (running (sched pre_5)) /\ q_rid p ∉ q_rid <$> reqs (running s') ++ waiting s'.
Proof.
  let w := eval vm_compute in (sched pre_5) in
  let o := eval vm_compute in (demo_order_queue (waiting w) (set_full (running w) false) (tree (armem w))) in
  match o with Ok (?q :: ?rest, ?t) =>
    let b := constr:(set_full (running w) true) in
    let x := eval vm_compute in (try_preempt demo_time LRU false 1 20 100 false 0 q_rid (fun l => l) (new_token_ratio w) q
      (adder_init 100 1000 (new_token_ratio w) b) b (Mem (kv (armem w)) (rows (armem w)) t)) in
    match x with Ok (true, ?a1, ?b1, ?m1) =>
      let y := eval vm_compute in (init_next_round_input demo_time 1 q (tree m1)) in
      match y with Ok (?q1, ?t1) =>
        let z := eval vm_compute in (add_one_req 1 100 None q1 a1 (Mem (kv m1) (rows m1) t1)) in
        match z with Ok (NO_TOKEN, ?a2, ?m2) =>
          destruct (preempted_request_lost demo_time LRU false 1 zero_lanes (fun _ => 0) (fun _ => []) 20 100 1000 2 None false 0 q_rid (fun l => l)
            demo_order_queue (fun _ => 0) (sched pre_5) q rest t a1 b1 m1 q1 t1 a2 m2) as (s' & p & H1 & H2 & _ & H4 & _)
        end
      end
    end
  end.
  - vm_compute. discriminate.
  - apply (bool_decide_unpack _). vm_compute. exact I.
  - vm_compute. reflexivity.
  - vm_compute. reflexivity.
  - vm_compute. reflexivity.
  - vm_compute. reflexivity.
  - vm_compute. reflexivity.
  - reflexivity.
  - exists s', p. split; [exact H1|]. split; [exact H2|exact H4].
Defined.

(** The queue of two is full and the newcomer is more urgent than one of them. *)
Lemma queue_limit_kept_witness :
  exists queue', add_request_to_queue true false false (Some 2) q_rid urgent_req [long_req; short_req] = Ok (queue', Some short_req) /\ len queue' <= 2.
Proof.
  destruct (Queue.queue_limit_kept true false false q_rid 2 urgent_req urgent_req [long_req; short_req] ltac:(lia) ltac:(vm_compute; discriminate)) as (queue' & gone & Hrun & Hl & _).
  - intros _. repeat constructor; eexists; reflexivity.
  - vm_compute. intros [Hc|[Hc|Hc%not_elem_of_nil]%elem_of_cons]%elem_of_cons; [discriminate|discriminate|done].
  - reflexivity.
  - assert (Hg : (fun x => snd x) <$> result (add_request_to_queue true false false (Some 2) q_rid urgent_req [long_req; short_req]) = Some (Some short_req))
      by (vm_compute; reflexivity).
    rewrite Hrun in Hg. cbn in Hg. injection Hg as ->. by exists queue'.
Defined.

(** ** Receiving requests *)

(** Contexts of 100 tokens over a pool of 24 slots. *)
Definition crash_limit : Z := max_req_len_of 100 24.

Definition receive (max_new : option Z) (q : cache_req) : cache_req :=
  with_req q (handle_generate_request crash_limit false max_new (-1) (creq q)).

(** Eight tokens that are being decoded, a prompt of sixty, and one of sixteen. *)
Definition early_req : cache_req := receive (Some 5) (ar_req 1 9 0 [1; 2; 3; 4; 5; 6; 7; 8]).
Definition overlong_req : cache_req := receive (Some 128) (ar_req 2 8 0 (replicate 60 7)).
Definition heavy_req : cache_req := receive None (ar_req 3 5 0 (replicate 16 6)).

Definition crash_turn (s : server) : res server :=
  turn demo_time LRU false 1 zero_lanes (fun _ => 0) (fun _ => []) (fun _ => None) (fun _ => false) 20 (1 # 10) (1 # 10) (7 # 10)
    100 1000 4 None false false 0 q_rid (fun l => l) demo_order_queue (fun _ => 0) sample_five s.

Definition crash_start : server := init_server demo_time (7 # 10) 24 false 4 100.
Definition crash_1 : server := demo_arrive early_req crash_start.
Definition crash_2 : server := next crash_1 (crash_turn crash_1).

(** A prompt longer than the pool, but not than the context, can bring the server
    down.  Admitting it raises the budget of the pass: the next request, which
    alone has to wait for memory, is admitted, and the allocation of the prefill
    raises RuntimeError.  With either request alone the same turn goes through. *)
Example long_prompt_crashes :
  origin_input_ids (info (creq overlong_req)) = [0] /\ to_finish (out (creq overlong_req)) = Some FINISH_ABORT /\
  max_new_tokens (sampling (info (creq overlong_req))) = -38 /\
  outline crash_2 = ([(1, [5])], []) /\
  outline <$> result (crash_turn (demo_arrive heavy_req crash_2)) = Some ([(1, [5; 5])], [3]) /\
  outline <$> result (crash_turn (demo_arrive overlong_req crash_2)) = Some ([(1, [5]); (2, [5])], []) /\
  crash_turn (demo_arrive heavy_req (demo_arrive overlong_req crash_2)) = Raise RuntimeError.
Proof. repeat split; vm_compute; reflexivity. Qed.

(** The long prompt in the admission pass of that server. *)
Definition overlong_input : cache_req :=
  match init_next_round_input demo_time 1 overlong_req (tree (armem (sched crash_2))) with Ok (q, _) => q | Raise _ => overlong_req end.
Definition crash_adder : adder := adder_init 100 1000 (7 # 10) (running (sched crash_2)).

Lemma overlong_prompt_raises_budget_witness :
  exists res a' m', add_one_req 1 100 None overlong_input crash_adder (armem (sched crash_2)) = Ok (res, a', m') /\
    (rem_total_tokens 1 (armem (sched crash_2)) crash_adder + 36 <= rem_total_tokens 1 (armem (sched crash_2)) a')%Q.
Proof.
  eexists _, _, _. split; [vm_compute; reflexivity|].
  refine (proj2 (proj2 (proj2 (overlong_prompt_raises_budget 1 100 None crash_limit (Some 128) (-1) (creq (ar_req 2 8 0 (replicate 60 7)))
    overlong_input crash_adder (armem (sched crash_2)) _ _ _ _ _ _ _ _ _)))).
  - vm_compute. discriminate.
  - vm_compute. reflexivity.
  - vm_compute. reflexivity.
  - reflexivity.
  - vm_compute. reflexivity.
  - vm_compute. discriminate.
Defined.

Lemma received_request_fits_witness :
  intake_ok 100 24 (creq (ar_req 3 5 0 (replicate 16 6))) (creq heavy_req) /\ max_new_tokens (sampling (info (creq heavy_req))) = 6.
Proof.
  split; [|reflexivity].
  apply (Queue.received_request_fits 100 24 false None (-1) (creq (ar_req 3 5 0 (replicate 16 6)))); [vm_compute; reflexivity|discriminate].
Defined.

Notation demo_args f := (f demo_time LRU false zero_lanes (fun _ => 0) (fun _ => []) (fun _ => None) (fun _ => false) 20 (1 # 10) (1 # 10) (7 # 10)
  100 1000 2 None false 0 q_rid (fun l => l) demo_order_queue (fun _ => 0) (fun _ => sample_five)) (only parsing).

(** From the state above, 21 turns of tokens 5 finish all three requests. *)
Lemma ar_server_drains_witness :
  rids_of demo_5 = [3; 1; 2] /\ 2 * work (live_reqs demo_5) + 1 = 21 /\
  (exists s', demo_args turns 21%nat demo_5 = Ok s' /\ live_reqs s' = []) /\ demo_args answered 21%nat demo_5 urgent_req.
Proof.
  assert (Hw : 2 * work (live_reqs demo_5) + 1 = 21) by (vm_compute; reflexivity).
  destruct (ar_server_drains demo_time LRU false zero_lanes (fun _ => 0) (fun _ => []) (fun _ => None) (fun _ => false) 20 (1 # 10) (1 # 10) (7 # 10)
    100 1000 2 None false 0 q_rid (fun l => l) demo_order_queue (fun _ => 0) true false 24 16 (fits_pool (range 1 25)) ltac:(lia) ltac:(lia)
    ltac:(discriminate) ltac:(discriminate) false 3 ltac:(lia) ltac:(lia) I ltac:(done) (fun _ => sample_five) demo_5 21 ar_demo_reach
    (fun _ => sample_five_length) ltac:(lia)) as [Hdr Hans].
  split; [vm_compute; reflexivity|]. split; [exact Hw|]. split; [exact Hdr|]. apply Hans.
  assert (Hq : waiting (sched demo_5) = [urgent_req]) by (vm_compute; reflexivity).
  unfold live_reqs. rewrite Hq. by left.
Defined.
